(* ===== verification/_CoqProject ===== *)
-Q . S2P
Prelude.v
Sorting.v
Regex.v
Schema.v
Results.v
Canonical.v
CanonicalSpec.v
Documents.v
DocumentsSpec.v
Statemachine.v
StatemachineSpec.v
Budget.v
Executor.v
ExecutorSpec.v
ExecutorLog.v
ExecutorRun.v
Report.v
Planner.v
PlannerSpec.v
DriverProtocol.v
DriverProtocolSpec.v
DriverCodec.v
SSE.v
SSESpec.v
Journal.v
Minimizer.v
Oracle.v
OracleSpec.v
OracleSchema.v
Redaction.v
RedactionSpec.v
Evidence.v
CAS.v
Disk.v
CASSpec.v
Recorder.v
RunStore.v
RunDisk.v
Normalizer.v
RawJSON.v
RawStream.v
RawStreamSpec.v
RawEvaluate.v
RawEvaluateSpec.v
Transport.v
TransportSpec.v
RawRegistry.v
RawRegistrySpec.v
Attribution.v
RawRunner.v
RawRunnerSpec.v
PackPattern.v
PackPatternSpec.v
Yaml.v
Pack.v
PackSpec.v
PackCompile.v
PackCompileSpec.v
RegistryAuth.v
RegistryIngest.v
RegistryChallenge.v
RegistryOwnership.v
RegistryDispute.v
RegistryPurge.v
RateLimit.v
Observation.v
Base64.v
Envelope.v
StoreMemory.v
StoreSpec.v
Httpapi.v
HttpapiSpec.v
Config.v
ProductPlan.v
ProductPlanSpec.v
Secret.v
ProductRun.v
ProductRunSpec.v
Render.v
RenderSpec.v
