(* ===== verification/Prelude.v ===== *)
(** * AgentAPI Doctor: a verification development

    AgentAPI Doctor tests AI API endpoints.  It plans scenarios, drives a
    client through them under a budget, records the transport evidence,
    judges the evidence with oracles, attributes failures to a fault domain,
    shrinks failing inputs, journals and signs the run, compares it with a
    baseline, stores it, and publishes observations to a registry.  This library models
    the parts of the Go code in which those decisions are made and proves
    what makes them correct.

    ** The components and how they interact

    A file [XSpec.v] holds the abstract specification of the component of
    [X.v] and the theorems about it; where there is no such file, [X.v] holds
    them after the definitions.

    - Prelude.v (this file).  What every component uses of Go: errors as
      values, [result] for the (value, error) pairs, a state-and-error monad
      for methods, machine integers, times, [strings.TrimSpace], loops that
      stop at the first error, and the shared lemmas and tactics.  Sorting.v:
      [slices.Sort] and [slices.Compact] on strings.
    - Schema.v, Results.v, Documents.v, DocumentsSpec.v: pkg/schema.  Digests,
      instance identifiers and their generator, object references, artifact
      pins, budgets, [validateScenarioDAG]; attempts, assertions and case
      results; document envelopes with their sealing, intent plans and
      resolved plans.  Every other component validates its input with these.
    - Canonical.v, CanonicalSpec.v: pkg/schema/canonical.go and [NewDigest].
      The strict scan that every signed or hashed JSON document passes, and
      the digests made of it.
    - Planner.v, PlannerSpec.v: internal/planner/planner.go.  [BuildIntent]
      freezes what may run; [Resolve] decides every candidate by what was
      observed, within the intent.  The resolved plan is the executor's input.
    - Budget.v: internal/budget/ledger.go.  The record [Ledger] with a heap of
      reservations, which are shared pointers in the source; all methods hold
      one mutex, so a concurrent run is a list of operations.
    - Executor.v, ExecutorSpec.v, ExecutorLog.v, ExecutorRun.v:
      internal/executor/executor.go.  [Execute] drives the scenarios of a plan
      under the ledger, with retries, dependencies, finalizers and an
      environment that may do anything.  ExecutorSpec.v has the accounting,
      ExecutorLog.v the log of the calls, ExecutorRun.v the reported cases and
      that the log can be erased.
    - Statemachine.v, StatemachineSpec.v: internal/statemachine/response.go.
      The record [Machine] and one definition per handler of
      [Machine.Apply]; the specification is [accepted], a predicate on the
      history of events that mentions no machine state.
    - DriverProtocol.v, DriverProtocolSpec.v: pkg/driverprotocol (protocol.go,
      state.go, the parameter checks of codec.go).  JSON-RPC messages, their
      validation, and the serial lifecycle machine; the specification is a
      grammar of whole sessions.  DriverCodec.v: the frame encoder and decoder
      of codec.go over a bounded reader.
    - SSE.v, SSESpec.v: internal/recorder/sse.go.  The incremental assembler of
      server-sent events and a declarative parse of a whole byte stream.
    - Oracle.v, OracleSpec.v, OracleSchema.v: internal/oracle.  The stream
      oracle runs the machine of Statemachine.v, and its verdicts are stated
      with the specification of StatemachineSpec.v; the relational oracle
      judges normalized items; the schema oracle judges one document.
    - Normalizer.v: internal/normalizer/normalizer.go, which makes those items.
    - RawJSON.v, RawStream.v, RawStreamSpec.v, RawEvaluate.v,
      RawEvaluateSpec.v: internal/rawdriver/evaluate.go.  One HTTP exchange is
      parsed (by SSE.v when it streams), translated to lifecycle events and
      items, judged by the three oracles and by the scenario's own check.
    - Regex.v, Redaction.v, RedactionSpec.v: internal/redaction/redactor.go.
      The detectors as regular expressions on the matcher of Regex.v, text,
      headers and the walk over decoded JSON.  Nothing is stored before it
      passed here.
    - Evidence.v: pkg/schema/evidence.go.  CAS.v, CASSpec.v: internal/cas, the
      content-addressed store, over a file system that may do anything between
      two calls; Disk.v is an ordinary one.  Recorder.v:
      internal/recorder/recorder.go, which sanitizes an observation with
      Redaction.v and stores payload and envelope in CAS.v.
    - RawRegistry.v, RawRegistrySpec.v: internal/rawdriver/registry.go, with
      the memory a registered scenario shares with its caller as a heap.
      RawRunner.v, RawRunnerSpec.v: internal/rawdriver/runner.go.  [Run] looks
      a scenario up, sends it, records request and response through
      Recorder.v and evaluates with RawEvaluate.v; it is one of the executor's
      runners, and [ScenarioRegistry] is what it asks of the registry.
    - Transport.v, TransportSpec.v: internal/transport/client.go, the HTTP
      client that is bound to one origin, with the addresses and prefixes of
      net/netip.
    - RunStore.v, RunDisk.v: internal/runstore, where runs are
      published as directories and read back; RunDisk.v has the store on the
      disk of Disk.v.
    - PackPattern.v, PackPatternSpec.v: the names, paths, globs, byte sizes and
      templates of pkg/packapi.  Yaml.v: yaml.go, the strict subset
      of YAML.  Pack.v, PackSpec.v: types.go, cel.go and the scenario half of
      validate.go.  PackCompile.v, PackCompileSpec.v: compile.go and the pack
      half of validate.go.  Compiled packs are what the planner's candidates
      come from.
    - Config.v: internal/config, targets and where their credentials are.
      Secret.v: internal/secret, which resolves them.  ProductPlan.v,
      ProductPlanSpec.v: internal/productrun up to a checked plan: the built-in
      scenarios, the route of a target, what is hashed, [Build],
      [validatePlanned] and the stored projection of a plan.  ProductRun.v,
      ProductRunSpec.v: execute.go, which puts the parts together: the
      registry of RawRegistry.v, the client of Transport.v, the stores of CAS.v
      and RunStore.v, the runner of RawRunner.v under the executor of
      Executor.v, and the report of Report.v.  The sample of ProductRunSpec.v
      runs the whole composition on four scenarios.
    - Attribution.v: internal/attribution/attribution.go.  Fault domains from
      control experiments.
    - Minimizer.v: internal/minimizer/minimizer.go.  Bounded delta debugging
      with a predicate that may be flaky or fail.
    - Journal.v: internal/provenance/journal.go.  The hash-chained journal of a
      run.  Base64.v, Envelope.v: internal/provenance/envelope.go, the signed
      envelopes.
    - Report.v: internal/report (the validator and counts of report.go, and
      baseline.go).  Render.v, RenderSpec.v: decoding, and render.go and har.go:
      the terminal, Markdown, JUnit, SARIF, HTML and HAR forms of a report with
      their escaping.
    - Observation.v: registry/api/observation.go.  StoreMemory.v, StoreSpec.v:
      internal/registry/store (store.go, memory.go), the in-memory store with
      its cursors, over the records of the following files.
    - RegistryAuth.v: internal/registry/auth.go and errors.go, with the checks
      the registry records share.  RegistryIngest.v (ingest.go),
      RegistryChallenge.v and RegistryOwnership.v (ownership.go),
      RegistryDispute.v (dispute.go), RegistryPurge.v (purge.go): each record
      with its operations and its snapshot, and [Restore...] where the source
      has one.  RateLimit.v: internal/registry/httpapi/ratelimit.go.  Httpapi.v,
      HttpapiSpec.v: internal/registry/httpapi, the handlers over all of these,
      from a request and the registry to a reply and the registry.

    ** Conventions

    A Go struct is a Record with the source's field names, prefixed where two
    structs of one file share a name; a string enumeration is its strings,
    one Definition per constant, so that values outside the enumeration exist
    as they do in Go.  A function that returns an error is a [result]; a
    method that changes its receiver takes the record last and returns the
    pair of its answer and the new record, so that what an error path leaves
    behind is visible.  A method that holds the mutex and delegates to a body
    is written [Op] over [Op_body].  A loop body is a definition of its own,
    named after what a turn does.  A nil pointer is [None]; a dereference
    that could panic is a distinct failure ([NilDereference], or [None] of an
    [Evaluation]), proved unreachable where it matters.  [int64] and [uint64]
    arithmetic wraps explicitly ([int64_wrap], [uint64_wrap]).  Error values
    keep the sentinel, the format string and the arguments, in the order of
    the source's checks; the text that fmt makes of them is not interpreted.
    A time is its distance from Go's zero time, in nanoseconds.

    ** What the theorems show

    - The response lifecycle (StatemachineSpec.v): the handlers accept exactly
      the admissible histories, a rejected event changes nothing, arguments
      are the concatenation of their deltas, and a finished stream has one
      terminal event, its last.
    - Plans (Schema.v, PlannerSpec.v): an accepted decision list is a
      topological order; an intent authorises exactly what its candidates ask
      for, whatever their order; a resolved plan decides by observation; and,
      with the executor, nothing runs that was not approved or whose
      capabilities were not observed.
    - Execution (ExecutorSpec.v, ExecutorRun.v): every reservation is settled
      whatever the runners answer within nonnegative usage, every scenario is reported once with its
      attempts and evidence, and calls follow the plan's order, dependencies
      and retry bounds.
    - The ledger (Budget.v): the reserved account is the sum of the open
      reservations after any operations, limits are respected, a reservation
      is settled once, exhaustion is final; and, at machine width, the
      projected sum of [Reserve] can wrap.
    - The driver protocol (DriverProtocolSpec.v, DriverCodec.v): the
      machine accepts exactly the sessions of the grammar, what [Apply]
      accepts of any stream of messages is a session, one [Decode] reads one
      line of the stream, and encoded frames of canonical
      messages decode to their messages.
    - Server-sent events (SSESpec.v): a stream within the limits is accepted
      however it was cut and gives the events of the reference parse; any two
      accepted cuttings give the same events.
    - Documents (CanonicalSpec.v, DocumentsSpec.v): the strict scan accepts
      exactly the token streams of one document with unique member names and
      bounded nesting; minted identifiers and sealed envelopes are valid.
    - Verdicts (OracleSpec.v, OracleSchema.v, Normalizer.v, RawStreamSpec.v,
      RawEvaluateSpec.v) and attribution (Attribution.v): a target is blamed
      only on sound evidence of a violation; a schema failure is
      non-conformance; the translation of a stream invents nothing; a
      terminal-event scenario passes exactly on a well-ended stream; a fault
      domain is named only when the experiments isolate it, and more evidence
      never weakens an attribution.
    - Redaction and evidence (RedactionSpec.v, CASSpec.v, Recorder.v): no
      detector finds anything in redacted text unless a canary touched it, sensitive members and canaries
      do not survive, bytes and envelopes are answered only under their
      digests with their whole relation graph, and a recorder numbers its
      evidence without gaps.
    - The raw driver (RawRegistrySpec.v, RawRunnerSpec.v): an estimate is about
      the one scenario that would run, every report of the runner is accepted
      by the executor's validation with bounded evidence of its own attempt,
      and a run stays within its estimate.
    - The transport client (TransportSpec.v): which addresses a public runner
      may dial, that connections are opened only to the authorized host and
      allowed addresses, and that every request stays at its origin.
    - The run store (RunStore.v, RunDisk.v): on any file system records are
      answered only with their digests and names checked; on an ordinary disk
      a published run is immutable.
    - The pack compiler (PackPatternSpec.v, Yaml.v, PackCompileSpec.v):
      accepted YAML is plain JSON and is converted to what it spells out, a
      compiled scenario is closed, pins what it uses and links its assertions
      to the catalog, a compiled pack pins exactly what it selects, templates
      expand in one pass, paths and globs stay where they say.
    - Whole runs (ProductPlanSpec.v, Secret.v, ProductRunSpec.v): what is
      planned for two targets that differ only in secret references and
      private metadata is the same; built plans pass the checks of execution
      and a decoded plan is bound to its envelopes and its target; a resolved secret comes from an approved
      source; the exit code of a run, each of the six, is what its cases,
      one per planned scenario, call for; and what it stores is a canonical report and plan in
      which the credential does not occur.
    - The minimizer (Minimizer.v): results of a reproduced input were
      confirmed, conclusive ones are 1-minimal, and the loops end.
    - Provenance (Journal.v, Envelope.v): appended journals are well
      formed, [Verify] decides well-formedness, the last digest pins the
      history, the file encoding round-trips; a verified envelope carries
      enough signatures of different trusted keys, and signing round-trips.
    - Baselines (Report.v): a comparison reports every scenario's change once.
    - Rendered reports (RenderSpec.v): terminal text carries no control
      character, Markdown rows keep their columns and the escapers leave no
      unescaped markup, JUnit totals are
      the counts of the report, and the SARIF rules are those of its results.
    - The registry: an observation is named by its content and published
      content is permanent; a client that follows the cursors reaches
      the last page and receives once what was there from the start; publication follows the whole ingest path and commits
      can be replayed; ownership is verified in time, moved by a transfer
      without duplication and lost for good; disputes keep a well-shaped
      journal with an independent review; a purge completes exactly when
      every store was decided; durable records restore from their snapshots,
      for disputes exactly when the event times do not decrease; the rate
      limiter's memory is bounded and a window admits exactly its limit.  Over
      HTTP (HttpapiSpec.v) every request is answered, the registry changes only
      on an authenticated and authorized writing route, staged uploads match
      their sessions, and badges carry no markup of their subject.

    ** Bounds and fuel

    - [SSE.feed_loop] has one unit of fuel per buffered byte and one more:
      each turn consumes a line with its LF, at least one byte.
      The 1024-fields limit is the source's.
    - [Minimizer.minimize] has [S (n * (n + 2) + n)] rounds for [n] items: a
      round either removes an item or raises the granularity, and
      the termination theorem of [DDMin] shows that the fuel never runs out.
      Its inner [sweep] has one unit per item, since every chunk has one;
      running out is the error [out_of_rounds] in both.
    - [Canonical.scanJSONValue] has two units of fuel per pending token and
      three more: each value takes a token and each member takes its name;
      [validateUniqueJSON_total] shows that the fuel never runs out.
    - [DriverCodec.decode_loop] and [DriverCodec.drain] have one unit per
      unread byte and one more: each read of the buffer consumes a byte or
      ends the loop.  The reader reports its end by a read of its own.
    - [Executor.attempt_loop] runs once per allowed attempt of the plan.
    - [Regex.star] and [PackPattern.find_all] have one unit per byte of the
      text: a repetition or a step that continues consumes a byte.
    - [CAS.getEvidence] has one unit per level of relations below the source's
      own depth limit, and fails as the source does when none is left.
    - [Transport.follow] has one unit per redirect that the client allows.
    - The trimming loop runs once per byte of the string.
    - [Httpapi.fields] has one unit per byte of the header it splits.
    - [Render.safe_runes] has one unit per rune and [Render.exchange_sort] one
      per rule; [safe_runes_fuel] shows that more changes nothing.
    - The other loops are structural.

    ** Parameters

    Code outside the repository is an argument of the definitions that use
    it: [JSONLibrary] (the tokenizer of encoding/json, the third-party RFC
    8785 transformation and SHA-256, in Canonical.v), [DocumentLibrary] (URL
    parsing and encoding/json at the document types), [JSONCodec],
    [FrameCodec], [JournalCodec], [BaselineCodec], [ObservationCodec] and
    [StoreCodec] (encoding/json at the types of one component each),
    [AnyDecoder], [NativeLibrary] and [ExchangeLibrary] (decoding of untyped
    JSON, case folding and media types), [Ed25519], [Environment] (the clock,
    the context, the identifier source and the runners of the executor),
    [RangeOrder] (Go's map iteration order, in this file), and the
    minimizer's predicate and context.
    [FileSystem] and [RunFileSystem] (package os), [EvidenceCodec], [RunnerCodec]
    and [RunCodec] (encoding/json at their types; [RunCodecLaws] says that a
    record of canonical documents decodes to itself, [FrameLaws] the same of
    driver messages), [RedactionLibrary] and [RegistryLibrary] (untyped
    JSON, case folding, header and URL syntax), [RunnerEnvironment] (clock,
    identifiers and the transport of the raw runner), [AddressLibrary] and
    [Network] (URL syntax, name resolution, connections and single HTTP
    exchanges), [CELLibrary] (cel-go), [AuthoredLibrary] (the YAML parser, the
    JSON schema validator and encoding/json at the pack types) and
    [SortBindings] (an unstable sort), [HTTPLibrary] (net/http, mime and
    encoding/json at the registry's types), [ConfigLibrary] and [ConfigFiles]
    (the YAML codec and the directory of a configuration), [SecretSystem]
    (environment, files and helper processes), [ProductLibrary] and
    [PlanEnvironment] (encoding/json at the plan types, the clock and the
    identifiers), [RunEnvironment] (the context, the data root and the
    secrets of a run) and [RenderLibrary] (package unicode beyond ASCII, and
    the XML, JSON and HTML encoders; [UnicodeLaws] says that case mappings keep
    text visible) are of the same kind.  A theorem that needs a law of one of
    them names it as a hypothesis and has a concrete instance.

    ** What is not modelled

    Argument parsing, entry points and process control (cli, cmd, buildinfo,
    openaisdkcase); the SQL store of the registry, whose behaviour is that of
    SQL statements; the catalog tools and the support checker, which maintain
    documents of the repository; certificate
    files (tls.go) and Windows permissions; [RedactURL] and the overwriting of
    buffers ([secret.Wipe]); the JSON schema documents (jsonschema.go, data for
    a library); the reference servers, which are test fixtures; generated
    documents.  internal/statistics computes with floating-point numbers. *)
From Stdlib Require Import ZArith Ascii String Lia.
From stdpp Require Import base gmap sets list strings sorting.

Declare Scope go_scope.
Delimit Scope go_scope with go.
Local Open Scope Z_scope.

(** ** Errors

    A Go [error] value.  [Sentinel] is a package-level variable compared by
    identity through [errors.Is]; [ErrorNew] is a value made by [errors.New]
    or [fmt.Errorf] at the return site; [Wrapf] is [fmt.Errorf] with [%w].
    Formatting is kept uninterpreted: a message carries its format string and
    its arguments, so that a reader can compare it with the source while no
    theorem depends on how [fmt] renders it. *)
Inductive fmt_arg :=
| FStr (s : string)
| FInt (z : Z).

Inductive message :=
| Text (s : string)
| Sprintf (format : string) (args : list fmt_arg).

Inductive error :=
| Sentinel (name : string)
| ErrorNew (m : message)
| Wrapf (m : message) (inner : error).

(** [errors.Is] against a package-level sentinel. *)
Fixpoint errors_Is (e : error) (target : string) : bool :=
  match e with
  | Sentinel name => bool_decide (name = target)
  | ErrorNew _ => false
  | Wrapf _ inner => errors_Is inner target
  end.

#[export] Instance fmt_arg_eq_dec : EqDecision fmt_arg.
Proof. solve_decision. Defined.
#[export] Instance message_eq_dec : EqDecision message.
Proof. solve_decision. Defined.
#[export] Instance error_eq_dec : EqDecision error.
Proof. solve_decision. Defined.

(** ** Results and the state-and-error monad

    A Go function [(A, error)] without effects is a [result E A]; a method
    that mutates its receiver of type [S] is a [GoM S E A]: the state after
    the call is returned on the error paths too, because Go does not roll a
    receiver back when a method returns an error. *)
Inductive result (E A : Type) :=
| Ok (a : A)
| Err (e : E).
Arguments Ok {E A} a.
Arguments Err {E A} e.

#[export] Instance result_eq_dec `{EqDecision E, EqDecision A} : EqDecision (result E A).
Proof. solve_decision. Defined.

Definition GoM (S E A : Type) := S -> result E A * S.

#[export] Instance result_ret {E} : MRet (result E) := fun A a => Ok a.
#[export] Instance result_bind {E} : MBind (result E) := fun A B f m =>
  match m with Ok a => f a | Err e => Err e end.
#[export] Instance gom_ret {S E} : MRet (GoM S E) := fun A a s => (Ok a, s).
#[export] Instance gom_bind {S E} : MBind (GoM S E) := fun A B f m s =>
  match m s with
  | (Ok a, s') => f a s'
  | (Err e, s') => (Err e, s')
  end.

Definition fail {S E A} (e : E) : GoM S E A := fun s => (Err e, s).
Definition get {S E} : GoM S E S := fun s => (Ok s, s).
Definition put {S E} (s : S) : GoM S E unit := fun _ => (Ok tt, s).
Definition modify {S E} (f : S -> S) : GoM S E unit := fun s => (Ok tt, f s).
Definition lift {S E A} (r : result E A) : GoM S E A := fun s => (r, s).

(** [if P { return e }]: the guard of an early error return. *)
Definition fail_if {S E} (P : Prop) `{Decision P} (e : E) : GoM S E unit :=
  if decide P then fail e else mret tt.
Definition err_if {E} (P : Prop) `{Decision P} (e : E) : result E unit :=
  if decide P then Err e else Ok tt.

(** [if err := f(); err != nil { return fmt.Errorf("...: %w", err) }]. *)
Definition wrap {E E' A} (f : E -> E') (r : result E A) : result E' A :=
  match r with Ok a => Ok a | Err e => Err (f e) end.

Definition is_ok {E A} (r : result E A) : bool :=
  match r with Ok _ => true | Err _ => false end.

(** A [for _, x := range xs { if err := f(x); err != nil { return err } }]. *)
Fixpoint for_each {E A} (f : A -> result E unit) (xs : list A) : result E unit :=
  match xs with
  | [] => Ok tt
  | x :: xs' => f x;; for_each f xs'
  end.

(** The same loop with a receiver. *)
Fixpoint for_eachM {S E A} (f : A -> GoM S E unit) (xs : list A) : GoM S E unit :=
  match xs with
  | [] => mret tt
  | x :: xs' => f x;; for_eachM f xs'
  end.

(** ** Machine integers and time

    [int64], [uint64] and (on the 64-bit targets the project builds) [int]
    are [Z] with the wrap-around written where the source does arithmetic. *)
Definition int64_min : Z := - 2 ^ 63.
Definition int64_max : Z := 2 ^ 63 - 1.
Definition int64_wrap (z : Z) : Z := (z + 2 ^ 63) mod 2 ^ 64 - 2 ^ 63.
Definition uint64_wrap (z : Z) : Z := z mod 2 ^ 64.
Definition int64_range (z : Z) : Prop := int64_min <= z <= int64_max.

(** A [time.Time] is the number of nanoseconds since the zero time (January
    1 of year 1, UTC), so [IsZero] is equality with 0; [UTC] changes only the
    location used for display. *)
Definition Time := Z.
Definition IsZero (t : Time) : Prop := t = 0.
Definition Before (a b : Time) : Prop := a < b.
Definition After (a b : Time) : Prop := b < a.
Definition UTC (t : Time) : Time := t.
Definition time_Add (t : Time) (d : Z) : Time := t + d.
(** [Time.Sub] saturates at the extreme [Duration] values. *)
Definition time_Sub (t u : Time) : Z := Z.max int64_min (Z.min int64_max (t - u)).

#[export] Instance Time_eq_dec : EqDecision Time := Z.eq_dec.
#[export] Instance IsZero_dec t : Decision (IsZero t) := decide (t = 0).
#[export] Instance Before_dec a b : Decision (Before a b) := decide (a < b).
#[export] Instance After_dec a b : Decision (After a b) := decide (b < a).

(** ** Byte strings

    A Go [string] is a byte sequence, as is Rocq's [string]. *)
Definition byte (c : ascii) : N := N_of_ascii c.
Definition byte_in (lo hi : N) (c : ascii) : bool := (N.leb lo (byte c) && N.leb (byte c) hi)%bool.
Definition is_byte (n : N) (c : ascii) : bool := N.eqb (byte c) n.
Definition len (s : string) : Z := Z.of_nat (String.length s).

Fixpoint string_all (p : ascii -> bool) (s : string) : bool :=
  match s with
  | EmptyString => true
  | String c s' => (p c && string_all p s')%bool
  end.

Fixpoint string_any (p : ascii -> bool) (s : string) : bool :=
  match s with
  | EmptyString => false
  | String c s' => (p c || string_any p s')%bool
  end.

Definition string_rev (s : string) : string :=
  string_of_list_ascii (rev (list_ascii_of_string s)).

Definition HasPrefix (s prefix : string) : bool := String.prefix prefix s.
Definition HasSuffix (s suffix : string) : bool :=
  String.prefix (string_rev suffix) (string_rev s).

(** [unicode.IsSpace] at the head of a byte string: how many bytes the first
    rune takes when it is white space.  Outside ASCII the white-space runes
    are U+0085, U+00A0, U+1680, U+2000..U+200A, U+2028, U+2029, U+202F,
    U+205F and U+3000, recognised by their UTF-8 encodings. *)
Definition space_head (s : list N) : option nat :=
  match s with
  | a :: s' =>
      if ((N.leb 9 a && N.leb a 13) || N.eqb a 32)%N%bool then Some 1%nat
      else match s' with
           | b :: s'' =>
               if (N.eqb a 194 && (N.eqb b 133 || N.eqb b 160))%N%bool then Some 2%nat
               else match s'' with
                    | c :: _ =>
                        if ((N.eqb a 225 && N.eqb b 154 && N.eqb c 128)
                            || (N.eqb a 226 && N.eqb b 128
                                && ((N.leb 128 c && N.leb c 138)
                                    || N.eqb c 168 || N.eqb c 169 || N.eqb c 175))
                            || (N.eqb a 226 && N.eqb b 129 && N.eqb c 159)
                            || (N.eqb a 227 && N.eqb b 128 && N.eqb c 128))%N%bool
                        then Some 3%nat else None
                    | [] => None
                    end
           | [] => None
           end
  | [] => None
  end.

(** The same at the tail, read from the reversed byte sequence. *)
Definition space_tail (r : list N) : option nat :=
  match space_head (take 1 r) with
  | Some n => Some n
  | None =>
      match space_head (rev (take 2 r)) with
      | Some 2%nat => Some 2%nat
      | _ => match space_head (rev (take 3 r)) with
             | Some 3%nat => Some 3%nat
             | _ => None
             end
      end
  end.

Fixpoint trim_with (head : list N -> option nat) (fuel : nat) (s : list N) : list N :=
  match fuel with
  | O => s
  | S fuel' =>
      match head s with
      | Some n => trim_with head fuel' (drop n s)
      | None => s
      end
  end.

Definition bytes_of (s : string) : list N := byte <$> list_ascii_of_string s.
Definition string_of_bytes (l : list N) : string :=
  string_of_list_ascii (ascii_of_N <$> l).

(** [strings.TrimSpace].  Each step drops at least one byte, so the length is
    enough fuel. *)
Definition TrimSpace (s : string) : string :=
  let l := bytes_of s in
  let l1 := trim_with space_head (length l) l in
  string_of_bytes (rev (trim_with space_tail (length l1) (rev l1))).

(** Whether ranging over the runes of a string meets a control character
    ([unicode.IsControl]: U+0000..U+001F and U+007F..U+009F) other than the
    [allowed] bytes.  U+0080..U+009F are the encodings C2 80..C2 9F. *)
Fixpoint has_control (allowed : list N) (s : list N) : bool :=
  match s with
  | [] => false
  | a :: s' =>
      (((N.ltb a 32 || N.eqb a 127) && negb (existsb (N.eqb a) allowed))
       || (N.eqb a 194 && match s' with b :: _ => N.leb 128 b && N.leb b 159 | [] => false end)
       || has_control allowed s')%N%bool
  end.

(** A regular expression [^c1c2...cn$] over single-byte classes. *)
Fixpoint match_classes (cs : list (ascii -> bool)) (s : string) : bool :=
  match cs, s with
  | [], EmptyString => true
  | c :: cs', String a s' => (c a && match_classes cs' s')%bool
  | _, _ => false
  end.

Definition class_exact (c : ascii) : ascii -> bool := fun a => bool_decide (a = c).
Definition class_literal (s : string) : list (ascii -> bool) :=
  class_exact <$> list_ascii_of_string s.
Definition is_lower_hex (c : ascii) : bool := (byte_in 48 57 c || byte_in 97 102 c)%bool.
Definition is_digit (c : ascii) : bool := byte_in 48 57 c.
Definition is_upper (c : ascii) : bool := byte_in 65 90 c.
Definition is_lower (c : ascii) : bool := byte_in 97 122 c.
Definition is_alnum (c : ascii) : bool := (is_digit c || is_upper c || is_lower c)%bool.
Definition is_one_of (chars : string) (c : ascii) : bool :=
  string_any (fun a => bool_decide (a = c)) chars.

(** A regular expression [^head tail{lo,hi}$]. *)
Definition match_head_tail (head tail : ascii -> bool) (lo hi : nat) (s : string) : bool :=
  match s with
  | EmptyString => false
  | String c s' =>
      (head c && string_all tail s'
       && Nat.leb lo (String.length s') && Nat.leb (String.length s') hi)%bool
  end.

(** ** Map iteration

    Go ranges over a map in an unspecified order.  A definition that ranges
    over a map takes the order as an instance of this class, whose law says
    only that every entry is visited once. *)
Class RangeOrder (K V : Type) `{Countable K} := {
  range : gmap K V -> list (K * V);
  range_perm m : range m ≡ₚ map_to_list m
}.

#[export] Program Instance range_map_to_list `{Countable K} V : RangeOrder K V | 100 :=
  { range m := map_to_list m }.
Next Obligation. done. Qed.

(** [range] visits exactly the entries of the map. *)
Lemma elem_of_range `{RangeOrder K V} (m : gmap K V) k v :
  (k, v) ∈ range m <-> m !! k = Some v.
Proof. rewrite range_perm. apply elem_of_map_to_list. Qed.

(** ** Automation *)

(** Reduce the monad operations of the model. *)
Ltac go_unfold :=
  cbv [mret mbind result_ret result_bind gom_ret gom_bind fail get put modify lift
       fail_if err_if wrap] in *.

(** Split on every test the translated code makes, closing contradictory
    branches. *)
Ltac go_step :=
  match goal with
  | H : context [match ?x with _ => _ end] |- _ =>
      lazymatch x with
      | context [match _ with _ => _ end] => fail
      | _ => destruct x eqn:?; simplify_eq/=
      end
  | |- context [match ?x with _ => _ end] =>
      lazymatch x with
      | context [match _ with _ => _ end] => fail
      | _ => destruct x eqn:?; simplify_eq/=
      end
  end.
Ltac go_cases := repeat (go_step; try done).

Create HintDb go discriminated.
Create Rewrite HintDb go.

(** ** Shared lemmas *)

Lemma int64_wrap_id z : int64_range z -> int64_wrap z = z.
Proof.
  unfold int64_range, int64_min, int64_max, int64_wrap. intros Hz.
  rewrite Z.mod_small; lia.
Qed.

Lemma int64_wrap_range z : int64_range (int64_wrap z).
Proof.
  unfold int64_range, int64_min, int64_max, int64_wrap.
  pose proof (Z.mod_pos_bound (z + 2 ^ 63) (2 ^ 64) ltac:(lia)). lia.
Qed.

Lemma int64_wrap_add_l a b : int64_wrap (int64_wrap a + b) = int64_wrap (a + b).
Proof.
  unfold int64_wrap.
  replace ((a + 2 ^ 63) mod 2 ^ 64 - 2 ^ 63 + b + 2 ^ 63)
    with ((a + 2 ^ 63) mod 2 ^ 64 + b) by lia.
  rewrite Z.add_mod_idemp_l by lia. f_equal. f_equal. lia.
Qed.

Lemma uint64_wrap_id z : 0 <= z < 2 ^ 64 -> uint64_wrap z = z.
Proof. unfold uint64_wrap. intros. by rewrite Z.mod_small. Qed.

Lemma string_app_cons c (s t : string) : (String c s +:+ t)%string = String c (s +:+ t)%string.
Proof. done. Qed.

Lemma string_app_nil_r (s : string) : (s +:+ "")%string = s.
Proof. induction s as [|c s IH]; [done|]. by rewrite string_app_cons, IH. Qed.

Lemma string_app_assoc (s t u : string) : (s +:+ (t +:+ u))%string = ((s +:+ t) +:+ u)%string.
Proof. induction s as [|c s IH]; [done|]. by rewrite !string_app_cons, IH. Qed.

Lemma string_of_app (l l' : list ascii) :
  string_of_list_ascii (l ++ l') = (string_of_list_ascii l +:+ string_of_list_ascii l')%string.
Proof. induction l as [|c l IH]; [done|]. exact (f_equal (String c) IH). Qed.
Lemma list_ascii_of_append (s t : string) :
  list_ascii_of_string (s +:+ t) = list_ascii_of_string s ++ list_ascii_of_string t.
Proof. induction s as [|c s IH]; [done|]. exact (f_equal (cons c) IH). Qed.

Lemma for_each_ok {E A} (f : A -> result E unit) xs :
  for_each f xs = Ok tt <-> Forall (fun x => f x = Ok tt) xs.
Proof.
  induction xs as [|x xs IH]; simpl; [by split; [constructor|]|].
  rewrite Forall_cons, <- IH. unfold mbind, result_bind.
  destruct (f x) as [[]|e]; split; [by split|by intros [_ ?]|done|by intros [? _]].
Qed.

Lemma err_if_ok {E} (P : Prop) `{Decision P} (e : E) : err_if P e = Ok tt ↔ ¬ P.
Proof. unfold err_if. case_decide; naive_solver. Qed.

Lemma wrap_ok {E E' A} (f : E → E') (r : result E A) a : wrap f r = Ok a ↔ r = Ok a.
Proof. destruct r; simpl; naive_solver. Qed.

Lemma bind_Ok {E A B} (r : result E A) (k : A -> result E B) b :
  (x ← r; k x) = Ok b <-> exists a, r = Ok a ∧ k a = Ok b.
Proof. unfold mbind, result_bind. destruct r; naive_solver. Qed.

Lemma bind_ok {E} (r : result E unit) (k : result E unit) :
  (r;; k) = Ok tt ↔ r = Ok tt ∧ k = Ok tt.
Proof. unfold mbind, result_bind. destruct r as [[]|]; naive_solver. Qed.

Lemma for_eachM_app {S E A} (f : A -> GoM S E unit) xs ys s :
  for_eachM f (xs ++ ys) s =
  match for_eachM f xs s with
  | (Ok _, s') => for_eachM f ys s'
  | (Err e, s') => (Err e, s')
  end.
Proof.
  revert s. induction xs as [|x xs IH]; intros s; simpl; [done|].
  unfold mbind, gom_bind. destruct (f x s) as [[[]|e] s']; [apply IH|done].
Qed.

(** A property every successful and failing step of a receiver keeps is kept
    by a loop over steps. *)
Lemma for_eachM_inv {S E A} (f : A -> GoM S E unit) (I : S -> Prop) xs s :
  (forall x s, I s -> I (f x s).2) -> I s -> I (for_eachM f xs s).2.
Proof.
  intros Hstep. revert s. induction xs as [|x xs IH]; intros s Hs; simpl; [done|].
  unfold mbind, gom_bind. specialize (Hstep x s Hs).
  destruct (f x s) as [[[]|e] s']; simpl in *; auto.
Qed.

#[export] Hint Resolve int64_wrap_range : go.
#[export] Hint Rewrite @for_each_ok : go.
