(* ===== verification/Sorting.v ===== *)
(** * The order of Go strings and package sort

    [sort.Strings] and [sort.Slice] sort by bytes; a list
    sorted by a strict order is determined by its elements
    ([strictly_sorted_unique]), so the algorithm does not matter. *)
From Stdlib Require Import ZArith Ascii String Lia.
From stdpp Require Import base gmap sets list strings sorting.
From S2P Require Import Prelude.
Local Open Scope Z_scope.
Local Open Scope string_scope.
Local Open Scope list_scope.

(** ** The byte order on strings *)
Definition string_le (s t : string) : Prop := String.leb s t = true.
Definition string_lt (s t : string) : Prop := String.ltb s t = true.
#[export] Instance string_le_dec : RelDecision string_le.
Proof. intros s t. unfold string_le. apply _. Defined.
#[export] Instance string_lt_dec : RelDecision string_lt.
Proof. intros s t. unfold string_lt. apply _. Defined.

Lemma ascii_compare_lt_trans a b c :
  Ascii.compare a b = Lt -> Ascii.compare b c = Lt -> Ascii.compare a c = Lt.
Proof. unfold Ascii.compare. rewrite !N.compare_lt_iff. lia. Qed.
Lemma ascii_compare_eq a b : Ascii.compare a b = Eq -> a = b.
Proof. apply Ascii.compare_eq_iff. Qed.
Lemma ascii_compare_refl a : Ascii.compare a a = Eq.
Proof. unfold Ascii.compare. apply N.compare_refl. Qed.

Lemma string_compare_refl s : String.compare s s = Eq.
Proof. induction s as [|a s IH]; simpl; [done|]. by rewrite ascii_compare_refl. Qed.

Lemma string_compare_lt_trans s : forall t u,
  String.compare s t = Lt -> String.compare t u = Lt -> String.compare s u = Lt.
Proof.
  induction s as [|a s IH]; intros [|b t] [|c u]; simpl; try done.
  destruct (Ascii.compare a b) eqn:E1; try done.
  - apply ascii_compare_eq in E1 as ->. destruct (Ascii.compare b c) eqn:E2; try done. apply IH.
  - intros _. destruct (Ascii.compare b c) eqn:E2; try done.
    + apply ascii_compare_eq in E2 as ->. by rewrite E1.
    + by rewrite (ascii_compare_lt_trans a b c).
Qed.

Lemma string_lt_compare s t : string_lt s t <-> String.compare s t = Lt.
Proof. unfold string_lt, String.ltb. by destruct (String.compare s t). Qed.
Lemma string_le_lt s t : string_le s t <-> s = t ∨ string_lt s t.
Proof.
  rewrite string_lt_compare. unfold string_le, String.leb. destruct (String.compare s t) eqn:E.
  - apply String.compare_eq_iff in E. naive_solver.
  - naive_solver.
  - split; [done|]. intros [->|?]; [|done]. by rewrite string_compare_refl in E.
Qed.

#[export] Instance string_lt_trans : Transitive string_lt.
Proof. intros s t u. rewrite !string_lt_compare. apply string_compare_lt_trans. Qed.
#[export] Instance string_lt_irrefl : Irreflexive string_lt.
Proof. intros s. unfold complement. rewrite string_lt_compare, string_compare_refl. done. Qed.
#[export] Instance string_le_po : PartialOrder string_le.
Proof.
  split; [split|].
  - intros s. apply string_le_lt. by left.
  - intros s t u. rewrite !string_le_lt. intros [->|H1] [->|H2]; auto. right. by etrans.
  - intros s t. rewrite !string_le_lt. intros [->|H1] [H2|H2]; auto.
    destruct (string_lt_irrefl s). by etrans.
Qed.
#[export] Instance string_le_total : Total string_le.
Proof. intros s t. unfold string_le. apply String.leb_total. Qed.
Lemma string_le_not_lt s t : string_le s t <-> ~ string_lt t s.
Proof.
  rewrite string_le_lt. split.
  - intros [->|H1] H2; [by destruct (string_lt_irrefl t)|].
    destruct (string_lt_irrefl s). by etrans.
  - intros H. destruct (string_le_total s t) as [L|L]; rewrite string_le_lt in L; [done|].
    destruct L; [by left|done].
Qed.

(** ** Sorting *)
Definition sort_Strings (l : list string) : list string := merge_sort string_le l.

Lemma sort_Strings_perm l : sort_Strings l ≡ₚ l.
Proof. apply merge_sort_Permutation. Qed.
Lemma sort_Strings_sorted l : Sorted string_le (sort_Strings l).
Proof. apply Sorted_merge_sort, _. Qed.
Lemma elem_of_sort_Strings l s : s ∈ sort_Strings l <-> s ∈ l.
Proof. by rewrite sort_Strings_perm. Qed.

(** Sorting a list without duplicates gives a strictly increasing list. *)
Lemma sort_Strings_strict l : NoDup l -> StronglySorted string_lt (sort_Strings l).
Proof.
  intros Hn. assert (NoDup (sort_Strings l)) as Hd by by rewrite sort_Strings_perm.
  pose proof (sort_Strings_sorted l) as Hs. apply Sorted_StronglySorted in Hs; [|apply _].
  induction Hs as [|s ss Hs IH Hall]; [constructor|]. apply NoDup_cons in Hd as [Hni Hd].
  constructor; [by apply IH|]. rewrite Forall_forall in *. intros t Ht.
  destruct (proj1 (string_le_lt s t) (Hall t Ht)) as [->|]; [done|done].
Qed.

(** A list sorted by a strict order has no duplicates. *)
Lemma strictly_sorted_NoDup {A} (R : relation A) `{!Irreflexive R} l : StronglySorted R l -> NoDup l.
Proof.
  induction 1 as [|x l _ IH H]; constructor; [|done]. intros Hx. rewrite Forall_forall in H.
  by apply (irreflexivity R x), H.
Qed.

(** A list sorted by a strict order is determined by its elements. *)
Lemma strictly_sorted_unique {A} (R : relation A) `{!Transitive R, !Irreflexive R} l1 l2 :
  StronglySorted R l1 -> StronglySorted R l2 -> (forall x, x ∈ l1 <-> x ∈ l2) -> l1 = l2.
Proof.
  intros S1. revert l2. induction S1 as [|x l1 S1 IH F1]; intros [|y l2] S2 H; try done.
  - exfalso. by eapply not_elem_of_nil, (H y); left.
  - exfalso. by eapply not_elem_of_nil, (H x); left.
  - inversion S2 as [|? ? S2' F2]; subst. rewrite Forall_forall in F1, F2.
    assert (x = y) as ->.
    { destruct (proj1 (elem_of_cons _ _ _) (proj1 (H x) ltac:(left))) as [|Hx]; [done|].
      destruct (proj1 (elem_of_cons _ _ _) (proj2 (H y) ltac:(left))) as [|Hy]; [done|].
      destruct (irreflexivity R x). etrans; eauto. }
    f_equal. apply IH; [done|]. intros z. specialize (H z). rewrite !elem_of_cons in H.
    split; intros Hz.
    + destruct (proj1 H (or_intror Hz)) as [->|]; [|done].
      exfalso. by eapply (irreflexivity R y), F1.
    + destruct (proj2 H (or_intror Hz)) as [->|]; [|done].
      exfalso. by eapply (irreflexivity R y), F2.
Qed.

(** Sorting forgets the order it was given. *)
Lemma sort_Strings_eq l1 l2 : l1 ≡ₚ l2 -> sort_Strings l1 = sort_Strings l2.
Proof.
  intros H. apply (Sorted_unique string_le); [apply sort_Strings_sorted..|].
  by rewrite !sort_Strings_perm.
Qed.

(** The last element of a prefix separates it from the rest. *)
Lemma sorted_split {A} (R : relation A) `{!Transitive R, !Irreflexive R} l1 l2 x :
  StronglySorted R (l1 ++ l2) -> last l1 = Some x ->
  (forall y, y ∈ l2 -> R x y) ∧ (forall y, y ∈ l1 -> y = x ∨ R y x) ∧
  (forall y, y ∈ l2 <-> y ∈ l1 ++ l2 ∧ R x y).
Proof.
  intros S (l0 & ->)%last_Some. rewrite <- app_assoc in S. simpl in S.
  assert (StronglySorted R (x :: l2) ∧ forall y, y ∈ l0 -> R y x) as [Sx Hl].
  { induction l0 as [|z l0 IH]; simpl in S; [split; [done|set_solver]|].
    inversion S as [|? ? S' F]; subst. destruct (IH S') as [H1 H2]. split; [done|].
    intros y [->|Hy]%elem_of_cons; [|by apply H2]. rewrite Forall_forall in F. apply F. set_solver. }
  inversion Sx as [|? ? _ F]; subst. rewrite Forall_forall in F.
  assert (forall y, y ∈ l0 ++ [x] -> y = x ∨ R y x) as Hp.
  { intros y [Hy|Hy]%elem_of_app; [right; by apply Hl|left; set_solver]. }
  split_and!; [done|done|]. intros y. split.
  - intros Hy. split; [set_solver|by apply F].
  - intros [[Hy|Hy]%elem_of_app HR]; [|done]. destruct (Hp y Hy) as [->|HR'].
    + by destruct (irreflexivity R x).
    + destruct (irreflexivity R x). by etrans.
Qed.
