(* ===== verification/Regex.v ===== *)
(** * The regular expressions of Go's regexp

    What internal/redaction and pkg/packapi use of regexp: ASCII classes,
    sequences, alternatives tried in order, greedy repetition and the ASCII
    word boundary.  [rmatch] is the leftmost-first search by
    backtracking, [denotes] the set of matched words in a context,
    [replace_all] is [ReplaceAll] with the number of matches that
    [FindAllIndex] counts.  The lemmas at the end say what replacing leaves
    behind. *)
From Stdlib Require Import ZArith Ascii String Lia.
From stdpp Require Import base list strings.
From S2P Require Import Prelude.
Local Open Scope list_scope.

Inductive regex :=
| RClass (p : ascii -> bool)
| REmpty
| RSeq (a b : regex)
| RAlt (a b : regex)
| RStar (a : regex)
| RWord.

Definition is_word (c : ascii) : bool := is_alnum c || is_byte 95 c.
Definition word_at (o : option ascii) : bool := match o with Some c => is_word c | None => false end.

(** Searches return what is left of the text after the match. *)
Definition found := option (list ascii).

(** [m] as often as possible; a turn that consumes nothing is not taken, so
    the length of the text is enough fuel. *)
Fixpoint star (m : option ascii -> list ascii -> (option ascii -> list ascii -> found) -> found)
    (fuel : nat) (prev : option ascii) (s : list ascii) (k : option ascii -> list ascii -> found) : found :=
  match fuel with
  | 0 => k prev s
  | S fuel =>
      match m prev s (fun prev' s' => if decide (length s' < length s) then star m fuel prev' s' k else None) with
      | Some rest => Some rest
      | None => k prev s
      end
  end.

Fixpoint rmatch (r : regex) (prev : option ascii) (s : list ascii)
    (k : option ascii -> list ascii -> found) : found :=
  match r with
  | RClass p => match s with c :: s' => if p c then k (Some c) s' else None | [] => None end
  | REmpty => k prev s
  | RSeq a b => rmatch a prev s (fun prev' s' => rmatch b prev' s' k)
  | RAlt a b => match rmatch a prev s k with Some rest => Some rest | None => rmatch b prev s k end
  | RStar a => star (rmatch a) (length s) prev s k
  | RWord => if Bool.eqb (word_at prev) (word_at (head s)) then None else k prev s
  end.

Definition match_at (r : regex) (prev : option ascii) (s : list ascii) : found :=
  rmatch r prev s (fun _ rest => Some rest).

(** The bytes of the match at the front of [s]. *)
Definition match_length (r : regex) (prev : option ascii) (s : list ascii) : nat :=
  match match_at r prev s with Some rest => length s - length rest | None => 0 end.

(** [ReplaceAll] and the number of matches; [skip] bytes of the current match
    are still to be passed.  An empty match replaces nothing: the patterns of
    the package have none. *)
Fixpoint replace_all (r : regex) (repl : list ascii) (prev : option ascii) (skip : nat) (s : list ascii)
    : list ascii * nat :=
  match s with
  | [] => ([], 0)
  | c :: s' =>
      match skip with
      | S k => replace_all r repl (Some c) k s'
      | 0 =>
          match match_length r prev s with
          | S k => let '(out, n) := replace_all r repl (Some c) k s' in (repl ++ out, S n)
          | 0 => let '(out, n) := replace_all r repl (Some c) 0 s' in (c :: out, n)
          end
      end
  end.

(** Notation of the syntax. *)
Definition rchar (c : ascii) : regex := RClass (fun a => bool_decide (a = c)).
Fixpoint rseq (rs : list regex) : regex :=
  match rs with [] => REmpty | [r] => r | r :: rs => RSeq r (rseq rs) end.
Definition rliteral (s : string) : regex := rseq (rchar <$> list_ascii_of_string s).
Fixpoint rtimes (n : nat) (r : regex) : list regex :=
  match n with 0 => [] | S n => r :: rtimes n r end.
(** [r{n,}]. *)
Definition at_least (n : nat) (r : regex) : regex := RSeq (rseq (rtimes n r)) (RStar r).

(** ** The words a pattern matches *)
Definition before (prev : option ascii) (w : list ascii) : option ascii :=
  match last w with Some c => Some c | None => prev end.
Definition after (w : list ascii) (next : option ascii) : option ascii :=
  match head w with Some c => Some c | None => next end.

Inductive denotes : regex -> option ascii -> list ascii -> option ascii -> Prop :=
| den_class p prev c next : p c = true -> denotes (RClass p) prev [c] next
| den_empty prev next : denotes REmpty prev [] next
| den_seq a b prev u v next :
    denotes a prev u (after v next) -> denotes b (before prev u) v next -> denotes (RSeq a b) prev (u ++ v) next
| den_left a b prev w next : denotes a prev w next -> denotes (RAlt a b) prev w next
| den_right a b prev w next : denotes b prev w next -> denotes (RAlt a b) prev w next
| den_stop a prev next : denotes (RStar a) prev [] next
| den_more a prev u v next : u <> [] ->
    denotes a prev u (after v next) -> denotes (RStar a) (before prev u) v next ->
    denotes (RStar a) prev (u ++ v) next
| den_word prev next : word_at prev <> word_at next -> denotes RWord prev [] next.

Definition occurs (r : regex) (s : list ascii) : Prop :=
  exists a w b, s = a ++ w ++ b ∧ denotes r (last a) w (head b).

Lemma before_app prev u v : before (before prev u) v = before prev (u ++ v).
Proof. unfold before. rewrite last_app. by destruct (last v). Qed.
Lemma after_app u v next : after u (after v next) = after (u ++ v) next.
Proof. by destruct u. Qed.
Lemma head_app_after (w s : list ascii) : head (w ++ s) = after w (head s).
Proof. by destruct w. Qed.
Lemma before_nil prev : before prev [] = prev.
Proof. done. Qed.
Lemma before_cons prev c w : before prev (c :: w) = before (Some c) w.
Proof. unfold before. rewrite last_cons. by destruct (last w). Qed.
Lemma last_before a w : last (a ++ w) = before (last a) w.
Proof. unfold before. rewrite last_app. by destruct (last w). Qed.

Lemma star_sound a
    (IHa : forall prev s k rest, rmatch a prev s k = Some rest ->
       exists w s', s = w ++ s' ∧ denotes a prev w (head s') ∧ k (before prev w) s' = Some rest) fuel :
  forall prev s k rest, star (rmatch a) fuel prev s k = Some rest ->
  exists w s', s = w ++ s' ∧ denotes (RStar a) prev w (head s') ∧ k (before prev w) s' = Some rest.
Proof.
  induction fuel as [|fuel IH]; intros prev s k rest H; cbn in H.
  { exists [], s. split_and!; [done|constructor|done]. }
  destruct (rmatch a prev s _) as [r|] eqn:E; [|exists [], s; split_and!; [done|constructor|done]].
  injection H as ->. destruct (IHa _ _ _ _ E) as (u & s1 & -> & Hu & H1).
  case_decide as Hl; [|done]. destruct (IH _ _ _ _ H1) as (v & s2 & -> & Hv & H2).
  exists (u ++ v), s2. rewrite <- app_assoc, <- before_app. split_and!; [done| |done].
  constructor; [|by rewrite <- head_app_after|done]. intros ->. cbn in Hl. lia.
Qed.

Lemma rmatch_sound r : forall prev s k rest, rmatch r prev s k = Some rest ->
  exists w s', s = w ++ s' ∧ denotes r prev w (head s') ∧ k (before prev w) s' = Some rest.
Proof.
  induction r as [p| |a IHa b IHb|a IHa b IHb|a IHa|]; intros prev s k rest H; cbn in H.
  - destruct s as [|c s]; [done|]. destruct (p c) eqn:Hp; [|done].
    exists [c], s. split_and!; [done|by constructor|done].
  - exists [], s. split_and!; [done|constructor|done].
  - destruct (IHa _ _ _ _ H) as (u & s1 & -> & Hu & H1).
    destruct (IHb _ _ _ _ H1) as (v & s2 & -> & Hv & H2).
    exists (u ++ v), s2. rewrite <- app_assoc, <- before_app. split_and!; [done| |done].
    constructor; [by rewrite <- head_app_after|done].
  - destruct (rmatch a prev s k) as [r|] eqn:E.
    + injection H as ->. destruct (IHa _ _ _ _ E) as (w & s' & -> & Hw & Hk).
      exists w, s'. split_and!; [done|by apply den_left|done].
    + destruct (IHb _ _ _ _ H) as (w & s' & -> & Hw & Hk).
      exists w, s'. split_and!; [done|by apply den_right|done].
  - by apply (star_sound a IHa) in H.
  - destruct (Bool.eqb _ _) eqn:E; [done|]. apply Bool.eqb_false_iff in E.
    exists [], s. split_and!; [done|by constructor|done].
Qed.

Lemma star_stop m fuel prev s k : is_Some (k prev s) -> is_Some (star m fuel prev s k).
Proof. intros Hk. destruct fuel as [|fuel]; [done|]. cbn. by destruct (m _ _ _). Qed.

Lemma rmatch_complete_fuel r prev w next : denotes r prev w next ->
  (forall s k, head s = next -> is_Some (k (before prev w) s) -> is_Some (rmatch r prev (w ++ s) k)) ∧
  (forall a s k fuel, r = RStar a -> length w <= fuel -> head s = next -> is_Some (k (before prev w) s) ->
     is_Some (star (rmatch a) fuel prev (w ++ s) k)).
Proof.
  induction 1 as [p prev c next Hc|prev next|a b prev u v next Hu [IHu _] Hv [IHv _]|a b prev w next H [IH _]
                 |a b prev w next H [IH _]|a prev next|a prev u v next Hne Hu [IHu _] Hv [_ IHv]
                 |prev next Hw].
  1,2,3,4,5,8: split; [intros s k <- Hk; cbn|intros a0 s k fuel [=]].
  - by rewrite Hc.
  - done.
  - rewrite <- app_assoc. apply IHu; [apply head_app_after|]. apply IHv; [done|]. by rewrite before_app.
  - destruct (IH s k eq_refl Hk) as [r ->]. done.
  - destruct (rmatch a prev _ k); [done|]. by apply IH.
  - destruct (Bool.eqb _ _) eqn:E; [|done]. by apply Bool.eqb_prop in E.
  - split; [intros s k <- Hk; cbn; by apply star_stop|]. intros a0 s k fuel [= <-] _ _ Hk. by apply star_stop.
  - assert (forall s k fuel, length (u ++ v) <= fuel -> head s = next -> is_Some (k (before prev (u ++ v)) s) ->
      is_Some (star (rmatch a) fuel prev ((u ++ v) ++ s) k)) as Hstar.
    { intros s k [|fuel] Hf Hs Hk; [destruct u; [done|cbn in Hf; lia]|]. cbn. rewrite <- app_assoc.
      edestruct (IHu (v ++ s)) as [r Hr]; [by rewrite <- Hs; apply head_app_after| |by rewrite Hr].
      cbn. rewrite length_app in Hf. destruct u as [|c u]; [done|]. cbn in Hf.
      rewrite decide_True by (rewrite (length_app (c :: u)); cbn; lia).
      apply IHv; [done|lia|done|]. by rewrite before_app. }
    split; [|by intros a0 s k fuel [= <-]; apply Hstar].
    intros s k Hs Hk. cbn. apply Hstar; [rewrite (length_app _ s); lia|done|done].
Qed.

Lemma rmatch_complete r prev w next : denotes r prev w next -> forall s k, head s = next ->
  is_Some (k (before prev w) s) -> is_Some (rmatch r prev (w ++ s) k).
Proof. intros H. apply (rmatch_complete_fuel _ _ _ _ H). Qed.

(** A match depends on its context only through its word boundaries. *)
Lemma denotes_context r prev w next : denotes r prev w next -> forall prev' next',
  word_at prev = word_at prev' -> word_at next = word_at next' -> denotes r prev' w next'.
Proof.
  assert (forall prev prev' u, word_at prev = word_at prev' -> word_at (before prev u) = word_at (before prev' u)) as Hb
    by (intros ??? E; unfold before; by destruct (last _)).
  assert (forall next next' v, word_at next = word_at next' -> word_at (after v next) = word_at (after v next')) as Ha
    by (intros ??? E; unfold after; by destruct (head _)).
  induction 1; intros prev' next' E1 E2.
  - by constructor.
  - constructor.
  - constructor; auto.
  - apply den_left; auto.
  - apply den_right; auto.
  - constructor.
  - constructor; auto.
  - constructor. congruence.
Qed.

(** ** What a pattern is made of *)
Definition all_bytes : list ascii := ascii_of_nat <$> seq 0 256.
Definition every (p : ascii -> bool) : bool := forallb p all_bytes.
Definition implied (p q : ascii -> bool) : bool := every (fun c => negb (p c) || q c).

Lemma every_true p c : every p = true -> p c = true.
Proof.
  unfold every. rewrite forallb_forall. intros H. apply H, list_elem_of_In, list_elem_of_fmap.
  exists (nat_of_ascii c). rewrite ascii_nat_embedding. split; [done|].
  apply elem_of_seq. pose proof (nat_ascii_bounded c). lia.
Qed.

Lemma implied_true p q c : implied p q = true -> p c = true -> q c = true.
Proof. intros H Hp. apply (every_true _ c) in H. cbn in H. by rewrite Hp in H. Qed.

(** Every byte of a match satisfies [q]. *)
Fixpoint ronly (q : ascii -> bool) (r : regex) : bool :=
  match r with
  | RClass p => implied p q
  | REmpty | RWord => true
  | RSeq a b | RAlt a b => ronly q a && ronly q b
  | RStar a => ronly q a
  end.
(** Some byte of every match satisfies [q]. *)
Fixpoint rhas (q : ascii -> bool) (r : regex) : bool :=
  match r with
  | RClass p => implied p q
  | RSeq a b => rhas q a || rhas q b
  | RAlt a b => rhas q a && rhas q b
  | REmpty | RWord | RStar _ => false
  end.
(** No word boundary. *)
Fixpoint rfree (r : regex) : bool :=
  match r with
  | RClass _ | REmpty => true
  | RSeq a b | RAlt a b => rfree a && rfree b
  | RStar a => rfree a
  | RWord => false
  end.

Lemma ronly_denotes q r : ronly q r = true -> forall p w n, denotes r p w n -> Forall (fun c => q c = true) w.
Proof.
  intros Hq p w n H. induction H as [p prev c next Hc| |a b prev u v next Hu IHu Hv IHv| | | |a prev u v next _ Hu IHu Hv IHv|];
    cbn in Hq.
  - apply Forall_singleton. exact (implied_true _ _ _ Hq Hc).
  - constructor.
  - apply andb_true_iff in Hq as [? ?]. apply Forall_app; auto.
  - apply andb_true_iff in Hq as [? ?]. auto.
  - apply andb_true_iff in Hq as [? ?]. auto.
  - constructor.
  - apply Forall_app; auto.
  - constructor.
Qed.

Lemma rhas_denotes q r : rhas q r = true -> forall p w n, denotes r p w n -> exists c, c ∈ w ∧ q c = true.
Proof.
  intros Hq p w n H. induction H as [p prev c next Hc| |a b prev u v next Hu IHu Hv IHv| | | | |];
    cbn in Hq; try done.
  - exists c. split; [apply list_elem_of_singleton; done|exact (implied_true _ _ _ Hq Hc)].
  - apply orb_true_iff in Hq as [Hq|Hq]; [destruct (IHu Hq) as (c & ? & ?)|destruct (IHv Hq) as (c & ? & ?)];
      exists c; rewrite elem_of_app; auto.
  - apply andb_true_iff in Hq as [? ?]; auto.
  - apply andb_true_iff in Hq as [? ?]; auto.
Qed.

Lemma rfree_denotes r : rfree r = true -> forall p w n, denotes r p w n -> forall p' n', denotes r p' w n'.
Proof.
  intros Hf p w n H. induction H; intros p' n'; cbn in Hf; try apply andb_true_iff in Hf as [? ?].
  - by constructor.
  - constructor.
  - constructor; auto.
  - apply den_left; auto.
  - apply den_right; auto.
  - constructor.
  - constructor; auto.
  - done.
Qed.

(** The first, or the last, byte of every match satisfies [q]. *)
Fixpoint rfirst (q : ascii -> bool) (r : regex) : bool :=
  match r with
  | RClass p => implied p q
  | RSeq a _ => rfirst q a
  | RAlt a b => rfirst q a && rfirst q b
  | REmpty | RWord | RStar _ => false
  end.
Fixpoint rlast (q : ascii -> bool) (r : regex) : bool :=
  match r with
  | RClass p => implied p q
  | RSeq _ b => rlast q b
  | RAlt a b => rlast q a && rlast q b
  | REmpty | RWord | RStar _ => false
  end.

Lemma rfirst_denotes q r : rfirst q r = true -> forall p w n, denotes r p w n ->
  exists c w', w = c :: w' ∧ q c = true.
Proof.
  intros Hq p w n H. induction H as [p prev c next Hc| |a b prev u v next Hu IHu Hv IHv| | | | |];
    cbn in Hq; try done.
  - exists c, []. split; [done|exact (implied_true _ _ _ Hq Hc)].
  - destruct (IHu Hq) as (c & w' & -> & Hc). by exists c, (w' ++ v).
  - apply andb_true_iff in Hq as [? ?]; auto.
  - apply andb_true_iff in Hq as [? ?]; auto.
Qed.

Lemma rlast_denotes q r : rlast q r = true -> forall p w n, denotes r p w n ->
  exists w' c, w = w' ++ [c] ∧ q c = true.
Proof.
  intros Hq p w n H. induction H as [p prev c next Hc| |a b prev u v next Hu IHu Hv IHv| | | | |];
    cbn in Hq; try done.
  - exists [], c. split; [done|exact (implied_true _ _ _ Hq Hc)].
  - destruct (IHv Hq) as (w' & c & -> & Hc). exists (u ++ w'), c. by rewrite app_assoc.
  - apply andb_true_iff in Hq as [? ?]; auto.
  - apply andb_true_iff in Hq as [? ?]; auto.
Qed.

(** Repetition is greedy: at the end of the text no turn is left out. *)
Lemma star_greedy a fuel : forall prev s rest, length s <= fuel ->
  star (rmatch a) fuel prev s (fun _ rest => Some rest) = Some rest ->
  forall c s', rest = c :: s' -> denotes a None [c] (head s') -> rfree a = true -> False.
Proof.
  induction fuel as [|fuel IH]; intros prev s rest Hl H c s' -> Hc Hf.
  { destruct s; [done|cbn in Hl; lia]. }
  cbn in H. destruct (rmatch a prev s _) as [r|] eqn:E.
  - injection H as ->. destruct (rmatch_sound _ _ _ _ _ E) as (w & s1 & -> & _ & H1).
    case_decide as Hd; [|done]. eapply IH; [|exact H1|done|done|done]. lia.
  - injection H as ->. pose proof (rfree_denotes _ Hf _ _ _ Hc prev (head s')) as Hp.
    apply eq_None_not_Some in E. apply E. apply (rmatch_complete _ _ _ _ Hp s'); [done|].
    rewrite decide_True by (cbn; lia). by apply star_stop.
Qed.

(** ** What replacing leaves behind

    [open] and [close] bracket the replacement and are not word bytes; no
    match begins with a [quiet] byte. *)
Section Replace.
Context (open close : ascii) (mid : list ascii) (quiet : ascii -> bool).
Hypothesis open_plain : is_word open = false.
Hypothesis close_plain : is_word close = false.

Definition replacement : list ascii := open :: mid ++ [close].
Definition plain (c : ascii) : Prop := c <> open ∧ c <> close.

(** Words that the replacement cannot contribute to, and whose boundaries
    only matter next to word bytes. *)
Record scrubbed (r : regex) : Prop := {
  sc_plain : forall p w n, denotes r p w n -> Forall plain w;
  sc_outside : forall p w n, denotes r p w n -> exists c, c ∈ w ∧ c ∉ mid;
  sc_first : forall p w n, denotes r p w n -> exists c, head w = Some c ∧ quiet c = false;
  sc_left : forall p w n p', denotes r p w n -> word_at p = false -> word_at (head w) = false -> denotes r p' w n;
  sc_right : forall p w n n', denotes r p w n -> word_at n = false -> word_at (last w) = false -> denotes r p w n'
}.

Definition apart (o o' : option ascii) : Prop := word_at o = true -> word_at o' = true -> False.
Definition apart_end (o o' : option ascii) : Prop :=
  word_at o = true -> word_at o' = true -> exists c, o' = Some c ∧ quiet c = true.

(** The matches that the search chooses never cut a word, except before a
    quiet byte. *)
Definition separated (r : regex) : Prop := forall prev s k, match_length r prev s = S k ->
  apart prev (head s) ∧ apart_end (last (take (S k) s)) (head (drop (S k) s)).

Lemma replace_all_match r prev c s k :
  match_length r prev (c :: s) = S k ->
  (replace_all r replacement prev 0 (c :: s)).1 = replacement ++ (replace_all r replacement (Some c) k s).1.
Proof. intros H. cbn [replace_all]. rewrite H. by destruct (replace_all _ _ _ _ _). Qed.

Lemma replace_all_keep r prev c s :
  match_length r prev (c :: s) = 0 ->
  (replace_all r replacement prev 0 (c :: s)).1 = c :: (replace_all r replacement (Some c) 0 s).1.
Proof. intros H. cbn [replace_all]. rewrite H. by destruct (replace_all _ _ _ _ _). Qed.

Lemma replace_all_skip r prev c s k :
  (replace_all r replacement prev (S k) (c :: s)).1 = (replace_all r replacement (Some c) k s).1.
Proof. done. Qed.

(** A plain word at the front of the output is at the front of the input. *)
Lemma run_prefix r (Hsep : separated r) s : forall prev w b, Forall plain w ->
  (replace_all r replacement prev 0 s).1 = w ++ b ->
  exists b', s = w ++ b' ∧
    (head b' = head b ∨ word_at (head b) = false ∧ apart (before prev w) (head b')).
Proof.
  induction s as [|c s IH]; intros prev w b Hw H.
  { destruct w; [|done]. cbn in H. subst b. exists []. auto. }
  destruct (match_length r prev (c :: s)) as [|k] eqn:E.
  - rewrite (replace_all_keep _ _ _ _ E) in H. destruct w as [|c' w].
    { destruct b as [|? b]; [done|]. injection H as <- H. exists (c :: s). auto. }
    injection H as <- H. apply Forall_cons in Hw as [_ Hw]. destruct (IH _ _ _ Hw H) as (b' & -> & C).
    exists b'. rewrite before_cons. done.
  - rewrite (replace_all_match _ _ _ _ _ E) in H. destruct w as [|c' w].
    + exists (c :: s). split; [done|]. right. cbn in H. subst b. split; [done|].
      by destruct (Hsep _ _ _ E).
    + injection H as <- H. apply Forall_cons in Hw as [[? _] _]. done.
Qed.

(** Where the reader of the output stands, relative to the input. *)
Definition aligned (prev pout : option ascii) (skip : nat) (s : list ascii) : Prop :=
  match skip with
  | 0 => pout = prev ∨ word_at pout = false ∧ apart_end prev (head s)
  | S k => word_at pout = false ∧ apart_end (last (take (S k) s)) (head (drop (S k) s))
  end.

Lemma aligned_skip prev pout k c s : aligned prev pout (S k) (c :: s) -> aligned (Some c) pout k s.
Proof.
  intros [H1 H2]. destruct k as [|k]; [by right|]. split; [done|]. intros Hl Hh. apply H2; [|done].
  change (take (S (S k)) (c :: s)) with (c :: take (S k) s). rewrite last_cons.
  by destruct (last (take (S k) s)).
Qed.

Lemma word_at_last_before prev w : w <> [] -> before prev w = last w.
Proof. intros H. unfold before. destruct w as [|c w] using rev_ind; [done|]. by rewrite last_snoc. Qed.

(** A word found in a run of copied bytes was in the input. *)
Lemma transfer r (Hr : scrubbed r) prev pout s w b b' :
  w <> [] -> s = w ++ b' -> aligned prev pout 0 s -> denotes r pout w (head b) ->
  head b' = head b ∨ word_at (head b) = false ∧ apart (before prev w) (head b') ->
  denotes r prev w (head b').
Proof.
  intros Hne -> Hal H C.
  assert (denotes r prev w (head b)) as H1.
  { destruct Hal as [->|[Hp Ha]]; [done|]. destruct (word_at prev) eqn:Ep.
    - apply (sc_left r Hr pout); [done|done|]. destruct w as [|c w]; [done|].
      destruct (word_at (head (c :: w))) eqn:Ec; [|done].
      destruct (sc_first r Hr _ _ _ H) as (c1 & [= <-] & Hq). destruct (Ha Ep Ec) as (c2 & [= <-] & Hq'). congruence.
    - apply (denotes_context _ _ _ _ H); congruence. }
  destruct C as [->|[Hn Ha]]; [done|]. destruct (word_at (head b')) eqn:Eb.
  - apply (sc_right r Hr _ _ (head b)); [done|done|]. rewrite (word_at_last_before _ _ Hne) in Ha.
    destruct (word_at (last w)) eqn:El; [|done]. by destruct Ha.
  - apply (denotes_context _ _ _ _ H1); congruence.
Qed.

Lemma scrubbed_nonempty r p w n : scrubbed r -> denotes r p w n -> w <> [].
Proof. intros Hr H ->. destruct (sc_outside r Hr _ _ _ H) as (c & Hc & _). by apply elem_of_nil in Hc. Qed.

(** A plain word does not start inside the replacement. *)
Lemma not_inside r (Hr : scrubbed r) p n a w b out :
  denotes r p w n -> replacement ++ out = a ++ w ++ b -> exists a2, a = replacement ++ a2 ∧ out = a2 ++ w ++ b.
Proof.
  intros H E. pose proof (sc_plain r Hr _ _ _ H) as Hp. pose proof (scrubbed_nonempty _ _ _ _ Hr H) as Hne.
  destruct (sc_outside r Hr _ _ _ H) as (c & Hc & Hm).
  destruct (decide (length replacement <= length a)) as [Hle|Hlt].
  { apply app_eq_inv in E as [(k & E & Ek)|(a2 & -> & E)]; [|by exists a2].
    assert (k = []) as -> by (apply (f_equal length) in E; rewrite length_app in E; destruct k; cbn in *; [done|lia]).
    rewrite app_nil_r in E. subst a. cbn in Ek. exists []. by rewrite app_nil_r. }
  exfalso. destruct a as [|o a].
  { destruct w as [|c' w]; [done|]. cbn in E. injection E as <- _. apply Forall_cons in Hp as [[? _] _]. done. }
  cbn in E. injection E as <- E. rewrite <- app_assoc in E.
  assert (length a <= length mid) as Hla.
  { cbn in Hlt. rewrite length_app in Hlt. cbn in Hlt. lia. }
  apply app_eq_inv in E as [(k & -> & E)|(a2 & -> & E)].
  - apply app_eq_inv in E as [(k2 & -> & E)|(k2 & -> & E)].
    + destruct k2 as [|d k2].
      * rewrite app_nil_r in Hc. apply Hm, elem_of_app. by right.
      * cbn in E. injection E as -> _. rewrite Forall_app, Forall_cons in Hp. by destruct Hp as (_ & [_ ?] & _).
    + apply Hm, elem_of_app. right. apply elem_of_app. by left.
  - rewrite length_app in Hla. destruct a2; [|cbn in Hla; lia]. cbn in E.
    destruct w as [|c' w]; [done|]. injection E as <- _. apply Forall_cons in Hp as [[_ ?] _]. done.
Qed.

Lemma locate r r' (Hr : scrubbed r) (Hsep : separated r') s : forall prev pout skip a w b,
  aligned prev pout skip s -> (replace_all r' replacement prev skip s).1 = a ++ w ++ b ->
  denotes r (before pout a) w (head b) ->
  exists a' b', s = a' ++ w ++ b' ∧ denotes r (before prev a') w (head b') ∧
    match_length r' (before prev a') (w ++ b') = 0.
Proof.
  induction s as [|c s IH]; intros prev pout skip a w b Hal Hout H.
  { pose proof (scrubbed_nonempty _ _ _ _ Hr H) as Hne. by destruct a, w. }
  assert (forall pout' k a2, aligned (Some c) pout' k s ->
    (replace_all r' replacement (Some c) k s).1 = a2 ++ w ++ b -> denotes r (before pout' a2) w (head b) ->
    exists a' b', c :: s = a' ++ w ++ b' ∧ denotes r (before prev a') w (head b') ∧
      match_length r' (before prev a') (w ++ b') = 0) as Hrec.
  { intros pout' k a2 Hal' Hout' H'. destruct (IH _ _ _ _ _ _ Hal' Hout' H') as (a' & b' & -> & Hd & Hm).
    exists (c :: a'), b'. by rewrite before_cons. }
  destruct skip as [|k].
  2: { rewrite replace_all_skip in Hout. apply (Hrec pout k a); [by eapply aligned_skip|done|done]. }
  destruct (match_length r' prev (c :: s)) as [|k] eqn:E.
  - rewrite (replace_all_keep _ _ _ _ E) in Hout. destruct a as [|c' a].
    + pose proof (scrubbed_nonempty _ _ _ _ Hr H) as Hne. pose proof (sc_plain r Hr _ _ _ H) as Hp.
      rewrite <- (replace_all_keep _ _ _ _ E) in Hout.
      destruct (run_prefix r' Hsep _ _ _ _ Hp Hout) as (b' & Es & C).
      exists [], b'. cbn [app before last]. rewrite <- Es. split_and!; [done| |done].
      by apply (transfer r Hr prev pout (c :: s) w b).
    + injection Hout as <- Hout. apply (Hrec (Some c) 0 a); [by left|done|]. by rewrite before_cons in H.
  - rewrite (replace_all_match _ _ _ _ _ E) in Hout. destruct (Hsep _ _ _ E) as [_ Hend].
    destruct (not_inside r Hr _ _ _ _ _ _ H Hout) as (a2 & -> & Hout2).
    apply (Hrec (Some close) k a2); [|done|].
    + destruct k as [|k]; [right; split; [done|]|].
      * intros H1 H2. by apply Hend.
      * apply (aligned_skip None). split; [done|exact Hend].
    + unfold replacement in H. rewrite <- before_app, before_cons in H.
      unfold before at 2 in H. by rewrite last_snoc in H.
Qed.

(** Replacing a pattern removes it and brings no other pattern back. *)
Lemma replace_keeps_clean r r' s : scrubbed r -> separated r' -> ~ occurs r s ->
  ~ occurs r (replace_all r' replacement None 0 s).1.
Proof.
  intros Hr Hsep Hn (a & w & b & E & H). destruct (locate r r' Hr Hsep s None None 0 a w b) as (a' & b' & -> & H' & _);
    [by left|done|by unfold before; destruct (last a)|].
  apply Hn. exists a', w, b'. split; [done|]. unfold before in H'. by destruct (last a').
Qed.

Lemma match_length_denoted r prev w b : scrubbed r -> denotes r prev w (head b) ->
  match_length r prev (w ++ b) <> 0.
Proof.
  intros Hr H. unfold match_length.
  destruct (rmatch_complete r prev w (head b) H b (fun _ rest => Some rest)) as [rest E]; [done|done|].
  unfold match_at. rewrite E. destruct (rmatch_sound _ _ _ _ _ E) as (w' & s' & Es & H' & [= <-]).
  rewrite Es, length_app. pose proof (scrubbed_nonempty _ _ _ _ Hr H'). destruct w'; [done|cbn; lia].
Qed.

Lemma replace_cleans r s : scrubbed r -> separated r -> ~ occurs r (replace_all r replacement None 0 s).1.
Proof.
  intros Hr Hsep (a & w & b & E & H). destruct (locate r r Hr Hsep s None None 0 a w b) as (a' & b' & -> & H' & Hm);
    [by left|done|by unfold before; destruct (last a)|].
  by apply (match_length_denoted r _ _ _ Hr) in H'.
Qed.

(** A text without matches is not touched. *)
Lemma replace_identity r s : forall prev, (forall a w b, s = a ++ w ++ b -> ~ denotes r (before prev a) w (head b)) ->
  replace_all r replacement prev 0 s = (s, 0).
Proof.
  induction s as [|c s IH]; intros prev Hn; [done|]. cbn [replace_all].
  assert (match_length r prev (c :: s) = 0) as ->.
  { unfold match_length. destruct (match_at r prev (c :: s)) as [rest|] eqn:E; [|done].
    destruct (rmatch_sound _ _ _ _ _ E) as (w & s' & Es & H' & _). by destruct (Hn [] w s' Es). }
  rewrite IH; [done|]. intros a w b -> H. apply (Hn (c :: a) w b); [done|]. by rewrite before_cons.
Qed.
(** ** Patterns of the three shapes of the package *)
Lemma chosen r prev s k : match_length r prev s = S k ->
  exists w rest, s = w ++ rest ∧ take (S k) s = w ∧ drop (S k) s = rest ∧ w <> [] ∧
    denotes r prev w (head rest) ∧ match_at r prev s = Some rest.
Proof.
  unfold match_length. destruct (match_at r prev s) as [rest|] eqn:E; [|done]. intros H.
  destruct (rmatch_sound _ _ _ _ _ E) as (w & s' & -> & Hd & [= ->]). rewrite length_app in H.
  assert (S k = length w) as Hk by lia. exists w, rest.
  rewrite Hk, take_app_length, drop_app_length. split_and!; try done. by intros ->.
Qed.

Context (X : regex).
Hypothesis X_free : rfree X = true.
Hypothesis X_plain : ronly (fun c => bool_decide (plain c)) X = true.
Hypothesis X_outside : rhas (fun c => bool_decide (c ∉ mid)) X = true.
Hypothesis X_first : rfirst (fun c => negb (quiet c)) X = true.

Lemma X_word p w n : denotes X p w n ->
  Forall plain w ∧ (exists c, c ∈ w ∧ c ∉ mid) ∧ w <> [] ∧ (forall p' n', denotes X p' w n') ∧
  exists c, head w = Some c ∧ quiet c = false.
Proof.
  intros H. pose proof (ronly_denotes _ _ X_plain _ _ _ H) as H1.
  destruct (rhas_denotes _ _ X_outside _ _ _ H) as (c & Hc & H2%bool_decide_eq_true).
  split_and!; [|by exists c| |intros; by apply (rfree_denotes _ X_free _ _ _ H)|].
  - eapply Forall_impl; [exact H1|]. intros c'. by rewrite bool_decide_eq_true.
  - intros ->. by apply elem_of_nil in Hc.
  - destruct (rfirst_denotes _ _ X_first _ _ _ H) as (c1 & w' & -> & H3%negb_true_iff). by exists c1.
Qed.

Lemma free_scrubbed : scrubbed X.
Proof. split; intros; edestruct X_word as (? & ? & ? & ? & ?); eauto. Qed.

Lemma word_denotes p w n : denotes (RSeq RWord X) p w n <-> word_at p <> word_at (head w) ∧ denotes X p w n.
Proof.
  split.
  - intros H. inversion H as [| |? ? ? u v ? H1 H2| | | | |]; subst. inversion H1; subst.
    assert (after v n = head v) as E by (destruct (X_word _ _ _ H2) as (_ & _ & ? & _); by destruct v).
    rewrite E in *. auto.
  - intros [H1 H2]. apply (den_seq _ _ _ [] w); [|done]. constructor.
    destruct (X_word _ _ _ H2) as (_ & _ & ? & _). by destruct w.
Qed.

Lemma word_scrubbed : scrubbed (RSeq RWord X).
Proof.
  split.
  - intros p w n [_ H]%word_denotes. by apply X_word in H as (? & _).
  - intros p w n [_ H]%word_denotes. by apply X_word in H as (_ & ? & _).
  - intros p w n [_ H]%word_denotes. by apply X_word in H as (_ & _ & _ & _ & ?).
  - intros p w n p' [E H]%word_denotes H1 H2. congruence.
  - intros p w n n' [E H]%word_denotes _ _. apply word_denotes. split; [done|].
    destruct (X_word _ _ _ H) as (_ & _ & _ & HX & _). apply HX.
Qed.

Definition bounded_word : regex := RSeq RWord (RSeq X RWord).

Lemma bounded_denotes p w n : denotes bounded_word p w n <->
  word_at p <> word_at (head w) ∧ word_at (last w) <> word_at n ∧ denotes X p w n.
Proof.
  split.
  - intros H. inversion H as [| |? ? ? u v ? H1 H2| | | | |]; subst. inversion H1; subst.
    inversion H2 as [| |? ? ? u v' ? H3 H4| | | | |]; subst. inversion H4; subst. rewrite app_nil_r in *.
    destruct (X_word _ _ _ H3) as (_ & _ & Hne & Hany & _).
    assert (after u n = head u) as E1 by by destruct u.
    assert (before p u = last u) as E2 by (by apply word_at_last_before).
    cbn [app]. rewrite E1 in *. change (before p []) with p in *. rewrite E2 in *. auto.
  - intros (H1 & H2 & H3). destruct (X_word _ _ _ H3) as (_ & _ & Hne & Hany & _).
    apply (den_seq _ _ _ [] w).
    + constructor. by destruct w.
    + rewrite <- (app_nil_r w). apply den_seq; [apply Hany|]. constructor. cbn.
      rewrite word_at_last_before by done. done.
Qed.

Lemma bounded_scrubbed : scrubbed bounded_word.
Proof.
  split.
  - intros p w n (_ & _ & H)%bounded_denotes. by apply X_word in H as (? & _).
  - intros p w n (_ & _ & H)%bounded_denotes. by apply X_word in H as (_ & ? & _).
  - intros p w n (_ & _ & H)%bounded_denotes. by apply X_word in H as (_ & _ & _ & _ & ?).
  - intros p w n p' (? & ? & H)%bounded_denotes ??. congruence.
  - intros p w n n' (? & ? & H)%bounded_denotes ??. congruence.
Qed.

Lemma bounded_separated : separated bounded_word.
Proof.
  intros prev s k H. destruct (chosen _ _ _ _ H) as (w & rest & -> & -> & -> & Hne & (H1 & H2 & _)%bounded_denotes & _).
  destruct w as [|c w]; [done|]. split; intros ??; [cbn in *|]; congruence.
Qed.

(** A pattern with a leading boundary that ends in a repetition of a class
    with all word bytes but quiet ones. *)
Lemma greedy_separated Y C : X = RSeq Y (RStar C) -> rfree C = true ->
  (forall c, is_word c = true -> quiet c = false -> forall n, denotes C None [c] n) -> separated (RSeq RWord X).
Proof.
  intros HX Hfree Hword prev s k H.
  destruct (chosen _ _ _ _ H) as (w & rest & Es & -> & -> & Hne & (H1 & _)%word_denotes & Hm).
  destruct w as [|c w]; [done|]. subst s. split; [intros ??; cbn in *; congruence|].
  intros _ Hr. destruct rest as [|c' rest]; [done|]. cbn in Hr. exists c'. split; [done|].
  destruct (quiet c') eqn:Hq; [done|]. exfalso.
  rewrite HX in Hm. unfold match_at in Hm. cbn [rmatch] in Hm. destruct (Bool.eqb _ _); [done|].
  destruct (rmatch_sound _ _ _ _ _ Hm) as (y & s1 & _ & _ & Hs).
  eapply star_greedy; [|exact Hs|done|by apply Hword|done]. done.
Qed.

(** A pattern that starts and ends with a byte that is in no word. *)
Lemma free_separated : (forall p w n, denotes X p w n -> word_at (head w) = false ∧ word_at (last w) = false) ->
  separated X.
Proof.
  intros Hx prev s k H. destruct (chosen _ _ _ _ H) as (w & rest & -> & -> & -> & Hne & Hd & _).
  destruct (Hx _ _ _ Hd). destruct w as [|c w]; [done|]. split; intros ??; [cbn in *|]; congruence.
Qed.

End Replace.
