(* ===== verification/Schema.v ===== *)
(** * pkg/schema: identifiers, digests and the validation of plans

    The validators the other components call, with the order of their checks
    and their error values, and what they guarantee. *)
From Stdlib Require Import ZArith Ascii String Lia.
From stdpp Require Import base gmap sets list strings.
From S2P Require Import Prelude.
Local Open Scope Z_scope.
Local Open Scope string_scope.
Local Open Scope list_scope.

(** ** Digests (digest.go) *)
Definition Digest := string.

(** [^sha256:[0-9a-f]{64}$] *)
Definition digestPattern (s : string) : bool :=
  match_classes (class_literal "sha256:" ++ repeat is_lower_hex 64) s.

Definition ParseDigest (value : string) : result error Digest :=
  if digestPattern value then Ok value
  else Err (ErrorNew (Sprintf "invalid digest %q: expected sha256 and 64 lowercase hex characters"
                        [FStr value])).

Definition Digest_Validate (d : Digest) : result error unit :=
  err_if (d = "") (ErrorNew (Text "digest is required"));;
  ParseDigest d;;
  mret tt.

(** ** Instance identifiers (id.go) *)
Definition InstanceID := string.

(** [^[0-9a-f]{8}-[0-9a-f]{4}-7[0-9a-f]{3}-[89ab][0-9a-f]{3}-[0-9a-f]{12}$] *)
Definition uuidV7Pattern (s : string) : bool :=
  match_classes
    (repeat is_lower_hex 8 ++ class_literal "-" ++ repeat is_lower_hex 4 ++ class_literal "-7"
     ++ repeat is_lower_hex 3 ++ class_literal "-" ++ [is_one_of "89ab"] ++ repeat is_lower_hex 3
     ++ class_literal "-" ++ repeat is_lower_hex 12) s.

(** [strings.EqualFold] against an ASCII lower-case word, for the ASCII case
    variants. *)
Definition ascii_lower (c : ascii) : ascii :=
  if is_upper c then ascii_of_N (byte c + 32) else c.
Fixpoint equal_fold_ascii (s t : string) : bool :=
  match s, t with
  | EmptyString, EmptyString => true
  | String a s', String b t' => (bool_decide (ascii_lower a = b) && equal_fold_ascii s' t')%bool
  | _, _ => false
  end.

(** [strings.EqualFold(value, "latest")]: besides the ASCII variants, [s]
    folds with U+017F, encoded C5 BF. *)
Definition is_latest (s : string) : bool :=
  (equal_fold_ascii s "latest"
   || match bytes_of s with
      | [a; b; c; d; 197; 191; f] => equal_fold_ascii (string_of_bytes [a; b; c; d; f]) "latet"
      | _ => false
      end)%N%bool.

Definition ParseInstanceID (value : string) : result error InstanceID :=
  if is_latest value then
    Err (ErrorNew (Text "latest is a run reference, not an instance ID"))
  else if uuidV7Pattern value then Ok value
  else Err (ErrorNew (Sprintf "invalid UUIDv7 instance ID %q" [FStr value])).

Definition InstanceID_Validate (id : InstanceID) : result error unit :=
  ParseInstanceID id;;
  mret tt.

(** ** Object references and artifact pins (common.go, plan.go) *)

(** [^[A-Z][A-Za-z0-9]{1,63}$] *)
Definition kindPattern : string -> bool := match_head_tail is_upper is_alnum 1 63.
(** [^[a-z0-9][a-z0-9._/-]{0,127}$] *)
Definition namePattern : string -> bool :=
  match_head_tail (fun c => is_lower c || is_digit c)%bool
    (fun c => is_lower c || is_digit c || is_one_of "._/-" c)%bool 0 127.

Record ObjectRef := mkObjectRef {
  refKind : string;
  refInstanceID : InstanceID;
  refContentDigest : Digest
}.

#[export] Instance ObjectRef_eq_dec : EqDecision ObjectRef.
Proof. solve_decision. Defined.

Definition ObjectRef_Validate (ref : ObjectRef) : result error unit :=
  err_if (kindPattern (refKind ref) = false)
    (ErrorNew (Sprintf "invalid object kind %q" [FStr (refKind ref)]));;
  (if decide (refInstanceID ref ≠ "")
   then wrap (Wrapf (Text "object instance ID: %w")) (InstanceID_Validate (refInstanceID ref))
   else mret tt);;
  wrap (Wrapf (Text "object content digest: %w")) (Digest_Validate (refContentDigest ref)).

Record ArtifactPin := mkArtifactPin {
  pinKind : string;
  pinName : string;
  pinVersion : string;
  pinDigest : Digest
}.

#[export] Instance ArtifactPin_eq_dec : EqDecision ArtifactPin.
Proof. solve_decision. Defined.

Definition ArtifactPin_Validate (pin : ArtifactPin) : result error unit :=
  err_if (kindPattern (pinKind pin) = false)
    (ErrorNew (Sprintf "invalid artifact kind %q" [FStr (pinKind pin)]));;
  err_if (namePattern (pinName pin) = false)
    (ErrorNew (Sprintf "invalid artifact name %q" [FStr (pinName pin)]));;
  err_if (pinVersion pin = "" ∨ pinVersion pin = "latest")
    (ErrorNew (Text "artifact version must be exact and cannot be latest"));;
  wrap (Wrapf (Sprintf "artifact %s digest: %w" [FStr (pinName pin)]))
    (Digest_Validate (pinDigest pin)).

(** ** Budgets (plan.go, duration.go) *)
Definition Duration_Validate (value : Z) : result error unit :=
  err_if (value <= 0) (ErrorNew (Text "duration must be positive")).

Record HardBudget := mkHardBudget {
  MaxRequests : Z;
  MaxRequestBytes : Z;
  MaxResponseBytes : Z;
  MaxArtifactBytes : Z;
  MaxProcesses : Z;
  MaxDuration : Z
}.

Definition HardBudget_Validate (budget : HardBudget) : result error unit :=
  err_if (MaxRequests budget <= 0 ∨ MaxRequestBytes budget <= 0 ∨ MaxResponseBytes budget <= 0
          ∨ MaxArtifactBytes budget <= 0 ∨ MaxProcesses budget <= 0)
    (ErrorNew (Text "all hard budget limits must be positive"));;
  Duration_Validate (MaxDuration budget).

Record TokenBudget := mkTokenBudget {
  MaxInputTokens : Z;
  MaxOutputTokens : Z
}.

Definition TokenBudget_Validate (budget : TokenBudget) : result error unit :=
  err_if (MaxInputTokens budget < 0 ∨ MaxOutputTokens budget < 0)
    (ErrorNew (Text "token budgets cannot be negative")).

Record BudgetPolicy := mkBudgetPolicy {
  Hard : HardBudget;
  Reservation_ : TokenBudget;
  Cleanup : HardBudget
}.

Definition BudgetPolicy_Validate (budget : BudgetPolicy) : result error unit :=
  wrap (Wrapf (Text "hard budget: %w")) (HardBudget_Validate (Hard budget));;
  wrap (Wrapf (Text "reservation budget: %w")) (TokenBudget_Validate (Reservation_ budget));;
  wrap (Wrapf (Text "cleanup budget: %w")) (HardBudget_Validate (Cleanup budget)).

(** ** The ordered scenario DAG (plan.go) *)
Definition PlanDisposition := string.
Definition DispositionExecute : PlanDisposition := "execute".
Definition DispositionSkip : PlanDisposition := "skip".
Definition DispositionNotApplicable : PlanDisposition := "not_applicable".

Record ScenarioDecision := mkScenarioDecision {
  ScenarioID : string;
  Disposition : PlanDisposition;
  ReasonCode_ : string;
  Driver : ArtifactPin;
  DependsOn : list string
}.

(** The body of the first loop: it records the position of every scenario. *)
Definition scenario_check (index : Z) (decision : ScenarioDecision)
    : GoM (gmap string Z) error unit :=
  fail_if (namePattern (ScenarioID decision) = false)
    (ErrorNew (Sprintf "invalid scenario ID %q" [FStr (ScenarioID decision)]));;
  seen ← get;
  fail_if (is_Some (seen !! ScenarioID decision))
    (ErrorNew (Sprintf "duplicate scenario ID %q" [FStr (ScenarioID decision)]));;
  put (<[ScenarioID decision := index]> seen);;
  fail_if (Disposition decision ∉ [DispositionExecute; DispositionSkip; DispositionNotApplicable])
    (ErrorNew (Sprintf "invalid disposition %q" [FStr (Disposition decision)]));;
  fail_if (Disposition decision ≠ DispositionExecute ∧ ReasonCode_ decision = "")
    (ErrorNew (Sprintf "scenario %s requires a reason for %s"
                 [FStr (ScenarioID decision); FStr (Disposition decision)]));;
  lift (wrap (Wrapf (Sprintf "scenario %s driver: %w" [FStr (ScenarioID decision)]))
          (ArtifactPin_Validate (Driver decision))).

Definition dependency_check (seen : gmap string Z) (index : Z) (decision : ScenarioDecision)
    (dependency : string) : result error unit :=
  match seen !! dependency with
  | None => Err (ErrorNew (Sprintf "scenario %s depends on unknown scenario %s"
                             [FStr (ScenarioID decision); FStr dependency]))
  | Some dependencyIndex =>
      err_if (index <= dependencyIndex)
        (ErrorNew (Sprintf "scenario %s dependency %s is not earlier in the ordered DAG"
                     [FStr (ScenarioID decision); FStr dependency]))
  end.

(** [for index, x := range xs]. *)
Fixpoint enumerate_from {A} (index : Z) (xs : list A) : list (Z * A) :=
  match xs with
  | [] => []
  | x :: xs' => (index, x) :: enumerate_from (index + 1) xs'
  end.
Definition enumerate {A} (xs : list A) : list (Z * A) := enumerate_from 0 xs.

Definition validateScenarioDAG (decisions : list ScenarioDecision) : result error unit :=
  match for_eachM (fun '(index, decision) => scenario_check index decision)
          (enumerate decisions) ∅ with
  | (Err e, _) => Err e
  | (Ok _, seen) =>
      for_each (fun '(index, decision) =>
        for_each (dependency_check seen index decision) (DependsOn decision))
        (enumerate decisions)
  end.

(** ** What the validators guarantee *)

Lemma match_classes_app cs cs' s :
  match_classes (cs ++ cs') s = true ↔
  ∃ s1 s2, s = s1 +:+ s2 ∧ match_classes cs s1 = true ∧ match_classes cs' s2 = true.
Proof.
  revert s. induction cs as [|c cs IH]; intros s; simpl.
  - split; [intros Hs; by exists "", s|]. intros (s1 & s2 & -> & H1 & H2). by destruct s1.
  - destruct s as [|a s].
    + split; [done|]. intros (s1 & s2 & Hs & H1 & _). by destruct s1.
    + rewrite andb_true_iff, IH. split.
      * intros (Ha & s1 & s2 & -> & H1 & H2). exists (String a s1), s2. by rewrite Ha.
      * intros (s1 & s2 & Hs & H1 & H2). destruct s1 as [|b s1]; [done|].
        rewrite string_app_cons in Hs. injection Hs as <- ->.
        apply andb_true_iff in H1 as [Hb H1]. eauto 6.
Qed.

Lemma match_classes_length cs s :
  match_classes cs s = true → String.length s = length cs.
Proof.
  revert s. induction cs as [|c cs IH]; intros [|a s]; simpl; try done.
  rewrite andb_true_iff. intros [_ Hs]. by rewrite (IH _ Hs).
Qed.

Lemma Digest_Validate_ok d : Digest_Validate d = Ok tt ↔ digestPattern d = true.
Proof.
  unfold Digest_Validate, ParseDigest. go_unfold. case_decide as Hd.
  - subst. done.
  - destruct (digestPattern d); done.
Qed.

Lemma InstanceID_Validate_ok id :
  InstanceID_Validate id = Ok tt ↔ uuidV7Pattern id = true ∧ is_latest id = false.
Proof.
  unfold InstanceID_Validate, ParseInstanceID. go_unfold.
  destruct (is_latest id), (uuidV7Pattern id); naive_solver.
Qed.

(** *** Budgets *)
Definition HardBudget_positive (b : HardBudget) : Prop :=
  0 < MaxRequests b ∧ 0 < MaxRequestBytes b ∧ 0 < MaxResponseBytes b ∧
  0 < MaxArtifactBytes b ∧ 0 < MaxProcesses b ∧ 0 < MaxDuration b.

Lemma HardBudget_Validate_ok b : HardBudget_Validate b = Ok tt ↔ HardBudget_positive b.
Proof.
  unfold HardBudget_Validate, Duration_Validate, HardBudget_positive.
  rewrite bind_ok, !err_if_ok. lia.
Qed.

Lemma BudgetPolicy_Validate_ok b :
  BudgetPolicy_Validate b = Ok tt ↔
  HardBudget_positive (Hard b) ∧
  (0 <= MaxInputTokens (Reservation_ b) ∧ 0 <= MaxOutputTokens (Reservation_ b)) ∧
  HardBudget_positive (Cleanup b).
Proof.
  unfold BudgetPolicy_Validate, TokenBudget_Validate.
  rewrite !bind_ok, !wrap_ok, !HardBudget_Validate_ok, err_if_ok. intuition lia.
Qed.

(** *** The scenario DAG *)

(** A decision that is acceptable on its own. *)
Definition decision_wf (d : ScenarioDecision) : Prop :=
  namePattern (ScenarioID d) = true ∧
  Disposition d ∈ [DispositionExecute; DispositionSkip; DispositionNotApplicable] ∧
  (Disposition d ≠ DispositionExecute → ReasonCode_ d ≠ "") ∧
  ArtifactPin_Validate (Driver d) = Ok tt.

Fixpoint positions (k : Z) (ds : list ScenarioDecision) (s : gmap string Z) : gmap string Z :=
  match ds with
  | [] => s
  | d :: ds' => positions (k + 1) ds' (<[ScenarioID d := k]> s)
  end.

Lemma scenario_check_ok k d s s' :
  scenario_check k d s = (Ok tt, s') ↔
  decision_wf d ∧ s !! ScenarioID d = None ∧ s' = <[ScenarioID d := k]> s.
Proof.
  unfold scenario_check, decision_wf, fail_if, get, put, lift, fail, mret, gom_ret, mbind, gom_bind.
  case_decide as H0; [split; [done|]; intros ((? & _) & _); congruence|].
  case_decide as H1; [split; [done|]; intros (_ & Hn & _); destruct H1; congruence|].
  case_decide as H2; [split; [done|]; intros ((_ & ? & _) & _); done|].
  case_decide as H3; [split; [done|]; intros ((_ & _ & ? & _) & _); naive_solver|].
  rewrite <- eq_None_not_Some in H1. apply not_false_is_true in H0.
  destruct (ArtifactPin_Validate (Driver d)) as [[]|e]; simpl;
    [|split; [done|]; intros ((_ & _ & _ & ?) & _); done].
  split; [|naive_solver]. intros [= <-]. split_and!; try done. tauto.
Qed.

Lemma scan_ok k ds s s' :
  for_eachM (fun '(index, decision) => scenario_check index decision) (enumerate_from k ds) s
    = (Ok tt, s') ↔
  Forall decision_wf ds ∧ NoDup (ScenarioID <$> ds) ∧
  Forall (fun d => s !! ScenarioID d = None) ds ∧ s' = positions k ds s.
Proof.
  revert k s. induction ds as [|d ds IH]; intros k s; simpl.
  { unfold mret, gom_ret. rewrite !Forall_nil. split; [intros [= ->]|]; naive_solver constructor. }
  unfold mbind, gom_bind. rewrite !Forall_cons, NoDup_cons, list_elem_of_fmap.
  destruct (scenario_check k d s) as [[[]|e] s1] eqn:Hc.
  - apply scenario_check_ok in Hc as (Hwf & Hnew & ->). rewrite IH.
    setoid_rewrite Forall_forall. split.
    + intros (H1 & H2 & H3 & H4). split_and!; try done.
      * intros (d' & Hd' & Hin). specialize (H3 d' Hin). by rewrite Hd', lookup_insert_eq in H3.
      * intros d' Hin. specialize (H3 d' Hin).
        apply lookup_insert_None in H3. naive_solver.
    + intros ((_ & H1) & (Hne & H2) & (_ & H3) & H4). split_and!; try done.
      intros d' Hin. rewrite lookup_insert_ne; [by apply H3|]. intros He. apply Hne. eauto.
  - split; [done|]. intros ((Hwf & _) & _ & (Hnew & _) & _).
    assert (scenario_check k d s = (Ok tt, <[ScenarioID d:=k]> s)) as He
      by by apply scenario_check_ok. by rewrite He in Hc.
Qed.

Lemma positions_lookup k ds s x i :
  NoDup (ScenarioID <$> ds) →
  (positions k ds s !! x = Some i ↔
   (∃ n d, ds !! n = Some d ∧ ScenarioID d = x ∧ i = k + Z.of_nat n) ∨
   ((x ∉ (ScenarioID <$> ds)) ∧ s !! x = Some i)).
Proof.
  revert k s. induction ds as [|d ds IH]; intros k s; simpl.
  { intros _. split; [right; set_solver|]. intros [(n & d & Hn & _)|[_ ?]]; done. }
  rewrite NoDup_cons. intros [Hnd Hnds]. rewrite IH by done. clear IH. split.
  - intros [(n & d' & Hn & Hx & ->)|[Hx Hs]].
    + left. exists (S n), d'. split_and!; [done|done|lia].
    + destruct (decide (ScenarioID d = x)) as [<-|Hne].
      * rewrite lookup_insert_eq in Hs. injection Hs as <-. left. exists 0%nat, d.
        split_and!; [done|done|lia].
      * rewrite lookup_insert_ne in Hs by done. right. set_solver.
  - intros [([|n] & d' & Hn & Hx & ->)|[Hx Hs]].
    + simpl in Hn. injection Hn as <-. subst x. right. split; [done|].
      rewrite lookup_insert_eq. f_equal. lia.
    + left. exists n, d'. split_and!; [done|done|lia].
    + right. rewrite lookup_insert_ne by set_solver. set_solver.
Qed.

Lemma enumerate_from_Forall {A} (P : Z * A → Prop) k xs :
  Forall P (enumerate_from k xs) ↔ ∀ n x, xs !! n = Some x → P (k + Z.of_nat n, x).
Proof.
  revert k. induction xs as [|x xs IH]; intros k; simpl.
  { rewrite Forall_nil. split; [|done]. intros _ n x Hn. done. }
  rewrite Forall_cons, IH. split.
  - intros [H0 Hs] [|n] y; simpl.
    + intros [= ->]. by rewrite Z.add_0_r.
    + intros Hy. specialize (Hs n y Hy). by replace (k + Z.of_nat (S n)) with (k + 1 + Z.of_nat n) by lia.
  - intros H. split; [specialize (H 0%nat x eq_refl); by rewrite Z.add_0_r in H|].
    intros n y Hy. specialize (H (S n) y Hy).
    by replace (k + 1 + Z.of_nat n) with (k + Z.of_nat (S n)) by lia.
Qed.

Lemma validateScenarioDAG_ok (ds : list ScenarioDecision) :
  validateScenarioDAG ds = Ok tt ↔
  Forall decision_wf ds ∧ NoDup (ScenarioID <$> ds) ∧
  ∀ i d dep, ds !! i = Some d → dep ∈ DependsOn d →
    ∃ j d', (j < i)%nat ∧ ds !! j = Some d' ∧ ScenarioID d' = dep.
Proof.
  unfold validateScenarioDAG, enumerate.
  destruct (for_eachM _ (enumerate_from 0 ds) ∅) as [[[]|e] s] eqn:Hscan.
  - apply scan_ok in Hscan as (Hwf & Hnd & _ & ->).
    rewrite for_each_ok, enumerate_from_Forall. unfold dependency_check. split.
    + intros Hall. split_and!; [done|done|]. intros i d dep Hd Hdep.
      specialize (Hall i d Hd). simpl in Hall. rewrite for_each_ok, Forall_forall in Hall.
      specialize (Hall dep Hdep). destruct (positions 0 ds ∅ !! dep) as [k|] eqn:Hk; [|done].
      apply err_if_ok in Hall. apply positions_lookup in Hk; [|done].
      destruct Hk as [(n & d' & Hn & Hx & ->)|[_ He]]; [|by rewrite lookup_empty in He].
      exists n, d'. split_and!; [lia|done..].
    + intros (_ & _ & Hdep) i d Hd. simpl. rewrite for_each_ok, Forall_forall.
      intros dep Hin. destruct (Hdep i d dep Hd Hin) as (j & d' & Hj & Hd' & Hx).
      assert (positions 0 ds ∅ !! dep = Some (0 + Z.of_nat j)) as ->
        by (apply positions_lookup; [done|left; eauto]).
      apply err_if_ok. lia.
  - split; [done|]. intros (Hwf & Hnd & _).
    assert (for_eachM (λ '(index, decision), scenario_check index decision)
      (enumerate_from 0 ds) ∅ = (Ok tt, positions 0 ds ∅)) as He.
    { apply scan_ok. split_and!; try done. by apply Forall_true. }
    by rewrite He in Hscan.
Qed.

(** Scenario plans are validated exactly: a decision list is accepted if
    and only if every decision is well formed, scenario identifiers are
    unique, and every dependency names a strictly earlier scenario, so the
    list is a topological order of its dependency graph. *)
Theorem validateScenarioDAG_is_topological (ds : list ScenarioDecision) :
  validateScenarioDAG ds = Ok tt ↔
  Forall decision_wf ds ∧ NoDup (ScenarioID <$> ds) ∧
  ∀ i d dep, ds !! i = Some d → dep ∈ DependsOn d →
    ∃ j d', (j < i)%nat ∧ ds !! j = Some d' ∧ ScenarioID d' = dep.
Proof. apply validateScenarioDAG_ok. Qed.
