(* ===== verification/Results.v ===== *)
(** * pkg/schema/result.go: statuses, verdicts, attempts and case results

    A [float64] is only carried, never computed with: it is kept as its bit
    pattern.  A value of type [any] is only carried too: it is the message
    the code made of it, [None] for nil. *)
From Stdlib Require Import ZArith Ascii String Lia.
From stdpp Require Import base gmap sets list strings.
From S2P Require Import Prelude Schema.
Local Open Scope Z_scope.
Local Open Scope string_scope.
Local Open Scope list_scope.

Definition ExecutionStatus := string.
Definition ExecutionPlanned : ExecutionStatus := "planned".
Definition ExecutionRunning : ExecutionStatus := "running".
Definition ExecutionCompleted : ExecutionStatus := "completed".
Definition ExecutionSkipped : ExecutionStatus := "skipped".
Definition ExecutionCancelled : ExecutionStatus := "cancelled".
Definition ExecutionErrored : ExecutionStatus := "errored".

Definition Verdict := string.
Definition VerdictPass : Verdict := "pass".
Definition VerdictFail : Verdict := "fail".
Definition VerdictWarn : Verdict := "warn".
Definition VerdictInconclusive : Verdict := "inconclusive".

Definition ReasonCode := string.
Definition ReasonUnsupportedCapability : ReasonCode := "unsupported_capability".
Definition ReasonAuthenticationFailed : ReasonCode := "authentication_failed".
Definition ReasonPermissionDenied : ReasonCode := "permission_denied".
Definition ReasonTransientError : ReasonCode := "transient_error".
Definition ReasonSpecAmbiguity : ReasonCode := "spec_ambiguity".
Definition ReasonBudgetExhausted : ReasonCode := "budget_exhausted".
Definition ReasonCostLimit : ReasonCode := "cost_limit".
Definition ReasonUnsafeOperation : ReasonCode := "unsafe_operation".
Definition ReasonHarnessError : ReasonCode := "harness_error".
Definition ReasonDriverError : ReasonCode := "driver_error".
Definition ReasonCancelledByUser : ReasonCode := "cancelled_by_user".
Definition ReasonFlakyDetected : ReasonCode := "flaky_detected".
Definition ReasonInsufficientSamples : ReasonCode := "insufficient_samples".
Definition ReasonNotObserved : ReasonCode := "not_observed".

Definition AssertionRole := string.
Definition AssertionPrecondition : AssertionRole := "precondition".
Definition AssertionNormative : AssertionRole := "normative".
Definition AssertionConsumerProfile : AssertionRole := "consumer_profile".
Definition AssertionBehavioral : AssertionRole := "behavioral".
Definition AssertionAdvisory : AssertionRole := "advisory".

Definition FaultFamily := string.
Definition FaultTransport : FaultFamily := "transport".
Definition FaultWire : FaultFamily := "wire".
Definition FaultProtocol : FaultFamily := "protocol".
Definition FaultModel : FaultFamily := "model".
Definition FaultClient : FaultFamily := "client".
Definition FaultHarness : FaultFamily := "harness".
Definition FaultUnknown : FaultFamily := "unknown".

(** ** Attempts *)
Record BudgetConsumption := mkBudgetConsumption {
  bcRequests : Z;
  bcRequestBytes : Z;
  bcResponseBytes : Z;
  bcArtifactBytes : Z;
  bcInputTokens : option Z;
  bcOutputTokens : option Z;
  bcUnknown : list string
}.

(** The zero value. *)
Definition no_consumption : BudgetConsumption := mkBudgetConsumption 0 0 0 0 None None [].

Record Attempt := mkAttempt {
  atAttemptID : InstanceID;
  atInvocationID : InstanceID;
  atExecutionStatus : ExecutionStatus;
  atReasonCode : ReasonCode;
  atRequestRef : option ObjectRef;
  atEvidenceRefs : list ObjectRef;
  atDriver : ArtifactPin;
  atClientObservationRefs : list ObjectRef;
  atConsumedBudget : BudgetConsumption;
  atResidualLeaseRefs : list ObjectRef
}.

(** ** Assertion results and findings *)
Definition float64 := Z.

Record StatisticalEstimate := mkStatisticalEstimate {
  SampleCount : Z;
  Estimate_ : float64;
  LowerBound : float64;
  UpperBound : float64;
  StatMethod : string
}.

Record AssertionResult := mkAssertionResult {
  arAssertionResultID : InstanceID;
  arAssertionID : string;
  arRequirementID : string;
  arRole : AssertionRole;
  arOracle : ArtifactPin;
  arVerdict : Verdict;
  arReasonCode : ReasonCode;
  arExpected : option message;
  arObserved : option message;
  arEvidenceRefs : list ObjectRef;
  arDeterministic : bool;
  arStatistical : option StatisticalEstimate;
  arEvaluatorDigest : Digest
}.

Definition AssertionResult_Validate (res : AssertionResult) : result error unit :=
  InstanceID_Validate (arAssertionResultID res);;
  err_if (arAssertionID res = "" ∨
          arRole res ∉ [AssertionPrecondition; AssertionNormative; AssertionConsumerProfile;
                           AssertionBehavioral; AssertionAdvisory])
    (ErrorNew (Text "assertion ID and valid role are required"));;
  err_if (arRole res = AssertionNormative ∧ arRequirementID res = "")
    (ErrorNew (Text "normative assertion requires a Requirement ID"));;
  err_if (arVerdict res ∉ [VerdictPass; VerdictFail; VerdictWarn; VerdictInconclusive])
    (ErrorNew (Sprintf "invalid verdict %q" [FStr (arVerdict res)]));;
  wrap (Wrapf (Text "oracle: %w")) (ArtifactPin_Validate (arOracle res));;
  wrap (Wrapf (Text "evaluator: %w")) (Digest_Validate (arEvaluatorDigest res));;
  err_if (length (arEvidenceRefs res) = 0%nat)
    (ErrorNew (Text "assertion result requires evidence"));;
  err_if ((arDeterministic res = true ∧ is_Some (arStatistical res)) ∨
          (arDeterministic res = false ∧ ~ is_Some (arStatistical res)))
    (ErrorNew (Text "statistical metadata must be present exactly for nondeterministic assertions")).

Record Finding := mkFinding {
  fiFindingID : InstanceID;
  fiAssertionResultID : InstanceID;
  fiFaultDomain : string;
  fiFaultFamily : FaultFamily;
  fiCategory : string;
  fiSeverity : string;
  fiConfidence : float64;
  fiCalibrationVersion : string;
  fiAlternativeDomains : list string;
  fiMinimalEvidenceRefs : list ObjectRef;
  fiReproRefs : list ObjectRef;
  fiRequirementID : string;
  fiAmbiguityID : string;
  fiRemediationHint : string;
  fiUpstreamRoutingHint : string;
  fiFingerprintVersion : string;
  fiFingerprint : Digest
}.

(** ** Case results *)
Record CaseResult := mkCaseResult {
  crScenarioID : string;
  crPlanDisposition : PlanDisposition;
  crAttemptIDs : list InstanceID;
  crExecutionStatus : ExecutionStatus;
  crVerdict : option Verdict;
  crReasonCode : ReasonCode;
  crEvidenceRefs : list ObjectRef;
  crAssertionResults : list AssertionResult;
  crFindings : list Finding;
  crCandidateMember : bool;
  crApplicableMember : bool;
  crExecutedMember : bool;
  crAttemptAggregation : string
}.

Definition CaseResult_Validate (res : CaseResult) : result error unit :=
  err_if (crScenarioID res = "") (ErrorNew (Text "scenario ID is required"));;
  (if decide (crPlanDisposition res = DispositionExecute) then
     err_if (length (crAttemptIDs res) = 0%nat)
       (ErrorNew (Text "executed disposition requires at least one attempt"));;
     err_if (crExecutionStatus res = ExecutionCompleted ∧ crVerdict res = None)
       (ErrorNew (Text "completed case requires a verdict"));;
     err_if (crExecutionStatus res ≠ ExecutionCompleted ∧ crVerdict res ≠ None)
       (ErrorNew (Text "non-completed case cannot have a verdict"))
   else
     err_if (length (crAttemptIDs res) ≠ 0%nat ∨ crVerdict res ≠ None ∨
             length (crEvidenceRefs res) ≠ 0%nat)
       (ErrorNew (Text "skip/not_applicable cannot create target attempts, verdicts, or evidence"));;
     err_if (crReasonCode res = "")
       (ErrorNew (Text "skip/not_applicable requires a reason code")));;
  for_each (fun '(index, ref) =>
    wrap (Wrapf (Sprintf "case evidence ref %d: %w" [FInt index])) (ObjectRef_Validate ref))
    (enumerate (crEvidenceRefs res)).

(** What a validated case says, in words. *)
Definition case_wf (r : CaseResult) : Prop :=
  crScenarioID r <> "" ∧
  (crPlanDisposition r = DispositionExecute ->
     crAttemptIDs r <> [] ∧ (crExecutionStatus r = ExecutionCompleted <-> crVerdict r <> None)) ∧
  (crPlanDisposition r <> DispositionExecute ->
     crAttemptIDs r = [] ∧ crVerdict r = None ∧ crEvidenceRefs r = [] ∧ crReasonCode r <> "") ∧
  Forall (fun ref => ObjectRef_Validate ref = Ok tt) (crEvidenceRefs r).

Lemma length_zero_iff {A} (l : list A) : length l = 0%nat <-> l = [].
Proof. by destruct l. Qed.

Lemma enumerate_refs_ok (f : Z -> error -> error) refs :
  for_each (fun '(index, ref) => wrap (f index) (ObjectRef_Validate ref)) (enumerate refs) = Ok tt
  <-> Forall (fun ref => ObjectRef_Validate ref = Ok tt) refs.
Proof.
  rewrite for_each_ok. unfold enumerate. generalize 0. induction refs as [|r refs IH]; intros k; simpl.
  - split; constructor.
  - rewrite !Forall_cons, IH, wrap_ok. done.
Qed.

Lemma CaseResult_Validate_ok r : CaseResult_Validate r = Ok tt <-> case_wf r.
Proof.
  unfold CaseResult_Validate, case_wf.
  rewrite !bind_ok, err_if_ok, (enumerate_refs_ok (fun index => Wrapf _)).
  destruct (decide (crPlanDisposition r = DispositionExecute)) as [D|D];
    rewrite !bind_ok, !err_if_ok, ?length_zero_iff;
    (destruct (decide (crExecutionStatus r = ExecutionCompleted)));
    (destruct (crVerdict r) as [v|]);
    (destruct (crAttemptIDs r)); (destruct (crEvidenceRefs r));
    intuition (try congruence; try done).
Qed.
