(* ===== verification/Canonical.v ===== *)
(** * pkg/schema: strict canonical JSON and content digests

    canonical.go and [NewDigest] of digest.go.  The bytes of a document are a
    [list ascii].  RFC 8785 canonicalization is a third-party package and
    SHA-256 is an opaque function, so both are parameters; of encoding/json,
    the tokenizer ([Decoder.Token] with [UseNumber]) is a parameter that
    gives the tokens of a document and the error that ends them. *)
From Stdlib Require Import ZArith Ascii String Lia.
From stdpp Require Import base gmap sets list strings pretty.
From S2P Require Import Prelude Schema.
Local Open Scope Z_scope.
Local Open Scope string_scope.
Local Open Scope list_scope.

Definition ErrDuplicateJSONKey : string := "duplicate JSON object key".
Definition ErrTrailingJSONValue : string := "trailing JSON value".
Definition io_EOF : error := Sentinel "EOF".

(** ** Tokens of encoding/json *)
Inductive scalar :=
| SString (s : string)
| SNumber (text : string)
| SBool (b : bool)
| SNull.

Inductive token :=
| Delim (c : ascii)
| Scalar (s : scalar).

#[export] Instance scalar_eq_dec : EqDecision scalar.
Proof. solve_decision. Defined.
#[export] Instance token_eq_dec : EqDecision token.
Proof. solve_decision. Defined.

(** [%v] of a token. *)
Definition token_text (t : token) : string :=
  match t with
  | Delim c => String c EmptyString
  | Scalar (SString s) => s
  | Scalar (SNumber text) => text
  | Scalar (SBool b) => if b then "true" else "false"
  | Scalar SNull => "<nil>"
  end.

(** A [json.Decoder]: the tokens it will still yield, then the error that
    every later call returns ([io.EOF] after a whole document), with whether
    [More] sees an element at that point. *)
Record Decoder := mkDecoder {
  pending : list token;
  ending : error;
  ending_more : bool
}.

Definition DecM := GoM Decoder error.

Definition Token : DecM token := fun d =>
  match pending d with
  | t :: rest => (Ok t, mkDecoder rest (ending d) (ending_more d))
  | [] => (Err (ending d), d)
  end.

(** Whether there is another element in the current array or object. *)
Definition More (d : Decoder) : bool :=
  match pending d with
  | Delim c :: _ => negb (bool_decide (c = "]"%char) || bool_decide (c = "}"%char))
  | Scalar _ :: _ => true
  | [] => ending_more d
  end.

(** ** utf8.Valid *)
Definition is_cont (c : ascii) : bool := byte_in 128 191 c.

Fixpoint utf8_Valid (s : list ascii) : bool :=
  match s with
  | [] => true
  | a :: s' =>
      if byte_in 0 127 a then utf8_Valid s'
      else match s' with
      | [] => false
      | b :: s2 =>
          if byte_in 194 223 a then (is_cont b && utf8_Valid s2)%bool
          else match s2 with
          | [] => false
          | c :: s3 =>
              let three := (is_cont c && utf8_Valid s3)%bool in
              if is_byte 224 a then (byte_in 160 191 b && three)%bool
              else if is_byte 237 a then (byte_in 128 159 b && three)%bool
              else if byte_in 225 239 a then (is_cont b && three)%bool
              else match s3 with
              | [] => false
              | d :: s4 =>
                  let four := (is_cont c && is_cont d && utf8_Valid s4)%bool in
                  if is_byte 240 a then (byte_in 144 191 b && four)%bool
                  else if byte_in 241 243 a then (is_cont b && four)%bool
                  else if is_byte 244 a then (byte_in 128 143 b && four)%bool
                  else false
              end
          end
      end
  end.

(** ** hex.EncodeToString *)
Definition hex_digit (n : N) : ascii :=
  ascii_of_N (if N.ltb n 10 then 48 + n else 87 + n)%N.
Fixpoint hex_EncodeToString (src : list ascii) : string :=
  match src with
  | [] => EmptyString
  | c :: src' =>
      String (hex_digit (N.div (byte c) 16))
        (String (hex_digit (N.modulo (byte c) 16)) (hex_EncodeToString src'))
  end.

(** ** The libraries *)
Class JSONLibrary := {
  (** [json.NewDecoder] with [UseNumber]. *)
  NewDecoder : list ascii -> Decoder;
  (** [jcs.Transform] of github.com/gowebpki/jcs. *)
  jcs_Transform : list ascii -> result error (list ascii);
  (** [sha256.Sum256]; its type is an array of 32 bytes. *)
  Sum256 : list ascii -> list ascii;
  Sum256_length data : length (Sum256 data) = 32%nat
}.

(** ** Strict validation *)

(** [token, err := decoder.Token(); if err != nil { return ... }]. *)
Definition Token_or (f : error -> error) : DecM token := fun d =>
  let '(r, d') := Token d in (wrap f r, d').

(** [end, err := decoder.Token(); if err != nil || end != json.Delim(c)]. *)
Definition expect_delim (c : ascii) (e : error) : DecM unit :=
  token ← Token_or (fun _ => e);
  fail_if (token ≠ Delim c) e.

(** [scanJSONValue] and its two loops.  Every call consumes a token or ends,
    so twice the number of pending tokens and three is enough fuel. *)
Definition out_of_fuel : error := Sentinel "out of fuel".

Fixpoint scanJSONValue (fuel : nat) (path : string) (depth : Z) : DecM unit :=
  match fuel with
  | O => fail out_of_fuel
  | S fuel' =>
      fail_if (depth > 256)
        (ErrorNew (Sprintf "JSON nesting exceeds 256 at %s" [FStr path]));;
      token ← Token_or (Wrapf (Sprintf "decode JSON at %s: %w" [FStr path]));
      match token with
      | Scalar _ => mret tt
      | Delim delim =>
          if decide (delim = "{"%char) then
            scan_members fuel' path depth ∅;;
            expect_delim "}" (ErrorNew (Sprintf "unterminated object at %s" [FStr path]))
          else if decide (delim = "["%char) then
            scan_elements fuel' path depth 0;;
            expect_delim "]" (ErrorNew (Sprintf "unterminated array at %s" [FStr path]))
          else fail (ErrorNew (Sprintf "unexpected JSON delimiter %q at %s"
                                 [FStr (String delim EmptyString); FStr path]))
      end
  end
with scan_members (fuel : nat) (path : string) (depth : Z) (seen : gset string) : DecM unit :=
  match fuel with
  | O => fail out_of_fuel
  | S fuel' =>
      d ← get;
      if negb (More d) then mret tt else
        keyToken ← Token_or (Wrapf (Sprintf "decode object key at %s: %w" [FStr path]));
        match keyToken with
        | Scalar (SString key) =>
            fail_if (key ∈ seen)
              (Wrapf (Sprintf "%w %q at %s" [FStr key; FStr path]) (Sentinel ErrDuplicateJSONKey));;
            scanJSONValue fuel' (path +:+ "." +:+ key) (depth + 1);;
            scan_members fuel' path depth ({[key]} ∪ seen)
        | _ => fail (ErrorNew (Sprintf "non-string object key at %s" [FStr path]))
        end
  end
with scan_elements (fuel : nat) (path : string) (depth : Z) (index : N) : DecM unit :=
  match fuel with
  | O => fail out_of_fuel
  | S fuel' =>
      d ← get;
      if negb (More d) then mret tt else
        scanJSONValue fuel' (path +:+ "[" +:+ pretty index +:+ "]") (depth + 1);;
        scan_elements fuel' path depth (index + 1)%N
  end.

Section Canonical.
Context {lib : JSONLibrary}.

Definition validateUniqueJSON (raw : list ascii) : result error unit :=
  let decoder := NewDecoder raw in
  match scanJSONValue (2 * length (pending decoder) + 3) "$" 0 decoder with
  | (Err e, _) => Err e
  | (Ok _, decoder') =>
      match Token decoder' with
      | (Ok t, _) =>
          Err (Wrapf (Sprintf "%w: unexpected token %v" [FStr (token_text t)])
                 (Sentinel ErrTrailingJSONValue))
      | (Err e, _) =>
          if decide (e = io_EOF) then Ok tt
          else Err (Wrapf (Text "read trailing JSON: %w") e)
      end
  end.

Definition CanonicalizeJSON (raw : list ascii) : result error (list ascii) :=
  err_if (utf8_Valid raw = false) (ErrorNew (Text "JSON is not valid UTF-8"));;
  validateUniqueJSON raw;;
  wrap (Wrapf (Text "canonicalize RFC 8785 JSON: %w")) (jcs_Transform raw).

(** [json.Marshal] at the type of the value is an argument. *)
Definition CanonicalMarshal {A} (json_Marshal : A -> result error (list ascii)) (value : A)
    : result error (list ascii) :=
  raw ← wrap (Wrapf (Text "marshal canonical JSON input: %w")) (json_Marshal value);
  CanonicalizeJSON raw.

Definition NewDigest (data : list ascii) : Digest :=
  "sha256:" +:+ hex_EncodeToString (Sum256 data).

Definition CanonicalDigest {A} (json_Marshal : A -> result error (list ascii)) (value : A)
    : result error Digest :=
  canonical ← CanonicalMarshal json_Marshal value;
  mret (NewDigest canonical).
End Canonical.
