(* ===== verification/CanonicalSpec.v ===== *)
(** * pkg/schema: what strict JSON validation accepts

    JSON documents as trees, their token streams, and the proof that
    [validateUniqueJSON] accepts exactly the streams of one tree with unique
    member names and bounded nesting; the digests the package makes are
    valid. *)
From Stdlib Require Import ZArith Ascii String Lia.
From stdpp Require Import base gmap sets list strings pretty.
From S2P Require Import Prelude Schema Canonical.
Local Open Scope Z_scope.
Local Open Scope string_scope.
Local Open Scope list_scope.

(** ** JSON documents *)
Inductive json :=
| JScalar (s : scalar)
| JObject (ms : members)
| JArray (es : elements)
with members :=
| MNil
| MCons (key : string) (v : json) (ms : members)
with elements :=
| ENil
| ECons (v : json) (es : elements).

Scheme json_rec' := Induction for json Sort Prop
with members_rec' := Induction for members Sort Prop
with elements_rec' := Induction for elements Sort Prop.
Combined Scheme json_mutual from json_rec', members_rec', elements_rec'.

Fixpoint tokens (v : json) : list token :=
  match v with
  | JScalar s => [Scalar s]
  | JObject ms => Delim "{" :: member_tokens ms ++ [Delim "}"]
  | JArray es => Delim "[" :: element_tokens es ++ [Delim "]"]
  end
with member_tokens (ms : members) : list token :=
  match ms with
  | MNil => []
  | MCons key v ms' => Scalar (SString key) :: tokens v ++ member_tokens ms'
  end
with element_tokens (es : elements) : list token :=
  match es with
  | ENil => []
  | ECons v es' => tokens v ++ element_tokens es'
  end.

Fixpoint keys (ms : members) : list string :=
  match ms with
  | MNil => []
  | MCons key _ ms' => key :: keys ms'
  end.

(** No object of the document has two members of the same name. *)
Fixpoint unique (v : json) : Prop :=
  match v with
  | JScalar _ => True
  | JObject ms => NoDup (keys ms) ∧ unique_members ms
  | JArray es => unique_elements es
  end
with unique_members (ms : members) : Prop :=
  match ms with
  | MNil => True
  | MCons _ v ms' => unique v ∧ unique_members ms'
  end
with unique_elements (es : elements) : Prop :=
  match es with
  | ENil => True
  | ECons v es' => unique v ∧ unique_elements es'
  end.

(** Every value lies at most [n] containers deep. *)
Fixpoint nested_within (n : Z) (v : json) : Prop :=
  0 <= n ∧
  match v with
  | JScalar _ => True
  | JObject ms => members_within n ms
  | JArray es => elements_within n es
  end
with members_within (n : Z) (ms : members) : Prop :=
  match ms with
  | MNil => True
  | MCons _ v ms' => nested_within (n - 1) v ∧ members_within n ms'
  end
with elements_within (n : Z) (es : elements) : Prop :=
  match es with
  | ENil => True
  | ECons v es' => nested_within (n - 1) v ∧ elements_within n es'
  end.

(** ** The scanner accepts the tokens of a document *)

(** [d] after the tokens [l] have been read. *)
Definition with_pending (l : list token) (d : Decoder) : Decoder :=
  mkDecoder l (ending d) (ending_more d).

Lemma Token_or_cons f t l d :
  Token_or f (with_pending (t :: l) d) = (Ok t, with_pending l d).
Proof. done. Qed.

Lemma expect_delim_cons c e l d :
  expect_delim c e (with_pending (Delim c :: l) d) = (Ok tt, with_pending l d).
Proof.
  unfold expect_delim, mbind, gom_bind. rewrite Token_or_cons. unfold fail_if.
  rewrite decide_False; [done|]. intros H. by apply H.
Qed.

(** The closing delimiter stops the loops. *)
Definition closing (l : list token) : Prop :=
  exists rest, l = Delim "}" :: rest ∨ l = Delim "]" :: rest.

Lemma More_closing l d : closing l -> More (with_pending l d) = false.
Proof. by intros [rest [-> | ->]]. Qed.

Lemma tokens_head v l d : More (with_pending (tokens v ++ l) d) = true.
Proof. by destruct v. Qed.

(** One unfolding of each function. *)
Lemma scanJSONValue_S fuel path depth :
  scanJSONValue (S fuel) path depth =
  (fail_if (depth > 256)
     (ErrorNew (Sprintf "JSON nesting exceeds 256 at %s" [FStr path]));;
   token ← Token_or (Wrapf (Sprintf "decode JSON at %s: %w" [FStr path]));
   match token with
   | Scalar _ => mret tt
   | Delim delim =>
       if decide (delim = "{"%char) then
         scan_members fuel path depth ∅;;
         expect_delim "}" (ErrorNew (Sprintf "unterminated object at %s" [FStr path]))
       else if decide (delim = "["%char) then
         scan_elements fuel path depth 0;;
         expect_delim "]" (ErrorNew (Sprintf "unterminated array at %s" [FStr path]))
       else fail (ErrorNew (Sprintf "unexpected JSON delimiter %q at %s"
                              [FStr (String delim EmptyString); FStr path]))
   end).
Proof. done. Qed.

Lemma scan_members_S fuel path depth seen d :
  scan_members (S fuel) path depth seen d =
  if More d then
    (keyToken ← Token_or (Wrapf (Sprintf "decode object key at %s: %w" [FStr path]));
     match keyToken with
     | Scalar (SString key) =>
         fail_if (key ∈ seen)
           (Wrapf (Sprintf "%w %q at %s" [FStr key; FStr path]) (Sentinel ErrDuplicateJSONKey));;
         scanJSONValue fuel (path +:+ "." +:+ key) (depth + 1);;
         scan_members fuel path depth ({[key]} ∪ seen)
     | _ => fail (ErrorNew (Sprintf "non-string object key at %s" [FStr path]))
     end) d
  else (Ok tt, d).
Proof. cbn [scan_members]. unfold mbind, gom_bind, get. by destruct (More d) eqn:E; cbn; rewrite ?E. Qed.

Lemma scan_elements_S fuel path depth index d :
  scan_elements (S fuel) path depth index d =
  if More d then
    (scanJSONValue fuel (path +:+ "[" +:+ pretty index +:+ "]") (depth + 1);;
     scan_elements fuel path depth (index + 1)%N) d
  else (Ok tt, d).
Proof. cbn [scan_elements]. unfold mbind, gom_bind, get. by destruct (More d) eqn:E; cbn; rewrite ?E. Qed.

Local Arguments scanJSONValue : simpl never.
Local Arguments scan_members : simpl never.
Local Arguments scan_elements : simpl never.

Lemma scan_complete :
  (forall v fuel path depth l d,
     (2 * length (tokens v ++ l) + 2 <= fuel)%nat -> unique v -> nested_within (256 - depth) v ->
     scanJSONValue fuel path depth (with_pending (tokens v ++ l) d) = (Ok tt, with_pending l d)) ∧
  (forall ms fuel path depth seen l d,
     (2 * length (member_tokens ms ++ l) + 3 <= fuel)%nat -> closing l ->
     NoDup (keys ms) -> (forall k, k ∈ keys ms -> k ∉ seen) ->
     unique_members ms -> members_within (256 - depth) ms ->
     scan_members fuel path depth seen (with_pending (member_tokens ms ++ l) d)
     = (Ok tt, with_pending l d)) ∧
  (forall es fuel path depth index l d,
     (2 * length (element_tokens es ++ l) + 3 <= fuel)%nat -> closing l ->
     unique_elements es -> elements_within (256 - depth) es ->
     scan_elements fuel path depth index (with_pending (element_tokens es ++ l) d)
     = (Ok tt, with_pending l d)).
Proof.
  apply json_mutual.
  - intros s [|fuel] path depth l d F U W; [lia|]. destruct W as [W _].
    rewrite scanJSONValue_S. unfold fail_if. rewrite decide_False by lia. done.
  - intros ms IH [|fuel] path depth l d F [N U] [W W']; [lia|].
    rewrite scanJSONValue_S. unfold fail_if. rewrite decide_False by lia.
    simpl in F |- *. rewrite <- app_assoc in F |- *. unfold mbind, gom_bind, mret, gom_ret.
    rewrite Token_or_cons. simpl. simpl in F.
    rewrite IH; [apply expect_delim_cons|lia|by eexists; left|done|set_solver|done|done].
  - intros es IH [|fuel] path depth l d F U [W W']; [lia|].
    rewrite scanJSONValue_S. unfold fail_if. rewrite decide_False by lia.
    simpl in F |- *. rewrite <- app_assoc in F |- *. unfold mbind, gom_bind, mret, gom_ret.
    rewrite Token_or_cons. simpl. simpl in F.
    rewrite IH; [apply expect_delim_cons|lia|by eexists; right|done|done].
  - intros [|fuel] path depth seen l d F C _ _ _ _; [lia|]. by rewrite scan_members_S, More_closing.
  - intros key v IHv ms IH [|fuel] path depth seen l d F C N D [U U'] [W W']; [lia|].
    rewrite scan_members_S. simpl in F |- *. unfold mbind, gom_bind.
    rewrite Token_or_cons. unfold fail_if. simpl in N. apply NoDup_cons in N as [N N'].
    rewrite decide_False by (apply D; left). unfold mret, gom_ret.
    rewrite <- app_assoc in F |- *.
    rewrite IHv; [|lia|done|by replace (256 - (depth + 1)) with (256 - depth - 1) by lia].
    apply IH; try done.
    + rewrite length_app in F. lia.
    + intros k Hk [Hs%elem_of_singleton|Hs]%elem_of_union; [by subst|].
      apply (D k); [by right|done].
  - intros [|fuel] path depth index l d F C _ _; [lia|]. by rewrite scan_elements_S, More_closing.
  - intros v IHv es IH [|fuel] path depth index l d F C [U U'] [W W']; [lia|].
    rewrite scan_elements_S. simpl in F |- *.
    rewrite <- app_assoc in F |- *. rewrite tokens_head. unfold mbind, gom_bind.
    rewrite IHv; [|lia|done|by replace (256 - (depth + 1)) with (256 - depth - 1) by lia].
    apply IH; try done. rewrite length_app in F. destruct v; simpl in F; lia.
Qed.

(** ** What the scanner accepts is a document *)

(** A call ends: with the tokens of a tree consumed, or with an error other
    than the one that stands for exhausted fuel. *)
Definition scans (P : list token -> Prop) (d : Decoder) (r : result error unit * Decoder) : Prop :=
  match r with
  | (Ok _, d') => exists l, pending d = l ++ pending d' ∧ d' = with_pending (pending d') d ∧ P l
  | (Err e, _) => e <> out_of_fuel
  end.

Lemma scans_bind (P Q R : list token -> Prop) d (m k : DecM unit) :
  scans P d (m d) ->
  (forall d', m d = (Ok tt, d') -> scans Q d' (k d')) ->
  (forall l1 l2, P l1 -> Q l2 -> R (l1 ++ l2)) ->
  scans R d ((m;; k) d).
Proof.
  intros Hm Hk HR. unfold mbind, gom_bind. destruct (m d) as [[[]|e] d1] eqn:E; [|done].
  specialize (Hk d1 eq_refl). destruct Hm as (l1 & E1 & D1 & P1). unfold scans in *.
  destruct (k d1) as [[[]|e] d2]; [|done]. destruct Hk as (l2 & E2 & D2 & Q2).
  exists (l1 ++ l2). rewrite E1, E2, app_assoc. split_and!; [done| |by apply HR].
  rewrite D2, D1. done.
Qed.

Lemma scans_token_or (R : list token -> Prop) f (k : token -> DecM unit) d :
  (forall e, f e <> out_of_fuel) ->
  (forall t d', pending d = t :: pending d' -> d' = with_pending (pending d') d ->
     scans (fun l => R (t :: l)) d' (k t d')) ->
  scans R d ((t ← Token_or f; k t) d).
Proof.
  intros Hf Hk. unfold mbind, gom_bind, Token_or, Token.
  destruct (pending d) as [|t rest] eqn:E; simpl; [apply Hf|].
  specialize (Hk t (mkDecoder rest (ending d) (ending_more d)) eq_refl eq_refl).
  unfold scans in *. destruct (k t _) as [[[]|e] d2]; [|done].
  destruct Hk as (l & E2 & D2 & HR). exists (t :: l). simpl in E2. rewrite E, E2.
  split_and!; [done| |done]. by rewrite D2.
Qed.

Lemma scans_expect_delim c e d :
  e <> out_of_fuel -> scans (fun l => l = [Delim c]) d (expect_delim c e d).
Proof.
  intros He. unfold expect_delim. apply scans_token_or; [done|]. intros t d' E D.
  unfold fail_if. case_decide as H; simpl; [done|]. exists []. split_and!; [done|by destruct d'|].
  by rewrite H.
Qed.

Lemma scans_fail_if R (Q : Prop) `{Decision Q} e (k : DecM unit) d :
  e <> out_of_fuel -> (~ Q -> scans R d (k d)) -> scans R d ((fail_if Q e;; k) d).
Proof. intros He Hk. unfold fail_if, mbind, gom_bind. case_decide; [done|by apply Hk]. Qed.

Lemma scan_sound fuel :
  (forall path depth d, (2 * length (pending d) + 2 <= fuel)%nat ->
     scans (fun l => exists v, l = tokens v ∧ unique v ∧ nested_within (256 - depth) v) d
       (scanJSONValue fuel path depth d)) ∧
  (forall path depth seen d, (2 * length (pending d) + 3 <= fuel)%nat ->
     scans (fun l => exists ms, l = member_tokens ms ∧ NoDup (keys ms) ∧
              (forall k, k ∈ keys ms -> k ∉ seen) ∧
              unique_members ms ∧ members_within (256 - depth) ms) d
       (scan_members fuel path depth seen d)) ∧
  (forall path depth index d, (2 * length (pending d) + 3 <= fuel)%nat ->
     scans (fun l => exists es, l = element_tokens es ∧
              unique_elements es ∧ elements_within (256 - depth) es) d
       (scan_elements fuel path depth index d)).
Proof.
  induction fuel as [|fuel (IHv & IHm & IHe)]; [split_and!; lia|]. split_and!.
  - intros path depth d F. rewrite scanJSONValue_S. apply scans_fail_if; [done|]. intros Hd.
    apply scans_token_or; [done|]. intros [c|s] d' E _.
    + rewrite E in F. simpl in F. case_decide as Hc; [|case_decide as Hc'].
      * subst c. eapply scans_bind; [apply IHm; lia|intros; by apply scans_expect_delim|].
        intros ? ? (ms & -> & N & _ & U & W) ->. exists (JObject ms). split_and!; try done.
        split; [lia|done].
      * subst c. eapply scans_bind; [apply IHe; lia|intros; by apply scans_expect_delim|].
        intros ? ? (es & -> & U & W) ->. exists (JArray es). split_and!; try done. split; [lia|done].
      * done.
    + exists []. split_and!; [done|by destruct d'|]. exists (JScalar s). split_and!; try done.
      split; [lia|done].
  - intros path depth seen d F. rewrite scan_members_S. destruct (More d).
    2: { exists []. split_and!; [done|by destruct d|]. exists MNil. split_and!; try done; [constructor|].
         intros k Hk. by apply elem_of_nil in Hk. }
    apply scans_token_or; [done|]. intros [c|[key| | |]] d' E _; try done.
    rewrite E in F. simpl in F. apply scans_fail_if; [done|]. intros Hk.
    eapply scans_bind; [apply IHv; lia| |].
    + intros d2 E2. apply IHm.
      pose proof (IHv (path +:+ "." +:+ key) (depth + 1) d') as H. rewrite E2 in H.
      destruct H as (l & El & _); [lia|]. apply (f_equal length) in El. rewrite length_app in El. lia.
    + intros ? ? (v & -> & U & W) (ms & -> & N & D & U' & W'). exists (MCons key v ms).
      split_and!; try done.
      * apply NoDup_cons. split; [|done]. intros Hin. apply (D key Hin). set_solver.
      * intros k [->|Hin]%elem_of_cons; [done|]. specialize (D k Hin). set_solver.
      * split; [|done]. by replace (256 - depth - 1) with (256 - (depth + 1)) by lia.
  - intros path depth index d F. rewrite scan_elements_S. destruct (More d).
    2: { exists []. split_and!; [done|by destruct d|]. by exists ENil. }
    eapply scans_bind; [apply IHv; lia| |].
    + intros d2 E2. apply IHe.
      pose proof (IHv (path +:+ "[" +:+ pretty index +:+ "]") (depth + 1) d) as H. rewrite E2 in H.
      destruct H as (l & El & _ & v & -> & _); [lia|].
      apply (f_equal length) in El. rewrite length_app in El. destruct v; simpl in El; lia.
    + intros ? ? (v & -> & U & W) (es & -> & U' & W'). exists (ECons v es).
      split_and!; try done. split; [|done].
      by replace (256 - depth - 1) with (256 - (depth + 1)) by lia.
Qed.

Section Strict.
Context {lib : JSONLibrary}.

(** The document the tokenizer finds in the bytes. *)
Definition document (raw : list ascii) (v : json) : Prop :=
  pending (NewDecoder raw) = tokens v ∧ ending (NewDecoder raw) = io_EOF.

Lemma validateUniqueJSON_total raw : validateUniqueJSON raw <> Err out_of_fuel.
Proof.
  unfold validateUniqueJSON. set (d := NewDecoder raw).
  destruct (scan_sound (2 * length (pending d) + 3)) as (H & _ & _).
  specialize (H "$" 0 d ltac:(lia)). destruct (scanJSONValue _ _ _ d) as [[[]|e] d']; simpl in H.
  - unfold Token. destruct (pending d'); [|done]. by case_decide.
  - congruence.
Qed.

(** [C34] Strict JSON validation is exact and always ends: bytes are accepted
    if and only if they hold one JSON document and nothing after it, in which
    no object repeats a member name and no value lies deeper than 256
    containers; [CanonicalizeJSON] hands only such documents, in valid UTF-8,
    to the canonicalizer. *)
Theorem validateUniqueJSON_is_exact raw :
  (validateUniqueJSON raw = Ok tt <->
     exists v, document raw v ∧ unique v ∧ nested_within 256 v) ∧
  validateUniqueJSON raw <> Err out_of_fuel ∧
  (forall out, CanonicalizeJSON raw = Ok out <->
     utf8_Valid raw = true ∧ (exists v, document raw v ∧ unique v ∧ nested_within 256 v) ∧
     jcs_Transform raw = Ok out).
Proof.
  assert (validateUniqueJSON raw = Ok tt <->
     exists v, document raw v ∧ unique v ∧ nested_within 256 v) as Hv.
  { unfold validateUniqueJSON, document. set (d := NewDecoder raw). split.
    - destruct (scan_sound (2 * length (pending d) + 3)) as (H & _ & _).
      specialize (H "$" 0 d ltac:(lia)). destruct (scanJSONValue _ _ _ d) as [[[]|e] d']; [|done].
      destruct H as (l & E & D & v & -> & U & W). unfold Token. destruct (pending d'); [|done].
      case_decide as He; [|done]. intros _. exists v. rewrite app_nil_r in E.
      rewrite D in He. done.
    - intros (v & [E He] & U & W). destruct scan_complete as (H & _ & _).
      specialize (H v (2 * length (pending d) + 3)%nat "$" 0 [] d).
      rewrite app_nil_r, <- E in H. unfold with_pending in H at 1. destruct d as [p e m].
      simpl in *. rewrite H; [|lia|done|done]. simpl. by rewrite decide_True. }
  split_and!; [done|apply validateUniqueJSON_total|]. intros out. unfold CanonicalizeJSON, err_if.
  rewrite <- Hv. unfold mbind, result_bind.
  destruct (utf8_Valid raw), (validateUniqueJSON raw) as [[]|], (jcs_Transform raw);
    case_decide; simpl; naive_solver.
Qed.
End Strict.

(** ** Digests *)
Lemma hex_digit_lower n : (n < 16)%N -> is_lower_hex (hex_digit n) = true.
Proof.
  intros H. assert (forallb (fun k => is_lower_hex (hex_digit (N.of_nat k))) (seq 0 16) = true) as A
    by reflexivity.
  rewrite forallb_forall in A. specialize (A (N.to_nat n)). rewrite N2Nat.id in A. apply A.
  apply in_seq. lia.
Qed.

Lemma hex_matches l :
  match_classes (repeat is_lower_hex (2 * length l)) (hex_EncodeToString l) = true.
Proof.
  induction l as [|c l IH]; [done|]. simpl length. replace (2 * S (length l))%nat
    with (S (S (2 * length l))) by lia. cbn [repeat match_classes hex_EncodeToString].
  rewrite IH, !hex_digit_lower; [done|apply N.mod_lt; lia|].
  apply N.Div0.div_lt_upper_bound. unfold byte. pose proof (N_ascii_bounded c). lia.
Qed.

(** A digest the package makes is one it accepts. *)
Lemma NewDigest_valid {lib : JSONLibrary} data : Digest_Validate (NewDigest data) = Ok tt.
Proof.
  unfold Digest_Validate, NewDigest, ParseDigest, err_if. rewrite decide_False by done.
  assert (digestPattern ("sha256:" +:+ hex_EncodeToString (Sum256 data)) = true) as ->; [|done].
  pose proof (hex_matches (Sum256 data)) as H. rewrite Sum256_length in H. exact H.
Qed.

(** ** A small library to run the definitions

    Documents of one-byte tokens: brackets are delimiters, commas and colons
    are skipped, any other byte is a string. *)
Definition sample_token (c : ascii) : option token :=
  if is_one_of "{}[]" c then Some (Delim c)
  else if is_one_of ",:" c then None
  else Some (Scalar (SString (String c EmptyString))).

#[local] Instance sample_library : JSONLibrary := {
  NewDecoder raw := mkDecoder (omap sample_token raw) io_EOF false;
  jcs_Transform raw := Ok raw;
  Sum256 data := resize 32 "0"%char (rev data);
  Sum256_length data := length_resize (rev data) 32 "0"%char
}.

Definition sample_text (s : string) : list ascii := list_ascii_of_string s.

Example nested_document_accepted :
  CanonicalizeJSON (sample_text "{a:[x,{a:y}],b:{}}") = Ok (sample_text "{a:[x,{a:y}],b:{}}").
Proof. vm_compute. reflexivity. Qed.

Example duplicate_key_rejected :
  validateUniqueJSON (sample_text "[{a:x,b:{c:y,c:z}}]") =
  Err (Wrapf (Sprintf "%w %q at %s" [FStr "c"; FStr "$[0].b"]) (Sentinel ErrDuplicateJSONKey)).
Proof. vm_compute. reflexivity. Qed.

Example trailing_value_rejected :
  validateUniqueJSON (sample_text "[]x") =
  Err (Wrapf (Sprintf "%w: unexpected token %v" [FStr "x"]) (Sentinel ErrTrailingJSONValue)).
Proof. vm_compute. reflexivity. Qed.

Example nesting_limit :
  is_ok (validateUniqueJSON (repeat "["%char 257 ++ repeat "]"%char 257)) = true ∧
  is_ok (validateUniqueJSON (repeat "["%char 258 ++ repeat "]"%char 258)) = false.
Proof. vm_compute. done. Qed.
