(* ===== verification/Documents.v ===== *)
(** * pkg/schema: envelopes, identifiers and plan documents

    common.go ([Producer], [EnvelopeMeta], [SealMeta]), id.go
    ([NewInstanceID]) and the documents of plan.go with their validators.
    An embedded [EnvelopeMeta] is a field.  Whether bytes are valid JSON and
    how a URL is parsed are asked of encoding/json and net/url. *)
From Stdlib Require Import ZArith Ascii String Lia.
From stdpp Require Import base gmap sets list strings.
From S2P Require Import Prelude Schema Canonical.
Local Open Scope Z_scope.
Local Open Scope string_scope.
Local Open Scope list_scope.

Definition SchemaNamespace : string := "urn:agentapi-doctor:".
Definition ExtensionPrefix : string := "x-".

(** ** Libraries *)

(** What [TargetIntent.Validate] reads of a [url.URL]. *)
Record URL := mkURL {
  Scheme : string;
  Host : string;
  URLPath : string;
  RawQuery : string;
  Fragment : string;
  HasUser : bool
}.

Class DocumentLibrary := {
  document_json :: JSONLibrary;
  json_Valid : string -> bool;
  url_Parse : string -> result error URL
}.

(** ** Producers and envelopes (common.go) *)
Record Producer := mkProducer {
  prodName : string;
  prodVersion : string;
  prodArtifactDigest : Digest
}.

Definition Producer_Validate (producer : Producer) : result error unit :=
  err_if (namePattern (prodName producer) = false)
    (ErrorNew (Sprintf "invalid producer name %q" [FStr (prodName producer)]));;
  err_if (prodVersion producer = "") (ErrorNew (Text "producer version is required"));;
  wrap (Wrapf (Text "producer artifact digest: %w")) (Digest_Validate (prodArtifactDigest producer)).

Record EnvelopeMeta := mkEnvelopeMeta {
  emSchemaVersion : string;
  emKind : string;
  emInstanceID : InstanceID;
  emContentDigest : Digest;
  emObjectRef : ObjectRef;
  emProducer : Producer;
  emCreatedAt : Time;
  emExtensions : gmap string string
}.

Section Documents.
Context {lib : DocumentLibrary} {ro : RangeOrder string string}.

Definition extension_check (namespace raw : string) : result error unit :=
  err_if (HasPrefix namespace ExtensionPrefix = false ∨ len namespace <= len ExtensionPrefix)
    (ErrorNew (Sprintf "extension namespace %q must start with x-" [FStr namespace]));;
  err_if (len raw = 0 ∨ json_Valid raw = false)
    (ErrorNew (Sprintf "extension %q is not valid JSON" [FStr namespace])).

Definition EnvelopeMeta_Validate (meta : EnvelopeMeta) : result error unit :=
  err_if (HasPrefix (emSchemaVersion meta) SchemaNamespace = false)
    (ErrorNew (Sprintf "schema version %q is outside %s"
                 [FStr (emSchemaVersion meta); FStr SchemaNamespace]));;
  err_if (kindPattern (emKind meta) = false)
    (ErrorNew (Sprintf "invalid kind %q" [FStr (emKind meta)]));;
  (if decide (emInstanceID meta ≠ "")
   then wrap (Wrapf (Text "instance ID: %w")) (InstanceID_Validate (emInstanceID meta))
   else mret tt);;
  wrap (Wrapf (Text "content digest: %w")) (Digest_Validate (emContentDigest meta));;
  ObjectRef_Validate (emObjectRef meta);;
  err_if (refKind (emObjectRef meta) ≠ emKind meta ∨
          refInstanceID (emObjectRef meta) ≠ emInstanceID meta ∨
          refContentDigest (emObjectRef meta) ≠ emContentDigest meta)
    (ErrorNew (Text "object_ref does not match envelope identity"));;
  Producer_Validate (emProducer meta);;
  err_if (IsZero (emCreatedAt meta)) (ErrorNew (Text "created_at is required"));;
  for_each (fun '(namespace, raw) => extension_check namespace raw) (range (emExtensions meta)).

Definition SealMeta {A} (json_Marshal : A -> result error (list ascii)) (schemaVersion kind : string)
    (id : InstanceID) (producer : Producer) (createdAt : Time) (projection : A)
    : result error EnvelopeMeta :=
  err_if (HasPrefix schemaVersion SchemaNamespace = false)
    (ErrorNew (Sprintf "schema version %q is outside %s" [FStr schemaVersion; FStr SchemaNamespace]));;
  err_if (kindPattern kind = false) (ErrorNew (Sprintf "invalid kind %q" [FStr kind]));;
  (if decide (id ≠ "") then InstanceID_Validate id else mret tt);;
  Producer_Validate producer;;
  err_if (IsZero createdAt) (ErrorNew (Text "created_at is required"));;
  digest ← wrap (Wrapf (Text "digest immutable projection: %w"))
             (CanonicalDigest json_Marshal projection);
  mret (mkEnvelopeMeta schemaVersion kind id digest (mkObjectRef kind id digest) producer createdAt ∅).

(** ** Plan documents (plan.go) *)
Definition CaptureMode := string.
Definition NetworkPolicy := string.
Definition SideEffectPolicy := string.

Record TargetIntent := mkTargetIntent {
  LogicalRef : string;
  ProtocolFamily : string;
  IdentityExpectation : string;
  AllowedOrigin : string
}.

Definition TargetIntent_Validate (target : TargetIntent) : result error unit :=
  err_if (namePattern (LogicalRef target) = false)
    (ErrorNew (Sprintf "invalid target logical reference %q" [FStr (LogicalRef target)]));;
  err_if (namePattern (ProtocolFamily target) = false)
    (ErrorNew (Sprintf "invalid protocol family %q" [FStr (ProtocolFamily target)]));;
  err_if (IdentityExpectation target = "")
    (ErrorNew (Text "target identity expectation is required"));;
  let bad := ErrorNew (Sprintf "allowed origin %q must contain only scheme and host"
                         [FStr (AllowedOrigin target)]) in
  origin ← wrap (fun _ => bad) (url_Parse (AllowedOrigin target));
  err_if (Scheme origin = "" ∨ Host origin = "" ∨
          (URLPath origin ≠ "" ∧ URLPath origin ≠ "/") ∨
          RawQuery origin ≠ "" ∨ Fragment origin ≠ "" ∨ HasUser origin = true) bad;;
  err_if (Scheme origin ≠ "http" ∧ Scheme origin ≠ "https")
    (ErrorNew (Text "target origin scheme must be http or https")).

Record ArtifactSelector := mkArtifactSelector {
  selKind : string;
  selName : string;
  selConstraint : string;
  selAllowed : list Digest
}.

Record ProbePolicy := mkProbePolicy {
  probeOperations : list string;
  probeBudget : HardBudget;
  probeNetwork : NetworkPolicy
}.

Record ConditionalBranch := mkConditionalBranch {
  brCapability : string;
  brScenarios : list string
}.

Record EvidencePolicy := mkEvidencePolicy {
  evCapture : CaptureMode;
  evRedaction : string;
  evPublication : string
}.

Record SafetyPolicy := mkSafetyPolicy {
  safeNetwork : NetworkPolicy;
  safeRedirects : string;
  safeToolSideEffects : SideEffectPolicy;
  safeDriverPermissions : list string
}.

Record IntentPlan := mkIntentPlan {
  ipMeta : EnvelopeMeta;
  ipIntentPlanID : InstanceID;
  ipConfigDigest : Digest;
  ipTarget : TargetIntent;
  ipSelectors : list ArtifactSelector;
  ipSupportManifestDigest : Digest;
  ipCandidateDenominatorDigest : Digest;
  ipProbe : ProbePolicy;
  ipConditionalBranches : list ConditionalBranch;
  ipBudget : BudgetPolicy;
  ipEvidence : EvidencePolicy;
  ipSafety : SafetyPolicy;
  ipAuthor : string;
  ipApprovalRequirements : list string
}.

(** One iteration; the state is [seen]. *)
Definition branch_check (branch : ConditionalBranch) : GoM (gset string) error unit :=
  fail_if (namePattern (brCapability branch) = false ∨ length (brScenarios branch) = 0%nat)
    (ErrorNew (Sprintf "invalid conditional branch for %q" [FStr (brCapability branch)]));;
  seen ← get;
  fail_if (brCapability branch ∈ seen)
    (ErrorNew (Sprintf "duplicate conditional branch %q" [FStr (brCapability branch)]));;
  put ({[brCapability branch]} ∪ seen).

Definition validateIntentBranches (branches : list ConditionalBranch) : result error unit :=
  (for_eachM branch_check branches ∅).1.

(** [for name, digest := range map[string]Digest{...}]. *)
Definition named_digests (l : list (string * Digest)) : result error unit :=
  for_each (fun '(name, digest) => wrap (Wrapf (Sprintf "%s digest: %w" [FStr name])) (Digest_Validate digest))
    (range (list_to_map l : gmap string string)).

Definition IntentPlan_Validate (plan : IntentPlan) : result error unit :=
  EnvelopeMeta_Validate (ipMeta plan);;
  err_if (emKind (ipMeta plan) ≠ "IntentPlan" ∨ ipIntentPlanID plan ≠ emInstanceID (ipMeta plan))
    (ErrorNew (Text "IntentPlan identity does not match its envelope"));;
  named_digests [("config", ipConfigDigest plan); ("support manifest", ipSupportManifestDigest plan);
                 ("candidate denominator", ipCandidateDenominatorDigest plan)];;
  TargetIntent_Validate (ipTarget plan);;
  wrap (Wrapf (Text "probe budget: %w")) (HardBudget_Validate (probeBudget (ipProbe plan)));;
  BudgetPolicy_Validate (ipBudget plan);;
  err_if (ipAuthor plan = "" ∨ length (ipSelectors plan) = 0%nat)
    (ErrorNew (Text "intent plan requires an author and at least one selector"));;
  validateIntentBranches (ipConditionalBranches plan).

Definition CapabilityStatus := string.
Definition CapabilitySupported : CapabilityStatus := "supported".
Definition CapabilityUnsupported : CapabilityStatus := "unsupported".
Definition CapabilityUnknown : CapabilityStatus := "unknown".

Record CapabilityFact := mkCapabilityFact {
  factCapability : string;
  factStatus : CapabilityStatus;
  factEvidence : list ObjectRef
}.

Record CapabilityObservation := mkCapabilityObservation {
  coMeta : EnvelopeMeta;
  coObservationID : InstanceID;
  coIntentPlanRef : ObjectRef;
  coProbePolicyHash : Digest;
  coFacts : list CapabilityFact;
  coConsumedBudget : HardBudget
}.

Record TargetResolution := mkTargetResolution {
  IdentityLevel : string;
  ObservedFingerprint : Digest;
  trVersion : string;
  ConfigurationDigest : Digest;
  trModel : string;
  Region : string
}.

Record RuntimePolicy := mkRuntimePolicy {
  Concurrency : Z;
  Retries : Z;
  Timeout : Z;
  rtCapture : CaptureMode;
  Sandbox : string;
  rtNetwork : NetworkPolicy
}.

Record FinalizerPlan := mkFinalizerPlan {
  LeaseID : string;
  ResourceType : string;
  fpOperation : string;
  CleanupBudget : HardBudget
}.

Record ResolvedRunPlan := mkResolvedRunPlan {
  rpMeta : EnvelopeMeta;
  rpResolvedPlanID : InstanceID;
  rpIntentPlanRef : ObjectRef;
  rpResolver : ArtifactPin;
  rpCapabilityObservationRefs : list ObjectRef;
  rpSupportLockDigest : Digest;
  rpArtifacts : list ArtifactPin;
  rpTarget : TargetResolution;
  rpScenarios : list ScenarioDecision;
  rpDenominatorDigest : Digest;
  rpBudget : BudgetPolicy;
  rpRuntime : RuntimePolicy;
  rpFinalizers : list FinalizerPlan
}.

Definition ResolvedRunPlan_Validate (plan : ResolvedRunPlan) : result error unit :=
  EnvelopeMeta_Validate (rpMeta plan);;
  err_if (emKind (rpMeta plan) ≠ "ResolvedRunPlan" ∨
          rpResolvedPlanID plan ≠ emInstanceID (rpMeta plan))
    (ErrorNew (Text "ResolvedRunPlan identity does not match its envelope"));;
  wrap (Wrapf (Text "intent plan reference: %w")) (ObjectRef_Validate (rpIntentPlanRef plan));;
  wrap (Wrapf (Text "resolver: %w")) (ArtifactPin_Validate (rpResolver plan));;
  for_each Digest_Validate
    [rpSupportLockDigest plan; rpDenominatorDigest plan; ObservedFingerprint (rpTarget plan)];;
  BudgetPolicy_Validate (rpBudget plan);;
  err_if (Concurrency (rpRuntime plan) <= 0 ∨ Retries (rpRuntime plan) < 0)
    (ErrorNew (Text "runtime concurrency must be positive and retries nonnegative"));;
  Duration_Validate (Timeout (rpRuntime plan));;
  err_if (length (rpScenarios plan) = 0%nat ∨ length (rpArtifacts plan) = 0%nat)
    (ErrorNew (Text "resolved plan requires scenarios and exact artifacts"));;
  validateScenarioDAG (rpScenarios plan).
End Documents.

(** ** Instance identifiers (id.go) *)

(** Nanoseconds from Go's zero time to the Unix epoch. *)
Definition unix_epoch : Time := 62135596800 * 1000000000.
(** [time.Time.UnixMilli]. *)
Definition UnixMilli (t : Time) : Z := (t - unix_epoch) / 1000000.

(** [byte(z)]. *)
Definition byte_of (z : Z) : ascii := ascii_of_N (Z.to_N (z mod 256)).
Definition nth_byte (n : nat) (raw : list ascii) : Z := Z.of_N (byte (nth n raw "000"%char)).

(** [encoded[0:8] + "-" + encoded[8:12] + ...]. *)
Definition group_uuid (encoded : string) : InstanceID :=
  String.substring 0 8 encoded +:+ "-" +:+ String.substring 8 4 encoded +:+ "-" +:+
  String.substring 12 4 encoded +:+ "-" +:+ String.substring 16 4 encoded +:+ "-" +:+
  String.substring 20 12 encoded.

(** The timestamp in the first six bytes, then the version and variant bits
    over the random bytes. *)
Definition stamp_uuid (millis : Z) (raw : list ascii) : list ascii :=
  [byte_of (Z.shiftr millis 40); byte_of (Z.shiftr millis 32); byte_of (Z.shiftr millis 24);
   byte_of (Z.shiftr millis 16); byte_of (Z.shiftr millis 8); byte_of millis;
   byte_of (Z.lor (Z.land (nth_byte 6 raw) 15) 112); nth 7 raw "000"%char;
   byte_of (Z.lor (Z.land (nth_byte 8 raw) 63) 128)] ++ drop 9 raw.

(** [random] is what [io.ReadFull] of the reader gives for sixteen bytes. *)
Definition NewInstanceID (now : Time) (random : result error (list ascii)) : result error InstanceID :=
  let millis := UnixMilli now in
  err_if (millis < 0 ∨ millis >= Z.shiftl 1 48)
    (ErrorNew (Text "UUIDv7 timestamp is outside the 48-bit range"));;
  raw ← wrap (Wrapf (Text "read UUIDv7 randomness: %w")) random;
  mret (group_uuid (hex_EncodeToString (stamp_uuid millis raw))).
