(* ===== verification/DocumentsSpec.v ===== *)
(** * pkg/schema: what sealing and identifier generation guarantee *)
From Stdlib Require Import ZArith Ascii String Lia.
From stdpp Require Import base gmap sets list strings.
From S2P Require Import Prelude Schema Canonical CanonicalSpec Documents.
Local Open Scope Z_scope.
Local Open Scope string_scope.
Local Open Scope list_scope.

(** ** Sealed envelopes *)
Section Seal.
Context {lib : DocumentLibrary} {ro : RangeOrder string string}.

(** An envelope that [SealMeta] makes passes [Validate], refers to itself, and
    carries the digest of its projection. *)
Lemma SealMeta_valid {A} (json_Marshal : A -> result error (list ascii))
    version kind id producer createdAt projection meta :
  SealMeta json_Marshal version kind id producer createdAt projection = Ok meta ->
  EnvelopeMeta_Validate meta = Ok tt ∧ emKind meta = kind ∧ emInstanceID meta = id ∧
  emProducer meta = producer ∧ emCreatedAt meta = createdAt ∧
  emObjectRef meta = mkObjectRef kind id (emContentDigest meta) ∧
  CanonicalDigest json_Marshal projection = Ok (emContentDigest meta).
Proof.
  unfold SealMeta. rewrite bind_Ok. intros ([] & H1 & H). rewrite bind_Ok in H.
  destruct H as ([] & H2 & H). rewrite bind_Ok in H. destruct H as ([] & H3 & H).
  rewrite bind_Ok in H. destruct H as ([] & H4 & H). rewrite bind_Ok in H.
  destruct H as ([] & H5 & H). rewrite bind_Ok in H. destruct H as (d & H6 & [= <-]).
  rewrite wrap_ok in H6. simpl. split_and!; try done.
  assert (Digest_Validate d = Ok tt) as Hd.
  { unfold CanonicalDigest in H6. rewrite bind_Ok in H6. destruct H6 as (c & _ & [= <-]).
    apply NewDigest_valid. }
  apply err_if_ok in H1, H2, H5.
  assert ((if decide (id <> "") then InstanceID_Validate id else Ok tt) = Ok tt) as H3' by done.
  unfold EnvelopeMeta_Validate, ObjectRef_Validate. simpl.
  rewrite !bind_ok, !err_if_ok, !wrap_ok, for_each_ok. split_and!; try done.
  all: try (case_decide; [by rewrite wrap_ok|done]).
  - intuition congruence.
  - apply Forall_forall. intros [k v] Hkv%elem_of_range. by rewrite lookup_empty in Hkv.
Qed.
End Seal.

(** ** Instance identifiers *)
Lemma hex_digit_high c : is_lower_hex (hex_digit (byte c / 16)) = true.
Proof.
  apply hex_digit_lower, N.Div0.div_lt_upper_bound. unfold byte. pose proof (N_ascii_bounded c). lia.
Qed.
Lemma hex_digit_low c : is_lower_hex (hex_digit (byte c mod 16)) = true.
Proof. apply hex_digit_lower, N.mod_lt. lia. Qed.

Lemma version_digit c :
  hex_digit (byte (byte_of (Z.lor (Z.land (Z.of_N (byte c)) 15) 112)) / 16) = "7"%char.
Proof. destruct c as [[] [] [] [] [] [] [] []]; vm_compute; reflexivity. Qed.

Lemma variant_digit c :
  is_one_of "89ab" (hex_digit (byte (byte_of (Z.lor (Z.land (Z.of_N (byte c)) 63) 128)) / 16)) = true.
Proof. destruct c as [[] [] [] [] [] [] [] []]; vm_compute; reflexivity. Qed.

Lemma is_latest_length s : is_latest s = true -> (String.length s <= 7)%nat.
Proof.
  unfold is_latest. rewrite orb_true_iff. intros [H|H].
  - assert (forall t u, equal_fold_ascii t u = true -> String.length t = String.length u) as G.
    { induction t as [|a t IH]; intros [|b u]; simpl; try done.
      rewrite andb_true_iff. intros [_ E]. by rewrite (IH _ E). }
    rewrite (G _ _ H). simpl. lia.
  - assert (length (bytes_of s) = String.length s) as <-.
    { unfold bytes_of. rewrite length_fmap. clear. induction s as [|a s IH]; simpl; [done|by rewrite IH]. }
    destruct (bytes_of s) as [|? [|? [|? [|? [|? [|? [|? [|]]]]]]]]; simpl; try lia.
    repeat match type of H with context [match ?x with _ => _ end] => destruct x; try done end.
Qed.

Lemma stamp_uuid_pattern millis raw :
  length raw = 16%nat ->
  uuidV7Pattern (group_uuid (hex_EncodeToString (stamp_uuid millis raw))) = true.
Proof.
  intros L. do 16 (destruct raw as [|? raw]; [done|]). destruct raw; [|done].
  unfold uuidV7Pattern, group_uuid, stamp_uuid, nth_byte.
  lazy -[is_lower_hex hex_digit byte N.div N.modulo byte_of is_one_of Z.of_N Z.lor Z.land Z.shiftr andb bool_decide decide].
  rewrite !hex_digit_high, !hex_digit_low, version_digit, variant_digit. done.
Qed.

(** Every identifier the package generates is one it accepts. *)
Lemma NewInstanceID_valid now raw id :
  length raw = 16%nat -> NewInstanceID now (Ok raw) = Ok id -> InstanceID_Validate id = Ok tt.
Proof.
  intros L. unfold NewInstanceID. rewrite bind_Ok. intros ([] & _ & H).
  apply bind_Ok in H as (raw' & Hr & H). apply wrap_ok in Hr.
  assert (raw' = raw) as -> by congruence.
  assert (id = group_uuid (hex_EncodeToString (stamp_uuid (UnixMilli now) raw))) as ->.
  { unfold mret, result_ret in H. congruence. }
  apply InstanceID_Validate_ok. pose proof (stamp_uuid_pattern (UnixMilli now) raw L) as P.
  split; [done|]. apply not_true_is_false. intros E%is_latest_length.
  apply match_classes_length in P. rewrite P in E. cbn in E. lia.
Qed.

(** [C40] What the tool mints it also accepts: an identifier generated from
    sixteen random bytes is a UUIDv7 that [InstanceID.Validate] accepts, and
    an envelope sealed under it passes [Validate], refers to itself by a
    valid reference with that identifier, and carries the digest of exactly
    the projection that was sealed. *)
Theorem minted_documents_are_valid `{DocumentLibrary} {ro : RangeOrder string string} {A}
    (json_Marshal : A -> result error (list ascii))
    now raw id version kind producer createdAt projection meta
    (Hraw : length raw = 16%nat) (Hid : NewInstanceID now (Ok raw) = Ok id)
    (Hseal : SealMeta json_Marshal version kind id producer createdAt projection = Ok meta) :
  InstanceID_Validate id = Ok tt ∧ EnvelopeMeta_Validate meta = Ok tt ∧
  ObjectRef_Validate (emObjectRef meta) = Ok tt ∧
  emObjectRef meta = mkObjectRef kind id (emContentDigest meta) ∧
  CanonicalDigest json_Marshal projection = Ok (emContentDigest meta).
Proof.
  destruct (SealMeta_valid _ _ _ _ _ _ _ _ Hseal) as (Hv & Hk & Hi & _ & _ & Hr & Hd).
  split_and!; try done; [by eapply NewInstanceID_valid|].
  unfold EnvelopeMeta_Validate in Hv. rewrite !bind_ok in Hv. tauto.
Qed.

#[local] Instance sample_json : JSONLibrary := {
  NewDecoder raw := mkDecoder [Scalar SNull] io_EOF false;
  jcs_Transform raw := Ok raw;
  Sum256 data := resize 32 "0"%char data;
  Sum256_length data := length_resize data 32 "0"%char
}.
#[local] Instance sample_documents : DocumentLibrary := {
  document_json := sample_json;
  json_Valid _ := true;
  url_Parse _ := Err (ErrorNew (Text "no URL"))
}.
Definition minted_digest : Digest :=
  "sha256:0123456789abcdef0123456789abcdef0123456789abcdef0123456789abcdef".
Definition minted_meta : EnvelopeMeta :=
  let id := "00000000-0007-7030-b030-303030303030" in
  mkEnvelopeMeta (SchemaNamespace +:+ "plan") "Plan" id (NewDigest []) (mkObjectRef "Plan" id (NewDigest []))
    (mkProducer "doctor" "1" minted_digest) 7 ∅.

Lemma minted_documents_are_valid_witness :
  InstanceID_Validate (emInstanceID minted_meta) = Ok tt ∧ EnvelopeMeta_Validate minted_meta = Ok tt ∧
  ObjectRef_Validate (emObjectRef minted_meta) = Ok tt ∧
  emObjectRef minted_meta = mkObjectRef "Plan" (emInstanceID minted_meta) (emContentDigest minted_meta) ∧
  CanonicalDigest (fun _ : unit => Ok []) tt = Ok (emContentDigest minted_meta).
Proof.
  refine (minted_documents_are_valid (fun _ : unit => Ok []) (unix_epoch + 7000000) (repeat "0"%char 16)
            (emInstanceID minted_meta) (SchemaNamespace +:+ "plan") "Plan"
            (mkProducer "doctor" "1" minted_digest) 7 tt minted_meta _ _ _); vm_compute; reflexivity.
Defined.
