(* ===== verification/Statemachine.v ===== *)
(** * internal/statemachine: the strict response lifecycle

    The machine of response.go accepts one semantic event at a time.  The
    definitions are the handlers of [Machine.Apply]; the theorems relate them
    to a specification stated over the history of accepted events, without
    any machine state. *)
From Stdlib Require Import ZArith Ascii String Lia.
From stdpp Require Import base gmap sets list strings.
From S2P Require Import Prelude.
Local Open Scope Z_scope.
Local Open Scope string_scope.
Local Open Scope list_scope.

(** ** Data *)

(** An event type is an open set of strings: the default branch of [Apply]
    rejects the ones it does not know. *)
Definition EventType := string.
Definition EventResponseCreated : EventType := "response.created".
Definition EventResponseInProgress : EventType := "response.in_progress".
Definition EventOutputItemAdded : EventType := "response.output_item.added".
Definition EventArgumentsDelta : EventType := "response.function_call_arguments.delta".
Definition EventArgumentsDone : EventType := "response.function_call_arguments.done".
Definition EventOutputItemDone : EventType := "response.output_item.done".
Definition EventToolResult : EventType := "tool.result".
Definition EventResponseCompleted : EventType := "response.completed".
Definition EventResponseFailed : EventType := "response.failed".
Definition EventResponseIncomplete : EventType := "response.incomplete".

Record Event := mkEvent {
  evSequence : Z;
  evType : EventType;
  evItemID : string;
  evItemKind : string;
  evOutputIndex : Z;
  evCallID : string;
  evDelta : string;
  evArguments : string
}.

Record Violation := mkViolation {
  Code : string;
  Expected : message;
  Observed : message
}.

Record itemState := mkItem {
  kind : string;
  callID : string;
  arguments : string;
  argumentsDone : bool;
  done_ : bool
}.

Record Machine := mkMachine {
  nextSequence : Z;
  created : bool;
  inProgress : bool;
  terminal : EventType;
  items : gmap string itemState;
  indexes : gmap Z string;
  calls : gmap string string;
  toolResults : gset string
}.

(** What ends a call abnormally: a returned [*Violation], or the run-time
    panic of a nil dereference. *)
Inductive Fault :=
| Returned (v : Violation)
| NilDereference.

Definition New : Machine := mkMachine 1 false false "" ∅ ∅ ∅ ∅.

Definition violation (code : string) (expected observed : message) : Fault :=
  Returned (mkViolation code expected observed).

(** ** Field updates *)
Definition set_nextSequence n m :=
  mkMachine n (created m) (inProgress m) (terminal m) (items m) (indexes m) (calls m) (toolResults m).
Definition set_created b m :=
  mkMachine (nextSequence m) b (inProgress m) (terminal m) (items m) (indexes m) (calls m) (toolResults m).
Definition set_inProgress b m :=
  mkMachine (nextSequence m) (created m) b (terminal m) (items m) (indexes m) (calls m) (toolResults m).
Definition set_terminal t m :=
  mkMachine (nextSequence m) (created m) (inProgress m) t (items m) (indexes m) (calls m) (toolResults m).
Definition set_items i m :=
  mkMachine (nextSequence m) (created m) (inProgress m) (terminal m) i (indexes m) (calls m) (toolResults m).
Definition set_indexes i m :=
  mkMachine (nextSequence m) (created m) (inProgress m) (terminal m) (items m) i (calls m) (toolResults m).
Definition set_calls c m :=
  mkMachine (nextSequence m) (created m) (inProgress m) (terminal m) (items m) (indexes m) c (toolResults m).
Definition set_toolResults r m :=
  mkMachine (nextSequence m) (created m) (inProgress m) (terminal m) (items m) (indexes m) (calls m) r.

(** ** Handlers *)
Section Handlers.
Context {ro : RangeOrder string itemState}.

Definition requireActive (event : EventType) : GoM Machine Fault unit :=
  machine ← get;
  fail_if (created machine = false)
    (violation "event_before_response_created" (Text "response.created") (Text event)).

Definition create : GoM Machine Fault unit :=
  machine ← get;
  fail_if (created machine = true)
    (violation "duplicate_response_created" (Text "one response.created")
       (Text "duplicate response.created"));;
  modify (set_created true).

Definition markInProgress : GoM Machine Fault unit :=
  requireActive EventResponseInProgress;;
  machine ← get;
  fail_if (inProgress machine = true)
    (violation "duplicate_in_progress" (Text "at most one response.in_progress")
       (Text "duplicate response.in_progress"));;
  fail_if (size (items machine) ≠ 0%nat)
    (violation "in_progress_after_output" (Text "response.in_progress before output items")
       (Text "output item already added"));;
  modify (set_inProgress true).

Definition addItem (event : Event) : GoM Machine Fault unit :=
  requireActive (evType event);;
  machine ← get;
  fail_if (evItemID event = "" ∨ evItemKind event = "" ∨ evOutputIndex event < 0)
    (violation "invalid_output_item" (Text "nonempty item ID/kind and nonnegative index")
       (Sprintf "id=%q kind=%q index=%d"
          [FStr (evItemID event); FStr (evItemKind event); FInt (evOutputIndex event)]));;
  fail_if (is_Some (items machine !! evItemID event))
    (violation "duplicate_item_id" (Text "unique item ID") (Text (evItemID event)));;
  match indexes machine !! evOutputIndex event with
  | Some prior =>
      fail (violation "duplicate_output_index" (Text "unique output index")
              (Sprintf "index %d already used by %s" [FInt (evOutputIndex event); FStr prior]))
  | None => mret tt
  end;;
  (if decide (evItemKind event = "function_call") then
     fail_if (evCallID event = "")
       (violation "missing_call_id" (Text "function call ID") (Text "empty"));;
     match calls machine !! evCallID event with
     | Some prior =>
         fail (violation "duplicate_call_id" (Text "unique call ID")
                 (Sprintf "%s already used by %s" [FStr (evCallID event); FStr prior]))
     | None => mret tt
     end;;
     modify (fun m => set_calls (<[evCallID event := evItemID event]> (calls m)) m)
   else
     fail_if (evCallID event ≠ "")
       (violation "call_id_for_non_function_item" (Text "empty call ID") (Text (evCallID event))));;
  modify (fun m => set_items
    (<[evItemID event := mkItem (evItemKind event) (evCallID event) "" false false]> (items m)) m);;
  modify (fun m => set_indexes (<[evOutputIndex event := evItemID event]> (indexes m)) m).

Definition openFunctionCall (event : Event) : GoM Machine Fault itemState :=
  requireActive (evType event);;
  machine ← get;
  match items machine !! evItemID event with
  | None => fail (violation "unknown_item_reference" (Text "previously added item")
                    (Text (evItemID event)))
  | Some item =>
      fail_if (done_ item = true)
        (violation "event_for_closed_item" (Text "open item") (Text (evItemID event)));;
      fail_if (kind item ≠ "function_call")
        (violation "arguments_for_non_function_item" (Text "function_call") (Text (kind item)));;
      fail_if (evCallID event ≠ "" ∧ evCallID event ≠ callID item)
        (violation "call_id_changed" (Text "stable call ID") (Text "changed call ID"));;
      mret item
  end.

Definition addArguments (event : Event) : GoM Machine Fault unit :=
  item ← openFunctionCall event;
  fail_if (argumentsDone item = true)
    (violation "arguments_delta_after_done" (Text "no delta after arguments.done")
       (Text (evItemID event)));;
  modify (fun m => set_items
    (<[evItemID event := mkItem (kind item) (callID item) (arguments item +:+ evDelta event)
                           (argumentsDone item) (done_ item)]> (items m)) m).

Definition finishArguments (event : Event) : GoM Machine Fault unit :=
  item ← openFunctionCall event;
  fail_if (argumentsDone item = true)
    (violation "duplicate_arguments_done" (Text "one arguments.done") (Text (evItemID event)));;
  fail_if (evArguments event ≠ arguments item)
    (violation "arguments_reconstruction_mismatch"
       (Text "arguments.done equal to accumulated deltas") (Text "different argument value"));;
  modify (fun m => set_items
    (<[evItemID event := mkItem (kind item) (callID item) (arguments item) true
                           (done_ item)]> (items m)) m).

Definition finishItem (event : Event) : GoM Machine Fault unit :=
  requireActive (evType event);;
  machine ← get;
  match items machine !! evItemID event with
  | None => fail (violation "unknown_item_reference" (Text "previously added item")
                    (Text (evItemID event)))
  | Some item =>
      fail_if (done_ item = true)
        (violation "duplicate_output_item_done" (Text "one output_item.done")
           (Text (evItemID event)));;
      fail_if (kind item = "function_call" ∧ argumentsDone item = false)
        (violation "function_item_done_before_arguments" (Text "arguments.done")
           (Text (evItemID event)));;
      fail_if (evCallID event ≠ "" ∧ evCallID event ≠ callID item)
        (violation "call_id_changed" (Text "stable call ID") (Text "changed call ID"));;
      modify (fun m => set_items
        (<[evItemID event := mkItem (kind item) (callID item) (arguments item)
                               (argumentsDone item) true]> (items m)) m)
  end.

Definition acceptToolResult (event : Event) : GoM Machine Fault unit :=
  requireActive (evType event);;
  machine ← get;
  match calls machine !! evCallID event with
  | None => fail (violation "tool_result_unknown_call" (Text "known call ID")
                    (Text (evCallID event)))
  | Some itemID =>
      match items machine !! itemID with
      | None => fail NilDereference
      | Some item =>
          fail_if (done_ item = false)
            (violation "tool_result_before_call_done" (Text "closed function call")
               (Text (evCallID event)));;
          fail_if (evCallID event ∈ toolResults machine)
            (violation "duplicate_tool_result" (Text "one result per call ID")
               (Text (evCallID event)));;
          modify (fun m => set_toolResults ({[evCallID event]} ∪ toolResults m) m)
      end
  end.

(** The first open item in the order the map iteration visits. *)
Fixpoint first_open (l : list (string * itemState)) : option string :=
  match l with
  | [] => None
  | (itemID, item) :: l' => if done_ item then first_open l' else Some itemID
  end.

Definition finishResponse (terminal' : EventType) : GoM Machine Fault unit :=
  requireActive terminal';;
  machine ← get;
  (if decide (terminal' = EventResponseCompleted) then
     match first_open (range (items machine)) with
     | Some itemID => fail (violation "completed_with_open_item" (Text "all output items done")
                              (Text itemID))
     | None => mret tt
     end
   else mret tt);;
  modify (set_terminal terminal').

Definition dispatch (event : Event) : GoM Machine Fault unit :=
  if decide (evType event = EventResponseCreated) then create
  else if decide (evType event = EventResponseInProgress) then markInProgress
  else if decide (evType event = EventOutputItemAdded) then addItem event
  else if decide (evType event = EventArgumentsDelta) then addArguments event
  else if decide (evType event = EventArgumentsDone) then finishArguments event
  else if decide (evType event = EventOutputItemDone) then finishItem event
  else if decide (evType event = EventToolResult) then acceptToolResult event
  else if decide (evType event ∈ [EventResponseCompleted; EventResponseFailed;
                                  EventResponseIncomplete])
  then finishResponse (evType event)
  else fail (violation "unknown_semantic_event" (Text "known versioned event")
               (Text (evType event))).

Definition Apply (event : Event) : GoM Machine Fault unit :=
  machine ← get;
  fail_if (evSequence event ≠ nextSequence machine)
    (violation "non_monotonic_sequence" (Sprintf "sequence %d" [FInt (nextSequence machine)])
       (Sprintf "sequence %d" [FInt (evSequence event)]));;
  fail_if (terminal machine ≠ "")
    (violation "event_after_terminal" (Text "no semantic event") (Text (evType event)));;
  dispatch event;;
  modify (fun m => set_nextSequence (uint64_wrap (nextSequence m + 1)) m).

Definition Finish (machine : Machine) : result Fault unit :=
  err_if (terminal machine = "")
    (violation "missing_terminal_event" (Text "one completed, failed, or incomplete event")
       (Text "end of evidence")).

Definition Terminal (machine : Machine) : EventType := terminal machine.

Definition ReconstructedArguments (machine : Machine) (itemID : string) : string * bool :=
  match items machine !! itemID with
  | None => ("", false)
  | Some item => (arguments item, true)
  end.

End Handlers.
