(* ===== verification/StatemachineSpec.v ===== *)
(** * A history specification of the response lifecycle

    What [Machine.Apply] should accept, stated over the list of events
    accepted so far, and the simulation between that specification and the
    machine of Statemachine.v. *)
From Stdlib Require Import ZArith Ascii String Lia.
From stdpp Require Import base gmap sets list strings.
From S2P Require Import Prelude Statemachine.
Local Open Scope Z_scope.
Local Open Scope string_scope.
Local Open Scope list_scope.

(** ** Observations of a history *)

Definition terminal_type (t : EventType) : Prop :=
  t ∈ [EventResponseCompleted; EventResponseFailed; EventResponseIncomplete].

(** Some event of type [t] occurred. *)
Definition seen (h : list Event) (t : EventType) : Prop :=
  ∃ e, e ∈ h ∧ evType e = t.

(** Some event of type [t] about item [id] occurred. *)
Definition seen_on (h : list Event) (t : EventType) (id : string) : Prop :=
  ∃ e, e ∈ h ∧ evType e = t ∧ evItemID e = id.

(** [a] is the event that announced item [id]. *)
Definition announced (h : list Event) (id : string) (a : Event) : Prop :=
  a ∈ h ∧ evType a = EventOutputItemAdded ∧ evItemID a = id.

(** The concatenation of the argument deltas of item [id]. *)
Definition deltas (h : list Event) (id : string) : string :=
  foldr (fun e acc =>
    (if decide (evType e = EventArgumentsDelta ∧ evItemID e = id) then evDelta e else "") +:+ acc)
    "" h.

(** An argument event may repeat the call identifier of its item but not
    change it. *)
Definition same_call (e a : Event) : Prop := evCallID e = "" ∨ evCallID e = evCallID a.

(** ** The lifecycle rules *)
Inductive legal (h : list Event) (e : Event) : Prop :=
| legal_created :
    evType e = EventResponseCreated → ¬ seen h EventResponseCreated → legal h e
| legal_in_progress :
    evType e = EventResponseInProgress → seen h EventResponseCreated →
    ¬ seen h EventResponseInProgress → ¬ seen h EventOutputItemAdded → legal h e
| legal_added :
    evType e = EventOutputItemAdded → seen h EventResponseCreated →
    evItemID e ≠ "" → evItemKind e ≠ "" → 0 <= evOutputIndex e →
    (∀ a, ¬ announced h (evItemID e) a) →
    (∀ id a, announced h id a → evOutputIndex a ≠ evOutputIndex e) →
    (evItemKind e = "function_call" → evCallID e ≠ "" ∧
      ∀ id a, announced h id a → evItemKind a = "function_call" → evCallID a ≠ evCallID e) →
    (evItemKind e ≠ "function_call" → evCallID e = "") →
    legal h e
| legal_delta a :
    evType e = EventArgumentsDelta → seen h EventResponseCreated →
    announced h (evItemID e) a → evItemKind a = "function_call" → same_call e a →
    ¬ seen_on h EventOutputItemDone (evItemID e) →
    ¬ seen_on h EventArgumentsDone (evItemID e) → legal h e
| legal_arguments_done a :
    evType e = EventArgumentsDone → seen h EventResponseCreated →
    announced h (evItemID e) a → evItemKind a = "function_call" → same_call e a →
    ¬ seen_on h EventOutputItemDone (evItemID e) →
    ¬ seen_on h EventArgumentsDone (evItemID e) →
    evArguments e = deltas h (evItemID e) → legal h e
| legal_item_done a :
    evType e = EventOutputItemDone → seen h EventResponseCreated →
    announced h (evItemID e) a → same_call e a →
    ¬ seen_on h EventOutputItemDone (evItemID e) →
    (evItemKind a = "function_call" → seen_on h EventArgumentsDone (evItemID e)) →
    legal h e
| legal_tool_result id a :
    evType e = EventToolResult → seen h EventResponseCreated →
    announced h id a → evItemKind a = "function_call" → evCallID a = evCallID e →
    seen_on h EventOutputItemDone id →
    (∀ r, r ∈ h → evType r = EventToolResult → evCallID r ≠ evCallID e) → legal h e
| legal_terminal :
    terminal_type (evType e) → seen h EventResponseCreated →
    (evType e = EventResponseCompleted →
      ∀ id a, announced h id a → seen_on h EventOutputItemDone id) → legal h e.

(** The next event must carry the next sequence number, follow no terminal
    event and respect the lifecycle rules. *)
Definition admissible (h : list Event) (e : Event) : Prop :=
  evSequence e = uint64_wrap (Z.of_nat (length h) + 1) ∧
  (∀ t, terminal_type t → ¬ seen h t) ∧
  legal h e.

Inductive accepted : list Event → Prop :=
| accepted_nil : accepted []
| accepted_snoc h e : accepted h → admissible h e → accepted (h ++ [e]).

(** ** Extending a history *)
Lemma seen_snoc h e t : seen (h ++ [e]) t ↔ seen h t ∨ evType e = t.
Proof. unfold seen. set_solver. Qed.

Lemma seen_on_snoc h e t id :
  seen_on (h ++ [e]) t id ↔ seen_on h t id ∨ (evType e = t ∧ evItemID e = id).
Proof. unfold seen_on. set_solver. Qed.

Lemma announced_snoc h e id a :
  announced (h ++ [e]) id a ↔
  announced h id a ∨ (a = e ∧ evType e = EventOutputItemAdded ∧ evItemID e = id).
Proof. unfold announced. set_solver. Qed.

Lemma deltas_snoc h e id :
  deltas (h ++ [e]) id =
  deltas h id +:+
  (if decide (evType e = EventArgumentsDelta ∧ evItemID e = id) then evDelta e else "").
Proof.
  unfold deltas. induction h as [|x h IH]; cbn -[decide].
  - by rewrite string_app_nil_r.
  - by rewrite IH, string_app_assoc.
Qed.

(** ** The simulation relation *)

(** What the machine stores for an announced item. *)
Definition item_represents (h : list Event) (id : string) (it : itemState) : Prop :=
  ∃ a, announced h id a ∧ kind it = evItemKind a ∧ callID it = evCallID a ∧
    arguments it = deltas h id ∧
    (argumentsDone it = true ↔ seen_on h EventArgumentsDone id) ∧
    (done_ it = true ↔ seen_on h EventOutputItemDone id).

Record represents (h : list Event) (m : Machine) : Prop := {
  rep_seq : nextSequence m = uint64_wrap (Z.of_nat (length h) + 1);
  rep_created : created m = true ↔ seen h EventResponseCreated;
  rep_in_progress : inProgress m = true ↔ seen h EventResponseInProgress;
  rep_terminal t : terminal_type t → (terminal m = t ↔ seen h t);
  rep_terminal_type : terminal m = "" ∨ terminal_type (terminal m);
  rep_item id it : items m !! id = Some it → item_represents h id it;
  rep_no_item id : items m !! id = None →
    (∀ a, ¬ announced h id a) ∧ deltas h id = "" ∧
    ¬ seen_on h EventArgumentsDone id ∧ ¬ seen_on h EventOutputItemDone id;
  rep_index i id : indexes m !! i = Some id ↔
    ∃ a, announced h id a ∧ evOutputIndex a = i;
  rep_call c id : calls m !! c = Some id ↔
    ∃ a, announced h id a ∧ evItemKind a = "function_call" ∧ evCallID a = c;
  rep_result c : c ∈ toolResults m ↔
    ∃ r, r ∈ h ∧ evType r = EventToolResult ∧ evCallID r = c;
  rep_unique id a b : announced h id a → announced h id b → a = b
}.

Lemma represents_New : represents [] New.
Proof.
  split; cbn; try done; unfold seen, announced, seen_on, terminal_type;
    try (intros; set_solver).
Qed.

(** The items of a history that an event leaves alone. *)
Lemma item_represents_snoc h e id it :
  item_represents h id it →
  (evType e = EventArgumentsDelta → evItemID e ≠ id) →
  (evType e = EventArgumentsDone → evItemID e ≠ id) →
  (evType e = EventOutputItemDone → evItemID e ≠ id) →
  item_represents (h ++ [e]) id it.
Proof.
  intros (a & Ha & Hk & Hc & Harg & Had & Hd) H1 H2 H3. exists a.
  rewrite announced_snoc, deltas_snoc, !seen_on_snoc, decide_False by naive_solver.
  rewrite string_app_nil_r. naive_solver.
Qed.

(** An event that is not about items extends the item part of the relation. *)
Lemma represents_other_items h e m id :
  represents h m →
  evType e ∉ [EventOutputItemAdded; EventArgumentsDelta; EventArgumentsDone; EventOutputItemDone] →
  (∀ it, items m !! id = Some it → item_represents (h ++ [e]) id it) ∧
  (items m !! id = None → (∀ a, ¬ announced (h ++ [e]) id a) ∧ deltas (h ++ [e]) id = "" ∧
    ¬ seen_on (h ++ [e]) EventArgumentsDone id ∧ ¬ seen_on (h ++ [e]) EventOutputItemDone id).
Proof.
  intros Hr He. split.
  - intros it Hit. apply item_represents_snoc; [by eapply rep_item|set_solver..].
  - intros Hn. destruct (rep_no_item _ _ Hr _ Hn) as (Ha & Hd & H1 & H2).
    setoid_rewrite announced_snoc. rewrite deltas_snoc, !seen_on_snoc.
    rewrite decide_False by set_solver. rewrite string_app_nil_r. set_solver.
Qed.

(** ** One event at a time *)

(** The outcome of handling [e] after history [h] agrees with the rules: an
    accepted event is legal and the new state represents the longer history;
    a rejected event is illegal, is reported as a violation (never by a
    panic) and leaves the machine as it was. *)
Definition agrees (h : list Event) (e : Event) (m : Machine)
    (out : result Fault unit * Machine) : Prop :=
  match out with
  | (Ok _, m') =>
      legal h e ∧
      represents (h ++ [e]) (set_nextSequence (uint64_wrap (nextSequence m' + 1)) m')
  | (Err f, m') => ¬ legal h e ∧ m' = m ∧ f ≠ NilDereference
  end.

Lemma next_sequence h m e :
  represents h m →
  uint64_wrap (nextSequence m + 1) = uint64_wrap (Z.of_nat (length (h ++ [e])) + 1).
Proof.
  intros Hr. rewrite (rep_seq _ _ Hr), length_app. simpl. unfold uint64_wrap.
  rewrite Z.add_mod_idemp_l by done. f_equal. lia.
Qed.

(** The terminal types are none of the other types. *)
Lemma not_terminal_type t :
  terminal_type t →
  t ≠ EventResponseCreated ∧ t ≠ EventResponseInProgress ∧ t ≠ EventOutputItemAdded ∧
  t ≠ EventArgumentsDelta ∧ t ≠ EventArgumentsDone ∧ t ≠ EventOutputItemDone ∧
  t ≠ EventToolResult ∧ t ≠ "".
Proof.
  unfold terminal_type. intros Ht.
  repeat (apply elem_of_cons in Ht as [->|Ht]; [split_and!; discriminate|]). set_solver.
Qed.

(** Close the branches in which a legality proof is about another kind of
    event. *)
Ltac legal_cases Hl Ht :=
  destruct Hl as
    [Hl0 Hl1|Hl0 Hl1 Hl2 Hl3|Hl0 Hl1 Hl2 Hl3 Hl4 Hl5 Hl6 Hl7 Hl8|b Hl0 Hl1 Hl2 Hl3 Hl4 Hl5 Hl6
    |b Hl0 Hl1 Hl2 Hl3 Hl4 Hl5 Hl6 Hl7|b Hl0 Hl1 Hl2 Hl3 Hl4 Hl5|id' b Hl0 Hl1 Hl2 Hl3 Hl4 Hl5 Hl6
    |Hl0 Hl1 Hl2];
  try (rewrite Ht in Hl0; discriminate Hl0);
  try (exfalso; apply not_terminal_type in Hl0; rewrite Ht in Hl0; naive_solver).

Lemma announced_other h e id a :
  evType e ≠ EventOutputItemAdded → (announced (h ++ [e]) id a ↔ announced h id a).
Proof. rewrite announced_snoc. naive_solver. Qed.

Lemma result_snoc (h : list Event) e c :
  (∃ r, r ∈ h ++ [e] ∧ evType r = EventToolResult ∧ evCallID r = c) ↔
  (∃ r, r ∈ h ∧ evType r = EventToolResult ∧ evCallID r = c) ∨
  (evType e = EventToolResult ∧ evCallID e = c).
Proof. set_solver. Qed.

(** The parts of the relation an event of a given kind cannot touch; what is
    left is what the handler changed. *)
Ltac rep_frame Hr Ht :=
  split; cbn -[decide];
  [ by eapply next_sequence
  | rewrite seen_snoc, Ht; try (by rewrite <- (rep_created _ _ Hr); intuition discriminate)
  | rewrite seen_snoc, Ht; try (by rewrite <- (rep_in_progress _ _ Hr); intuition discriminate)
  | intros t Hty; rewrite seen_snoc, Ht, <- (rep_terminal _ _ Hr t Hty);
    try (apply not_terminal_type in Hty; naive_solver)
  | try (by eapply rep_terminal_type)
  | intros jd jt; try (by apply (represents_other_items _ _ _ jd Hr); rewrite Ht; vm_compute; set_solver)
  | intros jd; try (by apply (represents_other_items _ _ _ jd Hr); rewrite Ht; vm_compute; set_solver)
  | intros i jd; try (setoid_rewrite announced_other; [by apply rep_index|by rewrite Ht])
  | intros c jd; try (setoid_rewrite announced_other; [by apply rep_call|by rewrite Ht])
  | intros c; rewrite result_snoc, Ht; try (by rewrite <- (rep_result _ _ Hr); intuition discriminate)
  | intros jd a1 a2; try (rewrite !announced_other; [by apply (rep_unique _ _ Hr)|by rewrite Ht..]) ].

(** Reading the machine's maps as statements about the history. *)
Lemma rep_active h m : represents h m → created m = false → ¬ seen h EventResponseCreated.
Proof. intros Hr Hc. rewrite <- (rep_created _ _ Hr), Hc. done. Qed.

Lemma rep_announced h m id a :
  represents h m → announced h id a → ∃ it, items m !! id = Some it ∧ kind it = evItemKind a ∧
    callID it = evCallID a ∧ arguments it = deltas h id ∧
    (argumentsDone it = true ↔ seen_on h EventArgumentsDone id) ∧
    (done_ it = true ↔ seen_on h EventOutputItemDone id).
Proof.
  intros Hr Ha. destruct (items m !! id) as [it|] eqn:Hit.
  - destruct (rep_item _ _ Hr _ _ Hit) as (b & Hb & ?).
    rewrite (rep_unique _ _ Hr _ _ _ Ha Hb). eauto.
  - destruct (rep_no_item _ _ Hr _ Hit) as [Hno _]. by destruct (Hno a).
Qed.

Lemma rep_no_output h m :
  represents h m → (size (items m) = 0%nat ↔ ¬ seen h EventOutputItemAdded).
Proof.
  intros Hr. rewrite map_size_empty_iff. split.
  - intros He (e & Hin & Hty).
    destruct (rep_announced _ _ (evItemID e) e Hr) as (it & Hit & _); [done|].
    by rewrite He, lookup_empty in Hit.
  - intros Hn. apply map_empty. intros id. apply eq_None_not_Some. intros [it Hit].
    destruct (rep_item _ _ Hr _ _ Hit) as (a & (? & ? & _) & _). apply Hn. by exists a.
Qed.

Lemma create_agrees h e m :
  represents h m → evType e = EventResponseCreated → agrees h e m (create m).
Proof.
  intros Hr Ht. unfold create, agrees. go_unfold. case_decide as Hc.
  - split_and!; [|done|done]. intros Hl. legal_cases Hl Ht.
    by apply Hl1, (rep_created _ _ Hr).
  - split; [by apply legal_created; [|rewrite <- (rep_created _ _ Hr)]|].
    rep_frame Hr Ht.
Qed.

Lemma markInProgress_agrees h e m :
  represents h m → evType e = EventResponseInProgress → agrees h e m (markInProgress m).
Proof.
  intros Hr Ht. unfold markInProgress, requireActive, agrees. go_unfold.
  case_decide as Hc; [|case_decide as Hp; [|case_decide as Hn]]; simpl.
  - split_and!; [|done|done]. intros Hl. legal_cases Hl Ht. by eapply rep_active.
  - split_and!; [|done|done]. intros Hl. legal_cases Hl Ht. by apply Hl2, (rep_in_progress _ _ Hr).
  - split_and!; [|done|done]. intros Hl. legal_cases Hl Ht. by apply Hn, (rep_no_output _ _ Hr).
  - apply not_false_is_true in Hc. split.
    + apply legal_in_progress; [done|by apply (rep_created _ _ Hr)
        |by rewrite <- (rep_in_progress _ _ Hr)|].
      apply (rep_no_output _ _ Hr). by destruct (size (items m)); [|destruct Hn].
    + rep_frame Hr Ht.
Qed.

Lemma acceptToolResult_agrees h e m :
  represents h m → evType e = EventToolResult → agrees h e m (acceptToolResult e m).
Proof.
  intros Hr Ht. unfold acceptToolResult, requireActive, agrees. go_unfold.
  case_decide as Hc; simpl.
  { split_and!; [|done|done]. intros Hl. legal_cases Hl Ht. by eapply rep_active. }
  apply not_false_is_true in Hc.
  destruct (calls m !! evCallID e) as [id|] eqn:Hcall; simpl.
  2:{ split_and!; [|done|done]. intros Hl. legal_cases Hl Ht.
      assert (calls m !! evCallID e = Some id') as E; [apply (rep_call _ _ Hr); eauto|].
      by rewrite E in Hcall. }
  apply (rep_call _ _ Hr) in Hcall as (a & Ha & Hka & Hca).
  destruct (rep_announced _ _ _ _ Hr Ha) as (it & -> & _ & _ & _ & _ & Hdone).
  case_decide as Hd; [|case_decide as Hres]; simpl.
  - split_and!; [|done|done]. intros Hl. legal_cases Hl Ht.
    assert (id' = id) as ->; [|apply Hdone in Hl5; congruence].
    assert (calls m !! evCallID e = Some id) as E1 by (apply (rep_call _ _ Hr); eauto).
    assert (calls m !! evCallID e = Some id') as E2 by (apply (rep_call _ _ Hr); eauto).
    congruence.
  - split_and!; [|done|done]. intros Hl. legal_cases Hl Ht.
    apply (rep_result _ _ Hr) in Hres as (r & Hin & Hty & Hrc). by apply (Hl6 r).
  - apply not_false_is_true in Hd. split.
    + eapply legal_tool_result; [done|by apply (rep_created _ _ Hr)|done..| |].
      * by apply Hdone.
      * intros r Hin Hty Hrc. apply Hres, (rep_result _ _ Hr). eauto.
    + rep_frame Hr Ht. rewrite <- (rep_result _ _ Hr). set_solver.
Qed.

Lemma first_open_None l : first_open l = None ↔ ∀ id it, (id, it) ∈ l → done_ it = true.
Proof.
  induction l as [|[id it] l IH]; simpl; [set_solver|].
  destruct (done_ it) eqn:Hd; [rewrite IH; set_solver|].
  split; [done|]. intros Hall. rewrite (Hall id it) in Hd; [done|set_solver].
Qed.

Lemma first_open_Some l id : first_open l = Some id → ∃ it, (id, it) ∈ l ∧ done_ it = false.
Proof.
  induction l as [|[jd it] l IH]; simpl; [done|].
  destruct (done_ it) eqn:Hd; [set_solver|]. intros [= ->]. exists it. set_solver.
Qed.

Section Agreement.
Context {ro : RangeOrder string itemState}.

(** A completed response is legal exactly when the iteration finds no open
    item, whatever its order. *)
Lemma rep_all_done h m :
  represents h m →
  (first_open (range (items m)) = None ↔
   ∀ id a, announced h id a → seen_on h EventOutputItemDone id).
Proof.
  intros Hr. rewrite first_open_None. split.
  - intros Hall id a Ha. destruct (rep_announced _ _ _ _ Hr Ha) as (it & Hit & Hsame).
    apply Hsame, (Hall id). by apply elem_of_range.
  - intros Hall id it Hin. apply elem_of_range in Hin.
    destruct (rep_item _ _ Hr _ _ Hin) as (a & Ha & Hsame). apply Hsame. eauto.
Qed.

Lemma finishResponse_agrees h e m :
  represents h m → terminal_type (evType e) → (∀ t, terminal_type t → ¬ seen h t) →
  agrees h e m (finishResponse (evType e) m).
Proof.
  intros Hr Hty Hopen.
  destruct (not_terminal_type _ Hty) as (Hn1 & Hn2 & Hn3 & Hn4 & Hn5 & Hn6 & Hn7 & Hn8).
  assert (∀ P : Prop, (terminal_type (evType e) → seen h EventResponseCreated →
    (evType e = EventResponseCompleted →
      ∀ id a, announced h id a → seen_on h EventOutputItemDone id) → P) → legal h e → P) as Hinv.
  { intros P HP Hl. destruct Hl; [congruence..|by apply HP]. }
  unfold finishResponse, requireActive, agrees. go_unfold.
  case_decide as Hc; simpl.
  { split_and!; [|done|done]. intros Hl. apply (Hinv False); [|done]. intros _ Hs _.
    by eapply (rep_active _ _ Hr). }
  apply not_false_is_true in Hc.
  assert (represents (h ++ [e])
    (set_nextSequence (uint64_wrap (nextSequence m + 1)) (set_terminal (evType e) m))) as Hrep.
  { split; cbn -[decide]; try (by intros; eapply represents_other_items; [|rewrite !not_elem_of_cons; set_solver|]).
    - by eapply next_sequence.
    - rewrite seen_snoc, <- (rep_created _ _ Hr). tauto.
    - rewrite seen_snoc, <- (rep_in_progress _ _ Hr). tauto.
    - intros t Ht. rewrite seen_snoc. specialize (Hopen t Ht). naive_solver.
    - by right.
    - intros i jd. setoid_rewrite announced_other; [by apply rep_index|done].
    - intros c jd. setoid_rewrite announced_other; [by apply rep_call|done].
    - intros c. rewrite result_snoc, <- (rep_result _ _ Hr). tauto.
    - intros jd a1 a2. rewrite !announced_other by done. apply (rep_unique _ _ Hr). }
  case_decide as Hcomp; [destruct (first_open _) as [id|] eqn:Hf|]; simpl.
  - split_and!; [|done|done]. intros Hl. apply (Hinv False); [|done]. intros _ _ Hall.
    specialize (Hall Hcomp). apply (rep_all_done _ _ Hr) in Hall. congruence.
  - split; [|done]. apply legal_terminal; [done|by apply (rep_created _ _ Hr)|].
    intros _. by apply (rep_all_done _ _ Hr).
  - split; [|done]. by apply legal_terminal; [|apply (rep_created _ _ Hr)|].
Qed.

End Agreement.

(** ** Events about items *)

(** What argument events have in common. *)
Definition open_call (h : list Event) (e a : Event) : Prop :=
  seen h EventResponseCreated ∧ announced h (evItemID e) a ∧
  evItemKind a = "function_call" ∧ same_call e a ∧
  ¬ seen_on h EventOutputItemDone (evItemID e).

Lemma rep_same_call h e m a it :
  represents h m → announced h (evItemID e) a → items m !! evItemID e = Some it →
  (¬ (evCallID e ≠ "" ∧ evCallID e ≠ callID it) ↔ same_call e a).
Proof.
  intros Hr Ha Hit. destruct (rep_announced _ _ _ _ Hr Ha) as (it' & Hit' & _ & Hc & _).
  simplify_eq. unfold same_call. rewrite Hc.
  destruct (decide (evCallID e = "")), (decide (evCallID e = evCallID a)); tauto.
Qed.

Lemma openFunctionCall_spec h e m :
  represents h m →
  match openFunctionCall e m with
  | (Ok it, m') => m' = m ∧ items m !! evItemID e = Some it ∧ ∃ a, open_call h e a
  | (Err f, m') => m' = m ∧ f ≠ NilDereference ∧ ∀ a, ¬ open_call h e a
  end.
Proof.
  intros Hr. unfold openFunctionCall, requireActive. go_unfold.
  case_decide as Hc; simpl.
  { split_and!; [done|done|]. intros a (Hs & _). by eapply (rep_active _ _ Hr). }
  apply not_false_is_true in Hc.
  destruct (items m !! evItemID e) as [it|] eqn:Hit; simpl.
  2:{ split_and!; [done|done|]. intros a (_ & Ha & _).
      by apply (rep_no_item _ _ Hr _ Hit) in Ha. }
  destruct (rep_item _ _ Hr _ _ Hit) as (a & Ha & Hk & Hca & Harg & Had & Hd).
  pose proof (λ b Hb, rep_unique _ _ Hr _ _ b Ha Hb) as Huniq.
  case_decide as H1; [|case_decide as H2; [|case_decide as H3]]; simpl.
  - split_and!; [done|done|]. intros b (_ & _ & _ & _ & Hno). by apply Hno, Hd.
  - split_and!; [done|done|]. intros b (_ & Hb & Hkb & _). apply H2. rewrite Hk.
    by rewrite (Huniq _ Hb).
  - split_and!; [done|done|]. intros b (_ & Hb & _ & Hsc & _).
    by apply (rep_same_call _ _ _ _ _ Hr Hb Hit) in Hsc.
  - split_and!; [done|done|]. exists a. split_and!; [by apply (rep_created _ _ Hr)|done| | |].
    + rewrite <- Hk. by destruct (decide (kind it = "function_call")).
    + by apply (rep_same_call _ _ _ _ _ Hr Ha Hit).
    + by rewrite <- Hd.
Qed.

(** Replacing the record of the item an event is about. *)
Lemma rep_update_item h e m it it' :
  represents h m → items m !! evItemID e = Some it →
  evType e ∈ [EventArgumentsDelta; EventArgumentsDone; EventOutputItemDone] →
  item_represents (h ++ [e]) (evItemID e) it' →
  represents (h ++ [e]) (set_nextSequence (uint64_wrap (nextSequence m + 1))
    (set_items (<[evItemID e := it']> (items m)) m)).
Proof.
  intros Hr Hit Hty Hnew.
  assert (∀ t, t ∉ [EventArgumentsDelta; EventArgumentsDone; EventOutputItemDone] →
    evType e ≠ t) as Hne by (intros t Hnot <-; done).
  split; cbn -[decide].
  - by eapply next_sequence.
  - rewrite seen_snoc, <- (rep_created _ _ Hr).
    pose proof (Hne EventResponseCreated ltac:(by vm_compute; set_solver)). tauto.
  - rewrite seen_snoc, <- (rep_in_progress _ _ Hr).
    pose proof (Hne EventResponseInProgress ltac:(by vm_compute; set_solver)). tauto.
  - intros t Ht. rewrite seen_snoc, <- (rep_terminal _ _ Hr t Ht).
    apply not_terminal_type in Ht as (_ & _ & _ & ? & ? & ? & _).
    pose proof (Hne t ltac:(rewrite !not_elem_of_cons; set_solver)). tauto.
  - by eapply rep_terminal_type.
  - intros jd jt. destruct (decide (evItemID e = jd)) as [<-|Hj].
    + rewrite lookup_insert_eq. by intros [= <-].
    + rewrite lookup_insert_ne by done. intros Hjt.
      apply item_represents_snoc; [by eapply rep_item|done..].
  - intros jd. destruct (decide (evItemID e = jd)) as [<-|Hj]; [by rewrite lookup_insert_eq|].
    rewrite lookup_insert_ne by done. intros Hjt.
    destruct (rep_no_item _ _ Hr _ Hjt) as (Ha & Hd & H1 & H2).
    rewrite deltas_snoc, !seen_on_snoc, decide_False, string_app_nil_r by naive_solver.
    setoid_rewrite announced_snoc. split_and!; naive_solver.
  - intros i jd. setoid_rewrite announced_other; [by apply rep_index|].
    by apply Hne; vm_compute; set_solver.
  - intros i jd. setoid_rewrite announced_other; [by apply rep_call|].
    by apply Hne; vm_compute; set_solver.
  - intros c. rewrite result_snoc, <- (rep_result _ _ Hr).
    pose proof (Hne EventToolResult ltac:(by vm_compute; set_solver)). tauto.
  - intros jd a1 a2. rewrite !announced_other; [by apply (rep_unique _ _ Hr)|..];
      by apply Hne; vm_compute; set_solver.
Qed.

Lemma addArguments_agrees h e m :
  represents h m → evType e = EventArgumentsDelta → agrees h e m (addArguments e m).
Proof.
  intros Hr Ht. unfold addArguments, agrees, mbind, gom_bind.
  pose proof (openFunctionCall_spec _ e _ Hr) as Ho.
  destruct (openFunctionCall e m) as [[it|f] m']; simpl in *.
  2:{ destruct Ho as (-> & Hf & Hno). split_and!; [|done|done]. intros Hl. legal_cases Hl Ht.
      by apply (Hno b). }
  destruct Ho as (-> & Hit & a & Ho). unfold fail_if, modify. simpl.
  destruct (rep_item _ _ Hr _ _ Hit) as (a' & Ha' & Hk & Hca & Harg & Had & Hd).
  case_decide as Hdone; simpl.
  - split_and!; [|done|done]. intros Hl. legal_cases Hl Ht. by apply Hl6, Had.
  - destruct Ho as (? & ? & ? & ? & ?). split; [by apply (legal_delta _ _ a); rewrite <- ?Had|].
    eapply rep_update_item; [done..|by rewrite Ht; left|]. exists a'.
    rewrite announced_snoc, deltas_snoc, !seen_on_snoc, decide_True, Ht by done. simpl.
    rewrite Harg. intuition discriminate.
Qed.

Lemma finishArguments_agrees h e m :
  represents h m → evType e = EventArgumentsDone → agrees h e m (finishArguments e m).
Proof.
  intros Hr Ht. unfold finishArguments, agrees, mbind, gom_bind.
  pose proof (openFunctionCall_spec _ e _ Hr) as Ho.
  destruct (openFunctionCall e m) as [[it|f] m']; simpl in *.
  2:{ destruct Ho as (-> & Hf & Hno). split_and!; [|done|done]. intros Hl. legal_cases Hl Ht.
      by apply (Hno b). }
  destruct Ho as (-> & Hit & a & Ho). unfold fail_if, modify. simpl.
  destruct (rep_item _ _ Hr _ _ Hit) as (a' & Ha' & Hk & Hca & Harg & Had & Hd).
  case_decide as Hdone; [|case_decide as Heq]; simpl.
  - split_and!; [|done|done]. intros Hl. legal_cases Hl Ht. by apply Hl6, Had.
  - split_and!; [|done|done]. intros Hl. legal_cases Hl Ht. congruence.
  - destruct Ho as (? & ? & ? & ? & ?). split.
    + apply (legal_arguments_done _ _ a); [done..|by rewrite <- Had|congruence].
    + eapply rep_update_item; [done..|by rewrite Ht; right; left|]. exists a'.
      rewrite announced_snoc, deltas_snoc, !seen_on_snoc, Ht. simpl.
      rewrite string_app_nil_r. intuition discriminate.
Qed.

Lemma finishItem_agrees h e m :
  represents h m → evType e = EventOutputItemDone → agrees h e m (finishItem e m).
Proof.
  intros Hr Ht. unfold finishItem, requireActive, agrees. go_unfold.
  case_decide as Hc; simpl.
  { split_and!; [|done|done]. intros Hl. legal_cases Hl Ht. by eapply (rep_active _ _ Hr). }
  apply not_false_is_true in Hc.
  destruct (items m !! evItemID e) as [it|] eqn:Hit; simpl.
  2:{ split_and!; [|done|done]. intros Hl. legal_cases Hl Ht.
      by apply (rep_no_item _ _ Hr _ Hit) in Hl2. }
  destruct (rep_item _ _ Hr _ _ Hit) as (a & Ha & Hk & Hca & Harg & Had & Hd).
  case_decide as H1; [|case_decide as H2; [|case_decide as H3]]; simpl.
  - split_and!; [|done|done]. intros Hl. legal_cases Hl Ht. by apply Hl4, Hd.
  - split_and!; [|done|done]. intros Hl. legal_cases Hl Ht.
    rewrite (rep_unique _ _ Hr _ _ _ Hl2 Ha) in Hl5. destruct H2 as [H2 H2'].
    rewrite <- Hk, <- Had in Hl5. by rewrite Hl5 in H2'.
  - split_and!; [|done|done]. intros Hl. legal_cases Hl Ht.
    by apply (rep_same_call _ _ _ _ _ Hr Hl2 Hit) in Hl3.
  - split.
    + apply (legal_item_done _ _ a); [done|by apply (rep_created _ _ Hr)|done| | |].
      * by apply (rep_same_call _ _ _ _ _ Hr Ha Hit).
      * by rewrite <- Hd.
      * rewrite <- Hk, <- Had. destruct (argumentsDone it); [done|tauto].
    + eapply rep_update_item; [done..|by rewrite Ht; right; right; left|]. exists a.
      rewrite announced_snoc, deltas_snoc, !seen_on_snoc, Ht. simpl.
      rewrite string_app_nil_r. intuition discriminate.
Qed.

(** Announcing an item. *)
Lemma rep_add_item h e m calls' :
  represents h m → evType e = EventOutputItemAdded →
  items m !! evItemID e = None → indexes m !! evOutputIndex e = None →
  (∀ c id, calls' !! c = Some id ↔
    calls m !! c = Some id ∨
    (evItemKind e = "function_call" ∧ evCallID e = c ∧ evItemID e = id)) →
  represents (h ++ [e]) (set_nextSequence (uint64_wrap (nextSequence m + 1))
    (mkMachine (nextSequence m) (created m) (inProgress m) (terminal m)
       (<[evItemID e := mkItem (evItemKind e) (evCallID e) "" false false]> (items m))
       (<[evOutputIndex e := evItemID e]> (indexes m)) calls' (toolResults m))).
Proof.
  intros Hr Ht Hit Hidx Hcalls.
  destruct (rep_no_item _ _ Hr _ Hit) as (Hna & Hnd & Hn1 & Hn2).
  rep_frame Hr Ht.
  - destruct (decide (evItemID e = jd)) as [<-|Hj].
    + rewrite lookup_insert_eq. intros [= <-]. exists e.
      rewrite announced_snoc, deltas_snoc, !seen_on_snoc, Ht, Hnd. simpl.
      intuition discriminate.
    + rewrite lookup_insert_ne by done. intros Hjt.
      apply item_represents_snoc; [by eapply rep_item|by rewrite Ht..].
  - destruct (decide (evItemID e = jd)) as [<-|Hj]; [by rewrite lookup_insert_eq|].
    rewrite lookup_insert_ne by done. intros Hjt.
    destruct (rep_no_item _ _ Hr _ Hjt) as (Ha & Hd & H1 & H2).
    rewrite deltas_snoc, !seen_on_snoc, Ht, Hd. setoid_rewrite announced_snoc. simpl.
    split_and!; [naive_solver|done|intuition discriminate..].
  - setoid_rewrite announced_snoc. destruct (decide (evOutputIndex e = i)) as [<-|Hi].
    + rewrite lookup_insert_eq. split; [intros [= <-]; exists e; naive_solver|].
      intros (a & [Ha|(-> & _ & ->)] & Hia); [|done].
      assert (indexes m !! evOutputIndex e = Some jd) by (apply (rep_index _ _ Hr); eauto).
      congruence.
    + rewrite lookup_insert_ne, (rep_index _ _ Hr) by done. naive_solver.
  - setoid_rewrite announced_snoc. rewrite Hcalls, (rep_call _ _ Hr). naive_solver.
  - rewrite !announced_snoc.
    intros [Ha1|(-> & _ & <-)] [Ha2|(-> & _ & Hj)]; [by eapply rep_unique| | |done].
    + rewrite <- Hj in Ha1. by destruct (Hna a1).
    + by destruct (Hna a2).
Qed.

Lemma addItem_agrees h e m :
  represents h m → evType e = EventOutputItemAdded → agrees h e m (addItem e m).
Proof.
  intros Hr Ht. unfold addItem, requireActive, agrees. go_unfold.
  case_decide as Hc; simpl.
  { split_and!; [|done|done]. intros Hl. legal_cases Hl Ht. by eapply (rep_active _ _ Hr). }
  case_decide as Hbad; simpl.
  { split_and!; [|done|done]. intros Hl. legal_cases Hl Ht. destruct Hbad as [?|[?|?]]; [done..|lia]. }
  case_decide as Hdup; simpl.
  { split_and!; [|done|done]. intros Hl. legal_cases Hl Ht. destruct Hdup as [it Hit].
    destruct (rep_item _ _ Hr _ _ Hit) as (a & Ha & _). by apply (Hl5 a). }
  destruct (indexes m !! evOutputIndex e) as [prior|] eqn:Hidx; simpl.
  { split_and!; [|done|done]. intros Hl. legal_cases Hl Ht.
    apply (rep_index _ _ Hr) in Hidx as (a & Ha & Hia). by apply (Hl6 _ a Ha). }
  apply not_false_is_true in Hc. rewrite <- eq_None_not_Some in Hdup.
  assert (evItemID e ≠ "" ∧ evItemKind e ≠ "" ∧ 0 <= evOutputIndex e) as (Hid & Hkind & Hi)
    by (split_and!; [tauto|tauto|lia]).
  assert (∀ id a, announced h id a → evOutputIndex a ≠ evOutputIndex e) as Hfree.
  { intros id a Ha Hia.
    assert (indexes m !! evOutputIndex e = Some id) by (apply (rep_index _ _ Hr); eauto).
    congruence. }
  assert (∀ a, ¬ announced h (evItemID e) a) as Hnew by apply (rep_no_item _ _ Hr _ Hdup).
  assert (seen h EventResponseCreated) as Hact by by apply (rep_created _ _ Hr).
  case_decide as Hfn; [case_decide as Hnc; [|destruct (calls m !! evCallID e) as [prior|] eqn:Hcall]
                      |case_decide as Hnc]; simpl.
  - split_and!; [|done|done]. intros Hl. legal_cases Hl Ht. naive_solver.
  - split_and!; [|done|done]. intros Hl. legal_cases Hl Ht.
    apply (rep_call _ _ Hr) in Hcall as (a & Ha & Hka & Hca). naive_solver.
  - split.
    + apply legal_added; [done..|lia|done|done| |done]. intros _. split; [done|].
      intros id a Ha Hka Hca.
      assert (calls m !! evCallID e = Some id) by (apply (rep_call _ _ Hr); eauto). congruence.
    + apply (rep_add_item h e m (<[evCallID e := evItemID e]> (calls m)) Hr Ht Hdup Hidx).
      intros c id. destruct (decide (evCallID e = c)) as [<-|Hne]; 
        [rewrite lookup_insert_eq; naive_solver|].
      rewrite lookup_insert_ne by done. naive_solver.
  - split_and!; [|done|done]. intros Hl. legal_cases Hl Ht. naive_solver.
  - split; [by apply legal_added; try lia|]. apply (rep_add_item h e m (calls m) Hr Ht Hdup Hidx). naive_solver.
Qed.

(** ** Properties of [Machine.Apply] *)
Section Properties.
Context {ro : RangeOrder string itemState}.

Lemma dispatch_agrees h e m :
  represents h m → (∀ t, terminal_type t → ¬ seen h t) → agrees h e m (dispatch e m).
Proof.
  intros Hr Hopen. unfold dispatch.
  case_decide; [by apply create_agrees|]. case_decide; [by apply markInProgress_agrees|].
  case_decide; [by apply addItem_agrees|]. case_decide; [by apply addArguments_agrees|].
  case_decide; [by apply finishArguments_agrees|]. case_decide; [by apply finishItem_agrees|].
  case_decide; [by apply acceptToolResult_agrees|]. case_decide; [by apply finishResponse_agrees|].
  split_and!; [|done|done]. intros Hl. by destruct Hl.
Qed.

Lemma rep_no_terminal h m :
  represents h m → (terminal m = "" ↔ ∀ t, terminal_type t → ¬ seen h t).
Proof.
  intros Hr. split.
  - intros Hm t Ht Hs. apply (rep_terminal _ _ Hr t Ht) in Hs.
    apply not_terminal_type in Ht. naive_solver.
  - intros Hall. destruct (rep_terminal_type _ _ Hr) as [?|Ht]; [done|].
    destruct (Hall _ Ht). by apply (rep_terminal _ _ Hr).
Qed.

Lemma Apply_step h e m :
  represents h m →
  match Apply e m with
  | (Ok _, m') => admissible h e ∧ represents (h ++ [e]) m'
  | (Err f, m') => ¬ admissible h e ∧ m' = m ∧ f ≠ NilDereference
  end.
Proof.
  intros Hr. unfold Apply, admissible, mbind, gom_bind, get, fail_if, fail, mret, gom_ret, modify.
  pose proof (rep_seq _ _ Hr) as Hseq. pose proof (rep_no_terminal _ _ Hr) as Hterm.
  case_decide as Hs; [split_and!; [intros (Hs' & _); congruence|done|done]|].
  case_decide as Ht; [split_and!; [intros (_ & Ht' & _); tauto|done|done]|].
  pose proof (dispatch_agrees h e m Hr ltac:(by apply (rep_no_terminal _ _ Hr))) as Hd.
  unfold agrees in Hd. destruct (dispatch e m) as [[[]|f] m'].
  - destruct Hd as [Hl Hrep]. split; [|done]. split_and!; [congruence|tauto|done].
  - destruct Hd as (Hl & -> & Hf). split_and!; [|done|done]. by intros (_ & _ & ?).
Qed.

Lemma run_represents h m :
  for_eachM Apply h New = (Ok tt, m) → accepted h ∧ represents h m.
Proof.
  revert m. induction h as [|e h IH] using rev_ind; intros m.
  { intros [= <-]. split; [constructor|apply represents_New]. }
  rewrite for_eachM_app. destruct (for_eachM Apply h New) as [[[]|f] m0] eqn:Hrun; [|done].
  destruct (IH m0 eq_refl) as [Hacc Hr]. simpl. unfold mbind, gom_bind.
  pose proof (Apply_step h e m0 Hr) as Hstep.
  destruct (Apply e m0) as [[[]|f] m1]; [|done]. intros [= <-].
  destruct Hstep. split; [by constructor|done].
Qed.

(** [C1] The response state machine implements the lifecycle rules: a stream
    is consumed without a violation exactly when every one of its events is
    admissible after the events before it. *)
Theorem Apply_accepts_exactly_the_lifecycle (h : list Event) :
  (∃ m, for_eachM Apply h New = (Ok tt, m)) ↔ accepted h.
Proof.
  split; [intros [m Hm]; by apply run_represents in Hm as [? _]|].
  induction 1 as [|h e Hacc [m Hm] Hadm]; [by exists New|].
  rewrite for_eachM_app, Hm. simpl. unfold mbind, gom_bind.
  destruct (run_represents _ _ Hm) as [_ Hr]. pose proof (Apply_step h e m Hr) as Hstep.
  destruct (Apply e m) as [[[]|f] m']; [by exists m'|]. by destruct Hstep.
Qed.

(** A rejected event never corrupts the machine: after any accepted
    stream, an event that is not admitted is reported as a violation (the
    nil dereference in the tool-result handler is unreachable) and every
    field of the machine is as before. *)
Theorem Apply_rejection_is_clean (h : list Event) (e : Event) m f m' :
  for_eachM Apply h New = (Ok tt, m) → Apply e m = (Err f, m') →
  m' = m ∧ ¬ admissible h e ∧ ∃ v, f = Returned v.
Proof.
  intros Hm He. destruct (run_represents _ _ Hm) as [_ Hr].
  pose proof (Apply_step h e m Hr) as Hstep. rewrite He in Hstep.
  destruct Hstep as (? & ? & ?). destruct f as [v|]; [|done]. eauto.
Qed.

(** Argument reconstruction: after an accepted stream, the arguments
    reported for an item are the concatenation, in order, of the deltas the
    stream carried for it, and an item is known exactly when the stream
    announced it. *)
Theorem ReconstructedArguments_concatenates_deltas (h : list Event) m id :
  for_eachM Apply h New = (Ok tt, m) →
  (∀ a, announced h id a → ReconstructedArguments m id = (deltas h id, true)) ∧
  ((∀ a, ¬ announced h id a) → ReconstructedArguments m id = ("", false)).
Proof.
  intros Hm. destruct (run_represents _ _ Hm) as [_ Hr]. unfold ReconstructedArguments. split.
  - intros a Ha. by destruct (rep_announced _ _ _ _ Hr Ha) as (it & -> & _ & _ & -> & _).
  - intros Hno. destruct (items m !! id) as [it|] eqn:Hit; [|done].
    destruct (rep_item _ _ Hr _ _ Hit) as (a & Ha & _). by destruct (Hno a).
Qed.

(** One terminal event, at the end: a stream that is accepted and passes
    [Finish] ends with a terminal event, contains no other, and [Terminal]
    reports it; if it is [response.completed], every announced item was
    closed by an [output_item.done]. *)
Theorem Finish_means_one_terminal_event (h : list Event) m :
  for_eachM Apply h New = (Ok tt, m) → Finish m = Ok tt →
  ∃ h' e, h = h' ++ [e] ∧ terminal_type (evType e) ∧ Terminal m = evType e ∧
    (∀ x, x ∈ h' → ¬ terminal_type (evType x)) ∧
    (evType e = EventResponseCompleted →
      ∀ id a, announced h' id a → seen_on h' EventOutputItemDone id).
Proof.
  intros Hm Hf. destruct (run_represents _ _ Hm) as [Hacc Hr].
  unfold Finish, err_if in Hf. case_decide as Ht; [done|].
  destruct (rep_terminal_type _ _ Hr) as [?|Hty]; [done|].
  destruct Hacc as [|h e Hacc (_ & Hopen & Hl)]; [by injection Hm as <-|].
  assert (evType e = terminal m) as He.
  { assert (seen (h ++ [e]) (terminal m)) as Hs by by apply (rep_terminal _ _ Hr).
    apply seen_snoc in Hs as [Hs|?]; [by destruct (Hopen _ Hty)|done]. }
  exists h, e. split_and!; [done|by rewrite He|done| |].
  - intros x Hx Htx. apply (Hopen _ Htx). by exists x.
  - intros Hc. rewrite <- He in Hty.
    apply not_terminal_type in Hty as (? & ? & ? & ? & ? & ? & ? & ?).
    destruct Hl as [| | | | | | |_ _ Hall]; [congruence..|by apply Hall].
Qed.

End Properties.

(** ** Witnesses *)
Definition sample_stream : list Event :=
  [ mkEvent 1 EventResponseCreated "" "" 0 "" "" "";
    mkEvent 2 EventOutputItemAdded "item" "function_call" 0 "call" "" "";
    mkEvent 3 EventArgumentsDelta "item" "" 0 "" "{a" "";
    mkEvent 4 EventArgumentsDelta "item" "" 0 "call" "}" "";
    mkEvent 5 EventArgumentsDone "item" "" 0 "" "" "{a}";
    mkEvent 6 EventOutputItemDone "item" "" 0 "" "" "";
    mkEvent 7 EventToolResult "" "" 0 "call" "" "";
    mkEvent 8 EventResponseCompleted "" "" 0 "" "" "" ].

Definition sample_end : Machine := (for_eachM Apply sample_stream New).2.

Lemma sample_run : for_eachM Apply sample_stream New = (Ok tt, sample_end).
Proof. vm_compute. reflexivity. Defined.

Lemma Apply_rejection_is_clean_witness :
  (Apply (mkEvent 9 EventResponseFailed "" "" 0 "" "" "") sample_end).2 = sample_end.
Proof.
  apply (Apply_rejection_is_clean sample_stream (mkEvent 9 EventResponseFailed "" "" 0 "" "" "")
    sample_end
    (violation "event_after_terminal" (Text "no semantic event") (Text EventResponseFailed))).
  - exact sample_run.
  - vm_compute. reflexivity.
Defined.

Lemma ReconstructedArguments_concatenates_deltas_witness :
  ReconstructedArguments sample_end "item" = ("{a}", true).
Proof.
  apply (proj1 (ReconstructedArguments_concatenates_deltas sample_stream sample_end "item" sample_run)
    (mkEvent 2 EventOutputItemAdded "item" "function_call" 0 "call" "" "")).
  split; [by right; left|done].
Defined.

Lemma Finish_means_one_terminal_event_witness :
  Finish sample_end = Ok tt ∧ ∃ h' e, sample_stream = h' ++ [e] ∧ terminal_type (evType e).
Proof.
  assert (Finish sample_end = Ok tt) as Hf by (vm_compute; reflexivity).
  split; [exact Hf|].
  destruct (Finish_means_one_terminal_event sample_stream sample_end sample_run Hf)
    as (h' & e & Hh & Ht & _).
  exists h', e. split; [exact Hh|exact Ht].
Defined.
