(* ===== verification/Budget.v ===== *)
(** * internal/budget: the reservation ledger

    [Ledger] keeps three independent accounts: what was consumed, what open
    reservations hold, and what cleanup spent.  Reservations are shared
    objects (the caller keeps a pointer), so the model has a heap of them;
    every method runs under the ledger's mutex, so a concurrent execution is
    a sequence of the operations below.  The clock function is called at most
    once per method: its result is an argument. *)
From Stdlib Require Import ZArith Ascii String Lia.
From stdpp Require Import base gmap sets list strings.
From S2P Require Import Prelude Schema.
Local Open Scope Z_scope.
Local Open Scope string_scope.
Local Open Scope list_scope.

Definition ErrExhausted : string := "budget exhausted".
Definition ErrReservationClosed : string := "reservation is already closed".
Definition ErrInvalidConsumption : string := "budget consumption cannot be negative".

(** ** Usage vectors *)
Record Usage := mkUsage {
  Requests : Z;
  RequestBytes : Z;
  ResponseBytes : Z;
  ArtifactBytes : Z;
  Processes : Z;
  InputTokens : Z;
  OutputTokens : Z
}.

#[export] Instance Usage_eq_dec : EqDecision Usage.
Proof. solve_decision. Defined.

Definition usage_zero : Usage := mkUsage 0 0 0 0 0 0 0.

Definition Usage_Validate (usage : Usage) : result error unit :=
  err_if (Requests usage < 0 ∨ RequestBytes usage < 0 ∨ ResponseBytes usage < 0
          ∨ ArtifactBytes usage < 0 ∨ Processes usage < 0 ∨ InputTokens usage < 0
          ∨ OutputTokens usage < 0)
    (Sentinel ErrInvalidConsumption).

(** The [int64] additions and subtractions wrap. *)
Definition usage_add (usage other : Usage) : Usage :=
  mkUsage
    (int64_wrap (Requests usage + Requests other))
    (int64_wrap (RequestBytes usage + RequestBytes other))
    (int64_wrap (ResponseBytes usage + ResponseBytes other))
    (int64_wrap (ArtifactBytes usage + ArtifactBytes other))
    (int64_wrap (Processes usage + Processes other))
    (int64_wrap (InputTokens usage + InputTokens other))
    (int64_wrap (OutputTokens usage + OutputTokens other)).

Definition usage_subtract (usage other : Usage) : Usage :=
  mkUsage
    (int64_wrap (Requests usage - Requests other))
    (int64_wrap (RequestBytes usage - RequestBytes other))
    (int64_wrap (ResponseBytes usage - ResponseBytes other))
    (int64_wrap (ArtifactBytes usage - ArtifactBytes other))
    (int64_wrap (Processes usage - Processes other))
    (int64_wrap (InputTokens usage - InputTokens other))
    (int64_wrap (OutputTokens usage - OutputTokens other)).

Definition exceeds (usage : Usage) (hard : HardBudget) (tokens : TokenBudget) : string :=
  if decide (MaxRequests hard < Requests usage) then "requests"
  else if decide (MaxRequestBytes hard < RequestBytes usage) then "request bytes"
  else if decide (MaxResponseBytes hard < ResponseBytes usage) then "response bytes"
  else if decide (MaxArtifactBytes hard < ArtifactBytes usage) then "artifact bytes"
  else if decide (MaxProcesses hard < Processes usage) then "processes"
  else if decide (0 < MaxInputTokens tokens ∧ MaxInputTokens tokens < InputTokens usage)
       then "input tokens"
  else if decide (0 < MaxOutputTokens tokens ∧ MaxOutputTokens tokens < OutputTokens usage)
       then "output tokens"
  else "".

(** The negative components of a difference are set to zero. *)
Definition clamp (value : Z) : Z := if decide (value < 0) then 0 else value.
Definition positiveDifference (actual planned : Usage) : Usage :=
  let difference := usage_subtract actual planned in
  mkUsage (clamp (Requests difference)) (clamp (RequestBytes difference))
    (clamp (ResponseBytes difference)) (clamp (ArtifactBytes difference))
    (clamp (Processes difference)) (clamp (InputTokens difference))
    (clamp (OutputTokens difference)).

(** ** The ledger and its reservations *)
Record Reservation := mkReservation {
  resId : Z;
  planned : Usage;
  closed : bool
}.

Record Ledger := mkLedger {
  policy : BudgetPolicy;
  startedAt : Time;
  deadline : Time;
  consumed : Usage;
  reserved : Usage;
  cleanupConsumed : Usage;
  overshoot : Usage;
  exhausted : bool;
  nextID : Z;
  open : gmap Z nat;
  (** the reservation objects, addressed by pointer *)
  heap : list Reservation
}.

Definition New (policy : BudgetPolicy) (now : Time) : result error Ledger :=
  BudgetPolicy_Validate policy;;
  mret (mkLedger policy now (time_Add now (MaxDuration (Hard policy)))
          usage_zero usage_zero usage_zero usage_zero false 0 ∅ []).

Definition set_exhausted b l :=
  mkLedger (policy l) (startedAt l) (deadline l) (consumed l) (reserved l) (cleanupConsumed l)
    (overshoot l) b (nextID l) (open l) (heap l).
Definition set_reserved u l :=
  mkLedger (policy l) (startedAt l) (deadline l) (consumed l) u (cleanupConsumed l)
    (overshoot l) (exhausted l) (nextID l) (open l) (heap l).
Definition set_consumed u l :=
  mkLedger (policy l) (startedAt l) (deadline l) u (reserved l) (cleanupConsumed l)
    (overshoot l) (exhausted l) (nextID l) (open l) (heap l).
Definition set_cleanupConsumed u l :=
  mkLedger (policy l) (startedAt l) (deadline l) (consumed l) (reserved l) u
    (overshoot l) (exhausted l) (nextID l) (open l) (heap l).
Definition set_overshoot u l :=
  mkLedger (policy l) (startedAt l) (deadline l) (consumed l) (reserved l) (cleanupConsumed l)
    u (exhausted l) (nextID l) (open l) (heap l).
Definition set_nextID n l :=
  mkLedger (policy l) (startedAt l) (deadline l) (consumed l) (reserved l) (cleanupConsumed l)
    (overshoot l) (exhausted l) n (open l) (heap l).
Definition set_open o l :=
  mkLedger (policy l) (startedAt l) (deadline l) (consumed l) (reserved l) (cleanupConsumed l)
    (overshoot l) (exhausted l) (nextID l) o (heap l).
Definition set_heap h l :=
  mkLedger (policy l) (startedAt l) (deadline l) (consumed l) (reserved l) (cleanupConsumed l)
    (overshoot l) (exhausted l) (nextID l) (open l) h.

Definition checkTimeLocked (now : Time) : GoM Ledger error unit :=
  ledger ← get;
  if decide (¬ Before now (deadline ledger)) then
    modify (set_exhausted true);;
    fail (Wrapf (Text "%w: duration") (Sentinel ErrExhausted))
  else mret tt.

Definition Reserve (planned : Usage) (now : Time) : GoM Ledger error nat :=
  lift (Usage_Validate planned);;
  fail_if (Requests planned = 0 ∧ Processes planned = 0)
    (ErrorNew (Text "reservation must cover a request or process"));;
  checkTimeLocked now;;
  ledger ← get;
  fail_if (exhausted ledger = true) (Sentinel ErrExhausted);;
  let projected := usage_add (usage_add (consumed ledger) (reserved ledger)) planned in
  let reason := exceeds projected (Hard (policy ledger)) (Reservation_ (policy ledger)) in
  fail_if (reason ≠ "") (Wrapf (Sprintf "%w: %s" [FStr reason]) (Sentinel ErrExhausted));;
  modify (fun l => set_nextID (uint64_wrap (nextID l + 1)) l);;
  ledger ← get;
  let pointer := length (heap ledger) in
  modify (fun l => set_heap (heap l ++ [mkReservation (nextID l) planned false]) l);;
  modify (fun l => set_open (<[nextID l := pointer]> (open l)) l);;
  modify (fun l => set_reserved (usage_add (reserved l) planned) l);;
  mret pointer.

(** Dereferencing a reservation pointer the heap does not contain. *)
Definition nil_reservation : error := Sentinel "runtime error: nil pointer dereference".

(** The steps [Commit] and [Cancel] share: mark the reservation closed, take
    it out of the open set and give its planned usage back. *)
Definition close_reservation (pointer : nat) (reservation : Reservation) : GoM Ledger error unit :=
  modify (fun l => set_heap
    (<[pointer := mkReservation (resId reservation) (planned reservation) true]> (heap l)) l);;
  modify (fun l => set_open (delete (resId reservation) (open l)) l);;
  modify (fun l => set_reserved (usage_subtract (reserved l) (planned reservation)) l).

Definition Commit (pointer : nat) (actual : Usage) (now : Time) : GoM Ledger error unit :=
  lift (Usage_Validate actual);;
  ledger ← get;
  match heap ledger !! pointer with
  | None => fail nil_reservation
  | Some reservation =>
      fail_if (closed reservation = true) (Sentinel ErrReservationClosed);;
      close_reservation pointer reservation;;
      modify (fun l => set_consumed (usage_add (consumed l) actual) l);;
      modify (fun l => set_overshoot
        (usage_add (overshoot l) (positiveDifference actual (planned reservation))) l);;
      ledger ← get;
      let reason := exceeds (consumed ledger) (Hard (policy ledger)) (Reservation_ (policy ledger)) in
      if decide (reason ≠ "") then
        modify (set_exhausted true);;
        fail (Wrapf (Sprintf "%w after in-flight completion: %s" [FStr reason]) (Sentinel ErrExhausted))
      else checkTimeLocked now
  end.

Definition Cancel (pointer : nat) : GoM Ledger error unit :=
  ledger ← get;
  match heap ledger !! pointer with
  | None => fail nil_reservation
  | Some reservation =>
      fail_if (closed reservation = true) (Sentinel ErrReservationClosed);;
      close_reservation pointer reservation
  end.

Definition ConsumeCleanup (actual : Usage) : GoM Ledger error unit :=
  lift (Usage_Validate actual);;
  ledger ← get;
  let projected := usage_add (cleanupConsumed ledger) actual in
  let reason := exceeds projected (Cleanup (policy ledger)) (mkTokenBudget 0 0) in
  fail_if (reason ≠ "") (Wrapf (Sprintf "%w: cleanup %s" [FStr reason]) (Sentinel ErrExhausted));;
  modify (set_cleanupConsumed projected).

Record Snapshot := mkSnapshot {
  snapConsumed : Usage;
  snapReserved : Usage;
  snapCleanupConsumed : Usage;
  snapOvershoot : Usage;
  snapUnknown : list string;
  snapStartedAt : Time;
  snapDeadline : Time;
  snapExhausted : bool
}.

(** [Snapshot] discards the error of [checkTimeLocked] but keeps its effect. *)
Definition TakeSnapshot (now : Time) : GoM Ledger error Snapshot := fun l =>
  let l' := (checkTimeLocked now l).2 in
  (Ok (mkSnapshot (consumed l') (reserved l') (cleanupConsumed l') (overshoot l') []
         (startedAt l') (deadline l') (exhausted l')), l').

(** ** Sequences of operations *)
Inductive Operation :=
| OpReserve (planned : Usage) (now : Time)
| OpCommit (pointer : nat) (actual : Usage) (now : Time)
| OpCancel (pointer : nat)
| OpCleanup (actual : Usage)
| OpSnapshot (now : Time).

Definition step (op : Operation) (l : Ledger) : Ledger :=
  match op with
  | OpReserve planned now => (Reserve planned now l).2
  | OpCommit pointer actual now => (Commit pointer actual now l).2
  | OpCancel pointer => (Cancel pointer l).2
  | OpCleanup actual => (ConsumeCleanup actual l).2
  | OpSnapshot now => (TakeSnapshot now l).2
  end.

Definition run (ops : list Operation) (l : Ledger) : Ledger := foldl (fun l op => step op l) l ops.

(** ** Accounts as integer sums *)

(** The seven quantities of a usage vector. *)
Definition fields : list (Usage → Z) :=
  [Requests; RequestBytes; ResponseBytes; ArtifactBytes; Processes; InputTokens; OutputTokens].

(** What the reservations that are still open hold of quantity [f]. *)
Definition held (f : Usage → Z) (rs : list Reservation) : Z :=
  foldr (fun r acc => (if closed r then 0 else f (planned r)) + acc) 0 rs.

(** The limit the policy puts on quantity [f], if it limits it. *)
Definition within (usage : Usage) (hard : HardBudget) (tokens : TokenBudget) : Prop :=
  Requests usage <= MaxRequests hard ∧ RequestBytes usage <= MaxRequestBytes hard ∧
  ResponseBytes usage <= MaxResponseBytes hard ∧ ArtifactBytes usage <= MaxArtifactBytes hard ∧
  Processes usage <= MaxProcesses hard ∧
  (0 < MaxInputTokens tokens → InputTokens usage <= MaxInputTokens tokens) ∧
  (0 < MaxOutputTokens tokens → OutputTokens usage <= MaxOutputTokens tokens).

Lemma exceeds_within usage hard tokens :
  exceeds usage hard tokens = "" ↔ within usage hard tokens.
Proof.
  unfold exceeds, within. repeat case_decide; split; try done; try lia; intros; split_and!; lia.
Qed.

Ltac each_field Hf :=
  unfold fields in Hf;
  repeat (apply elem_of_cons in Hf as [->|Hf]; [|]); [..|by apply not_elem_of_nil in Hf].

Lemma field_add f a b : f ∈ fields → f (usage_add a b) = int64_wrap (f a + f b).
Proof. intros Hf. each_field Hf; done. Qed.

Lemma field_subtract f a b : f ∈ fields → f (usage_subtract a b) = int64_wrap (f a - f b).
Proof. intros Hf. each_field Hf; done. Qed.

Lemma field_zero f : f ∈ fields → f usage_zero = 0.
Proof. intros Hf. each_field Hf; done. Qed.

Lemma held_app f rs rs' : held f (rs ++ rs') = held f rs + held f rs'.
Proof. induction rs as [|r rs IH]; simpl; [done|]. rewrite IH. lia. Qed.

Lemma held_close f rs p r :
  rs !! p = Some r → closed r = false →
  held f (<[p := mkReservation (resId r) (planned r) true]> rs) = held f rs - f (planned r).
Proof.
  revert p. induction rs as [|r' rs IH]; intros [|p]; simpl; try done.
  - intros [= ->] ->. lia.
  - intros Hp Hr. rewrite (IH p Hp Hr). lia.
Qed.

(** ** What the methods do to the ledger *)
Definition reserved_state (u : Usage) (l : Ledger) : Ledger :=
  let id := uint64_wrap (nextID l + 1) in
  mkLedger (policy l) (startedAt l) (deadline l) (consumed l) (usage_add (reserved l) u)
    (cleanupConsumed l) (overshoot l) (exhausted l) id (<[id := length (heap l)]> (open l))
    (heap l ++ [mkReservation id u false]).

Definition closed_state (p : nat) (r : Reservation) (l : Ledger) : Ledger :=
  mkLedger (policy l) (startedAt l) (deadline l) (consumed l)
    (usage_subtract (reserved l) (planned r)) (cleanupConsumed l) (overshoot l) (exhausted l)
    (nextID l) (delete (resId r) (open l))
    (<[p := mkReservation (resId r) (planned r) true]> (heap l)).

Definition committed_state (p : nat) (r : Reservation) (actual : Usage) (l : Ledger) : Ledger :=
  set_overshoot (usage_add (overshoot l) (positiveDifference actual (planned r)))
    (set_consumed (usage_add (consumed l) actual) (closed_state p r l)).

Lemma Reserve_spec u now l :
  match Reserve u now l with
  | (Ok p, l') =>
      l' = reserved_state u l ∧ p = length (heap l) ∧ Usage_Validate u = Ok tt ∧
      Before now (deadline l) ∧ exhausted l = false ∧
      within (usage_add (usage_add (consumed l) (reserved l)) u)
        (Hard (policy l)) (Reservation_ (policy l))
  | (Err _, l') => l' = l ∨ l' = set_exhausted true l
  end.
Proof.
  unfold Reserve, checkTimeLocked, lift, fail_if, fail, get, modify, mret, gom_ret, mbind, gom_bind.
  destruct (Usage_Validate u) as [[]|e]; [|by left].
  case_decide; [by left|]. case_decide as Ht; [by right|].
  case_decide as He; [by left|]. case_decide as Hx; [by left|].
  split_and!; try done; [by destruct (exhausted l)|by apply exceeds_within].
Qed.

Lemma Commit_spec p actual now l r :
  heap l !! p = Some r → closed r = false → Usage_Validate actual = Ok tt →
  let l' := committed_state p r actual l in
  match Commit p actual now l with
  | (Ok _, l'') => l'' = l' ∧ within (consumed l') (Hard (policy l)) (Reservation_ (policy l)) ∧
      Before now (deadline l)
  | (Err _, l'') => l'' = set_exhausted true l'
  end.
Proof.
  intros Hp Hr Hv. unfold Commit, close_reservation, checkTimeLocked, lift, fail_if, fail, get,
    modify, mret, gom_ret, mbind, gom_bind. rewrite Hv, Hp.
  rewrite decide_False by (by rewrite Hr). cbn -[decide insert].
  case_decide as Hx; [done|]. apply exceeds_within in Hx. case_decide as Ht; [done|].
  by split_and!.
Qed.

(** A commit of an invalid usage, on a closed reservation or through a
    dangling pointer changes nothing. *)
Lemma Commit_noop p actual now l :
  (∀ r, heap l !! p = Some r → closed r = true) ∨ Usage_Validate actual ≠ Ok tt →
  ∃ e, Commit p actual now l = (Err e, l).
Proof.
  intros Hno. unfold Commit, lift, fail_if, fail, get, mret, gom_ret, mbind, gom_bind.
  destruct (Usage_Validate actual) as [[]|e]; [|eauto].
  destruct (heap l !! p) as [r|] eqn:Hp; [|eauto].
  destruct Hno as [Hno|?]; [|done]. rewrite decide_True by by apply Hno. eauto.
Qed.

Lemma Cancel_spec p l :
  match heap l !! p with
  | Some r => Cancel p l = if closed r then (Err (Sentinel ErrReservationClosed), l)
                           else (Ok tt, closed_state p r l)
  | None => Cancel p l = (Err nil_reservation, l)
  end.
Proof.
  unfold Cancel, fail_if, fail, get, modify, close_reservation, mret, gom_ret, mbind, gom_bind.
  destruct (heap l !! p) as [r|]; [|done]. by destruct (closed r).
Qed.

Lemma ConsumeCleanup_spec actual l :
  match ConsumeCleanup actual l with
  | (Ok _, l') => l' = set_cleanupConsumed (usage_add (cleanupConsumed l) actual) l ∧
      within (usage_add (cleanupConsumed l) actual) (Cleanup (policy l)) (mkTokenBudget 0 0)
  | (Err _, l') => l' = l
  end.
Proof.
  unfold ConsumeCleanup, lift, fail_if, fail, get, modify, mret, gom_ret, mbind, gom_bind.
  destruct (Usage_Validate actual) as [[]|e]; [|done].
  case_decide as Hx; [done|]. split; [done|]. by apply exceeds_within.
Qed.

Lemma TakeSnapshot_spec now l :
  (TakeSnapshot now l).2 = if decide (Before now (deadline l)) then l else set_exhausted true l.
Proof.
  unfold TakeSnapshot, checkTimeLocked, get, modify, fail, mret, gom_ret, mbind, gom_bind.
  repeat case_decide; done.
Qed.

(** ** The ledger invariant *)
Record ledger_inv (b : BudgetPolicy) (l : Ledger) : Prop := {
  inv_policy : policy l = b;
  inv_reserved f : f ∈ fields → f (reserved l) = int64_wrap (held f (heap l));
  inv_consumed : exhausted l = false → within (consumed l) (Hard b) (Reservation_ b);
  inv_cleanup : within (cleanupConsumed l) (Cleanup b) (mkTokenBudget 0 0)
}.

Lemma New_inv b now l : New b now = Ok l → ledger_inv b l.
Proof.
  unfold New, mbind, result_bind, mret, result_ret.
  destruct (BudgetPolicy_Validate b) as [[]|] eqn:Hv; [|done]. intros [= <-].
  apply BudgetPolicy_Validate_ok in Hv as (Hh & Ht & Hc).
  unfold HardBudget_positive in *. split; try done; simpl.
  - intros f Hf. by rewrite field_zero.
  - unfold within. simpl. lia.
  - unfold within. simpl. lia.
Qed.

Lemma exhausted_inv b l : ledger_inv b l → ledger_inv b (set_exhausted true l).
Proof. intros []. by split. Qed.

Lemma closed_state_inv b l p r :
  ledger_inv b l → heap l !! p = Some r → closed r = false → ledger_inv b (closed_state p r l).
Proof.
  intros [Hp Hres Hc Hcl] Hr Hopen. split; simpl; try done.
  intros f Hf. rewrite field_subtract, Hres, held_close by done.
  apply (int64_wrap_add_l (held f (heap l)) (- f (planned r))).
Qed.

Lemma Commit_inv b l p actual now : ledger_inv b l → ledger_inv b (Commit p actual now l).2.
Proof.
  intros Hinv. destruct (Usage_Validate actual) as [[]|e] eqn:Hv.
  2:{ by destruct (Commit_noop p actual now l) as [? ->]; [right; rewrite Hv|]. }
  destruct (heap l !! p) as [r|] eqn:Hp.
  2:{ destruct (Commit_noop p actual now l) as [? ->]; [left; by rewrite Hp|done]. }
  destruct (closed r) eqn:Hr.
  { destruct (Commit_noop p actual now l) as [? ->]; [left; rewrite Hp; naive_solver|done]. }
  pose proof (Commit_spec p actual now l r Hp Hr Hv) as Hs. simpl in Hs.
  pose proof (closed_state_inv b l p r Hinv Hp Hr) as [H1 H2 H3 H4].
  destruct (Commit p actual now l) as [[[]|e] l']; simpl.
  - destruct Hs as (-> & Hw & _). split; try done. intros _.
    by rewrite <- (inv_policy _ _ Hinv).
  - rewrite Hs. by split.
Qed.

Lemma step_inv b l op : ledger_inv b l → ledger_inv b (step op l).
Proof.
  intros Hinv. destruct op as [u now|p actual now|p|actual|now]; cbn [step].
  - pose proof (Reserve_spec u now l) as Hs. destruct (Reserve u now l) as [[p|e] l']; simpl.
    + destruct Hs as (-> & _ & _ & _ & He & _). destruct Hinv as [H1 H2 H3 H4].
      split; try done. intros f Hf. simpl. rewrite field_add, H2, held_app by done. simpl.
      rewrite int64_wrap_add_l. f_equal. lia.
    + destruct Hs as [->| ->]; [done|by apply exhausted_inv].
  - by apply Commit_inv.
  - pose proof (Cancel_spec p l) as Hs. destruct (heap l !! p) as [r|] eqn:Hp; [|by rewrite Hs].
    rewrite Hs. destruct (closed r) eqn:Hr; [done|by apply closed_state_inv].
  - pose proof (ConsumeCleanup_spec actual l) as Hs.
    destruct (ConsumeCleanup actual l) as [[[]|e] l']; simpl; [|by subst].
    destruct Hs as [-> Hw]. destruct Hinv as [H1 H2 H3 H4]. split; try done.
    simpl. by rewrite <- H1.
  - rewrite TakeSnapshot_spec. case_decide; [done|by apply exhausted_inv].
Qed.

Lemma run_inv b l ops : ledger_inv b l → ledger_inv b (run ops l).
Proof.
  revert l. induction ops as [|op ops IH]; intros l Hinv; simpl; [done|].
  apply IH. by apply step_inv.
Qed.

(** [C8] Ledger accounting: whatever sequence of reservations, commits,
    cancellations, cleanup charges and snapshots is run on a new ledger, the
    reserved account is the (machine-width) sum of what the open
    reservations planned, the consumed account respects every hard limit
    unless the ledger is exhausted, and the cleanup account respects the
    cleanup limits. *)
Theorem ledger_accounts (b : BudgetPolicy) (now : Time) (l : Ledger) (ops : list Operation) :
  New b now = Ok l →
  (∀ f, f ∈ fields → f (reserved (run ops l)) = int64_wrap (held f (heap (run ops l)))) ∧
  (exhausted (run ops l) = false → within (consumed (run ops l)) (Hard b) (Reservation_ b)) ∧
  within (cleanupConsumed (run ops l)) (Cleanup b) (mkTokenBudget 0 0).
Proof. intros Hl. destruct (run_inv b l ops (New_inv _ _ _ Hl)). done. Qed.

(** No over-commitment: when a reservation is granted and the true sum
    of the consumed, held and newly planned quantities fits the machine
    integers, that sum is within every hard limit of the policy. *)
Theorem Reserve_never_overcommits (b : BudgetPolicy) (t now : Time) (l l' : Ledger)
    (ops : list Operation) (u : Usage) (p : nat) :
  New b t = Ok l → Reserve u now (run ops l) = (Ok p, l') →
  (∀ f, f ∈ fields → int64_range (f (consumed (run ops l)) + held f (heap (run ops l)) + f u)) →
  let total f := f (consumed l') + held f (heap l') in
  within (mkUsage (total Requests) (total RequestBytes) (total ResponseBytes)
            (total ArtifactBytes) (total Processes) (total InputTokens) (total OutputTokens))
    (Hard b) (Reservation_ b).
Proof.
  intros Hl Hr Hrange total. pose proof (run_inv b l ops (New_inv _ _ _ Hl)) as Hinv.
  set (m := run ops l) in *. pose proof (Reserve_spec u now m) as Hs. rewrite Hr in Hs.
  destruct Hs as (-> & _ & _ & _ & _ & Hw). rewrite (inv_policy _ _ Hinv) in Hw.
  assert (∀ f, f ∈ fields →
    f (usage_add (usage_add (consumed m) (reserved m)) u) = total f) as Htotal.
  { intros f Hf. unfold total. simpl.
    rewrite !field_add, (inv_reserved _ _ Hinv), int64_wrap_add_l, held_app by done. simpl.
    replace (f (consumed m) + int64_wrap (held f (heap m)) + f u)
      with (int64_wrap (held f (heap m)) + (f (consumed m) + f u)) by lia.
    rewrite int64_wrap_add_l.
    replace (held f (heap m) + (f (consumed m) + f u))
      with (f (consumed m) + held f (heap m) + f u) by lia.
    rewrite int64_wrap_id by by apply Hrange. lia. }
  unfold within in *. simpl.
  rewrite <- !Htotal by (unfold fields; set_solver). exact Hw.
Qed.

(** The projection in [Reserve] is computed at machine width: with a
    policy of ten requests, one of them consumed, a reservation of
    [2^63 - 1] requests is granted, because the [int64] sum wraps around to
    the smallest negative number. *)
Theorem Reserve_overflow_is_granted :
  ∃ (b : BudgetPolicy) (l : Ledger) (ops : list Operation) (u : Usage) (p : nat) (l' : Ledger),
    New b 1 = Ok l ∧ Reserve u 1 (run ops l) = (Ok p, l') ∧
    MaxRequests (Hard b) = 10 ∧ Requests (consumed (run ops l)) = 1 ∧
    Requests u = int64_max ∧ Requests (reserved l') = int64_max ∧ exhausted l' = false.
Proof.
  set (h := mkHardBudget 10 10 10 10 10 10).
  set (b := mkBudgetPolicy h (mkTokenBudget 0 0) h).
  set (one := mkUsage 1 0 0 0 0 0 0). set (u := mkUsage int64_max 0 0 0 0 0 0).
  destruct (New b 1) as [l|e] eqn:Hl; [|by vm_compute in Hl].
  exists b, l, [OpReserve one 1; OpCommit 0 one 1], u, 1%nat,
    (Reserve u 1 (run [OpReserve one 1; OpCommit 0 one 1] l)).2.
  vm_compute in Hl. injection Hl as <-. split_and!; vm_compute; reflexivity.
Qed.

(** A settled reservation stays settled. *)
Lemma closed_step p op l :
  (∃ r, heap l !! p = Some r ∧ closed r = true) →
  ∃ r, heap (step op l) !! p = Some r ∧ closed r = true.
Proof.
  intros (r & Hp & Hr).
  assert (∀ q rq, heap l !! q = Some rq → closed rq = false →
    (<[q := mkReservation (resId rq) (planned rq) true]> (heap l)) !! p = Some r) as Hne.
  { intros q rq Hq Hrq. destruct (decide (q = p)) as [->|Hqp]; [congruence|].
    by rewrite list_lookup_insert_ne. }
  destruct op as [u now|q actual now|q|actual|now]; cbn [step].
  - pose proof (Reserve_spec u now l) as Hs. destruct (Reserve u now l) as [[?|?] l']; simpl.
    + destruct Hs as (-> & _). exists r. simpl. split; [|done]. by apply lookup_app_l_Some.
    + destruct Hs as [->| ->]; eauto.
  - destruct (Usage_Validate actual) as [[]|e] eqn:Hv.
    2:{ destruct (Commit_noop q actual now l) as [? ->]; [right; by rewrite Hv|eauto]. }
    destruct (heap l !! q) as [rq|] eqn:Hq.
    2:{ destruct (Commit_noop q actual now l) as [? ->]; [left; by rewrite Hq|eauto]. }
    destruct (closed rq) eqn:Hrq.
    { destruct (Commit_noop q actual now l) as [? ->]; [left; naive_solver|eauto]. }
    pose proof (Commit_spec q actual now l rq Hq Hrq Hv) as Hs.
    destruct (Commit q actual now l) as [[[]|e] l']; simpl in *;
      [destruct Hs as (-> & _)|subst l']; exists r; (split; [by apply Hne|done]).
  - pose proof (Cancel_spec q l) as Hs. destruct (heap l !! q) as [rq|] eqn:Hq; rewrite Hs; [|eauto].
    destruct (closed rq) eqn:Hrq; [eauto|]. exists r. split; [by apply Hne|done].
  - pose proof (ConsumeCleanup_spec actual l) as Hs.
    destruct (ConsumeCleanup actual l) as [[[]|e] l']; simpl; [destruct Hs as [-> _]|subst]; eauto.
  - rewrite TakeSnapshot_spec. case_decide; eauto.
Qed.

Lemma closed_run p ops l :
  (∃ r, heap l !! p = Some r ∧ closed r = true) →
  ∃ r, heap (run ops l) !! p = Some r ∧ closed r = true.
Proof. revert l. induction ops as [|op ops IH]; intros l Hp; [done|]. by apply IH, closed_step. Qed.

(** Settling closes the reservation, whatever the outcome reported. *)
Lemma settle_closes p op l :
  (op = OpCancel p ∨ ∃ a now, op = OpCommit p a now ∧ Usage_Validate a = Ok tt) →
  is_Some (heap l !! p) → ∃ r, heap (step op l) !! p = Some r ∧ closed r = true.
Proof.
  intros Hop [r Hp]. destruct (closed r) eqn:Hr; [by apply closed_step; eauto|].
  assert (∃ r', heap (closed_state p r l) !! p = Some r' ∧ closed r' = true) as Hc.
  { eexists. simpl. split; [apply list_lookup_insert_eq; by eapply lookup_lt_Some|done]. }
  destruct Hop as [->|(a & now & -> & Hv)]; cbn [step].
  - pose proof (Cancel_spec p l) as Hs. by rewrite Hp, Hr in Hs; rewrite Hs.
  - pose proof (Commit_spec p a now l r Hp Hr Hv) as Hs.
    destruct (Commit p a now l) as [[[]|e] l']; simpl in *; [destruct Hs as (-> & _)|subst l']; done.
Qed.

(** A reservation is settled once: after it has been committed or
    cancelled, and after any further operations, committing or cancelling it
    again is refused with [ErrReservationClosed] and changes nothing. *)
Theorem reservation_settled_once (l : Ledger) (op : Operation) (ops : list Operation) (p : nat) :
  (op = OpCancel p ∨ ∃ a now, op = OpCommit p a now ∧ Usage_Validate a = Ok tt) →
  is_Some (heap l !! p) →
  let l' := run ops (step op l) in
  Cancel p l' = (Err (Sentinel ErrReservationClosed), l') ∧
  ∀ a now, Usage_Validate a = Ok tt →
    Commit p a now l' = (Err (Sentinel ErrReservationClosed), l').
Proof.
  intros Hop Hp l'. destruct (closed_run p ops _ (settle_closes p op l Hop Hp)) as (r & Hr & Hc).
  fold l' in Hr. split.
  - pose proof (Cancel_spec p l') as Hs. by rewrite Hr, Hc in Hs.
  - intros a now Hv. unfold Commit, lift, fail_if, fail, get, mbind, gom_bind.
    by rewrite Hv, Hr, Hc.
Qed.

Lemma exhausted_step op l : exhausted l = true → exhausted (step op l) = true.
Proof.
  intros He. destruct op as [u now|p a now|p|a|now]; cbn [step].
  - pose proof (Reserve_spec u now l) as Hs. destruct (Reserve u now l) as [[?|?] l']; simpl.
    + destruct Hs as (-> & _). done.
    + by destruct Hs as [->| ->].
  - destruct (Usage_Validate a) as [[]|e] eqn:Hv.
    2:{ destruct (Commit_noop p a now l) as [? ->]; [right; by rewrite Hv|done]. }
    destruct (heap l !! p) as [r|] eqn:Hp.
    2:{ destruct (Commit_noop p a now l) as [? ->]; [left; by rewrite Hp|done]. }
    destruct (closed r) eqn:Hr.
    { destruct (Commit_noop p a now l) as [? ->]; [left; naive_solver|done]. }
    pose proof (Commit_spec p a now l r Hp Hr Hv) as Hs.
    destruct (Commit p a now l) as [[[]|e] l']; simpl in *; [by destruct Hs as (-> & _)|by subst l'].
  - pose proof (Cancel_spec p l) as Hs. destruct (heap l !! p) as [r|]; rewrite Hs; [|done].
    by destruct (closed r).
  - pose proof (ConsumeCleanup_spec a l) as Hs.
    destruct (ConsumeCleanup a l) as [[[]|e] l']; simpl; [by destruct Hs as [-> _]|by subst].
  - rewrite TakeSnapshot_spec. by case_decide.
Qed.

Lemma exhausted_run ops l : exhausted l = true → exhausted (run ops l) = true.
Proof. revert l. induction ops as [|op ops IH]; intros l He; [done|]. by apply IH, exhausted_step. Qed.

(** Exhaustion is final for tests and irrelevant for cleanup: once a
    ledger is exhausted it stays exhausted, every valid reservation request
    is refused with [ErrExhausted], and a cleanup charge is answered exactly
    as it would be on the same ledger were it not exhausted. *)
Theorem exhausted_is_final (l : Ledger) (ops : list Operation) :
  exhausted l = true →
  let l' := run ops l in
  exhausted l' = true ∧
  (∀ u now, Usage_Validate u = Ok tt → ¬ (Requests u = 0 ∧ Processes u = 0) →
    ∃ e, Reserve u now l' = (Err e, l') ∧ errors_Is e ErrExhausted = true) ∧
  (∀ a, (ConsumeCleanup a l').1 = (ConsumeCleanup a (set_exhausted false l')).1).
Proof.
  intros He l'. pose proof (exhausted_run ops l He) as He'. fold l' in He'.
  split_and!; [done| |].
  - intros u now Hv Hcover.
    unfold Reserve, checkTimeLocked, lift, fail_if, fail, get, modify, mret, gom_ret, mbind, gom_bind.
    rewrite Hv, decide_False by done. case_decide.
    + assert (set_exhausted true l' = l') as -> by (rewrite <- He'; by destruct (run ops l)).
      eexists. split; [reflexivity|done].
    + rewrite decide_True by done. by eexists.
  - intros a. unfold ConsumeCleanup, lift, fail_if, fail, get, modify, mret, gom_ret, mbind, gom_bind.
    destruct (Usage_Validate a) as [[]|e]; [|done]. simpl. by case_decide.
Qed.

(** ** Witnesses *)
Definition sample_hard : HardBudget := mkHardBudget 10 100 100 100 10 1000.
Definition sample_policy : BudgetPolicy := mkBudgetPolicy sample_hard (mkTokenBudget 0 0) sample_hard.
Definition sample_ledger : Ledger :=
  mkLedger sample_policy 1 1001 usage_zero usage_zero usage_zero usage_zero false 0 ∅ [].
Definition sample_usage : Usage := mkUsage 1 5 0 0 0 0 0.
Definition sample_ops : list Operation := [OpReserve sample_usage 2; OpCommit 0 sample_usage 3].

Lemma sample_New : New sample_policy 1 = Ok sample_ledger.
Proof. vm_compute. reflexivity. Defined.

Lemma ledger_accounts_witness :
  within (cleanupConsumed (run sample_ops sample_ledger)) (Cleanup sample_policy) (mkTokenBudget 0 0).
Proof. apply (ledger_accounts sample_policy 1 sample_ledger sample_ops sample_New). Defined.

Lemma Reserve_never_overcommits_witness :
  let l' := (Reserve sample_usage 4 (run sample_ops sample_ledger)).2 in
  let total f := f (consumed l') + held f (heap l') in
  within (mkUsage (total Requests) (total RequestBytes) (total ResponseBytes)
            (total ArtifactBytes) (total Processes) (total InputTokens) (total OutputTokens))
    (Hard sample_policy) (Reservation_ sample_policy).
Proof.
  apply (Reserve_never_overcommits sample_policy 1 4 sample_ledger _ sample_ops sample_usage 1%nat
    sample_New).
  - vm_compute. reflexivity.
  - intros f Hf. each_field Hf; vm_compute; split; discriminate.
Defined.

Lemma reservation_settled_once_witness :
  let l' := run [] (step (OpCancel 0) (step (OpReserve sample_usage 2) sample_ledger)) in
  Cancel 0 l' = (Err (Sentinel ErrReservationClosed), l').
Proof.
  apply (reservation_settled_once (step (OpReserve sample_usage 2) sample_ledger) (OpCancel 0) [] 0).
  - left. reflexivity.
  - vm_compute. eexists. reflexivity.
Defined.

Lemma exhausted_is_final_witness :
  exhausted (run sample_ops (step (OpSnapshot 2000) sample_ledger)) = true.
Proof.
  apply (exhausted_is_final (step (OpSnapshot 2000) sample_ledger) sample_ops).
  vm_compute. reflexivity.
Defined.
