(* ===== verification/Executor.v ===== *)
(** * internal/executor: running a resolved plan

    [Execute] drives the scenarios of a [ResolvedRunPlan] under the ledger of
    Budget.v.  Everything outside the package that it calls (the clock, the
    context, the source of identifiers, the resolver and the runners) is the
    class [Environment] over a state [W] of the world: each call may answer
    anything and change the world, so a theorem about every environment holds
    for every runner and every interleaving of cancellation.  The ledger's
    clock is read once per ledger call. *)
From Stdlib Require Import ZArith Ascii String Lia.
From stdpp Require Import base gmap sets list strings.
From S2P Require Import Prelude Schema Results Documents Budget.
Local Open Scope Z_scope.
Local Open Scope string_scope.
Local Open Scope list_scope.

(** ** Errors of a runner *)
Definition ErrorClass := string.
Definition ErrorTransient : ErrorClass := "transient".
Definition ErrorAuthentication : ErrorClass := "authentication".
Definition ErrorPermission : ErrorClass := "permission".
Definition ErrorDriver : ErrorClass := "driver".
Definition ErrorHarness : ErrorClass := "harness".

(** The fields of a [RunError] other than the error it wraps. *)
Record RunError := mkRunError {
  reClass : ErrorClass;
  reUsage : Usage;
  reUsageKnown : bool;
  reUnknownUsage : list string;
  reEvidenceRefs : list ObjectRef
}.

(** The error [Runner.Run] returns: any chain of wrapped errors, with
    [RunError]s in it or not. *)
Inductive RunFailure :=
| PlainError (e : error)
| WrappedError (m : message) (inner : RunFailure)
| TypedError (r : RunError) (inner : option RunFailure).

(** [errors.As(err, &typed)] at [*RunError]. *)
Fixpoint errors_As (f : RunFailure) : option RunError :=
  match f with
  | PlainError _ => None
  | WrappedError _ inner => errors_As inner
  | TypedError r _ => Some r
  end.

Fixpoint failure_Is (f : RunFailure) (target : string) : bool :=
  match f with
  | PlainError e => errors_Is e target
  | WrappedError _ inner => failure_Is inner target
  | TypedError _ (Some inner) => failure_Is inner target
  | TypedError _ None => false
  end.

Definition Canceled : string := "context canceled".
Definition DeadlineExceeded : string := "context deadline exceeded".

(** ** Invocations and outcomes *)
Record Invocation := mkInvocation {
  invRunID : InstanceID;
  invInvocationID : InstanceID;
  invAttemptID : InstanceID;
  invPlanDigest : Digest;
  invScenario : ScenarioDecision;
  invAttemptNumber : Z
}.

Record Outcome := mkOutcome {
  ocVerdict : Verdict;
  ocReasonCode : ReasonCode;
  ocEvidenceRefs : list ObjectRef;
  ocAssertionResults : list AssertionResult;
  ocFindings : list Finding;
  ocUsage : Usage;
  ocUnknownUsage : list string
}.

Record ExecutionResult := mkExecutionResult {
  exRunID : InstanceID;
  exResolvedPlanRef : ObjectRef;
  exAttempts : list Attempt;
  exCases : list CaseResult;
  (** [TakeSnapshot] returns no error: [Some] in every result *)
  exBudget : option Snapshot;
  exResidualLeases : list string;
  exStartedAt : Time;
  exFinishedAt : Time
}.

(** ** The environment *)
Class Environment (W Runner : Type) := {
  env_NewID : GoM W error InstanceID;
  env_Now : W -> Time * W;
  env_ctxErr : W -> option error * W;
  env_Resolve : ArtifactPin -> GoM W error Runner;
  (** [None]: the resolver has no [ResolveFinalizer] method. *)
  env_ResolveFinalizer : option (FinalizerPlan -> GoM W error Runner);
  env_Estimate : Runner -> ScenarioDecision -> GoM W error Usage;
  env_Run : Runner -> Invocation -> GoM W RunFailure Outcome;
  env_Finalize : Runner -> FinalizerPlan -> GoM W error Usage
}.

(** ** Helpers *)
Definition containsString (values : list string) (expected : string) : bool :=
  bool_decide (expected ∈ values).

Definition input_tokens : string := "input_tokens".
Definition output_tokens : string := "output_tokens".

Definition unknown_check (field : string) : GoM (gset string) error unit :=
  fail_if (field ≠ input_tokens ∧ field ≠ output_tokens)
    (ErrorNew (Sprintf "invalid unknown usage field %q" [FStr field]));;
  seen ← get;
  fail_if (field ∈ seen) (ErrorNew (Sprintf "duplicate unknown usage field %q" [FStr field]));;
  put ({[field]} ∪ seen).

Definition validateUnknownUsage (unknown : list string) : result error unit :=
  (for_eachM unknown_check unknown ∅).1.

Definition validateEvidenceRefs (refs : list ObjectRef) : result error unit :=
  for_each (fun '(index, ref) =>
    wrap (Wrapf (Sprintf "evidence ref %d: %w" [FInt index])) (ObjectRef_Validate ref))
    (enumerate refs).

Definition validateOutcome (outcome : Outcome) : result error unit :=
  err_if (ocVerdict outcome ≠ VerdictPass ∧ ocVerdict outcome ≠ VerdictFail ∧
          ocVerdict outcome ≠ VerdictWarn ∧ ocVerdict outcome ≠ VerdictInconclusive)
    (ErrorNew (Sprintf "invalid completed verdict %q" [FStr (ocVerdict outcome)]));;
  err_if (length (ocEvidenceRefs outcome) = 0%nat)
    (ErrorNew (Text "completed outcome requires evidence"));;
  validateEvidenceRefs (ocEvidenceRefs outcome);;
  for_each AssertionResult_Validate (ocAssertionResults outcome);;
  validateUnknownUsage (ocUnknownUsage outcome).

(** The loop over [refs]; [seen] holds exactly the references of
    [destination]. *)
Fixpoint appendUniqueEvidenceRefs (destination refs : list ObjectRef) : list ObjectRef :=
  match refs with
  | [] => destination
  | ref :: refs' =>
      if decide (ref ∈ destination) then appendUniqueEvidenceRefs destination refs'
      else appendUniqueEvidenceRefs (destination ++ [ref]) refs'
  end.

Definition accountedUsage (observed estimate : Usage) (unknown : list string) : Usage :=
  mkUsage (Requests observed) (RequestBytes observed) (ResponseBytes observed)
    (ArtifactBytes observed) (Processes observed)
    (if containsString unknown input_tokens then InputTokens estimate else InputTokens observed)
    (if containsString unknown output_tokens then OutputTokens estimate else OutputTokens observed).

Definition consumption (usage : Usage) (unknown : list string) : BudgetConsumption :=
  mkBudgetConsumption (Requests usage) (RequestBytes usage) (ResponseBytes usage)
    (ArtifactBytes usage)
    (if containsString unknown input_tokens then None else Some (InputTokens usage))
    (if containsString unknown output_tokens then None else Some (OutputTokens usage))
    unknown.

Definition aggregateUnknownUsage (attempts : list Attempt) : list string :=
  filter (fun field => existsb (fun attempt =>
    containsString (bcUnknown (atConsumedBudget attempt)) field) attempts = true)
    [input_tokens; output_tokens].

Definition contextReason (err : error) : ReasonCode :=
  if errors_Is err DeadlineExceeded then ReasonBudgetExhausted else ReasonCancelledByUser.

Definition caseForAttempts (decision : ScenarioDecision) (ids : list InstanceID)
    (status : ExecutionStatus) (verdict : option Verdict) (reason : ReasonCode)
    (assertions : list AssertionResult) (findings : list Finding) : CaseResult :=
  mkCaseResult (ScenarioID decision) (Disposition decision) ids status verdict reason []
    assertions findings true true (bool_decide (status = ExecutionCompleted)) "last_completed".

Definition set_crEvidenceRefs (refs : list ObjectRef) (c : CaseResult) : CaseResult :=
  mkCaseResult (crScenarioID c) (crPlanDisposition c) (crAttemptIDs c) (crExecutionStatus c)
    (crVerdict c) (crReasonCode c) refs (crAssertionResults c) (crFindings c)
    (crCandidateMember c) (crApplicableMember c) (crExecutedMember c) (crAttemptAggregation c).

Definition plannedOnlyCase (decision : ScenarioDecision) : CaseResult :=
  mkCaseResult (ScenarioID decision) (Disposition decision) [] ExecutionSkipped None
    (ReasonCode_ decision) [] [] [] true
    (bool_decide (Disposition decision = DispositionSkip)) false "none".

Definition simpleAttempt (status : ExecutionStatus) (invocationID attemptID : InstanceID)
    (driver : ArtifactPin) (reason : ReasonCode) : Attempt :=
  mkAttempt attemptID invocationID status reason None [] driver [] no_consumption [].
Definition erroredAttempt := simpleAttempt ExecutionErrored.
Definition skippedAttempt := simpleAttempt ExecutionSkipped.

(** A missing state is the zero [CaseResult], whose status is empty. *)
Definition dependency_failed (states : gmap string CaseResult) (dependency : string) : bool :=
  match states !! dependency with
  | None => true
  | Some state =>
      bool_decide (crExecutionStatus state ≠ ExecutionCompleted) ||
      match crVerdict state with
      | None => true
      | Some v => bool_decide (v = VerdictFail) || bool_decide (v = VerdictInconclusive)
      end
  end.

(** [Some] is the dependency the loop returns; [None] is the empty string
    after the loop.  The caller only tests whether the string is empty. *)
Definition failedDependency (decision : ScenarioDecision) (states : gmap string CaseResult) : string :=
  default "" (snd <$> list_find (fun dependency => dependency_failed states dependency = true)
                (DependsOn decision)).

(** ** Execution *)

(** What the code after the [for] loop's body does next. *)
Record locals := mkLocals {
  attempts_ : list Attempt;
  attemptIDs_ : list InstanceID;
  caseEvidenceRefs_ : list ObjectRef
}.

Inductive control :=
| Return (c : CaseResult) (attempts : list Attempt)
| Continue (v : locals)
| Break (v : locals).

(** The world and the ledger are threaded; errors are values. *)
Definition ExM (W A : Type) := W * Ledger -> A * (W * Ledger).
#[export] Instance ex_ret {W} : MRet (ExM W) := fun A a s => (a, s).
#[export] Instance ex_bind {W} : MBind (ExM W) := fun A B k m s => let '(a, s') := m s in k a s'.

Section Execute.
Context {W Runner : Type} {env : Environment W Runner}.
Context {lib : DocumentLibrary} {ro : RangeOrder string string}.

Definition world {A} (f : W -> A * W) : ExM W A := fun '(w, l) => let '(a, w') := f w in (a, (w', l)).
Definition ledger_call {E A} (f : GoM Ledger E A) : ExM W (result E A) :=
  fun '(w, l) => let '(a, l') := f l in (a, (w, l')).

Definition Now : ExM W Time := world env_Now.
Definition ctxErr : ExM W (option error) := world env_ctxErr.
Definition NewID : ExM W (result error InstanceID) := world env_NewID.

Definition ledger_Reserve (u : Usage) : ExM W (result error nat) :=
  now ← Now; ledger_call (Reserve u now).
Definition ledger_Commit (p : nat) (u : Usage) : ExM W (result error unit) :=
  now ← Now; ledger_call (Commit p u now).

Definition ledger_Snapshot : ExM W (result error Snapshot) :=
  now ← Now; ledger_call (TakeSnapshot now).

Definition nonRunAttempt (decision : ScenarioDecision) (status : ExecutionStatus)
    (reason : ReasonCode) : ExM W (CaseResult * Attempt) :=
  invocationID ← NewID;
  attemptID ← NewID;
  let or_empty r := match r with Ok id => id | Err _ => "" end in
  mret (caseForAttempts decision [or_empty attemptID] status None reason [] [],
        simpleAttempt status (or_empty invocationID) (or_empty attemptID) (Driver decision) reason).

Definition reasonForError (err : RunFailure) : ExM W (ReasonCode * ErrorClass) :=
  contextErr ← ctxErr;
  match contextErr with
  | Some e => mret (contextReason e, ErrorHarness)
  | None => mret
      (if failure_Is err DeadlineExceeded then (ReasonBudgetExhausted, ErrorHarness)
       else if failure_Is err Canceled then (ReasonCancelledByUser, ErrorHarness)
       else match errors_As err with
       | None => (ReasonHarnessError, ErrorHarness)
       | Some typed =>
           (if decide (reClass typed = ErrorAuthentication) then ReasonAuthenticationFailed
            else if decide (reClass typed = ErrorPermission) then ReasonPermissionDenied
            else if decide (reClass typed = ErrorTransient) then ReasonTransientError
            else if decide (reClass typed = ErrorDriver) then ReasonDriverError
            else ReasonHarnessError, reClass typed)
       end)
  end.

(** [errors.Is(ctx.Err(), target)]; a nil error is no sentinel. *)
Definition ctx_is (target : string) : ExM W bool :=
  e ← ctxErr; mret (match e with Some e => errors_Is e target | None => false end).

(** What the [errors.As] block computes of a failure: the error to report,
    the usage the runner reported, whether it did, the unknown fields and the
    valid evidence. *)
Record failure_report := mkFailureReport {
  frErr : RunFailure;
  frActual : Usage;
  frUsageKnown : bool;
  frUnknown : list string;
  frEvidence : list ObjectRef
}.

Definition read_failure (runErr : RunFailure) : failure_report :=
  match errors_As runErr with
  | None => mkFailureReport runErr usage_zero false [input_tokens; output_tokens] []
  | Some typed =>
      let actual := if reUsageKnown typed then reUsage typed else usage_zero in
      let '(runErr, unknown) :=
        match validateUnknownUsage (reUnknownUsage typed) with
        | Err err =>
            (TypedError (mkRunError ErrorHarness actual (reUsageKnown typed) [] [])
               (Some (WrappedError (Text "runner returned invalid unknown usage: %w") (PlainError err))),
             [input_tokens; output_tokens])
        | Ok _ =>
            (runErr, if reUsageKnown typed then reUnknownUsage typed
                     else [input_tokens; output_tokens])
        end in
      match validateEvidenceRefs (reEvidenceRefs typed) with
      | Err err =>
          mkFailureReport
            (TypedError (mkRunError ErrorHarness actual (reUsageKnown typed) unknown [])
               (Some (WrappedError (Text "runner returned invalid error evidence: %w") (PlainError err))))
            actual (reUsageKnown typed) unknown []
      | Ok _ => mkFailureReport runErr actual (reUsageKnown typed) unknown (reEvidenceRefs typed)
      end
  end.

Definition on_failure (decision : ScenarioDecision) (maxAttempts number : Z)
    (invocationID attemptID : InstanceID) (estimate : Usage) (reservation : nat)
    (runErr : RunFailure) (v : locals) : ExM W control :=
  let report := read_failure runErr in
  let accounted := if frUsageKnown report
                   then accountedUsage (frActual report) estimate (frUnknown report)
                   else estimate in
  let refs := appendUniqueEvidenceRefs (caseEvidenceRefs_ v) (frEvidence report) in
  ledger_Commit reservation accounted;;
  '(reason, class) ← reasonForError (frErr report);
  canceled ← ctx_is Canceled;
  late ← (if (canceled : bool) then mret true else ctx_is DeadlineExceeded);
  let status := if (late : bool) then ExecutionCancelled else ExecutionErrored in
  let attempts := attempts_ v ++
    [mkAttempt attemptID invocationID status reason None (frEvidence report) (Driver decision) []
       (consumption (frActual report) (frUnknown report)) []] in
  if decide (class = ErrorTransient ∧ number < maxAttempts) then
    mret (Continue (mkLocals attempts (attemptIDs_ v) refs))
  else
    mret (Return (set_crEvidenceRefs refs
                    (caseForAttempts decision (attemptIDs_ v) status None reason [] [])) attempts).

Definition on_outcome (decision : ScenarioDecision) (invocationID attemptID : InstanceID)
    (estimate : Usage) (reservation : nat) (outcome : Outcome) (v : locals) : ExM W control :=
  match validateOutcome outcome with
  | Err _ =>
      ledger_Commit reservation estimate;;
      let evidence := match validateEvidenceRefs (ocEvidenceRefs outcome) with
                      | Ok _ => ocEvidenceRefs outcome | Err _ => [] end in
      let refs := appendUniqueEvidenceRefs (caseEvidenceRefs_ v) evidence in
      let attempt := mkAttempt attemptID invocationID ExecutionErrored ReasonHarnessError None
                       evidence (Driver decision) []
                       (consumption usage_zero [input_tokens; output_tokens]) [] in
      mret (Return (set_crEvidenceRefs refs
                      (caseForAttempts decision (attemptIDs_ v) ExecutionErrored None
                         ReasonHarnessError [] []))
              (attempts_ v ++ [attempt]))
  | Ok _ =>
      let refs := appendUniqueEvidenceRefs (caseEvidenceRefs_ v) (ocEvidenceRefs outcome) in
      commit ← ledger_Commit reservation
                 (accountedUsage (ocUsage outcome) estimate (ocUnknownUsage outcome));
      let attempt := mkAttempt attemptID invocationID ExecutionCompleted (ocReasonCode outcome) None
                       (ocEvidenceRefs outcome) (Driver decision) []
                       (consumption (ocUsage outcome) (ocUnknownUsage outcome)) [] in
      let reason := match commit with Err _ => ReasonBudgetExhausted | Ok _ => ocReasonCode outcome end in
      mret (Return (set_crEvidenceRefs refs
                      (caseForAttempts decision (attemptIDs_ v) ExecutionCompleted
                         (Some (ocVerdict outcome)) reason (ocAssertionResults outcome)
                         (ocFindings outcome)))
              (attempts_ v ++ [attempt]))
  end.

(** The body of the attempt loop. *)
Definition run_attempt (runID : InstanceID) (plan : ResolvedRunPlan) (decision : ScenarioDecision)
    (runner : Runner) (maxAttempts : Z) (invocationID : InstanceID) (number : Z) (v : locals)
    : ExM W control :=
  id ← NewID;
  match id with
  | Err _ => mret (Break v)
  | Ok attemptID =>
      let v := mkLocals (attempts_ v) (attemptIDs_ v ++ [attemptID]) (caseEvidenceRefs_ v) in
      estimated ← world (env_Estimate runner decision);
      match estimated with
      | Err _ =>
          mret (Return (caseForAttempts decision (attemptIDs_ v) ExecutionErrored None
                          ReasonHarnessError [] [])
                  (attempts_ v ++
                     [erroredAttempt invocationID attemptID (Driver decision) ReasonHarnessError]))
      | Ok estimate =>
          reserved ← ledger_Reserve estimate;
          match reserved with
          | Err _ =>
              mret (Return (caseForAttempts decision (attemptIDs_ v) ExecutionSkipped None
                              ReasonBudgetExhausted [] [])
                      (attempts_ v ++
                         [skippedAttempt invocationID attemptID (Driver decision)
                            ReasonBudgetExhausted]))
          | Ok reservation =>
              ran ← world (env_Run runner
                (mkInvocation runID invocationID attemptID (emContentDigest (rpMeta plan)) decision
                   number));
              match ran with
              | Err runErr => on_failure decision maxAttempts number invocationID attemptID estimate
                                reservation runErr v
              | Ok outcome => on_outcome decision invocationID attemptID estimate reservation outcome v
              end
          end
      end
  end.

(** [for number := int64(1); number <= maxAttempts; number++], from
    [number]; [fuel] is the number of iterations left. *)
Fixpoint attempt_loop (runID : InstanceID) (plan : ResolvedRunPlan) (decision : ScenarioDecision)
    (runner : Runner) (maxAttempts : Z) (invocationID : InstanceID) (fuel : nat) (number : Z)
    (v : locals) : ExM W (CaseResult * list Attempt) :=
  let after := caseForAttempts decision (attemptIDs_ v) ExecutionErrored None ReasonHarnessError [] [] in
  match fuel with
  | O => mret (after, attempts_ v)
  | S fuel' =>
      next ← run_attempt runID plan decision runner maxAttempts invocationID number v;
      match next with
      | Return c attempts => mret (c, attempts)
      | Continue v' =>
          attempt_loop runID plan decision runner maxAttempts invocationID fuel' (number + 1) v'
      | Break v' =>
          mret (caseForAttempts decision (attemptIDs_ v') ExecutionErrored None ReasonHarnessError
                  [] [], attempts_ v')
      end
  end.

Definition runScenario (runID : InstanceID) (plan : ResolvedRunPlan) (decision : ScenarioDecision)
    (runner : Runner) : ExM W (CaseResult * list Attempt) :=
  id ← NewID;
  match id with
  | Err _ =>
      '(c, attempt) ← nonRunAttempt decision ExecutionErrored ReasonHarnessError;
      mret (c, [attempt])
  | Ok invocationID =>
      let maxAttempts := int64_wrap (Retries (rpRuntime plan) + 1) in
      attempt_loop runID plan decision runner maxAttempts invocationID (Z.to_nat maxAttempts) 1
        (mkLocals [] [] [])
  end.

(** One iteration over the decisions: the case, its attempts, and the
    execution error it leaves, if any. *)
Definition run_decision (runID : InstanceID) (plan : ResolvedRunPlan) (decision : ScenarioDecision)
    (states : gmap string CaseResult) : ExM W (CaseResult * list Attempt * option error) :=
  cancelled ← ctxErr;
  match cancelled with
  | Some err =>
      if decide (Disposition decision = DispositionExecute) then
        '(c, attempt) ← nonRunAttempt decision ExecutionCancelled (contextReason err);
        mret (c, [attempt], Some err)
      else mret (plannedOnlyCase decision, [], Some err)
  | None =>
      if decide (Disposition decision ≠ DispositionExecute) then
        mret (plannedOnlyCase decision, [], None)
      else if decide (failedDependency decision states ≠ "") then
        '(c, attempt) ← nonRunAttempt decision ExecutionSkipped ReasonHarnessError;
        mret (c, [attempt], None)
      else
        resolved ← world (env_Resolve (Driver decision));
        match resolved with
        | Err _ =>
            '(c, attempt) ← nonRunAttempt decision ExecutionErrored ReasonDriverError;
            mret (c, [attempt], None)
        | Ok runner =>
            '(c, attempts) ← runScenario runID plan decision runner;
            if decide (crExecutionStatus c = ExecutionCancelled) then
              err ← ctxErr; mret (c, attempts, err)
            else mret (c, attempts, None)
        end
  end.

(** The loop over the scenarios; [executionErr] is overwritten, never
    cleared. *)
Fixpoint scenario_loop (runID : InstanceID) (plan : ResolvedRunPlan) (ds : list ScenarioDecision)
    (attempts : list Attempt) (cases : list CaseResult) (states : gmap string CaseResult)
    (executionErr : option error) : ExM W (list Attempt * list CaseResult * option error) :=
  match ds with
  | [] => mret (attempts, cases, executionErr)
  | decision :: ds' =>
      '(c, more, err) ← run_decision runID plan decision states;
      scenario_loop runID plan ds' (attempts ++ more) (cases ++ [c])
        (<[ScenarioID decision := c]> states)
        (match err with Some _ => err | None => executionErr end)
  end.

(** ** Finalizers *)
Definition finalize_one (plan : FinalizerPlan) (residual : list string) : ExM W (list string) :=
  resolved ← match env_ResolveFinalizer with
             | None => mret (Err (ErrorNew (Text "no finalizer resolver")))
             | Some resolve => world (resolve plan)
             end;
  match resolved with
  | Err _ => mret (residual ++ [LeaseID plan])
  | Ok runner =>
      used ← world (env_Finalize runner plan);
      match used with
      | Err _ => mret (residual ++ [LeaseID plan])
      | Ok usage =>
          charged ← ledger_call (ConsumeCleanup usage);
          match charged with
          | Err _ => mret (residual ++ [LeaseID plan])
          | Ok _ => mret residual
          end
      end
  end.

Fixpoint finalize_list (plans : list FinalizerPlan) (residual : list string) : ExM W (list string) :=
  match plans with
  | [] => mret residual
  | plan :: plans' => residual ← finalize_one plan residual; finalize_list plans' residual
  end.

(** The index runs down from the last plan. *)
Definition finalize (plans : list FinalizerPlan) : ExM W (list string) := finalize_list (rev plans) [].

Definition result_to_option {E A} (r : result E A) : option A :=
  match r with Ok a => Some a | Err _ => None end.

Definition set_snapUnknown (u : list string) (s : Snapshot) : Snapshot :=
  mkSnapshot (snapConsumed s) (snapReserved s) (snapCleanupConsumed s) (snapOvershoot s) u
    (snapStartedAt s) (snapDeadline s) (snapExhausted s).

(** Everything after the ledger has been made. *)
Definition execute_plan (plan : ResolvedRunPlan) (runID : InstanceID)
    : ExM W (ExecutionResult * option error) :=
  startedAt ← Now;
  '(attempts, cases, executionErr) ← scenario_loop runID plan (rpScenarios plan) [] [] ∅ None;
  residual ← finalize (rpFinalizers plan);
  snapshot ← ledger_Snapshot;
  finishedAt ← Now;
  mret (mkExecutionResult runID (emObjectRef (rpMeta plan)) attempts cases
          (set_snapUnknown (aggregateUnknownUsage attempts) <$> result_to_option snapshot)
          residual startedAt finishedAt, executionErr).

(** [Ok (result, executionErr)] is the last return; an early return is an
    error.  [hasRunners] is whether [config.Runners] is not nil. *)
Definition Execute (plan : ResolvedRunPlan) (expectedDigest : Digest) (hasRunners : bool) (w : W)
    : result error (ExecutionResult * option error) * (W * option Ledger) :=
  match
    (wrap (Wrapf (Text "resolved plan: %w")) (ResolvedRunPlan_Validate plan);;
     err_if (expectedDigest ≠ emContentDigest (rpMeta plan))
       (ErrorNew (Text "resolved plan digest does not match the approved digest"));;
     err_if (hasRunners = false) (ErrorNew (Text "runner resolver is required")))
  with
  | Err e => (Err e, (w, None))
  | Ok _ =>
      match env_NewID w with
      | (Err e, w) => (Err e, (w, None))
      | (Ok runID, w) =>
          let '(now, w) := env_Now w in
          match Budget.New (rpBudget plan) now with
          | Err e => (Err e, (w, None))
          | Ok ledger =>
              let '(r, (w, ledger)) := execute_plan plan runID (w, ledger) in
              (Ok r, (w, Some ledger))
          end
      end
  end.
End Execute.
