(* ===== verification/ExecutorSpec.v ===== *)
(** * internal/executor: what a run guarantees

    A weakest-precondition calculus for the executor's monad, and the
    theorems on budget, order, retries and results, for every environment. *)
From Stdlib Require Import ZArith Ascii String Lia.
From stdpp Require Import base gmap sets list strings.
From S2P Require Import Prelude Schema Results Documents Budget Executor.
Local Open Scope Z_scope.
Local Open Scope string_scope.
Local Open Scope list_scope.

(** ** Reasoning about [ExM] *)
Definition wp {W A} (m : ExM W A) (Q : A -> W * Ledger -> Prop) (s : W * Ledger) : Prop :=
  Q (m s).1 (m s).2.

Lemma wp_ret {W A} (a : A) (Q : A -> W * Ledger -> Prop) s : wp (mret a) Q s <-> Q a s.
Proof. done. Qed.

Lemma wp_bind {W A B} (m : ExM W A) (k : A -> ExM W B) Q s :
  wp (x ← m; k x) Q s <-> wp m (fun a => wp (k a) Q) s.
Proof. unfold wp, mbind, ex_bind. by destruct (m s) as [a s']. Qed.

Lemma wp_mono {W A} (m : ExM W A) (P Q : A -> W * Ledger -> Prop) s :
  wp m P s -> (forall a s', P a s' -> Q a s') -> wp m Q s.
Proof. unfold wp. auto. Qed.

Lemma wp_world {W A} (f : W -> A * W) (Q : A -> W * Ledger -> Prop) w l :
  wp (world f) Q (w, l) <-> Q (f w).1 ((f w).2, l).
Proof. unfold wp, world. by destruct (f w). Qed.

Lemma wp_ledger {W E A} (f : GoM Ledger E A) (Q : result E A -> W * Ledger -> Prop) w l :
  wp (ledger_call f) Q (w, l) <-> Q (f l).1 (w, (f l).2).
Proof. unfold wp, ledger_call. by destruct (f l). Qed.

(** A predicate on the ledger survives a call into the world. *)
Lemma wp_world_ledger {W A} (f : W -> A * W) (P : Ledger -> Prop) s :
  P s.2 -> wp (world f) (fun _ s' => P s'.2) s.
Proof. destruct s as [w l]. by rewrite wp_world. Qed.

(** Walk through a block of the executor. *)
Ltac wp_steps :=
  repeat match goal with
  | |- wp (mbind _ _) _ _ => rewrite wp_bind
  | |- wp (mret _) _ _ => rewrite wp_ret
  | |- wp (world _) _ (_, _) => rewrite wp_world
  | |- wp Now _ (_, _) => unfold Now; rewrite wp_world
  | |- wp ctxErr _ (_, _) => unfold ctxErr; rewrite wp_world
  | |- wp NewID _ (_, _) => unfold NewID; rewrite wp_world
  | |- wp (match ?x with _ => _ end) _ _ => destruct x eqn:?
  end.

(** ** The budget *)
Definition settled (l : Ledger) : Prop := Forall (fun r => closed r = true) (heap l).
Definition balanced (b : BudgetPolicy) (l : Ledger) : Prop := ledger_inv b l ∧ settled l.

(** Exactly the reservation [p] is open. *)
Definition holding (b : BudgetPolicy) (p : nat) (l : Ledger) : Prop :=
  ledger_inv b l ∧ exists rs r, heap l = rs ++ [r] ∧ p = length rs ∧ closed r = false ∧
    Forall (fun r => closed r = true) rs.

Lemma Reserve_balanced b u now l :
  balanced b l ->
  match Reserve u now l with
  | (Ok p, l') => holding b p l' ∧ Usage_Validate u = Ok tt
  | (Err _, l') => balanced b l'
  end.
Proof.
  intros [Hi Hs]. pose proof (step_inv b l (OpReserve u now) Hi) as Hi'. simpl in Hi'.
  pose proof (Reserve_spec u now l) as H. destruct (Reserve u now l) as [[p|e] l']; simpl in Hi'.
  - destruct H as (-> & -> & Hv & _). split; [|done]. split; [done|]. by eexists _, _.
  - split; [done|]. by destruct H as [->| ->].
Qed.

Lemma Commit_balanced b p u now l :
  holding b p l -> Usage_Validate u = Ok tt -> balanced b (Commit p u now l).2.
Proof.
  intros [Hi (rs & r & Hh & -> & Hc & Hs)] Hv. split; [by apply Commit_inv|].
  assert (heap l !! length rs = Some r) as Hp by (rewrite Hh; by apply list_lookup_middle).
  pose proof (Commit_spec _ u now l r Hp Hc Hv) as H. simpl in H.
  assert (settled (committed_state (length rs) r u l)) as G.
  { unfold settled, committed_state, closed_state; simpl. rewrite Hh, insert_app_r_alt, Nat.sub_diag by lia.
    apply Forall_app. split; [done|]. by repeat constructor. }
  destruct (Commit _ u now l) as [[[]|e] l']; simpl; [by destruct H as [-> _]|by rewrite H].
Qed.

Lemma accountedUsage_valid o e unknown :
  Usage_Validate o = Ok tt -> Usage_Validate e = Ok tt ->
  Usage_Validate (accountedUsage o e unknown) = Ok tt.
Proof.
  unfold Usage_Validate, accountedUsage. rewrite !err_if_ok. simpl.
  intros Ho He. repeat case_match; lia.
Qed.

Section Execution.
Context {W Runner : Type} {env : Environment W Runner}.
Context {lib : DocumentLibrary} {ro : RangeOrder string string}.

(** Runners never report a negative usage. *)
Definition usages_valid : Prop :=
  forall r inv w,
    match (env_Run r inv w).1 with
    | Ok outcome => Usage_Validate (ocUsage outcome) = Ok tt
    | Err f => forall typed, errors_As f = Some typed -> reUsageKnown typed = true ->
        Usage_Validate (reUsage typed) = Ok tt
    end.

Lemma read_failure_usage f :
  (forall typed, errors_As f = Some typed -> reUsageKnown typed = true ->
     Usage_Validate (reUsage typed) = Ok tt) ->
  frUsageKnown (read_failure f) = true -> Usage_Validate (frActual (read_failure f)) = Ok tt.
Proof.
  unfold read_failure. destruct (errors_As f) as [t|]; [|done]. intros H.
  specialize (H t eq_refl). repeat case_match; simpl; auto; done.
Qed.

Lemma wp_ledger_Reserve b u s :
  balanced b s.2 ->
  wp (ledger_Reserve u) (fun r s' => match r with
    | Ok p => holding b p s'.2 ∧ Usage_Validate u = Ok tt
    | Err _ => balanced b s'.2 end) s.
Proof.
  intros H. unfold ledger_Reserve. destruct s as [w l]. wp_steps. rewrite wp_ledger.
  pose proof (Reserve_balanced b u (env_Now w).1 l H) as R. by destruct (Reserve _ _ l) as [[]].
Qed.

Lemma wp_ledger_Commit b p u s :
  holding b p s.2 -> Usage_Validate u = Ok tt ->
  wp (ledger_Commit p u) (fun _ s' => balanced b s'.2) s.
Proof.
  intros H Hv. unfold ledger_Commit. destruct s as [w l]. wp_steps. rewrite wp_ledger.
  by apply Commit_balanced.
Qed.

Lemma wp_reasonForError_ledger f (P : Ledger -> Prop) s :
  P s.2 -> wp (reasonForError f) (fun _ s' => P s'.2) s.
Proof. intros H. unfold reasonForError. destruct s as [w l]. wp_steps; done. Qed.

Lemma wp_ctx_is_ledger t (P : Ledger -> Prop) s : P s.2 -> wp (ctx_is t) (fun _ s' => P s'.2) s.
Proof. intros H. unfold ctx_is. destruct s as [w l]. by wp_steps. Qed.

(** [m] keeps a property of the ledger. *)
Definition keeps {A} (P : Ledger -> Prop) (m : ExM W A) : Prop :=
  forall s, P s.2 -> wp m (fun _ s' => P s'.2) s.

Lemma keeps_ret {A} P (a : A) : keeps P (mret a).
Proof. intros s H. by rewrite wp_ret. Qed.
Lemma keeps_bind {A B} P (m : ExM W A) (k : A -> ExM W B) :
  keeps P m -> (forall a, keeps P (k a)) -> keeps P (x ← m; k x).
Proof. intros Hm Hk s H. rewrite wp_bind. eapply wp_mono; [by apply Hm|]. intros a s'. apply Hk. Qed.
Lemma keeps_world {A} P (f : W -> A * W) : keeps P (world f).
Proof. intros s H. by apply wp_world_ledger. Qed.
Lemma keeps_pair {A B C} P (m : ExM W (A * B)) (k : A -> B -> ExM W C) :
  keeps P m -> (forall a b, keeps P (k a b)) -> keeps P ('(a, b) ← m; k a b).
Proof. intros Hm Hk. apply keeps_bind; [done|]. by intros []. Qed.
Lemma keeps_pair3 {A B C D} P (m : ExM W (A * B * C)) (k : A -> B -> C -> ExM W D) :
  keeps P m -> (forall a b c, keeps P (k a b c)) -> keeps P ('(a, b, c) ← m; k a b c).
Proof. intros Hm Hk. apply keeps_bind; [done|]. by intros [[]]. Qed.

Lemma keeps_nonRunAttempt P d st re : keeps P (nonRunAttempt d st re).
Proof.
  unfold nonRunAttempt, NewID. repeat (apply keeps_bind; [apply keeps_world|intros]). apply keeps_ret.
Qed.
Lemma keeps_reasonForError P f : keeps P (reasonForError f).
Proof. intros s H. by apply wp_reasonForError_ledger. Qed.
Lemma keeps_ctx_is P t : keeps P (ctx_is t).
Proof. intros s H. by apply wp_ctx_is_ledger. Qed.

Create HintDb keeps.
Hint Resolve keeps_ret keeps_world keeps_nonRunAttempt keeps_reasonForError keeps_ctx_is : keeps.

(** Close a goal about a block of world calls and branches. *)
Ltac keeps_steps :=
  repeat first
    [ progress (eauto with keeps)
    | apply keeps_pair3; [|intros ? ? ?]
    | apply keeps_pair; [|intros ? ?]
    | apply keeps_bind; [|intros ?]
    | case_match | case_decide ].

Section Balance.
Variable b : BudgetPolicy.
Hypothesis Hruns : usages_valid.

Lemma on_failure_balanced d mx n iid aid est p f v s :
  holding b p s.2 -> Usage_Validate est = Ok tt ->
  (forall typed, errors_As f = Some typed -> reUsageKnown typed = true ->
     Usage_Validate (reUsage typed) = Ok tt) ->
  wp (on_failure d mx n iid aid est p f v) (fun _ s' => balanced b s'.2) s.
Proof.
  intros H He Hf. unfold on_failure. rewrite wp_bind.
  eapply wp_mono.
  - apply (wp_ledger_Commit b); [done|].
    destruct (frUsageKnown (read_failure f)) eqn:K; [|done].
    apply accountedUsage_valid; [by apply read_failure_usage|done].
  - intros u. cbn beta. match goal with |- forall s, _ -> wp ?m _ s => change (keeps (balanced b) m) end.
    keeps_steps.
Qed.

Lemma on_outcome_balanced d iid aid est p o v s :
  holding b p s.2 -> Usage_Validate est = Ok tt -> Usage_Validate (ocUsage o) = Ok tt ->
  wp (on_outcome d iid aid est p o v) (fun _ s' => balanced b s'.2) s.
Proof.
  intros H He Ho. unfold on_outcome. destruct (validateOutcome o); rewrite wp_bind;
    (eapply wp_mono; [apply (wp_ledger_Commit b); [done|]|done]).
  - by apply accountedUsage_valid.
  - done.
Qed.

Lemma run_attempt_balanced runID plan d r mx iid n v :
  keeps (balanced b) (run_attempt runID plan d r mx iid n v).
Proof.
  unfold run_attempt, NewID. apply keeps_bind; [auto with keeps|]. intros [id|]; [|auto with keeps].
  apply keeps_bind; [auto with keeps|]. intros [est|]; [|auto with keeps].
  intros s H. rewrite wp_bind. eapply wp_mono; [by apply (wp_ledger_Reserve b)|].
  intros [p|] [w l]; [|intros Hb; by apply keeps_ret]. intros [Hh He]. rewrite wp_bind, wp_world.
  pose proof (Hruns r (mkInvocation runID iid id (emContentDigest (rpMeta plan)) d n) w) as Hr.
  destruct (env_Run r _ w) as [[o|f] w']; simpl in *.
  - by apply on_outcome_balanced.
  - by apply on_failure_balanced.
Qed.

Lemma attempt_loop_balanced runID plan d r mx iid fuel : forall n v,
  keeps (balanced b) (attempt_loop runID plan d r mx iid fuel n v).
Proof.
  induction fuel as [|fuel IH]; intros n v; cbn [attempt_loop]; [auto with keeps|].
  apply keeps_bind; [apply run_attempt_balanced|]. intros []; auto with keeps.
Qed.

Lemma run_decision_balanced runID plan d states :
  keeps (balanced b) (run_decision runID plan d states).
Proof.
  unfold run_decision, runScenario, ctxErr, NewID. pose proof attempt_loop_balanced. keeps_steps.
Qed.

Lemma scenario_loop_balanced runID plan ds : forall at_ cs st e,
  keeps (balanced b) (scenario_loop runID plan ds at_ cs st e).
Proof.
  induction ds as [|d ds IH]; intros; cbn [scenario_loop]; [auto with keeps|].
  apply keeps_pair3; [apply run_decision_balanced|auto].
Qed.

Lemma keeps_ledger {E A} (f : GoM Ledger E A) :
  (forall l, balanced b l -> balanced b (f l).2) -> keeps (balanced b) (ledger_call f).
Proof. intros H [w l] Hl. rewrite wp_ledger. by apply H. Qed.

Lemma cleanup_balanced u l : balanced b l -> balanced b (ConsumeCleanup u l).2.
Proof.
  intros [Hi Hs]. split; [apply (step_inv b l (OpCleanup u) Hi)|].
  pose proof (ConsumeCleanup_spec u l) as H.
  destruct (ConsumeCleanup u l) as [[[]|] l']; simpl; [by destruct H as [-> _]|by subst].
Qed.

Lemma snapshot_balanced now l : balanced b l -> balanced b (TakeSnapshot now l).2.
Proof.
  intros [Hi Hs]. split; [apply (step_inv b l (OpSnapshot now) Hi)|].
  rewrite TakeSnapshot_spec. by case_decide.
Qed.

Lemma finalize_list_balanced plans : forall residual,
  keeps (balanced b) (finalize_list plans residual).
Proof.
  induction plans as [|p plans IH]; intros residual; cbn [finalize_list]; [auto with keeps|].
  apply keeps_bind; [|auto]. unfold finalize_one.
  apply keeps_bind; [case_match; auto with keeps|]. intros []; [|auto with keeps].
  apply keeps_bind; [auto with keeps|]. intros []; [|auto with keeps].
  apply keeps_bind; [apply keeps_ledger; intros; by apply cleanup_balanced|].
  intros []; auto with keeps.
Qed.

Lemma execute_plan_balanced plan runID : keeps (balanced b) (execute_plan plan runID).
Proof.
  unfold execute_plan, finalize, ledger_Snapshot, Now.
  apply keeps_bind; [auto with keeps|]. intros ?.
  apply keeps_pair3; [apply scenario_loop_balanced|]. intros ? ? ?.
  apply keeps_bind; [apply finalize_list_balanced|]. intros ?.
  apply keeps_bind.
  - apply keeps_bind; [auto with keeps|]. intros ?. apply keeps_ledger.
    intros. by apply snapshot_balanced.
  - intros ?. apply keeps_bind; auto with keeps.
Qed.
End Balance.

Lemma held_settled f rs : Forall (fun r => closed r = true) rs -> held f rs = 0.
Proof. induction 1 as [|r rs Hr _ IH]; [done|]. simpl. by rewrite IH, Hr. Qed.

(** What [Execute] has made when it returns a result. *)
Lemma Execute_ok plan digest h w r w' l :
  Execute plan digest h w = (Ok r, (w', l)) ->
  ResolvedRunPlan_Validate plan = Ok tt ∧ digest = emContentDigest (rpMeta plan) ∧
  exists runID w1 w2 now ledger0 ledger,
    env_NewID w = (Ok runID, w1) ∧ env_Now w1 = (now, w2) ∧
    Budget.New (rpBudget plan) now = Ok ledger0 ∧
    execute_plan plan runID (w2, ledger0) = (r, (w', ledger)) ∧ l = Some ledger.
Proof.
  unfold Execute. destruct (_;; _) as [[]|e] eqn:C; [|done].
  rewrite !bind_ok, wrap_ok, !err_if_ok in C. destruct C as (C1 & C2 & _).
  destruct (env_NewID w) as [[runID|] w1] eqn:E1; [|done].
  destruct (env_Now w1) as [now w2] eqn:E2.
  destruct (Budget.New (rpBudget plan) now) as [ledger0|] eqn:E3; [|done].
  destruct (execute_plan plan runID (w2, ledger0)) as [r' [w3 ledger]] eqn:E4. intros [= <- <- <-].
  split_and!; [done|by apply dec_stable|]. by exists runID, w1, w2, now, ledger0, ledger.
Qed.

(** [C5] A run settles its budget: whatever the runners answer, as long as
    they report no negative usage, when [Execute] returns every reservation
    it made has been committed, nothing stays reserved, the consumed account
    respects the plan's hard limits unless the ledger was marked exhausted,
    and finalizers stayed within the cleanup limits. *)
Theorem run_settles_its_budget plan digest h w r w' l
    (Hruns : usages_valid) (Hexec : Execute plan digest h w = (Ok r, (w', Some l))) :
  settled l ∧ (forall f, f ∈ fields -> f (reserved l) = 0) ∧
  (exhausted l = false -> within (consumed l) (Hard (rpBudget plan)) (Reservation_ (rpBudget plan))) ∧
  within (cleanupConsumed l) (Cleanup (rpBudget plan)) (mkTokenBudget 0 0).
Proof.
  destruct (Execute_ok _ _ _ _ _ _ _ Hexec)
    as (_ & _ & runID & w1 & w2 & now & l0 & l' & _ & _ & Hnew & Hx & [= <-]).
  assert (balanced (rpBudget plan) l0) as B0.
  { split; [by eapply New_inv|]. unfold Budget.New, mbind, result_bind in Hnew.
    destruct (BudgetPolicy_Validate _); [|done]. injection Hnew as <-. constructor. }
  pose proof (execute_plan_balanced (rpBudget plan) Hruns plan runID (w2, l0) B0) as H.
  unfold wp in H. rewrite Hx in H. simpl in H. destruct H as [[_ Hr Hc Hcl] Hs].
  split_and!; try done. intros f Hf. by rewrite Hr, held_settled.
Qed.
End Execution.
