(* ===== verification/ExecutorLog.v ===== *)
(** * internal/executor: the invocations and the cases of a run

    The environment with a log of the calls of [Runner.Run], and what the log
    and the reported cases say of each other, for every environment. *)
From Stdlib Require Import ZArith Ascii String Lia.
From stdpp Require Import base gmap sets list strings.
From S2P Require Import Prelude Schema Results Documents Budget Executor ExecutorSpec.
Local Open Scope Z_scope.
Local Open Scope string_scope.
Local Open Scope list_scope.

(** ** The logging environment *)
Definition quiet {W A} (f : W -> A * W) : W * list Invocation -> A * (W * list Invocation) :=
  fun '(w, log) => let '(a, w') := f w in (a, (w', log)).

Definition logged {W Runner} (env : Environment W Runner)
    : Environment (W * list Invocation) Runner := {|
  env_NewID := quiet env_NewID;
  env_Now := quiet env_Now;
  env_ctxErr := quiet env_ctxErr;
  env_Resolve pin := quiet (env_Resolve pin);
  env_ResolveFinalizer := (fun resolve plan => quiet (resolve plan)) <$> env_ResolveFinalizer;
  env_Estimate r d := quiet (env_Estimate r d);
  env_Run r inv := fun '(w, log) => let '(a, w') := env_Run r inv w in (a, (w', log ++ [inv]));
  env_Finalize r plan := quiet (env_Finalize r plan)
|}.

(** ** What a scenario leaves *)

(** The invocations of one scenario: one invocation identifier, attempts
    numbered from 1. *)
Definition segment_ok (plan : ResolvedRunPlan) (runID : InstanceID) (d : ScenarioDecision)
    (seg : list Invocation) : Prop :=
  exists iid, forall k inv, seg !! k = Some inv ->
    inv = mkInvocation runID iid (invAttemptID inv) (emContentDigest (rpMeta plan)) d (Z.of_nat k + 1).

Definition all_but_last {A} (P : A -> Prop) (l : list A) : Prop :=
  exists l1 l2, l = l1 ++ l2 ∧ Forall P l1 ∧ (length l2 <= 1)%nat.

(** The case and the attempts of one scenario. *)
Record reported (d : ScenarioDecision) (c : CaseResult) (attempts : list Attempt) : Prop := {
  rep_id : crScenarioID c = ScenarioID d;
  rep_disposition : crPlanDisposition c = Disposition d;
  rep_attempts : crAttemptIDs c = atAttemptID <$> attempts;
  rep_retries : all_but_last (fun a => atReasonCode a = ReasonTransientError) attempts;
  rep_evidence : Forall (fun ref => ObjectRef_Validate ref = Ok tt) (crEvidenceRefs c);
  rep_completed : Disposition d = DispositionExecute ->
    (crExecutionStatus c = ExecutionCompleted <-> crVerdict c <> None);
  rep_planned : Disposition d <> DispositionExecute -> c = plannedOnlyCase d;
  rep_verdict v : crVerdict c = Some v ->
    v ∈ [VerdictPass; VerdictFail; VerdictWarn; VerdictInconclusive] ∧ crEvidenceRefs c <> []
}.

Lemma appendUnique_valid P refs : forall dst,
  Forall P dst -> Forall P refs -> Forall P (appendUniqueEvidenceRefs dst refs).
Proof.
  induction refs as [|x refs IH]; intros dst Hd Hr; [done|]. cbn [appendUniqueEvidenceRefs].
  inversion Hr; subst. case_decide; apply IH; auto. apply Forall_app; auto.
Qed.

Lemma appendUnique_nonempty refs : forall dst,
  (dst <> [] ∨ refs <> []) -> appendUniqueEvidenceRefs dst refs <> [].
Proof.
  induction refs as [|x refs IH]; intros dst H; [by destruct H|]. cbn [appendUniqueEvidenceRefs].
  case_decide as D; apply IH; left; [|by destruct dst].
  intros ->. by apply elem_of_nil in D.
Qed.

Lemma validateEvidenceRefs_ok refs :
  validateEvidenceRefs refs = Ok tt <-> Forall (fun ref => ObjectRef_Validate ref = Ok tt) refs.
Proof. apply (enumerate_refs_ok (fun index => Wrapf _)). Qed.

Lemma validateOutcome_ok o :
  validateOutcome o = Ok tt ->
  ocVerdict o ∈ [VerdictPass; VerdictFail; VerdictWarn; VerdictInconclusive] ∧
  ocEvidenceRefs o <> [] ∧ Forall (fun ref => ObjectRef_Validate ref = Ok tt) (ocEvidenceRefs o).
Proof.
  unfold validateOutcome. rewrite !bind_ok, !err_if_ok, validateEvidenceRefs_ok.
  intros (V & N & R & _). split_and!; [|by intros E; rewrite E in N|done].
  rewrite !elem_of_cons.
  destruct (decide (ocVerdict o = VerdictPass)); [tauto|].
  destruct (decide (ocVerdict o = VerdictFail)); [tauto|].
  destruct (decide (ocVerdict o = VerdictWarn)); [tauto|].
  destruct (decide (ocVerdict o = VerdictInconclusive)); [tauto|]. exfalso. tauto.
Qed.

Lemma read_failure_evidence f :
  Forall (fun ref => ObjectRef_Validate ref = Ok tt) (frEvidence (read_failure f)).
Proof.
  unfold read_failure. destruct (errors_As f) as [t|]; [|constructor].
  destruct (validateEvidenceRefs (reEvidenceRefs t)) as [[]|] eqn:E;
    repeat case_match; simpl; try constructor; by apply validateEvidenceRefs_ok.
Qed.

Section Log.
Context {W Runner : Type} {env0 : Environment W Runner}.
#[local] Instance env : Environment (W * list Invocation) Runner := logged env0.

Abbreviation state := (W * list Invocation * Ledger)%type.

(** A call that is not [Run] leaves the log alone. *)
Lemma wp_quiet {A} (f : W -> A * W) (Q : A -> state -> Prop) w log l :
  (forall a w', Q a (w', log, l)) -> wp (world (quiet f)) Q (w, log, l).
Proof. intros H. rewrite wp_world. simpl. destruct (f w). apply H. Qed.

Lemma wp_quiet_ledger {E A} (f : GoM Ledger E A) (Q : result E A -> state -> Prop) wl l :
  (forall a l', Q a (wl, l')) -> wp (ledger_call f) Q (wl, l).
Proof. intros H. rewrite wp_ledger. apply H. Qed.

(** The log of [m] is unchanged and its answer satisfies [P]. *)
Definition silent {A} (m : ExM (W * list Invocation) A) (P : A -> Prop) : Prop :=
  forall w log l, wp m (fun a s => P a ∧ s.1.2 = log) (w, log, l).

Lemma silent_wp {A} (m : ExM (W * list Invocation) A) P (Q : A -> state -> Prop) w log l :
  silent m P -> (forall a w' l', P a -> Q a (w', log, l')) -> wp m Q (w, log, l).
Proof.
  intros Hm H. eapply wp_mono; [apply Hm|]. intros a [[w' log'] l'] [HP E]. simpl in E. subst.
  by apply H.
Qed.

Lemma silent_ret {A} (a : A) (P : A -> Prop) : P a -> silent (mret a) P.
Proof. intros H w log l. by rewrite wp_ret. Qed.
Lemma silent_bind {A B} (m : ExM (W * list Invocation) A) (k : A -> ExM _ B) P Q :
  silent m P -> (forall a, P a -> silent (k a) Q) -> silent (x ← m; k x) Q.
Proof.
  intros Hm Hk w log l. rewrite wp_bind. eapply silent_wp; [done|]. intros a w' l' HP. by apply Hk.
Qed.
Lemma silent_world {A} (f : W -> A * W) : silent (world (quiet f)) (fun _ => True).
Proof. intros w log l. by apply wp_quiet. Qed.
(** The source of identifiers fails at some point. *)
Definition ids_fail : Prop := exists w e w', env_NewID (Environment := env0) w = (Err e, w').

Lemma silent_NewID : silent NewID (fun r => match r with Ok _ => True | Err _ => ids_fail end).
Proof.
  intros w log l. unfold NewID. rewrite wp_world. cbn [env_NewID env logged quiet].
  destruct (env_NewID w) as [[id|e] w'] eqn:E; [done|]. split; [|done]. by exists w, e, w'.
Qed.
Lemma silent_ctxErr : silent ctxErr (fun _ => True).
Proof. apply silent_world. Qed.
Lemma silent_Commit p u : silent (ledger_Commit p u) (fun _ => True).
Proof.
  unfold ledger_Commit, Now. eapply silent_bind; [apply silent_world|]. intros now _ w log l.
  by apply wp_quiet_ledger.
Qed.
Lemma silent_Reserve u : silent (ledger_Reserve u) (fun _ => True).
Proof.
  unfold ledger_Reserve, Now. eapply silent_bind; [apply silent_world|]. intros now _ w log l.
  by apply wp_quiet_ledger.
Qed.
Lemma silent_ctx_is t : silent (ctx_is t) (fun _ => True).
Proof. unfold ctx_is. eapply silent_bind; [apply silent_ctxErr|]. intros. by apply silent_ret. Qed.

(** A transient class comes with the transient reason. *)
Lemma silent_reasonForError f :
  silent (reasonForError f) (fun rc => rc.2 = ErrorTransient -> rc.1 = ReasonTransientError).
Proof.
  unfold reasonForError. eapply silent_bind; [apply silent_ctxErr|]. intros [e|] _.
  - by apply silent_ret.
  - apply silent_ret. destruct (failure_Is f DeadlineExceeded); [done|].
    destruct (failure_Is f Canceled); [done|]. destruct (errors_As f) as [t|]; [|done]. simpl.
    intros E. rewrite E. done.
Qed.

(** ** One scenario *)
Definition transient (a : Attempt) : Prop := atReasonCode a = ReasonTransientError.
Definition refs_valid (refs : list ObjectRef) : Prop :=
  Forall (fun ref => ObjectRef_Validate ref = Ok tt) refs.

Lemma all_but_last_snoc {A} (P : A -> Prop) l x : Forall P l -> all_but_last P (l ++ [x]).
Proof. intros H. by exists l, [x]. Qed.
Lemma all_but_last_all {A} (P : A -> Prop) l : Forall P l -> all_but_last P l.
Proof. intros H. exists l, []. rewrite app_nil_r. split_and!; [done|done|simpl; lia]. Qed.

(** A case without a verdict. *)
Lemma reported_unfinished d ids status reason refs attempts :
  Disposition d = DispositionExecute -> status <> ExecutionCompleted ->
  ids = atAttemptID <$> attempts -> all_but_last transient attempts -> refs_valid refs ->
  reported d (set_crEvidenceRefs refs (caseForAttempts d ids status None reason [] [])) attempts.
Proof. intros Hd Hs -> Ht Hr. split; try done. Qed.

Record loop_inv (v : locals) : Prop := {
  li_ids : attemptIDs_ v = atAttemptID <$> attempts_ v;
  li_transient : Forall transient (attempts_ v);
  li_refs : refs_valid (caseEvidenceRefs_ v)
}.

(** The locals after the identifier of the current attempt was added. *)
Definition with_id (aid : InstanceID) (v : locals) : locals :=
  mkLocals (attempts_ v) (attemptIDs_ v ++ [aid]) (caseEvidenceRefs_ v).

Definition control_ok (d : ScenarioDecision) (v : locals) (c : control) : Prop :=
  match c with
  | Return c attempts => reported d c attempts ∧ attempts <> []
  | Continue v' => loop_inv v' ∧ length (attempts_ v') = S (length (attempts_ v))
  | Break v' => v' = v ∧ ids_fail
  end.

Section Scenario.
Variable d : ScenarioDecision.
Hypothesis Hd : Disposition d = DispositionExecute.

Lemma silent_on_failure mx n iid aid est p f v :
  loop_inv v -> silent (on_failure d mx n iid aid est p f (with_id aid v)) (control_ok d v).
Proof.
  intros [Hi Ht Hr]. unfold on_failure.
  assert (refs_valid (appendUniqueEvidenceRefs (caseEvidenceRefs_ v) (frEvidence (read_failure f)))) as Hrefs
    by (apply appendUnique_valid; [done|apply read_failure_evidence]).
  eapply silent_bind; [apply silent_Commit|]. intros _ _.
  eapply silent_bind; [apply silent_reasonForError|]. intros [reason class] Hclass. simpl in Hclass.
  eapply silent_bind; [apply silent_ctx_is|]. intros canceled _.
  eapply (silent_bind _ _ (fun _ => True)).
  { destruct canceled; [by apply silent_ret|apply silent_ctx_is]. }
  intros late _. case_decide as C.
  - apply silent_ret. split; [split; simpl|simpl; by rewrite length_app, Nat.add_1_r].
    + by rewrite fmap_app, Hi.
    + apply Forall_app. split; [done|]. repeat constructor. unfold transient. simpl. apply Hclass, C.
    + done.
  - apply silent_ret. simpl. split; [|simpl; by destruct (attempts_ v)].
    apply reported_unfinished; [done| | | |done].
    + by destruct late.
    + by rewrite fmap_app, Hi.
    + by apply all_but_last_snoc.
Qed.

Lemma silent_on_outcome iid aid est p o v :
  loop_inv v -> silent (on_outcome d iid aid est p o (with_id aid v)) (control_ok d v).
Proof.
  intros [Hi Ht Hr]. unfold on_outcome. destruct (validateOutcome o) as [[]|] eqn:V.
  - apply validateOutcome_ok in V as (V1 & V2 & V3).
    eapply silent_bind; [apply silent_Commit|]. intros commit _. apply silent_ret.
    assert (refs_valid (appendUniqueEvidenceRefs (caseEvidenceRefs_ v) (ocEvidenceRefs o))) as Hrefs
      by (by apply appendUnique_valid).
    split; [|simpl; by destruct (attempts_ v)]. split; simpl; try done.
    + by rewrite fmap_app, Hi.
    + by apply all_but_last_snoc.
    + intros v' [= <-]. split; [done|]. apply appendUnique_nonempty. by right.
  - eapply silent_bind; [apply silent_Commit|]. intros _ _. apply silent_ret.
    split; [|simpl; by destruct (attempts_ v)]. apply reported_unfinished; [done|done| | |].
    + simpl. by rewrite fmap_app, Hi.
    + by apply all_but_last_snoc.
    + apply appendUnique_valid; [done|].
      destruct (validateEvidenceRefs (ocEvidenceRefs o)) as [[]|] eqn:E; [|constructor].
      by apply validateEvidenceRefs_ok.
Qed.

(** The invocations logged so far for this scenario. *)
Definition seg_inv (plan : ResolvedRunPlan) (runID iid : InstanceID) (v : locals)
    (seg : list Invocation) : Prop :=
  length seg = length (attempts_ v) ∧
  forall k inv, seg !! k = Some inv ->
    inv = mkInvocation runID iid (invAttemptID inv) (emContentDigest (rpMeta plan)) d (Z.of_nat k + 1).

Lemma seg_inv_snoc plan runID iid v seg aid n v' :
  seg_inv plan runID iid v seg -> n = Z.of_nat (length (attempts_ v)) + 1 ->
  length (attempts_ v') = S (length (attempts_ v)) ->
  seg_inv plan runID iid v'
    (seg ++ [mkInvocation runID iid aid (emContentDigest (rpMeta plan)) d n]).
Proof.
  intros [Hl Hs] -> Hv. split; [rewrite length_app; simpl; lia|]. intros k inv.
  rewrite lookup_app_Some. intros [?|[Hk Hk2]]; [by apply Hs|].
  apply list_lookup_singleton_Some in Hk2 as [? <-]. simpl. f_equal. lia.
Qed.

Lemma run_attempt_log plan runID r mx iid n v w log0 seg l :
  loop_inv v -> seg_inv plan runID iid v seg -> n = Z.of_nat (length (attempts_ v)) + 1 ->
  wp (run_attempt runID plan d r mx iid n v)
    (fun c s => control_ok d v c ∧ exists seg', s.1.2 = log0 ++ seg' ∧
       match c with
       | Continue v' => seg_inv plan runID iid v' seg'
       | _ => segment_ok plan runID d seg' ∧ (length seg' <= S (length (attempts_ v)))%nat
       end)
    (w, log0 ++ seg, l).
Proof.
  intros Hv Hs Hn. unfold run_attempt.
  assert (segment_ok plan runID d seg) as Hseg by (exists iid; apply Hs).
  assert (length seg <= S (length (attempts_ v)))%nat as Hlen by (destruct Hs; lia).
  rewrite wp_bind. eapply silent_wp; [apply silent_NewID|]. intros [aid|] w1 l1 Hid.
  2: { rewrite wp_ret. split; [done|]. by exists seg. }
  rewrite wp_bind. eapply silent_wp; [apply silent_world|]. intros [est|] w2 l2 _.
  2: { rewrite wp_ret. split; [|by exists seg]. destruct Hv as [Hi Ht Hr].
       split; [|simpl; by destruct (attempts_ v)].
       apply (reported_unfinished d _ _ _ []); [done|done| | |constructor].
       - simpl. by rewrite fmap_app, Hi.
       - by apply all_but_last_snoc. }
  rewrite wp_bind. eapply silent_wp; [apply silent_Reserve|]. intros [p|] w3 l3 _.
  2: { rewrite wp_ret. split; [|by exists seg]. destruct Hv as [Hi Ht Hr].
       split; [|simpl; by destruct (attempts_ v)].
       apply (reported_unfinished d _ _ _ []); [done|done| | |constructor].
       - simpl. by rewrite fmap_app, Hi.
       - by apply all_but_last_snoc. }
  rewrite wp_bind, wp_world. cbn [env_Run logged env].
  destruct (env_Run r _ w3) as [ran w4]. cbn [fst snd]. rewrite <- app_assoc.
  set (inv := mkInvocation runID iid aid (emContentDigest (rpMeta plan)) d n).
  assert (forall v', length (attempts_ v') = S (length (attempts_ v)) ->
    seg_inv plan runID iid v' (seg ++ [inv])) as Hs' by (intros; by apply (seg_inv_snoc _ _ _ v)).
  assert (segment_ok plan runID d (seg ++ [inv]) ∧
          (length (seg ++ [inv]) <= S (length (attempts_ v)))%nat) as Hend.
  { specialize (Hs' (mkLocals (repeat (erroredAttempt "" "" (Driver d) "") (S (length (attempts_ v)))) [] [])).
    destruct Hs' as [? ?]; [simpl; by rewrite repeat_length|]. split; [by exists iid|].
    simpl in *. rewrite repeat_length in *. lia. }
  assert (forall m, silent m (control_ok d v) ->
    wp m (fun c s => control_ok d v c ∧ exists seg', s.1.2 = log0 ++ seg' ∧
       match c with
       | Continue v' => seg_inv plan runID iid v' seg'
       | _ => segment_ok plan runID d seg' ∧ (length seg' <= S (length (attempts_ v)))%nat
       end) (w4, log0 ++ seg ++ [inv], l3)) as Hgo.
  { intros m Hm. eapply silent_wp; [exact Hm|]. intros c w' l' Hc. split; [done|].
    exists (seg ++ [inv]). split; [done|]. destruct c as [| v'|]; [done| |done].
    apply Hs', Hc. }
  destruct ran as [o|f]; apply Hgo; [by apply silent_on_outcome|by apply silent_on_failure].
Qed.

Lemma attempt_loop_log plan runID r mx iid M fuel : forall n v w log0 seg l,
  loop_inv v -> seg_inv plan runID iid v seg -> n = Z.of_nat (length (attempts_ v)) + 1 ->
  (length (attempts_ v) + fuel <= M)%nat ->
  wp (attempt_loop runID plan d r mx iid fuel n v)
    (fun ca s => reported d ca.1 ca.2 ∧
       (ca.2 = [] -> ids_fail ∨ (length (attempts_ v) + fuel = 0)%nat) ∧
       exists seg', s.1.2 = log0 ++ seg' ∧ segment_ok plan runID d seg' ∧ (length seg' <= M)%nat)
    (w, log0 ++ seg, l).
Proof.
  assert (forall v, loop_inv v -> reported d
    (caseForAttempts d (attemptIDs_ v) ExecutionErrored None ReasonHarnessError [] []) (attempts_ v))
    as Hafter.
  { intros v [Hi Ht Hr]. apply (reported_unfinished d _ _ _ []); try done.
    - by apply all_but_last_all.
    - constructor. }
  induction fuel as [|fuel IH]; intros n v w log0 seg l Hv Hs Hn HM; cbn [attempt_loop].
  - rewrite wp_ret. split_and!; [by apply Hafter| |].
    + intros E. right. simpl in E. by rewrite E.
    + exists seg. split_and!; [done|by exists iid; apply Hs|destruct Hs; lia].
  - rewrite wp_bind. eapply wp_mono; [by apply run_attempt_log|].
    intros c [[w' log'] l'] [Hc (seg' & E & Hseg)]. simpl in E. subst log'.
    destruct c as [c atts|v'|v'].
    + rewrite wp_ret. destruct Hc as [Hc Hne]. destruct Hseg as [H1 H2].
      split_and!; [done|done|]. exists seg'. split_and!; [done|done|lia].
    + destruct Hc as [Hv' Hlen]. eapply wp_mono.
      * apply IH; [done|done|lia|lia].
      * intros ca s (H1 & H2 & H3). split_and!; [done| |done].
        intros E. destruct (H2 E) as [?|?]; [by left|lia].
    + rewrite wp_ret. destruct Hc as [-> Hf]. destruct Hseg as [H1 H2].
      split_and!; [by apply Hafter|by left|]. exists seg'. split_and!; [done|done|lia].
Qed.

(** At most one attempt more than the retries the plan allows. *)
Definition max_attempts (plan : ResolvedRunPlan) : Z := int64_wrap (Retries (rpRuntime plan) + 1).

Definition scenario_post (plan : ResolvedRunPlan) (runID : InstanceID) (log0 : list Invocation)
    (c : CaseResult) (attempts : list Attempt) (s : state) : Prop :=
  reported d c attempts ∧ (attempts = [] -> ids_fail ∨ max_attempts plan <= 0) ∧
  exists seg, s.1.2 = log0 ++ seg ∧ segment_ok plan runID d seg ∧
    (length seg <= Z.to_nat (max_attempts plan))%nat.

Lemma nonRunAttempt_post plan runID status reason w log l :
  status <> ExecutionCompleted ->
  wp (nonRunAttempt d status reason)
    (fun ca s => scenario_post plan runID log ca.1 [ca.2] s) (w, log, l).
Proof.
  intros Hst. unfold nonRunAttempt.
  rewrite wp_bind. eapply silent_wp; [apply silent_NewID|]. intros iid w1 l1 _.
  rewrite wp_bind. eapply silent_wp; [apply silent_NewID|]. intros aid w2 l2 _.
  rewrite wp_ret. split_and!; [|done|].
  - apply (reported_unfinished d _ _ _ []); try done; [|constructor].
    apply (all_but_last_snoc _ []). constructor.
  - exists []. rewrite app_nil_r. split_and!; [done|by exists ""|simpl; lia].
Qed.

Lemma runScenario_post plan runID r w log l :
  wp (runScenario runID plan d r) (fun ca s => scenario_post plan runID log ca.1 ca.2 s) (w, log, l).
Proof.
  unfold runScenario. rewrite wp_bind. eapply silent_wp; [apply silent_NewID|].
  intros [iid|] w1 l1 Hid.
  - pose proof (attempt_loop_log plan runID r (max_attempts plan) iid
      (Z.to_nat (max_attempts plan)) (Z.to_nat (max_attempts plan)) 1 (mkLocals [] [] [])
      w1 log [] l1) as H.
    rewrite app_nil_r in H. eapply wp_mono; [apply H|].
    + split; done || constructor.
    + split; done.
    + done.
    + simpl. done.
    + intros ca s (H1 & H2 & H3). split_and!; [done| |done]. intros E.
      destruct (H2 E) as [?|H4]; [by left|right]. simpl in H4. lia.
  - rewrite wp_bind. eapply wp_mono; [by apply nonRunAttempt_post|]. intros [c a] s H.
    by rewrite wp_ret.
Qed.
End Scenario.

(** ** The whole plan *)
Definition passed (c : CaseResult) : Prop :=
  crExecutionStatus c = ExecutionCompleted ∧
  exists v, crVerdict c = Some v ∧ v <> VerdictFail ∧ v <> VerdictInconclusive.

Lemma failedDependency_passed d states :
  "" ∉ DependsOn d -> failedDependency d states = "" ->
  forall dep, dep ∈ DependsOn d -> exists c, states !! dep = Some c ∧ passed c.
Proof.
  intros Hne. unfold failedDependency.
  destruct (list_find _ (DependsOn d)) as [[i x]|] eqn:F; simpl.
  - intros ->. apply list_find_Some in F as (F & _ & _). exfalso. apply Hne.
    by eapply list_elem_of_lookup_2.
  - intros _ dep Hdep. apply list_find_None in F. rewrite Forall_forall in F.
    specialize (F dep Hdep). unfold dependency_failed in F.
    destruct (states !! dep) as [c|]; [|done]. exists c. split; [done|].
    destruct (decide (crExecutionStatus c = ExecutionCompleted)) as [E|E];
      [|by rewrite bool_decide_true in F].
    rewrite bool_decide_false in F by (intros G; by apply G). cbn in F.
    split; [done|]. destruct (crVerdict c) as [v|]; [|done]. exists v.
    apply not_true_is_false, orb_false_iff in F as [F1 F2].
    apply bool_decide_eq_false in F1, F2. done.
Qed.

Definition decision_post (plan : ResolvedRunPlan) (runID : InstanceID) (d : ScenarioDecision)
    (states : gmap string CaseResult) (log0 : list Invocation) (c : CaseResult)
    (attempts : list Attempt) (s : state) : Prop :=
  reported d c attempts ∧
  (Disposition d = DispositionExecute -> attempts = [] -> ids_fail ∨ max_attempts plan <= 0) ∧
  exists seg, s.1.2 = log0 ++ seg ∧ segment_ok plan runID d seg ∧
    (length seg <= Z.to_nat (max_attempts plan))%nat ∧
    (seg <> [] -> Disposition d = DispositionExecute ∧
       forall dep, dep ∈ DependsOn d -> exists c, states !! dep = Some c ∧ passed c).

Lemma planned_post plan runID d states log w l :
  Disposition d <> DispositionExecute ->
  decision_post plan runID d states log (plannedOnlyCase d) [] (w, log, l).
Proof.
  intros Hd. split_and!; [|done|].
  - split; try done. by apply all_but_last_all.
  - exists []. rewrite app_nil_r. split_and!; [done|by exists ""|simpl; lia|done].
Qed.

(** An attempt that was never run. *)
Lemma nonrun_decision_post plan runID d states log status reason (err : option error) w l :
  Disposition d = DispositionExecute -> status <> ExecutionCompleted ->
  wp ('(c, attempt) ← nonRunAttempt d status reason; mret (c, [attempt], err))
    (fun r s => decision_post plan runID d states log r.1.1 r.1.2 s) (w, log, l).
Proof.
  intros Hd Hst. unfold nonRunAttempt. rewrite wp_bind.
  rewrite wp_bind. eapply silent_wp; [apply silent_NewID|]. intros iid w1 l1 _.
  rewrite wp_bind. eapply silent_wp; [apply silent_NewID|]. intros aid w2 l2 _.
  rewrite !wp_ret. split_and!; [|done|].
  - apply (reported_unfinished d _ _ _ []); try done; [|constructor].
    apply (all_but_last_snoc _ []). constructor.
  - exists []. rewrite app_nil_r. split_and!; [done|by exists ""|simpl; lia|done].
Qed.

Lemma run_decision_post plan runID d states w log l :
  "" ∉ DependsOn d ->
  wp (run_decision runID plan d states)
    (fun r s => decision_post plan runID d states log r.1.1 r.1.2 s) (w, log, l).
Proof.
  intros Hdeps. unfold run_decision. rewrite wp_bind.
  eapply silent_wp; [apply silent_ctxErr|]. intros [err|] w1 l1 _.
  - case_decide as Hd; [by apply nonrun_decision_post|]. rewrite wp_ret. by apply planned_post.
  - case_decide as Hd; [rewrite wp_ret; by apply planned_post|].
    case_decide as Hf; [by apply nonrun_decision_post|].
    rewrite wp_bind. eapply silent_wp; [apply silent_world|]. intros [r|] w2 l2 _;
      [|by apply nonrun_decision_post].
    rewrite wp_bind. eapply wp_mono; [by apply runScenario_post|].
    intros [c atts] [[w3 log3] l3] (H1 & H2 & seg & E & H3 & H4). simpl in E, H1, H2. subst log3.
    assert (forall w' l', decision_post plan runID d states log c atts (w', log ++ seg, l')) as G.
    { intros w' l'. split_and!; [done|auto|]. exists seg. split_and!; try done. intros _.
      split; [done|]. by apply failedDependency_passed. }
    case_decide; [|by rewrite wp_ret].
    rewrite wp_bind. eapply silent_wp; [apply silent_ctxErr|]. intros e w4 l4 _.
    rewrite wp_ret. apply G.
Qed.

(** Everything known of the first scenarios of the plan. *)
Record progress (plan : ResolvedRunPlan) (runID : InstanceID) (ds : list ScenarioDecision)
    (cases : list CaseResult) (attss : list (list Attempt)) (segs : list (list Invocation))
    : Prop := {
  pg_cases : length cases = length ds;
  pg_attempts : length attss = length ds;
  pg_segs : length segs = length ds;
  pg_each i d : ds !! i = Some d -> exists c seg attempts,
    cases !! i = Some c ∧ segs !! i = Some seg ∧ attss !! i = Some attempts ∧
    reported d c attempts ∧
    (Disposition d = DispositionExecute -> attempts = [] -> ids_fail ∨ max_attempts plan <= 0) ∧
    segment_ok plan runID d seg ∧ (length seg <= Z.to_nat (max_attempts plan))%nat ∧
    (seg <> [] -> Disposition d = DispositionExecute ∧
       forall dep, dep ∈ DependsOn d -> exists j c', (j < i)%nat ∧ cases !! j = Some c' ∧
         crScenarioID c' = dep ∧ passed c')
}.

Definition states_of (cases : list CaseResult) (states : gmap string CaseResult) : Prop :=
  forall id c, states !! id = Some c -> exists j, cases !! j = Some c ∧ crScenarioID c = id.

Lemma progress_snoc plan runID ds d cases attss segs states c seg attempts :
  progress plan runID ds cases attss segs -> states_of cases states ->
  reported d c attempts ->
  (Disposition d = DispositionExecute -> attempts = [] -> ids_fail ∨ max_attempts plan <= 0) ->
  segment_ok plan runID d seg -> (length seg <= Z.to_nat (max_attempts plan))%nat ->
  (seg <> [] -> Disposition d = DispositionExecute ∧
     forall dep, dep ∈ DependsOn d -> exists c, states !! dep = Some c ∧ passed c) ->
  progress plan runID (ds ++ [d]) (cases ++ [c]) (attss ++ [attempts]) (segs ++ [seg]) ∧
  states_of (cases ++ [c]) (<[ScenarioID d := c]> states).
Proof.
  intros [P1 P0 P2 P3] Hst Hr Hn Hs Hl Hd. split; [split|]; rewrite ?length_app; simpl; try lia.
  - intros i d'. rewrite lookup_app_Some. intros [Hi|[Hi Hi2]].
    + destruct (P3 i d' Hi) as (c' & seg' & atts & H1 & H2 & H0 & H3 & H4 & H5 & H6 & H7).
      exists c', seg', atts. split_and!; try done; [by apply lookup_app_l_Some..|].
      intros Hne. destruct (H7 Hne) as [? H8]. split; [done|]. intros dep Hdep.
      destruct (H8 dep Hdep) as (j & c2 & Hj & Hc & ?). exists j, c2.
      split_and!; try done; [by apply lookup_app_l_Some|tauto|tauto].
    + apply list_lookup_singleton_Some in Hi2 as [Hz <-].
      assert (i = length ds) as -> by lia. exists c, seg, attempts.
      split_and!; try done; [rewrite <- P1; by apply list_lookup_middle
        |rewrite <- P2; by apply list_lookup_middle|rewrite <- P0; by apply list_lookup_middle|].
      intros Hne. destruct (Hd Hne) as [? H8]. split; [done|]. intros dep Hdep.
      destruct (H8 dep Hdep) as (c2 & Hc & Hp). destruct (Hst dep c2 Hc) as (j & Hj & Hid).
      exists j, c2. split_and!; try done; [|by apply lookup_app_l_Some].
      apply lookup_lt_Some in Hj. lia.
  - intros id c'. destruct (decide (id = ScenarioID d)) as [->|Hne].
    + rewrite lookup_insert_eq. intros [= <-]. exists (length cases).
      split; [by apply list_lookup_middle|apply Hr].
    + rewrite lookup_insert_ne by done. intros Hc. destruct (Hst id c' Hc) as (j & Hj & Hid).
      exists j. split; [by apply lookup_app_l_Some|done].
Qed.

Lemma concat_snoc {A} (ls : list (list A)) l : concat (ls ++ [l]) = concat ls ++ l.
Proof. rewrite concat_app. simpl. by rewrite app_nil_r. Qed.

Lemma scenario_loop_post plan runID rest : forall ds cases attss segs states err w l,
  Forall (fun d => "" ∉ DependsOn d) rest ->
  progress plan runID ds cases attss segs -> states_of cases states ->
  wp (scenario_loop runID plan rest (concat attss) cases states err)
    (fun r s => exists attss' segs', r.1.1 = concat attss' ∧ s.1.2 = concat segs' ∧
       progress plan runID (ds ++ rest) r.1.2 attss' segs') (w, concat segs, l).
Proof.
  induction rest as [|d rest IH]; intros ds cases attss segs states err w l Hne Hp Hs;
    cbn [scenario_loop].
  - rewrite wp_ret, app_nil_r. by exists attss, segs.
  - inversion Hne; subst. rewrite wp_bind.
    eapply wp_mono; [by apply run_decision_post|].
    intros [[c more] e] [[w' log'] l'] (H1' & H2' & seg & E & H3 & H4 & H5). simpl in E, H1', H2'.
    destruct (progress_snoc plan runID ds d cases attss segs states c seg more) as [Hp' Hs']; try done.
    subst log'. rewrite <- !concat_snoc.
    replace (ds ++ d :: rest) with ((ds ++ [d]) ++ rest) by (by rewrite <- app_assoc).
    by apply IH.
Qed.

(** Cleaning up calls no runner's [Run]. *)
Lemma silent_finalize plans : forall residual, silent (finalize_list plans residual) (fun _ => True).
Proof.
  induction plans as [|p plans IH]; intros residual; cbn [finalize_list]; [by apply silent_ret|].
  apply (silent_bind _ _ (fun _ => True)); [|intros; apply IH]. unfold finalize_one.
  eapply (silent_bind _ _ (fun _ => True)).
  { cbn [env_ResolveFinalizer env logged]. destruct env_ResolveFinalizer; cbn;
      [apply silent_world|by apply silent_ret]. }
  intros [r|] _; [|by apply silent_ret].
  eapply silent_bind; [apply silent_world|]. intros [u|] _; [|by apply silent_ret].
  eapply (silent_bind _ _ (fun _ => True)); [intros w log l; by apply wp_quiet_ledger|].
  intros [] _; by apply silent_ret.
Qed.

Lemma execute_plan_post plan runID w l :
  Forall (fun d => "" ∉ DependsOn d) (rpScenarios plan) ->
  wp (execute_plan plan runID)
    (fun r s => exRunID r.1 = runID ∧ exists attss segs,
       exAttempts r.1 = concat attss ∧ s.1.2 = concat segs ∧
       progress plan runID (rpScenarios plan) (exCases r.1) attss segs) (w, [], l).
Proof.
  intros Hne. unfold execute_plan, Now. rewrite wp_bind.
  eapply silent_wp; [apply silent_world|]. intros t w1 l1 _. rewrite wp_bind.
  eapply wp_mono.
  - apply (scenario_loop_post plan runID (rpScenarios plan) [] [] [] []); [done| |].
    + split; done.
    + intros id c Hc. by rewrite lookup_empty in Hc.
  - intros [[atts cases] err] [[w2 log2] l2] (attss & segs & Ea & E & Hp). simpl in E, Ea, Hp.
    subst log2. unfold finalize. rewrite wp_bind.
    eapply silent_wp; [apply silent_finalize|]. intros res w3 l3 _.
    unfold ledger_Snapshot, Now. rewrite wp_bind. eapply (silent_wp _ (fun _ => True)).
    { eapply silent_bind; [apply silent_world|]. intros now _ w' log l'. by apply wp_quiet_ledger. }
    intros snap w4 l4 _. rewrite wp_bind. eapply silent_wp; [apply silent_world|].
    intros t' w5 l5 _. rewrite wp_ret. split; [done|]. by exists attss, segs.
Qed.
End Log.
