(* ===== verification/ExecutorRun.v ===== *)
(** * internal/executor: the theorems on a whole run

    What the cases, the attempts and the invocations of [Execute] say of the
    plan, for every environment, with a concrete environment (a runner that
    fails once and then passes) on which they are evaluated. *)
From Stdlib Require Import ZArith Ascii String Lia.
From stdpp Require Import base gmap sets list strings.
From S2P Require Import Prelude Schema Results Canonical Documents Budget Executor ExecutorSpec ExecutorLog.
Local Open Scope Z_scope.
Local Open Scope string_scope.
Local Open Scope list_scope.

Section Run.
Context {lib : DocumentLibrary} {ro : RangeOrder string string}.

(** What a plan that validates says of its scenarios. *)
Lemma plan_valid plan :
  ResolvedRunPlan_Validate plan = Ok tt ->
  0 <= Retries (rpRuntime plan) ∧ Forall decision_wf (rpScenarios plan) ∧
  Forall (fun d => "" ∉ DependsOn d) (rpScenarios plan).
Proof.
  unfold ResolvedRunPlan_Validate. rewrite !bind_ok, !err_if_ok, validateScenarioDAG_ok.
  intros (_ & _ & _ & _ & _ & _ & Hr & _ & _ & Hwf & _ & Hdag). split_and!; [lia|done|].
  apply Forall_lookup. intros i d Hi Hempty.
  destruct (Hdag i d "" Hi Hempty) as (j & d' & _ & Hd' & Hid).
  rewrite Forall_lookup in Hwf. destruct (Hwf j d' Hd') as [Hname _]. by rewrite Hid in Hname.
Qed.
Lemma max_attempts_wrap plan :
  0 <= Retries (rpRuntime plan) < 2 ^ 63 - 1 -> max_attempts plan = Retries (rpRuntime plan) + 1.
Proof. intros H. unfold max_attempts, int64_wrap. rewrite Z.mod_small; lia. Qed.

(** The result of a run under the logging environment. *)
Lemma Execute_progress {W Runner} (env0 : Environment W Runner) plan digest h w r w' log l :
  Execute (env := logged env0) plan digest h (w, []) = (Ok r, (w', log, l)) ->
  ResolvedRunPlan_Validate plan = Ok tt ∧ exists attss segs,
    exAttempts r.1 = concat attss ∧ log = concat segs ∧
    progress (env0 := env0) plan (exRunID r.1) (rpScenarios plan) (exCases r.1) attss segs.
Proof.
  intros H. apply Execute_ok in H
    as (Hv & _ & runID & [w1 log1] & [w2 log2] & now & l0 & l' & Hid & Hnow & _ & Hx & _).
  split; [done|]. cbn in Hid, Hnow. destruct (env_NewID w) as [id w3]. injection Hid as -> -> <-.
  destruct (env_Now w1) as [t w4]. injection Hnow as -> -> <-.
  destruct (plan_valid plan Hv) as (_ & _ & Hne).
  pose proof (execute_plan_post (env0 := env0) plan runID w2 l0 Hne) as P.
  unfold wp in P. unfold env in P. rewrite Hx in P. cbn [fst snd] in P.
  destruct P as (<- & attss & segs & H1 & H2 & H3). by exists attss, segs.
Qed.

(** A reported case of a well-formed decision passes the result validator. *)
Lemma reported_valid d c attempts :
  decision_wf d -> reported d c attempts ->
  (Disposition d = DispositionExecute -> attempts <> []) -> CaseResult_Validate c = Ok tt.
Proof.
  intros (Hn & _ & Hr & _) R Ha. apply CaseResult_Validate_ok. split_and!.
  - rewrite (rep_id _ _ _ R). intros E. by rewrite E in Hn.
  - rewrite (rep_disposition _ _ _ R). intros E. split; [|by apply R].
    rewrite (rep_attempts _ _ _ R). intros E'. apply (Ha E). by apply fmap_nil_inv in E'.
  - rewrite (rep_disposition _ _ _ R). intros E. rewrite (rep_planned _ _ _ R E). simpl.
    split_and!; try done. by apply Hr.
  - apply R.
Qed.

(** [C6] A run reports every scenario of its plan: whenever [Execute] returns a
    result, it has one case per scenario, in the plan's order, with its
    identifier and disposition; the reported attempts are, case by case, those
    the case names; every attempt of a case but its last ended with a
    transient error; a case has a verdict exactly when it completed, which
    only an executed scenario does, and then it has evidence; and every case
    passes the validator of case results when identifiers can be made and the
    plan asks for fewer than 2^63-1 retries. *)
Theorem run_reports_every_scenario {W Runner} (env0 : Environment W Runner) plan digest h w r w' log l
    (Hexec : Execute (env := logged env0) plan digest h (w, []) = (Ok r, (w', log, l))) :
  exists attss, exAttempts r.1 = concat attss ∧ length attss = length (rpScenarios plan) ∧
    length (exCases r.1) = length (rpScenarios plan) ∧
    forall i d, rpScenarios plan !! i = Some d -> exists c attempts,
      exCases r.1 !! i = Some c ∧ attss !! i = Some attempts ∧
      crScenarioID c = ScenarioID d ∧ crPlanDisposition c = Disposition d ∧
      crAttemptIDs c = atAttemptID <$> attempts ∧
      all_but_last (fun a => atReasonCode a = ReasonTransientError) attempts ∧
      (is_Some (crVerdict c) <-> crExecutionStatus c = ExecutionCompleted) ∧
      (is_Some (crVerdict c) -> Disposition d = DispositionExecute ∧ crEvidenceRefs c <> []) ∧
      ((forall w0, exists id w1, env_NewID w0 = (Ok id, w1)) -> Retries (rpRuntime plan) < 2 ^ 63 - 1 ->
       CaseResult_Validate c = Ok tt).
Proof.
  destruct (Execute_progress _ _ _ _ _ _ _ _ _ Hexec) as (Hv & attss & segs & Ha & _ & [P1 P2 _ P]).
  destruct (plan_valid plan Hv) as (H0 & Hwf & _).
  exists attss. split_and!; [done..|]. intros i d Hi.
  destruct (P i d Hi) as (c & seg & attempts & Hc & _ & Hatt & R & Hne & _).
  assert (decision_wf d) as Hd by (rewrite Forall_lookup in Hwf; by eapply Hwf).
  exists c, attempts. split_and!; try done; try apply R.
  - destruct (decide (Disposition d = DispositionExecute)) as [D|D].
    + by rewrite (rep_completed _ _ _ R D), <- not_eq_None_Some.
    + rewrite (rep_planned _ _ _ R D). split; [by intros [? ?]|done].
  - intros [v E]. split; [|by apply (rep_verdict _ _ _ R v)]. apply dec_stable. intros D.
    by rewrite (rep_planned _ _ _ R D) in E.
  - intros Hids Hretries. eapply reported_valid; [done..|]. intros E E'.
    destruct (Hne E E') as [(w1 & e & w2 & F)|Hm].
    + destruct (Hids w1) as (id & w3 & G). congruence.
    + rewrite max_attempts_wrap in Hm; lia.
Qed.

(** [C7] Runners are called in the plan's order and only when they may be:
    the log of the calls of [Runner.Run] splits into one segment per
    scenario, in order; a segment has one invocation identifier, the run's
    identifier, the plan's digest and attempts numbered 1, 2, ..., at most
    one more than the plan's retries; and a scenario with a call is planned
    for execution and each of its dependencies is an earlier scenario that
    completed with a verdict other than fail or inconclusive. *)
Theorem runners_called_in_order {W Runner} (env0 : Environment W Runner) plan digest h w r w' log l
    (Hretries : Retries (rpRuntime plan) < 2 ^ 63 - 1)
    (Hexec : Execute (env := logged env0) plan digest h (w, []) = (Ok r, (w', log, l))) :
  exists segs, log = concat segs ∧ length segs = length (rpScenarios plan) ∧
    forall i d seg, rpScenarios plan !! i = Some d -> segs !! i = Some seg ->
      segment_ok plan (exRunID r.1) d seg ∧
      Z.of_nat (length seg) <= Retries (rpRuntime plan) + 1 ∧
      (seg <> [] -> Disposition d = DispositionExecute ∧
         forall dep, dep ∈ DependsOn d -> exists j c, (j < i)%nat ∧ exCases r.1 !! j = Some c ∧
           crScenarioID c = dep ∧ passed c).
Proof.
  destruct (Execute_progress _ _ _ _ _ _ _ _ _ Hexec) as (Hv & attss & segs & _ & Hlog & [_ _ P2 P]).
  destruct (plan_valid plan Hv) as (H0 & _ & _).
  exists segs. split_and!; [done..|]. intros i d seg Hi Hs.
  destruct (P i d Hi) as (c & seg' & attempts & _ & Hs' & _ & _ & _ & Hok & Hlen & Hdep).
  assert (seg' = seg) as -> by congruence. split_and!; [done| |done].
  rewrite max_attempts_wrap in Hlen; lia.
Qed.
End Run.

(** ** A concrete run *)
Definition sample_digest : Digest :=
  "sha256:0123456789abcdef0123456789abcdef0123456789abcdef0123456789abcdef".
Definition sample_id : InstanceID := "01890000-0000-7000-8000-000000000000".
#[local] Program Instance sample_json : JSONLibrary := {
  NewDecoder _ := mkDecoder [] (ErrorNew (Text "EOF")) false;
  jcs_Transform bytes := Ok bytes;
  Sum256 _ := repeat "0"%char 32
}.
Next Obligation. done. Qed.
#[local] Instance sample_documents : DocumentLibrary := {
  json_Valid _ := true;
  url_Parse _ := Err (ErrorNew (Text "no URL"))
}.

Definition sample_driver : ArtifactPin := mkArtifactPin "Driver" "raw" "1" sample_digest.
Definition sample_decision (id disposition reason : string) (deps : list string) : ScenarioDecision :=
  mkScenarioDecision id disposition reason sample_driver deps.
Definition sample_ref : ObjectRef := mkObjectRef "ResolvedRunPlan" sample_id sample_digest.
Definition sample_plan : ResolvedRunPlan := {|
  rpMeta := mkEnvelopeMeta (SchemaNamespace +:+ "plan") "ResolvedRunPlan" sample_id sample_digest sample_ref
              (mkProducer "doctor" "1" sample_digest) 7 ∅;
  rpResolvedPlanID := sample_id;
  rpIntentPlanRef := sample_ref;
  rpResolver := sample_driver;
  rpCapabilityObservationRefs := [];
  rpSupportLockDigest := sample_digest;
  rpArtifacts := [sample_driver];
  rpTarget := mkTargetResolution "" sample_digest "" "" "" "";
  rpScenarios := [sample_decision "first" DispositionExecute "" [];
                  sample_decision "second" DispositionExecute "" ["first"];
                  sample_decision "third" DispositionSkip "unsupported" []];
  rpDenominatorDigest := sample_digest;
  rpBudget := sample_policy;
  rpRuntime := mkRuntimePolicy 1 2 5 "" "" "";
  rpFinalizers := []
|}.

(** The world counts the runner's calls; the first fails. *)
#[local] Instance sample_env : Environment nat unit := {
  env_NewID w := (Ok sample_id, w);
  env_Now w := (9, w);
  env_ctxErr w := (None, w);
  env_Resolve _ w := (Ok tt, w);
  env_ResolveFinalizer := None;
  env_Estimate _ _ w := (Ok sample_usage, w);
  env_Run _ _ w :=
    (match w with
     | O => Err (TypedError (mkRunError ErrorTransient usage_zero false [] []) None)
     | S _ => Ok (mkOutcome VerdictPass "" [sample_ref] [] [] sample_usage [])
     end, S w);
  env_Finalize _ _ w := (Ok usage_zero, w)
}.

Definition sample_run : result error (ExecutionResult * option error) *
    (nat * list Invocation * option Ledger) :=
  Execute (env := logged sample_env) sample_plan sample_digest true (0%nat, []).
Definition sample_result : ExecutionResult * option error :=
  match sample_run.1 with
  | Ok r => r
  | Err _ => (mkExecutionResult "" sample_ref [] [] None [] 0 0, None)
  end.

Example sample_run_calls : invAttemptNumber <$> sample_run.2.1.2 = [1; 2; 1].
Proof. vm_compute. reflexivity. Qed.

Lemma run_reports_every_scenario_witness :
  exists attss, exAttempts sample_result.1 = concat attss ∧ length attss = 3%nat ∧
    length (exCases sample_result.1) = 3%nat.
Proof.
  destruct (run_reports_every_scenario sample_env sample_plan sample_digest true 0%nat
    sample_result 3%nat sample_run.2.1.2 sample_run.2.2) as (attss & H1 & H2 & H3 & _).
  - vm_compute. reflexivity.
  - exists attss. exact (conj H1 (conj H2 H3)).
Defined.

Lemma runners_called_in_order_witness :
  exists segs, sample_run.2.1.2 = concat segs ∧ length segs = 3%nat.
Proof.
  destruct (runners_called_in_order sample_env sample_plan sample_digest true 0%nat
    sample_result 3%nat sample_run.2.1.2 sample_run.2.2) as (segs & H1 & H2 & _).
  - vm_compute. reflexivity.
  - vm_compute. reflexivity.
  - exists segs. exact (conj H1 H2).
Defined.

Definition sample_settled : Ledger :=
  match (Execute sample_plan sample_digest true 0%nat).2.2 with Some l => l | None => sample_ledger end.

Lemma run_settles_its_budget_witness : settled sample_settled.
Proof.
  apply (run_settles_its_budget sample_plan sample_digest true 0%nat sample_result 3%nat sample_settled).
  - intros [] inv [|w]; simpl; [|reflexivity]. intros typed [= <-]. done.
  - vm_compute. reflexivity.
Defined.

(** ** internal/executor: the log can be erased

    Running with the logging environment of ExecutorLog.v and forgetting the
    log is running with the environment itself, so that what ExecutorRun.v
    shows of logged runs holds of runs. *)

Section Erase.
Context {W Runner : Type} (env0 : Environment W Runner).
Context {lib : DocumentLibrary} {ro : RangeOrder string string}.
Abbreviation LW := (W * list Invocation)%type.

Definition erases {A} (m : ExM W A) (m' : ExM LW A) : Prop :=
  forall w log l, exists log', m' ((w, log), l) = ((m (w, l)).1, (((m (w, l)).2.1, log'), (m (w, l)).2.2)).

Lemma erases_ret {A} (a : A) : erases (mret a) (mret a).
Proof. intros w log l. by exists log. Qed.
Lemma erases_bind {A B} (m : ExM W A) m' (k : A -> ExM W B) k' :
  erases m m' -> (forall a, erases (k a) (k' a)) -> erases (m ≫= k) (m' ≫= k').
Proof.
  intros Hm Hk w log l. unfold mbind, ex_bind. destruct (Hm w log l) as [log' ->]. destruct (m (w, l)) as [a [w' l']]. apply Hk.
Qed.
Lemma erases_world {A} (f : W -> A * W) : erases (world f) (world (quiet f)).
Proof. intros w log l. exists log. unfold world, quiet. by destruct (f w). Qed.
Lemma erases_ledger {E A} (f : GoM Ledger E A) : erases (ledger_call f) (ledger_call f).
Proof. intros w log l. exists log. unfold ledger_call. by destruct (f l). Qed.
Lemma erases_run r inv : erases (world (env_Run r inv)) (world (env_Run (Environment := logged env0) r inv)).
Proof. intros w log l. exists (log ++ [inv]). unfold world. cbn. by destruct (env_Run r inv w). Qed.

Create HintDb erase discriminated.
Hint Resolve erases_ret erases_world erases_ledger erases_run : erase.
Ltac erase := repeat first
  [ progress intros
  | lazymatch goal with |- erases (mbind _ _) _ => apply erases_bind end
  | lazymatch goal with |- erases (match ?x with _ => _ end) _ => destruct x end
  | solve [eauto with erase] ].

Lemma erases_Now : erases (Now (env := env0)) (Now (env := logged env0)).
Proof. apply erases_world. Qed.
Lemma erases_ctxErr : erases (ctxErr (env := env0)) (ctxErr (env := logged env0)).
Proof. apply erases_world. Qed.
Lemma erases_NewID : erases (NewID (env := env0)) (NewID (env := logged env0)).
Proof. apply erases_world. Qed.
Hint Resolve erases_Now erases_ctxErr erases_NewID : erase.
Lemma erases_Reserve u : erases (ledger_Reserve (env := env0) u) (ledger_Reserve (env := logged env0) u).
Proof. unfold ledger_Reserve. erase. Qed.
Lemma erases_Commit p u : erases (ledger_Commit (env := env0) p u) (ledger_Commit (env := logged env0) p u).
Proof. unfold ledger_Commit. erase. Qed.
Lemma erases_Snapshot : erases (ledger_Snapshot (env := env0)) (ledger_Snapshot (env := logged env0)).
Proof. unfold ledger_Snapshot. erase. Qed.
Lemma erases_nonRunAttempt d s r : erases (nonRunAttempt (env := env0) d s r) (nonRunAttempt (env := logged env0) d s r).
Proof. unfold nonRunAttempt. erase. Qed.
Lemma erases_reasonForError f : erases (reasonForError (env := env0) f) (reasonForError (env := logged env0) f).
Proof. unfold reasonForError. erase. Qed.
Lemma erases_ctx_is t : erases (ctx_is (env := env0) t) (ctx_is (env := logged env0) t).
Proof. unfold ctx_is. erase. Qed.
Hint Resolve erases_Reserve erases_Commit erases_Snapshot erases_nonRunAttempt erases_reasonForError erases_ctx_is : erase.
Lemma erases_on_failure d mx n iid aid est p f v :
  erases (on_failure (env := env0) d mx n iid aid est p f v) (on_failure (env := logged env0) d mx n iid aid est p f v).
Proof. unfold on_failure. cbv zeta. erase. Qed.
Lemma erases_on_outcome d iid aid est p o v :
  erases (on_outcome (env := env0) d iid aid est p o v) (on_outcome (env := logged env0) d iid aid est p o v).
Proof. unfold on_outcome. cbv zeta. erase. Qed.
Hint Resolve erases_on_failure erases_on_outcome : erase.
Lemma erases_run_attempt runID plan d r mx iid n v :
  erases (run_attempt (env := env0) runID plan d r mx iid n v) (run_attempt (env := logged env0) runID plan d r mx iid n v).
Proof. unfold run_attempt. cbv zeta. erase. Qed.
Hint Resolve erases_run_attempt : erase.
Lemma erases_attempt_loop runID plan d r mx iid fuel : forall n v,
  erases (attempt_loop (env := env0) runID plan d r mx iid fuel n v) (attempt_loop (env := logged env0) runID plan d r mx iid fuel n v).
Proof. induction fuel as [|fuel IH]; intros n v; cbn [attempt_loop]; erase. Qed.
Hint Resolve erases_attempt_loop : erase.
Lemma erases_runScenario runID plan d r :
  erases (runScenario (env := env0) runID plan d r) (runScenario (env := logged env0) runID plan d r).
Proof. unfold runScenario. cbv zeta. erase. Qed.
Hint Resolve erases_runScenario : erase.
Lemma erases_run_decision runID plan d states :
  erases (run_decision (env := env0) runID plan d states) (run_decision (env := logged env0) runID plan d states).
Proof. unfold run_decision. erase. Qed.
Hint Resolve erases_run_decision : erase.
Lemma erases_scenario_loop runID plan ds : forall attempts cases states e,
  erases (scenario_loop (env := env0) runID plan ds attempts cases states e)
    (scenario_loop (env := logged env0) runID plan ds attempts cases states e).
Proof. induction ds as [|d ds IH]; intros; cbn [scenario_loop]; erase. Qed.
Hint Resolve erases_scenario_loop : erase.
Lemma erases_finalize_one plan residual :
  erases (finalize_one (env := env0) plan residual) (finalize_one (env := logged env0) plan residual).
Proof.
  unfold finalize_one. cbn [env_ResolveFinalizer logged]. destruct (env_ResolveFinalizer) as [resolve|]; cbn; erase.
Qed.
Hint Resolve erases_finalize_one : erase.
Lemma erases_finalize_list plans : forall residual,
  erases (finalize_list (env := env0) plans residual) (finalize_list (env := logged env0) plans residual).
Proof. induction plans as [|plan plans IH]; intros; cbn [finalize_list]; erase. Qed.
Hint Resolve erases_finalize_list : erase.
Lemma erases_execute_plan plan runID :
  erases (execute_plan (env := env0) plan runID) (execute_plan (env := logged env0) plan runID).
Proof. unfold execute_plan, finalize. erase. Qed.

Lemma Execute_erased plan digest h w r w' l :
  Execute (env := env0) plan digest h w = (Ok r, (w', l)) ->
  exists log, Execute (env := logged env0) plan digest h (w, []) = (Ok r, (w', log, l)).
Proof.
  unfold Execute. destruct (_ ≫= _) as [?|]; [|done]. cbn [env_NewID logged]. unfold quiet at 1.
  destruct (env_NewID w) as [[runID|] w1]; [|done]. cbn [env_Now logged]. unfold quiet at 1. destruct (env_Now w1) as [now w2].
  destruct (Budget.New _ _) as [ledger|]; [|done]. destruct (erases_execute_plan plan runID w2 [] ledger) as [log ->].
  destruct (execute_plan plan runID (w2, ledger)) as [r' [w3 l3]]. intros [= <- <- <-]. by exists log.
Qed.
End Erase.
