(* ===== verification/Report.v ===== *)
(** * internal/report: result bundles and baselines

    report.go (the bundle, its validation and its counts) and baseline.go.
    [encoding/json] at the types of baselines is the class [BaselineCodec]. *)
From Stdlib Require Import ZArith Ascii String Lia.
From stdpp Require Import base gmap sets list strings sorting.
From S2P Require Import Prelude Sorting Schema Results Canonical Documents DocumentsSpec.
Local Open Scope Z_scope.
Local Open Scope string_scope.
Local Open Scope list_scope.

(** ** Result vocabulary of pkg/schema/result.go *)
Definition ProfileOutcome := string.
Definition ProfileCompatible : ProfileOutcome := "compatible".
Definition ProfileDegraded : ProfileOutcome := "degraded".
Definition ProfileIncompatible : ProfileOutcome := "incompatible".
Definition ProfileInconclusive : ProfileOutcome := "inconclusive".

Definition DimensionOutcome := string.
Definition DimensionPass : DimensionOutcome := "pass".
Definition DimensionFail : DimensionOutcome := "fail".
Definition DimensionDegraded : DimensionOutcome := "degraded".
Definition DimensionInconclusive : DimensionOutcome := "inconclusive".
Definition DimensionNotRun : DimensionOutcome := "not_run".

Record DenominatorSummary := mkDenominatorSummary {
  CandidateDigest : Digest;
  CandidateCount : Z;
  ApplicableDigest : Digest;
  ApplicableCount : Z;
  ExecutedDigest : Digest;
  ExecutedCount : Z
}.

(** ** report.go *)
Definition SchemaVersion : string := "urn:agentapi-doctor:report-bundle:v1alpha2".
Definition legacySchemaVersion : string := "urn:agentapi-doctor:report-bundle:v1alpha1".

Record Condition := mkCondition { cdCode : string; cdMessage : string }.

Record Bundle := mkBundle {
  buSchemaVersion : string;
  buRunID : InstanceID;
  buIntentPlanRef : ObjectRef;
  buResolvedPlanRef : ObjectRef;
  buProfile : ArtifactPin;
  buArtifacts : list ArtifactPin;
  buSupportLock : Digest;
  buDenominators : DenominatorSummary;
  buOutcome : ProfileOutcome;
  buDimensions : gmap string DimensionOutcome;
  buCases : list CaseResult;
  buConditions : list Condition;
  buPrimaryExitCode : Z
}.

Definition containsProfileOutcome (value : ProfileOutcome) : bool :=
  bool_decide (value = ProfileCompatible ∨ value = ProfileDegraded ∨ value = ProfileIncompatible ∨
               value = ProfileInconclusive).
Definition containsDimensionOutcome (value : DimensionOutcome) : bool :=
  bool_decide (value = DimensionPass ∨ value = DimensionFail ∨ value = DimensionDegraded ∨
               value = DimensionInconclusive ∨ value = DimensionNotRun).
Definition validExitCode (value : Z) : bool := bool_decide ((value >= 0 ∧ value <= 6) ∨ value = 130).

(** One iteration over the cases; the state is [seen]. *)
Definition case_check (index : Z) (r : CaseResult) : GoM (gset string) error unit :=
  seen ← get;
  fail_if (crScenarioID r ∈ seen) (ErrorNew (Sprintf "duplicate scenario %q" [FStr (crScenarioID r)]));;
  put ({[crScenarioID r]} ∪ seen);;
  lift (wrap (Wrapf (Sprintf "case %d: %w" [FInt index])) (CaseResult_Validate r)).

Record Counts := mkCounts {
  cPass : Z; cFail : Z; cWarn : Z; cInconclusive : Z; cSkipped : Z; cErrored : Z
}.

Definition count_case (counts : Counts) (r : CaseResult) : Counts :=
  let '(mkCounts p f w i s e) := counts in
  if decide (crExecutionStatus r = ExecutionErrored ∨ crExecutionStatus r = ExecutionCancelled) then
    mkCounts p f w i s (e + 1)
  else if decide (crPlanDisposition r ≠ DispositionExecute ∨ crExecutionStatus r = ExecutionSkipped) then
    mkCounts p f w i (s + 1) e
  else match crVerdict r with
  | None => counts
  | Some v =>
      if decide (v = VerdictPass) then mkCounts (p + 1) f w i s e
      else if decide (v = VerdictFail) then mkCounts p (f + 1) w i s e
      else if decide (v = VerdictWarn) then mkCounts p f (w + 1) i s e
      else if decide (v = VerdictInconclusive) then mkCounts p f w (i + 1) s e
      else counts
  end.
Definition Count (bundle : Bundle) : Counts := foldl count_case (mkCounts 0 0 0 0 0 0) (buCases bundle).

Section Bundle.
Context {ro : RangeOrder string string}.

Definition validateDenominators (summary : DenominatorSummary) : result error unit :=
  for_each (fun '(label, digest) =>
    wrap (Wrapf (Sprintf "%s denominator digest: %w" [FStr label])) (Digest_Validate digest))
    (range (list_to_map [("candidate", CandidateDigest summary); ("applicable", ApplicableDigest summary);
                         ("executed", ExecutedDigest summary)] : gmap string string));;
  err_if (CandidateCount summary < 0 ∨ ApplicableCount summary < 0 ∨ ExecutedCount summary < 0 ∨
          ExecutedCount summary > ApplicableCount summary ∨
          ApplicableCount summary > CandidateCount summary)
    (ErrorNew (Text "denominator counts must satisfy 0 <= executed <= applicable <= candidate")).

Definition Bundle_Validate (bundle : Bundle) : result error unit :=
  err_if (buSchemaVersion bundle ≠ SchemaVersion ∧ buSchemaVersion bundle ≠ legacySchemaVersion)
    (ErrorNew (Sprintf "unsupported report schema %q" [FStr (buSchemaVersion bundle)]));;
  wrap (Wrapf (Text "run ID: %w")) (InstanceID_Validate (buRunID bundle));;
  wrap (Wrapf (Text "intent plan: %w")) (ObjectRef_Validate (buIntentPlanRef bundle));;
  wrap (Wrapf (Text "resolved plan: %w")) (ObjectRef_Validate (buResolvedPlanRef bundle));;
  wrap (Wrapf (Text "profile: %w")) (ArtifactPin_Validate (buProfile bundle));;
  err_if (length (buArtifacts bundle) = 0%nat) (ErrorNew (Text "report requires exact artifact pins"));;
  for_each (fun '(index, artifact) =>
    wrap (Wrapf (Sprintf "artifact %d: %w" [FInt index])) (ArtifactPin_Validate artifact))
    (enumerate (buArtifacts bundle));;
  wrap (Wrapf (Text "support lock: %w")) (Digest_Validate (buSupportLock bundle));;
  validateDenominators (buDenominators bundle);;
  err_if (containsProfileOutcome (buOutcome bundle) = false)
    (ErrorNew (Sprintf "invalid profile outcome %q" [FStr (buOutcome bundle)]));;
  for_each (fun '(dimension, outcome) =>
    err_if (TrimSpace dimension = "" ∨ containsDimensionOutcome outcome = false)
      (ErrorNew (Text "dimension names and outcomes must be valid")))
    (range (buDimensions bundle));;
  (for_eachM (fun '(index, r) => case_check index r) (enumerate (buCases bundle)) ∅).1;;
  err_if (validExitCode (buPrimaryExitCode bundle) = false)
    (ErrorNew (Sprintf "invalid stable exit code %d" [FInt (buPrimaryExitCode bundle)]));;
  for_each (fun condition =>
    err_if (TrimSpace (cdCode condition) = "" ∨ TrimSpace (cdMessage condition) = "")
      (ErrorNew (Text "conditions require code and message"))) (buConditions bundle).
End Bundle.

(** ** baseline.go *)
Definition ErrIncomparable : error :=
  Sentinel "baseline and run have different immutable test identities".
Definition BaselineSchemaVersion : string := "urn:agentapi-doctor:baseline:v1".
Definition baselineNamePattern (s : string) : bool :=
  match_head_tail is_lower (fun c => is_lower c || is_digit c || is_one_of "._-" c)%bool 0 63 s.

Record CaseState := mkCaseState {
  csDisposition : PlanDisposition;
  csExecution : ExecutionStatus;
  csVerdict : option Verdict
}.

(** [Cases] is [None] for a nil map. *)
Record Baseline := mkBaseline {
  blSchemaVersion : string;
  blName : string;
  blProfileDigest : Digest;
  blPackDigest : Digest;
  blSupportLockDigest : Digest;
  blDenominatorDigest : Digest;
  blCases : option (gmap string CaseState)
}.

Definition state_check (id : string) (state : CaseState) : result error unit :=
  err_if (TrimSpace id = "") (ErrorNew (Text "baseline scenario ID is required"));;
  err_if (csDisposition state ≠ DispositionExecute ∧ csDisposition state ≠ DispositionSkip ∧
          csDisposition state ≠ DispositionNotApplicable)
    (ErrorNew (Sprintf "scenario %s has invalid disposition" [FStr id]));;
  err_if (csExecution state ∉ [""; ExecutionPlanned; ExecutionRunning; ExecutionCompleted;
                               ExecutionSkipped; ExecutionCancelled; ExecutionErrored])
    (ErrorNew (Sprintf "scenario %s has invalid execution status" [FStr id]));;
  match csVerdict state with
  | Some v => err_if (v ∉ [VerdictPass; VerdictFail; VerdictWarn; VerdictInconclusive])
                (ErrorNew (Sprintf "scenario %s has invalid verdict" [FStr id]))
  | None => mret tt
  end;;
  err_if (csVerdict state ≠ None ∧ csExecution state ≠ ExecutionCompleted)
    (ErrorNew (Sprintf "scenario %s has verdict without completed execution" [FStr id])).

Definition Change := string.
Definition NewFailure : Change := "NEW_FAILURE".
Definition Regression : Change := "REGRESSION".
Definition Fixed : Change := "FIXED".
Definition Unchanged : Change := "UNCHANGED".
Definition NewCapability : Change := "NEW_CAPABILITY".
Definition NoLongerTested : Change := "NO_LONGER_TESTED".

Record Difference := mkDifference {
  dfScenarioID : string;
  dfChange : Change;
  dfBefore : option CaseState;
  dfAfter : option CaseState
}.

Definition isFailure (state : CaseState) : bool := bool_decide (csVerdict state = Some VerdictFail).

(** The zero [CaseState] of a missing map entry. *)
Definition zero_state : CaseState := mkCaseState "" "" None.

Definition classify (left right : option CaseState) : Change :=
  let l := default zero_state left in
  let r := default zero_state right in
  if decide (left = None ∧ right ≠ None ∧ isFailure r = true) then NewFailure
  else if decide (left = None ∧ right ≠ None) then NewCapability
  else if decide (left ≠ None ∧ right = None) then NoLongerTested
  else if decide (isFailure l = false ∧ isFailure r = true) then Regression
  else if decide (isFailure l = true ∧ isFailure r = false ∧ csDisposition r = DispositionExecute) then Fixed
  else if decide (csDisposition l ≠ DispositionExecute ∧ csDisposition r = DispositionExecute)
  then NewCapability
  else Unchanged.

(** What [DecodeBaseline] reads a second time: the raw schema version and,
    for each case, the raw execution status and verdict (empty when absent). *)
Record BaselineShape := mkBaselineShape {
  shSchemaVersion : list ascii;
  shCases : gmap string (list ascii * list ascii)
}.

Class BaselineCodec := {
  baseline_json :: JSONLibrary;
  marshal_baseline : Baseline -> result error (list ascii);
  (** [Decode] with [DisallowUnknownFields], and the error of the next
      [Decode], [None] when there is another value. *)
  decode_baseline : list ascii -> result error (Baseline * option error);
  unmarshal_shape : list ascii -> result error BaselineShape
}.

Definition null_text : list ascii := list_ascii_of_string "null".
Definition empty_text : list ascii := [ascii_of_N 34; ascii_of_N 34].

Definition shape_check (id : string) (execution verdict : list ascii) : result error unit :=
  err_if ((0 < length execution)%nat ∧ (execution = null_text ∨ execution = empty_text))
    (ErrorNew (Sprintf "scenario %s has invalid execution status" [FStr id]));;
  err_if (verdict = null_text) (ErrorNew (Sprintf "scenario %s has invalid verdict" [FStr id])).

Definition with_schema (v : string) (b : Baseline) : Baseline :=
  mkBaseline v (blName b) (blProfileDigest b) (blPackDigest b) (blSupportLockDigest b)
    (blDenominatorDigest b) (blCases b).

Section Baselines.
Context {codec : BaselineCodec}.
Context {ro : RangeOrder string string} {ro2 : RangeOrder string CaseState}.
Context {ro3 : RangeOrder string (list ascii * list ascii)} {ro4 : RangeOrder string (string * string)}.

Definition Baseline_Validate (baseline : Baseline) : result error unit :=
  err_if (blSchemaVersion baseline ≠ BaselineSchemaVersion)
    (ErrorNew (Sprintf "unsupported baseline schema %q" [FStr (blSchemaVersion baseline)]));;
  err_if (baselineNamePattern (blName baseline) = false) (ErrorNew (Text "invalid baseline name"));;
  for_each (fun '(label, digest) => wrap (Wrapf (Sprintf "%s digest: %w" [FStr label])) (Digest_Validate digest))
    (range (list_to_map [("profile", blProfileDigest baseline); ("pack", blPackDigest baseline);
              ("support lock", blSupportLockDigest baseline); ("denominator", blDenominatorDigest baseline)]
              : gmap string string));;
  match blCases baseline with
  | None => Err (ErrorNew (Text "baseline cases are required"))
  | Some cases => for_each (fun '(id, state) => state_check id state) (range cases)
  end.

Definition BaselineJSON (baseline : Baseline) : result error (list ascii) :=
  Baseline_Validate baseline;;
  CanonicalMarshal marshal_baseline baseline.

Definition DecodeBaseline (raw : list ascii) : result error Baseline :=
  let strict := ErrorNew (Text "baseline must be strict canonical JSON") in
  canonical ← wrap (fun _ => strict) (CanonicalizeJSON raw);
  err_if (raw ≠ canonical) strict;;
  '(baseline, trailing) ← decode_baseline raw;
  err_if (match trailing with Some e => errors_Is e "EOF" | None => false end = false)
    (ErrorNew (Text "baseline contains trailing JSON"));;
  shape ← unmarshal_shape raw;
  for_each (fun '(id, (execution, verdict)) => shape_check id execution verdict) (range (shCases shape));;
  baseline ← (if decide (blSchemaVersion baseline = "") then
    err_if (length (shSchemaVersion shape) ≠ 0%nat)
      (ErrorNew (Sprintf "unsupported baseline schema %q" [FStr (blSchemaVersion baseline)]));;
    mret (with_schema BaselineSchemaVersion baseline)
   else mret baseline);
  Baseline_Validate baseline;;
  mret baseline.

(** [cases[result.ScenarioID] = ...] for each result in order. *)
Definition case_states (cases : list CaseResult) : gmap string CaseState :=
  foldl (fun m r => <[crScenarioID r :=
    mkCaseState (crPlanDisposition r) (crExecutionStatus r) (crVerdict r)]> m) ∅ cases.

(** The only artifact of kind ProtocolPack. *)
Definition the_pack (artifacts : list ArtifactPin) : result error ArtifactPin :=
  match filter (fun a => pinKind a = "ProtocolPack") artifacts with
  | [pack] => Ok pack
  | _ => Err (ErrorNew (Text "baseline requires exactly one ProtocolPack"))
  end.

(** On an error of the last check the source returns the rejected baseline
    with it. *)
Definition NewBaseline (name : string) (bundle : Bundle) : result error Baseline :=
  err_if (baselineNamePattern name = false) (ErrorNew (Text "baseline name is required"));;
  Bundle_Validate bundle;;
  pack ← the_pack (buArtifacts bundle);
  let baseline := mkBaseline BaselineSchemaVersion name (pinDigest (buProfile bundle)) (pinDigest pack)
    (buSupportLock bundle) (CandidateDigest (buDenominators bundle)) (Some (case_states (buCases bundle))) in
  Baseline_Validate baseline;;
  mret baseline.

Definition cases_of (b : Baseline) : gmap string CaseState := default ∅ (blCases b).

Definition Compare (before after : Baseline) : result error (list Difference) :=
  Baseline_Validate before;;
  Baseline_Validate after;;
  for_each (fun '(label, (l, r)) =>
    err_if (l ≠ r) (Wrapf (Sprintf "%w: %s digest changed" [FStr label]) ErrIncomparable))
    (range (list_to_map
       [("profile", (blProfileDigest before, blProfileDigest after));
        ("pack", (blPackDigest before, blPackDigest after));
        ("support lock", (blSupportLockDigest before, blSupportLockDigest after));
        ("denominator", (blDenominatorDigest before, blDenominatorDigest after))]
       : gmap string (string * string)));;
  let ids := dom (cases_of before) ∪ dom (cases_of after) in
  mret ((fun id => mkDifference id (classify (cases_of before !! id) (cases_of after !! id))
                     (cases_of before !! id) (cases_of after !! id))
        <$> sort_Strings (elements ids)).

(** ** What a comparison says *)

(** What a change means, from the two states of a scenario. *)
Definition failing (s : option CaseState) : Prop := exists c, s = Some c ∧ csVerdict c = Some VerdictFail.
Definition planned (s : option CaseState) : Prop :=
  exists c, s = Some c ∧ csDisposition c = DispositionExecute.

Inductive means (left right : option CaseState) : Change -> Prop :=
| means_new_failure : left = None -> failing right -> means left right NewFailure
| means_appeared : left = None -> right <> None -> ~ failing right -> means left right NewCapability
| means_gone : left <> None -> right = None -> means left right NoLongerTested
| means_regression : left <> None -> right <> None -> ~ failing left -> failing right ->
    means left right Regression
| means_fixed : left <> None -> failing left -> right <> None -> ~ failing right -> planned right ->
    means left right Fixed
| means_enabled : left <> None -> (failing left <-> failing right) -> ~ planned left -> planned right ->
    means left right NewCapability
| means_unchanged : left <> None -> right <> None -> (failing right -> failing left) ->
    (failing left -> ~ failing right -> ~ planned right) -> (planned right -> planned left) ->
    means left right Unchanged.

Lemma isFailure_failing c : isFailure c = true <-> failing (Some c).
Proof. unfold isFailure, failing. rewrite bool_decide_eq_true. naive_solver. Qed.
Lemma not_failing c : isFailure c = false <-> ~ failing (Some c).
Proof. rewrite <- isFailure_failing. by destruct (isFailure c). Qed.
Lemma planned_some c : planned (Some c) <-> csDisposition c = DispositionExecute.
Proof. unfold planned. naive_solver. Qed.
Lemma failing_dec s : Decision (failing s).
Proof.
  destruct s as [c|]; [|right; by intros (? & ? & ?)].
  destruct (isFailure c) eqn:E; [left; by apply isFailure_failing|right; by apply not_failing].
Qed.

Lemma planned_dec c : Decision (planned (Some c)).
Proof.
  destruct (decide (csDisposition c = DispositionExecute)); [left|right]; by rewrite planned_some.
Qed.

Lemma classify_means l r : (l <> None ∨ r <> None) -> means l r (classify l r).
Proof.
  intros H. unfold classify. destruct l as [l|], r as [r|]; cbn [default]; [| | |naive_solver].
  - rewrite !(decide_False (P := Some l = None ∧ _)), (decide_False (P := _ ∧ Some r = None)) by naive_solver.
    rewrite ?isFailure_failing, ?not_failing. repeat case_decide;
      rewrite ?isFailure_failing, ?not_failing, <- ?planned_some in *.
    + apply means_regression; tauto || done.
    + apply means_fixed; tauto || done.
    + apply means_enabled; destruct (failing_dec (Some l)), (failing_dec (Some r)); tauto || done.
    + apply means_unchanged; try done;
        destruct (failing_dec (Some l)), (failing_dec (Some r)), (planned_dec l); tauto.
  - rewrite !decide_False, decide_True by naive_solver. by apply means_gone.
  - case_decide as F; [apply means_new_failure; [done|apply isFailure_failing, F]|].
    rewrite decide_True by done. apply means_appeared; [done..|]. rewrite <- isFailure_failing. tauto.
Qed.

Definition same_identity (b a : Baseline) : Prop :=
  blProfileDigest b = blProfileDigest a ∧ blPackDigest b = blPackDigest a ∧
  blSupportLockDigest b = blSupportLockDigest a ∧ blDenominatorDigest b = blDenominatorDigest a.

Lemma identity_loop_ok b a :
  for_each (fun '(label, (l, r)) =>
    err_if (l ≠ r) (Wrapf (Sprintf "%w: %s digest changed" [FStr label]) ErrIncomparable))
    (range (list_to_map
       [("profile", (blProfileDigest b, blProfileDigest a)); ("pack", (blPackDigest b, blPackDigest a));
        ("support lock", (blSupportLockDigest b, blSupportLockDigest a));
        ("denominator", (blDenominatorDigest b, blDenominatorDigest a))]
       : gmap string (string * string))) = Ok tt <-> same_identity b a.
Proof.
  rewrite for_each_ok, range_perm, map_to_list_to_map by (apply (bool_decide_unpack _); vm_compute; exact I).
  rewrite !Forall_cons, Forall_nil, !err_if_ok. unfold same_identity.
  split; [intros (A & B & C & D & _); split_and!; by apply dec_stable|naive_solver].
Qed.

Lemma Compare_ok b a ds :
  Compare b a = Ok ds <->
  Baseline_Validate b = Ok tt ∧ Baseline_Validate a = Ok tt ∧ same_identity b a ∧
  ds = (fun id => mkDifference id (classify (cases_of b !! id) (cases_of a !! id))
                    (cases_of b !! id) (cases_of a !! id))
       <$> sort_Strings (elements (dom (cases_of b) ∪ dom (cases_of a))).
Proof.
  unfold Compare. rewrite bind_Ok. split.
  - intros ([] & H1 & H). apply bind_Ok in H as ([] & H2 & H). apply bind_Ok in H as ([] & H3 & H).
    apply identity_loop_ok in H3. unfold mret, result_ret in H. by simplify_eq.
  - intros (H1 & H2 & H3 & ->). exists tt. split; [done|]. apply bind_Ok. exists tt. split; [done|].
    apply bind_Ok. exists tt. split; [by apply identity_loop_ok|done].
Qed.

(** A comparison reports every scenario once and says what changed: two
    valid baselines with the same profile, pack, support lock and denominator
    are compared; the differences are strictly ordered by scenario and are
    exactly the scenarios of either baseline, each with its two states and
    the change those states mean; in particular a scenario that fails now
    and did not fail before is always a new failure or a regression, and
    only such a scenario is.  Two baselines of different identities are
    refused. *)
Theorem compare_reports_every_change b a
    (Hb : Baseline_Validate b = Ok tt) (Ha : Baseline_Validate a = Ok tt) :
  (same_identity b a <-> exists ds, Compare b a = Ok ds) ∧
  forall ds, Compare b a = Ok ds ->
    StronglySorted string_lt (dfScenarioID <$> ds) ∧
    (forall id, id ∈ dfScenarioID <$> ds <-> id ∈ dom (cases_of b) ∪ dom (cases_of a)) ∧
    forall d, d ∈ ds -> dfBefore d = cases_of b !! dfScenarioID d ∧
      dfAfter d = cases_of a !! dfScenarioID d ∧ means (dfBefore d) (dfAfter d) (dfChange d) ∧
      ((failing (dfAfter d) ∧ ~ failing (dfBefore d)) <-> dfChange d ∈ [NewFailure; Regression]).
Proof.
  split; [split|].
  - intros H. eexists. by apply Compare_ok.
  - intros [ds H]. apply Compare_ok in H. apply H.
  - intros ds H. apply Compare_ok in H as (_ & _ & _ & ->).
    split_and!; rewrite <- ?list_fmap_compose; unfold compose; cbn [dfScenarioID]; rewrite ?list_fmap_id.
    + apply sort_Strings_strict, NoDup_elements.
    + intros id. by rewrite elem_of_sort_Strings, elem_of_elements.
    + intros d (id & -> & Hin)%list_elem_of_fmap.
      rewrite elem_of_sort_Strings, elem_of_elements, elem_of_union, !elem_of_dom in Hin.
      cbn [dfScenarioID dfBefore dfAfter dfChange]. split_and!; [done..| |].
      * apply classify_means. destruct Hin as [[? ->]|[? ->]]; naive_solver.
      * assert (means (cases_of b !! id) (cases_of a !! id) (classify (cases_of b !! id) (cases_of a !! id))) as M
          by (apply classify_means; destruct Hin as [[? ->]|[? ->]]; naive_solver).
        rewrite !elem_of_cons, elem_of_nil.
        assert (~ failing None) by (by intros (? & ? & ?)).
        destruct M; subst; repeat match goal with H : _ = None |- _ => rewrite H in * end;
          intuition (try done).
Qed.
End Baselines.

(** Nothing changes between a baseline and itself. *)
Lemma classify_refl s : s <> None -> classify s s = Unchanged.
Proof.
  intros H. pose proof (classify_means s s (or_introl H)) as M. inversion M; subst; try done; tauto.
Qed.

(** ** A concrete comparison *)
#[local] Instance sample_library : JSONLibrary := {
  NewDecoder raw := mkDecoder [Scalar SNull] (ErrorNew (Text "EOF")) false;
  jcs_Transform raw := Ok raw;
  Sum256 data := resize 32 "0"%char data;
  Sum256_length data := length_resize data 32 "0"%char
}.
#[local] Instance sample_codec : BaselineCodec := {
  marshal_baseline _ := Ok [];
  decode_baseline _ := Err (ErrorNew (Text "no document"));
  unmarshal_shape _ := Err (ErrorNew (Text "no document"))
}.
Definition sample_digest : Digest :=
  "sha256:0123456789abcdef0123456789abcdef0123456789abcdef0123456789abcdef".
Definition sample_state (v : Verdict) : CaseState := mkCaseState DispositionExecute ExecutionCompleted (Some v).
Definition sample_baseline (cases : gmap string CaseState) : Baseline :=
  mkBaseline BaselineSchemaVersion "nightly" sample_digest sample_digest sample_digest sample_digest (Some cases).
Definition sample_before : Baseline :=
  sample_baseline (<["b" := sample_state VerdictPass]> (<["a" := sample_state VerdictFail]> ∅)).
Definition sample_after : Baseline :=
  sample_baseline (<["b" := sample_state VerdictFail]> (<["a" := sample_state VerdictPass]>
    (<["c" := sample_state VerdictFail]> ∅))).

Example sample_compare :
  Compare sample_before sample_after =
  Ok [mkDifference "a" Fixed (Some (sample_state VerdictFail)) (Some (sample_state VerdictPass));
      mkDifference "b" Regression (Some (sample_state VerdictPass)) (Some (sample_state VerdictFail));
      mkDifference "c" NewFailure None (Some (sample_state VerdictFail))].
Proof. vm_compute. reflexivity. Qed.

Lemma compare_reports_every_change_witness : exists ds, Compare sample_before sample_after = Ok ds.
Proof.
  apply (compare_reports_every_change sample_before sample_after).
  - vm_compute. reflexivity.
  - vm_compute. reflexivity.
  - repeat split.
Defined.
