(* ===== verification/Planner.v ===== *)
(** * internal/planner/planner.go: building and resolving plans

    [encoding/json.Marshal] at the types the package digests is a parameter
    of the operations, as in [Documents.SealMeta]. *)
From Stdlib Require Import ZArith Ascii String Lia.
From stdpp Require Import base gmap sets list strings.
From S2P Require Import Prelude Sorting Schema Results Canonical Documents.
Local Open Scope Z_scope.
Local Open Scope string_scope.
Local Open Scope list_scope.

Definition IntentSchema : string := "urn:agentapi-doctor:intent-plan:v1alpha1".
Definition ResolvedSchema : string := "urn:agentapi-doctor:resolved-run-plan:v1alpha1".

Record ScenarioCandidate := mkScenarioCandidate {
  scID : string;
  scCapabilities : list string;
  scDriver : ArtifactPin;
  scDependsOn : list string
}.

Record IntentRequest := mkIntentRequest {
  irID : InstanceID;
  irCreatedAt : Time;
  irProducer : Producer;
  irConfigDigest : Digest;
  irTarget : TargetIntent;
  irSelectors : list ArtifactSelector;
  irSupportManifestDigest : Digest;
  irProbe : ProbePolicy;
  irScenarios : list ScenarioCandidate;
  irBudget : BudgetPolicy;
  irEvidence : EvidencePolicy;
  irSafety : SafetyPolicy;
  irAuthor : string;
  irApprovalRequirements : list string
}.

Record intentProjection := mkIntentProjection {
  prSchemaVersion : string;
  prKind : string;
  prIntentPlanID : InstanceID;
  prConfigDigest : Digest;
  prTarget : TargetIntent;
  prSelectors : list ArtifactSelector;
  prSupportManifestDigest : Digest;
  prCandidateDenominatorDigest : Digest;
  prProbe : ProbePolicy;
  prConditionalBranches : list ConditionalBranch;
  prBudget : BudgetPolicy;
  prEvidence : EvidencePolicy;
  prSafety : SafetyPolicy;
  prAuthor : string;
  prApprovalRequirements : list string;
  prProducer : Producer;
  prCreatedAt : Time
}.

Record ResolutionRequest := mkResolutionRequest {
  rrID : InstanceID;
  rrCreatedAt : Time;
  rrProducer : Producer;
  rrResolver : ArtifactPin;
  rrObservations : list CapabilityObservation;
  rrSupportLockDigest : Digest;
  rrArtifacts : list ArtifactPin;
  rrTarget : TargetResolution;
  rrScenarios : list ScenarioCandidate;
  rrRuntime : RuntimePolicy;
  rrFinalizers : list FinalizerPlan
}.

(** The anonymous struct of [Resolve]. *)
Record resolvedProjection := mkResolvedProjection {
  rpjSchemaVersion : string;
  rpjKind : string;
  rpjResolvedPlanID : InstanceID;
  rpjIntentPlanRef : ObjectRef;
  rpjResolver : ArtifactPin;
  rpjCapabilityObservationRefs : list ObjectRef;
  rpjSupportLockDigest : Digest;
  rpjArtifacts : list ArtifactPin;
  rpjTarget : TargetResolution;
  rpjScenarios : list ScenarioDecision;
  rpjDenominatorDigest : Digest;
  rpjBudget : BudgetPolicy;
  rpjRuntime : RuntimePolicy;
  rpjFinalizers : list FinalizerPlan;
  rpjProducer : Producer;
  rpjCreatedAt : Time
}.

(** ** Candidates and branches *)

(** The locals of the loop over the candidates of [BuildIntent]. *)
Record candidates := mkCandidates {
  branches : gmap string (list string);
  candidateIDs : list string;
  seen : gset string
}.

Definition add_branch (id : string) (b : gmap string (list string)) (capability : string)
    : gmap string (list string) :=
  <[capability := default [] (b !! capability) ++ [id]]> b.

Definition candidate_step (scenario : ScenarioCandidate) : GoM candidates error unit :=
  fail_if (scID scenario = "") (ErrorNew (Text "scenario ID is required"));;
  st ← get;
  fail_if (scID scenario ∈ seen st)
    (ErrorNew (Sprintf "duplicate scenario %s" [FStr (scID scenario)]));;
  put (mkCandidates (foldl (add_branch (scID scenario)) (branches st) (scCapabilities scenario))
         (candidateIDs st ++ [scID scenario]) ({[scID scenario]} ∪ seen st)).

(** The loops over [branchNames]; the names are those of the map in order. *)
Definition conditional_branches (b : gmap string (list string)) : list ConditionalBranch :=
  (fun capability => mkConditionalBranch capability (sort_Strings (default [] (b !! capability))))
    <$> sort_Strings (elements (dom b)).

(** ** Capability facts *)
Definition allowedBranches (intent : IntentPlan) : gmap string (gset string) :=
  foldl (fun allowed branch => <[brCapability branch := list_to_set (brScenarios branch)]> allowed) ∅
    (ipConditionalBranches intent).

Definition fact_step (fact : CapabilityFact) : GoM (gmap string CapabilityStatus) error unit :=
  facts ← get;
  match facts !! factCapability fact with
  | Some existing =>
      fail_if (existing ≠ factStatus fact)
        (ErrorNew (Sprintf "conflicting capability facts for %s" [FStr (factCapability fact)]))
  | None => mret tt
  end;;
  put (<[factCapability fact := factStatus fact]> facts).

Definition observation_step (intent : IntentPlan) (observation : CapabilityObservation)
    : GoM (gmap string CapabilityStatus) error unit :=
  fail_if (coIntentPlanRef observation ≠ emObjectRef (ipMeta intent))
    (ErrorNew (Text "capability observation is bound to a different IntentPlan"));;
  for_eachM fact_step (coFacts observation).

Definition collectFacts (intent : IntentPlan) (observations : list CapabilityObservation)
    : result error (gmap string CapabilityStatus * list ObjectRef) :=
  match for_eachM (observation_step intent) observations ∅ with
  | (Err e, _) => Err e
  | (Ok _, facts) => Ok (facts, (fun o => emObjectRef (coMeta o)) <$> observations)
  end.

(** One iteration over the capabilities of a candidate; the state is the
    disposition and its reason. *)
Definition capability_step (allowed : gmap string (gset string))
    (facts : gmap string CapabilityStatus) (id capability : string)
    : GoM (PlanDisposition * string) error unit :=
  fail_if (id ∉ default ∅ (allowed !! capability))
    (ErrorNew (Sprintf "scenario %s capability branch %s was not authorized by IntentPlan"
                 [FStr id; FStr capability]));;
  '(disposition, reason) ← get;
  let fact := default "" (facts !! capability) in
  if decide (fact = CapabilityUnsupported) then
    put (DispositionNotApplicable, ReasonUnsupportedCapability)
  else if decide (fact = CapabilityUnknown ∨ fact = "") then
    if decide (disposition = DispositionExecute) then put (DispositionSkip, ReasonNotObserved)
    else mret tt
  else mret tt.

Definition decide_candidate (allowed : gmap string (gset string))
    (facts : gmap string CapabilityStatus) (candidate : ScenarioCandidate)
    : result error ScenarioDecision :=
  match for_eachM (capability_step allowed facts (scID candidate)) (scCapabilities candidate)
          (DispositionExecute, "") with
  | (Err e, _) => Err e
  | (Ok _, (disposition, reason)) =>
      Ok (mkScenarioDecision (scID candidate) disposition reason (scDriver candidate)
            (scDependsOn candidate))
  end.

Fixpoint decide_candidates (allowed : gmap string (gset string))
    (facts : gmap string CapabilityStatus) (cs : list ScenarioCandidate)
    : result error (list ScenarioDecision) :=
  match cs with
  | [] => mret []
  | c :: cs' =>
      d ← decide_candidate allowed facts c;
      ds ← decide_candidates allowed facts cs';
      mret (d :: ds)
  end.

(** [applicableIDs] before it is sorted. *)
Definition applicable_ids (ds : list ScenarioDecision) : list string :=
  ScenarioID <$> filter (fun d => Disposition d ≠ DispositionNotApplicable) ds.

Section Planner.
Context {lib : DocumentLibrary} {ro : RangeOrder string string}.
Variable marshal_strings : list string -> result error (list ascii).
Variable marshal_intent : intentProjection -> result error (list ascii).
Variable marshal_resolved : resolvedProjection -> result error (list ascii).

Definition BuildIntent (request : IntentRequest) : result error IntentPlan :=
  err_if (length (irScenarios request) = 0%nat)
    (ErrorNew (Text "at least one scenario candidate is required"));;
  match for_eachM candidate_step (irScenarios request) (mkCandidates ∅ [] ∅) with
  | (Err e, _) => Err e
  | (Ok _, st) =>
      denominator ← CanonicalDigest marshal_strings (sort_Strings (candidateIDs st));
      let conditional := conditional_branches (branches st) in
      let projection := mkIntentProjection IntentSchema "IntentPlan" (irID request)
        (irConfigDigest request) (irTarget request) (irSelectors request)
        (irSupportManifestDigest request) denominator (irProbe request) conditional
        (irBudget request) (irEvidence request) (irSafety request) (irAuthor request)
        (irApprovalRequirements request) (irProducer request) (irCreatedAt request) in
      meta ← SealMeta marshal_intent IntentSchema "IntentPlan" (irID request) (irProducer request)
               (irCreatedAt request) projection;
      let plan := mkIntentPlan meta (irID request) (irConfigDigest request) (irTarget request)
        (prSelectors projection) (irSupportManifestDigest request) denominator (irProbe request)
        conditional (irBudget request) (irEvidence request) (irSafety request) (irAuthor request)
        (prApprovalRequirements projection) in
      IntentPlan_Validate plan;;
      mret plan
  end.

Definition Resolve (intent : IntentPlan) (request : ResolutionRequest) : result error ResolvedRunPlan :=
  wrap (Wrapf (Text "intent plan: %w")) (IntentPlan_Validate intent);;
  let allowed := allowedBranches intent in
  '(facts, refs) ← collectFacts intent (rrObservations request);
  decisions ← decide_candidates allowed facts (rrScenarios request);
  denominator ← CanonicalDigest marshal_strings (sort_Strings (applicable_ids decisions));
  let ref := emObjectRef (ipMeta intent) in
  let projection := mkResolvedProjection ResolvedSchema "ResolvedRunPlan" (rrID request) ref
    (rrResolver request) refs (rrSupportLockDigest request) (rrArtifacts request) (rrTarget request)
    decisions denominator (ipBudget intent) (rrRuntime request) (rrFinalizers request)
    (rrProducer request) (rrCreatedAt request) in
  meta ← SealMeta marshal_resolved ResolvedSchema "ResolvedRunPlan" (rrID request)
           (rrProducer request) (rrCreatedAt request) projection;
  let plan := mkResolvedRunPlan meta (rrID request) ref (rrResolver request) refs
    (rrSupportLockDigest request) (rrArtifacts request) (rrTarget request) decisions denominator
    (ipBudget intent) (rrRuntime request) (rrFinalizers request) in
  ResolvedRunPlan_Validate plan;;
  mret plan.
End Planner.

(** [now] is what the clock answers, [random] the sixteen random bytes; the
    identifier and the error are returned together with the time. *)
Definition DefaultTimes (now : Time) (random : result error (list ascii))
    : result error InstanceID * Time :=
  (NewInstanceID now random, UTC now).
