(* ===== verification/PlannerSpec.v ===== *)
(** * internal/planner: what plans guarantee

    The branches of an intent plan are the capabilities of its candidates;
    the decisions of a resolved plan are the reference [disposition_of] over
    the facts observed; and nothing runs without both. *)
From Stdlib Require Import ZArith Ascii String Lia.
From stdpp Require Import base gmap sets list strings sorting.
From S2P Require Import Prelude Sorting Schema Results Canonical Documents DocumentsSpec Planner.
From S2P Require Import Budget Executor ExecutorSpec ExecutorLog ExecutorRun.
Local Open Scope Z_scope.
Local Open Scope string_scope.
Local Open Scope list_scope.

(** ** Branches *)

(** The scenarios recorded for a capability: one entry per mention. *)
Definition mentions (cs : list ScenarioCandidate) (capability : string) : list string :=
  c ← cs; (fun _ => scID c) <$> filter (fun x => x = capability) (scCapabilities c).

Lemma add_branches id caps b capability :
  default [] (foldl (add_branch id) b caps !! capability) =
  default [] (b !! capability) ++ ((fun _ => id) <$> filter (fun x => x = capability) caps).
Proof.
  revert b. induction caps as [|c caps IH]; intros b; simpl; [by rewrite app_nil_r|].
  rewrite IH. unfold add_branch. rewrite filter_cons. case_decide as E.
  - subst c. rewrite lookup_insert_eq. simpl. by rewrite <- app_assoc.
  - by rewrite lookup_insert_ne.
Qed.

Lemma add_branches_dom id caps b :
  dom (foldl (add_branch id) b caps) = dom b ∪ list_to_set caps.
Proof.
  revert b. induction caps as [|c caps IH]; intros b; simpl; [set_solver|].
  rewrite IH. unfold add_branch. rewrite dom_insert_L. set_solver.
Qed.

Lemma candidate_step_ok c st st' :
  candidate_step c st = (Ok tt, st') <->
  scID c <> "" ∧ scID c ∉ seen st ∧
  st' = mkCandidates (foldl (add_branch (scID c)) (branches st) (scCapabilities c))
          (candidateIDs st ++ [scID c]) ({[scID c]} ∪ seen st).
Proof.
  unfold candidate_step, fail_if, get, put, fail, mret, gom_ret, mbind, gom_bind.
  case_decide; [naive_solver|]. case_decide; [naive_solver|]. naive_solver.
Qed.

(** What the loop over the candidates leaves. *)
Lemma candidates_ok cs : forall st st',
  for_eachM candidate_step cs st = (Ok tt, st') ->
  Forall (fun c => scID c <> "") cs ∧ NoDup (scID <$> cs) ∧
  (forall c, c ∈ cs -> scID c ∉ seen st) ∧
  candidateIDs st' = candidateIDs st ++ (scID <$> cs) ∧
  dom (branches st') = dom (branches st) ∪ list_to_set (cs ≫= scCapabilities) ∧
  forall capability, default [] (branches st' !! capability) =
    default [] (branches st !! capability) ++ mentions cs capability.
Proof.
  induction cs as [|c cs IH]; intros st st'; cbn [for_eachM].
  - intros [= <-]. split_and!; try done; [constructor|set_solver|by rewrite app_nil_r|set_solver|].
    intros. by rewrite app_nil_r.
  - unfold mbind at 1, gom_bind at 1. destruct (candidate_step c st) as [[[]|] st1] eqn:E; [|done].
    apply candidate_step_ok in E as (H1 & H2 & ->). intros H. apply IH in H as (A & B & C & D & F & G).
    simpl in *. split_and!.
    + by constructor.
    + apply NoDup_cons. split; [|done]. intros (c' & Hc & Hin)%list_elem_of_fmap.
      specialize (C c' Hin). set_solver.
    + intros c' [->|Hin]%elem_of_cons; [done|]. specialize (C c' Hin). set_solver.
    + by rewrite D, <- app_assoc.
    + rewrite F, add_branches_dom, list_to_set_app_L. set_solver.
    + intros capability. rewrite G, add_branches, <- app_assoc. done.
Qed.

Lemma elem_of_mentions cs capability s :
  s ∈ mentions cs capability <-> exists c, c ∈ cs ∧ scID c = s ∧ capability ∈ scCapabilities c.
Proof.
  unfold mentions. rewrite list_elem_of_bind. split.
  - intros (c & Hs & Hc). exists c. rewrite list_elem_of_fmap in Hs.
    destruct Hs as (x & -> & Hx). apply list_elem_of_filter in Hx as [-> ?]. done.
  - intros (c & Hc & <- & Hcap). exists c. split; [|done]. apply list_elem_of_fmap.
    exists capability. split; [done|]. by apply list_elem_of_filter.
Qed.

Lemma candidates_run cs : forall st,
  Forall (fun c => scID c <> "") cs -> NoDup (scID <$> cs) ->
  (forall c, c ∈ cs -> scID c ∉ seen st) -> exists st', for_eachM candidate_step cs st = (Ok tt, st').
Proof.
  induction cs as [|c cs IH]; intros st H1 H2 H3; cbn [for_eachM]; [by exists st|].
  inversion H1; subst. rewrite fmap_cons, NoDup_cons, list_elem_of_fmap in H2. destruct H2 as [Hn H2].
  unfold mbind, gom_bind. destruct (candidate_step c st) as [r st1] eqn:E.
  assert (candidate_step c st = (Ok tt, mkCandidates (foldl (add_branch (scID c)) (branches st) (scCapabilities c))
          (candidateIDs st ++ [scID c]) ({[scID c]} ∪ seen st))) as E'.
  { apply candidate_step_ok. split_and!; [done| |done]. apply H3. by left. }
  rewrite E' in E. injection E as <- <-. apply IH; [done..|]. simpl. intros c' Hc'.
  apply not_elem_of_union. split; [|apply H3; by right]. rewrite elem_of_singleton.
  intros Heq. apply Hn. eauto.
Qed.

Lemma mentions_perm cs cs' capability : cs ≡ₚ cs' -> mentions cs capability ≡ₚ mentions cs' capability.
Proof. intros H. unfold mentions. by rewrite H. Qed.

(** The branches of a map that holds the mentions of [cs]. *)
Definition branches_of (cs : list ScenarioCandidate) : list ConditionalBranch :=
  (fun capability => mkConditionalBranch capability (sort_Strings (mentions cs capability)))
    <$> sort_Strings (elements (list_to_set (cs ≫= scCapabilities) : gset string)).

Lemma conditional_branches_of cs st :
  for_eachM candidate_step cs (mkCandidates ∅ [] ∅) = (Ok tt, st) ->
  conditional_branches (branches st) = branches_of cs ∧ candidateIDs st = scID <$> cs ∧
  Forall (fun c => scID c <> "") cs ∧ NoDup (scID <$> cs).
Proof.
  intros H. apply candidates_ok in H as (A & B & _ & D & F & G). simpl in *.
  split_and!; [|done..]. unfold conditional_branches, branches_of.
  rewrite F, dom_empty_L, (left_id_L ∅ _). apply list_fmap_ext. intros i x _.
  by rewrite G.
Qed.

Lemma elem_of_branches_of cs b :
  b ∈ branches_of cs <-> (exists c, c ∈ cs ∧ brCapability b ∈ scCapabilities c) ∧
    brScenarios b = sort_Strings (mentions cs (brCapability b)).
Proof.
  unfold branches_of. rewrite list_elem_of_fmap. split.
  - intros (x & -> & Hx). rewrite elem_of_sort_Strings, elem_of_elements in Hx. simpl.
    split; [|done]. set_solver.
  - intros ((c & Hc & Hcap) & Hs). exists (brCapability b).
    rewrite elem_of_sort_Strings, elem_of_elements. split; [|set_solver].
    destruct b as [x s]. simpl in *. by subst.
Qed.

Section Intent.
Context {lib : DocumentLibrary} {ro : RangeOrder string string}.
Variable marshal_strings : list string -> result error (list ascii).
Variable marshal_intent : intentProjection -> result error (list ascii).

Lemma BuildIntent_ok request plan :
  BuildIntent marshal_strings marshal_intent request = Ok plan ->
  IntentPlan_Validate plan = Ok tt ∧
  ipConditionalBranches plan = branches_of (irScenarios request) ∧
  Forall (fun c => scID c <> "") (irScenarios request) ∧ NoDup (scID <$> irScenarios request) ∧
  CanonicalDigest marshal_strings (sort_Strings (scID <$> irScenarios request))
    = Ok (ipCandidateDenominatorDigest plan) ∧ ipBudget plan = irBudget request.
Proof.
  unfold BuildIntent. rewrite bind_Ok. intros ([] & _ & H).
  destruct (for_eachM _ _ _) as [[[]|] st] eqn:E; [|done].
  apply conditional_branches_of in E as (E1 & E2 & E3 & E4).
  apply bind_Ok in H as (den & Hd & H). apply bind_Ok in H as (meta & Hm & H).
  apply bind_Ok in H as ([] & Hv & H). unfold mret, result_ret in H. simplify_eq.
  rewrite E2 in Hd. simpl. by split_and!.
Qed.

(** An intent plan authorises exactly what its candidates ask for: a
    built plan is valid; a scenario is in the branch of a capability if and
    only if a candidate of that name requires that capability; branches are
    strictly ordered by capability and their scenarios are ordered; and the
    candidate denominator is the digest of the sorted candidate names, which
    are unique and not empty. *)
Theorem intent_authorises_exactly request plan
    (Hbuild : BuildIntent marshal_strings marshal_intent request = Ok plan) :
  IntentPlan_Validate plan = Ok tt ∧
  StronglySorted string_lt (brCapability <$> ipConditionalBranches plan) ∧
  Forall (fun b => Sorted string_le (brScenarios b)) (ipConditionalBranches plan) ∧
  (forall capability s,
     (exists b, b ∈ ipConditionalBranches plan ∧ brCapability b = capability ∧ s ∈ brScenarios b) <->
     exists c, c ∈ irScenarios request ∧ scID c = s ∧ capability ∈ scCapabilities c) ∧
  exists ids, ids ≡ₚ (scID <$> irScenarios request) ∧ StronglySorted string_lt ids ∧
    "" ∉ ids ∧ CanonicalDigest marshal_strings ids = Ok (ipCandidateDenominatorDigest plan).
Proof.
  apply BuildIntent_ok in Hbuild as (Hv & Hb & Hne & Hnd & Hden & _). rewrite Hb. split_and!; [done|..].
  - unfold branches_of. rewrite <- list_fmap_compose, list_fmap_id.
    apply sort_Strings_strict, NoDup_elements.
  - apply Forall_forall. intros b Hin. apply elem_of_branches_of in Hin as [_ ->].
    apply sort_Strings_sorted.
  - intros capability s. rewrite <- elem_of_mentions. split.
    + intros (b & Hin & <- & Hs). apply elem_of_branches_of in Hin as [_ E].
      by rewrite E, elem_of_sort_Strings in Hs.
    + intros Hs. exists (mkConditionalBranch capability (sort_Strings (mentions (irScenarios request) capability))).
      split_and!; [|done|simpl; by rewrite elem_of_sort_Strings]. apply elem_of_branches_of. split; [|done].
      apply elem_of_mentions in Hs as (c & Hc & _ & Hcap). by exists c.
  - exists (sort_Strings (scID <$> irScenarios request)).
    split_and!; [apply sort_Strings_perm|by apply sort_Strings_strict| |done].
    rewrite elem_of_sort_Strings. intros (c & Hc & Hin)%list_elem_of_fmap.
    rewrite Forall_forall in Hne. by destruct (Hne c Hin).
Qed.
End Intent.

Section Order.
Context {lib : DocumentLibrary} {ro : RangeOrder string string}.
Variable marshal_strings : list string -> result error (list ascii).
Variable marshal_intent : intentProjection -> result error (list ascii).

Definition with_scenarios (cs : list ScenarioCandidate) (r : IntentRequest) : IntentRequest :=
  mkIntentRequest (irID r) (irCreatedAt r) (irProducer r) (irConfigDigest r) (irTarget r)
    (irSelectors r) (irSupportManifestDigest r) (irProbe r) cs (irBudget r) (irEvidence r)
    (irSafety r) (irAuthor r) (irApprovalRequirements r).

Lemma branches_of_perm cs cs' : cs ≡ₚ cs' -> branches_of cs = branches_of cs'.
Proof.
  intros H. unfold branches_of.
  assert (list_to_set (cs ≫= scCapabilities) = (list_to_set (cs' ≫= scCapabilities) : gset string)) as ->
    by (apply list_to_set_perm_L; by rewrite H).
  apply list_fmap_ext. intros i x _. f_equal. by apply sort_Strings_eq, mentions_perm.
Qed.

(** The order in which candidates are listed does not reach the plan:
    a permutation of the scenarios of a request builds the same intent plan,
    with the same content digest. *)
Theorem intent_independent_of_order request cs plan
    (Hperm : irScenarios request ≡ₚ cs)
    (Hbuild : BuildIntent marshal_strings marshal_intent request = Ok plan) :
  BuildIntent marshal_strings marshal_intent (with_scenarios cs request) = Ok plan.
Proof.
  unfold BuildIntent in *. apply bind_Ok in Hbuild as ([] & H0 & Hbuild). apply err_if_ok in H0.
  destruct (for_eachM _ _ _) as [[[]|] st] eqn:E; [|done].
  apply conditional_branches_of in E as (E1 & E2 & E3 & E4).
  destruct (candidates_run cs (mkCandidates ∅ [] ∅)) as [st' E'];
    [by rewrite <- Hperm|by rewrite <- Hperm|set_solver|].
  pose proof E' as F. apply conditional_branches_of in F as (F1 & F2 & _).
  apply bind_Ok. exists tt. split; [apply err_if_ok; simpl; by rewrite <- Hperm|].
  cbn [irScenarios with_scenarios]. rewrite E'. rewrite E1, E2 in Hbuild. rewrite F1, F2.
  rewrite <- (branches_of_perm _ _ Hperm).
  by rewrite <- (sort_Strings_eq (scID <$> irScenarios request) (scID <$> cs)) by by rewrite Hperm.
Qed.
End Order.

(** ** Facts *)

(** An observation says that [capability] has [status]. *)
Definition reports (obs : list CapabilityObservation) (capability : string)
    (status : CapabilityStatus) : Prop :=
  exists o f, o ∈ obs ∧ f ∈ coFacts o ∧ factCapability f = capability ∧ factStatus f = status.

Definition fact_of (facts : list CapabilityFact) (capability : string) (status : CapabilityStatus) : Prop :=
  exists f, f ∈ facts ∧ factCapability f = capability ∧ factStatus f = status.

Lemma fact_step_ok f m m' :
  fact_step f m = (Ok tt, m') <->
  (forall s, m !! factCapability f = Some s -> s = factStatus f) ∧
  m' = <[factCapability f := factStatus f]> m.
Proof.
  unfold fact_step, fail_if, get, put, fail, mret, gom_ret, mbind, gom_bind.
  destruct (m !! factCapability f) as [s|] eqn:E; [case_decide|]; naive_solver.
Qed.

(** A loop over facts keeps the map single-valued and adds exactly them. *)
Lemma facts_ok fs : forall m m',
  for_eachM fact_step fs m = (Ok tt, m') ->
  forall c s, m' !! c = Some s <-> m !! c = Some s ∨ fact_of fs c s.
Proof.
  induction fs as [|f fs IH]; intros m m'; cbn [for_eachM].
  - intros [= <-] c s. unfold fact_of. set_solver.
  - unfold mbind at 1, gom_bind at 1. destruct (fact_step f m) as [[[]|] m1] eqn:E; [|done].
    apply fact_step_ok in E as [Hold ->]. intros H c s. rewrite (IH _ _ H c s).
    rewrite lookup_insert_Some. unfold fact_of. setoid_rewrite elem_of_cons. split.
    + intros [[[<- <-]|[_ ?]]|(f' & Hf & ?)]; [|by left|]; right; eauto.
    + intros [Hm|(f' & [->|Hf] & <- & <-)]; [|by left; left|by right; exists f'].
      left. destruct (decide (factCapability f = c)) as [<-|]; [|by right].
      left. split; [done|]. symmetry. by apply Hold.
Qed.

Lemma observation_step_ok intent o m m' :
  observation_step intent o m = (Ok tt, m') ->
  coIntentPlanRef o = emObjectRef (ipMeta intent) ∧ for_eachM fact_step (coFacts o) m = (Ok tt, m').
Proof.
  unfold observation_step, fail_if, fail, mret, gom_ret, mbind, gom_bind. case_decide; naive_solver.
Qed.

Lemma observations_ok intent obs : forall m m',
  for_eachM (observation_step intent) obs m = (Ok tt, m') ->
  Forall (fun o => coIntentPlanRef o = emObjectRef (ipMeta intent)) obs ∧
  forall c s, m' !! c = Some s <-> m !! c = Some s ∨ reports obs c s.
Proof.
  induction obs as [|o obs IH]; intros m m'; cbn [for_eachM].
  - intros [= <-]. split; [constructor|]. intros c s. unfold reports. set_solver.
  - unfold mbind at 1, gom_bind at 1.
    destruct (observation_step intent o m) as [[[]|] m1] eqn:E; [|done].
    apply observation_step_ok in E as [Ho Hf]. intros H. apply IH in H as [H1 H2].
    split; [by constructor|]. intros c s. rewrite H2, (facts_ok _ _ _ Hf c s).
    unfold reports, fact_of. setoid_rewrite elem_of_cons. naive_solver.
Qed.

Lemma collectFacts_ok intent obs facts refs :
  collectFacts intent obs = Ok (facts, refs) ->
  Forall (fun o => coIntentPlanRef o = emObjectRef (ipMeta intent)) obs ∧
  refs = (fun o => emObjectRef (coMeta o)) <$> obs ∧
  forall c s, facts !! c = Some s <-> reports obs c s.
Proof.
  unfold collectFacts. destruct (for_eachM _ _ _) as [[[]|] m] eqn:E; [|done].
  apply observations_ok in E as [E1 E2]. intros [= <- <-]. split_and!; [done..|].
  intros c s. rewrite E2, lookup_empty. naive_solver.
Qed.

(** ** Authorisation *)
Definition authorised (intent : IntentPlan) (capability scenario : string) : Prop :=
  exists b, b ∈ ipConditionalBranches intent ∧ brCapability b = capability ∧ scenario ∈ brScenarios b.

Lemma allowed_fold bs : forall (m : gmap string (gset string)) capability s,
  NoDup (brCapability <$> bs) -> (forall b, b ∈ bs -> m !! brCapability b = None) ->
  s ∈ default ∅ (foldl (fun allowed branch =>
        <[brCapability branch := list_to_set (brScenarios branch)]> allowed) m bs !! capability) <->
  s ∈ default ∅ (m !! capability) ∨
  exists b, b ∈ bs ∧ brCapability b = capability ∧ s ∈ brScenarios b.
Proof.
  induction bs as [|b bs IH]; intros m capability s Hn Hm; simpl; [set_solver|].
  rewrite fmap_cons, NoDup_cons, list_elem_of_fmap in Hn. destruct Hn as [Hb Hn].
  rewrite IH; [|done|].
  - setoid_rewrite elem_of_cons. destruct (decide (brCapability b = capability)) as [<-|Hne].
    + rewrite lookup_insert_eq, (Hm b) by (by left). simpl. set_solver.
    + rewrite lookup_insert_ne by done. naive_solver.
  - intros b' Hb'. rewrite lookup_insert_ne; [apply Hm; by right|]. intros E. apply Hb. eauto.
Qed.

Lemma branches_unique bs : validateIntentBranches bs = Ok tt -> NoDup (brCapability <$> bs).
Proof.
  unfold validateIntentBranches.
  assert (forall s, (for_eachM branch_check bs s).1 = Ok tt ->
    NoDup (brCapability <$> bs) ∧ forall b, b ∈ bs -> brCapability b ∉ s) as H;
    [|intros E; exact (proj1 (H _ E))].
  induction bs as [|b bs IH]; intros s; cbn [for_eachM]; [split; [constructor|set_solver]|].
  unfold mbind at 1, gom_bind at 1.
  destruct (branch_check b s) as [[[]|] s1] eqn:E; [|done]. intros H. apply IH in H as [H1 H2].
  unfold branch_check, fail_if, get, put, fail, mret, gom_ret, mbind, gom_bind in E.
  repeat case_decide; simplify_eq. split.
  - apply NoDup_cons. split; [|done]. intros (b' & Hb & Hin)%list_elem_of_fmap.
    specialize (H2 b' Hin). set_solver.
  - intros b' [->|Hin]%elem_of_cons; [done|]. specialize (H2 b' Hin). set_solver.
Qed.

Lemma allowedBranches_ok intent capability s :
  validateIntentBranches (ipConditionalBranches intent) = Ok tt ->
  s ∈ default ∅ (allowedBranches intent !! capability) <-> authorised intent capability s.
Proof.
  intros H%branches_unique. unfold allowedBranches. rewrite allowed_fold; [|done|done].
  rewrite lookup_empty. unfold authorised. set_solver.
Qed.

(** ** Decisions *)

(** Nothing observed, or observed as unknown. *)
Definition unobserved (facts : gmap string CapabilityStatus) (capability : string) : Prop :=
  default "" (facts !! capability) ∈ [CapabilityUnknown; ""].
Definition unsupported (facts : gmap string CapabilityStatus) (capability : string) : Prop :=
  facts !! capability = Some CapabilityUnsupported.
#[local] Instance unobserved_dec facts c : Decision (unobserved facts c).
Proof. unfold unobserved. apply _. Defined.
#[local] Instance unsupported_dec facts c : Decision (unsupported facts c).
Proof. unfold unsupported. apply _. Defined.

(** The disposition of a candidate, from any starting disposition. *)
Definition disposition_from (facts : gmap string CapabilityStatus) (caps : list string)
    (start : PlanDisposition * string) : PlanDisposition * string :=
  if decide (Exists (unsupported facts) caps) then
    (DispositionNotApplicable, ReasonUnsupportedCapability)
  else if decide (start.1 = DispositionExecute ∧ Exists (unobserved facts) caps) then
    (DispositionSkip, ReasonNotObserved)
  else start.

Lemma capability_step_ok allowed facts id c st st' :
  capability_step allowed facts id c st = (Ok tt, st') <->
  id ∈ default ∅ (allowed !! c) ∧ st' = disposition_from facts [c] st.
Proof.
  unfold capability_step, disposition_from, fail_if, get, put, fail, mret, gom_ret, mbind, gom_bind.
  destruct st as [d r].
  case_decide as A; [naive_solver|]. cbn [fst].
  repeat case_decide; rewrite ?Exists_cons, ?Exists_nil in *;
    unfold unsupported, unobserved in *; rewrite ?elem_of_cons, ?elem_of_nil in *;
    destruct (facts !! c) as [s|]; simpl in *; naive_solver.
Qed.

Lemma disposition_from_cons facts c caps st :
  disposition_from facts caps (disposition_from facts [c] st) = disposition_from facts (c :: caps) st.
Proof.
  unfold disposition_from. destruct st as [d r]. cbn [fst].
  repeat (case_decide; simpl in *); rewrite ?Exists_cons, ?Exists_nil in *; naive_solver.
Qed.

Lemma capabilities_ok allowed facts id caps : forall st st',
  for_eachM (capability_step allowed facts id) caps st = (Ok tt, st') <->
  Forall (fun c => id ∈ default ∅ (allowed !! c)) caps ∧ st' = disposition_from facts caps st.
Proof.
  induction caps as [|c caps IH]; intros st st'; cbn [for_eachM].
  - rewrite Forall_nil. unfold disposition_from. rewrite !decide_False
      by (rewrite Exists_nil; tauto). unfold mret, gom_ret. naive_solver.
  - rewrite Forall_cons, <- disposition_from_cons. unfold mbind at 1, gom_bind at 1.
    destruct (capability_step allowed facts id c st) as [[[]|e] st1] eqn:E.
    + apply capability_step_ok in E as [E ->]. rewrite IH. naive_solver.
    + split; [done|]. intros [[Hc _] _].
      assert (capability_step allowed facts id c st = (Ok tt, disposition_from facts [c] st)) as E'
        by by apply capability_step_ok. by rewrite E' in E.
Qed.

(** The decision a candidate gets, in terms of what was observed. *)
Record decided (intent : IntentPlan) (obs : list CapabilityObservation) (c : ScenarioCandidate)
    (d : ScenarioDecision) : Prop := {
  dc_id : ScenarioID d = scID c;
  dc_driver : Driver d = scDriver c;
  dc_depends : DependsOn d = scDependsOn c;
  dc_authorised cap : cap ∈ scCapabilities c -> authorised intent cap (scID c);
  dc_not_applicable : Disposition d = DispositionNotApplicable <->
    exists cap, cap ∈ scCapabilities c ∧ reports obs cap CapabilityUnsupported;
  dc_execute : Disposition d = DispositionExecute <->
    forall cap, cap ∈ scCapabilities c -> exists status, reports obs cap status ∧
      status ∉ [CapabilityUnsupported; CapabilityUnknown; ""];
  dc_reason : (Disposition d, ReasonCode_ d) ∈
    [(DispositionExecute, ""); (DispositionSkip, ReasonNotObserved);
     (DispositionNotApplicable, ReasonUnsupportedCapability)]
}.

Lemma disposition_cases facts caps :
  let '(d, r) := disposition_from facts caps (DispositionExecute, "") in
  (d = DispositionNotApplicable <-> Exists (unsupported facts) caps) ∧
  (d = DispositionExecute <-> Forall (fun c => ~ unsupported facts c ∧ ~ unobserved facts c) caps) ∧
  (d, r) ∈ [(DispositionExecute, ""); (DispositionSkip, ReasonNotObserved);
     (DispositionNotApplicable, ReasonUnsupportedCapability)].
Proof.
  unfold disposition_from. cbn [fst]. case_decide as U.
  - split_and!; [done| |set_solver]. split; [done|]. rewrite Forall_forall. intros F.
    apply Exists_exists in U as (c & Hc & Hu). by destruct (F c Hc).
  - case_decide as V.
    + destruct V as [_ V]. split_and!; [done| |set_solver]. split; [done|]. rewrite Forall_forall.
      intros F. apply Exists_exists in V as (c & Hc & Hu). by destruct (F c Hc).
    + split_and!; [done| |set_solver]. split; [|done]. intros _. apply Forall_forall. intros c Hc.
      rewrite !Exists_exists in *. naive_solver.
Qed.

Lemma decide_candidate_ok intent obs facts c d :
  validateIntentBranches (ipConditionalBranches intent) = Ok tt ->
  (forall cap s, facts !! cap = Some s <-> reports obs cap s) ->
  decide_candidate (allowedBranches intent) facts c = Ok d -> decided intent obs c d.
Proof.
  intros Hb Hf. unfold decide_candidate.
  destruct (for_eachM _ _ _) as [[[]|] [dis reason]] eqn:E; [|done]. intros [= <-].
  apply capabilities_ok in E as [Ha E]. pose proof (disposition_cases facts (scCapabilities c)) as D.
  rewrite <- E in D. destruct D as (D1 & D2 & D3). rewrite Forall_forall in Ha.
  split; simpl; try done.
  - intros cap Hc. by apply allowedBranches_ok, Ha.
  - rewrite D1, Exists_exists. unfold unsupported. by setoid_rewrite Hf.
  - rewrite D2, Forall_forall. unfold unsupported, unobserved. split; intros F cap Hc.
    + destruct (F cap Hc) as [F1 F2]. destruct (facts !! cap) as [s|] eqn:Hs;
        [|by destruct F2; right; left].
      exists s. split; [by apply Hf|]. intros [->|?]%elem_of_cons; [done|done].
    + destruct (F cap Hc) as (s & Hs & Hn). apply Hf in Hs.
      split; intros Hin; unfold CapabilityStatus in *; rewrite Hs in Hin; apply Hn;
        [injection Hin as ->; by left|right; exact Hin].
Qed.

Lemma decide_candidates_ok intent obs facts cs : forall ds,
  validateIntentBranches (ipConditionalBranches intent) = Ok tt ->
  (forall cap s, facts !! cap = Some s <-> reports obs cap s) ->
  decide_candidates (allowedBranches intent) facts cs = Ok ds -> Forall2 (decided intent obs) cs ds.
Proof.
  induction cs as [|c cs IH]; intros ds Hb Hf; cbn [decide_candidates].
  - intros [= <-]. constructor.
  - intros (d & Hd & H)%bind_Ok. apply bind_Ok in H as (ds' & Hds & [= <-]).
    constructor; [by eapply decide_candidate_ok|by apply IH].
Qed.

Section Resolve.
Context {lib : DocumentLibrary} {ro : RangeOrder string string}.
Variable marshal_strings : list string -> result error (list ascii).
Variable marshal_resolved : resolvedProjection -> result error (list ascii).

Lemma IntentPlan_branches intent :
  IntentPlan_Validate intent = Ok tt -> validateIntentBranches (ipConditionalBranches intent) = Ok tt.
Proof.
  unfold IntentPlan_Validate. rewrite !bind_ok. intros (_ & _ & _ & _ & _ & _ & _ & H). exact H.
Qed.

Lemma Resolve_ok intent request plan :
  Resolve marshal_strings marshal_resolved intent request = Ok plan ->
  IntentPlan_Validate intent = Ok tt ∧ ResolvedRunPlan_Validate plan = Ok tt ∧
  Forall (fun o => coIntentPlanRef o = emObjectRef (ipMeta intent)) (rrObservations request) ∧
  rpCapabilityObservationRefs plan = ((fun o => emObjectRef (coMeta o)) <$> rrObservations request) ∧
  rpIntentPlanRef plan = emObjectRef (ipMeta intent) ∧ rpBudget plan = ipBudget intent ∧
  Forall2 (decided intent (rrObservations request)) (rrScenarios request) (rpScenarios plan) ∧
  CanonicalDigest marshal_strings (sort_Strings (applicable_ids (rpScenarios plan)))
    = Ok (rpDenominatorDigest plan) ∧
  exists facts : gmap string CapabilityStatus, forall c s, facts !! c = Some s <-> reports (rrObservations request) c s.
Proof.
  unfold Resolve. intros ([] & Hi & H)%bind_Ok. apply wrap_ok in Hi.
  apply bind_Ok in H as ([facts refs] & Hf & H). apply collectFacts_ok in Hf as (Hf1 & -> & Hf2).
  apply bind_Ok in H as (ds & Hd & H). apply bind_Ok in H as (den & Hden & H).
  apply bind_Ok in H as (meta & Hm & H). apply bind_Ok in H as ([] & Hv & H).
  unfold mret, result_ret in H. simplify_eq. simpl. split_and!; try done; [|by exists facts].
  eapply decide_candidates_ok; [by apply IntentPlan_branches|done..].
Qed.

(** Resolving decides each candidate by what was observed: a resolved
    plan is valid, keeps the budget of its intent and refers to it, and every
    observation it used is bound to that intent; observations never disagree
    on a capability; there is one decision per candidate, in order, with its
    name, driver and dependencies; every capability of a candidate is in a
    branch the intent authorised for it; a candidate is not applicable
    exactly when one of its capabilities was observed as unsupported, and is
    executed exactly when each was observed with a status other than
    unsupported and unknown. *)
Theorem resolve_decides_by_observation intent request plan
    (Hresolve : Resolve marshal_strings marshal_resolved intent request = Ok plan) :
  ResolvedRunPlan_Validate plan = Ok tt ∧ rpBudget plan = ipBudget intent ∧
  rpIntentPlanRef plan = emObjectRef (ipMeta intent) ∧
  Forall (fun o => coIntentPlanRef o = rpIntentPlanRef plan) (rrObservations request) ∧
  (forall c s1 s2, reports (rrObservations request) c s1 -> reports (rrObservations request) c s2 ->
     s1 = s2) ∧
  Forall2 (decided intent (rrObservations request)) (rrScenarios request) (rpScenarios plan).
Proof.
  apply Resolve_ok in Hresolve as (_ & Hv & Ho & _ & Hr & Hb & Hd & _ & facts & Hf).
  rewrite Hr. split_and!; try done. intros c s1 s2 H1%Hf H2%Hf. congruence.
Qed.
End Resolve.

(** ** From the intent to the runner *)

(** Every logged invocation is of a scenario of the plan that is planned for
    execution. *)
Lemma logged_scenario `{DocumentLibrary} {ro : RangeOrder string string} {W Runner}
    (env0 : Environment W Runner) plan digest h w r w' log l inv :
  Execute (env := logged env0) plan digest h (w, []) = (Ok r, (w', log, l)) -> inv ∈ log ->
  invScenario inv ∈ rpScenarios plan ∧ Disposition (invScenario inv) = DispositionExecute.
Proof.
  intros Hexec Hin.
  destruct (Execute_progress _ _ _ _ _ _ _ _ _ Hexec) as (_ & attss & segs & _ & -> & [_ _ P2 P]).
  apply list_elem_of_In, in_concat in Hin as (seg & Hseg & Hin).
  apply list_elem_of_In in Hseg, Hin.
  apply list_elem_of_lookup in Hin as [k Hk]. apply list_elem_of_lookup in Hseg as [i Hi].
  destruct (lookup_lt_is_Some_2 (rpScenarios plan) i) as [d Hd];
    [rewrite <- P2; by eapply lookup_lt_Some|].
  destruct (P i d Hd) as (c & seg' & attempts & _ & Hs' & _ & _ & _ & [iid Hok] & _ & Hdep).
  assert (seg' = seg) as -> by congruence. rewrite (Hok k inv Hk). simpl.
  split; [by eapply list_elem_of_lookup_2|]. apply Hdep. by destruct seg.
Qed.

(** [C2] Nothing runs that was not approved and observed: when an intent was
    built, resolved and executed, every call of a runner is for a candidate
    of the resolution, each of whose capabilities the candidates of the
    intent asked for under the same name, and was reported, by an
    observation bound to that very intent, with a status other than
    unsupported, unknown and the empty one; and the run is charged to the
    intent's budget. *)
Theorem nothing_runs_unapproved `{DocumentLibrary} {ro : RangeOrder string string} {W Runner}
    (env0 : Environment W Runner) marshal_strings marshal_intent marshal_resolved
    ireq intent rreq plan digest h w r w' log l
    (Hbuild : BuildIntent marshal_strings marshal_intent ireq = Ok intent)
    (Hresolve : Resolve marshal_strings marshal_resolved intent rreq = Ok plan)
    (Hexec : Execute (env := logged env0) plan digest h (w, []) = (Ok r, (w', log, l))) :
  rpBudget plan = irBudget ireq ∧
  forall inv, inv ∈ log -> exists c, c ∈ rrScenarios rreq ∧ scID c = ScenarioID (invScenario inv) ∧
    forall cap, cap ∈ scCapabilities c ->
      (exists c0, c0 ∈ irScenarios ireq ∧ scID c0 = scID c ∧ cap ∈ scCapabilities c0) ∧
      exists o f, o ∈ rrObservations rreq ∧ coIntentPlanRef o = emObjectRef (ipMeta intent) ∧
        f ∈ coFacts o ∧ factCapability f = cap ∧
        factStatus f ∉ [CapabilityUnsupported; CapabilityUnknown; ""].
Proof.
  apply Resolve_ok in Hresolve as (_ & _ & Ho & _ & _ & Hb & Hd & _). rewrite Forall_forall in Ho.
  apply BuildIntent_ok in Hbuild as (_ & E & _ & _ & _ & Hbud). split; [by rewrite Hb|].
  intros inv Hin. destruct (logged_scenario _ _ _ _ _ _ _ _ _ _ Hexec Hin) as [Hs Hx].
  apply list_elem_of_lookup in Hs as [i Hi].
  destruct (Forall2_lookup_r _ _ _ _ _ Hd Hi) as (c & Hc & D). exists c.
  split_and!; [by eapply list_elem_of_lookup_2|by rewrite (dc_id _ _ _ _ D)|].
  intros cap Hcap. split.
  - destruct (dc_authorised _ _ _ _ D cap Hcap) as (b & Hbin & <- & Hbs).
    rewrite E in Hbin.
    apply elem_of_branches_of in Hbin as [_ Hm]. rewrite Hm, elem_of_sort_Strings in Hbs.
    by apply elem_of_mentions in Hbs.
  - destruct (proj1 (dc_execute _ _ _ _ D) Hx cap Hcap) as (s & (o & f & Ho' & Hf & Hc' & <-) & Hn).
    exists o, f. split_and!; try done. by apply Ho.
Qed.

(** ** A concrete plan *)
#[local] Instance sample_library : JSONLibrary := {
  NewDecoder raw := mkDecoder [Scalar SNull] io_EOF false;
  jcs_Transform raw := Ok raw;
  Sum256 data := resize 32 "0"%char (rev data);
  Sum256_length data := length_resize (rev data) 32 "0"%char
}.
#[local] Instance sample_documents : DocumentLibrary := {
  json_Valid _ := true;
  url_Parse _ := Ok (mkURL "https" "example.test" "" "" "" false)
}.
Definition sample_marshal {A} (_ : A) : result error (list ascii) := Ok [].

Definition sample_candidates : list ScenarioCandidate :=
  [mkScenarioCandidate "stream" ["streaming"; "chat"] sample_driver [];
   mkScenarioCandidate "tools" ["tools"] sample_driver ["stream"]].
Definition sample_intent_request : IntentRequest := {|
  irID := sample_id; irCreatedAt := 7; irProducer := mkProducer "doctor" "1" sample_digest;
  irConfigDigest := sample_digest;
  irTarget := mkTargetIntent "target" "openai" "any" "https://example.test";
  irSelectors := [mkArtifactSelector "Driver" "raw" "" []];
  irSupportManifestDigest := sample_digest;
  irProbe := mkProbePolicy [] sample_hard "";
  irScenarios := sample_candidates; irBudget := sample_policy;
  irEvidence := mkEvidencePolicy "" "" ""; irSafety := mkSafetyPolicy "" "" "" [];
  irAuthor := "author"; irApprovalRequirements := []
|}.
Definition empty_intent : IntentPlan :=
  mkIntentPlan (rpMeta sample_plan) "" "" (irTarget sample_intent_request) [] "" ""
    (irProbe sample_intent_request) [] sample_policy (irEvidence sample_intent_request)
    (irSafety sample_intent_request) "" [].
Definition sample_intent : IntentPlan :=
  match BuildIntent sample_marshal sample_marshal sample_intent_request with
  | Ok plan => plan | Err _ => empty_intent end.

Definition sample_observation (c s : string) : CapabilityObservation :=
  mkCapabilityObservation (ipMeta sample_intent) "" (emObjectRef (ipMeta sample_intent)) ""
    [mkCapabilityFact c s []] sample_hard.
Definition sample_resolution : ResolutionRequest :=
  mkResolutionRequest sample_id 8 (mkProducer "doctor" "1" sample_digest) sample_driver
    [sample_observation "streaming" CapabilitySupported; sample_observation "chat" CapabilitySupported;
     sample_observation "tools" CapabilityUnsupported]
    sample_digest [sample_driver] (rpTarget sample_plan) sample_candidates (rpRuntime sample_plan) [].
Definition sample_resolved : ResolvedRunPlan :=
  match Resolve sample_marshal sample_marshal sample_intent sample_resolution with
  | Ok plan => plan | Err _ => sample_plan end.

Example sample_dispositions :
  Disposition <$> rpScenarios sample_resolved = [DispositionExecute; DispositionNotApplicable].
Proof. vm_compute. reflexivity. Qed.

Lemma intent_authorises_exactly_witness : IntentPlan_Validate sample_intent = Ok tt.
Proof.
  apply (intent_authorises_exactly sample_marshal sample_marshal sample_intent_request sample_intent).
  vm_compute. reflexivity.
Defined.

Lemma intent_independent_of_order_witness :
  BuildIntent sample_marshal sample_marshal
    (with_scenarios (rev sample_candidates) sample_intent_request) = Ok sample_intent.
Proof.
  apply (intent_independent_of_order sample_marshal sample_marshal sample_intent_request).
  - apply Permutation_rev.
  - vm_compute. reflexivity.
Defined.

Lemma resolve_decides_by_observation_witness :
  Forall2 (decided sample_intent (rrObservations sample_resolution)) sample_candidates
    (rpScenarios sample_resolved).
Proof.
  apply (resolve_decides_by_observation sample_marshal sample_marshal sample_intent sample_resolution
    sample_resolved).
  vm_compute. reflexivity.
Defined.

Definition approved_run : result error (ExecutionResult * option error) *
    (nat * list Invocation * option Ledger) :=
  Execute (env := logged sample_env) sample_resolved (emContentDigest (rpMeta sample_resolved)) true
    (0%nat, []).
Definition approved_result : ExecutionResult * option error :=
  match approved_run.1 with
  | Ok r => r
  | Err _ => (mkExecutionResult "" sample_ref [] [] None [] 0 0, None)
  end.

(** A status outside the vocabulary counts as support. *)
Example misspelt_status_is_support :
  capability_step {["streaming" := {["scenario"]}]} {["streaming" := "Unsupported"]} "scenario" "streaming"
    (DispositionExecute, "") = (Ok tt, (DispositionExecute, "")).
Proof. vm_compute. reflexivity. Qed.

Lemma nothing_runs_unapproved_witness :
  length approved_run.2.1.2 = 2%nat ∧ rpBudget sample_resolved = sample_policy.
Proof.
  split; [vm_compute; reflexivity|].
  apply (nothing_runs_unapproved sample_env sample_marshal sample_marshal sample_marshal
    sample_intent_request sample_intent sample_resolution sample_resolved
    (emContentDigest (rpMeta sample_resolved)) true 0%nat approved_result approved_run.2.1.1
    approved_run.2.1.2 approved_run.2.2).
  - vm_compute. reflexivity.
  - vm_compute. reflexivity.
  - vm_compute. reflexivity.
Defined.
