(* ===== verification/DriverProtocol.v ===== *)
(** * pkg/driverprotocol: the serial Driver RPC lifecycle

    Messages, parameter validation (protocol.go, codec.go) and the state
    machine (state.go).  What encoding/json decodes into the package's types
    is a parameter, [JSONCodec]; canonicalization is that of Canonical.v. *)
From Stdlib Require Import ZArith Ascii String Lia.
From stdpp Require Import base gmap sets list strings.
From S2P Require Import Prelude Schema Canonical.
Local Open Scope Z_scope.
Local Open Scope string_scope.
Local Open Scope list_scope.

(** ** Protocol errors *)
Definition ErrorClass := string.
Definition ErrorUnsupportedRPCVersion : ErrorClass := "unsupported_rpc_version".
Definition ErrorInvalidState : ErrorClass := "invalid_state".
Definition ErrorInvalidRequest : ErrorClass := "invalid_request".
Definition ErrorPermissionDenied : ErrorClass := "permission_denied".
Definition ErrorBudgetExceeded : ErrorClass := "budget_exceeded".
Definition ErrorCapabilityMismatch : ErrorClass := "capability_mismatch".
Definition ErrorDriverInternal : ErrorClass := "driver_internal".
Definition ErrorCancellationTimeout : ErrorClass := "cancellation_timeout".
Definition ErrorMalformedObservation : ErrorClass := "malformed_observation".
Definition ErrorArtifactMismatch : ErrorClass := "artifact_mismatch".

Definition stableErrorClasses : list ErrorClass :=
  [ErrorUnsupportedRPCVersion; ErrorInvalidState; ErrorInvalidRequest; ErrorPermissionDenied;
   ErrorBudgetExceeded; ErrorCapabilityMismatch; ErrorDriverInternal; ErrorCancellationTimeout;
   ErrorMalformedObservation; ErrorArtifactMismatch].

(** [*ProtocolError]: a class, a message and an optional cause, which may be
    another protocol error. *)
Inductive ProtocolError :=
| protocolError (class : ErrorClass) (m : message) (cause : Cause)
with Cause :=
| NoCause
| CauseError (e : error)
| CauseProtocol (p : ProtocolError).

(** ** Methods *)
Definition Method := string.
Definition MethodHello : Method := "driver.hello".
Definition MethodPrepare : Method := "driver.prepare".
Definition MethodCapabilities : Method := "driver.capabilities".
Definition MethodInvoke : Method := "driver.invoke".
Definition MethodCancel : Method := "driver.cancel".
Definition MethodReset : Method := "driver.reset".
Definition MethodShutdown : Method := "driver.shutdown".
Definition MethodObservation : Method := "driver.observation".
Definition MethodCompleted : Method := "driver.completed".

Definition requestMethods : list Method :=
  [MethodHello; MethodPrepare; MethodCapabilities; MethodInvoke; MethodCancel; MethodReset;
   MethodShutdown].
Definition notificationMethods : list Method := [MethodObservation; MethodCompleted].

Definition Method_validate (method : Method) : result error unit :=
  if decide (method ∈ requestMethods) then Ok tt
  else if decide (method ∈ notificationMethods) then Ok tt
  else Err (ErrorNew (Sprintf "unknown driver method %q" [FStr method])).

(** ** Parameters *)
Definition RawMessage := string.

Record VersionRange := mkVersionRange { Minimum : string; Maximum : string }.

Definition VersionRange_validate (version : VersionRange) : result error unit :=
  err_if (Minimum version = "" ∨ Maximum version = "")
    (ErrorNew (Text "minimum and maximum RPC versions are required")).

Record HelloParams := mkHelloParams { CoreVersionRange : VersionRange }.
Definition HelloParams_Validate (params : HelloParams) : result error unit :=
  VersionRange_validate (CoreVersionRange params).

Record PrepareParams := mkPrepareParams {
  ResolvedPlanDigest : Digest;
  CapabilityToken : string;
  FixtureRefs : list ObjectRef;
  ApprovedPermissions : list string
}.

Definition PrepareParams_Validate (params : PrepareParams) : result error unit :=
  wrap (Wrapf (Text "resolved plan digest: %w")) (Digest_Validate (ResolvedPlanDigest params));;
  err_if (CapabilityToken params = "") (ErrorNew (Text "capability token is required"));;
  for_each (fun '(index, ref) =>
    wrap (Wrapf (Sprintf "fixture_refs[%d]: %w" [FInt index])) (ObjectRef_Validate ref))
    (enumerate (FixtureRefs params)).

Record ExactInputHandle := mkExactInputHandle { HandleKind : string; HandleValue : string }.

Definition ExactInputHandle_validate (handle : ExactInputHandle) : result error unit :=
  err_if (HandleKind handle ∉ ["pipe"; "socket"; "memfd"])
    (ErrorNew (Sprintf "unsupported exact input handle kind %q" [FStr (HandleKind handle)]));;
  err_if (HandleValue handle = "") (ErrorNew (Text "exact input handle value is required")).

Record InvokeParams := mkInvokeParams {
  invInvocationID : InstanceID;
  invAttemptID : InstanceID;
  Operation : string;
  Input : ExactInputHandle
}.

Definition InvokeParams_Validate (params : InvokeParams) : result error unit :=
  wrap (Wrapf (Text "invocation_id: %w")) (InstanceID_Validate (invInvocationID params));;
  wrap (Wrapf (Text "attempt_id: %w")) (InstanceID_Validate (invAttemptID params));;
  err_if (Operation params = "") (ErrorNew (Text "operation is required"));;
  ExactInputHandle_validate (Input params).

Record CancelParams := mkCancelParams {
  canInvocationID : InstanceID;
  Reason : string;
  DeadlineMillis : Z
}.

Definition CancelParams_Validate (params : CancelParams) : result error unit :=
  wrap (Wrapf (Text "invocation_id: %w")) (InstanceID_Validate (canInvocationID params));;
  err_if (Reason params = "") (ErrorNew (Text "cancel reason is required"));;
  err_if (DeadlineMillis params = 0)
    (ErrorNew (Text "cancel deadline_millis must be greater than zero")).

(** [DataStream] is a pointer: [None] is nil. *)
Record ObservationParams := mkObservationParams {
  obsInvocationID : InstanceID;
  obsAttemptID : InstanceID;
  Sequence : Z;
  Kind_ : string;
  MonotonicNS : Z;
  Payload : RawMessage;
  DataStream : option string
}.

Definition TerminalStatus := string.
Definition TerminalCompleted : TerminalStatus := "completed".
Definition TerminalCancelled : TerminalStatus := "cancelled".
Definition TerminalErrored : TerminalStatus := "errored".

Record CompletedParams := mkCompletedParams {
  comInvocationID : InstanceID;
  comAttemptID : InstanceID;
  Status : TerminalStatus;
  LastSequence_ : option Z;
  SummaryDigest : Digest
}.

Definition CompletedParams_Validate (params : CompletedParams) : result error unit :=
  wrap (Wrapf (Text "invocation_id: %w")) (InstanceID_Validate (comInvocationID params));;
  wrap (Wrapf (Text "attempt_id: %w")) (InstanceID_Validate (comAttemptID params));;
  err_if (Status params ∉ [TerminalCompleted; TerminalCancelled; TerminalErrored])
    (ErrorNew (Sprintf "unknown terminal status %q" [FStr (Status params)]));;
  wrap (Wrapf (Text "summary digest: %w")) (Digest_Validate (SummaryDigest params)).

(** ** JSON-RPC envelopes *)
Record ErrorData := mkErrorData { dataClass : ErrorClass; Details : RawMessage }.
Record RPCError := mkRPCError { rpcCode : Z; rpcMessage : string; rpcData : option ErrorData }.

Record Message := mkMessage {
  JSONRPC : string;
  ID : RawMessage;
  MsgMethod : Method;
  Params : RawMessage;
  Result : RawMessage;
  MsgError : option RPCError
}.

Inductive MessageKind := MessageInvalid | MessageRequest | MessageNotification | MessageResponse.

(** The dynamic type a request identifier decodes to. *)
Inductive IDValue :=
| IDString (s : string)
| IDNumber (text : string)
| IDOther (go_type : string).

(** The decoding the package obtains from encoding/json: strict (unknown
    fields and trailing values refused), into each destination type. *)
Class JSONCodec := {
  protocol_library :: JSONLibrary;
  decode_hello : RawMessage -> result error HelloParams;
  decode_prepare : RawMessage -> result error PrepareParams;
  decode_invoke : RawMessage -> result error InvokeParams;
  decode_cancel : RawMessage -> result error CancelParams;
  decode_observation : RawMessage -> result error ObservationParams;
  decode_completed : RawMessage -> result error CompletedParams;
  decode_empty : RawMessage -> result error unit;
  decode_id : RawMessage -> result error IDValue
}.

Section Codec.
Context {codec : JSONCodec}.

(** [schema.CanonicalizeJSON] of a [json.RawMessage], whose bytes are kept as
    a string. *)
Definition CanonicalizeRaw (raw : RawMessage) : result error RawMessage :=
  canonical ← CanonicalizeJSON (list_ascii_of_string raw);
  mret (string_of_list_ascii canonical).

Definition ObservationParams_Validate (params : ObservationParams) : result error unit :=
  wrap (Wrapf (Text "invocation_id: %w")) (InstanceID_Validate (obsInvocationID params));;
  wrap (Wrapf (Text "attempt_id: %w")) (InstanceID_Validate (obsAttemptID params));;
  err_if (Kind_ params = "") (ErrorNew (Text "observation kind is required"));;
  err_if (len (Payload params) ≠ 0 ∧ DataStream params ≠ None)
    (ErrorNew (Text "observation cannot contain both inline payload and data_stream"));;
  (if decide (len (Payload params) ≠ 0)
   then wrap (Wrapf (Text "observation payload: %w")) (CanonicalizeRaw (Payload params));; mret tt
   else mret tt);;
  err_if (DataStream params = Some "") (ErrorNew (Text "data stream ID is required")).

Definition DecodeParamsStrict {A} (decodeStrict : RawMessage -> result error A)
    (raw : RawMessage) : result ProtocolError A :=
  err_if (len raw = 0) (protocolError ErrorInvalidRequest (Text "params are required") NoCause);;
  canonical ← wrap (fun e => protocolError ErrorInvalidRequest
                      (Text "params are not strict JSON") (CauseError e)) (CanonicalizeRaw raw);
  wrap (fun e => protocolError ErrorInvalidRequest (Text "decode params") (CauseError e))
    (decodeStrict canonical).

Definition decodeOptionalEmptyParams (raw : RawMessage) : result ProtocolError unit :=
  if decide (len raw = 0) then Ok tt else DecodeParamsStrict decode_empty raw.

Definition first_byte_is (c : ascii) (s : string) : bool :=
  match s with String a _ => bool_decide (a = c) | EmptyString => false end.

Definition validateParamsShape (raw : RawMessage) : result error unit :=
  canonical ← CanonicalizeRaw raw;
  err_if (len canonical = 0 ∨
          (first_byte_is "{" canonical = false ∧ first_byte_is "[" canonical = false))
    (ErrorNew (Text "params are not an object or array")).

Definition validateRequestID (raw : RawMessage) : result error unit :=
  canonical ← CanonicalizeRaw raw;
  err_if (canonical = "null") (ErrorNew (Text "null request ID is not permitted"));;
  value ← decode_id canonical;
  match value with
  | IDString _ => Ok tt
  | IDNumber text =>
      err_if (string_any (is_one_of ".eE") text = true)
        (ErrorNew (Text "fractional or exponent request ID is not permitted"))
  | IDOther go_type =>
      Err (ErrorNew (Sprintf "request ID must be a string or integer, got %T" [FStr go_type]))
  end.

Definition validateResponseID (raw : RawMessage) : result error unit := validateRequestID raw.

Definition RPCError_Validate (rpcError : RPCError) : result ProtocolError unit :=
  err_if (rpcMessage rpcError = "")
    (protocolError ErrorInvalidRequest (Text "RPC error message is required") NoCause);;
  match rpcData rpcError with
  | None => Err (protocolError ErrorInvalidRequest
                   (Text "RPC error data with a stable class is required") NoCause)
  | Some data =>
      err_if (dataClass data ∉ stableErrorClasses)
        (protocolError ErrorInvalidRequest
           (Sprintf "unknown RPC error class %q" [FStr (dataClass data)]) NoCause);;
      if decide (len (Details data) ≠ 0) then
        wrap (fun e => protocolError ErrorInvalidRequest
                (Text "RPC error details are not strict JSON") (CauseError e))
          (CanonicalizeRaw (Details data));; mret tt
      else mret tt
  end.

Definition Kind (message : Message) : result ProtocolError MessageKind :=
  err_if (JSONRPC message ≠ "2.0")
    (protocolError ErrorUnsupportedRPCVersion (Text "jsonrpc must be 2.0") NoCause);;
  let hasID := negb (bool_decide (len (ID message) = 0)) in
  let hasParams := negb (bool_decide (len (Params message) = 0)) in
  let hasResult := negb (bool_decide (len (Result message) = 0)) in
  let hasError := bool_decide (is_Some (MsgError message)) in
  if decide (MsgMethod message ≠ "") then
    wrap (fun e => protocolError ErrorInvalidRequest
                     (Sprintf "unknown driver method %q" [FStr (MsgMethod message)]) (CauseError e))
      (Method_validate (MsgMethod message));;
    err_if (hasResult = true ∨ hasError = true)
      (protocolError ErrorInvalidRequest
         (Text "method message cannot contain result or error") NoCause);;
    (if hasParams then
       wrap (fun e => protocolError ErrorInvalidRequest
               (Text "params must be an object or array") (CauseError e))
         (validateParamsShape (Params message))
     else mret tt);;
    (if decide (MsgMethod message ∈ notificationMethods) then
       err_if (hasID = true)
         (protocolError ErrorInvalidRequest
            (Text "driver notification must not contain id") NoCause);;
       mret MessageNotification
     else
       err_if (hasID = false)
         (protocolError ErrorInvalidRequest (Text "driver request must contain id") NoCause);;
       wrap (fun e => protocolError ErrorInvalidRequest (Text "invalid request id") (CauseError e))
         (validateRequestID (ID message));;
       mret MessageRequest)
  else
    err_if (hasParams = true)
      (protocolError ErrorInvalidRequest (Text "response cannot contain params") NoCause);;
    err_if (hasID = false ∨ hasResult = hasError)
      (protocolError ErrorInvalidRequest
         (Text "response requires id and exactly one of result or error") NoCause);;
    wrap (fun e => protocolError ErrorInvalidRequest (Text "invalid response id") (CauseError e))
      (validateResponseID (ID message));;
    (match MsgError message with
     | Some rpcError => RPCError_Validate rpcError
     | None => mret tt
     end);;
    mret MessageResponse.

(** ** The lifecycle machine (state.go) *)

Definition State := string.
Definition StateNew : State := "NEW".
Definition StateHello : State := "HELLO".
Definition StatePrepared : State := "PREPARED".
Definition StateInvoking : State := "INVOKING".
Definition StateShutdown : State := "SHUTDOWN".

(** [LastSequence] is meaningful when [HasObservation] is set; it is the zero
    value before that, as in the source. *)
Record ActiveInvocation := mkActiveInvocation {
  InvocationID : InstanceID;
  AttemptID : InstanceID;
  LastSequence : Z;
  HasObservation : bool;
  CancelRequested : bool
}.

(** The mutex serializes the calls: a method is one atomic step. *)
Record Machine := mkMachine {
  state : State;
  active : option ActiveInvocation;
  completed : gset InstanceID
}.

Definition NewMachine : Machine := mkMachine StateNew None ∅.

Definition Active (machine : Machine) : ActiveInvocation * bool :=
  match active machine with
  | None => (mkActiveInvocation "" "" 0 false false, false)
  | Some a => (a, true)
  end.

Definition DriverM := GoM Machine ProtocolError.

Definition set_state (st : State) (m : Machine) : Machine := mkMachine st (active m) (completed m).
Definition set_active (a : option ActiveInvocation) (m : Machine) : Machine :=
  mkMachine (state m) a (completed m).
Definition add_completed (id : InstanceID) (m : Machine) : Machine :=
  mkMachine (state m) (active m) ({[id]} ∪ completed m).

Definition invalidStateLocked (method : Method) (expected : State) (m : Machine) : ProtocolError :=
  protocolError ErrorInvalidState
    (Sprintf "%s requires %s, current state is %s" [FStr method; FStr expected; FStr (state m)])
    NoCause.

Definition AcceptHello : DriverM unit :=
  m ← get;
  fail_if (state m ≠ StateNew) (invalidStateLocked MethodHello StateNew m);;
  modify (set_state StateHello).

Definition AcceptPrepare : DriverM unit :=
  m ← get;
  fail_if (state m ≠ StateHello) (invalidStateLocked MethodPrepare StateHello m);;
  modify (set_state StatePrepared).

Definition CheckCapabilities : DriverM unit :=
  m ← get;
  fail_if (state m ≠ StateHello ∧ state m ≠ StatePrepared)
    (protocolError ErrorInvalidState
       (Sprintf "%s is invalid in %s" [FStr MethodCapabilities; FStr (state m)]) NoCause).

Definition BeginInvocation (params : InvokeParams) : DriverM unit :=
  lift (wrap (fun e => protocolError ErrorInvalidRequest (Text "invalid invoke params")
                         (CauseError e)) (InvokeParams_Validate params));;
  m ← get;
  fail_if (state m ≠ StatePrepared) (invalidStateLocked MethodInvoke StatePrepared m);;
  fail_if (invInvocationID params ∈ completed m)
    (protocolError ErrorInvalidRequest
       (Text "invocation_id cannot be reused after terminal completion") NoCause);;
  modify (set_active (Some (mkActiveInvocation (invInvocationID params) (invAttemptID params)
                              0 false false)));;
  modify (set_state StateInvoking).

(** [if machine.state != StateInvoking || machine.active == nil]. *)
Definition require_invoking (method : Method) : DriverM ActiveInvocation :=
  m ← get;
  match active m with
  | Some a =>
      if decide (state m ≠ StateInvoking)
      then fail (invalidStateLocked method StateInvoking m)
      else mret a
  | None => fail (invalidStateLocked method StateInvoking m)
  end.

Definition RequestCancel (params : CancelParams) : DriverM unit :=
  lift (wrap (fun e => protocolError ErrorInvalidRequest (Text "invalid cancel params")
                         (CauseError e)) (CancelParams_Validate params));;
  a ← require_invoking MethodCancel;
  fail_if (InvocationID a ≠ canInvocationID params)
    (protocolError ErrorInvalidRequest
       (Text "cancel invocation_id does not match the active invocation") NoCause);;
  modify (set_active (Some (mkActiveInvocation (InvocationID a) (AttemptID a) (LastSequence a)
                              (HasObservation a) true))).

Definition Observe (params : ObservationParams) : DriverM unit :=
  lift (wrap (fun e => protocolError ErrorMalformedObservation (Text "invalid observation")
                         (CauseError e)) (ObservationParams_Validate params));;
  a ← require_invoking MethodObservation;
  fail_if (InvocationID a ≠ obsInvocationID params ∨ AttemptID a ≠ obsAttemptID params)
    (protocolError ErrorMalformedObservation
       (Text "observation identity does not match the active invocation and attempt") NoCause);;
  fail_if (HasObservation a = true ∧ Sequence params <= LastSequence a)
    (protocolError ErrorMalformedObservation
       (Sprintf "observation sequence %d is not greater than %d"
          [FInt (Sequence params); FInt (LastSequence a)]) NoCause);;
  modify (set_active (Some (mkActiveInvocation (InvocationID a) (AttemptID a) (Sequence params)
                              true (CancelRequested a)))).

Definition Complete (params : CompletedParams) : DriverM unit :=
  lift (wrap (fun e => protocolError ErrorMalformedObservation (Text "invalid completion")
                         (CauseError e)) (CompletedParams_Validate params));;
  a ← require_invoking MethodCompleted;
  fail_if (InvocationID a ≠ comInvocationID params ∨ AttemptID a ≠ comAttemptID params)
    (protocolError ErrorMalformedObservation
       (Text "completion identity does not match the active invocation and attempt") NoCause);;
  (if HasObservation a then
     fail_if (LastSequence_ params ≠ Some (LastSequence a))
       (protocolError ErrorMalformedObservation
          (Text "completion last_sequence does not match the last observation") NoCause)
   else
     fail_if (LastSequence_ params ≠ None)
       (protocolError ErrorMalformedObservation
          (Text "completion must omit last_sequence when no observation was emitted") NoCause));;
  modify (add_completed (comInvocationID params));;
  modify (set_active None);;
  modify (set_state StatePrepared).

Definition Reset : DriverM unit :=
  m ← get;
  fail_if (state m ≠ StatePrepared) (invalidStateLocked MethodReset StatePrepared m).

Definition Shutdown : DriverM unit :=
  m ← get;
  fail_if (state m ≠ StatePrepared) (invalidStateLocked MethodShutdown StatePrepared m);;
  modify (set_state StateShutdown).

Definition malformed {A} (text : string) (r : result ProtocolError A) : result ProtocolError A :=
  wrap (fun e => protocolError ErrorMalformedObservation (Text text) (CauseProtocol e)) r.

Definition invalid_request {A} (text : string) (r : result error A) : result ProtocolError A :=
  wrap (fun e => protocolError ErrorInvalidRequest (Text text) (CauseError e)) r.

Definition Apply (message : Message) : DriverM unit :=
  kind ← lift (Kind message);
  match kind with
  | MessageResponse =>
      fail (protocolError ErrorInvalidRequest
        (Text "cannot apply an uncorrelated JSON-RPC response to the driver state machine") NoCause)
  | _ =>
      let method := MsgMethod message in
      if decide (method = MethodHello) then
        params ← lift (DecodeParamsStrict decode_hello (Params message));
        lift (invalid_request "invalid hello params" (HelloParams_Validate params));;
        AcceptHello
      else if decide (method = MethodPrepare) then
        params ← lift (DecodeParamsStrict decode_prepare (Params message));
        lift (invalid_request "invalid prepare params" (PrepareParams_Validate params));;
        AcceptPrepare
      else if decide (method = MethodCapabilities) then
        lift (decodeOptionalEmptyParams (Params message));;
        CheckCapabilities
      else if decide (method = MethodInvoke) then
        params ← lift (DecodeParamsStrict decode_invoke (Params message));
        BeginInvocation params
      else if decide (method = MethodCancel) then
        params ← lift (DecodeParamsStrict decode_cancel (Params message));
        RequestCancel params
      else if decide (method = MethodReset) then
        lift (decodeOptionalEmptyParams (Params message));;
        Reset
      else if decide (method = MethodShutdown) then
        lift (decodeOptionalEmptyParams (Params message));;
        Shutdown
      else if decide (method = MethodObservation) then
        params ← lift (malformed "decode observation params"
                         (DecodeParamsStrict decode_observation (Params message)));
        Observe params
      else if decide (method = MethodCompleted) then
        params ← lift (malformed "decode completion params"
                         (DecodeParamsStrict decode_completed (Params message)));
        Complete params
      else
        fail (protocolError ErrorInvalidRequest (Sprintf "unknown method %q" [FStr method]) NoCause)
  end.

End Codec.
