(* ===== verification/DriverProtocolSpec.v ===== *)
(** * pkg/driverprotocol: the session grammar

    The abstract specification of the Driver RPC lifecycle is a grammar of
    whole sessions, independent of the machine's state: hello, then prepare,
    then invocations one at a time, each opened by an invoke, carrying its own
    cancels and strictly increasing observations, and closed by exactly one
    completion that names the last observation.  The theorems say the machine
    accepts exactly these sessions, and that what it rejects leaves no trace. *)
From Stdlib Require Import ZArith Ascii String Lia.
From stdpp Require Import base gmap sets list strings.
From S2P Require Import Prelude Schema DriverProtocol.
Local Open Scope Z_scope.
Local Open Scope string_scope.
Local Open Scope list_scope.

(** ** Calls and sessions *)
Inductive Call :=
| CHello | CPrepare | CCapabilities | CReset | CShutdown
| CInvoke (p : InvokeParams)
| CCancel (p : CancelParams)
| CObservation (p : ObservationParams)
| CCompleted (p : CompletedParams).

Section Spec.
Context {codec : JSONCodec}.

Definition call (c : Call) : DriverM unit :=
  match c with
  | CHello => AcceptHello
  | CPrepare => AcceptPrepare
  | CCapabilities => CheckCapabilities
  | CReset => Reset
  | CShutdown => Shutdown
  | CInvoke p => BeginInvocation p
  | CCancel p => RequestCancel p
  | CObservation p => Observe p
  | CCompleted p => Complete p
  end.

Definition valid (c : Call) : Prop :=
  match c with
  | CInvoke p => InvokeParams_Validate p = Ok tt
  | CCancel p => CancelParams_Validate p = Ok tt
  | CObservation p => ObservationParams_Validate p = Ok tt
  | CCompleted p => CompletedParams_Validate p = Ok tt
  | _ => True
  end.

(** What may happen inside the invocation [p], with the sequence number of
    the last observation. *)
Inductive body (p : InvokeParams) : option Z -> list Call -> Prop :=
| body_nil : body p None []
| body_cancel last l c :
    body p last l -> valid (CCancel c) ->
    canInvocationID c = invInvocationID p ->
    body p last (l ++ [CCancel c])
| body_observation last l o :
    body p last l -> valid (CObservation o) ->
    obsInvocationID o = invInvocationID p -> obsAttemptID o = invAttemptID p ->
    (forall n, last = Some n -> n < Sequence o) ->
    body p (Some (Sequence o)) (l ++ [CObservation o]).

(** Sessions at rest in PREPARED, with the invocations they completed. *)
Inductive prepared : gset InstanceID -> list Call -> Prop :=
| prepared_start l :
    Forall (eq CCapabilities) l -> prepared ∅ (CHello :: l ++ [CPrepare])
| prepared_idle ids l c :
    prepared ids l -> c = CCapabilities ∨ c = CReset -> prepared ids (l ++ [c])
| prepared_invocation ids l p last b c :
    prepared ids l -> invInvocationID p ∉ ids -> valid (CInvoke p) ->
    body p last b -> valid (CCompleted c) ->
    comInvocationID c = invInvocationID p -> comAttemptID c = invAttemptID p ->
    LastSequence_ c = last ->
    prepared ({[invInvocationID p]} ∪ ids) (l ++ CInvoke p :: b ++ [CCompleted c]).

Inductive session : list Call -> Prop :=
| session_new : session []
| session_hello l : Forall (eq CCapabilities) l -> session (CHello :: l)
| session_prepared ids l : prepared ids l -> session l
| session_invoking ids l p last b :
    prepared ids l -> invInvocationID p ∉ ids -> valid (CInvoke p) -> body p last b ->
    session (l ++ CInvoke p :: b)
| session_shutdown ids l : prepared ids l -> session (l ++ [CShutdown]).

(** The machine a session leaves behind. *)
Inductive simulates : list Call -> Machine -> Prop :=
| sim_new : simulates [] NewMachine
| sim_hello l : Forall (eq CCapabilities) l ->
    simulates (CHello :: l) (mkMachine StateHello None ∅)
| sim_prepared ids l : prepared ids l -> simulates l (mkMachine StatePrepared None ids)
| sim_invoking ids l p last b cancel seq :
    prepared ids l -> invInvocationID p ∉ ids -> valid (CInvoke p) -> body p last b ->
    (forall n, last = Some n -> seq = n) ->
    simulates (l ++ CInvoke p :: b)
      (mkMachine StateInvoking
         (Some (mkActiveInvocation (invInvocationID p) (invAttemptID p) seq
                  (bool_decide (is_Some last)) cancel)) ids)
| sim_shutdown ids l : prepared ids l ->
    simulates (l ++ [CShutdown]) (mkMachine StateShutdown None ids).

Lemma simulates_session l m : simulates l m -> session l.
Proof. destruct 1; eauto using session. Qed.

(** ** What a call does *)
Lemma call_rejected c m e m' : call c m = (Err e, m') -> m' = m.
Proof.
  destruct c; simpl;
    unfold AcceptHello, AcceptPrepare, CheckCapabilities, Reset, Shutdown, BeginInvocation,
      RequestCancel, Observe, Complete, require_invoking; go_unfold; intros H; go_cases.
Qed.

Lemma call_valid c m m' : call c m = (Ok tt, m') -> valid c.
Proof.
  destruct c as [| | | | |p|p|p|p]; try done; simpl;
    unfold BeginInvocation, RequestCancel, Observe, Complete; go_unfold.
  - by destruct (InvokeParams_Validate p) as [[]|].
  - by destruct (CancelParams_Validate p) as [[]|].
  - by destruct (ObservationParams_Validate p) as [[]|].
  - by destruct (CompletedParams_Validate p) as [[]|].
Qed.

(** In each state, the calls that succeed and the machine they leave. *)
Lemma call_new c m' :
  call c NewMachine = (Ok tt, m') <-> c = CHello ∧ m' = mkMachine StateHello None ∅.
Proof.
  split.
  - intros H. pose proof (call_valid _ _ _ H) as V. revert H. destruct c; simpl in *;
      unfold AcceptPrepare, CheckCapabilities, Reset, Shutdown, BeginInvocation,
      RequestCancel, Observe, Complete, require_invoking; go_unfold; simpl;
      try rewrite V; simpl; try done.
    by intros [= <-].
  - by intros [-> ->].
Qed.

Lemma call_hello c m' :
  call c (mkMachine StateHello None ∅) = (Ok tt, m') <->
  (c = CCapabilities ∧ m' = mkMachine StateHello None ∅) ∨
  (c = CPrepare ∧ m' = mkMachine StatePrepared None ∅).
Proof.
  split.
  - intros H. pose proof (call_valid _ _ _ H) as V. revert H. destruct c; simpl in *;
      unfold AcceptPrepare, CheckCapabilities, Reset, Shutdown, BeginInvocation,
      RequestCancel, Observe, Complete, require_invoking; go_unfold; simpl;
      try rewrite V; simpl; try done.
    + intros [= <-]. by right.
    + intros [= <-]. by left.
  - by intros [[-> ->]|[-> ->]].
Qed.

Lemma call_prepared ids c m' :
  call c (mkMachine StatePrepared None ids) = (Ok tt, m') <->
  ((c = CCapabilities ∨ c = CReset) ∧ m' = mkMachine StatePrepared None ids) ∨
  (c = CShutdown ∧ m' = mkMachine StateShutdown None ids) ∨
  (exists p, c = CInvoke p ∧ valid c ∧ (invInvocationID p ∉ ids) ∧
     m' = mkMachine StateInvoking
            (Some (mkActiveInvocation (invInvocationID p) (invAttemptID p) 0 false false)) ids).
Proof.
  split.
  - intros H. pose proof (call_valid _ _ _ H) as V. revert H. destruct c; simpl in *;
      unfold AcceptPrepare, CheckCapabilities, Reset, Shutdown, BeginInvocation,
      RequestCancel, Observe, Complete, require_invoking; go_unfold; simpl;
      try rewrite V; simpl; try done; try (intros [= <-]; tauto).
    case_decide; [done|]. intros [= <-]. right; right. eauto.
  - intros [[[-> | ->] ->]|[[-> ->]|(p & -> & V & Hid & ->)]]; [done..|].
    simpl in *. unfold BeginInvocation; go_unfold; simpl. rewrite V. simpl.
    by case_decide.
Qed.

Lemma call_invoking ids a c m' :
  call c (mkMachine StateInvoking (Some a) ids) = (Ok tt, m') <->
  valid c ∧
  ((exists p, c = CCancel p ∧ canInvocationID p = InvocationID a ∧
      m' = mkMachine StateInvoking (Some (mkActiveInvocation (InvocationID a) (AttemptID a)
             (LastSequence a) (HasObservation a) true)) ids) ∨
   (exists p, c = CObservation p ∧ obsInvocationID p = InvocationID a ∧
      obsAttemptID p = AttemptID a ∧
      (HasObservation a = true -> LastSequence a < Sequence p) ∧
      m' = mkMachine StateInvoking (Some (mkActiveInvocation (InvocationID a) (AttemptID a)
             (Sequence p) true (CancelRequested a))) ids) ∨
   (exists p, c = CCompleted p ∧ comInvocationID p = InvocationID a ∧
      comAttemptID p = AttemptID a ∧
      LastSequence_ p = (if HasObservation a then Some (LastSequence a) else None) ∧
      m' = mkMachine StatePrepared None ({[InvocationID a]} ∪ ids))).
Proof.
  split.
  - intros H. pose proof (call_valid _ _ _ H) as V. split; [done|]. revert H.
    destruct c as [| | | | |p|p|p|p]; simpl in *;
      unfold AcceptPrepare, CheckCapabilities, Reset, Shutdown, BeginInvocation,
      RequestCancel, Observe, Complete, require_invoking; go_unfold; simpl;
      try rewrite V; simpl; try done.
    + case_decide; [done|]. intros [= <-]. left. exists p.
      split_and!; [done| by apply dec_stable; intros ?; congruence | done].
    + repeat case_decide; try done. intros [= <-]. right; left. exists p.
      split_and!; [done| apply dec_stable; intros ?; naive_solver
        | apply dec_stable; intros ?; naive_solver | intros ?; apply Z.nle_gt; intros ?; tauto | done].
    + destruct (HasObservation a) eqn:Ho; repeat case_decide; try done; intros [= <-];
        right; right; exists p; assert (comInvocationID p = InvocationID a) as Hid
          by (apply dec_stable; intros ?; naive_solver);
        (split_and!; [done|done|apply dec_stable; intros ?; naive_solver|done|]);
        unfold add_completed, set_active, set_state; simpl; by rewrite Hid.
  - intros [V [(p & -> & Hid & ->)|[(p & -> & Hid & Hat & Hs & ->)|(p & -> & Hid & Hat & Hl & ->)]]];
      simpl in *; unfold RequestCancel, Observe, Complete, require_invoking;
      go_unfold; simpl; rewrite V; simpl.
    + by rewrite decide_False by (intros ?; congruence).
    + rewrite decide_False by (intros [?|?]; congruence).
      rewrite decide_False by (intros [H1 H2]; specialize (Hs H1); lia). done.
    + rewrite decide_False by (intros [?|?]; congruence).
      destruct (HasObservation a); rewrite decide_False by (intros ?; congruence);
        unfold add_completed, set_active, set_state; simpl; by rewrite Hid.
Qed.

Lemma call_shutdown ids c m' :
  call c (mkMachine StateShutdown None ids) ≠ (Ok tt, m').
Proof.
  intros H. pose proof (call_valid _ _ _ H) as V. revert H. destruct c; simpl in *;
    unfold AcceptPrepare, CheckCapabilities, Reset, Shutdown, BeginInvocation,
      RequestCancel, Observe, Complete, require_invoking; go_unfold; simpl;
    try rewrite V; simpl; done.
Qed.

(** ** Simulation *)
Lemma simulates_step l m c m' :
  simulates l m -> call c m = (Ok tt, m') -> simulates (l ++ [c]) m'.
Proof.
  intros Hs H. destruct Hs as [|l Hl|ids l Hp|ids l p last b cancel seq Hp Hid V Hb Hseq|ids l Hp].
  - apply call_new in H as [-> ->]. by apply (sim_hello []).
  - apply call_hello in H as [[-> ->]|[-> ->]].
    + apply (sim_hello (l ++ [CCapabilities])). apply Forall_app; auto.
    + apply sim_prepared. by apply prepared_start.
  - apply call_prepared in H as [[Hc ->]|[[-> ->]|(p & -> & V & Hid & ->)]].
    + apply sim_prepared. by apply prepared_idle.
    + by eapply sim_shutdown.
    + apply (sim_invoking ids l p None [] false 0); eauto using body. done.
  - rewrite <- app_assoc, <- app_comm_cons.
    apply call_invoking in H as [Vc [(c' & -> & Hc & ->)|[(o & -> & Ho & Ha & Hlt & ->)
      |(c' & -> & Hc & Ha & Hl & ->)]]]; simpl in *.
    + apply (sim_invoking ids l p last (b ++ [CCancel c']) true); auto.
      by apply body_cancel.
    + apply (sim_invoking ids l p (Some (Sequence o)) (b ++ [CObservation o]) cancel); auto.
      * apply (body_observation p last); auto.
        intros n ->. rewrite <- (Hseq n) by done. apply Hlt. by apply bool_decide_eq_true.
      * by intros n [= <-].
    + apply sim_prepared. eapply prepared_invocation; eauto. rewrite Hl.
      destruct last as [n|]; simpl; [by rewrite (Hseq n)|done].
  - by apply call_shutdown in H.
Qed.

Lemma run_snoc (l : list Call) (c : Call) (s m m' : Machine) :
  for_eachM call l s = (Ok tt, m) -> call c m = (Ok tt, m') ->
  for_eachM call (l ++ [c]) s = (Ok tt, m').
Proof.
  intros Hl Hc. rewrite for_eachM_app, Hl. simpl. unfold mbind, gom_bind. by rewrite Hc.
Qed.

(** A body runs inside its invocation. *)
Lemma run_body p last b ids :
  body p last b ->
  exists cancel seq,
    for_eachM call b
      (mkMachine StateInvoking
         (Some (mkActiveInvocation (invInvocationID p) (invAttemptID p) 0 false false)) ids)
    = (Ok tt, mkMachine StateInvoking
        (Some (mkActiveInvocation (invInvocationID p) (invAttemptID p) seq
                 (bool_decide (is_Some last)) cancel)) ids)
    ∧ (forall n, last = Some n -> seq = n).
Proof.
  induction 1 as [|last l c _ (cancel & seq & IH & Hseq) V Hid
                  |last l o _ (cancel & seq & IH & Hseq) V Hid Hat Hlt].
  - by exists false, 0.
  - exists true, seq. split; [|done]. eapply run_snoc; [exact IH|].
    apply call_invoking. split; [done|]. left. by exists c.
  - exists cancel, (Sequence o). split; [|by intros n [= <-]]. eapply run_snoc; [exact IH|].
    apply call_invoking. split; [done|]. right; left. exists o. split_and!; try done; simpl.
    intros [n Hn]%bool_decide_eq_true. rewrite (Hseq n Hn). by apply Hlt.
Qed.

Lemma run_hello l :
  Forall (eq CCapabilities) l ->
  for_eachM call (CHello :: l) NewMachine = (Ok tt, mkMachine StateHello None ∅).
Proof.
  intros Hl. simpl. unfold mbind, gom_bind. simpl.
  induction Hl as [|? l <- Hl IH]; [done|]. simpl. unfold mbind, gom_bind. exact IH.
Qed.

Lemma run_invoke ids l p last b :
  for_eachM call l NewMachine = (Ok tt, mkMachine StatePrepared None ids) ->
  invInvocationID p ∉ ids -> valid (CInvoke p) -> body p last b ->
  exists cancel seq,
    for_eachM call (l ++ CInvoke p :: b) NewMachine
    = (Ok tt, mkMachine StateInvoking
        (Some (mkActiveInvocation (invInvocationID p) (invAttemptID p) seq
                 (bool_decide (is_Some last)) cancel)) ids)
    ∧ (forall n, last = Some n -> seq = n).
Proof.
  intros Hl Hid V Hb. destruct (run_body p last b ids Hb) as (cancel & seq & Hrun & Hseq).
  exists cancel, seq. split; [|done]. rewrite for_eachM_app, Hl. cbn [for_eachM].
  unfold mbind, gom_bind.
  rewrite (proj2 (call_prepared ids (CInvoke p) _)) by (right; right; eauto). exact Hrun.
Qed.

Lemma run_prepared ids l :
  prepared ids l -> for_eachM call l NewMachine = (Ok tt, mkMachine StatePrepared None ids).
Proof.
  induction 1 as [l Hl|ids l c Hp IH Hc|ids l p last b c Hp IH Hid V Hb Vc Hci Hca Hl].
  - change (CHello :: l ++ [CPrepare]) with ((CHello :: l) ++ [CPrepare]).
    eapply run_snoc; [by apply run_hello|]. apply call_hello. by right.
  - eapply run_snoc; [exact IH|]. apply call_prepared. by left.
  - destruct (run_invoke ids l p last b IH Hid V Hb) as (cancel & seq & Hrun & Hseq).
    rewrite app_comm_cons, app_assoc. eapply run_snoc; [exact Hrun|].
    apply call_invoking. split; [done|]. right; right. exists c. split_and!; try done; simpl.
    rewrite Hl. destruct last as [n|]; simpl; [by rewrite (Hseq n)|done].
Qed.

Lemma run_session l :
  session l -> exists m, for_eachM call l NewMachine = (Ok tt, m).
Proof.
  destruct 1 as [|l Hl|ids l Hp|ids l p last b Hp Hid V Hb|ids l Hp].
  - by eexists.
  - eexists. by apply run_hello.
  - eexists. by apply run_prepared.
  - destruct (run_invoke ids l p last b (run_prepared _ _ Hp) Hid V Hb) as (? & ? & H & _); eauto.
  - eexists. eapply run_snoc; [by apply run_prepared|]. apply call_prepared. right; left. done.
Qed.

Lemma run_simulates l m :
  for_eachM call l NewMachine = (Ok tt, m) -> simulates l m.
Proof.
  revert m. induction l as [|c l IH] using rev_ind; intros m.
  - intros [= <-]. constructor.
  - rewrite for_eachM_app. destruct (for_eachM call l NewMachine) as [[[]|e] m1] eqn:E; [|done].
    simpl. unfold mbind, gom_bind. destruct (call c m1) as [[[]|e] m2] eqn:Ec; [|done].
    intros [= <-]. eapply simulates_step; eauto.
Qed.

(** ** Whole message streams *)

(** Feeding a stream of messages, keeping those the machine accepts. *)
Fixpoint feed (ms : list Message) (m : Machine) : list Message * Machine :=
  match ms with
  | [] => ([], m)
  | x :: ms' =>
      match Apply x m with
      | (Ok _, m') => let '(acc, m2) := feed ms' m' in (x :: acc, m2)
      | (Err _, m') => feed ms' m'
      end
  end.

(** The call a message carries. *)
Definition carries (x : Message) (c : Call) : Prop :=
  match c with
  | CHello => MsgMethod x = MethodHello
  | CPrepare => MsgMethod x = MethodPrepare
  | CCapabilities => MsgMethod x = MethodCapabilities
  | CReset => MsgMethod x = MethodReset
  | CShutdown => MsgMethod x = MethodShutdown
  | CInvoke p => MsgMethod x = MethodInvoke ∧ DecodeParamsStrict decode_invoke (Params x) = Ok p
  | CCancel p => MsgMethod x = MethodCancel ∧ DecodeParamsStrict decode_cancel (Params x) = Ok p
  | CObservation p =>
      MsgMethod x = MethodObservation ∧ DecodeParamsStrict decode_observation (Params x) = Ok p
  | CCompleted p =>
      MsgMethod x = MethodCompleted ∧ DecodeParamsStrict decode_completed (Params x) = Ok p
  end.

(** A message is refused before it reaches the machine, or is one call. *)
Lemma Apply_is_call x m :
  (exists e, Apply x m = (Err e, m)) ∨ (exists c, carries x c ∧ Apply x m = call c m).
Proof.
  unfold Apply, carries. unfold mbind, gom_bind, lift at 1.
  destruct (Kind x) as [k|e]; [|by left; eexists].
  destruct k; try (by left; eexists);
  (repeat case_decide;
   [ unfold lift; destruct (DecodeParamsStrict decode_hello (Params x)) as [p|e];
       [destruct (invalid_request _ (HelloParams_Validate p)) as [[]|e]|];
       try (by left; eexists); right; by exists CHello
   | unfold lift; destruct (DecodeParamsStrict decode_prepare (Params x)) as [p|e];
       [destruct (invalid_request _ (PrepareParams_Validate p)) as [[]|e]|];
       try (by left; eexists); right; by exists CPrepare
   | unfold lift; destruct (decodeOptionalEmptyParams (Params x)) as [[]|e];
       try (by left; eexists); right; by exists CCapabilities
   | unfold lift; destruct (DecodeParamsStrict decode_invoke (Params x)) as [p|e];
       try (by left; eexists); right; by exists (CInvoke p)
   | unfold lift; destruct (DecodeParamsStrict decode_cancel (Params x)) as [p|e];
       try (by left; eexists); right; by exists (CCancel p)
   | unfold lift; destruct (decodeOptionalEmptyParams (Params x)) as [[]|e];
       try (by left; eexists); right; by exists CReset
   | unfold lift; destruct (decodeOptionalEmptyParams (Params x)) as [[]|e];
       try (by left; eexists); right; by exists CShutdown
   | unfold lift; destruct (DecodeParamsStrict decode_observation (Params x)) as [p|e];
       try (by left; eexists); right; by exists (CObservation p)
   | unfold lift; destruct (DecodeParamsStrict decode_completed (Params x)) as [p|e];
       try (by left; eexists); right; by exists (CCompleted p)
   | by left; eexists ]).
Qed.

Lemma feed_runs ms l m :
  for_eachM call l NewMachine = (Ok tt, m) ->
  exists cs, Forall2 carries (feed ms m).1 cs ∧
    for_eachM call (l ++ cs) NewMachine = (Ok tt, (feed ms m).2).
Proof.
  revert l m. induction ms as [|x ms IH]; intros l m Hs; simpl.
  - exists []. split; [constructor|]. by rewrite app_nil_r.
  - destruct (Apply_is_call x m) as [[e ->]|(c & Hc & ->)]; [by apply IH|].
    destruct (call c m) as [[[]|e] m'] eqn:E.
    + destruct (IH (l ++ [c]) m') as (cs & Hcs & Hsim); [by eapply run_snoc|].
      destruct (feed ms m') as [acc m2]; simpl in *. exists (c :: cs).
      split; [by constructor|]. by rewrite <- app_assoc in Hsim.
    + apply call_rejected in E as ->. by apply IH.
Qed.

(** [C31] The lifecycle machine accepts a sequence of calls, each succeeding
    in turn from a new machine, exactly when the sequence is a session of the
    grammar: one hello, one prepare, invocations one at a time with fresh
    identifiers, strictly increasing observations, one completion each that
    names the last observation, capabilities and resets only between
    invocations, and nothing after shutdown. *)
Theorem machine_accepts_exactly_sessions l :
  (exists m, for_eachM call l NewMachine = (Ok tt, m)) <-> session l.
Proof.
  split; [|apply run_session]. intros [m H]. eapply simulates_session, run_simulates, H.
Qed.

(** Whatever stream of JSON-RPC messages arrives, the messages [Apply]
    accepted carry, in order, the calls of a session of the grammar, and the
    rejected ones leave no trace: the machine is in the state that session
    alone leads to. *)
Theorem accepted_messages_form_a_session ms :
  exists cs, Forall2 carries (feed ms NewMachine).1 cs ∧ session cs ∧
    for_eachM call cs NewMachine = (Ok tt, (feed ms NewMachine).2).
Proof.
  destruct (feed_runs ms [] NewMachine eq_refl) as (cs & Hcs & Hrun). exists cs.
  split_and!; [done| |done]. eapply simulates_session, run_simulates, Hrun.
Qed.
End Spec.
