(* ===== verification/DriverCodec.v ===== *)
(** * pkg/driverprotocol/codec.go: control frames on a byte stream

    The frame codec over the messages of DriverProtocol.v, with the rest of
    the public contracts of protocol.go.  The strict decoding of a whole
    message and [json.Marshal] of one are the class [FrameCodec].

    [bufio.Reader.ReadSlice] is modelled on what is still unread of the
    stream: a [bufio.Reader] slides what it holds to the front of its buffer
    before it reads more, so a slice ends at the delimiter when that is among
    the next [buffer_size] bytes, else it is the next [buffer_size] bytes
    with [ErrBufferFull], however the underlying reads were cut; at the end
    of the stream it is what is left with the reader's error, which every
    later call returns too.  The underlying reader reports its end by a read
    of its own, as files, pipes and sockets do. *)
From Stdlib Require Import ZArith Ascii String Lia.
From stdpp Require Import base gmap sets list strings.
From S2P Require Import Prelude Schema Canonical CanonicalSpec Documents DocumentsSpec DriverProtocol.
Local Open Scope Z_scope.
Local Open Scope string_scope.
Local Open Scope list_scope.

Definition MaxControlFrameBytes : Z := Z.shiftl 1 20.
Definition DefaultMaxDataFrameBytes : Z := Z.shiftl 256 10.
Definition buffer_size : nat := Z.to_nat (Z.shiftl 64 10).

Definition ErrEmptyControlFrame : error := Sentinel "empty driver control frame".
Definition ErrMultilineControlFrame : error := Sentinel "driver control frame must be one NDJSON line".
Definition ErrControlFrameTooLarge : error := Sentinel "driver control frame exceeds 1 MiB".
Definition ErrDataFrameTooLarge : error := Sentinel "driver data frame exceeds 256 KiB".

Definition LF : ascii := "010".
Definition CR : ascii := "013".

(** A protocol error whose message is the text of the sentinel it wraps. *)
Definition sentinel_error (class : ErrorClass) (e : error) : ProtocolError :=
  protocolError class
    (Text match e with Sentinel name => name | _ => "" end) (CauseError e).

(** ** Sizes *)
Definition ValidateControlFrameSize (size : Z) : result ProtocolError unit :=
  err_if (size < 0) (protocolError ErrorInvalidRequest (Text "negative control frame size") NoCause);;
  err_if (size > MaxControlFrameBytes) (sentinel_error ErrorBudgetExceeded ErrControlFrameTooLarge).

Definition ValidateDataFrameSize (size : Z) : result ProtocolError unit :=
  err_if (size < 0) (protocolError ErrorInvalidRequest (Text "negative data frame size") NoCause);;
  err_if (size > DefaultMaxDataFrameBytes) (sentinel_error ErrorBudgetExceeded ErrDataFrameTooLarge).

(** ** Lines *)
Definition last_is (c : ascii) (l : list ascii) : Prop := last l = Some c.
#[export] Instance last_is_dec c l : Decision (last_is c l).
Proof. unfold last_is. apply _. Defined.
(** [l[:len(l)-1]]. *)
Definition chop (l : list ascii) : list ascii := take (length l - 1) l.

Definition stripNDJSONLineEnding (line : list ascii) : result ProtocolError (list ascii) :=
  err_if (length line = 0%nat) (sentinel_error ErrorInvalidRequest ErrEmptyControlFrame);;
  let frame :=
    if decide (last_is LF line) then
      let frame := chop line in
      if decide (length frame ≠ 0%nat ∧ last_is CR frame) then chop frame else frame
    else line in
  err_if (length frame = 0%nat) (sentinel_error ErrorInvalidRequest ErrEmptyControlFrame);;
  err_if (LF ∈ frame ∨ CR ∈ frame) (sentinel_error ErrorInvalidRequest ErrMultilineControlFrame);;
  mret frame.

Class FrameCodec := {
  frame_params :: JSONCodec;
  (** [decodeStrict] into a [Message]. *)
  decode_message : list ascii -> result error Message;
  marshal_message : Message -> result error (list ascii)
}.

(** ** Contracts of protocol.go *)
Record DriverIdentity := mkDriverIdentity {
  diName : string; diVersion : string;
  diSDKName : string; diSDKVersion : string;
  diClientName : string; diClientVersion : string;
  diRuntimeName : string; diRuntimeVersion : string;
  diOS : string; diArchitecture : string;
  diArtifactDigest : Digest; diLockfileDigest : Digest
}.

Record Capabilities := mkCapabilities {
  Protocols : list string; Operations : list string;
  Streaming : bool; Cancellation : bool; RetryObserved : bool;
  ConcurrencyAllowed : bool; MaxConcurrency : Z
}.

Record HelloResult := mkHelloResult {
  DriverVersionRange : VersionRange;
  Identity : DriverIdentity;
  hrCapabilities : Capabilities;
  RequestedPermissions : list string
}.

Record DataFrameHeader := mkDataFrameHeader {
  dfInvocationID : InstanceID;
  dfAttemptID : InstanceID;
  dfStreamID : string;
  dfSequence : Z;
  dfLength : Z;
  dfFinal : bool
}.

(** The error of a header: one of the schema's or of the size check. *)
Inductive DecodeError :=
| DecProtocol (p : ProtocolError)
| DecError (e : error).

(** [errors.As] at [*ProtocolError]. *)
Definition ErrorClassOf (e : DecodeError) : option ErrorClass :=
  match e with DecProtocol (protocolError class _ _) => Some class | DecError _ => None end.

Definition DataFrameHeader_Validate (header : DataFrameHeader) : result DecodeError unit :=
  wrap (fun e => DecError (Wrapf (Text "invocation_id: %w") e)) (InstanceID_Validate (dfInvocationID header));;
  wrap (fun e => DecError (Wrapf (Text "attempt_id: %w") e)) (InstanceID_Validate (dfAttemptID header));;
  err_if (dfStreamID header = "") (DecError (ErrorNew (Text "stream_id is required")));;
  wrap DecProtocol (ValidateDataFrameSize (dfLength header)).

Definition DriverIdentity_validate {ro : RangeOrder string string} (identity : DriverIdentity)
    : result error unit :=
  for_each (fun '(name, value) =>
    err_if (TrimSpace value = "") (ErrorNew (Sprintf "driver identity %s is required" [FStr name])))
    (range (list_to_map
       [("name", diName identity); ("version", diVersion identity);
        ("runtime_name", diRuntimeName identity); ("runtime_version", diRuntimeVersion identity);
        ("os", diOS identity); ("architecture", diArchitecture identity)] : gmap string string));;
  wrap (Wrapf (Text "driver artifact digest: %w")) (Digest_Validate (diArtifactDigest identity));;
  (if decide (diLockfileDigest identity ≠ "")
   then wrap (Wrapf (Text "driver lockfile digest: %w")) (Digest_Validate (diLockfileDigest identity))
   else mret tt);;
  err_if (¬ (diSDKName identity = "" ↔ diSDKVersion identity = ""))
    (ErrorNew (Text "SDK name and version must be provided together"));;
  err_if (¬ (diClientName identity = "" ↔ diClientVersion identity = ""))
    (ErrorNew (Text "client name and version must be provided together")).

Definition HelloResult_Validate {ro : RangeOrder string string} (r : HelloResult) : result error unit :=
  VersionRange_validate (DriverVersionRange r);;
  DriverIdentity_validate (Identity r).

(** ** Frames *)
Section Frames.
Context {codec : FrameCodec}.

Definition malformed_by {A} (text : string) (r : result error A) : result ProtocolError A :=
  wrap (fun e => protocolError ErrorMalformedObservation (Text text) (CauseError e)) r.

Definition validateMethodPayload (message : Message) : result ProtocolError unit :=
  let method := MsgMethod message in
  if decide (method = "") then mret tt
  else if decide (method = MethodHello) then
    params ← DecodeParamsStrict decode_hello (Params message);
    invalid_request "invalid hello params" (HelloParams_Validate params)
  else if decide (method = MethodPrepare) then
    params ← DecodeParamsStrict decode_prepare (Params message);
    invalid_request "invalid prepare params" (PrepareParams_Validate params)
  else if decide (method = MethodCapabilities ∨ method = MethodReset ∨ method = MethodShutdown) then
    decodeOptionalEmptyParams (Params message)
  else if decide (method = MethodInvoke) then
    params ← DecodeParamsStrict decode_invoke (Params message);
    invalid_request "invalid invoke params" (InvokeParams_Validate params)
  else if decide (method = MethodCancel) then
    params ← DecodeParamsStrict decode_cancel (Params message);
    invalid_request "invalid cancel params" (CancelParams_Validate params)
  else if decide (method = MethodObservation) then
    params ← malformed "decode observation params" (DecodeParamsStrict decode_observation (Params message));
    malformed_by "invalid observation params" (ObservationParams_Validate params)
  else if decide (method = MethodCompleted) then
    params ← malformed "decode completion params" (DecodeParamsStrict decode_completed (Params message));
    malformed_by "invalid completion params" (CompletedParams_Validate params)
  else mret tt.

Definition DecodeControlFrame (line : list ascii) : result ProtocolError Message :=
  frame ← stripNDJSONLineEnding line;
  ValidateControlFrameSize (Z.of_nat (length frame));;
  canonical ← wrap (fun e => protocolError ErrorInvalidRequest
                      (Text "control frame is not strict JSON") (CauseError e)) (CanonicalizeJSON frame);
  err_if (head canonical ≠ Some "{"%char)
    (protocolError ErrorInvalidRequest (Text "control frame must be a JSON object") NoCause);;
  message ← wrap (fun e => protocolError ErrorInvalidRequest (Text "decode control frame") (CauseError e))
              (decode_message canonical);
  Kind message;;
  validateMethodPayload message;;
  mret message.

Definition EncodeControlFrame (message : Message) : result ProtocolError (list ascii) :=
  Kind message;;
  validateMethodPayload message;;
  canonical ← wrap (fun e => protocolError ErrorInvalidRequest (Text "encode control frame") (CauseError e))
                (CanonicalMarshal marshal_message message);
  ValidateControlFrameSize (Z.of_nat (length canonical));;
  mret (canonical ++ [LF]).

(** ** The decoder *)
Record Stream := mkStream { unread : list ascii; failure : error }.

Inductive ReadStatus :=
| ReadOk
| BufferFull
| ReadFailed (e : error).

(** [size] is the length of the reader's buffer. *)
Definition ReadSlice (size : nat) (s : Stream) : (list ascii * ReadStatus) * Stream :=
  match list_find (fun c => c = LF) (take size (unread s)) with
  | Some (k, _) => ((take (S k) (unread s), ReadOk), mkStream (drop (S k) (unread s)) (failure s))
  | None =>
      if decide (size <= length (unread s))%nat then
        ((take size (unread s), BufferFull),
         mkStream (drop size (unread s)) (failure s))
      else ((unread s, ReadFailed (failure s)), mkStream [] (failure s))
  end.

Definition out_of_fuel : DecodeError := DecError (ErrorNew (Text "out of fuel")).

(** [for err == bufio.ErrBufferFull { _, err = decoder.reader.ReadSlice('\n') }]. *)
Fixpoint drain (size fuel : nat) (s : Stream) : Stream :=
  match fuel with
  | O => s
  | S fuel' =>
      match ReadSlice size s with
      | ((_, BufferFull), s') => drain size fuel' s'
      | (_, s') => s'
      end
  end.

Definition too_large : DecodeError :=
  DecProtocol (sentinel_error ErrorBudgetExceeded ErrControlFrameTooLarge).

(** The loop of [Decode]; each turn that goes on has consumed a full buffer,
    so one turn per unread byte and one more are enough. *)
Fixpoint decode_loop (size fuel : nat) (line : list ascii) (s : Stream) : result DecodeError Message * Stream :=
  match fuel with
  | O => (Err out_of_fuel, s)
  | S fuel' =>
      let '((fragment, status), s') := ReadSlice size s in
      if decide (Z.of_nat (length line) + Z.of_nat (length fragment) > MaxControlFrameBytes + 2) then
        (Err too_large,
         match status with BufferFull => drain size (S (length (unread s'))) s' | _ => s' end)
      else
        let line := line ++ fragment in
        match status with
        | ReadOk => (wrap DecProtocol (DecodeControlFrame line), s')
        | BufferFull => decode_loop size fuel' line s'
        | ReadFailed e =>
            if decide (e = io_EOF) then
              if decide (length line = 0%nat) then (Err (DecError io_EOF), s')
              else (wrap DecProtocol (DecodeControlFrame line), s')
            else (Err (DecError (Wrapf (Text "read driver control frame: %w") e)), s')
        end
  end.

(** The decoder was made by [NewDecoder]: it has a reader, with a buffer of
    64 KiB. *)
Definition Decode (s : Stream) : result DecodeError Message * Stream :=
  decode_loop buffer_size (S (length (unread s))) [] s.

(** ** The encoder *)
Definition io_ErrShortWrite : error := Sentinel "short write".

(** [write] is the writer's [Write]: how many bytes it took, and its error. *)
Definition Encode {W} (write : list ascii -> W -> (Z * option error) * W) (message : Message)
    : GoM W DecodeError unit := fun w =>
  match EncodeControlFrame message with
  | Err e => (Err (DecProtocol e), w)
  | Ok frame =>
      let '((written, err), w') := write frame w in
      match err with
      | Some e => (Err (DecError (Wrapf (Text "write driver control frame: %w") e)), w')
      | None =>
          if decide (written ≠ Z.of_nat (length frame)) then (Err (DecError io_ErrShortWrite), w')
          else (Ok tt, w')
      end
  end.
End Frames.

(** ** pkg/driverprotocol: what the frame codec guarantees

    One call of [Decode] is one physical line of the stream, whatever its
    length and however the reads were cut, and a stream of encoded frames
    decodes to the messages that were encoded. *)

(** ** Lines *)

(** The first line, with its LF when it has one, and the rest. *)
Definition first_line (l : list ascii) : list ascii * list ascii :=
  match list_find (fun c => c = LF) l with
  | Some (k, _) => (take (S k) l, drop (S k) l)
  | None => (l, [])
  end.

Lemma find_LF_None l : list_find (fun c => c = LF) l = None <-> LF ∉ l.
Proof. rewrite list_find_None, Forall_forall. split; [intros H Hin; by apply (H LF)|naive_solver]. Qed.

Lemma find_LF_app pre post : LF ∉ pre ->
  list_find (fun c => c = LF) (pre ++ LF :: post) = Some (length pre, LF).
Proof.
  intros H. apply list_find_Some. split_and!; [by apply list_lookup_middle|done|].
  intros j y Hj Hlt ->. apply H. rewrite lookup_app_l in Hj by done. by eapply list_elem_of_lookup_2.
Qed.

Lemma first_line_LF pre post : LF ∉ pre -> first_line (pre ++ LF :: post) = (pre ++ [LF], post).
Proof.
  intros H. unfold first_line. rewrite find_LF_app by done.
  replace (pre ++ LF :: post) with ((pre ++ [LF]) ++ post) by (by rewrite <- app_assoc).
  rewrite take_app_length', drop_app_length' by (rewrite length_app; simpl; lia). done.
Qed.

Lemma first_line_none l : LF ∉ l -> first_line l = (l, []).
Proof. intros H. unfold first_line. by rewrite (proj2 (find_LF_None l) H). Qed.

(** A stream has a line feed or not. *)
Lemma line_cases l : LF ∉ l ∨ exists pre post, l = pre ++ LF :: post ∧ LF ∉ pre.
Proof.
  destruct (decide (LF ∈ l)) as [H|H]; [right|by left].
  apply list_elem_of_split_l in H as (pre & post & -> & H). by exists pre, post.
Qed.

Lemma first_line_skip a b : LF ∉ a -> first_line (a ++ b) = (a ++ (first_line b).1, (first_line b).2).
Proof.
  intros H. destruct (line_cases b) as [Hb|(pre & post & -> & Hb)].
  - rewrite !first_line_none by set_solver. done.
  - rewrite app_assoc, !first_line_LF by set_solver. simpl. by rewrite app_assoc.
Qed.

(** ** Slices *)
Lemma buffer_size_pos : (0 < buffer_size)%nat.
Proof. unfold buffer_size. replace (Z.shiftl 64 10) with 65536 by reflexivity. lia. Qed.

Section Slices.
Context {codec : FrameCodec}.
Variable size : nat.
Hypothesis size_pos : (0 < size)%nat.

Lemma ReadSlice_line s pre post :
  unread s = pre ++ LF :: post -> LF ∉ pre -> (length pre < size)%nat ->
  ReadSlice size s = ((pre ++ [LF], ReadOk), mkStream post (failure s)).
Proof.
  intros E H L. unfold ReadSlice. rewrite E.
  replace (pre ++ LF :: post) with ((pre ++ [LF]) ++ post) by (by rewrite <- app_assoc).
  rewrite take_app_ge by (rewrite length_app; simpl; lia). rewrite <- app_assoc. simpl.
  rewrite find_LF_app by done. simpl.
  replace (pre ++ LF :: post) with ((pre ++ [LF]) ++ post) by (by rewrite <- app_assoc).
  rewrite take_app_length', drop_app_length' by (rewrite length_app; simpl; lia). done.
Qed.

Lemma ReadSlice_full s :
  LF ∉ take size (unread s) -> (size <= length (unread s))%nat ->
  ReadSlice size s = ((take size (unread s), BufferFull),
                 mkStream (drop size (unread s)) (failure s)).
Proof.
  intros H L. unfold ReadSlice. rewrite (proj2 (find_LF_None _) H). by rewrite decide_True.
Qed.

Lemma ReadSlice_end s :
  LF ∉ unread s -> (length (unread s) < size)%nat ->
  ReadSlice size s = ((unread s, ReadFailed (failure s)), mkStream [] (failure s)).
Proof.
  intros H L. unfold ReadSlice. rewrite take_ge by lia. rewrite (proj2 (find_LF_None _) H).
  rewrite decide_False by lia. done.
Qed.

(** The three cases of a slice. *)
Lemma ReadSlice_cases s :
  (exists pre post, unread s = pre ++ LF :: post ∧ LF ∉ pre ∧
     ReadSlice size s = ((pre ++ [LF], ReadOk), mkStream post (failure s))) ∨
  (LF ∉ take size (unread s) ∧ (size <= length (unread s))%nat ∧
     ReadSlice size s = ((take size (unread s), BufferFull),
                    mkStream (drop size (unread s)) (failure s))) ∨
  (LF ∉ unread s ∧ ReadSlice size s = ((unread s, ReadFailed (failure s)), mkStream [] (failure s))).
Proof.
  destruct (line_cases (unread s)) as [H|(pre & post & E & H)].
  - destruct (decide (size <= length (unread s))%nat) as [L|L].
    + right; left. assert (LF ∉ take size (unread s)) as H'.
      { intros (i & Hi & _)%elem_of_take. apply H. by eapply list_elem_of_lookup_2. }
      split_and!; [done..|]. by apply ReadSlice_full.
    + right; right. split; [done|]. apply ReadSlice_end; [done|lia].
  - destruct (decide (length pre < size)%nat) as [L|L].
    + left. exists pre, post. split_and!; [done..|]. by apply ReadSlice_line.
    + right; left. assert (LF ∉ take size (unread s)) as H'.
      { rewrite E, take_app_le by lia. intros (i & Hi & _)%elem_of_take. apply H.
        by eapply list_elem_of_lookup_2. }
      assert (size <= length (unread s))%nat as L'.
      { transitivity (length pre); [lia|]. rewrite E, length_app. apply Nat.le_add_r. }
      split_and!; [done..|]. by apply ReadSlice_full.
Qed.

Lemma first_line_full n l : LF ∉ take n l ->
  first_line l = (take n l ++ (first_line (drop n l)).1, (first_line (drop n l)).2).
Proof. intros H. rewrite <- (take_drop n l) at 1. by apply first_line_skip. Qed.

Lemma drain_ok fuel : forall s, (length (unread s) < fuel)%nat ->
  drain size fuel s = mkStream (first_line (unread s)).2 (failure s).
Proof.
  induction fuel as [|fuel IH]; intros s Hf; [lia|]. cbn [drain].
  destruct (ReadSlice_cases s) as [(pre & post & E & H & ->)|[(H & L & ->)|(H & ->)]].
  - by rewrite E, first_line_LF.
  - rewrite IH by (simpl; rewrite length_drop; lia). simpl.
    rewrite (first_line_full _ _ H). cbn [snd]. reflexivity.
  - by rewrite first_line_none.
Qed.

(** ** One call, one line *)
(** What a line (with its LF, if it has one) gives. *)
Definition line_outcome (e : error) (line : list ascii) : result DecodeError Message :=
  if decide (Z.of_nat (length line) > MaxControlFrameBytes + 2) then Err too_large
  else if decide (LF ∈ line) then wrap DecProtocol (DecodeControlFrame line)
  else if decide (e = io_EOF) then
    if decide (line = []) then Err (DecError io_EOF) else wrap DecProtocol (DecodeControlFrame line)
  else Err (DecError (Wrapf (Text "read driver control frame: %w") e)).

Lemma decode_loop_ok fuel : forall line s,
  (length (unread s) < fuel)%nat -> LF ∉ line ->
  decode_loop size fuel line s =
    (line_outcome (failure s) (line ++ (first_line (unread s)).1),
     mkStream (first_line (unread s)).2 (failure s)).
Proof.
  induction fuel as [|fuel IH]; intros line s Hf Hl; [lia|]. cbn [decode_loop]. unfold line_outcome.
  destruct (ReadSlice_cases s) as [(pre & post & E & H & ->)|[(H & L & ->)|(H & ->)]].
  - rewrite E, first_line_LF by done. cbn [fst snd]. rewrite (length_app line), Nat2Z.inj_add.
    case_decide; [done|]. rewrite decide_True by set_solver. done.
  - rewrite (first_line_full _ _ H). cbn [fst snd unread failure].
    rewrite app_assoc. case_decide as D.
    + rewrite drain_ok by (simpl; lia). cbn [unread failure]. f_equal.
      rewrite decide_True; [done|]. rewrite !length_app. lia.
    + rewrite IH; [|cbn [unread]; rewrite length_drop; lia|set_solver]. reflexivity.
  - rewrite first_line_none by done. cbn [fst snd]. rewrite (length_app line), Nat2Z.inj_add.
    case_decide; [done|]. rewrite (@decide_False _ (LF ∈ line ++ unread s)) by (by apply not_elem_of_app). case_decide; [|done].
    rewrite <- length_app.
    destruct (line ++ unread s) as [|c l]; [done|]. by rewrite !decide_False.
Qed.
End Slices.

Create HintDb session.

Section Codec.
Context {codec : FrameCodec}.

(** One call of [Decode] reads exactly one line: for every stream, the
    call answers with what [DecodeControlFrame] says of the next line when
    the line with its ending has at most 1 MiB and 2 bytes, with the
    budget-exceeded error when it is longer, with [io.EOF] when nothing is
    left, and with the reader's error when that cut the line; and what is
    left unread is exactly what follows the line, so the caller is again at
    the start of a line even after an oversized one. *)
Theorem Decode_reads_one_line (s : Stream) :
  let '(line, rest) := first_line (unread s) in
  Decode s = (line_outcome (failure s) line, mkStream rest (failure s)) ∧
  line ++ rest = unread s ∧ (forall k, line !! k = Some LF -> S k = length line).
Proof.
  destruct (first_line (unread s)) as [line rest] eqn:E. split_and!.
  - unfold Decode. rewrite (decode_loop_ok buffer_size buffer_size_pos); [|lia|set_solver]. by rewrite E.
  - destruct (line_cases (unread s)) as [H|(pre & post & Es & H)].
    + rewrite first_line_none in E by done. injection E as <- <-. apply app_nil_r.
    + rewrite Es, first_line_LF in E by done. injection E as <- <-. by rewrite Es, <- app_assoc.
  - destruct (line_cases (unread s)) as [H|(pre & post & Es & H)].
    + rewrite first_line_none in E by done. injection E as <- <-. intros k Hk. exfalso. apply H.
      by eapply list_elem_of_lookup_2.
    + rewrite Es, first_line_LF in E by done. injection E as <- <-. intros k Hk.
      rewrite length_app. apply lookup_app_Some in Hk as [Hk|[Hk Hk']].
      * exfalso. apply H. by eapply list_elem_of_lookup_2.
      * apply list_lookup_singleton_Some in Hk' as [? _]. simpl. lia.
Qed.
(** ** Streams of frames *)

(** A raw field in canonical form, and a message with all of them so. *)
Definition canonical_raw (raw : RawMessage) : RawMessage :=
  match CanonicalizeRaw raw with Ok canonical => canonical | Err _ => raw end.
Definition canonical_error (e : RPCError) : RPCError :=
  mkRPCError (rpcCode e) (rpcMessage e)
    ((fun data => mkErrorData (dataClass data) (canonical_raw (Details data))) <$> rpcData e).
Definition canonical_message (m : Message) : Message :=
  mkMessage (JSONRPC m) (canonical_raw (ID m)) (MsgMethod m) (canonical_raw (Params m)) (canonical_raw (Result m))
    (canonical_error <$> MsgError m).

(** What JSON can carry of an error: text, and a code that is exact as a
    double. *)
Definition portable (m : Message) : Prop :=
  forall e, MsgError m = Some e -> utf8_Valid (list_ascii_of_string (rpcMessage e)) = true ∧ Z.abs (rpcCode e) <= 2 ^ 53.

(** What the codec relies on.  RFC 8785: a canonical document is its own
    canonical form, is not empty and has no line breaks, which are neither
    kept between tokens nor written unescaped in strings.  encoding/json: a
    struct is an object; a [json.RawMessage] is written as the value it holds
    and reads back as the bytes of that value, which are canonical inside a
    canonical document; the other fields read back as they were. *)
Class FrameLaws : Prop := {
  canonical_again raw c : CanonicalizeJSON raw = Ok c -> CanonicalizeJSON c = Ok c;
  canonical_one_line raw c : CanonicalizeJSON raw = Ok c -> c <> [] ∧ LF ∉ c ∧ CR ∉ c;
  nothing_is_no_document : is_ok (CanonicalizeJSON []) = false;
  message_is_object m c : CanonicalMarshal marshal_message m = Ok c -> head c = Some "{"%char;
  message_reads_back m c : portable m -> is_ok (Kind m) = true ->
    CanonicalMarshal marshal_message m = Ok c -> decode_message c = Ok (canonical_message m)
}.
Context {laws : FrameLaws}.

Lemma CanonicalizeRaw_again raw : CanonicalizeRaw (canonical_raw raw) = CanonicalizeRaw raw.
Proof.
  unfold canonical_raw. destruct (CanonicalizeRaw raw) as [c|e] eqn:E; [|done].
  unfold CanonicalizeRaw in *. apply bind_Ok in E as (c' & E & [= <-]).
  rewrite list_ascii_of_string_of_list_ascii. by rewrite (canonical_again _ _ E).
Qed.
Lemma canonical_raw_len raw : len (canonical_raw raw) = 0 <-> len raw = 0.
Proof.
  assert (forall s, len s = 0 <-> s = "") as L by (intros []; unfold len; simpl; split; done || lia).
  rewrite !L. unfold canonical_raw. destruct (CanonicalizeRaw raw) as [c|e] eqn:E; [|done].
  unfold CanonicalizeRaw in E. apply bind_Ok in E as (c' & E & [= <-]). destruct (canonical_one_line _ _ E) as (Hne & _).
  split.
  - by destruct c'.
  - intros ->. pose proof nothing_is_no_document as N. cbn in E. by rewrite E in N.
Qed.
Lemma canonical_raw_present raw : bool_decide (len (canonical_raw raw) = 0) = bool_decide (len raw = 0).
Proof. apply bool_decide_ext, canonical_raw_len. Qed.

(** The checks of a message look at canonical forms only. *)
Lemma DecodeParamsStrict_again {A} (decode : RawMessage -> result error A) raw :
  DecodeParamsStrict decode (canonical_raw raw) = DecodeParamsStrict decode raw.
Proof.
  unfold DecodeParamsStrict. rewrite CanonicalizeRaw_again. unfold err_if.
  by rewrite (decide_ext _ _ _ _ (canonical_raw_len raw)).
Qed.
Lemma validateMethodPayload_again m : validateMethodPayload (canonical_message m) = validateMethodPayload m.
Proof.
  unfold validateMethodPayload, decodeOptionalEmptyParams, canonical_message. cbn [MsgMethod Params].
  rewrite !DecodeParamsStrict_again. by rewrite (decide_ext _ _ _ _ (canonical_raw_len (Params m))).
Qed.
Lemma RPCError_Validate_again e : RPCError_Validate (canonical_error e) = RPCError_Validate e.
Proof.
  unfold RPCError_Validate, canonical_error. cbn [rpcMessage rpcData]. destruct (rpcData e) as [data|]; [|done].
  cbn [fmap option_fmap option_map dataClass Details]. rewrite CanonicalizeRaw_again.
  rewrite (decide_ext _ (len (Details data) ≠ 0)); [done|]. by rewrite canonical_raw_len.
Qed.
Lemma Kind_again m : Kind (canonical_message m) = Kind m.
Proof.
  unfold Kind, canonical_message, validateParamsShape, validateResponseID, validateRequestID.
  cbn [JSONRPC ID MsgMethod Params Result MsgError]. rewrite !CanonicalizeRaw_again, !canonical_raw_present.
  destruct (MsgError m) as [e|]; [|done]. cbn. by rewrite RPCError_Validate_again.
Qed.

Definition line_endings : list (list ascii) := [[LF]; [CR; LF]].

Lemma last_app_cons {A} (l : list A) x y : last (l ++ [x; y]) = Some y.
Proof. by rewrite (app_assoc l [x] [y] : l ++ [x; y] = _), last_snoc. Qed.

Lemma chop_snoc l c : chop (l ++ [c]) = l.
Proof. unfold chop. rewrite length_app. simpl. rewrite take_app_length'; [done|lia]. Qed.

Lemma strip_ok c e :
  c <> [] -> LF ∉ c -> CR ∉ c -> e ∈ line_endings -> stripNDJSONLineEnding (c ++ e) = Ok c.
Proof.
  intros Hc Hl Hr He. unfold stripNDJSONLineEnding. go_unfold.
  assert (length (c ++ e) <> 0%nat) as Hlen by (destruct c; [done|simpl; lia]).
  assert (length c <> 0%nat) as Hlen' by (by destruct c).
  assert (~ last_is CR c) as Hlast by (intros E%last_Some_elem_of; done).
  rewrite (decide_False (P := length (c ++ e) = 0%nat)) by done.
  unfold line_endings in He. rewrite !elem_of_cons, elem_of_nil in He. destruct He as [->|[->|[]]].
  - rewrite (decide_True (P := last_is LF _)) by apply last_snoc. rewrite chop_snoc.
    rewrite (decide_False (P := _ ∧ last_is CR c)) by tauto.
    by rewrite !decide_False by tauto.
  - rewrite (decide_True (P := last_is LF _)) by apply last_app_cons.
    replace (c ++ [CR; LF]) with ((c ++ [CR]) ++ [LF]) by (by rewrite <- app_assoc).
    rewrite chop_snoc. rewrite (decide_True (P := _ ∧ last_is CR _))
      by (split; [rewrite length_app; simpl; lia|apply last_snoc]).
    rewrite chop_snoc. by rewrite !decide_False by tauto.
Qed.

(** A frame that was encoded decodes, with either line ending. *)
Lemma DecodeControlFrame_encoded m c e :
  portable m -> EncodeControlFrame m = Ok (c ++ [LF]) -> e ∈ line_endings ->
  DecodeControlFrame (c ++ e) = Ok (canonical_message m) ∧ LF ∉ c ∧ c <> [] ∧ Z.of_nat (length c) <= MaxControlFrameBytes.
Proof.
  intros Hf He Hend. unfold EncodeControlFrame in He.
  apply bind_Ok in He as (k & Hk & He). apply bind_Ok in He as ([] & Hp & He).
  apply bind_Ok in He as (c' & Hc & He). apply wrap_ok in Hc. apply bind_Ok in He as ([] & Hs & He).
  unfold mret, result_ret in He. injection He as E. apply app_inj_tail in E as [-> _].
  pose proof (message_is_object m c Hc) as Hhead. pose proof (message_reads_back m c Hf ltac:(by rewrite Hk) Hc) as Hdec.
  apply bind_Ok in Hc as (raw & _ & Hraw). destruct (canonical_one_line _ _ Hraw) as (Hne & Hl & Hr).
  split_and!; try done.
  - unfold DecodeControlFrame. rewrite strip_ok by done. unfold mbind, result_bind.
    rewrite Hs, (canonical_again _ _ Hraw). cbn [wrap]. unfold err_if. rewrite decide_False by (rewrite Hhead; tauto).
    rewrite Hdec. cbn [wrap]. by rewrite Kind_again, validateMethodPayload_again, Hk, Hp.
  - unfold ValidateControlFrameSize in Hs. rewrite bind_ok, !err_if_ok in Hs. lia.
Qed.

Fixpoint decode_times (n : nat) (s : Stream) : list (result DecodeError Message) * Stream :=
  match n with
  | O => ([], s)
  | S n' => let '(r, s') := Decode s in let '(rs, s'') := decode_times n' s' in (r :: rs, s'')
  end.

Lemma first_line_ending c e l :
  LF ∉ c -> e ∈ line_endings -> first_line (c ++ e ++ l) = (c ++ e, l).
Proof.
  intros Hc He. rewrite first_line_skip by done. unfold line_endings in He.
  rewrite !elem_of_cons, elem_of_nil in He. destruct He as [->|[->|[]]]; done.
Qed.

Lemma Decode_line s line rest :
  first_line (unread s) = (line, rest) ->
  Decode s = (line_outcome (failure s) line, mkStream rest (failure s)).
Proof.
  intros E. unfold Decode. rewrite (decode_loop_ok buffer_size buffer_size_pos); [|lia|set_solver].
  by rewrite E.
Qed.

Lemma Decode_encoded m c e l err :
  portable m -> EncodeControlFrame m = Ok (c ++ [LF]) -> e ∈ line_endings ->
  Decode (mkStream (c ++ e ++ l) err) = (Ok (canonical_message m), mkStream l err).
Proof.
  intros Hf Henc He. destruct (DecodeControlFrame_encoded m c e) as (Hd & Hl & _ & Hs); [done..|].
  rewrite (Decode_line _ (c ++ e) l) by (by apply first_line_ending). f_equal.
  unfold line_outcome. assert ((length e <= 2)%nat ∧ LF ∈ e) as [Hle Hin].
  { unfold line_endings in He. rewrite !elem_of_cons, elem_of_nil in He.
    destruct He as [->|[->|[]]]; simpl; (split; [lia|set_solver]). }
  rewrite decide_False by (rewrite length_app; lia). rewrite decide_True by set_solver. by rewrite Hd.
Qed.

(** [C36] A stream of frames carries its messages: when each message was
    encoded by [EncodeControlFrame], a stream of those frames, each ended by
    LF or by CRLF, decodes to exactly those messages in order, one per call,
    with their raw fields in canonical form, and then to [io.EOF], which every
    further call repeats.  The text of an error must be UTF-8 and its code
    exact as a double, since JSON carries nothing else; encoding/json and RFC
    8785 are as in [FrameLaws]. *)
Theorem frames_roundtrip (frames : list (Message * list ascii * list ascii)) (extra : nat)
    (Hframes : Forall (fun '(m, c, e) => portable m ∧ EncodeControlFrame m = Ok (c ++ [LF]) ∧
                          e ∈ line_endings) frames) :
  decode_times (length frames + extra)
    (mkStream (concat ((fun '(m, c, e) => c ++ e) <$> frames)) io_EOF) =
  (((fun '(m, c, e) => Ok (canonical_message m)) <$> frames) ++ repeat (Err (DecError io_EOF)) extra,
   mkStream [] io_EOF).
Proof.
  induction frames as [|[[m c] e] frames IH]; cbn [length Nat.add].
  - induction extra as [|extra IH]; [done|]. cbn [decode_times].
    rewrite (Decode_line _ [] []) by done. cbn [length Nat.add] in IH. simpl in IH |- *. by rewrite IH.
  - apply Forall_cons in Hframes as [(H1 & H2 & H3) Hrest]. rewrite fmap_cons. cbn [concat decode_times].
    rewrite <- app_assoc, (Decode_encoded m c e) by done. rewrite IH by done. done.
Qed.

(** Why the machine may refuse a message whose payload is fine: the state of
    the session, or identifiers and sequences of the active invocation. *)
Inductive session_error : ProtocolError -> Prop :=
| refused_state text : session_error (protocolError ErrorInvalidState text NoCause)
| refused_response : session_error (protocolError ErrorInvalidRequest
    (Text "cannot apply an uncorrelated JSON-RPC response to the driver state machine") NoCause)
| refused_reuse : session_error (protocolError ErrorInvalidRequest
    (Text "invocation_id cannot be reused after terminal completion") NoCause)
| refused_cancel : session_error (protocolError ErrorInvalidRequest
    (Text "cancel invocation_id does not match the active invocation") NoCause)
| refused_observation : session_error (protocolError ErrorMalformedObservation
    (Text "observation identity does not match the active invocation and attempt") NoCause)
| refused_sequence a b : session_error (protocolError ErrorMalformedObservation
    (Sprintf "observation sequence %d is not greater than %d" [FInt a; FInt b]) NoCause)
| refused_completion : session_error (protocolError ErrorMalformedObservation
    (Text "completion identity does not match the active invocation and attempt") NoCause)
| refused_last : session_error (protocolError ErrorMalformedObservation
    (Text "completion last_sequence does not match the last observation") NoCause)
| refused_no_last : session_error (protocolError ErrorMalformedObservation
    (Text "completion must omit last_sequence when no observation was emitted") NoCause).

Lemma DecodeControlFrame_checks line msg :
  DecodeControlFrame line = Ok msg ->
  (exists kind, Kind msg = Ok kind) ∧ validateMethodPayload msg = Ok tt.
Proof.
  unfold DecodeControlFrame. intros (frame & _ & H)%bind_Ok. apply bind_Ok in H as ([] & _ & H).
  apply bind_Ok in H as (c & _ & H). apply bind_Ok in H as ([] & _ & H).
  apply bind_Ok in H as (m & _ & H). apply bind_Ok in H as (k & Hk & H).
  apply bind_Ok in H as ([] & Hp & H). unfold mret, result_ret in H. simplify_eq. eauto.
Qed.

Lemma Kind_method msg kind :
  Kind msg = Ok kind -> kind = MessageResponse ∨ MsgMethod msg ∈ requestMethods ++ notificationMethods.
Proof.
  unfold Kind. intros ([] & _ & H)%bind_Ok. case_decide as Hm.
  - apply bind_Ok in H as ([] & Hv & _). apply wrap_ok in Hv. unfold Method_validate in Hv.
    right. apply elem_of_app. repeat case_decide; auto; done.
  - left. apply bind_Ok in H as ([] & _ & H). apply bind_Ok in H as ([] & _ & H).
    apply bind_Ok in H as ([] & _ & H). apply bind_Ok in H as ([] & _ & H). by injection H.
Qed.

#[local] Hint Constructors session_error : session.

(** The handlers, on payloads that validate. *)
Ltac refuse :=
  go_unfold; repeat case_match; intros; simplify_eq/=; try done; split; auto with session.

Lemma simple_handlers_refuse (f : DriverM unit) m e m' :
  f ∈ [AcceptHello; AcceptPrepare; CheckCapabilities; Reset; Shutdown] ->
  f m = (Err e, m') -> session_error e ∧ m' = m.
Proof.
  rewrite !elem_of_cons, elem_of_nil.
  intros [->|[->|[->|[->|[->|[]]]]]];
    unfold AcceptHello, AcceptPrepare, CheckCapabilities, Reset, Shutdown, invalidStateLocked; refuse.
Qed.
Lemma BeginInvocation_refuses p m e m' :
  InvokeParams_Validate p = Ok tt -> BeginInvocation p m = (Err e, m') -> session_error e ∧ m' = m.
Proof.
  intros Hv. unfold BeginInvocation, invalidStateLocked. go_unfold. rewrite Hv. refuse.
Qed.
Lemma RequestCancel_refuses p m e m' :
  CancelParams_Validate p = Ok tt -> RequestCancel p m = (Err e, m') -> session_error e ∧ m' = m.
Proof.
  intros Hv. unfold RequestCancel, require_invoking, invalidStateLocked. go_unfold. rewrite Hv. refuse.
Qed.
Lemma Observe_refuses p m e m' :
  ObservationParams_Validate p = Ok tt -> Observe p m = (Err e, m') -> session_error e ∧ m' = m.
Proof.
  intros Hv. unfold Observe, require_invoking, invalidStateLocked. go_unfold. rewrite Hv. refuse.
Qed.
Lemma Complete_refuses p m e m' :
  CompletedParams_Validate p = Ok tt -> Complete p m = (Err e, m') -> session_error e ∧ m' = m.
Proof.
  intros Hv. unfold Complete, require_invoking, invalidStateLocked. go_unfold. rewrite Hv. refuse.
Qed.

(** Follow the chain of tests on the method. *)
Ltac select_method H :=
  repeat (rewrite decide_False in H
            by (intros ?; repeat match goal with X : _ ∨ _ |- _ => destruct X end; done));
  try (rewrite decide_True in H by auto).

(** A payload that was decoded and checked is decoded again by [Apply]. *)
Lemma payload_step {A} (r : result ProtocolError A) (k : A -> result ProtocolError unit)
    (f : A -> DriverM unit) m e m' :
  (x ← r; k x) = Ok tt -> (x ← lift r; f x) m = (Err e, m') ->
  exists a, k a = Ok tt ∧ f a m = (Err e, m').
Proof. intros (a & -> & Ha)%bind_Ok H. by exists a. Qed.

(** A check that passed is passed again. *)
Lemma checked_step (r : result ProtocolError unit) (f : DriverM unit) m e m'
    (Hr : r = Ok tt) (H : (lift r;; f) m = (Err e, m')) :
  f ∈ [AcceptHello; AcceptPrepare; CheckCapabilities; Reset; Shutdown] -> session_error e ∧ m' = m.
Proof. subst r. intros Hf. by apply (simple_handlers_refuse f). Qed.

(** The codec and the machine agree on payloads: when
    [DecodeControlFrame] has returned a message and [Machine.Apply] refuses
    it, the reason is never its payload or its method: it is the state of the
    session, or an identifier or sequence number that does not fit the active
    invocation; and the machine is unchanged. *)
Theorem decoded_frames_fail_only_by_session line msg m e m'
    (Hdecode : DecodeControlFrame line = Ok msg) (Happly : Apply msg m = (Err e, m')) :
  session_error e ∧ m' = m.
Proof.
  apply DecodeControlFrame_checks in Hdecode as [[kind Hk] Hp].
  unfold Apply in Happly. unfold mbind at 1, gom_bind at 1, lift at 1 in Happly.
  rewrite Hk in Happly. pose proof (Kind_method msg kind Hk) as Hm.
  unfold validateMethodPayload in Hp. destruct kind.
  4: { unfold fail in Happly. simplify_eq. split; auto with session. }
  all: destruct Hm as [Hm|Hm]; [done|]; unfold requestMethods, notificationMethods in Hm; simpl in Hm;
    rewrite !elem_of_cons, elem_of_nil in Hm;
    repeat (destruct Hm as [Hm|Hm]; [rewrite Hm in *|]); [..|done];
    select_method Hp; select_method Happly.
  all: first
    [ apply (checked_step _ _ _ _ _ Hp Happly); rewrite !elem_of_cons; tauto
    | destruct (payload_step _ _ _ _ _ _ Hp Happly) as (a & Ha & H);
      first
      [ apply (checked_step _ _ _ _ _ Ha H); rewrite !elem_of_cons; tauto
      | apply wrap_ok in Ha;
        first [ by apply (BeginInvocation_refuses a) | by apply (RequestCancel_refuses a)
              | by apply (Observe_refuses a) | by apply (Complete_refuses a) ] ] ].
Qed.
End Codec.

(** ** A concrete codec *)
#[local] Instance ErrorData_eq_dec : EqDecision ErrorData.
Proof. solve_decision. Defined.
#[local] Instance RPCError_eq_dec : EqDecision RPCError.
Proof. solve_decision. Defined.
#[local] Instance Message_eq_dec : EqDecision Message.
Proof. solve_decision. Defined.

#[local] Instance sample_library : JSONLibrary := {
  NewDecoder raw := mkDecoder [Scalar SNull] io_EOF false;
  jcs_Transform raw :=
    if decide (raw <> [] ∧ LF ∉ raw ∧ CR ∉ raw) then Ok raw else Err (ErrorNew (Text "not canonical"));
  Sum256 data := resize 32 "0"%char data;
  Sum256_length data := length_resize data 32 "0"%char
}.
#[local] Instance sample_params : JSONCodec := {
  decode_hello _ := Ok (mkHelloParams (mkVersionRange "1" "1"));
  decode_prepare _ := Err (ErrorNew (Text "prepare"));
  decode_invoke _ := Err (ErrorNew (Text "invoke"));
  decode_cancel _ := Err (ErrorNew (Text "cancel"));
  decode_observation _ := Err (ErrorNew (Text "observation"));
  decode_completed _ := Err (ErrorNew (Text "completed"));
  decode_empty _ := Ok tt;
  decode_id _ := Ok (IDString "1")
}.
Definition sample_hello : Message := mkMessage "2.0" "1" MethodHello "{}" "" None.
(** A codec that knows this message. *)
#[local] Instance sample_codec : FrameCodec := {
  decode_message _ := Ok sample_hello;
  marshal_message m :=
    if decide (m = sample_hello) then Ok (list_ascii_of_string "{hello}") else Err (ErrorNew (Text "unknown message"))
}.
Lemma sample_marshal m c : CanonicalMarshal marshal_message m = Ok c -> m = sample_hello ∧ c = list_ascii_of_string "{hello}".
Proof.
  unfold CanonicalMarshal. intros (raw & H%wrap_ok & G)%bind_Ok. cbn in H. case_decide as E; [|done].
  injection H as <-. split; [done|]. vm_compute in G. by injection G as <-.
Qed.
#[local] Instance sample_laws : FrameLaws.
Proof.
  assert (forall raw c, CanonicalizeJSON raw = Ok c -> c = raw ∧ raw <> [] ∧ LF ∉ raw ∧ CR ∉ raw) as H.
  { intros raw c. unfold CanonicalizeJSON. intros ([] & _ & H)%bind_Ok. apply bind_Ok in H as ([] & _ & H%wrap_ok).
    cbn in H. case_decide as E; [|done]. by injection H as <-. }
  split.
  - intros raw c E. by destruct (H raw c E) as [-> _].
  - intros raw c E. by destruct (H raw c E) as [-> ?].
  - vm_compute. reflexivity.
  - intros m c E. by destruct (sample_marshal m c E) as [_ ->].
  - intros m c _ _ E. destruct (sample_marshal m c E) as [-> _]. vm_compute. reflexivity.
Qed.

Lemma frames_roundtrip_witness :
  let text := list_ascii_of_string "{hello}" in
  decode_times 3 (mkStream ((text ++ [LF]) ++ text ++ [CR; LF]) io_EOF) =
  ([Ok sample_hello; Ok sample_hello; Err (DecError io_EOF)], mkStream [] io_EOF).
Proof.
  assert (sample_hello = canonical_message sample_hello) as E by (vm_compute; reflexivity). cbv zeta. rewrite E.
  apply (frames_roundtrip
    [(sample_hello, list_ascii_of_string "{hello}", [LF]);
     (sample_hello, list_ascii_of_string "{hello}", [CR; LF])] 1).
  apply Forall_cons. split; [|apply Forall_cons; split; [|constructor]];
    (split_and!; [intros e [=]|vm_compute; reflexivity|unfold line_endings; rewrite !elem_of_cons; auto]).
Defined.

(** A second hello is refused because of the state. *)
Lemma decoded_frames_fail_only_by_session_witness :
  session_error (invalidStateLocked MethodHello StateNew (mkMachine StateHello None ∅)) ∧
  mkMachine StateHello None ∅ = mkMachine StateHello None ∅.
Proof.
  apply (decoded_frames_fail_only_by_session (list_ascii_of_string "{hello}") sample_hello
    (mkMachine StateHello None ∅)).
  - vm_compute. reflexivity.
  - vm_compute. reflexivity.
Defined.
