(* ===== verification/SSE.v ===== *)
(** * internal/recorder/sse.go: assembling server-sent events

    [SSEAssembler] turns transport reads into logical SSE events.  The model
    keeps Go's two types apart: a byte slice is a [list ascii], a string is a
    [string].  Slice lengths are the lengths of values in memory and do not
    overflow; the offsets and sequence numbers are 64-bit and wrap. *)
From Stdlib Require Import ZArith Ascii String Lia.
From stdpp Require Import base gmap sets list strings.
From S2P Require Import Prelude.
Local Open Scope Z_scope.
Local Open Scope string_scope.
Local Open Scope list_scope.

Definition DefaultMaxSSEBufferBytes : Z := Z.shiftl 1 20.
Definition maxSSEFieldsPerEvent : Z := 1024.

Abbreviation bytes := (list ascii).
Definition blen (l : bytes) : Z := Z.of_nat (length l).
Definition newline_byte : ascii := "010"%char.
Definition cr_byte : ascii := "013"%char.
Definition colon : ascii := ":"%char.
Definition nul : ascii := "000"%char.

Record ReadChunk := mkReadChunk { chSequence : Z; ByteOffset : Z; chData : bytes }.

Record SSEField := mkSSEField { fName : string; fValue : string }.

Record SSELogicalEvent := mkSSELogicalEvent {
  evSequence : Z;
  EventOffset : Z;
  evEvent : string;
  evData : string;
  evID : string;
  RetryMillis : option Z;
  Fields : list SSEField;
  Issues : list string;
  evSourceChunkSequences : list Z
}.

Record StreamTail := mkStreamTail {
  BufferedBytes : Z;
  PendingFieldCount : Z;
  tailSourceChunkSequences : list Z
}.

Record SSEAssembler := mkSSEAssembler {
  maxBufferBytes : Z;
  buffer : bytes;
  nextChunkSequence : Z;
  nextByteOffset : Z;
  started : bool;
  processedOffset : Z;
  nextEventSequence : Z;
  currentOffset : Z;
  currentBytes : Z;
  currentFields : list SSEField;
  currentChunks : list Z
}.

Definition NewSSEAssembler (max : Z) : SSEAssembler :=
  let max := if decide (max <= 0) then DefaultMaxSSEBufferBytes else max in
  mkSSEAssembler max [] 1 0 false 0 1 0 0 [] [].

Definition SSEM := GoM SSEAssembler error.

(** ** The library functions the assembler uses *)

(** [bytes.IndexByte]; [None] is -1. *)
Fixpoint IndexByte (l : bytes) (c : ascii) : option nat :=
  match l with
  | [] => None
  | a :: l' => if decide (a = c) then Some 0%nat else S <$> IndexByte l' c
  end.

(** [strings.Cut] at the first [c]; the flag is [found]. *)
Fixpoint Cut (s : string) (c : ascii) : string * string * bool :=
  match s with
  | EmptyString => (EmptyString, EmptyString, false)
  | String a s' =>
      if decide (a = c) then (EmptyString, s', true)
      else let '(before, after, found) := Cut s' c in (String a before, after, found)
  end.

(** [strings.Join]. *)
Fixpoint Join (elems : list string) (sep : string) : string :=
  match elems with
  | [] => ""
  | [e] => e
  | e :: elems' => (e +:+ (sep +:+ Join elems' sep))%string
  end.

(** [strconv.ParseInt(s, 10, 64)]; [None] is a syntax or range error. *)
Fixpoint parse_digits (s : string) (acc : Z) : option Z :=
  match s with
  | EmptyString => Some acc
  | String c s' =>
      if is_digit c then parse_digits s' (10 * acc + Z.of_N (byte c - 48)) else None
  end.

Definition ParseInt (s : string) : option Z :=
  let '(negative, digits) :=
    match s with
    | String "+" s' => (false, s')
    | String "-" s' => (true, s')
    | _ => (false, s)
    end in
  match digits with
  | EmptyString => None
  | _ => match parse_digits digits 0 with
         | Some n => let v := if negative then - n else n in
                     if decide (int64_min <= v <= int64_max) then Some v else None
         | None => None
         end
  end.

(** ** Operations *)

Definition set_buffer (b : bytes) (a : SSEAssembler) : SSEAssembler :=
  mkSSEAssembler (maxBufferBytes a) b (nextChunkSequence a) (nextByteOffset a) (started a)
    (processedOffset a) (nextEventSequence a) (currentOffset a) (currentBytes a)
    (currentFields a) (currentChunks a).
Definition set_nextChunkSequence (n : Z) (a : SSEAssembler) : SSEAssembler :=
  mkSSEAssembler (maxBufferBytes a) (buffer a) n (nextByteOffset a) (started a)
    (processedOffset a) (nextEventSequence a) (currentOffset a) (currentBytes a)
    (currentFields a) (currentChunks a).
Definition set_nextByteOffset (n : Z) (a : SSEAssembler) : SSEAssembler :=
  mkSSEAssembler (maxBufferBytes a) (buffer a) (nextChunkSequence a) n (started a)
    (processedOffset a) (nextEventSequence a) (currentOffset a) (currentBytes a)
    (currentFields a) (currentChunks a).
Definition set_started (b : bool) (a : SSEAssembler) : SSEAssembler :=
  mkSSEAssembler (maxBufferBytes a) (buffer a) (nextChunkSequence a) (nextByteOffset a) b
    (processedOffset a) (nextEventSequence a) (currentOffset a) (currentBytes a)
    (currentFields a) (currentChunks a).
Definition set_processedOffset (n : Z) (a : SSEAssembler) : SSEAssembler :=
  mkSSEAssembler (maxBufferBytes a) (buffer a) (nextChunkSequence a) (nextByteOffset a)
    (started a) n (nextEventSequence a) (currentOffset a) (currentBytes a)
    (currentFields a) (currentChunks a).
Definition set_nextEventSequence (n : Z) (a : SSEAssembler) : SSEAssembler :=
  mkSSEAssembler (maxBufferBytes a) (buffer a) (nextChunkSequence a) (nextByteOffset a)
    (started a) (processedOffset a) n (currentOffset a) (currentBytes a)
    (currentFields a) (currentChunks a).
Definition set_currentOffset (n : Z) (a : SSEAssembler) : SSEAssembler :=
  mkSSEAssembler (maxBufferBytes a) (buffer a) (nextChunkSequence a) (nextByteOffset a)
    (started a) (processedOffset a) (nextEventSequence a) n (currentBytes a)
    (currentFields a) (currentChunks a).
Definition set_currentBytes (n : Z) (a : SSEAssembler) : SSEAssembler :=
  mkSSEAssembler (maxBufferBytes a) (buffer a) (nextChunkSequence a) (nextByteOffset a)
    (started a) (processedOffset a) (nextEventSequence a) (currentOffset a) n
    (currentFields a) (currentChunks a).
Definition set_currentFields (l : list SSEField) (a : SSEAssembler) : SSEAssembler :=
  mkSSEAssembler (maxBufferBytes a) (buffer a) (nextChunkSequence a) (nextByteOffset a)
    (started a) (processedOffset a) (nextEventSequence a) (currentOffset a) (currentBytes a)
    l (currentChunks a).
Definition set_currentChunks (l : list Z) (a : SSEAssembler) : SSEAssembler :=
  mkSSEAssembler (maxBufferBytes a) (buffer a) (nextChunkSequence a) (nextByteOffset a)
    (started a) (processedOffset a) (nextEventSequence a) (currentOffset a) (currentBytes a)
    (currentFields a) l.

Definition addCurrentChunk (sequence : Z) : SSEM unit :=
  a ← get;
  if decide (length (currentChunks a) = 0%nat ∨ last (currentChunks a) ≠ Some sequence)
  then modify (set_currentChunks (currentChunks a ++ [sequence]))
  else mret tt.

(** The switch over the field names, folded over the fields of one event;
    the accumulator also carries the [data] slice. *)
Definition apply_field (acc : SSELogicalEvent * list string) (field : SSEField)
    : SSELogicalEvent * list string :=
  let '(e, data) := acc in
  if decide (fName field = "event") then
    (mkSSELogicalEvent (evSequence e) (EventOffset e) (fValue field) (evData e) (evID e)
       (RetryMillis e) (Fields e) (Issues e) (evSourceChunkSequences e), data)
  else if decide (fName field = "data") then (e, data ++ [fValue field])
  else if decide (fName field = "id") then
    if string_any (fun c => bool_decide (c = nul)) (fValue field) then
      (mkSSELogicalEvent (evSequence e) (EventOffset e) (evEvent e) (evData e) (evID e)
         (RetryMillis e) (Fields e) (Issues e ++ ["id_contains_nul"])
         (evSourceChunkSequences e), data)
    else
      (mkSSELogicalEvent (evSequence e) (EventOffset e) (evEvent e) (evData e) (fValue field)
         (RetryMillis e) (Fields e) (Issues e) (evSourceChunkSequences e), data)
  else if decide (fName field = "retry") then
    match ParseInt (fValue field) with
    | Some value =>
        if decide (value < 0) then
          (mkSSELogicalEvent (evSequence e) (EventOffset e) (evEvent e) (evData e) (evID e)
             (RetryMillis e) (Fields e) (Issues e ++ ["invalid_retry"])
             (evSourceChunkSequences e), data)
        else
          (mkSSELogicalEvent (evSequence e) (EventOffset e) (evEvent e) (evData e) (evID e)
             (Some value) (Fields e) (Issues e) (evSourceChunkSequences e), data)
    | None =>
        (mkSSELogicalEvent (evSequence e) (EventOffset e) (evEvent e) (evData e) (evID e)
           (RetryMillis e) (Fields e) (Issues e ++ ["invalid_retry"])
           (evSourceChunkSequences e), data)
    end
  else (e, data).

(** The second result of [dispatch] and [consumeLine] is the [emitted] flag:
    [None] is [(SSELogicalEvent{}, false)]. *)
Definition dispatch : SSEM (option SSELogicalEvent) :=
  a ← get;
  if decide (length (currentFields a) = 0%nat) then
    modify (set_currentBytes 0);;
    modify (set_currentChunks []);;
    mret None
  else
    let event := mkSSELogicalEvent (nextEventSequence a) (currentOffset a) "" "" "" None
                   (currentFields a) [] (currentChunks a) in
    let '(e, data) := foldl apply_field (event, []) (currentFields a) in
    let e := mkSSELogicalEvent (evSequence e) (EventOffset e) (evEvent e)
               (Join data (String newline_byte "")) (evID e) (RetryMillis e) (Fields e)
               (Issues e) (evSourceChunkSequences e) in
    modify (set_nextEventSequence (uint64_wrap (nextEventSequence a + 1)));;
    modify (set_currentBytes 0);;
    modify (set_currentFields []);;
    modify (set_currentChunks []);;
    mret (Some e).

Definition consumeLine (line : string) (lineStart : Z) : SSEM (option SSELogicalEvent) :=
  if decide (line = "") then dispatch
  else if HasPrefix line ":" then mret None
  else
    a ← get;
    (if decide (length (currentFields a) = 0%nat) then modify (set_currentOffset lineStart)
     else mret tt);;
    let '(name, value, found) := Cut line colon in
    let value :=
      if negb found then ""
      else if HasPrefix value " " then String.substring 1 (String.length value - 1) value
      else value in
    modify (set_currentFields (currentFields a ++ [mkSSEField name value]));;
    mret None.

Definition strip_cr (line : bytes) : bytes :=
  if decide (0 < length line ∧ last line = Some cr_byte)%nat
  then take (length line - 1) line else line.

(** The error the loop would end with if its fuel ran out; [Feed] never
    returns it ([Feed_fed] and [Feed_first] of SSESpec.v). *)
Definition out_of_fuel : error := Sentinel "out of fuel".

(** The [for] loop of [Feed]: one iteration per complete line. *)
Fixpoint feed_loop (fuel : nat) (sequence : Z) (events : list SSELogicalEvent)
    : SSEM (list SSELogicalEvent) :=
  match fuel with
  | O => fail out_of_fuel
  | S fuel' =>
      a ← get;
      match IndexByte (buffer a) newline_byte with
      | None =>
          fail_if (currentBytes a + blen (buffer a) > maxBufferBytes a)
            (ErrorNew (Sprintf "SSE logical event exceeds %d bytes" [FInt (maxBufferBytes a)]));;
          addCurrentChunk sequence;;
          mret events
      | Some newline =>
          addCurrentChunk sequence;;
          let lineStart := processedOffset a in
          let line := take newline (buffer a) in
          modify (set_buffer (drop (newline + 1) (buffer a)));;
          modify (set_processedOffset (int64_wrap (processedOffset a + Z.of_nat (newline + 1))));;
          let line := strip_cr line in
          (if decide (0 < blen line) then
             modify (set_currentBytes (currentBytes a + (blen line + 1)));;
             fail_if (currentBytes a + (blen line + 1) > maxBufferBytes a)
               (ErrorNew (Sprintf "SSE logical event exceeds %d bytes"
                            [FInt (maxBufferBytes a)]));;
             fail_if (head line ≠ Some colon ∧
                      Z.of_nat (length (currentFields a)) >= maxSSEFieldsPerEvent)
               (ErrorNew (Sprintf "SSE logical event exceeds %d fields"
                            [FInt maxSSEFieldsPerEvent]))
           else mret tt);;
          emitted ← consumeLine (string_of_list_ascii line) lineStart;
          feed_loop fuel' sequence
            (match emitted with Some event => events ++ [event] | None => events end)
      end
  end.

Definition Feed (chunk : ReadChunk) : SSEM (list SSELogicalEvent) :=
  a ← get;
  fail_if (chSequence chunk ≠ nextChunkSequence a)
    (ErrorNew (Sprintf "read chunk sequence must be %d, got %d"
                 [FInt (nextChunkSequence a); FInt (chSequence chunk)]));;
  fail_if (ByteOffset chunk < 0 ∨ blen (chData chunk) = 0)
    (ErrorNew (Text "read chunk requires nonnegative offset and nonempty data"));;
  (if started a then mret tt
   else
     modify (set_started true);;
     modify (set_nextByteOffset (ByteOffset chunk));;
     modify (set_processedOffset (ByteOffset chunk)));;
  a ← get;
  fail_if (ByteOffset chunk ≠ nextByteOffset a)
    (ErrorNew (Sprintf "read chunk byte offset must be %d, got %d"
                 [FInt (nextByteOffset a); FInt (ByteOffset chunk)]));;
  fail_if (blen (buffer a) + blen (chData chunk) > maxBufferBytes a)
    (ErrorNew (Sprintf "SSE buffered bytes exceed %d" [FInt (maxBufferBytes a)]));;
  modify (set_buffer (buffer a ++ chData chunk));;
  modify (set_nextChunkSequence (uint64_wrap (nextChunkSequence a + 1)));;
  modify (set_nextByteOffset (int64_wrap (nextByteOffset a + blen (chData chunk))));;
  feed_loop (S (length (buffer a ++ chData chunk))) (chSequence chunk) [].

Definition Finish (a : SSEAssembler) : StreamTail :=
  mkStreamTail (blen (buffer a)) (Z.of_nat (length (currentFields a))) (currentChunks a).

(** Feeding a whole sequence of reads, collecting the events. *)
Fixpoint feed_all (chunks : list ReadChunk) : SSEM (list SSELogicalEvent) :=
  match chunks with
  | [] => mret []
  | c :: chunks' => es ← Feed c; rest ← feed_all chunks'; mret (es ++ rest)
  end.
