(* ===== verification/SSESpec.v ===== *)
(** * internal/recorder/sse.go: the reference parse of a whole stream

    A declarative reading of the event-stream format (split the bytes into
    lines, the lines into blocks at blank lines, drop comments, number the
    blocks that have fields) and the proof that the incremental assembler
    computes it, however the stream was cut into reads. *)
From Stdlib Require Import ZArith Ascii String Lia.
From stdpp Require Import base gmap sets list strings.
From S2P Require Import Prelude SSE.
Local Open Scope Z_scope.
Local Open Scope string_scope.
Local Open Scope list_scope.

(** ** Splitting *)

(** The complete segments ended by a separator, and the unfinished rest. *)
Fixpoint split_on {A} (sep : A -> bool) (l : list A) : list (list A) * list A :=
  match l with
  | [] => ([], [])
  | x :: l' =>
      let '(segs, rest) := split_on sep l' in
      if sep x then ([] :: segs, rest)
      else match segs with
           | [] => ([], x :: rest)
           | s :: segs' => ((x :: s) :: segs', rest)
           end
  end.

Definition is_newline (c : ascii) : bool := bool_decide (c = newline_byte).

(** The text of a line that LF ended: a carriage return just before the LF
    belongs to the terminator. *)
Fixpoint line_text (l : bytes) : string :=
  match l with
  | [] => ""
  | c :: l' =>
      if decide (c = cr_byte ∧ l' = []) then "" else String c (line_text l')
  end.

(** The lines of a stream with the offset of their first byte, the line
    terminator (LF or CR LF) removed. *)
Fixpoint with_offsets (start : Z) (ls : list bytes) : list (Z * string) :=
  match ls with
  | [] => []
  | l :: ls' => (start, line_text l) :: with_offsets (start + blen l + 1) ls'
  end.

Definition is_blank (l : Z * string) : bool := bool_decide (l.2 = "").
Definition is_comment (l : Z * string) : bool := HasPrefix l.2 ":".
Definition field_lines (block : list (Z * string)) : list (Z * string) :=
  filter (fun l => is_comment l = false) block.

Definition parse_field (line : string) : SSEField :=
  let '(name, value, found) := Cut line colon in
  mkSSEField name
    (if negb found then ""
     else if HasPrefix value " " then String.substring 1 (String.length value - 1) value
     else value).

Definition values (name : string) (fs : list SSEField) : list string :=
  fValue <$> filter (fun f => fName f = name) fs.
Definition has_nul (s : string) : bool := string_any (fun c => bool_decide (c = nul)) s.
Definition valid_retry (s : string) : option Z :=
  match ParseInt s with Some v => if decide (v < 0) then None else Some v | None => None end.
Definition field_issue (f : SSEField) : option string :=
  if decide (fName f = "id") then if has_nul (fValue f) then Some "id_contains_nul" else None
  else if decide (fName f = "retry") then
    match valid_retry (fValue f) with Some _ => None | None => Some "invalid_retry" end
  else None.

(** The event of a block: its fields, each in the way the format says; the
    last [event], the last [id] without NUL, the last valid [retry], the
    [data] values joined by newlines. *)
Definition event_of (sequence offset : Z) (fs : list SSEField) : SSELogicalEvent :=
  mkSSELogicalEvent sequence offset
    (default "" (last (values "event" fs)))
    (Join (values "data" fs) (String newline_byte ""))
    (default "" (last (filter (fun v => has_nul v = false) (values "id" fs))))
    (last (omap valid_retry (values "retry" fs)))
    fs (omap field_issue fs) [].

Definition block_event (i : nat) (b : list (Z * string)) : SSELogicalEvent :=
  event_of (1 + Z.of_nat i) (default 0 (fst <$> head b)) (parse_field ∘ snd <$> b).

Definition field_blocks (ls : list (Z * string)) : list (list (Z * string)) :=
  filter (fun b => b <> []) (field_lines <$> (split_on is_blank ls).1).

Definition line_events (ls : list (Z * string)) : list SSELogicalEvent :=
  imap block_event (field_blocks ls).
Definition line_pending (ls : list (Z * string)) : list (Z * string) :=
  field_lines (split_on is_blank ls).2.

(** The reference parse of a stream that starts at byte offset [start]. *)
Definition stream_lines (start : Z) (s : bytes) : list (Z * string) :=
  with_offsets start (split_on is_newline s).1.
Definition reference_events (start : Z) (s : bytes) : list SSELogicalEvent :=
  line_events (stream_lines start s).
Definition reference_tail (start : Z) (s : bytes) : Z * Z :=
  (blen (split_on is_newline s).2, Z.of_nat (length (line_pending (stream_lines start s)))).

(** An event without its chunk provenance. *)
Definition erase (e : SSELogicalEvent) : SSELogicalEvent :=
  mkSSELogicalEvent (evSequence e) (EventOffset e) (evEvent e) (evData e) (evID e)
    (RetryMillis e) (Fields e) (Issues e) [].

(** ** Lemmas on splitting *)
Lemma split_on_snoc {A} (sep : A -> bool) l x :
  split_on sep (l ++ [x]) =
  let '(segs, rest) := split_on sep l in
  if sep x then (segs ++ [rest], []) else (segs, rest ++ [x]).
Proof.
  induction l as [|y l IH]; simpl; [by destruct (sep x)|].
  rewrite IH. destruct (split_on sep l) as [segs rest].
  destruct (sep x), (sep y); try done; by destruct segs.
Qed.

Lemma split_on_none {A} (sep : A -> bool) l :
  Forall (fun x => sep x = false) l -> split_on sep l = ([], l).
Proof. induction 1 as [|x l Hx _ IH]; simpl; [done|]. by rewrite IH, Hx. Qed.

Lemma split_on_app_closed {A} (sep : A -> bool) l1 segs l2 :
  split_on sep l1 = (segs, []) ->
  split_on sep (l1 ++ l2) = (segs ++ (split_on sep l2).1, (split_on sep l2).2).
Proof.
  revert segs. induction l1 as [|x l1 IH]; simpl; intros segs H.
  - injection H as <-. by destruct (split_on sep l2).
  - destruct (split_on sep l1) as [s r] eqn:E. destruct (sep x) eqn:Ex.
    + injection H as <- ->. rewrite (IH _ eq_refl). done.
    + destruct s as [|s0 s]; [done|]. injection H as <- ->. rewrite (IH _ eq_refl). done.
Qed.

Lemma with_offsets_snoc start ls l :
  with_offsets start (ls ++ [l]) =
  with_offsets start ls ++
    [(start + Z.of_nat (length (concat ls) + length ls), line_text l)].
Proof.
  revert start. induction ls as [|x ls IH]; intros start; simpl.
  - by rewrite Z.add_0_r.
  - rewrite IH. simpl. rewrite length_app. unfold blen.
    replace (start + Z.of_nat (length x) + 1 + Z.of_nat (length (concat ls) + length ls))
      with (start + Z.of_nat (length x + length (concat ls) + S (length ls))) by lia. done.
Qed.

Lemma with_offsets_length start ls : length (with_offsets start ls) = length ls.
Proof. revert start. induction ls as [|x ls IH]; intros start; simpl; [done|]. by rewrite IH. Qed.

(** The bytes of a stream that ends at a line terminator. *)
Lemma split_on_length {A} (sep : A -> bool) l :
  (length (concat (split_on sep l).1) + length (split_on sep l).1 + length (split_on sep l).2
   = length l)%nat.
Proof.
  induction l as [|x l IH]; simpl; [done|].
  destruct (split_on sep l) as [segs rest]. simpl in IH.
  destruct (sep x); simpl; [lia|]. destruct segs; simpl in *; lia.
Qed.

Lemma IndexByte_Some l c i :
  IndexByte l c = Some i ->
  l = take i l ++ c :: drop (i + 1) l ∧ Forall (fun x => x <> c) (take i l) ∧ (i < length l)%nat.
Proof.
  revert i. induction l as [|a l IH]; simpl; [done|]. intros i.
  case_decide as Ha.
  - intros [= <-]. subst. simpl. split_and!; [by rewrite drop_0|constructor|lia].
  - intros (j & Hj & ->)%fmap_Some. destruct (IH j Hj) as (E & F & L).
    simpl. split_and!; [by rewrite <- E|by constructor|lia].
Qed.

Lemma IndexByte_None l c : IndexByte l c = None -> Forall (fun x => x <> c) l.
Proof.
  induction l as [|a l IH]; simpl; [constructor|]. case_decide; [done|].
  intros Hn%fmap_None. constructor; auto.
Qed.

(** ** One event *)
Lemma filter_snoc {A} (P : A -> Prop) `{!forall x, Decision (P x)} (l : list A) x :
  filter P (l ++ [x]) = filter P l ++ (if decide (P x) then [x] else []).
Proof. by rewrite filter_app. Qed.

Lemma values_snoc name fs f :
  values name (fs ++ [f]) = values name fs ++ (if decide (fName f = name) then [fValue f] else []).
Proof. unfold values. rewrite filter_snoc, fmap_app. by case_decide. Qed.

Lemma omap_snoc {A B} (f : A -> option B) l x :
  omap f (l ++ [x]) = omap f l ++ match f x with Some y => [y] | None => [] end.
Proof. rewrite omap_app. simpl. by destruct (f x). Qed.

(** The loop over the fields computes the declarative event. *)
Lemma fields_event seq off chunks all fs :
  foldl apply_field (mkSSELogicalEvent seq off "" "" "" None all [] chunks, []) fs =
  (mkSSELogicalEvent seq off (default "" (last (values "event" fs))) ""
     (default "" (last (filter (fun v => has_nul v = false) (values "id" fs))))
     (last (omap valid_retry (values "retry" fs))) all (omap field_issue fs) chunks,
   values "data" fs).
Proof.
  induction fs as [|f fs IH] using rev_ind; [done|].
  rewrite foldl_snoc, IH, !values_snoc, omap_snoc. unfold apply_field, field_issue.
  destruct f as [n v]; simpl. fold (has_nul v).
  repeat (case_decide; simplify_eq/=); rewrite ?app_nil_r, ?last_snoc; try done.
  - rewrite filter_snoc. by destruct (has_nul v); simpl; rewrite ?app_nil_r, ?last_snoc.
  - rewrite omap_snoc. unfold valid_retry.
    by destruct (ParseInt v); [case_decide|]; simpl; rewrite ?app_nil_r, ?last_snoc.
Qed.

(** ** One line *)
Lemma line_pending_snoc L x :
  line_pending (L ++ [x]) =
  if is_blank x then [] else line_pending L ++ (if is_comment x then [] else [x]).
Proof.
  unfold line_pending, field_lines. rewrite split_on_snoc.
  destruct (split_on is_blank L) as [bs p]. destruct (is_blank x); [done|]. simpl.
  rewrite filter_snoc. by destruct (is_comment x).
Qed.

Lemma line_events_snoc L x :
  line_events (L ++ [x]) =
  line_events L ++
    (if is_blank x then
       match line_pending L with [] => [] | p => [block_event (length (line_events L)) p] end
     else []).
Proof.
  unfold line_events, line_pending, field_blocks. rewrite split_on_snoc.
  destruct (split_on is_blank L) as [bs p]. destruct (is_blank x); simpl;
    [|by rewrite app_nil_r].
  rewrite fmap_app. cbn [fmap list_fmap]. rewrite filter_snoc, imap_app, length_imap.
  destruct (field_lines p) as [|y l] eqn:E; [done|]. simpl. by rewrite Nat.add_0_r.
Qed.

(** What the assembler holds after the lines [L], having emitted [evs]. *)
Record line_inv (L : list (Z * string)) (evs : list SSELogicalEvent) (a : SSEAssembler) : Prop := {
  li_events : erase <$> evs = line_events L;
  li_fields : currentFields a = parse_field ∘ snd <$> line_pending L;
  li_offset : forall x, head (line_pending L) = Some x -> currentOffset a = x.1;
  li_seq : nextEventSequence a = 1 + Z.of_nat (length evs)
}.

(** What consuming a line leaves alone. *)
Record frame (a a' : SSEAssembler) : Prop := {
  fr_max : maxBufferBytes a' = maxBufferBytes a;
  fr_buffer : buffer a' = buffer a;
  fr_chunk : nextChunkSequence a' = nextChunkSequence a;
  fr_byte : nextByteOffset a' = nextByteOffset a;
  fr_started : started a' = started a;
  fr_processed : processedOffset a' = processedOffset a
}.

Lemma line_events_bound L : (length (line_events L) <= length L)%nat.
Proof.
  induction L as [|x L IH] using rev_ind; [done|].
  rewrite line_events_snoc, !length_app. simpl.
  destruct (is_blank x); [destruct (line_pending L)|]; simpl; lia.
Qed.

Lemma dispatch_spec L evs off a :
  line_inv L evs a -> Z.of_nat (length L) + 2 < 2 ^ 64 ->
  exists em a', dispatch a = (Ok em, a') ∧
    line_inv (L ++ [(off, "")]) (evs ++ option_list em) a' ∧ frame a a' ∧
    currentBytes a' = 0.
Proof.
  intros [He Hf Ho Hs] Hlen. unfold dispatch, mbind, gom_bind, get.
  pose proof (line_pending_snoc L (off, "")) as Hp. pose proof (line_events_snoc L (off, "")) as Hv.
  change (is_blank (off, "")) with true in Hp, Hv. cbn match in Hp, Hv.
  assert (Z.of_nat (length evs) <= Z.of_nat (length L)) as Hle.
  { pose proof (line_events_bound L) as B. rewrite <- He, length_fmap in B. lia. }
  case_decide as Hz.
  - eexists None, _. split; [done|]. split_and!; [|done|done].
    assert (line_pending L = []) as E.
    { destruct (line_pending L); [done|]. by rewrite Hf in Hz. }
    rewrite E, app_nil_r in Hv. simpl. rewrite app_nil_r.
    split; rewrite ?Hv, ?Hp; simpl; try done. by rewrite Hf, E.
  - rewrite fields_event. eexists (Some _), _. split; [done|]. split_and!; [|done|done].
    destruct (line_pending L) as [|x p] eqn:E; [by rewrite Hf in Hz|].
    split; rewrite ?Hv, ?Hp; simpl; try done.
    + rewrite fmap_app, He. simpl. do 2 f_equal. unfold erase, block_event, event_of; simpl.
      rewrite Hs, Hf, (Ho x eq_refl). rewrite <- He, length_fmap. done.
    + rewrite Hs, length_app. simpl. rewrite uint64_wrap_id by lia. lia.
Qed.

Lemma consumeLine_spec L evs line off a :
  line_inv L evs a -> Z.of_nat (length L) + 2 < 2 ^ 64 ->
  exists em a', consumeLine line off a = (Ok em, a') ∧
    line_inv (L ++ [(off, line)]) (evs ++ option_list em) a' ∧ frame a a' ∧
    (currentBytes a' = currentBytes a ∨ currentBytes a' = 0).
Proof.
  intros Hinv Hlen. unfold consumeLine. case_decide as Hl.
  { subst. destruct (dispatch_spec L evs off a Hinv Hlen) as (em & a' & ? & ? & ? & ?).
    exists em, a'. auto. }
  destruct Hinv as [He Hf Ho Hs].
  pose proof (line_pending_snoc L (off, line)) as Hp.
  pose proof (line_events_snoc L (off, line)) as Hv.
  assert (is_blank (off, line) = false) as Hb by (by apply bool_decide_eq_false).
  rewrite Hb in Hp, Hv. rewrite app_nil_r in Hv. unfold is_comment in Hp. simpl in Hp.
  destruct (HasPrefix line ":") eqn:Hc; simpl in Hp.
  { eexists None, a. split; [done|]. split_and!; [|done|by left]. simpl. rewrite app_nil_r in Hp |- *.
    split; rewrite ?Hv, ?Hp; auto. }
  unfold mbind, gom_bind, get. simpl.
  assert (forall a1, currentFields a1 = currentFields a ++ [parse_field line] ->
    nextEventSequence a1 = nextEventSequence a ->
    (currentFields a = [] -> currentOffset a1 = off) ->
    (currentFields a <> [] -> currentOffset a1 = currentOffset a) ->
    line_inv (L ++ [(off, line)]) (evs ++ []) a1) as Hinv.
  { intros a1 H1 H2 H3 H4. rewrite app_nil_r. split; rewrite ?Hv, ?Hp; auto; [| |congruence].
    - rewrite H1, Hf, fmap_app. done.
    - intros x Hx. destruct (line_pending L) as [|y p] eqn:E; simpl in *.
      + injection Hx as <-. by apply H3.
      + rewrite H4 by (by rewrite Hf). by apply Ho. }
  destruct (Cut line colon) as [[name value] found] eqn:Ecut.
  assert (parse_field line = mkSSEField name
    (if negb found then "" else if HasPrefix value " "
       then String.substring 1 (String.length value - 1) value else value)) as Hpf
    by (unfold parse_field; by rewrite Ecut).
  case_decide as Hz; simpl; (eexists None, _; split; [reflexivity|]; split_and!; [|done|by left]);
    apply Hinv; simpl; rewrite ?Hpf; try done.
  - intros Hne. by apply nil_length_inv in Hz.
  - intros E. by rewrite E in Hz.
Qed.

(** ** One read *)
Lemma line_pending_bound L : (length (line_pending L) <= length L)%nat.
Proof.
  induction L as [|x L IH] using rev_ind; [done|]. rewrite line_pending_snoc, !length_app. simpl.
  destruct (is_blank x); [simpl; lia|]. rewrite length_app. destruct (is_comment x); simpl; lia.
Qed.

(** The bytes [D], a whole number of lines, have been consumed. *)
Record done_inv (start : Z) (D : bytes) (evs : list SSELogicalEvent) (a : SSEAssembler) : Prop := {
  di_closed : (split_on is_newline D).2 = [];
  di_line : line_inv (stream_lines start D) evs a;
  di_processed : processedOffset a = start + blen D;
  di_bytes : 0 <= currentBytes a <= blen D
}.

Definition no_newline (l : bytes) : Prop := Forall (fun c => is_newline c = false) l.

Lemma no_newline_of l : Forall (fun x => x <> newline_byte) l -> no_newline l.
Proof. intros H. eapply Forall_impl; [exact H|]. intros x Hx. by apply bool_decide_eq_false. Qed.

Lemma split_line D l :
  (split_on is_newline D).2 = [] -> no_newline l ->
  split_on is_newline (D ++ l ++ [newline_byte]) = ((split_on is_newline D).1 ++ [l], []).
Proof.
  intros Hc Hl. destruct (split_on is_newline D) as [ls r] eqn:E; simpl in *; subst.
  rewrite (split_on_app_closed _ _ _ _ E), split_on_snoc, (split_on_none _ _ Hl). done.
Qed.

Lemma stream_line start D l :
  (split_on is_newline D).2 = [] -> no_newline l ->
  stream_lines start (D ++ l ++ [newline_byte]) =
  stream_lines start D ++ [(start + blen D, line_text l)].
Proof.
  intros Hc Hl. unfold stream_lines. rewrite (split_line D l Hc Hl). cbn [fst].
  rewrite with_offsets_snoc. pose proof (split_on_length is_newline D) as Hn.
  rewrite Hc in Hn. rewrite Nat.add_0_r in Hn.
  by rewrite Hn.
Qed.

Lemma addCurrentChunk_spec seq a :
  exists a', addCurrentChunk seq a = (Ok tt, a') ∧ frame a a' ∧
    currentBytes a' = currentBytes a ∧ currentFields a' = currentFields a ∧
    currentOffset a' = currentOffset a ∧ nextEventSequence a' = nextEventSequence a.
Proof.
  unfold addCurrentChunk, mbind, gom_bind, get. case_decide; eexists; (split; [reflexivity|]); done.
Qed.

Lemma line_inv_ext L evs a a' :
  line_inv L evs a -> currentFields a' = currentFields a -> currentOffset a' = currentOffset a ->
  nextEventSequence a' = nextEventSequence a -> line_inv L evs a'.
Proof. intros [? ? ? ?] Hf Ho Hs. split; [done|congruence| |congruence]. rewrite Ho. done. Qed.

Lemma line_text_snoc l c :
  line_text (l ++ [c]) = string_of_list_ascii (if decide (c = cr_byte) then l else l ++ [c]).
Proof.
  induction l as [|x l IH]; cbn [app line_text].
  - repeat case_decide; naive_solver.
  - rewrite decide_False by (intros [_ ?]; by destruct l). rewrite IH. by case_decide.
Qed.

Lemma strip_cr_text l : string_of_list_ascii (strip_cr l) = line_text l.
Proof.
  destruct l as [|c l _] using rev_ind; [done|]. rewrite line_text_snoc. unfold strip_cr.
  rewrite last_snoc, length_app. simpl. repeat case_decide; try done; [|naive_solver lia..].
  by rewrite Nat.add_sub, take_app_length.
Qed.

Lemma strip_cr_length l : (length (strip_cr l) <= length l)%nat.
Proof. unfold strip_cr. case_decide; rewrite ?length_take; lia. Qed.

(** The parts of the state the loop of [Feed] never writes. *)
Definition same_reads (a a' : SSEAssembler) : Prop :=
  maxBufferBytes a' = maxBufferBytes a ∧ nextChunkSequence a' = nextChunkSequence a ∧
  nextByteOffset a' = nextByteOffset a ∧ started a' = started a.

(** A stream within the assembler's limits. *)
Definition within_limits (max : Z) (s : bytes) : Prop :=
  blen s <= max ∧ Z.of_nat (length (split_on is_newline s).1) <= maxSSEFieldsPerEvent.

(** What the loop leaves: either every complete line of the buffer has been
    consumed, or the stream is beyond the limits. *)
Definition loop_post (start : Z) (S : bytes) (prior : list SSELogicalEvent) (a : SSEAssembler)
    (r : result error (list SSELogicalEvent) * SSEAssembler) : Prop :=
  match r with
  | (Ok events', a') =>
      exists D', S = D' ++ buffer a' ∧ no_newline (buffer a') ∧
        done_inv start D' (prior ++ events') a' ∧ same_reads a a'
  | (Err e, _) => e <> out_of_fuel ∧ ~ within_limits (maxBufferBytes a) S
  end.

(** One complete line through the body of the loop. *)
Lemma line_lengths D l rest :
  (split_on is_newline D).2 = [] -> no_newline l ->
  (length (split_on is_newline (D ++ l ++ newline_byte :: rest)).1
   >= S (length (split_on is_newline D).1))%nat.
Proof.
  intros Hc Hl. pose proof (split_line D l Hc Hl) as E.
  replace (D ++ l ++ newline_byte :: rest) with ((D ++ l ++ [newline_byte]) ++ rest)
    by (by rewrite <- !app_assoc).
  rewrite (split_on_app_closed _ _ _ _ E). simpl. rewrite !length_app. simpl. lia.
Qed.

Lemma consume_step start D evs a a2 l rest :
  done_inv start D evs a -> no_newline l ->
  0 <= start -> start + blen (D ++ l ++ newline_byte :: rest) <= int64_max ->
  line_inv (stream_lines start D) evs a2 -> same_reads a a2 -> buffer a2 = rest ->
  processedOffset a2 = int64_wrap (start + blen D + Z.of_nat (length l + 1)) ->
  0 <= currentBytes a2 <= blen D + blen l + 1 ->
  exists em a3,
    consumeLine (string_of_list_ascii (strip_cr l)) (start + blen D) a2 = (Ok em, a3) ∧
    done_inv start (D ++ l ++ [newline_byte]) (evs ++ option_list em) a3 ∧
    same_reads a a3 ∧ buffer a3 = rest.
Proof.
  intros [Hc _ _ _] Hl H0 Hmax Hline Hsame Hbuf Hproc Hcb.
  assert (blen (D ++ l ++ newline_byte :: rest) = blen D + blen l + 1 + blen rest) as Hlen.
  { unfold blen. rewrite !length_app. simpl. lia. }
  rewrite Hlen in Hmax.
  assert (0 <= blen D ∧ 0 <= blen l ∧ 0 <= blen rest) as Hpos by (unfold blen; lia).
  assert (Z.of_nat (length (stream_lines start D)) <= blen D) as HL.
  { unfold stream_lines. rewrite with_offsets_length.
    pose proof (split_on_length is_newline D). unfold blen. lia. }
  destruct (consumeLine_spec _ _ (string_of_list_ascii (strip_cr l)) (start + blen D) a2 Hline)
    as (em & a3 & E & Hinv & Hfr & Hb); [unfold int64_max in *; lia|].
  exists em, a3. split; [done|]. destruct Hfr as [F1 F2 F3 F4 F5 F6].
  split_and!; [|unfold same_reads in *; intuition congruence|congruence].
  split.
  - by rewrite (split_line D l Hc Hl).
  - by rewrite (stream_line start D l Hc Hl), <- strip_cr_text.
  - rewrite F6, Hproc. rewrite int64_wrap_id.
    + unfold blen. rewrite !length_app. simpl. lia.
    + unfold int64_range, int64_min, int64_max, blen in *. lia.
  - assert (blen (D ++ l ++ [newline_byte]) = blen D + blen l + 1) as ->
      by (unfold blen; rewrite !length_app; simpl; lia). destruct Hb; lia.
Qed.

Lemma over_limit start D evs a l rest :
  done_inv start D evs a -> no_newline l ->
  (currentBytes a + (blen (strip_cr l) + 1) > maxBufferBytes a ∨
   Z.of_nat (length (currentFields a)) >= maxSSEFieldsPerEvent) ->
  ~ within_limits (maxBufferBytes a) (D ++ l ++ newline_byte :: rest).
Proof.
  intros [Hc Hli _ Hb] Hl Hor [W1 W2].
  pose proof (line_lengths D l rest Hc Hl) as Hn.
  pose proof (strip_cr_length l) as Hs.
  assert (blen (D ++ l ++ newline_byte :: rest) = blen D + blen l + 1 + blen rest) as Hlen.
  { unfold blen. rewrite !length_app. simpl. lia. }
  assert (Z.of_nat (length (currentFields a)) <= Z.of_nat (length (split_on is_newline D).1)).
  { rewrite (li_fields _ _ _ Hli), length_fmap.
    pose proof (line_pending_bound (stream_lines start D)) as B.
    unfold stream_lines in B at 2. rewrite with_offsets_length in B. lia. }
  unfold blen in *. lia.
Qed.

(** What the loop does from the fuel [fuel] on. *)
Definition loop_ok (start : Z) (prior : list SSELogicalEvent) (fuel : nat) : Prop :=
  forall seq events D a,
    done_inv start D (prior ++ events) a -> (length (buffer a) < fuel)%nat ->
    0 <= start -> start + blen (D ++ buffer a) <= int64_max ->
    loop_post start (D ++ buffer a) prior a (feed_loop fuel seq events a).

(** The end of an iteration: a line [l] is consumed and the loop goes on. *)
Lemma consume_and_continue start prior fuel seq events D a a2 l rest :
  loop_ok start prior fuel -> done_inv start D (prior ++ events) a -> no_newline l ->
  (length rest < fuel)%nat -> 0 <= start ->
  start + blen (D ++ l ++ newline_byte :: rest) <= int64_max ->
  line_inv (stream_lines start D) (prior ++ events) a2 -> same_reads a a2 -> buffer a2 = rest ->
  processedOffset a2 = int64_wrap (start + blen D + Z.of_nat (length l + 1)) ->
  0 <= currentBytes a2 <= blen D + blen l + 1 ->
  loop_post start (D ++ l ++ newline_byte :: rest) prior a
    (let (r, s') := consumeLine (string_of_list_ascii (strip_cr l)) (start + blen D) a2 in
     match r with
     | Ok em => feed_loop fuel seq
         (match em with Some e => events ++ [e] | None => events end) s'
     | Err e => (Err e, s')
     end).
Proof.
  intros IH Hinv Hl Hf2 H0 Hmax G1 G2 G3 G4 G5.
  destruct (consume_step start D _ a a2 l rest Hinv Hl H0 Hmax G1 G2 G3 G4 G5)
    as (em & a3 & -> & Hd & Hs & Hb3).
  specialize (IH seq (match em with Some e => events ++ [e] | None => events end)
                (D ++ l ++ [newline_byte]) a3).
  rewrite Hb3, <- !app_assoc in IH. simpl in IH.
  assert (prior ++ match em with Some e => events ++ [e] | None => events end
          = prior ++ events ++ option_list em) as Hev.
  { destruct em; simpl; by rewrite ?app_nil_r. }
  rewrite Hev, app_assoc in IH. rewrite <- !app_assoc in Hd. rewrite app_assoc in Hd.
  specialize (IH Hd Hf2 H0 Hmax). destruct Hs as (S1 & S2 & S3 & S4).
  unfold loop_post in *. rewrite S1 in IH.
  destruct (feed_loop fuel seq _ a3) as [[evs'|e] a']; [|done].
  destruct IH as (D' & ? & ? & ? & (T1 & T2 & T3 & T4)). exists D'. split_and!; [done..|].
  unfold same_reads. intuition congruence.
Qed.

Lemma feed_loop_spec start prior fuel : loop_ok start prior fuel.
Proof.
  induction fuel as [|fuel IH]; intros seq events D a Hinv Hfuel H0 Hmax; [lia|].
  cbn [feed_loop]. unfold mbind at 1, gom_bind at 1, get at 1.
  destruct (addCurrentChunk_spec seq a) as (a1 & Eadd & Hfr1 & Hcb1 & Hcf1 & Hco1 & Hns1).
  destruct Hfr1 as [F1 F2 F3 F4 F5 F6].
  destruct (IndexByte (buffer a) newline_byte) as [i|] eqn:Ei.
  - apply IndexByte_Some in Ei as (Eb & Hl%no_newline_of & Hi).
    set (l := take i (buffer a)) in *. set (rest := drop (i + 1) (buffer a)) in *.
    assert (length l = i) as Hli by (unfold l; rewrite length_take; lia).
    rewrite Eb in Hmax |- *.
    unfold mbind, gom_bind, modify. rewrite Eadd.
    pose proof (di_processed _ _ _ _ Hinv) as Hpo. pose proof (di_bytes _ _ _ _ Hinv) as Hby.
    assert (line_inv (stream_lines start D) (prior ++ events) a1) as Hli1
      by (apply (line_inv_ext _ _ a); [apply Hinv|done..]).
    pose proof (strip_cr_length l) as Hsl.
    assert (length rest < fuel)%nat as Hf2 by (unfold rest; rewrite length_drop; lia).
    pose proof (fun a2 => consume_and_continue start prior fuel seq events D a a2 l rest
                  IH Hinv Hl Hf2 H0 Hmax) as Hgo.
    rewrite Hli in Hgo. rewrite Hpo.
    case_decide as Hpos.
    + unfold fail_if. case_decide; simpl; [|case_decide; simpl].
      * split; [done|]. eapply over_limit; eauto.
      * split; [done|]. eapply over_limit; eauto. right. tauto.
      * apply Hgo; simpl; try congruence; [by apply (line_inv_ext _ _ a1)|done|].
        unfold blen in *. lia.
    + apply Hgo; simpl; try congruence; [by apply (line_inv_ext _ _ a1)|done|].
      unfold blen in *. lia.
  - apply IndexByte_None, no_newline_of in Ei. unfold mbind, gom_bind, fail_if.
    case_decide as Hex; simpl.
    + split; [done|]. intros [W _]. destruct Hinv as [_ _ _ Hb].
      unfold blen in *. rewrite length_app in W. lia.
    + rewrite Eadd. simpl. exists D. rewrite F2. split_and!; [done|done| |by unfold same_reads].
      destruct Hinv as [G1 G2 G3 G4].
      split; [done|by apply (line_inv_ext _ _ a)|congruence|by rewrite Hcb1].
Qed.

(** ** A whole stream *)

(** The assembler after the stream [s] that began at offset [start]. *)
Definition fed (start : Z) (s : bytes) (evs : list SSELogicalEvent) (a : SSEAssembler) : Prop :=
  started a = true ∧ nextByteOffset a = start + blen s ∧ no_newline (buffer a) ∧
  exists D, s = D ++ buffer a ∧ done_inv start D evs a.

(** The next read of a stream: in sequence, adjacent, not empty. *)
Definition next_read (start : Z) (s : bytes) (n : Z) (c : ReadChunk) : Prop :=
  chSequence c = n ∧ ByteOffset c = start + blen s ∧ chData c <> [].

Lemma fed_reference start s evs a :
  fed start s evs a ->
  erase <$> evs = reference_events start s ∧
  (BufferedBytes (Finish a), PendingFieldCount (Finish a)) = reference_tail start s.
Proof.
  intros (_ & _ & Hnn & D & -> & [Hc [He Hf _ _] _ _]).
  assert ((split_on is_newline (D ++ buffer a)) = ((split_on is_newline D).1, buffer a)) as E.
  { destruct (split_on is_newline D) as [ls r] eqn:E; simpl in *; subst.
    rewrite (split_on_app_closed _ _ _ _ E), (split_on_none _ _ Hnn). simpl. by rewrite app_nil_r. }
  unfold reference_events, reference_tail, stream_lines in *. rewrite E.
  split; [done|]. simpl. by rewrite Hf, length_fmap.
Qed.

#[local] Arguments feed_loop : simpl never.

Lemma Feed_fed start s evs c a :
  fed start s evs a -> 0 <= start -> start + blen (s ++ chData c) <= int64_max ->
  match Feed c a with
  | (Ok es, a') =>
      next_read start s (nextChunkSequence a) c ∧ fed start (s ++ chData c) (evs ++ es) a' ∧
      maxBufferBytes a' = maxBufferBytes a ∧
      nextChunkSequence a' = uint64_wrap (nextChunkSequence a + 1)
  | (Err e, _) =>
      e <> out_of_fuel ∧
      ~ (next_read start s (nextChunkSequence a) c ∧
         within_limits (maxBufferBytes a) (s ++ chData c))
  end.
Proof.
  intros (Hst & Hnb & Hnn & D & -> & Hd) H0 Hmax. rewrite <- !app_assoc in *.
  unfold Feed, mbind, gom_bind, get, fail_if, modify, next_read.
  assert (0 <= blen (D ++ buffer a)) as Hpos by (unfold blen; lia).
  case_decide as C1; simpl; [split; [done|]; intros [[? _] _]; done|].
  case_decide as C2; simpl.
  { split; [done|]. intros [(_ & Ho & Hne) _].
    destruct C2 as [C2|C2]; [lia|]. destruct (chData c); [done|]. unfold blen in C2; simpl in C2; lia. }
  rewrite Hst. simpl. rewrite Hnb. case_decide as C3; simpl; [split; [done|]; intros [(_ & ? & _) _]; done|].
  case_decide as C4; simpl.
  { split; [done|]. intros [_ [W _]]. unfold blen in *. rewrite !length_app in W. lia. }
  set (a1 := set_nextByteOffset _ _).
  pose proof (feed_loop_spec start evs (S (length (buffer a ++ chData c))) (chSequence c) [] D a1)
    as Hloop. cbn [a1 buffer set_nextByteOffset set_nextChunkSequence set_buffer] in Hloop.
  assert (done_inv start D (evs ++ []) a1) as Hd1.
  { rewrite app_nil_r. destruct Hd as [? [? ? ? ?] ? ?]. by split. }
  specialize (Hloop Hd1 (Nat.lt_succ_diag_r _) H0 Hmax). unfold loop_post in Hloop.
  destruct (feed_loop _ _ _ a1) as [[es|e] a']; cbn beta iota in Hloop |- *.
  - destruct Hloop as (D' & HS & Hn & Hd' & (M1 & M2 & M3 & M4)).
    split_and!; [done|done| | |done|done].
    + intros E. rewrite E in C2. apply C2. by right.
    + repeat split; [by rewrite M4| |done|exists D'; split; [done|]; done].
      rewrite M3. simpl. unfold blen in *. rewrite !length_app in Hmax |- *.
      rewrite int64_wrap_id by (unfold int64_range, int64_min; lia). rewrite length_app. lia.
  - destruct Hloop as [? W]. split; [done|]. intros [_ W']. by apply W.
Qed.

(** The state [Feed] sets up on the first read. *)
Definition opened (max offset : Z) : SSEAssembler :=
  set_processedOffset offset (set_nextByteOffset offset (set_started true (NewSSEAssembler max))).

Lemma opened_fed max offset : 0 <= offset -> fed offset [] [] (opened max offset).
Proof.
  intros H0. unfold fed. split_and!; [done|unfold blen; simpl; lia|constructor|].
  exists []. split; [done|]. split; [done|by split|unfold blen; simpl; lia|].
  unfold blen; simpl; lia.
Qed.

Lemma Feed_first max c :
  Feed c (NewSSEAssembler max) = Feed c (opened max (ByteOffset c)) ∨
  (exists e, Feed c (NewSSEAssembler max) = (Err e, NewSSEAssembler max) ∧ e <> out_of_fuel ∧
     ~ (chSequence c = 1 ∧ 0 <= ByteOffset c ∧ chData c <> [])).
Proof.
  unfold Feed, mbind, gom_bind, get, fail_if, modify. simpl.
  case_decide as C1; simpl; [right; eexists; split_and!; [done|done|]; intros (? & _); done|].
  case_decide as C2; simpl; [|by left].
  right; eexists; split_and!; [done|done|]. intros (_ & ? & ?).
  destruct C2 as [C2|C2]; [lia|]. destruct (chData c); [done|]. unfold blen in C2; simpl in C2; lia.
Qed.

Definition stream (chunks : list ReadChunk) : bytes := concat (chData <$> chunks).
Definition stream_start (chunks : list ReadChunk) : Z :=
  default 0 (ByteOffset <$> head chunks).

(** Consecutive, adjacent, nonempty reads from sequence [n], offset [off]. *)
Fixpoint reads (n off : Z) (chunks : list ReadChunk) : Prop :=
  match chunks with
  | [] => True
  | c :: chunks' =>
      chSequence c = n ∧ ByteOffset c = off ∧ chData c <> [] ∧
      reads (uint64_wrap (n + 1)) (off + blen (chData c)) chunks'
  end.

Lemma split_on_count {A} (sep : A -> bool) l1 l2 :
  (length (split_on sep l1).1 <= length (split_on sep (l1 ++ l2)).1)%nat.
Proof.
  induction l2 as [|x l2 IH] using rev_ind; [by rewrite app_nil_r|].
  rewrite app_assoc, split_on_snoc. destruct (split_on sep (l1 ++ l2)) as [segs r]; simpl in *.
  destruct (sep x); simpl; [rewrite length_app; simpl|]; lia.
Qed.

Lemma within_limits_prefix max s t : within_limits max (s ++ t) -> within_limits max s.
Proof.
  intros [H1 H2]. pose proof (split_on_count is_newline s t). split.
  - unfold blen in *. rewrite length_app in H1. lia.
  - lia.
Qed.

Lemma feed_all_fed start chunks : forall s evs a,
  fed start s evs a -> 0 <= start -> start + blen (s ++ stream chunks) <= int64_max ->
  match feed_all chunks a with
  | (Ok es, a') => fed start (s ++ stream chunks) (evs ++ es) a'
  | (Err e, _) =>
      e <> out_of_fuel ∧
      ~ (reads (nextChunkSequence a) (start + blen s) chunks ∧
         within_limits (maxBufferBytes a) (s ++ stream chunks))
  end.
Proof.
  induction chunks as [|c chunks IH]; intros s evs a Hfed H0 Hmax; simpl.
  - by rewrite !app_nil_r.
  - unfold stream in *. simpl in *. rewrite app_assoc in *.
    assert (start + blen (s ++ chData c) <= int64_max) as Hmax1.
    { unfold blen in *. rewrite !length_app in *. lia. }
    pose proof (Feed_fed start s evs c a Hfed H0 Hmax1) as HF.
    unfold mbind, gom_bind, mret, gom_ret. destruct (Feed c a) as [[es|e] a1].
    + destruct HF as ((R1 & R2 & R3) & Hfed1 & M & N).
      specialize (IH _ _ _ Hfed1 H0 Hmax). rewrite M, N in IH.
      destruct (feed_all chunks a1) as [[es'|e] a2]; [by rewrite app_assoc|].
      destruct IH as [? IH]. split; [done|]. intros [(_ & _ & _ & R) W]. apply IH.
      split; [|done]. assert (start + blen (s ++ chData c) = start + blen s + blen (chData c)) as ->
        by (unfold blen; rewrite length_app; lia). done.
    + destruct HF as [? HF]. split; [done|]. intros [(R1 & R2 & R3 & _) W]. apply HF.
      split; [done|]. by eapply within_limits_prefix.
Qed.

(** The same from a new assembler. *)
Lemma feed_all_new max chunks :
  chunks <> [] -> stream_start chunks + blen (stream chunks) <= int64_max ->
  match feed_all chunks (NewSSEAssembler max) with
  | (Ok es, a') => fed (stream_start chunks) (stream chunks) es a'
  | (Err e, _) =>
      e <> out_of_fuel ∧
      ~ (0 <= stream_start chunks ∧ reads 1 (stream_start chunks) chunks ∧
         within_limits (maxBufferBytes (NewSSEAssembler max)) (stream chunks))
  end.
Proof.
  destruct chunks as [|c chunks]; [done|]. intros _ Hmax. unfold stream_start in *. simpl in Hmax.
  cbn [head fmap option_fmap option_map default].
  destruct (decide (0 <= ByteOffset c)) as [H0|H0].
  - destruct (Feed_first max c) as [E|(e & E & He & Hn)].
    + pose proof (feed_all_fed (ByteOffset c) (c :: chunks) [] [] _ (opened_fed max _ H0) H0 Hmax)
        as HF. cbn [feed_all] in HF |- *. unfold mbind, gom_bind in *. rewrite E.
      destruct (Feed c (opened max (ByteOffset c))) as [[es|e] a1]; simpl in *.
      * destruct (feed_all chunks a1) as [[es'|e] a2]; simpl in *; [done|].
        destruct HF as [? HF]. split; [done|]. intros (_ & R & W). apply HF.
        assert (ByteOffset c + blen [] = ByteOffset c) as -> by (unfold blen; simpl; lia). done.
      * destruct HF as [? HF]. split; [done|]. intros (_ & R & W). apply HF.
        assert (ByteOffset c + blen [] = ByteOffset c) as -> by (unfold blen; simpl; lia). done.
    + cbn [feed_all]. unfold mbind, gom_bind. rewrite E. split; [done|].
      intros (_ & (? & _ & ? & _) & _). by apply Hn.
  - cbn [feed_all]. unfold mbind, gom_bind. unfold Feed, mbind, gom_bind, get, fail_if.
    case_decide; simpl; [split; [done|]; by intros (? & _)|].
    case_decide as C2; simpl; [split; [done|]; by intros (? & _)|]. exfalso. apply C2. left. lia.
Qed.

(** However a stream is cut into reads, the events are the same: two
    sequences of reads of the same bytes from the same offset, both accepted
    whole, give equal events in every field but the chunk provenance, and the
    same buffered and pending counts at the end. *)
Theorem rechunking_gives_the_same_events max1 max2 cs1 cs2 es1 es2 a1 a2
    (Hbytes : stream cs1 = stream cs2) (Hstart : stream_start cs1 = stream_start cs2)
    (Hoff : stream_start cs1 + blen (stream cs1) <= int64_max)
    (H1 : feed_all cs1 (NewSSEAssembler max1) = (Ok es1, a1))
    (H2 : feed_all cs2 (NewSSEAssembler max2) = (Ok es2, a2))
    (Hne : stream cs1 <> []) :
  erase <$> es1 = erase <$> es2 ∧
  BufferedBytes (Finish a1) = BufferedBytes (Finish a2) ∧
  PendingFieldCount (Finish a1) = PendingFieldCount (Finish a2).
Proof.
  assert (cs1 <> []) as N1 by (by intros ->).
  assert (cs2 <> []) as N2 by (intros ->; by rewrite Hbytes in Hne).
  pose proof (feed_all_new max1 cs1 N1 Hoff) as F1. rewrite H1 in F1.
  rewrite Hbytes, Hstart in Hoff, F1.
  pose proof (feed_all_new max2 cs2 N2 Hoff) as F2. rewrite H2 in F2.
  apply fed_reference in F1 as [-> T1], F2 as [-> T2]. rewrite <- T2 in T1.
  split_and!; [done|exact (f_equal fst T1)|exact (f_equal snd T1)].
Qed.

Definition text (s : string) : bytes := list_ascii_of_string s.
Definition nl : string := String newline_byte "".

Lemma rechunking_gives_the_same_events_witness :
  exists es1 a1 es2 a2,
    feed_all [mkReadChunk 1 7 (text ("event: a" +:+ nl +:+ "data: 1" +:+ nl +:+ nl))]
      (NewSSEAssembler 100) = (Ok es1, a1) ∧
    feed_all [mkReadChunk 1 7 (text "event: a"); mkReadChunk 2 15 (text (nl +:+ "data: 1" +:+ nl));
              mkReadChunk 3 24 (text nl)] (NewSSEAssembler 50) = (Ok es2, a2) ∧
    length es1 = 1%nat ∧ erase <$> es1 = erase <$> es2 ∧
    BufferedBytes (Finish a1) = BufferedBytes (Finish a2) ∧
    PendingFieldCount (Finish a1) = PendingFieldCount (Finish a2).
Proof.
  do 4 eexists. split; [vm_compute; reflexivity|]. split; [vm_compute; reflexivity|].
  split; [reflexivity|].
  apply (rechunking_gives_the_same_events 100 50
    [mkReadChunk 1 7 (text ("event: a" +:+ nl +:+ "data: 1" +:+ nl +:+ nl))]
    [mkReadChunk 1 7 (text "event: a"); mkReadChunk 2 15 (text (nl +:+ "data: 1" +:+ nl));
     mkReadChunk 3 24 (text nl)]);
    solve [vm_compute; reflexivity | vm_compute; discriminate | vm_compute; congruence].
Defined.

(** [C32] A stream within the limits (no longer than the buffer, at most 1024
    lines) is always accepted, however consecutive nonempty reads cut it, and
    the events are those of the reference parse of the whole stream: its
    lines split at LF or CR LF, its blocks at blank lines, comments dropped;
    an unfinished tail is counted, never emitted. *)
Theorem stream_within_limits_is_parsed max chunks
    (Hne : chunks <> []) (Hstart : 0 <= stream_start chunks)
    (Hoff : stream_start chunks + blen (stream chunks) <= int64_max)
    (Hreads : reads 1 (stream_start chunks) chunks)
    (Hlim : within_limits (maxBufferBytes (NewSSEAssembler max)) (stream chunks)) :
  exists es a', feed_all chunks (NewSSEAssembler max) = (Ok es, a') ∧
    erase <$> es = reference_events (stream_start chunks) (stream chunks) ∧
    (BufferedBytes (Finish a'), PendingFieldCount (Finish a')) =
      reference_tail (stream_start chunks) (stream chunks).
Proof.
  pose proof (feed_all_new max chunks Hne Hoff) as F.
  destruct (feed_all chunks (NewSSEAssembler max)) as [[es|e] a']; [|by destruct F as [_ []]].
  exists es, a'. split; [done|]. by apply fed_reference.
Qed.

Lemma stream_within_limits_is_parsed_witness :
  let chunks := [mkReadChunk 1 0 (text (": hi" +:+ nl +:+ "data: x")); mkReadChunk 2 12 (text (nl +:+ nl))] in
  (exists es a', feed_all chunks (NewSSEAssembler 0) = (Ok es, a') ∧
    erase <$> es = reference_events (stream_start chunks) (stream chunks) ∧
    (BufferedBytes (Finish a'), PendingFieldCount (Finish a')) =
      reference_tail (stream_start chunks) (stream chunks)) ∧
  evData <$> reference_events (stream_start chunks) (stream chunks) = ["x"].
Proof.
  intros chunks. split; [|vm_compute; reflexivity].
  apply (stream_within_limits_is_parsed 0 chunks).
  - discriminate.
  - vm_compute; discriminate.
  - vm_compute; discriminate.
  - vm_compute. repeat split; discriminate.
  - split; vm_compute; discriminate.
Defined.

(** The recorded provenance names a read that contributed no byte to
    the event: after a read that ends exactly at an event boundary, the loop
    still adds that read to the next event's [SourceChunkSequences]. *)
Theorem provenance_names_a_finished_read :
  exists e1 e2 a',
    feed_all [mkReadChunk 1 0 (text ("data: a" +:+ nl +:+ nl));
              mkReadChunk 2 9 (text ("data: b" +:+ nl +:+ nl))] (NewSSEAssembler 0)
      = (Ok [e1; e2], a') ∧
    EventOffset e2 = 9 ∧ evSourceChunkSequences e2 = [1; 2].
Proof. do 3 eexists. split; [vm_compute; reflexivity|]. split; reflexivity. Qed.
