(* ===== verification/Journal.v ===== *)
(** * internal/provenance/journal.go: the hash-chained run journal

    Appending, verifying, encoding and decoding the journal of a run.  What
    encoding/json does with the journal's types is the class
    [JournalCodec]; canonicalization and digests are those of Canonical.v. *)
From Stdlib Require Import ZArith Ascii String Lia.
From stdpp Require Import base gmap sets list strings.
From stdpp Require Import sorting.
From S2P Require Import Prelude Schema Canonical.
Local Open Scope Z_scope.
Local Open Scope string_scope.
Local Open Scope list_scope.

Definition JournalSchema : string := "urn:agentapi-doctor:run-journal-event:v1alpha1".
Definition MaxJournalEventBytes : Z := Z.shiftl 1 20.
Definition zeroDigest : Digest :=
  "sha256:0000000000000000000000000000000000000000000000000000000000000000".

Definition RunStatus := string.
Definition RunPlanned : RunStatus := "planned".
Definition RunRunning : RunStatus := "running".
Definition RunCompleted : RunStatus := "completed".
Definition RunCancelled : RunStatus := "cancelled".
Definition RunErrored : RunStatus := "errored".

Record JournalEvent := mkJournalEvent {
  SchemaVersion : string;
  RunID : InstanceID;
  Sequence : Z;
  PreviousEventDigest : Digest;
  EventType : string;
  Status : RunStatus;
  OccurredAt : Time;
  MonotonicOffsetNS : Z;
  PayloadDigest : Digest;
  EventDigest : Digest
}.

Record EventInput := mkEventInput {
  inEventType : string;
  inStatus : RunStatus;
  inOccurredAt : Time;
  inMonotonicOffsetNS : Z;
  inPayloadDigest : Digest
}.

Record Journal := mkJournal { runID : InstanceID; events : list JournalEvent }.

(** The anonymous struct [eventDigest] digests: every field of the event but
    its own digest. *)
Record Projection := mkProjection {
  prSchemaVersion : string;
  prRunID : InstanceID;
  prSequence : Z;
  prPrevious : Digest;
  prEventType : string;
  prStatus : RunStatus;
  prOccurredAt : Time;
  prMonotonic : Z;
  prPayload : Digest
}.

#[export] Instance JournalEvent_eq_dec : EqDecision JournalEvent.
Proof. solve_decision. Defined.
#[export] Instance Projection_eq_dec : EqDecision Projection.
Proof. solve_decision. Defined.

Class JournalCodec := {
  journal_library :: JSONLibrary;
  (** [json.Marshal] of the digested projection and of an event. *)
  json_Marshal_projection : Projection -> result error (list ascii);
  json_Marshal_event : JournalEvent -> result error (list ascii);
  (** A strict [json.Decoder]: the event, and whether input remains. *)
  decode_event : list ascii -> result error (JournalEvent * bool)
}.

Definition NewJournal (id : InstanceID) : result error Journal :=
  InstanceID_Validate id;; mret (mkJournal id []).

Definition validateTransition (previous next : RunStatus) : result error unit :=
  if decide (previous = "" ∧ next = RunPlanned) then Ok tt
  else if decide (previous = RunPlanned ∧ next = RunRunning) then Ok tt
  else if decide (previous = RunRunning ∧
                  (next = RunRunning ∨ next = RunCompleted ∨ next = RunCancelled ∨
                   next = RunErrored)) then Ok tt
  else Err (ErrorNew (Sprintf "invalid run lifecycle transition %q -> %q"
                        [FStr previous; FStr next])).

Section Journal.
Context {codec : JournalCodec}.

Definition projection (event : JournalEvent) : Projection :=
  mkProjection (SchemaVersion event) (RunID event) (Sequence event) (PreviousEventDigest event)
    (EventType event) (Status event) (OccurredAt event) (MonotonicOffsetNS event)
    (PayloadDigest event).

Definition eventDigest (event : JournalEvent) : result error Digest :=
  CanonicalDigest json_Marshal_projection (projection event).

Definition set_EventDigest (d : Digest) (e : JournalEvent) : JournalEvent :=
  mkJournalEvent (SchemaVersion e) (RunID e) (Sequence e) (PreviousEventDigest e) (EventType e)
    (Status e) (OccurredAt e) (MonotonicOffsetNS e) (PayloadDigest e) d.

(** The variables [previous], [previousStatus] and [offset] both loops start
    from, as the last event leaves them. *)
Definition chain_tip (l : list JournalEvent) : Digest * RunStatus * Z :=
  match last l with
  | Some e => (EventDigest e, Status e, MonotonicOffsetNS e)
  | None => (zeroDigest, "", -1)
  end.

(** The receiver is a pointer; [None] is nil. *)
Definition Append (input : EventInput) : GoM (option Journal) error JournalEvent :=
  j ← get;
  match j with
  | None => fail (ErrorNew (Text "journal is nil"))
  | Some journal =>
      let '(previous, previousStatus, offset) := chain_tip (events journal) in
      lift (validateTransition previousStatus (inStatus input));;
      fail_if (TrimSpace (inEventType input) = "" ∨ IsZero (inOccurredAt input) ∨
               inMonotonicOffsetNS input < 0 ∨ inMonotonicOffsetNS input < offset)
        (ErrorNew (Text "journal event requires type, time, and monotonic nondecreasing offset"));;
      lift (wrap (Wrapf (Text "payload digest: %w")) (Digest_Validate (inPayloadDigest input)));;
      let event := mkJournalEvent JournalSchema (runID journal)
                     (uint64_wrap (Z.of_nat (length (events journal)) + 1)) previous
                     (inEventType input) (inStatus input) (inOccurredAt input)
                     (inMonotonicOffsetNS input) (inPayloadDigest input) "" in
      digest ← lift (eventDigest event);
      let event := set_EventDigest digest event in
      put (Some (mkJournal (runID journal) (events journal ++ [event])));;
      mret event
  end.

Definition Events (j : option Journal) : list JournalEvent :=
  match j with None => [] | Some journal => events journal end.

(** One iteration of the loop of [Verify]. *)
Definition verify_event (id : InstanceID) (tip : Digest * RunStatus * Z) (index : Z)
    (event : JournalEvent) : result error unit :=
  let '(previous, previousStatus, offset) := tip in
  err_if (SchemaVersion event ≠ JournalSchema ∨ RunID event ≠ id ∨
          Sequence event ≠ uint64_wrap (index + 1) ∨ PreviousEventDigest event ≠ previous)
    (ErrorNew (Sprintf "journal chain invalid at sequence %d" [FInt (index + 1)]));;
  wrap (Wrapf (Sprintf "sequence %d: %w" [FInt (index + 1)]))
    (validateTransition previousStatus (Status event));;
  err_if (MonotonicOffsetNS event < 0 ∨ MonotonicOffsetNS event < offset ∨
          IsZero (OccurredAt event) ∨ TrimSpace (EventType event) = "")
    (ErrorNew (Sprintf "journal event fields invalid at sequence %d" [FInt (index + 1)]));;
  Digest_Validate (PayloadDigest event);;
  match eventDigest event with
  | Ok digest =>
      err_if (digest ≠ EventDigest event)
        (ErrorNew (Sprintf "journal event digest invalid at sequence %d" [FInt (index + 1)]))
  | Err _ =>
      Err (ErrorNew (Sprintf "journal event digest invalid at sequence %d" [FInt (index + 1)]))
  end.

Fixpoint verify_from (id : InstanceID) (tip : Digest * RunStatus * Z) (index : Z)
    (l : list JournalEvent) : result error unit :=
  match l with
  | [] => Ok tt
  | event :: l' =>
      verify_event id tip index event;;
      verify_from id (EventDigest event, Status event, MonotonicOffsetNS event) (index + 1) l'
  end.

Definition Verify (j : option Journal) : result error unit :=
  match j with
  | None => Err (ErrorNew (Text "journal is nil"))
  | Some journal => verify_from (runID journal) (zeroDigest, "", -1) 0 (events journal)
  end.

Definition lf : ascii := "010"%char.

Fixpoint encode_events (l : list JournalEvent) : result error (list ascii) :=
  match l with
  | [] => Ok []
  | event :: l' =>
      encoded ← CanonicalMarshal json_Marshal_event event;
      rest ← encode_events l';
      mret (encoded ++ [lf] ++ rest)
  end.

Definition EncodeJSONL (j : option Journal) : result error (list ascii) :=
  Verify j;; encode_events (Events j).

(** ** bufio.Scanner with ScanLines

    The tokens are the lines without their terminator (LF or CR LF); a last
    line without terminator is a token when it is not empty.  A line that
    does not fit the buffer with its terminator ends the scan with
    [bufio.ErrTooLong] after the tokens before it. *)
Definition ErrTooLong : error := Sentinel "bufio.Scanner: token too long".

Definition dropCR (line : list ascii) : list ascii :=
  match last line with
  | Some c => if decide (c = "013"%char) then take (length line - 1) line else line
  | None => line
  end.

Fixpoint scan (max : Z) (line input : list ascii) : list (list ascii) * option error :=
  match input with
  | [] =>
      match line with
      | [] => ([], None)
      | _ => if decide (Z.of_nat (length line) >= max) then ([], Some ErrTooLong)
             else ([dropCR line], None)
      end
  | c :: input' =>
      if decide (c = lf) then
        if decide (Z.of_nat (length line) >= max) then ([], Some ErrTooLong)
        else let '(tokens, err) := scan max [] input' in (dropCR line :: tokens, err)
      else scan max (line ++ [c]) input'
  end.

(** The body of the loop of [DecodeJournal]: the journal built so far is
    [None] until the first event. *)
Fixpoint decode_lines (line : Z) (tokens : list (list ascii)) (journal : option Journal)
    : result error (option Journal) :=
  match tokens with
  | [] => Ok journal
  | raw :: tokens' =>
      let line := line + 1 in
      match CanonicalizeJSON raw with
      | Err _ => Err (ErrorNew (Sprintf "journal line %d is not strict canonical JSON" [FInt line]))
      | Ok canonical =>
          err_if (raw ≠ canonical)
            (ErrorNew (Sprintf "journal line %d is not strict canonical JSON" [FInt line]));;
          decoded ← wrap (Wrapf (Sprintf "journal line %d: %w" [FInt line])) (decode_event raw);
          let '(event, more) := decoded in
          err_if (more = true)
            (ErrorNew (Sprintf "journal line %d contains trailing JSON" [FInt line]));;
          j ← match journal with
              | None => NewJournal (RunID event)
              | Some j => mret j
              end;
          decode_lines line tokens' (Some (mkJournal (runID j) (events j ++ [event])))
      end
  end.

(** The reader is the bytes it yields; [None] is a nil reader. *)
Definition DecodeJournal (reader : option (list ascii)) : result error Journal :=
  match reader with
  | None => Err (ErrorNew (Text "journal reader is required"))
  | Some input =>
      let '(tokens, scan_error) := scan MaxJournalEventBytes [] input in
      journal ← decode_lines 0 tokens None;
      (match scan_error with Some e => Err e | None => mret tt end);;
      match journal with
      | None => Err (ErrorNew (Text "journal is empty"))
      | Some j => Verify (Some j);; mret j
      end
  end.
End Journal.

(** ** internal/provenance/journal.go: what a verified journal is

    The declarative meaning of [Verify], that every journal [Append] builds
    has it, that the last digest pins the whole history, and that encoding
    then decoding gives the journal back. *)

(** ** The specification *)

Definition terminal_status (s : RunStatus) : Prop :=
  s = RunCompleted ∨ s = RunCancelled ∨ s = RunErrored.

(** The status histories of a run: planned, then running for a while, then at
    most one terminal status, at the end. *)
Definition lifecycle (l : list RunStatus) : Prop :=
  l = [] ∨ l = [RunPlanned] ∨
  exists n, l = RunPlanned :: replicate (S n) RunRunning ∨
    exists t, terminal_status t ∧ l = RunPlanned :: replicate (S n) RunRunning ++ [t].

Section Spec.
Context {codec : JournalCodec}.

(** One event in its place: event number [i] of run [id], after the events
    [before]. *)
Definition event_ok (id : InstanceID) (before : list JournalEvent) (e : JournalEvent) : Prop :=
  SchemaVersion e = JournalSchema ∧ RunID e = id ∧
  Sequence e = uint64_wrap (Z.of_nat (length before) + 1) ∧
  PreviousEventDigest e = default zeroDigest (EventDigest <$> last before) ∧
  0 <= MonotonicOffsetNS e ∧ ~ IsZero (OccurredAt e) ∧ TrimSpace (EventType e) <> "" ∧
  Digest_Validate (PayloadDigest e) = Ok tt ∧
  CanonicalDigest json_Marshal_projection (projection e) = Ok (EventDigest e).

Inductive chained (id : InstanceID) : list JournalEvent -> Prop :=
| chained_nil : chained id []
| chained_snoc l e : chained id l -> event_ok id l e -> chained id (l ++ [e]).

Definition well_formed (j : Journal) : Prop :=
  chained (runID j) (events j) ∧ lifecycle (Status <$> events j) ∧
  StronglySorted Z.le (MonotonicOffsetNS <$> events j).

(** ** Lifecycle *)
Lemma validateTransition_ok p n :
  validateTransition p n = Ok tt <->
  (p = "" ∧ n = RunPlanned) ∨ (p = RunPlanned ∧ n = RunRunning) ∨
  (p = RunRunning ∧ (n = RunRunning ∨ terminal_status n)).
Proof. unfold validateTransition, terminal_status. repeat case_decide; intuition congruence. Qed.

Lemma running_last n : last (RunPlanned :: replicate (S n) RunRunning) = Some RunRunning.
Proof. by rewrite replicate_S_end, app_comm_cons, last_snoc. Qed.

Lemma lifecycle_snoc l s :
  lifecycle (l ++ [s]) <->
  lifecycle l ∧ validateTransition (default "" (last l)) s = Ok tt.
Proof.
  rewrite validateTransition_ok. unfold lifecycle at 1. split.
  - intros [H|[H|(n & [H|(t & Ht & H)])]].
    + by apply app_eq_nil in H as [_ ?].
    + apply (app_inj_tail l []) in H as [-> ->]. split; [by left|by left].
    + rewrite replicate_S_end, app_comm_cons in H. apply app_inj_tail in H as [-> ->].
      destruct n as [|n]; [split; [by right; left|by right; left]|].
      split; [right; right; exists n; by left|]. rewrite running_last. tauto.
    + rewrite app_comm_cons in H. apply app_inj_tail in H as [-> ->].
      split; [right; right; exists n; by left|]. rewrite running_last. tauto.
  - intros [[->|[->|(n & [->|(t & Ht & ->)])]] H].
    + destruct H as [[_ ->]|[[? _]|[? _]]]; [by right; left|done..].
    + destruct H as [[? _]|[[_ ->]|[? _]]]; [done| |done]. right; right. exists 0%nat. by left.
    + rewrite running_last in H. destruct H as [[? _]|[[? _]|[_ [->|Ht]]]]; [done|done| |].
      * right; right. exists (S n). left. by rewrite (replicate_S_end (S n)), app_comm_cons.
      * right; right. exists n. right. by exists s.
    + rewrite app_comm_cons, last_snoc in H.
      destruct Ht as [->|[->| ->]], H as [[? _]|[[? _]|[? _]]]; done.
Qed.

Lemma sorted_snoc (l : list Z) x :
  StronglySorted Z.le (l ++ [x]) <->
  StronglySorted Z.le l ∧ (forall y, last l = Some y -> y <= x).
Proof.
  split.
  - intros H. split; [by eapply StronglySorted_app_1_l|]. intros y Hy.
    apply last_Some in Hy as [l' ->]. apply (StronglySorted_app_1_elem_of Z.le _ _ _ _ H); set_solver.
  - intros [H Hl]. apply StronglySorted_app. split_and!; [|done|by repeat constructor].
    intros a b Ha ->%list_elem_of_singleton.
    destruct (last l) as [y|] eqn:E; [|apply last_None in E as ->; set_solver].
    specialize (Hl y eq_refl). apply last_Some in E as [l' ->].
    apply elem_of_app in Ha as [Ha|Ha%list_elem_of_singleton]; [|lia].
    pose proof (StronglySorted_app_1_elem_of _ _ _ a y H Ha). 
    assert (a <= y) by set_solver. lia.
Qed.

(** ** Verification *)
Lemma verify_from_snoc id tip i l e :
  verify_from id tip i (l ++ [e]) =
  (verify_from id tip i l;;
   verify_event id (match last l with
                    | Some x => (EventDigest x, Status x, MonotonicOffsetNS x)
                    | None => tip end) (i + Z.of_nat (length l)) e).
Proof.
  revert tip i. induction l as [|x l IH]; intros tip i.
  - simpl. rewrite Z.add_0_r. unfold mbind, result_bind. by destruct (verify_event _ _ _ _) as [[]|].
  - cbn [app verify_from]. rewrite IH. unfold mbind, result_bind.
    destruct (verify_event id tip i x) as [[]|]; [|done].
    destruct (verify_from _ _ _ l) as [[]|]; [|done].
    rewrite last_cons. cbn [length]. rewrite Nat2Z.inj_succ.
    replace (i + 1 + Z.of_nat (length l)) with (i + Z.succ (Z.of_nat (length l))) by lia.
    by destruct (last l).
Qed.

Lemma verify_event_ok id l e :
  verify_event id (chain_tip l) (Z.of_nat (length l)) e = Ok tt <->
  event_ok id l e ∧ validateTransition (default "" (Status <$> last l)) (Status e) = Ok tt ∧
  (forall y, MonotonicOffsetNS <$> last l = Some y -> y <= MonotonicOffsetNS e).
Proof.
  unfold verify_event, event_ok, chain_tip.
  set (t := match last l with Some x => _ | None => _ end).
  assert (t = (default zeroDigest (EventDigest <$> last l), default "" (Status <$> last l),
               default (-1) (MonotonicOffsetNS <$> last l))) as -> by (unfold t; by destruct (last l)).
  rewrite !bind_ok, !err_if_ok, wrap_ok. unfold eventDigest.
  assert (forall m, match CanonicalDigest json_Marshal_projection (projection e) with
    | Ok digest => err_if (digest <> EventDigest e) m | Err _ => Err m end = Ok tt
    <-> CanonicalDigest json_Marshal_projection (projection e) = Ok (EventDigest e)) as ->.
  { intros m. destruct (CanonicalDigest json_Marshal_projection (projection e)) as [d|]; [|done].
    rewrite err_if_ok. split; [intros H; apply dec_stable in H; congruence|intros [= ->]; intros Hne; by apply Hne]. }
  split.
  - intros (H1 & H2 & H3 & H4 & H5). split_and!; try done.
    all: try (apply dec_stable; tauto). all: try tauto. lia.
    intros y Hy. rewrite Hy in H3. simpl in H3. lia.
  - intros [(H1 & H2 & H3 & H4 & H5 & H6 & H7 & H8 & H9) [H10 H11]].
    split_and!; try done.
    + intros [?|[?|[?|?]]]; done.
    + intros [?|[?|[?|?]]]; [lia| |done|done].
      destruct (MonotonicOffsetNS <$> last l) as [y|]; simpl in *; [specialize (H11 y eq_refl)|]; lia.
Qed.

Lemma Verify_snoc id l e :
  Verify (Some (mkJournal id (l ++ [e]))) = Ok tt <->
  Verify (Some (mkJournal id l)) = Ok tt ∧
  verify_event id (chain_tip l) (Z.of_nat (length l)) e = Ok tt.
Proof. unfold Verify, runID, events. by rewrite verify_from_snoc, bind_ok. Qed.

Lemma Verify_well_formed id l :
  Verify (Some (mkJournal id l)) = Ok tt <-> well_formed (mkJournal id l).
Proof.
  unfold well_formed. cbn [runID events]. induction l as [|e l IH] using rev_ind.
  - split; [intros _|done]. split_and!; [constructor|by left|constructor].
  - rewrite Verify_snoc, verify_event_ok, IH, !fmap_app. cbn [fmap list_fmap].
    rewrite lifecycle_snoc, sorted_snoc, !fmap_last.
    split.
    + intros ((? & ? & ?) & ? & ? & ?). split_and!; try done. by apply chained_snoc.
    + intros (Hc & (? & ?) & ? & ?). inversion Hc as [E|l' e' ? ? E]; [by destruct l|].
      apply app_inj_tail in E as [-> ->]. split_and!; done.
Qed.

(** ** Appending *)
Fixpoint appends (inputs : list EventInput) (j : option Journal) : option Journal :=
  match inputs with
  | [] => j
  | input :: inputs' => appends inputs' (Append input j).2
  end.

Lemma Append_spec input id l :
  match Append input (Some (mkJournal id l)) with
  | (Ok e, j') => j' = Some (mkJournal id (l ++ [e])) ∧
      verify_event id (chain_tip l) (Z.of_nat (length l)) e = Ok tt
  | (Err _, j') => j' = Some (mkJournal id l)
  end.
Proof.
  unfold Append, mbind, gom_bind, get, lift. cbn [events runID].
  destruct (chain_tip l) as [[previous status] offset] eqn:Etip.
  destruct (validateTransition status (inStatus input)) as [[]|e1] eqn:E1; [|done].
  unfold fail_if. case_decide as E2; simpl; [done|].
  destruct (Digest_Validate (inPayloadDigest input)) as [[]|e2] eqn:E3; simpl; [|done].
  destruct (eventDigest _) as [d|e3] eqn:E4; simpl; [|done]. split; [done|].
  rewrite !bind_ok, !err_if_ok, wrap_ok. cbn [SchemaVersion RunID Sequence PreviousEventDigest
    Status OccurredAt MonotonicOffsetNS EventType PayloadDigest set_EventDigest EventDigest].
  split_and!; try done; [intros [?|[?|[?|?]]]; done|tauto|].
  unfold eventDigest, projection in *. simpl in *. rewrite E4. rewrite err_if_ok. tauto.
Qed.

Lemma appends_verify inputs id l :
  Verify (Some (mkJournal id l)) = Ok tt ->
  exists l', appends inputs (Some (mkJournal id l)) = Some (mkJournal id l') ∧ l `prefix_of` l' ∧
    Verify (Some (mkJournal id l')) = Ok tt.
Proof.
  revert l. induction inputs as [|input inputs IH]; intros l Hv; cbn [appends]; [by exists l|].
  pose proof (Append_spec input id l) as H.
  destruct (Append input (Some (mkJournal id l))) as [[e|e] j']; simpl.
  - destruct H as [-> H]. destruct (IH (l ++ [e])) as (l' & E & Hp & Hv'); [by apply Verify_snoc|].
    exists l'. split_and!; [done| |done]. etrans; [|exact Hp]. by apply prefix_app_r.
  - subst. by apply IH.
Qed.

(** Every journal that [Append] can build is well formed: whatever
    inputs are offered and refused, from a new journal the events are
    numbered from 1, chained by digest, of this run, with nondecreasing
    offsets, and their statuses are one run lifecycle; earlier events are
    never changed; and [Verify] accepts it. *)
Theorem appended_journals_are_well_formed id inputs :
  exists l, appends inputs (Some (mkJournal id [])) = Some (mkJournal id l) ∧
    Verify (Some (mkJournal id l)) = Ok tt ∧ well_formed (mkJournal id l).
Proof.
  destruct (appends_verify inputs id [] eq_refl) as (l & E & _ & Hv).
  exists l. split_and!; [done|done|]. by apply Verify_well_formed.
Qed.

(** [C33] [Verify] accepts exactly the well-formed journals. *)
Theorem Verify_accepts_exactly_well_formed j :
  Verify (Some j) = Ok tt <-> well_formed j.
Proof. destruct j as [id l]. apply Verify_well_formed. Qed.

(** ** The last digest pins the history *)
Definition collision : Prop :=
  exists p q d, p <> q ∧ CanonicalDigest json_Marshal_projection p = Ok d ∧
    CanonicalDigest json_Marshal_projection q = Ok d.

Lemma chained_snoc_inv id l e : chained id (l ++ [e]) -> chained id l ∧ event_ok id l e.
Proof.
  inversion 1 as [E|l' e' ? ? E]; [by destruct l|]. by apply app_inj_tail in E as [-> ->].
Qed.

Lemma projection_inj e1 e2 :
  projection e1 = projection e2 -> EventDigest e1 = EventDigest e2 -> e1 = e2.
Proof. destruct e1, e2. unfold projection; simpl. intros [= ] ?. congruence. Qed.

Lemma wrapped_lengths {A} (l1 l2 : list A) :
  Z.of_nat (length l1) + 1 < 2 ^ 64 -> Z.of_nat (length l2) + 1 < 2 ^ 64 ->
  uint64_wrap (Z.of_nat (length l1) + 1) = uint64_wrap (Z.of_nat (length l2) + 1) ->
  length l1 = length l2.
Proof. intros H1 H2. rewrite !uint64_wrap_id by lia. lia. Qed.

Lemma pinned id1 id2 l1 : forall l2,
  chained id1 l1 -> chained id2 l2 -> l1 <> [] -> l2 <> [] ->
  Z.of_nat (length l1) < 2 ^ 64 -> Z.of_nat (length l2) < 2 ^ 64 ->
  EventDigest <$> last l1 = EventDigest <$> last l2 ->
  (id1 = id2 ∧ l1 = l2) ∨ collision.
Proof.
  induction l1 as [|e1 l1 IH] using rev_ind; [done|]. intros l2 C1 C2 _ N2 B1 B2 HD.
  destruct l2 as [|e2 l2 _] using rev_ind; [done|].
  rewrite !last_snoc in HD. simpl in HD. injection HD as HD. rewrite !length_app in B1, B2. simpl in B1, B2.
  apply chained_snoc_inv in C1 as [C1 (_ & R1 & S1 & P1 & _ & _ & _ & _ & D1)].
  apply chained_snoc_inv in C2 as [C2 (_ & R2 & S2 & P2 & _ & _ & _ & _ & D2)].
  destruct (decide (projection e1 = projection e2)) as [E|E];
    [|right; exists (projection e1), (projection e2), (EventDigest e2); by rewrite D1, D2, HD].
  pose proof (projection_inj _ _ E HD) as ->. clear E.
  assert (length l1 = length l2) as HL by (apply wrapped_lengths; [lia|lia|congruence]).
  destruct l1 as [|x1 l1]; [destruct l2; [left; split; congruence|done]|].
  destruct l2 as [|x2 l2]; [done|].
  destruct (IH (x2 :: l2)) as [[-> ->]|]; [done..|lia|lia| |by left|by right].
  rewrite P1 in P2. clear -P2. rewrite !last_cons in *. by destruct (last l1), (last l2); simpl in *; congruence.
Qed.

(** The digest of the last event pins the whole history: two verified
    journals that end with the same event digest are the same journal, run
    and every event included, unless two different event projections have
    the same SHA-256 digest. *)
Theorem last_digest_pins_the_journal j1 j2
    (H1 : Verify (Some j1) = Ok tt) (H2 : Verify (Some j2) = Ok tt)
    (Hne : events j1 <> []) (Hne' : events j2 <> [])
    (Hlen1 : Z.of_nat (length (events j1)) < 2 ^ 64)
    (Hlen2 : Z.of_nat (length (events j2)) < 2 ^ 64)
    (Hlast : EventDigest <$> last (events j1) = EventDigest <$> last (events j2)) :
  j1 = j2 ∨ collision.
Proof.
  destruct j1 as [id1 l1], j2 as [id2 l2]. apply Verify_well_formed in H1 as [C1 _], H2 as [C2 _].
  destruct (pinned id1 id2 l1 l2) as [[-> ->]|]; auto.
Qed.

(** ** Encoding and decoding *)

(** What the codec must do with one event: marshal it to one canonical line
    short enough to scan, and decode that line to the event. *)
Definition faithful (e : JournalEvent) (b : list ascii) : Prop :=
  CanonicalMarshal json_Marshal_event e = Ok b ∧ CanonicalizeJSON b = Ok b ∧ decode_event b = Ok (e, false) ∧
  (lf ∉ b) ∧ last b <> Some "013"%char ∧ Z.of_nat (length b) < MaxJournalEventBytes.

Lemma scan_line max line b rest :
  lf ∉ b -> Z.of_nat (length (line ++ b)) < max ->
  scan max line (b ++ lf :: rest) =
  let '(tokens, err) := scan max [] rest in (dropCR (line ++ b) :: tokens, err).
Proof.
  revert line. induction b as [|c b IH]; intros line Hlf Hlen; simpl.
  - rewrite app_nil_r in *. by rewrite decide_False by lia.
  - rewrite decide_False by set_solver. rewrite IH.
    + by rewrite <- app_assoc.
    + set_solver.
    + by rewrite <- app_assoc.
Qed.

Lemma dropCR_id b : last b <> Some "013"%char -> dropCR b = b.
Proof. unfold dropCR. destruct (last b); [|done]. intros H. rewrite decide_False; congruence. Qed.

Lemma encode_scan l bs :
  Forall2 faithful l bs ->
  exists out, encode_events l = Ok out ∧ scan MaxJournalEventBytes [] out = (bs, None).
Proof.
  induction 1 as [|e b l bs (M & _ & _ & Hlf & Hcr & Hlen) _ (out & E & S)]; [by eexists|].
  cbn [encode_events]. rewrite M, E. eexists. split; [reflexivity|]. simpl.
  rewrite scan_line by done. by rewrite S, app_nil_l, dropCR_id.
Qed.

Lemma decode_all l bs n j :
  Forall2 faithful l bs ->
  decode_lines n bs (Some j) = Ok (Some (mkJournal (runID j) (events j ++ l))).
Proof.
  intros H. revert n j. induction H as [|e b l bs (_ & C & D & _) _ IH]; intros n j; simpl.
  - rewrite app_nil_r. by destruct j.
  - rewrite C. unfold err_if, wrap. rewrite decide_False by (intros Hn; by apply Hn).
    simpl. rewrite D. simpl. rewrite IH. simpl. by rewrite <- app_assoc.
Qed.

Lemma decode_all_new l bs id :
  Forall2 faithful l bs -> l <> [] -> Forall (fun e => RunID e = id) l ->
  InstanceID_Validate id = Ok tt ->
  decode_lines 0 bs None = Ok (Some (mkJournal id l)).
Proof.
  intros H Hne Hid Hv. destruct H as [|e b l bs (_ & C & D & _) H]; [done|].
  inversion Hid; subst. cbn [decode_lines].
  rewrite C. unfold err_if, wrap. rewrite decide_False by (intros Hn; by apply Hn).
  simpl. rewrite D. simpl. unfold NewJournal. rewrite Hv. simpl. by rewrite (decode_all l bs).
Qed.

Lemma chained_run id l : chained id l -> Forall (fun e => RunID e = id) l.
Proof.
  induction 1 as [|l e _ IH (_ & R & _)]; [constructor|]. apply Forall_app; auto.
Qed.

(** A journal survives its file: a verified journal with a valid run
    identifier, whose events the JSON codec encodes faithfully, is encoded,
    and decoding the bytes gives exactly that journal. *)
Theorem journal_roundtrip j
    (Hid : InstanceID_Validate (runID j) = Ok tt) (Hne : events j <> [])
    (Hv : Verify (Some j) = Ok tt)
    (Hcodec : Forall (fun e => exists b, faithful e b) (events j)) :
  exists out, EncodeJSONL (Some j) = Ok out ∧ DecodeJournal (Some out) = Ok j.
Proof.
  apply Forall_exists_Forall2_l in Hcodec as [bs Hbs].
  destruct (encode_scan _ _ Hbs) as (out & E & S). exists out. split.
  - unfold EncodeJSONL. rewrite Hv. exact E.
  - unfold DecodeJournal. rewrite S. destruct j as [id l]. simpl in *.
    pose proof (proj1 (Verify_well_formed id l) Hv) as [C _].
    rewrite (decode_all_new l bs id) by (auto using chained_run). simpl.
    unfold mbind, result_bind. cbn [Verify runID events] in Hv. by rewrite Hv.
Qed.
End Spec.

(** ** Instances on concrete journals

    A library and a codec for two events, enough to run the definitions: a
    document is one scalar, and its digest the end of its text. *)
#[local] Instance sample_library : JSONLibrary := {
  NewDecoder raw := mkDecoder [Scalar (SString (string_of_list_ascii raw))] io_EOF false;
  jcs_Transform raw := Ok raw;
  Sum256 data := resize 32 "0"%char (rev data);
  Sum256_length data := length_resize (rev data) 32 "0"%char
}.

Definition sample_marshal (p : Projection) : list ascii :=
  list_ascii_of_string (prPrevious p +:+ "/" +:+ prStatus p).
Definition sample_run : InstanceID := "01890000-0000-7000-8000-000000000000".
Definition sample_event (seq : Z) (previous : Digest) (status : RunStatus) : JournalEvent :=
  let e := mkJournalEvent JournalSchema sample_run seq previous "note" status 5 0 zeroDigest "" in
  set_EventDigest (NewDigest (sample_marshal (projection e))) e.
Definition sample_first : JournalEvent := sample_event 1 zeroDigest RunPlanned.
Definition sample_second : JournalEvent := sample_event 2 (EventDigest sample_first) RunRunning.

#[local] Instance sample_codec : JournalCodec := {
  journal_library := sample_library;
  json_Marshal_projection p := Ok (sample_marshal p);
  json_Marshal_event e := Ok (list_ascii_of_string (Status e));
  decode_event b :=
    Ok (if decide (b = list_ascii_of_string RunPlanned) then sample_first else sample_second, false)
}.

Definition sample_journal : Journal := mkJournal sample_run [sample_first; sample_second].

Lemma last_digest_pins_the_journal_witness :
  Verify (Some sample_journal) = Ok tt ∧
  (sample_journal = sample_journal ∨ collision).
Proof.
  split; [vm_compute; reflexivity|].
  apply (last_digest_pins_the_journal sample_journal sample_journal);
    solve [vm_compute; reflexivity | discriminate].
Defined.

Lemma journal_roundtrip_witness :
  exists out, EncodeJSONL (Some sample_journal) = Ok out ∧
    DecodeJournal (Some out) = Ok sample_journal.
Proof.
  apply (journal_roundtrip sample_journal).
  - vm_compute; reflexivity.
  - discriminate.
  - vm_compute; reflexivity.
  - repeat constructor; eexists; (split_and!; [reflexivity|reflexivity|vm_compute; reflexivity| | |]);
      try (vm_compute; congruence).
    + intros H. repeat (apply elem_of_cons in H as [H|H]; [discriminate|]). by apply elem_of_nil in H.
    + intros H. repeat (apply elem_of_cons in H as [H|H]; [discriminate|]). by apply elem_of_nil in H.
Defined.
