(* ===== verification/Minimizer.v ===== *)
(** * internal/minimizer: bounded delta debugging

    [DDMin] and [RemoveJSONObjectKeys].  The predicate runs caller code that
    may answer differently each time: it is a function of the evaluation
    number and of the candidate.  The context is asked for its error once per
    round of the outer loop: it is a function of the round. *)
From Stdlib Require Import ZArith Ascii String Lia.
From stdpp Require Import base gmap sets list strings.
From S2P Require Import Prelude.
Local Open Scope Z_scope.
Local Open Scope string_scope.
Local Open Scope list_scope.

Definition Predicate (T : Type) := Z -> list T -> result error bool.
Definition Ctx := nat -> option error.

Definition Status := string.
Definition StatusMinimized : Status := "minimized".
Definition StatusUnchanged : Status := "unchanged".
Definition StatusInconclusive : Status := "inconclusive".

Record Options := mkOptions { Attempts : Z; RequiredPasses : Z; MaxEvaluations : Z }.

Record Result (T : Type) := mkResult {
  Items : list T;
  rStatus : Status;
  ReasonCode : string;
  Evaluations : Z;
  rAttempts : Z;
  Required : Z
}.
Arguments mkResult {T}.
Arguments Items {T}.
Arguments rStatus {T}.
Arguments ReasonCode {T}.
Arguments Evaluations {T}.
Arguments rAttempts {T}.
Arguments Required {T}.

Definition budget_exhausted : string := "minimization evaluation budget exhausted".
Definition ErrBudgetExhausted : error := Sentinel budget_exhausted.

(** [evaluator]: the predicate and the options never change; [count] is the
    state. *)
Record evaluator (T : Type) := mkEvaluator {
  predicate : Predicate T;
  options : Options;
  count : Z
}.
Arguments mkEvaluator {T}.
Arguments predicate {T}.
Arguments options {T}.
Arguments count {T}.

Definition EvM (T A : Type) := GoM (evaluator T) error A.

Definition normalizeOptions (o : Options) : result error Options :=
  let attempts := if decide (Attempts o = 0) then 1 else Attempts o in
  let required := if decide (RequiredPasses o = 0) then attempts else RequiredPasses o in
  let budget := if decide (MaxEvaluations o = 0) then 1000 else MaxEvaluations o in
  if decide (attempts < 1 ∨ required < 1 ∨ required > attempts ∨ budget < 1)
  then Err (ErrorNew (Text "invalid minimizer attempts, required passes, or evaluation budget"))
  else Ok (mkOptions attempts required budget).

Section Minimizer.
Context {T : Type}.

Definition tick (e : evaluator T) : evaluator T :=
  mkEvaluator (predicate e) (options e) (count e + 1).

(** The loop of [check]; [attempts] counts the remaining iterations. *)
Fixpoint check_loop (attempts : nat) (passes failures : Z) (candidate : list T)
    : EvM T (bool * bool) :=
  match attempts with
  | O => mret (false, false)
  | S attempts' =>
      e ← get;
      fail_if (count e >= MaxEvaluations (options e)) ErrBudgetExhausted;;
      modify tick;;
      match predicate e (count e) candidate with
      | Err _ => check_loop attempts' passes failures candidate
      | Ok matched =>
          let passes := if matched then passes + 1 else passes in
          let failures := if matched then failures else failures + 1 in
          if decide (passes >= RequiredPasses (options e)) then mret (true, true)
          else if decide (failures > Attempts (options e) - RequiredPasses (options e))
          then mret (false, true)
          else check_loop attempts' passes failures candidate
      end
  end.

(** The results are [reproduces] and [conclusive]. *)
Definition check (candidate : list T) : EvM T (bool * bool) :=
  e ← get;
  check_loop (Z.to_nat (Attempts (options e))) 0 0 candidate.

Definition result_ (e : evaluator T) (items : list T) (status : Status) (reason : string)
    : Result T :=
  mkResult items status reason (count e) (Attempts (options e)) (RequiredPasses (options e)).

(** How one pass of the inner loop over the partitions ends. *)
Inductive sweep_outcome :=
| Reduced (candidate : list T)
| Kept
| Exhausted.

(** The error a loop would end with if its fuel ran out; [DDMin]
    never returns it. *)
Definition out_of_rounds : error := Sentinel "out of rounds".

(** The inner loop: [start] steps by [chunkSize], which is positive, so the
    length of [current] is enough fuel; the flag is [sawInconclusive]. *)
Fixpoint sweep (fuel : nat) (current : list T) (chunkSize start : nat) (saw : bool)
    : EvM T (sweep_outcome * bool) :=
  match fuel with
  | O => if decide (start < length current)%nat then fail out_of_rounds else mret (Kept, saw)
  | S fuel' =>
      if decide (start < length current)%nat then
        let end_ := Nat.min (start + chunkSize) (length current) in
        let candidate := take start current ++ drop end_ current in
        if decide (length candidate = 0%nat)
        then sweep fuel' current chunkSize (start + chunkSize) saw
        else fun e =>
          match check candidate e with
          | (Err checkErr, e') =>
              if errors_Is checkErr budget_exhausted then (Ok (Exhausted, saw), e')
              else (Err checkErr, e')
          | (Ok (reproduces, conclusive), e') =>
              if negb conclusive then sweep fuel' current chunkSize (start + chunkSize) true e'
              else if reproduces then (Ok (Reduced candidate, saw), e')
              else sweep fuel' current chunkSize (start + chunkSize) saw e'
          end
      else mret (Kept, saw)
  end.

Definition finish (originalLength : nat) (current : list T) (saw : bool) (e : evaluator T)
    : Result T :=
  if saw then result_ e current StatusInconclusive "flaky_detected"
  else result_ e current
         (if decide (length current = originalLength) then StatusUnchanged else StatusMinimized) "".

(** The outer loop, from round [round]. *)
Fixpoint minimize (ctx : Ctx) (originalLength : nat) (fuel : nat) (round : nat)
    (current : list T) (granularity : nat) (saw : bool) : EvM T (Result T) :=
  match fuel with
  | O => fail out_of_rounds
  | S fuel' =>
      if decide (2 <= length current)%nat then
        match ctx round with
        | Some err => fail err
        | None =>
            let chunkSize := ((length current + granularity - 1) / granularity)%nat in
            outcome ← sweep (length current) current chunkSize 0 saw;
            let '(out, saw) := outcome in
            match out with
            | Exhausted => fun e => (Ok (result_ e current StatusInconclusive "budget_exhausted"), e)
            | Reduced candidate =>
                minimize ctx originalLength fuel' (S round) candidate
                  (Nat.max 2 (granularity - 1)) saw
            | Kept =>
                if decide (length current <= granularity)%nat
                then fun e => (Ok (finish originalLength current saw e), e)
                else minimize ctx originalLength fuel' (S round) current
                       (Nat.min (length current) (granularity * 2)) saw
            end
        end
      else fun e => (Ok (finish originalLength current saw e), e)
  end.

(** Every round shortens the input or raises the granularity, which stays
    between 2 and the length. *)
Definition rounds (n : nat) : nat := S (n * (n + 2) + n).

(** [None] is a nil predicate. *)
Definition DDMin (ctx : Ctx) (input : list T) (p : option (Predicate T)) (o : Options)
    : result error (Result T) :=
  match p with
  | None => Err (ErrorNew (Text "minimization predicate is required"))
  | Some p =>
      normalized ← normalizeOptions o;
      let evaluation := mkEvaluator p normalized 0 in
      let current := input in
      match check current evaluation with
      | (Err err, _) => Err err
      | (Ok (reproduces, conclusive), evaluation) =>
          if negb conclusive
          then Ok (result_ evaluation current StatusInconclusive "insufficient_samples")
          else if negb reproduces
          then Err (ErrorNew (Text "initial input does not reproduce the finding"))
          else if decide (length current < 2)%nat
          then Ok (result_ evaluation current StatusUnchanged "")
          else (minimize ctx (length current) (rounds (length input)) 0 current 2 false evaluation).1
      end
  end.
End Minimizer.

(** ** Removing keys of a JSON object

    Values are opaque; the maps given to the predicate are fresh. *)
Section Keys.
Context {V : Type}.

(** [candidate[key] = input[key]] for each key in turn; the keys are keys of
    [input]. *)
Fixpoint copy_keys (input : gmap string V) (keys : list string) (candidate : gmap string V)
    : gmap string V :=
  match keys with
  | [] => candidate
  | key :: keys' =>
      copy_keys input keys'
        (match input !! key with Some v => <[key := v]> candidate | None => candidate end)
  end.

Fixpoint check_keys (input : gmap string V) (seen : gset string) (keys : list string)
    : result error unit :=
  match keys with
  | [] => Ok tt
  | key :: keys' =>
      err_if (input !! key = None)
        (ErrorNew (Sprintf "ordered key %q is not present" [FStr key]));;
      err_if (key ∈ seen) (ErrorNew (Sprintf "ordered key %q is duplicated" [FStr key]));;
      check_keys input ({[key]} ∪ seen) keys'
  end.

Definition RemoveJSONObjectKeys (ctx : Ctx) (input : gmap string V) (orderedKeys : list string)
    (p : option (Z -> gmap string V -> result error bool)) (o : Options)
    : result error (gmap string V * Result string) :=
  match p with
  | None => Err (ErrorNew (Text "JSON predicate is required"))
  | Some p =>
      check_keys input ∅ orderedKeys;;
      r ← DDMin ctx orderedKeys (Some (fun n retained => p n (copy_keys input retained ∅))) o;
      mret (copy_keys input (Items r) ∅, r)
  end.
End Keys.

(** ** internal/minimizer: what a minimization result promises

    The result is a part of the input that was confirmed by enough passing
    attempts; when it is conclusive, every removal of a single item was
    refuted.  The loops end, within the evaluation budget. *)

Section Spec.
Context {T : Type}.

(** ** Evidence *)

(** The answers of [k] consecutive evaluations of [items] from number [c]. *)
Fixpoint answers (p : Predicate T) (items : list T) (c : Z) (k : nat) : list bool :=
  match k with
  | O => []
  | S k' =>
      match p c items with
      | Ok b => b :: answers p items (c + 1) k'
      | Err _ => answers p items (c + 1) k'
      end
  end.

Definition passes_of (l : list bool) : Z := Z.of_nat (length (filter (fun b => b = true) l)).
Definition failures_of (l : list bool) : Z := Z.of_nat (length (filter (fun b => b = false) l)).

(** [items] reproduced: at most [Attempts] consecutive evaluations within the
    budget gave [RequiredPasses] passes. *)
Definition confirmed (p : Predicate T) (o : Options) (items : list T) : Prop :=
  exists c k, 0 <= c ∧ Z.of_nat k <= Attempts o ∧ c + Z.of_nat k <= MaxEvaluations o ∧
    passes_of (answers p items c k) >= RequiredPasses o.

(** [items] did not: so many attempts failed that the rest could not pass. *)
Definition refuted (p : Predicate T) (o : Options) (items : list T) : Prop :=
  exists c k, 0 <= c ∧ Z.of_nat k <= Attempts o ∧ c + Z.of_nat k <= MaxEvaluations o ∧
    failures_of (answers p items c k) > Attempts o - RequiredPasses o.

Definition options_ok (o : Options) : Prop :=
  1 <= RequiredPasses o <= Attempts o ∧ 1 <= MaxEvaluations o.

Lemma normalizeOptions_ok o o' : normalizeOptions o = Ok o' -> options_ok o'.
Proof.
  unfold normalizeOptions, options_ok. destruct (decide (_ ∨ _)) as [|H] eqn:E; [done|].
  intros [= <-]. simpl. lia.
Qed.

Lemma passes_cons b l : passes_of (b :: l) = (if b then 1 else 0) + passes_of l.
Proof. unfold passes_of. rewrite filter_cons. destruct b; simpl; lia. Qed.
Lemma failures_cons b l : failures_of (b :: l) = (if b then 0 else 1) + failures_of l.
Proof. unfold failures_of. rewrite filter_cons. destruct b; simpl; lia. Qed.

(** An evaluator of these options and this predicate, within the budget. *)
Definition ev_ok (p : Predicate T) (o : Options) (e : evaluator T) : Prop :=
  predicate e = p ∧ options e = o ∧ 0 <= count e <= MaxEvaluations o.

Lemma check_loop_spec p o n : forall ps fs cand e,
  ev_ok p o e -> options_ok o ->
  exists k, (k <= n)%nat ∧
  match check_loop n ps fs cand e with
  | (r, e') =>
      ev_ok p o e' ∧ count e' = count e + Z.of_nat k ∧
      match r with
      | Err err => err = ErrBudgetExhausted
      | Ok (reproduces, conclusive) =>
          (reproduces = true -> conclusive = true ∧
             ps + passes_of (answers p cand (count e) k) >= RequiredPasses o) ∧
          (reproduces = false -> conclusive = true ->
             fs + failures_of (answers p cand (count e) k) > Attempts o - RequiredPasses o)
      end
  end.
Proof.
  induction n as [|n IH]; intros ps fs cand e (Hp & Ho & Hc) Hok; cbn [check_loop].
  - exists 0%nat. split; [lia|]. simpl. split_and!; [done|lia|done|done].
  - unfold mbind, gom_bind, get, fail_if, modify. rewrite Ho, Hp. case_decide as Hb.
    { exists 0%nat. split; [lia|]. simpl. split_and!; [done|lia|done]. }
    simpl. assert (ev_ok p o (tick e)) as Hok' by (unfold ev_ok, tick; simpl; split_and!; [done|done|lia|lia]).
    destruct (p (count e) cand) as [matched|err] eqn:Em.
    + set (ps' := if matched then ps + 1 else ps). set (fs' := if matched then fs else fs + 1).
      case_decide as H1; [|case_decide as H2].
      * exists 1%nat. split; [lia|]. simpl. rewrite Em. split_and!; [done|lia| |done].
        intros _. rewrite passes_cons. unfold passes_of; simpl. destruct matched; simpl in *; lia.
      * exists 1%nat. split; [lia|]. simpl. rewrite Em. split_and!; [done|lia|done|].
        intros _ _. rewrite failures_cons. unfold failures_of; simpl. destruct matched; simpl in *; lia.
      * destruct (IH ps' fs' cand (tick e) Hok' Hok) as (k & Hk & H). exists (S k). split; [lia|].
        destruct (check_loop n ps' fs' cand (tick e)) as [r e'].
        destruct H as (? & Hcount & H). cbn [count tick] in Hcount, H. split_and!; [done|lia|].
        destruct r as [[rep con]|]; [|done]. cbn [answers]. rewrite Em.
        rewrite passes_cons, failures_cons. unfold ps', fs' in H.
        destruct H as [HA HB]. split; [intros Hr; destruct (HA Hr); split; [done|]
          |intros Hr Hcn; specialize (HB Hr Hcn)]; destruct matched; lia.
    + destruct (IH ps fs cand (tick e) Hok' Hok) as (k & Hk & H). exists (S k). split; [lia|].
      destruct (check_loop n ps fs cand (tick e)) as [r e'].
      destruct H as (? & Hcount & H). cbn [count tick] in Hcount, H. split_and!; [done|lia|].
      cbn [answers]. by rewrite Em.
Qed.

Lemma check_spec p o cand e :
  ev_ok p o e -> options_ok o ->
  match check cand e with
  | (r, e') =>
      ev_ok p o e' ∧
      match r with
      | Err err => err = ErrBudgetExhausted
      | Ok (reproduces, conclusive) =>
          (reproduces = true -> conclusive = true ∧ confirmed p o cand) ∧
          (reproduces = false -> conclusive = true -> refuted p o cand)
      end
  end.
Proof.
  intros Hev Hok. unfold check, mbind, gom_bind, get.
  pose proof Hev as (_ & Ho & Hc). rewrite Ho.
  destruct (check_loop_spec p o (Z.to_nat (Attempts o)) 0 0 cand e Hev Hok) as (k & Hk & H).
  destruct (check_loop _ 0 0 cand e) as [r e']. destruct H as ((Hp' & Ho' & Hc') & Hcount & H).
  split; [done|]. destruct r as [[rep con]|]; [|done]. destruct H as [HA HB]. unfold options_ok in Hok.
  split.
  - intros Hr. destruct (HA Hr) as [? ?]. split; [done|]. exists (count e), k. lia.
  - intros Hr Hcn. specialize (HB Hr Hcn). exists (count e), k. lia.
Qed.

(** ** The loops *)
Lemma candidate_sublist (cur : list T) start end_ :
  (start <= end_)%nat -> take start cur ++ drop end_ cur `sublist_of` cur.
Proof.
  intros H. rewrite <- (take_drop start cur) at 3. apply sublist_app; [done|].
  replace end_ with (start + (end_ - start))%nat by lia. rewrite <- drop_drop. apply sublist_drop.
Qed.

Definition sweep_post (p : Predicate T) (o : Options) (cur : list T) (chunk start : nat) (saw : bool)
    (r : result error (sweep_outcome * bool) * evaluator T) : Prop :=
  match r with
  | (Err _, _) => False
  | (Ok (out, saw'), e') =>
      ev_ok p o e' ∧
      match out with
      | Reduced cand =>
          cand `sublist_of` cur ∧ cand <> [] ∧ (length cand < length cur)%nat ∧ confirmed p o cand
      | Exhausted => True
      | Kept =>
          saw' = false -> saw = false ∧
          (chunk = 1%nat -> (2 <= length cur)%nat ->
           forall j, (start <= j < length cur)%nat -> refuted p o (delete j cur))
      end
  end.

Lemma sweep_spec p o cur chunk fuel : forall start saw e,
  ev_ok p o e -> options_ok o -> (1 <= chunk)%nat -> (length cur - start <= fuel)%nat ->
  sweep_post p o cur chunk start saw (sweep fuel cur chunk start saw e).
Proof.
  induction fuel as [|fuel IH]; intros start saw e Hev Hok Hch Hfuel; cbn [sweep].
  { case_decide; [lia|]. simpl. split; [done|]. intros ->. split; [done|]. intros; lia. }
  case_decide as Hs; [|simpl; split; [done|]; intros ->; split; [done|]; intros; lia].
  set (end_ := Nat.min (start + chunk) (length cur)).
  set (cand := take start cur ++ drop end_ cur).
  assert (length cand = length cur - (end_ - start))%nat as Hlen.
  { unfold cand. rewrite length_app, length_take, length_drop. lia. }
  assert (chunk = 1%nat -> cand = delete start cur) as Hdel.
  { intros ->. unfold cand, end_. rewrite Nat.min_l by lia. rewrite delete_take_drop.
    by rewrite Nat.add_1_r. }
  assert (forall saw' e', ev_ok p o e' -> (saw' = false -> saw = false) ->
    (saw' = false -> chunk = 1%nat -> (2 <= length cur)%nat -> refuted p o (delete start cur)) ->
    sweep_post p o cur chunk start saw (sweep fuel cur chunk (start + chunk) saw' e')) as Hgo.
  { intros saw' e' Hev' Hsaw Href. specialize (IH (start + chunk)%nat saw' e' Hev' Hok Hch ltac:(lia)).
    unfold sweep_post in *. destruct (sweep _ _ _ _ _ _) as [[[out saw2]|] e2]; [|done].
    destruct IH as [? IH]. split; [done|]. destruct out; [done| |done]. intros ->.
    destruct (IH eq_refl) as [-> IH']. split; [by apply Hsaw|]. intros -> H2 j Hj.
    destruct (decide (j = start)) as [->|]; [by apply Href|]. apply IH'; [done|done|lia]. }
  case_decide as Hz; [apply Hgo; auto; intros; lia|].
  pose proof (check_spec p o cand e Hev Hok) as HC.
  destruct (check cand e) as [[[rep con]|err] e'].
  - destruct HC as [Hev' [HA HB]]. destruct con; simpl; [destruct rep|].
    + split; [done|]. destruct (HA eq_refl) as [_ Hconf]. split_and!; [|by intros E; rewrite E in Hz|lia|done].
      apply candidate_sublist. lia.
    + apply Hgo; auto. intros _ Hch1 _. rewrite <- Hdel by done. by apply HB.
    + apply Hgo; auto; done.
  - destruct HC as [Hev' ->]. simpl. done.
Qed.

(** What a result of [DDMin] promises. *)
Definition good (p : Predicate T) (o : Options) (input : list T) (r : Result T) : Prop :=
  Items r `sublist_of` input ∧ Items r <> [] ∧ confirmed p o (Items r) ∧
  0 <= Evaluations r <= MaxEvaluations o ∧
  (rStatus r = StatusUnchanged -> Items r = input) ∧
  (rStatus r = StatusMinimized -> (length (Items r) < length input)%nat) ∧
  (rStatus r <> StatusInconclusive -> (2 <= length (Items r))%nat ->
   forall i, (i < length (Items r))%nat -> refuted p o (delete i (Items r))).

Lemma sublist_same_length (l k : list T) : l `sublist_of` k -> length l = length k -> l = k.
Proof.
  induction 1 as [|x l k H IH|x l k H IH]; simpl; [done|intros; f_equal; auto|].
  apply sublist_length in H. lia.
Qed.

Lemma chunk_one len g : (1 <= len <= g)%nat -> ((len + g - 1) / g = 1)%nat.
Proof. intros H. symmetry. apply (Nat.div_unique _ g 1 (len - 1)); lia. Qed.

Lemma chunk_pos len g : (1 <= len)%nat -> (1 <= g)%nat -> (1 <= (len + g - 1) / g)%nat.
Proof. intros. apply Nat.div_le_lower_bound; lia. Qed.

Lemma finish_good p o input current saw e :
  ev_ok p o e -> current `sublist_of` input -> current <> [] -> confirmed p o current ->
  (saw = false -> (2 <= length current)%nat ->
     forall i, (i < length current)%nat -> refuted p o (delete i current)) ->
  good p o input (finish (length input) current saw e).
Proof.
  intros (_ & _ & Hc) Hsub Hne Hconf Href. unfold finish, good.
  pose proof (sublist_length _ _ Hsub) as Hle.
  destruct saw; simpl; [done|]. split_and!; [done|done|done|lia|lia| |case_decide; [done|lia]|by intros _; apply Href].
  case_decide; [|done]. intros _. by apply sublist_same_length.
Qed.

Lemma minimize_spec ctx p o input fuel : forall round cur g saw e,
  ev_ok p o e -> options_ok o -> (2 <= length input)%nat ->
  cur `sublist_of` input -> cur <> [] -> confirmed p o cur -> (2 <= g <= length input)%nat ->
  (length cur * (length input + 2) + (length input - g) < fuel)%nat ->
  match (minimize ctx (length input) fuel round cur g saw e).1 with
  | Err err => exists n, ctx n = Some err
  | Ok r => good p o input r
  end.
Proof.
  induction fuel as [|fuel IH]; intros round cur g saw e Hev Hok Hn Hsub Hne Hconf Hg Hfuel; [lia|].
  cbn [minimize]. pose proof (sublist_length _ _ Hsub) as Hlen.
  case_decide as H2; [|simpl; apply finish_good; auto; lia].
  destruct (ctx round) as [err|] eqn:Hctx; [by exists round|].
  set (chunk := ((length cur + g - 1) / g)%nat).
  assert (1 <= chunk)%nat as Hchunk by (apply chunk_pos; lia).
  pose proof (sweep_spec p o cur chunk (length cur) 0 saw e Hev Hok Hchunk ltac:(lia)) as HS.
  unfold mbind, gom_bind. destruct (sweep _ _ _ _ _ _) as [[[out saw']|] e']; [|done].
  destruct HS as [Hev' HS]. destruct out as [cand| |]; simpl.
  - destruct HS as (Hs & Hne' & Hlt & Hconf'). apply IH; auto; [by etrans|lia|].
    assert (length cand * (length input + 2) + (length input + 2)
            <= length cur * (length input + 2))%nat by nia. lia.
  - case_decide as Hge; simpl.
    + apply finish_good; auto. intros -> _ i Hi.
      destruct (HS eq_refl) as [_ HS']. apply HS'; [by apply chunk_one; lia|lia|lia].
    + apply IH; auto; lia.
  - unfold good; simpl. destruct Hev' as (_ & _ & ?). split_and!; try done; lia.
Qed.

Lemma confirmed_nonempty_passes p o items :
  options_ok o -> confirmed p o items -> exists c, p c items = Ok true.
Proof.
  intros Hok (c & k & _ & _ & _ & H). unfold options_ok in Hok.
  assert (0 < passes_of (answers p items c k)) as Hp by lia. clear H. revert c Hp.
  induction k as [|k IH]; intros c Hp; simpl in Hp; [unfold passes_of in Hp; simpl in Hp; lia|].
  destruct (p c items) as [[]|] eqn:E; [by exists c| |by eapply IH].
  rewrite passes_cons in Hp. by eapply IH.
Qed.

Lemma refuted_fails p o items :
  options_ok o -> refuted p o items -> exists c, p c items = Ok false.
Proof.
  intros Hok (c & k & _ & _ & _ & H). unfold options_ok in Hok.
  assert (0 < failures_of (answers p items c k)) as Hp by lia. clear H. revert c Hp.
  induction k as [|k IH]; intros c Hp; simpl in Hp; [unfold failures_of in Hp; simpl in Hp; lia|].
  destruct (p c items) as [[]|] eqn:E; [|by exists c|by eapply IH].
  rewrite failures_cons in Hp. by eapply IH.
Qed.

#[local] Arguments minimize : simpl never.

Lemma DDMin_spec ctx input p o :
  match DDMin ctx input (Some p) o with
  | Ok r => exists o', normalizeOptions o = Ok o' ∧
      (good p o' input r ∨ (input = [] ∧ Items r = []) ∨
       (rStatus r = StatusInconclusive ∧ ReasonCode r = "insufficient_samples" ∧ Items r = input ∧
        0 <= Evaluations r <= MaxEvaluations o' ∧ exists rep, (check input (mkEvaluator p o' 0)).1 = Ok (rep, false)))
  | Err err => normalizeOptions o = Err err ∨ err = ErrBudgetExhausted ∨
      err = ErrorNew (Text "initial input does not reproduce the finding") ∨
      exists n, ctx n = Some err
  end.
Proof.
  unfold DDMin, mbind, result_bind.
  destruct (normalizeOptions o) as [o'|err] eqn:En; [|by left].
  pose proof (normalizeOptions_ok _ _ En) as Hok.
  assert (ev_ok p o' (mkEvaluator p o' 0)) as Hev.
  { unfold options_ok in Hok. unfold ev_ok; simpl. split_and!; [done|done|lia|lia]. }
  pose proof (check_spec p o' input _ Hev Hok) as HC.
  destruct (check input (mkEvaluator p o' 0)) as [[[rep con]|err] e'] eqn:Ec;
    [|destruct HC as [_ ->]; by right; left].
  destruct HC as [Hev' [HA HB]]. pose proof Hev' as (_ & _ & Hc).
  destruct con; simpl; [destruct rep; simpl|].
  - destruct (HA eq_refl) as [_ Hconf]. case_decide as Hlen.
    + exists o'. split; [done|]. destruct input as [|x input]; [by right; left|]. left.
      unfold good; simpl in *. split_and!; try done; lia.
    + pose proof (minimize_spec ctx p o' input (rounds (length input)) 0 input 2 false e'
                    Hev' Hok ltac:(lia) ltac:(done)) as HM.
      destruct (minimize _ _ _ _ _ _ _ _).1 as [r|err].
      * exists o'. split; [done|]. left. apply HM; [by intros ->; simpl in *; lia|done|lia|].
        unfold rounds. nia.
      * right; right; right. apply HM; [by intros ->; simpl in *; lia|done|lia|]. unfold rounds. nia.
  - right; right; by left.
  - exists o'. split; [done|]. right; right. split_and!; [done..|lia|lia|exists rep; by rewrite Ec].
Qed.

(** ** The claims *)

(** [C37] What a minimization of a nonempty input returns was confirmed:
    whatever the predicate answers, the result is a nonempty sublist of the
    input whose reproduction passed the required number of attempts, within
    the evaluation budget; "unchanged" returns the whole input and "minimized"
    strictly less; and when a conclusive result has at least two items, the
    removal of any single one was refuted by failed attempts.  The exception
    is a first check that was inconclusive: then the whole input is returned
    as inconclusive for lack of samples, also within the budget. *)
Theorem DDMin_result_is_confirmed_and_minimal ctx input p o o' r
    (Hne : input <> []) (Ho : normalizeOptions o = Ok o')
    (Hr : DDMin ctx input (Some p) o = Ok r) :
  good p o' input r ∨
  (rStatus r = StatusInconclusive ∧ ReasonCode r = "insufficient_samples" ∧ Items r = input ∧
   0 <= Evaluations r <= MaxEvaluations o' ∧ exists rep, (check input (mkEvaluator p o' 0)).1 = Ok (rep, false)).
Proof.
  pose proof (DDMin_spec ctx input p o) as H. rewrite Hr in H.
  destruct H as (o2 & E & H). rewrite Ho in E. injection E as <-.
  destruct H as [H|[[-> _]|H]]; [by left|done|by right].
Qed.

(** [C38] [DDMin] ends: with any predicate and any options it returns a
    result, or reports that the options are invalid, that the budget did not
    suffice for the first check, that the input does not reproduce, or the
    error its context was cancelled with. *)
Theorem DDMin_terminates ctx (input : list T) p o :
  (exists r, DDMin ctx input (Some p) o = Ok r) ∨
  (exists err, DDMin ctx input (Some p) o = Err err ∧
     (normalizeOptions o = Err err ∨ err = ErrBudgetExhausted ∨
      err = ErrorNew (Text "initial input does not reproduce the finding") ∨
      exists n, ctx n = Some err)).
Proof.
  pose proof (DDMin_spec ctx input p o) as H.
  destruct (DDMin ctx input (Some p) o) as [r|err]; [left; eauto|right; eauto].
Qed.
End Spec.

(** ** Removing keys *)
Section Keys.
Context {V : Type}.

Lemma copy_keys_lookup (input : gmap string V) keys acc k :
  copy_keys input keys acc !! k =
  if decide (k ∈ keys ∧ is_Some (input !! k)) then input !! k else acc !! k.
Proof.
  revert acc. induction keys as [|key keys IH]; intros acc; cbn [copy_keys].
  - rewrite decide_False; [done|]. intros [H _]. by apply elem_of_nil in H.
  - rewrite IH. case_decide as H1.
    + rewrite decide_True; [done|]. split; [apply elem_of_cons; right|]; tauto.
    + destruct (decide (k = key)) as [->|Hk].
      * destruct (input !! key) as [v|] eqn:E.
        -- rewrite lookup_insert_eq, decide_True; [done|]. split; [left|by eexists].
        -- rewrite decide_False; [done|]. intros [_ [? ?]]. done.
      * rewrite decide_False.
        -- destruct (input !! key); [by rewrite lookup_insert_ne by auto|done].
        -- intros [[?|?]%elem_of_cons ?]; tauto.
Qed.

(** Key removal only removes: a result of [RemoveJSONObjectKeys] is
    the input restricted to the retained keys, every value as it was; the
    retained keys come from the ordered keys, in their order; and unless the
    first check already lacked samples, the predicate accepted exactly this
    object. *)
Theorem RemoveJSONObjectKeys_restricts ctx (input : gmap string V) keys p o output r
    (Hne : keys <> [])
    (Hr : RemoveJSONObjectKeys ctx input keys (Some p) o = Ok (output, r)) :
  output = filter (fun kv => kv.1 ∈ Items r) input ∧ Items r `sublist_of` keys ∧
  (ReasonCode r <> "insufficient_samples" -> exists n, p n output = Ok true).
Proof.
  unfold RemoveJSONObjectKeys in Hr.
  destruct (check_keys input ∅ keys) as [[]|]; [|done]. cbn [mbind result_bind] in Hr.
  set (q := fun n retained => p n (copy_keys input retained ∅)) in Hr.
  pose proof (DDMin_spec ctx keys q o) as H.
  unfold Predicate in *.
  destruct (DDMin ctx keys (Some q) o) as [r0|]; [|done]. injection Hr as <- <-.
  destruct H as (o' & Ho & H). split.
  - apply map_eq. intros k. rewrite copy_keys_lookup, map_lookup_filter, lookup_empty.
    destruct (input !! k) as [v|] eqn:E; simpl; repeat case_guard; simpl; case_decide as D; try done.
    + destruct D. split; [done|by eexists].
    + tauto.
  - destruct H as [G|[[-> _]|(_ & R & I & _)]]; [|done|by rewrite I, R].
    destruct G as (Hs & _ & Hc & _). split; [done|]. intros _.
    by apply (confirmed_nonempty_passes q o' _ (normalizeOptions_ok _ _ Ho)).
Qed.
End Keys.

(** ** Concrete runs *)

(** Reproduces when the candidate holds both 3 and 6. *)
Definition needs_3_and_6 : Predicate Z := fun _ l => Ok (bool_decide (3 ∈ l ∧ 6 ∈ l)).
Definition no_cancel : Ctx := fun _ => None.

Lemma DDMin_result_is_confirmed_and_minimal_witness :
  exists r, DDMin no_cancel [1; 2; 3; 4; 5; 6; 7] (Some needs_3_and_6) (mkOptions 0 0 0) = Ok r ∧
    Items r = [3; 6] ∧
    (good needs_3_and_6 (mkOptions 1 1 1000) [1; 2; 3; 4; 5; 6; 7] r ∨
     (rStatus r = StatusInconclusive ∧ ReasonCode r = "insufficient_samples" ∧
      Items r = [1; 2; 3; 4; 5; 6; 7] ∧ 0 <= Evaluations r <= MaxEvaluations (mkOptions 1 1 1000) ∧
      exists rep, (check [1; 2; 3; 4; 5; 6; 7] (mkEvaluator needs_3_and_6 (mkOptions 1 1 1000) 0)).1 = Ok (rep, false))).
Proof.
  eexists. split; [vm_compute; reflexivity|]. split; [reflexivity|].
  apply (DDMin_result_is_confirmed_and_minimal no_cancel _ _ (mkOptions 0 0 0)).
  - discriminate.
  - reflexivity.
  - vm_compute; reflexivity.
Defined.

Definition sample_object : gmap string Z := <["a" := 1]> (<["b" := 2]> (<["c" := 3]> ∅)).
Definition has_b : Z -> gmap string Z -> result error bool :=
  fun _ m => Ok (bool_decide (m !! "b" = Some 2)).

Lemma RemoveJSONObjectKeys_restricts_witness :
  exists output r,
    RemoveJSONObjectKeys no_cancel sample_object ["a"; "b"; "c"] (Some has_b) (mkOptions 0 0 0)
      = Ok (output, r) ∧ Items r = ["b"] ∧
    output = filter (fun kv => kv.1 ∈ Items r) sample_object ∧
    Items r `sublist_of` ["a"; "b"; "c"] ∧
    (ReasonCode r <> "insufficient_samples" -> exists n, has_b n output = Ok true).
Proof.
  do 2 eexists. split; [vm_compute; reflexivity|]. split; [reflexivity|].
  apply (RemoveJSONObjectKeys_restricts no_cancel sample_object ["a"; "b"; "c"] has_b
           (mkOptions 0 0 0)); [discriminate|vm_compute; reflexivity].
Defined.
