(* ===== verification/Oracle.v ===== *)
(** * internal/oracle: verdicts from evidence

    types.go, relational.go and state_machine.go, with the normalized items
    of pkg/schema/evidence.go they read.  The values [Expected] and
    [Observed] are the strings the code gives, kept as messages ([None] is
    nil); whether raw bytes are valid JSON is asked of encoding/json, a
    parameter. *)
From Stdlib Require Import ZArith Ascii String Lia.
From stdpp Require Import base gmap sets list strings.
From S2P Require Import Prelude Schema Results Statemachine StatemachineSpec.
Local Open Scope Z_scope.
Local Open Scope string_scope.
Local Open Scope list_scope.

(** ** Inputs and outcomes (types.go) *)
Record Input (T : Type) := mkInput {
  Value : T;
  EvidenceRefs : list ObjectRef;
  Complete : bool;
  HarnessError : option error
}.
Arguments mkInput {T}.
Arguments Value {T}.
Arguments EvidenceRefs {T}.
Arguments Complete {T}.
Arguments HarnessError {T}.

Record Outcome := mkOutcome {
  outVerdict : Verdict;
  outReasonCode : ReasonCode;
  outCode : string;
  outExpected : option message;
  outObserved : option message;
  outEvidenceRefs : list ObjectRef;
  TargetFailure : bool
}.

(** [None] is a nil outcome: go on. *)
Definition preflight {T} (input : Input T) : option Outcome :=
  let refs := EvidenceRefs input in
  match HarnessError input with
  | Some _ =>
      Some (mkOutcome VerdictInconclusive ReasonHarnessError "harness_precondition_failed"
              (Some (Text "valid harness precondition")) (Some (Text "harness error")) refs false)
  | None =>
      if decide (length refs = 0%nat) then
        Some (mkOutcome VerdictInconclusive ReasonNotObserved "missing_evidence"
                (Some (Text "at least one digest-bound evidence reference")) (Some (Text "none")) []
                false)
      else if is_ok (for_each ObjectRef_Validate refs) then None
      else
        Some (mkOutcome VerdictInconclusive ReasonHarnessError "invalid_evidence_reference"
                (Some (Text "valid digest-bound evidence reference"))
                (Some (Text "invalid evidence reference")) refs false)
  end.

Definition pass (refs : list ObjectRef) : Outcome :=
  mkOutcome VerdictPass "" "assertion_satisfied" None None refs false.

Definition targetFail (refs : list ObjectRef) (code : string) (expected observed : message)
    : Outcome :=
  mkOutcome VerdictFail "" code (Some expected) (Some observed) refs true.

Definition insufficient (refs : list ObjectRef) (code : string) (expected observed : message)
    : Outcome :=
  mkOutcome VerdictInconclusive ReasonInsufficientSamples code (Some expected) (Some observed) refs false.

Definition harness (refs : list ObjectRef) (code : string) : Outcome :=
  mkOutcome VerdictInconclusive ReasonHarnessError code (Some (Text "valid harness input"))
    (Some (Text "harness validation failed")) refs false.

(** ** The stream oracle (state_machine.go)

    The machine's only error type is [*Violation], so [errors.As] always
    finds one; a nil dereference inside the machine would be a panic. *)
Inductive Evaluation :=
| Returns (o : Outcome)
| Panics.

Definition blame (refs : list ObjectRef) (f : Fault) : Evaluation :=
  match f with
  | Returned v => Returns (targetFail refs (Code v) (Expected v) (Observed v))
  | NilDereference => Panics
  end.

Section StateMachineOracle.
Context {ro : RangeOrder string itemState}.

Definition EvaluateStateMachine (input : Input (list Event)) : Evaluation :=
  match preflight input with
  | Some result => Returns result
  | None =>
      match for_eachM Apply (Value input) New with
      | (Err f, _) => blame (EvidenceRefs input) f
      | (Ok _, machine) =>
          if Complete input then
            match Finish machine with
            | Err f => blame (EvidenceRefs input) f
            | Ok _ => Returns (pass (EvidenceRefs input))
            end
          else
            Returns (insufficient (EvidenceRefs input) "incomplete_stream_evidence"
              (Text "terminal logical event")
              (Text "stream evidence ended before completeness was established"))
      end
  end.
End StateMachineOracle.

(** ** Normalized items (pkg/schema/evidence.go) *)
Definition IRType := string.
Definition IRMessage : IRType := "message".
Definition IRContentPart : IRType := "content_part".
Definition IRToolCall : IRType := "tool_call".
Definition IRToolResult : IRType := "tool_result".
Definition IRReasoningArtifact : IRType := "reasoning_artifact".
Definition IRUsage : IRType := "usage".
Definition IRError : IRType := "error".
Definition IRLifecycleEvent : IRType := "lifecycle_event".
Definition IRProviderExtension : IRType := "provider_extension".

Definition irTypes : list IRType :=
  [IRMessage; IRContentPart; IRToolCall; IRToolResult; IRReasoningArtifact; IRUsage; IRError;
   IRLifecycleEvent; IRProviderExtension].

Record LossMarker := mkLossMarker { lossTransformID : string; lossReason : string }.

Record IRItem := mkIRItem {
  ItemID : string;
  itIRType : IRType;
  SourceProtocol : string;
  SourceType : string;
  InteractionID : string;
  ParentItemID : string;
  CallID : string;
  NativeValue : string;
  NormalizedValue : string;
  itEvidenceRefs : list ObjectRef;
  Extension : string;
  TransformID : string;
  TransformVersion : string;
  LossMarkers : list LossMarker;
  Unavailable : list string
}.

Section RelationalOracle.
(** [json.Valid]. *)
Context (json_Valid : string -> bool).

Definition IRItem_Validate (item : IRItem) : result error unit :=
  err_if (ItemID item = "" ∨ InteractionID item = "" ∨ SourceProtocol item = "" ∨
          SourceType item = "")
    (ErrorNew (Text "IR item identity and source fields are required"));;
  err_if (itIRType item ∉ irTypes)
    (ErrorNew (Sprintf "invalid IR type %q" [FStr (itIRType item)]));;
  err_if (len (NativeValue item) = 0 ∨ json_Valid (NativeValue item) = false)
    (ErrorNew (Text "IR native_value must be valid typed JSON"));;
  err_if (length (itEvidenceRefs item) = 0%nat ∨ TransformID item = "" ∨
          TransformVersion item = "")
    (ErrorNew (Text "IR item requires evidence and normalization identity"));;
  for_each ObjectRef_Validate (itEvidenceRefs item);;
  err_if (itIRType item = IRProviderExtension ∧ Extension item = "")
    (ErrorNew (Text "provider extension item requires a namespace")).

(** The variables of the loop. *)
Record Relations := mkRelations {
  items : gmap string IRItem;
  calls : gmap string string;
  results : gset string;
  interactionID : string
}.

(** The switch over the item type. *)
Definition check_call (refs : list ObjectRef) (item : IRItem) (r : Relations)
    : result Outcome Relations :=
  if decide (itIRType item = IRToolCall) then
    err_if (CallID item = "")
      (targetFail refs "missing_call_id" (Text "nonempty tool call ID") (Text "empty"));;
    match calls r !! CallID item with
    | Some prior =>
        Err (targetFail refs "duplicate_call_id" (Text "unique call ID")
               (Sprintf "%s already used by %s" [FStr (CallID item); FStr prior]))
    | None => mret (mkRelations (items r) (<[CallID item := ItemID item]> (calls r)) (results r)
                      (interactionID r))
    end
  else if decide (itIRType item = IRToolResult) then
    err_if (CallID item = "")
      (targetFail refs "missing_tool_result_call_id" (Text "known call ID") (Text "empty"));;
    err_if (calls r !! CallID item = None)
      (targetFail refs "tool_result_unknown_call" (Text "previous tool call ID")
         (Text (CallID item)));;
    err_if (CallID item ∈ results r)
      (targetFail refs "duplicate_tool_result" (Text "one result per call ID")
         (Text (CallID item)));;
    mret (mkRelations (items r) (calls r) ({[CallID item]} ∪ results r) (interactionID r))
  else mret r.

(** One iteration; an [Err] is the outcome the loop returns with. *)
Definition relate (refs : list ObjectRef) (item : IRItem) (r : Relations)
    : result Outcome Relations :=
  wrap (fun _ => harness refs "invalid_normalized_ir") (IRItem_Validate item);;
  err_if (len (NormalizedValue item) > 0 ∧ json_Valid (NormalizedValue item) = false)
    (harness refs "invalid_normalized_ir");;
  err_if ((0 < length (LossMarkers item))%nat ∨ (0 < length (Unavailable item))%nat)
    (insufficient refs "normalization_loss" (Text "round-trippable relation fields")
       (Sprintf "item %s has loss/unavailable markers" [FStr (ItemID item)]));;
  r ← (if decide (interactionID r = "")
       then Ok (mkRelations (items r) (calls r) (results r) (InteractionID item))
       else if decide (InteractionID item ≠ interactionID r)
       then Err (targetFail refs "cross_interaction_reference" (Text (interactionID r))
                   (Text (InteractionID item)))
       else Ok r);
  err_if (is_Some (items r !! ItemID item))
    (targetFail refs "duplicate_item_id" (Text "unique item ID") (Text (ItemID item)));;
  err_if (ParentItemID item ≠ "" ∧ items r !! ParentItemID item = None)
    (targetFail refs "unknown_parent_item" (Text "previous item ID") (Text (ParentItemID item)));;
  r ← check_call refs item r;
  mret (mkRelations (<[ItemID item := item]> (items r)) (calls r) (results r) (interactionID r)).

Fixpoint relate_all (refs : list ObjectRef) (l : list IRItem) (r : Relations)
    : result Outcome Relations :=
  match l with
  | [] => Ok r
  | item :: l' => r ← relate refs item r; relate_all refs l' r
  end.

Definition EvaluateRelations (input : Input (list IRItem)) : Outcome :=
  match preflight input with
  | Some result => result
  | None =>
      let refs := EvidenceRefs input in
      if negb (Complete input) then
        insufficient refs "incomplete_relational_evidence" (Text "complete interaction")
          (Text "partial IR")
      else if decide (length (Value input) = 0%nat) then
        insufficient refs "empty_interaction" (Text "at least one normalized item") (Text "none")
      else
        match relate_all refs (Value input) (mkRelations ∅ ∅ ∅ "") with
        | Err outcome => outcome
        | Ok _ => pass refs
        end
  end.
End RelationalOracle.
