(* ===== verification/OracleSpec.v ===== *)
(** * internal/oracle: what a verdict means

    A target is failed only on sound evidence of a real violation; a pass
    means the whole property holds; everything else is inconclusive. *)
From Stdlib Require Import ZArith Ascii String Lia.
From stdpp Require Import base gmap sets list strings.
From S2P Require Import Prelude Schema Results Statemachine StatemachineSpec Oracle.
Local Open Scope Z_scope.
Local Open Scope string_scope.
Local Open Scope list_scope.

(** Evidence an oracle may judge by: the harness worked, and at least one
    reference, all of them valid, was given. *)
Definition sound_evidence {T} (input : Input T) : Prop :=
  HarnessError input = None ∧ EvidenceRefs input <> [] ∧
  Forall (fun ref => ObjectRef_Validate ref = Ok tt) (EvidenceRefs input).

Lemma preflight_spec {T} (input : Input T) :
  match preflight input with
  | None => sound_evidence input
  | Some o => ~ sound_evidence input ∧ outVerdict o = VerdictInconclusive ∧ TargetFailure o = false
  end.
Proof.
  unfold preflight, sound_evidence. destruct (HarnessError input) as [e|] eqn:E.
  - split_and!; [by intros [? _]|done|done].
  - case_decide as Hz.
    + split_and!; [|done|done]. intros (_ & H & _). by destruct (EvidenceRefs input).
    + destruct (for_each ObjectRef_Validate (EvidenceRefs input)) as [[]|err] eqn:F; simpl.
      * apply for_each_ok in F. split_and!; [done| |done]. by intros H; rewrite H in Hz.
      * split_and!; [|done|done]. intros (_ & _ & H). apply for_each_ok in H. by rewrite F in H.
Qed.

(** The verdicts an oracle gives. *)
Definition three_valued (v : Verdict) : Prop :=
  v = VerdictPass ∨ v = VerdictFail ∨ v = VerdictInconclusive.
#[local] Hint Extern 1 (three_valued _) => unfold three_valued; tauto : core.

(** ** Relations between items *)
Section Relations.
Context (json_Valid : string -> bool).

(** An item the oracle can judge: valid, and normalized without loss. *)
Definition clean (x : IRItem) : Prop :=
  IRItem_Validate json_Valid x = Ok tt ∧
  ~ (len (NormalizedValue x) > 0 ∧ json_Valid (NormalizedValue x) = false) ∧
  LossMarkers x = [] ∧ Unavailable x = [].

(** [x] stands in the right relations to the items before it. *)
Definition related (before : list IRItem) (x : IRItem) : Prop :=
  (forall y, y ∈ before -> InteractionID y = InteractionID x) ∧
  (forall y, y ∈ before -> ItemID y <> ItemID x) ∧
  (ParentItemID x = "" ∨ exists y, y ∈ before ∧ ItemID y = ParentItemID x) ∧
  (itIRType x = IRToolCall -> CallID x <> "" ∧
     forall y, y ∈ before -> itIRType y = IRToolCall -> CallID y <> CallID x) ∧
  (itIRType x = IRToolResult -> CallID x <> "" ∧
     (exists y, y ∈ before ∧ itIRType y = IRToolCall ∧ CallID y = CallID x) ∧
     forall y, y ∈ before -> itIRType y = IRToolResult -> CallID y <> CallID x).

Inductive well_related : list IRItem -> Prop :=
| well_related_nil : well_related []
| well_related_snoc l x : well_related l -> related l x -> well_related (l ++ [x]).

(** What the loop variables hold after the items [before]. *)
Record holds (before : list IRItem) (r : Relations) : Prop := {
  h_items id : is_Some (items r !! id) <-> exists y, y ∈ before ∧ ItemID y = id;
  h_calls c : is_Some (calls r !! c) <->
    exists y, y ∈ before ∧ itIRType y = IRToolCall ∧ CallID y = c;
  h_results c : c ∈ results r <->
    exists y, y ∈ before ∧ itIRType y = IRToolResult ∧ CallID y = c;
  h_same y : y ∈ before -> InteractionID y = interactionID r ∧ InteractionID y <> "";
  h_first : before = [] -> interactionID r = ""
}.

Lemma exists_snoc (P : IRItem -> Prop) l x :
  (exists y, y ∈ l ++ [x] ∧ P y) <-> (exists y, y ∈ l ∧ P y) ∨ P x.
Proof.
  split.
  - intros (y & [Hy|Hy%list_elem_of_singleton]%elem_of_app & HP); [left; eauto|right; by subst].
  - intros [(y & Hy & HP)|HP]; [exists y|exists x]; (split; [apply elem_of_app|done]); [by left|].
    right. by left.
Qed.

Lemma holds_nil : holds [] (mkRelations ∅ ∅ ∅ "").
Proof.
  assert (forall (P : IRItem -> Prop), (exists y, y ∈ [] ∧ P y) <-> False) as Hno.
  { intros P. split; [|done]. intros (y & Hy & _). by apply elem_of_nil in Hy. }
  split; simpl.
  - intros i. rewrite Hno, lookup_empty. split; [by intros [? ?]|done].
  - intros c. rewrite Hno, lookup_empty. split; [by intros [? ?]|done].
  - intros c. rewrite Hno. set_solver.
  - intros y Hy. by apply elem_of_nil in Hy.
  - done.
Qed.

Lemma is_Some_insert {A} (m : gmap string A) k v i :
  is_Some (<[k := v]> m !! i) <-> is_Some (m !! i) ∨ k = i.
Proof.
  destruct (decide (k = i)) as [->|Hk].
  - rewrite lookup_insert_eq. split; [by right|by intros; eexists].
  - rewrite lookup_insert_ne by done. tauto.
Qed.

(** The switch over the item type succeeds exactly on the call relations. *)
Definition call_related (before : list IRItem) (x : IRItem) : Prop :=
  (itIRType x = IRToolCall -> CallID x <> "" ∧
     forall y, y ∈ before -> itIRType y = IRToolCall -> CallID y <> CallID x) ∧
  (itIRType x = IRToolResult -> CallID x <> "" ∧
     (exists y, y ∈ before ∧ itIRType y = IRToolCall ∧ CallID y = CallID x) ∧
     forall y, y ∈ before -> itIRType y = IRToolResult -> CallID y <> CallID x).

Definition failed (o : Outcome) : Prop := outVerdict o = VerdictFail ∧ TargetFailure o = true.

Lemma check_call_spec refs before x r :
  holds before r ->
  match check_call refs x r with
  | Ok r' => call_related before x ∧ items r' = items r ∧ interactionID r' = interactionID r ∧
      (forall c, is_Some (calls r' !! c) <->
         exists y, y ∈ before ++ [x] ∧ itIRType y = IRToolCall ∧ CallID y = c) ∧
      (forall c, c ∈ results r' <->
         exists y, y ∈ before ++ [x] ∧ itIRType y = IRToolResult ∧ CallID y = c)
  | Err o => failed o ∧ ~ call_related before x
  end.
Proof.
  intros [_ Hc Hr _ _]. unfold check_call, call_related. go_unfold.
  case_decide as T1; [|case_decide as T2].
  - case_decide as C1; [split; [done|]; intros [H _]; by apply H|].
    destruct (calls r !! CallID x) as [prior|] eqn:E.
    + split; [done|]. intros [H _]. destruct (H T1) as [_ Hn].
      destruct (proj1 (Hc (CallID x))) as (y & Hy & Ty & Cy); [by eexists|]. by apply (Hn y).
    + simpl. split_and!; try done.
      * intros _. split; [done|]. intros y Hy Ty Cy.
        assert (is_Some (calls r !! CallID x)) as [? ?] by (apply Hc; eauto). congruence.
      * intros T2. by rewrite T1 in T2.
      * intros c. rewrite is_Some_insert, exists_snoc, Hc. tauto.
      * intros c. rewrite exists_snoc, Hr. split; [tauto|]. intros [?|[T2 _]]; [done|by rewrite T1 in T2].
  - case_decide as C1; [split; [done|]; intros [_ H]; by apply H|].
    case_decide as C2; [split; [done|]|].
    { intros [_ H]. destruct (H T2) as (_ & Hex & _). apply Hc in Hex as [? ?]. congruence. }
    case_decide as C3; [split; [done|]|].
    { intros [_ H]. destruct (H T2) as (_ & _ & Hn). apply Hr in C3 as (y & Hy & Ty & Cy). by apply (Hn y). }
    simpl. split_and!; try done.
    + intros _. split_and!; [done| |].
      * apply Hc. destruct (calls r !! CallID x); [by eexists|done].
      * intros y Hy Ty Cy. apply C3, Hr. eauto.
    + intros c. rewrite exists_snoc, Hc. tauto.
    + intros c. rewrite exists_snoc, elem_of_union, elem_of_singleton, Hr. naive_solver.
  - simpl. split_and!; try done.
    + intros c. rewrite exists_snoc, Hc. tauto.
    + intros c. rewrite exists_snoc, Hr. tauto.
Qed.

Lemma clean_dec_cases x :
  clean x -> LossMarkers x = [] ∧ Unavailable x = [] ∧ InteractionID x <> "".
Proof.
  intros (V & _ & ? & ?). split_and!; try done. unfold IRItem_Validate in V.
  rewrite bind_ok, err_if_ok in V. intros E. destruct V as [V _]. apply V. tauto.
Qed.

(** The first item sets the interaction, the others must agree with it. *)
Lemma interaction_spec before x r (e : Outcome) :
  holds before r -> InteractionID x <> "" -> failed e ->
  match (if decide (interactionID r = "")
         then Ok (mkRelations (items r) (calls r) (results r) (InteractionID x))
         else if decide (InteractionID x ≠ interactionID r) then Err e else Ok r) with
  | Ok r2 => r2 = mkRelations (items r) (calls r) (results r) (InteractionID x) ∧
      (forall y, y ∈ before -> InteractionID y = InteractionID x)
  | Err o => failed o ∧ ~ (forall y, y ∈ before -> InteractionID y = InteractionID x)
  end.
Proof.
  intros [_ _ _ Hs Hf] Hid He. case_decide as I1.
  - split; [done|]. intros y Hy. destruct (Hs y Hy) as [E Hn]. congruence.
  - case_decide as I2.
    + split; [done|]. intros Hall. destruct before as [|y l]; [by rewrite Hf in I1|].
      assert (y ∈ y :: l) as Hy by (by left). destruct (Hs y Hy) as [E _].
      rewrite (Hall y Hy) in E. done.
    + split; [by destruct r; simpl in *; subst|]. intros y Hy. destruct (Hs y Hy) as [E _]. congruence.
Qed.

(** The switch over call and result items does not read the interaction. *)
Lemma check_call_interaction refs x r id :
  check_call refs x (mkRelations (items r) (calls r) (results r) id) =
  (r' ← check_call refs x r; Ok (mkRelations (items r') (calls r') (results r') id)).
Proof.
  unfold check_call. go_unfold. simpl. repeat (case_decide; simpl; try done).
  by destruct (calls r !! CallID x).
Qed.

Lemma relate_spec refs before x r :
  holds before r ->
  match relate json_Valid refs x r with
  | Ok r' => clean x ∧ related before x ∧ holds (before ++ [x]) r'
  | Err o => (TargetFailure o = false ∧ outVerdict o = VerdictInconclusive ∧ ~ clean x) ∨
             (failed o ∧ clean x ∧ ~ related before x)
  end.
Proof.
  intros Hh. unfold relate. go_unfold.
  destruct (IRItem_Validate json_Valid x) as [[]|e] eqn:V; simpl;
    [|left; split_and!; [done|done|]; intros [V' _]; by rewrite V in V'].
  case_decide as N; simpl; [left; split_and!; try done; by intros (_ & ? & _)|].
  case_decide as L; simpl.
  { left. split_and!; try done. intros (_ & _ & L1 & L2). rewrite L1, L2 in L. simpl in L. lia. }
  assert (clean x) as Hcl.
  { unfold clean. split_and!; try done; [destruct (LossMarkers x)|destruct (Unavailable x)];
      try done; simpl in L; lia. }
  destruct (clean_dec_cases x Hcl) as (_ & _ & Hid).
  match goal with |- context [targetFail refs "cross_interaction_reference" ?a ?b] =>
    pose proof (interaction_spec before x r
      (targetFail refs "cross_interaction_reference" a b) Hh Hid (conj eq_refl eq_refl)) as Hr1 end.
  set (r1 := if decide (interactionID r = "") then _ else _) in Hr1 |- *.
  clearbody r1. destruct r1 as [r2|o]; simpl.
  2:{ right. destruct Hr1 as [? Hn]. split_and!; try done. by intros (Hx & _). }
  destruct Hr1 as (-> & Hsame). cbn [items calls results interactionID].
  case_decide as D1; simpl.
  { right. split_and!; try done. intros (_ & H & _).
    apply (h_items _ _ Hh) in D1 as (y & Hy & Ey). by apply (H y). }
  case_decide as D2; simpl.
  { right. split_and!; try done. intros (_ & _ & [H|H] & _); [tauto|]. destruct D2 as [_ D2].
    apply (h_items _ _ Hh) in H as [? ?]. congruence. }
  pose proof (check_call_spec refs before x r Hh) as HC.
  rewrite check_call_interaction.
  destruct (check_call refs x r) as [r'|o]; simpl.
  2:{ right. destruct HC as [? Hn]. split_and!; try done. intros (_ & _ & _ & Hx). by apply Hn. }
  destruct HC as (Hcr & I1 & I2 & Hcalls & Hres).
  assert (forall y, y ∈ before -> ItemID y <> ItemID x) as Hfresh.
  { intros y Hy E. apply D1. apply (h_items _ _ Hh). eauto. }
  split_and!; [done| |].
  - unfold related. split_and!; try done; [|apply Hcr|apply Hcr].
    destruct (decide (ParentItemID x = "")) as [|Hp]; [by left|]. right.
    apply (h_items _ _ Hh). destruct (items r !! ParentItemID x) eqn:E; [by eexists|].
    exfalso. by apply D2.
  - split; simpl; try done.
    + intros i. rewrite is_Some_insert, exists_snoc, I1, (h_items _ _ Hh). done.
    + intros y [Hy|Hy%list_elem_of_singleton]%elem_of_app; simpl; [|by subst].
      rewrite (Hsame y Hy). done.
    + intros E. by destruct before.
Qed.

Lemma well_related_snoc_inv l x : well_related (l ++ [x]) -> well_related l ∧ related l x.
Proof.
  inversion 1 as [E|l' x' ? ? E]; [by destruct l|]. by apply app_inj_tail in E as [-> ->].
Qed.

Lemma well_related_split l1 x l2 : well_related (l1 ++ x :: l2) -> related l1 x.
Proof.
  induction l2 as [|y l2 IH] using rev_ind; intros H; [by apply well_related_snoc_inv in H as [_ ?]|].
  rewrite app_comm_cons, app_assoc in H. apply well_related_snoc_inv in H as [H _]. auto.
Qed.

(** The first item that breaks a relation. *)
Definition breaks_at (l : list IRItem) : Prop :=
  exists l1 x l2, l = l1 ++ x :: l2 ∧ Forall clean (l1 ++ [x]) ∧ well_related l1 ∧
    ~ related l1 x.

Lemma relate_all_spec refs l : forall before r,
  holds before r -> Forall clean before -> well_related before ->
  match relate_all json_Valid refs l r with
  | Ok _ => Forall clean l ∧ well_related (before ++ l)
  | Err o => (TargetFailure o = false ∧ outVerdict o = VerdictInconclusive ∧ ~ Forall clean l) ∨
             (failed o ∧ breaks_at (before ++ l))
  end.
Proof.
  induction l as [|x l IH]; intros before r Hh Hc Hw; cbn [relate_all].
  - by rewrite app_nil_r.
  - pose proof (relate_spec refs before x r Hh) as HR. unfold mbind, result_bind.
    destruct (relate json_Valid refs x r) as [r'|o].
    + destruct HR as (Hcx & Hrx & Hh'). specialize (IH (before ++ [x]) r' Hh').
      rewrite <- app_assoc in IH. simpl in IH.
      assert (Forall clean (before ++ [x])) as Hc' by (apply Forall_app; auto).
      assert (well_related (before ++ [x])) as Hw' by (by constructor).
      specialize (IH Hc' Hw'). destruct (relate_all json_Valid refs l r') as [r2|o].
      * destruct IH. by split; [constructor|].
      * destruct IH as [(? & ? & Hn)|[? ?]]; [left|by right]. split_and!; try done.
        intros HF. inversion HF; subst. done.
    + destruct HR as [(? & ? & Hn)|(? & Hcx & Hn)]; [left|right].
      * split_and!; try done. intros HF. inversion HF; subst. done.
      * split; [done|]. exists before, x, l. split_and!; try done. apply Forall_app; auto.
Qed.

Lemma EvaluateRelations_spec input :
  let o := EvaluateRelations json_Valid input in
  (outVerdict o = VerdictPass <->
     sound_evidence input ∧ Complete input = true ∧ Value input <> [] ∧
     Forall clean (Value input) ∧ well_related (Value input)) ∧
  (outVerdict o = VerdictFail <-> TargetFailure o = true) ∧
  (TargetFailure o = true ->
     sound_evidence input ∧ Complete input = true ∧ breaks_at (Value input)) ∧
  three_valued (outVerdict o).
Proof.
  unfold EvaluateRelations. pose proof (preflight_spec input) as HP.
  destruct (preflight input) as [o|].
  { destruct HP as (Hs & V & T). cbn zeta. rewrite V, T.
    split_and!; [|done|done|by rewrite ?V; auto]. split; [done|by intros [? _]]. }
  cbn zeta. destruct (Complete input); simpl.
  2:{ split_and!; [|done|done|by rewrite ?V; auto]. split; [done|by intros (_ & ? & _)]. }
  case_decide as Hz; simpl.
  { split_and!; [|done|done|by rewrite ?V; auto]. split; [done|]. intros (_ & _ & H & _). by destruct (Value input). }
  pose proof (relate_all_spec (EvidenceRefs input) (Value input) [] _ holds_nil
                (Forall_nil_2 _) well_related_nil) as HR. simpl in HR.
  destruct (relate_all json_Valid _ (Value input) _) as [r|o].
  - destruct HR. simpl. split_and!; try done; [|auto]. split; [|done]. intros _. split_and!; try done.
    by intros E; rewrite E in Hz.
  - destruct HR as [(T & V & Hn)|[[V T] Hb]]; rewrite V, T; split_and!; try done; auto.
    + split; [done|]. by intros (_ & _ & _ & ? & _).
    + split; [done|]. intros (_ & _ & _ & _ & Hw). destruct Hb as (l1 & x & l2 & E & _ & _ & Hx).
      rewrite E in Hw. by apply well_related_split in Hw.
Qed.

(** The relational oracle passes exactly the interactions whose evidence
    is sound and complete, whose items are valid and normalized without loss,
    and whose relations hold: one interaction, unique item identifiers,
    parents before children, unique calls, one result per call, after it.
    It fails the target only when the evidence is sound and complete and some
    item, valid like all before it, breaks a relation. *)
Theorem EvaluateRelations_verdicts input :
  let o := EvaluateRelations json_Valid input in
  (outVerdict o = VerdictPass <->
     sound_evidence input ∧ Complete input = true ∧ Value input <> [] ∧
     Forall clean (Value input) ∧ well_related (Value input)) ∧
  (outVerdict o = VerdictFail <-> TargetFailure o = true) ∧
  (TargetFailure o = true ->
     sound_evidence input ∧ Complete input = true ∧ breaks_at (Value input)).
Proof. destruct (EvaluateRelations_spec input) as (H1 & H2 & H3 & _). by split_and!. Qed.
End Relations.

(** ** Streams *)
Section Streams.
Context {ro : RangeOrder string itemState}.

(** A failed run stops at the first event the lifecycle does not admit. *)
Lemma run_fault h f m :
  for_eachM Apply h New = (Err f, m) -> ~ accepted h ∧ f <> NilDereference.
Proof.
  induction h as [|e h IH] using rev_ind; [done|]. rewrite for_eachM_app.
  destruct (for_eachM Apply h New) as [[[]|f0] m0] eqn:E.
  - simpl. unfold mbind, gom_bind. destruct (run_represents _ _ E) as [_ Hr].
    pose proof (Apply_step h e m0 Hr) as Hs. destruct (Apply e m0) as [[[]|f1] m1]; [done|].
    intros [= -> ->]. destruct Hs as (Hn & _ & Hf). split; [|done].
    inversion 1 as [E0|h' e' ? ? E0]; [by destruct h|]. by apply app_inj_tail in E0 as [-> ->].
  - intros [= -> ->]. destruct (IH eq_refl) as [Hn ?]. split; [|done].
    inversion 1 as [E0|h' e' ? ? E0]; [by destruct h|]. by apply app_inj_tail in E0 as [-> ->].
Qed.

Lemma run_accepted_iff h m : for_eachM Apply h New = (Ok tt, m) -> accepted h.
Proof. intros H. by destruct (run_represents _ _ H). Qed.

Definition terminated (h : list Event) : Prop := exists t, terminal_type t ∧ seen h t.

Lemma Finish_terminated h m :
  for_eachM Apply h New = (Ok tt, m) -> (is_Some (match Finish m with Ok u => Some u | Err _ => None end) <-> terminated h).
Proof.
  intros H. destruct (run_represents _ _ H) as [_ Hr]. unfold Finish, err_if.
  case_decide as Ht; simpl; split.
  - by intros [? ?].
  - intros (t & Hty & Hs). apply (rep_terminal _ _ Hr t Hty) in Hs. rewrite Ht in Hs. subst t.
    exfalso. clear -Hty. unfold terminal_type in Hty. rewrite !elem_of_cons in Hty.
    by destruct Hty as [|[|[|?%elem_of_nil]]].
  - intros _. destruct (rep_terminal_type _ _ Hr) as [?|Hty]; [done|].
    exists (terminal m). split; [done|]. by apply (rep_terminal _ _ Hr).
  - by eexists.
Qed.

Lemma Finish_fault (m : Machine) f : Finish m = Err f -> exists v, f = Returned v.
Proof. unfold Finish, err_if. case_decide; [intros [= <-]; by eexists|done]. Qed.

Lemma EvaluateStateMachine_spec input :
  exists o, EvaluateStateMachine input = Returns o ∧
  (outVerdict o = VerdictPass <->
     sound_evidence input ∧ Complete input = true ∧ accepted (Value input) ∧
     terminated (Value input)) ∧
  (TargetFailure o = true <->
     sound_evidence input ∧
     (~ accepted (Value input) ∨ Complete input = true ∧ ~ terminated (Value input))) ∧
  (outVerdict o = VerdictFail <-> TargetFailure o = true) ∧
  three_valued (outVerdict o) ∧
  (sound_evidence input -> Complete input = true -> outVerdict o <> VerdictInconclusive).
Proof.
  unfold EvaluateStateMachine. pose proof (preflight_spec input) as HP.
  destruct (preflight input) as [o|].
  { destruct HP as (Hs & V & T). exists o. rewrite V, T. split; [done|].
    split_and!; try done; auto; (split; [done|by intros [? _]]). }
  destruct (for_eachM Apply (Value input) New) as [[[]|f] m] eqn:E.
  - pose proof (run_accepted_iff _ _ E) as Ha. pose proof (Finish_terminated _ _ E) as Hf.
    destruct (Complete input).
    + destruct (Finish m) as [[]|f] eqn:F.
      * exists (pass (EvidenceRefs input)). split; [done|]. simpl.
        assert (terminated (Value input)) by (apply Hf; by eexists).
        split_and!; try done; auto. split; [done|]. intros [_ [?|[_ ?]]]; done.
      * destruct (Finish_fault _ _ F) as [v ->]. simpl. eexists. split; [done|]. simpl.
        assert (~ terminated (Value input)) by (intros Ht; by apply Hf in Ht as [? ?]).
        split_and!; try done; auto; [split; [done|by intros (_ & _ & _ & ?)]|]. split; [|done]. intros _.
        split; [done|]. by right.
    + eexists. split; [done|]. simpl. split_and!; try done; auto; [split; [done|by intros (_ & ? & _)]|].
      split; [done|]. intros [_ [?|[? _]]]; done.
  - destruct (run_fault _ _ _ E) as [Hn Hf]. destruct f as [v|]; [|done]. simpl.
    eexists. split; [done|]. simpl. split_and!; try done; auto; [split; [done|by intros (_ & _ & ? & _)]|].
    split; [|done]. intros _. split; [done|]. by left.
Qed.

(** The stream oracle always returns, and its verdict is the
    lifecycle's: it passes exactly the streams with sound and complete
    evidence that the lifecycle accepts and that reach a terminal event; it
    fails the target exactly when the evidence is sound and the events
    violate the lifecycle, or end without a terminal event although the
    capture is complete; everything else is inconclusive. *)
Theorem EvaluateStateMachine_verdicts input :
  exists o, EvaluateStateMachine input = Returns o ∧
  (outVerdict o = VerdictPass <->
     sound_evidence input ∧ Complete input = true ∧ accepted (Value input) ∧
     terminated (Value input)) ∧
  (TargetFailure o = true <->
     sound_evidence input ∧
     (~ accepted (Value input) ∨ Complete input = true ∧ ~ terminated (Value input))) ∧
  (outVerdict o = VerdictFail <-> TargetFailure o = true).
Proof.
  destruct (EvaluateStateMachine_spec input) as (o & H1 & H2 & H3 & H4 & _). exists o. by split_and!.
Qed.
End Streams.
