(* ===== verification/OracleSchema.v ===== *)
(** * internal/oracle/schema.go: the structural schema oracle

    A Go map of schemas or of JSON members is the list of its entries in the
    order in which a [range] visits them; the theorems hold for every order.
    Strict decoding into [any] is the class [AnyDecoder]. *)
From Stdlib Require Import ZArith Ascii String Lia.
From stdpp Require Import base gmap sets list strings pretty.
From S2P Require Import Prelude Schema Results Canonical Documents DocumentsSpec Statemachine StatemachineSpec Oracle OracleSpec.
Local Open Scope Z_scope.
Local Open Scope string_scope.
Local Open Scope list_scope.

Definition JSONType := string.
Definition TypeObject : JSONType := "object".
Definition TypeArray : JSONType := "array".
Definition TypeString : JSONType := "string".
Definition TypeNumber : JSONType := "number".
Definition TypeBoolean : JSONType := "boolean".
Definition TypeNull : JSONType := "null".
Definition json_types : list JSONType :=
  [TypeObject; TypeArray; TypeString; TypeNumber; TypeBoolean; TypeNull].

Inductive JSchema := mkJSchema {
  Types : list JSONType;
  Properties : list (string * JSchema);
  Required : list string;
  Items : option JSchema;
  AllowUnknown : bool
}.

(** What [encoding/json] decodes into [any], with [UseNumber]. *)
Inductive json :=
| JObject (members : list (string * json))
| JArray (elements : list json)
| JString (s : string)
| JNumber (text : string)
| JBool (b : bool)
| JNull.

(** A map lookup. *)
Definition lookup_entry {A} (name : string) (entries : list (string * A)) : option A :=
  snd <$> (snd <$> list_find (fun '(k, _) => k = name) entries).

Definition valueType (value : json) : JSONType :=
  match value with
  | JObject _ => TypeObject
  | JArray _ => TypeArray
  | JString _ => TypeString
  | JNumber _ => TypeNumber
  | JBool _ => TypeBoolean
  | JNull => TypeNull
  end.

Fixpoint validateSchemaDefinition (definition : JSchema) (path : string) (depth : Z)
    : result error unit :=
  err_if (depth > 64) (ErrorNew (Text "oracle schema nesting exceeds 64"));;
  err_if (length (Types definition) = 0%nat) (ErrorNew (Sprintf "%s has no allowed types" [FStr path]));;
  for_each (fun candidate => err_if (candidate ∉ json_types)
    (ErrorNew (Sprintf "%s has unsupported type %q" [FStr path; FStr candidate]))) (Types definition);;
  match definition with
  | mkJSchema _ properties required items _ =>
      (fix loop (ps : list (string * JSchema)) : result error unit :=
         match ps with
         | [] => Ok tt
         | (name, property) :: ps' =>
             err_if (name = "") (ErrorNew (Sprintf "%s has empty property name" [FStr path]));;
             validateSchemaDefinition property (path +:+ "." +:+ name) (depth + 1);;
             loop ps'
         end) properties;;
      for_each (fun r => err_if (lookup_entry r properties = None)
        (ErrorNew (Sprintf "%s requires undefined property %q" [FStr path; FStr r]))) required;;
      match items with
      | Some item => validateSchemaDefinition item (path +:+ "[]") (depth + 1)
      | None => mret tt
      end
  end.

Record schemaViolation := mkSchemaViolation {
  svCode : string;
  svExpected : message;
  svObserved : string
}.

(** The first required name that is not a member. *)
Definition first_missing (typed : list (string * json)) (required : list string) : option string :=
  snd <$> list_find (fun r => lookup_entry r typed = None) required.

(** [None] is a nil violation. *)
Fixpoint validateValue (value : json) (expected : JSchema) (path : string) (depth : Z)
    : option schemaViolation :=
  if decide (depth > 64) then
    Some (mkSchemaViolation "value_too_deep" (Text "nesting at most 64") path)
  else if decide (valueType value ∉ Types expected) then
    Some (mkSchemaViolation "json_type_mismatch"
            (Sprintf "%s type in %v" (FStr path :: (FStr <$> Types expected))) (valueType value))
  else match value with
  | JObject typed =>
      match first_missing typed (Required expected) with
      | Some required =>
          Some (mkSchemaViolation "missing_required_field" (Text (path +:+ "." +:+ required)) "absent")
      | None =>
          (fix loop (ms : list (string * json)) : option schemaViolation :=
             match ms with
             | [] => None
             | (name, child) :: ms' =>
                 match lookup_entry name (Properties expected) with
                 | None =>
                     if AllowUnknown expected then loop ms'
                     else Some (mkSchemaViolation "unknown_field" (Text "declared property")
                                  (path +:+ "." +:+ name))
                 | Some property =>
                     match validateValue child property (path +:+ "." +:+ name) (depth + 1) with
                     | Some violation => Some violation
                     | None => loop ms'
                     end
                 end
             end) typed
      end
  | JArray typed =>
      match Items expected with
      | None => None
      | Some item =>
          (fix loop (index : N) (xs : list json) : option schemaViolation :=
             match xs with
             | [] => None
             | child :: xs' =>
                 match validateValue child item (path +:+ "[" +:+ pretty index +:+ "]") (depth + 1) with
                 | Some violation => Some violation
                 | None => loop (index + 1)%N xs'
                 end
             end) 0%N typed
      end
  | _ => None
  end.

Class AnyDecoder := {
  any_library :: JSONLibrary;
  decode_any : list ascii -> result error json
}.

Definition type_list (types : list JSONType) : message := Sprintf "%v" (FStr <$> types).

Section SchemaOracle.
Context {dec : AnyDecoder}.

Definition EvaluateSchema (input : Input (list ascii)) (expected : JSchema) : Outcome :=
  match preflight input with
  | Some o => o
  | None =>
      let refs := EvidenceRefs input in
      match validateSchemaDefinition expected "$" 0 with
      | Err _ => harness refs "invalid_oracle_schema"
      | Ok _ =>
          if Complete input then
            match CanonicalizeJSON (Value input) with
            | Err _ => targetFail refs "invalid_json" (type_list (Types expected))
                         (Text "malformed or ambiguous JSON")
            | Ok canonical =>
                match decode_any canonical with
                | Err _ => targetFail refs "invalid_json" (type_list (Types expected))
                             (Text "undecodable JSON")
                | Ok value =>
                    match validateValue value expected "$" 0 with
                    | Some v => targetFail refs (svCode v) (svExpected v) (Text (svObserved v))
                    | None => pass refs
                    end
                end
            end
          else insufficient refs "incomplete_schema_evidence" (type_list (Types expected))
                 (Text "partial JSON evidence")
      end
  end.
End SchemaOracle.

(** ** Conformance *)
Inductive conforms : JSchema -> json -> Prop :=
| conforms_object s members :
    TypeObject ∈ Types s ->
    (forall r, r ∈ Required s -> exists v, (r, v) ∈ members) ->
    (forall name child, (name, child) ∈ members -> lookup_entry name (Properties s) = None ->
       AllowUnknown s = true) ->
    (forall name child p, (name, child) ∈ members -> lookup_entry name (Properties s) = Some p ->
       conforms p child) ->
    conforms s (JObject members)
| conforms_array s xs :
    TypeArray ∈ Types s ->
    (forall item x, Items s = Some item -> x ∈ xs -> conforms item x) ->
    conforms s (JArray xs)
| conforms_scalar s v :
    (forall ms, v <> JObject ms) -> (forall xs, v <> JArray xs) -> valueType v ∈ Types s -> conforms s v.

(** Induction through the lists of members and elements. *)
Lemma json_induction (P : json -> Prop) :
  (forall ms, (forall name v, (name, v) ∈ ms -> P v) -> P (JObject ms)) ->
  (forall xs, (forall v, v ∈ xs -> P v) -> P (JArray xs)) ->
  (forall s, P (JString s)) -> (forall t, P (JNumber t)) -> (forall b, P (JBool b)) -> P JNull ->
  forall v, P v.
Proof.
  intros HO HA HS HN HB HZ. fix IH 1. intros [ms|xs|s|t|b|]; [| |apply HS|apply HN|apply HB|apply HZ].
  - apply HO. induction ms as [|[k m] ms IHm]; intros name v Hin;
      [exfalso; exact (not_elem_of_nil _ Hin)|].
    apply elem_of_cons in Hin as [E|Hin]; [|exact (IHm name v Hin)].
    assert (v = m) as -> by congruence. apply IH.
  - apply HA. induction xs as [|x xs IHx]; intros v Hin;
      [exfalso; exact (not_elem_of_nil _ Hin)|].
    apply elem_of_cons in Hin as [->|Hin]; [apply IH|exact (IHx v Hin)].
Qed.

Lemma lookup_entry_None {A} name (l : list (string * A)) :
  lookup_entry name l = None <-> forall v, (name, v) ∉ l.
Proof.
  unfold lookup_entry. destruct (list_find _ l) as [[i [k v]]|] eqn:E; simpl.
  - apply list_find_Some in E as (E & -> & _). split; [done|]. intros H. exfalso. eapply H.
    by eapply list_elem_of_lookup_2.
  - apply list_find_None in E. rewrite Forall_forall in E. split; [|done]. intros _ v Hin.
    by apply (E (name, v)).
Qed.

Lemma lookup_entry_Some {A} name (l : list (string * A)) v :
  lookup_entry name l = Some v -> (name, v) ∈ l.
Proof.
  unfold lookup_entry. destruct (list_find _ l) as [[i [k w]]|] eqn:E; simpl; [|done].
  apply list_find_Some in E as (E & -> & _). intros [= <-]. by eapply list_elem_of_lookup_2.
Qed.

(** What a valid definition has at each level. *)
Lemma validateSchemaDefinition_ok s path depth :
  validateSchemaDefinition s path depth = Ok tt ->
  depth <= 64 ∧
  (forall name p, (name, p) ∈ Properties s ->
     validateSchemaDefinition p (path +:+ "." +:+ name) (depth + 1) = Ok tt) ∧
  (forall item, Items s = Some item ->
     validateSchemaDefinition item (path +:+ "[]") (depth + 1) = Ok tt).
Proof.
  destruct s as [types properties required items allow]. cbn [validateSchemaDefinition Types Properties Items].
  rewrite !bind_ok, err_if_ok. intros (Hd & _ & _ & Hp & _ & Hi). split_and!; [lia| |].
  - clear Hi. induction properties as [|[k q] ps IH]; intros name p Hin; [by apply elem_of_nil in Hin|].
    rewrite !bind_ok in Hp. destruct Hp as (_ & Hq & Hp).
    apply elem_of_cons in Hin as [E|Hin]; [|by apply IH].
    assert (name = k ∧ p = q) as [-> ->] by (split; congruence). done.
  - intros item ->. done.
Qed.

(** The loop over the members of an object. *)
Lemma members_ok (f : string -> json -> JSchema -> option schemaViolation)
    (unknown : string -> schemaViolation) (s : JSchema) ms :
  (fix loop (ms : list (string * json)) : option schemaViolation :=
     match ms with
     | [] => None
     | (name, child) :: ms' =>
         match lookup_entry name (Properties s) with
         | None => if AllowUnknown s then loop ms' else Some (unknown name)
         | Some property =>
             match f name child property with Some v => Some v | None => loop ms' end
         end
     end) ms = None <->
  (forall name child, (name, child) ∈ ms -> lookup_entry name (Properties s) = None ->
     AllowUnknown s = true) ∧
  (forall name child p, (name, child) ∈ ms -> lookup_entry name (Properties s) = Some p ->
     f name child p = None).
Proof.
  induction ms as [|[k m] ms IH].
  { split; [|done]. intros _. split; intros * H; by apply elem_of_nil in H. }
  setoid_rewrite elem_of_cons. destruct (lookup_entry k (Properties s)) as [p|] eqn:E.
  - destruct (f k m p) as [v|] eqn:F.
    + split; [done|]. intros [_ G]. by rewrite (G k m p (or_introl eq_refl) E) in F.
    + rewrite IH. split; intros [U G]; (split; intros name child);
        [intros [H|H] N|intros q [H|H] N|intros H|intros q H]; eauto; simplify_eq; done.
  - destruct (AllowUnknown s) eqn:U.
    + rewrite IH. split; intros [V G]; (split; intros name child);
        [done|intros q [H|H] N|done|intros q H]; eauto; simplify_eq.
    + split; [done|]. intros [V _]. by specialize (V k m (or_introl eq_refl) E).
Qed.

(** The loop over the elements of an array. *)
Lemma elements_ok (f : N -> json -> option schemaViolation) (P : json -> Prop) xs :
  (forall i x, x ∈ xs -> f i x = None <-> P x) -> forall index,
  (fix loop (index : N) (xs : list json) : option schemaViolation :=
     match xs with
     | [] => None
     | child :: xs' =>
         match f index child with Some v => Some v | None => loop (index + 1)%N xs' end
     end) index xs = None <-> forall x, x ∈ xs -> P x.
Proof.
  induction xs as [|x xs IH]; intros Hf index.
  { split; [|done]. intros _ x H. by apply elem_of_nil in H. }
  setoid_rewrite elem_of_cons. specialize (Hf index x) as Hx.
  destruct (f index x) as [v|].
  - split; [done|]. intros H. by apply Hx; [left|apply H; left].
  - rewrite IH by (intros i y Hy; apply Hf; by right).
    split; [intros H y [->|Hy]; [by apply Hx; [left|]|by apply H]|intros H y Hy; apply H; by right].
Qed.

Lemma required_ok (ms : list (string * json)) required :
  first_missing ms required = None <->
  forall r, r ∈ required -> exists v, (r, v) ∈ ms.
Proof.
  unfold first_missing. rewrite fmap_None, list_find_None, Forall_forall.
  split; intros H r Hr; specialize (H r Hr).
  - destruct (lookup_entry r ms) as [v|] eqn:E; [|done]. exists v. by apply lookup_entry_Some.
  - rewrite lookup_entry_None. intros H'. destruct H as [v Hv]. by apply (H' v).
Qed.

Lemma validateValue_conforms v : forall s path depth spath,
  validateSchemaDefinition s spath depth = Ok tt ->
  validateValue v s path depth = None <-> conforms s v.
Proof.
  induction v as [ms IH|xs IH|str|num|bit|] using json_induction; intros s path depth spath Hs;
    destruct (validateSchemaDefinition_ok s spath depth Hs) as (Hd & Hp & Hi);
    cbn [validateValue valueType]; rewrite decide_False by lia; case_decide as T; cbn [valueType] in T.
  1, 3, 5, 7, 9, 11: split; [done|]; intros C; inversion C; subst; tauto.
  - destruct (first_missing ms (Required s)) as [r|] eqn:R.
    + split; [done|]. intros C. exfalso. inversion C as [? ? _ Hr| |? ? Hno _ _]; subst; [|by eapply Hno].
      by rewrite (proj2 (required_ok _ _) Hr) in R.
    + pose proof (proj1 (required_ok _ _) R) as R'.
      rewrite (members_ok (fun name child p => validateValue child p (path +:+ "." +:+ name) (depth + 1))
        (fun name => mkSchemaViolation "unknown_field" (Text "declared property") (path +:+ "." +:+ name))).
      split.
      * intros [U F]. constructor; [done..|]. intros name child p Hin E.
        eapply IH; [done| |by eapply F]. eapply Hp, lookup_entry_Some, E.
      * intros C. inversion C as [? ? _ _ U F| |? ? Hno _ _]; subst; [|by destruct (Hno ms)].
        split; [done|]. intros name child p Hin E. eapply IH; [done| |by eapply F].
        eapply Hp, lookup_entry_Some, E.
  - destruct (Items s) as [item|] eqn:E.
    + rewrite (elements_ok (fun index child => validateValue child item
        (path +:+ "[" +:+ pretty index +:+ "]") (depth + 1)) (conforms item)).
      * split.
        -- intros F. constructor; [done|]. intros it x Hit Hx. assert (it = item) as -> by congruence.
           by apply F.
        -- intros C x Hx. inversion C as [|? ? _ F|? ? _ Hno _]; subst; [|by destruct (Hno xs)].
           by eapply F.
      * intros i x Hx. by eapply IH; [|apply Hi].
    + split; [|done]. intros _. constructor; [done|]. intros it x Hit. congruence.
  - split; [|done]. intros _. by apply conforms_scalar.
  - split; [|done]. intros _. by apply conforms_scalar.
  - split; [|done]. intros _. by apply conforms_scalar.
  - split; [|done]. intros _. by apply conforms_scalar.
Qed.

(** Where a violation of the loops comes from. *)
Lemma members_violation (f : string -> json -> JSchema -> option schemaViolation)
    (unknown : string -> schemaViolation) (s : JSchema) ms v :
  (fix loop (ms : list (string * json)) : option schemaViolation :=
     match ms with
     | [] => None
     | (name, child) :: ms' =>
         match lookup_entry name (Properties s) with
         | None => if AllowUnknown s then loop ms' else Some (unknown name)
         | Some property =>
             match f name child property with Some v => Some v | None => loop ms' end
         end
     end) ms = Some v ->
  (exists name, v = unknown name) ∨
  exists name child p, (name, child) ∈ ms ∧ lookup_entry name (Properties s) = Some p ∧
    f name child p = Some v.
Proof.
  induction ms as [|[k m] ms IH]; [done|]. setoid_rewrite elem_of_cons.
  assert ((exists name, v = unknown name) ∨
    (exists name child p, (name, child) ∈ ms ∧ lookup_entry name (Properties s) = Some p ∧
      f name child p = Some v) ->
    (exists name, v = unknown name) ∨
    exists name child p, ((name, child) = (k, m) ∨ (name, child) ∈ ms) ∧
      lookup_entry name (Properties s) = Some p ∧ f name child p = Some v) as Hrest.
  { intros [H|(name & child & p & H1 & H2)]; [by left|right]. exists name, child, p. auto. }
  destruct (lookup_entry k (Properties s)) as [p|] eqn:E.
  - destruct (f k m p) as [w|] eqn:F; [|by intros H; apply Hrest, IH]. intros [= <-]. right.
    exists k, m, p. auto.
  - destruct (AllowUnknown s); [by intros H; apply Hrest, IH|]. intros [= <-]. left. by exists k.
Qed.

Lemma elements_violation (f : N -> json -> option schemaViolation) xs v : forall index,
  (fix loop (index : N) (xs : list json) : option schemaViolation :=
     match xs with
     | [] => None
     | child :: xs' =>
         match f index child with Some v => Some v | None => loop (index + 1)%N xs' end
     end) index xs = Some v -> exists i x, x ∈ xs ∧ f i x = Some v.
Proof.
  induction xs as [|x xs IH]; intros index; [done|]. setoid_rewrite elem_of_cons.
  destruct (f index x) as [w|] eqn:F.
  - intros [= <-]. exists index, x. auto.
  - intros H. destruct (IH _ H) as (i & y & Hy & Hf). exists i, y. auto.
Qed.

(** A value is never deeper than a valid schema. *)
Lemma validateValue_depth v : forall s path depth spath viol,
  validateSchemaDefinition s spath depth = Ok tt ->
  validateValue v s path depth = Some viol -> svCode viol <> "value_too_deep".
Proof.
  induction v as [ms IH|xs IH|str|num|bit|] using json_induction; intros s path depth spath viol Hs;
    destruct (validateSchemaDefinition_ok s spath depth Hs) as (Hd & Hp & Hi);
    cbn [validateValue valueType]; rewrite decide_False by lia;
    (case_decide as T; [by intros [= <-]|]); try done.
  - destruct (first_missing ms (Required s)) as [r|] eqn:R; [by intros [= <-]|].
    intros [(name & ->)|(name & child & p & Hin & E & F)]%(members_violation
      (fun name child p => validateValue child p (path +:+ "." +:+ name) (depth + 1))
      (fun name => mkSchemaViolation "unknown_field" (Text "declared property") (path +:+ "." +:+ name)));
      [done|].
    eapply IH; [done| |exact F]. eapply Hp, lookup_entry_Some, E.
  - destruct (Items s) as [item|] eqn:E; [|done].
    intros (i & x & Hx & F)%(elements_violation (fun index child => validateValue child item
        (path +:+ "[" +:+ pretty index +:+ "]") (depth + 1))).
    eapply IH; [done|by apply Hi|exact F].
Qed.

(** ** Verdicts *)
Section Verdict.
Context {dec : AnyDecoder}.

(** The evidence can be judged: no harness error, valid references, a valid
    schema and complete evidence. *)
Definition judgeable (input : Input (list ascii)) (expected : JSchema) : Prop :=
  sound_evidence input ∧ validateSchemaDefinition expected "$" 0 = Ok tt ∧ Complete input = true.

(** The target sent one strict JSON document. *)
Definition document (raw : list ascii) (v : json) : Prop :=
  exists c, CanonicalizeJSON raw = Ok c ∧ decode_any c = Ok v.

Lemma judgeable_dec input expected : judgeable input expected ∨ ~ judgeable input expected.
Proof.
  unfold judgeable. pose proof (preflight_spec input) as P.
  destruct (preflight input) as [o|]; [tauto|].
  destruct (validateSchemaDefinition expected "$" 0) as [[]|e]; [|by right; intros (_ & ? & _)].
  destruct (Complete input); [left; tauto|by right; intros (_ & _ & ?)].
Qed.

Lemma EvaluateSchema_unjudged input expected :
  ~ judgeable input expected ->
  outVerdict (EvaluateSchema input expected) = VerdictInconclusive ∧
  TargetFailure (EvaluateSchema input expected) = false.
Proof.
  intros H. unfold EvaluateSchema. pose proof (preflight_spec input) as P.
  destruct (preflight input) as [o|]; [tauto|].
  destruct (validateSchemaDefinition expected "$" 0) as [[]|e] eqn:D; [|done].
  destruct (Complete input) eqn:C; [|done]. destruct H. by split_and!.
Qed.

Lemma EvaluateSchema_judged input expected :
  judgeable input expected ->
  let o := EvaluateSchema input expected in
  ((outVerdict o = VerdictPass ∧ TargetFailure o = false ∧
    exists v, document (Value input) v ∧ conforms expected v) ∨
   (outVerdict o = VerdictFail ∧ TargetFailure o = true ∧
    ~ exists v, document (Value input) v ∧ conforms expected v)) ∧ outCode o <> "value_too_deep".
Proof.
  intros (Hs & Hd & Hc). unfold EvaluateSchema. pose proof (preflight_spec input) as P.
  destruct (preflight input) as [o|]; [tauto|]. rewrite Hd, Hc. unfold document.
  destruct (CanonicalizeJSON (Value input)) as [c|e] eqn:E.
  2: { split; [|done]. right. split_and!; [done..|]. intros (v & (c & H & _) & _). done. }
  destruct (decode_any c) as [v|e] eqn:F.
  2: { split; [|done]. right. split_and!; [done..|]. intros (v & (c' & H & H') & _). congruence. }
  destruct (validateValue v expected "$" 0) as [viol|] eqn:V.
  - split; [|by eapply validateValue_depth]. right. split_and!; [done..|].
    intros (v' & (c' & H & H') & H2). assert (v' = v) as -> by congruence.
    apply (validateValue_conforms v expected "$" 0 "$" Hd) in H2. congruence.
  - split; [|done]. left. split_and!; [done..|]. exists v. split; [by exists c|].
    by apply (validateValue_conforms v expected "$" 0 "$" Hd).
Qed.

(** The schema oracle decides conformance: the target is failed exactly
    when the evidence can be judged and what it sent is not a strict JSON
    document that conforms to the schema, it passes exactly when the evidence
    can be judged and it is one, and otherwise the verdict is inconclusive
    and nobody is blamed; and on evidence that can be judged the depth limit
    is never the reason. *)
Theorem schema_oracle_decides_conformance (input : Input (list ascii)) (expected : JSchema) :
  let o := EvaluateSchema input expected in
  (outVerdict o = VerdictFail <->
     judgeable input expected ∧ ~ exists v, document (Value input) v ∧ conforms expected v) ∧
  (outVerdict o = VerdictPass <->
     judgeable input expected ∧ exists v, document (Value input) v ∧ conforms expected v) ∧
  (TargetFailure o = true <-> outVerdict o = VerdictFail) ∧
  (judgeable input expected -> outCode o <> "value_too_deep") ∧
  (~ judgeable input expected -> outVerdict o = VerdictInconclusive).
Proof.
  intros o. destruct (judgeable_dec input expected) as [J|J].
  - assert (VerdictPass <> VerdictFail) by done. assert (VerdictFail <> VerdictPass) by done.
    destruct (EvaluateSchema_judged input expected J) as [[(H1 & H2 & H3)|(H1 & H2 & H3)] H4];
      fold o in H1, H2, H4; rewrite H1, H2; split_and!; try tauto; try done; split; done || tauto.
  - destruct (EvaluateSchema_unjudged input expected J) as [H1 H2]. fold o in H1, H2.
    rewrite H1, H2. split_and!; try tauto; split; try done; tauto.
Qed.
End Verdict.
