(* ===== verification/Redaction.v ===== *)
(** * internal/redaction: sanitizing before persistence

    Headers, JSON and text are rewritten before anything is stored (RedactURL
    is not modelled).
    The detectors are the regular expressions of the source on the engine of
    Regex.v.  A decoded [map[string]any] is its entries in the order in which
    they are visited, and rewriting it in place gives the new entries. *)
From Stdlib Require Import ZArith Ascii String Lia.
From stdpp Require Import base gmap sets list strings.
From S2P Require Import Prelude Sorting Regex Schema Canonical OracleSchema.
Local Open Scope Z_scope.
Local Open Scope string_scope.
Local Open Scope list_scope.

Definition Replacement : string := "[REDACTED]".

Definition defaultSensitiveNames : list string :=
  ["authorization"; "proxy-authorization"; "x-api-key"; "api-key"; "api_key"; "cookie"; "set-cookie";
   "access_token"; "refresh_token"; "client_secret"; "password"; "secret"; "token"].

(** ** Detectors *)
Record detector := mkDetector { dtID : string; dtPattern : regex }.

Definition rclass (p : ascii -> bool) : regex := RClass p.
Definition bounded (r : regex) : regex := RSeq RWord (RSeq r RWord).

(** [-----BEGIN (?:[A-Z0-9 ]+ )?PRIVATE KEY-----] *)
Definition upper_label : regex := rclass (fun c => is_upper c || is_digit c || is_byte 32 c).
Definition private_key : regex :=
  rseq [rliteral "-----BEGIN "; RAlt (RSeq (at_least 1 upper_label) (rchar " ")) REmpty;
        rliteral "PRIVATE KEY-----"].

(** [(?i)\bbearer[ \t]+[A-Za-z0-9._~+/=-]{8,}]: folding adds the long s and
    the Kelvin sign to the letters of the class. *)
Definition fold_literal (s : string) : regex :=
  rseq ((fun c => RClass (fun a => bool_decide (a = c) || (is_upper a && bool_decide (ascii_of_N (byte a + 32) = c))%bool))
        <$> list_ascii_of_string s).
Definition long_s : regex := rseq (rchar <$> [ascii_of_nat 197; ascii_of_nat 191]).
Definition kelvin : regex := rseq (rchar <$> [ascii_of_nat 226; ascii_of_nat 132; ascii_of_nat 170]).
Definition token_char (c : ascii) : bool := is_alnum c || is_one_of "._~+/=-" c.
Definition bearer_char : regex := RAlt (rclass token_char) (RAlt long_s kelvin).
Definition bearer_prefix : regex :=
  rseq [fold_literal "bearer"; at_least 1 (rclass (fun c => is_byte 32 c || is_byte 9 c)); rseq (rtimes 8 bearer_char)].
Definition bearer_token : regex := RSeq RWord (RSeq bearer_prefix (RStar bearer_char)).

(** [\beyJ[A-Za-z0-9_-]{8,}\.[A-Za-z0-9_-]{8,}\.[A-Za-z0-9_-]{8,}\b] *)
Definition base64url : regex := rclass (fun c => is_alnum c || is_one_of "_-" c).
Definition jwt : regex :=
  bounded (rseq [rliteral "eyJ"; at_least 8 base64url; rchar "."; at_least 8 base64url; rchar "."; at_least 8 base64url]).

(** [\b(?:gh[opusr]_[A-Za-z0-9]{20,}|github_pat_[A-Za-z0-9_]{20,})\b] *)
Definition github_token : regex :=
  bounded (RAlt
    (rseq [rliteral "gh"; rclass (is_one_of "opusr"); rchar "_"; at_least 20 (rclass is_alnum)])
    (rseq [rliteral "github_pat_"; at_least 20 (rclass (fun c => is_alnum c || is_byte 95 c))])).

(** [\b(?:AKIA|ASIA)[A-Z0-9]{16}\b] *)
Definition aws_access_key : regex :=
  bounded (RSeq (RAlt (rliteral "AKIA") (rliteral "ASIA"))
             (rseq (rtimes 16 (rclass (fun c => is_upper c || is_digit c))))).

Definition detectors : list detector :=
  [mkDetector "private-key" private_key; mkDetector "bearer-token" bearer_token; mkDetector "jwt" jwt;
   mkDetector "github-token" github_token; mkDetector "aws-access-key" aws_access_key].

(** ** Reports *)
Record RedactionFinding := mkRedactionFinding { rfRuleID : string; rfCount : Z }.
Definition Report := list RedactionFinding.
Definition Empty (report : Report) : bool := bool_decide (report = []).

Abbreviation Counts := (gmap string Z).
Definition add_count (id : string) (n : Z) (counts : Counts) : Counts :=
  <[id := default 0 (counts !! id) + n]> counts.
Definition mergeCounts (counts : Counts) (report : Report) : Counts :=
  foldl (fun c f => add_count (rfRuleID f) (rfCount f) c) counts report.
Definition makeReport (counts : Counts) : Report :=
  (fun key => mkRedactionFinding key (default 0 (counts !! key))) <$> sort_Strings (range counts).*1.

Record SanitizedPayload := mkSanitizedPayload { spData : list ascii; spReport : Report; spClass : string }.
Definition Size (payload : SanitizedPayload) : Z := Z.of_nat (length (spData payload)).

(** ** The redactor *)
Record Redactor := mkRedactor { sensitiveNames : gset string; canaries : list (list ascii) }.

Class RedactionLibrary := {
  redaction_decoder :: AnyDecoder;
  (** [strings.ToLower], which folds Unicode, and [json.Marshal] at [any]. *)
  lower : string -> string;
  Marshal_any : json -> result error (list ascii)
}.

Definition bytes_Contains (s sub : list ascii) : bool :=
  (fix search (s : list ascii) : bool :=
     bool_decide (take (length sub) s = sub) || match s with [] => false | _ :: s' => search s' end) s.

Definition replacement_bytes : list ascii := list_ascii_of_string Replacement.

(** One detector, then one canary, of [RedactText]. *)
Definition replace_matches (r : regex) (id : string) (s : list ascii * Counts) : list ascii * Counts :=
  let '(output, counts) := s in
  match replace_all r replacement_bytes None 0 output with
  | (_, 0%nat) => (output, counts)
  | (output', n) => (output', add_count id (Z.of_nat n) counts)
  end.

Definition detect (output : list ascii) (counts : Counts) : list ascii * Counts :=
  foldl (fun s d => replace_matches (dtPattern d) (dtID d) s) (output, counts) detectors.

Definition RedactText (redactor : Redactor) (raw : list ascii) : list ascii * Report :=
  let s := detect raw ∅ in
  let '(output, counts) :=
    foldl (fun s canary => replace_matches (rseq (rchar <$> canary)) "secret-canary" s) s (canaries redactor) in
  (output, makeReport counts).

Definition AssertNoCanary (redactor : Redactor) (raw : list ascii) : result error unit :=
  for_each (fun canary => err_if (bytes_Contains raw canary = true)
    (ErrorNew (Text "secret canary remained after redaction"))) (canaries redactor).

Definition sensitive_suffixes : list string :=
  ["_token"; "-token"; "_secret"; "-secret"; "_password"; "-password"; "_api_key"; "-api-key"].

Section Redact.
Context {lib : RedactionLibrary}.

(** [New]. *)
Definition NewRedactor (extraNames : list string) (secrets : list (list ascii)) : result error Redactor :=
  let normalized := (fun name => lower (TrimSpace name)) <$> defaultSensitiveNames ++ extraNames in
  for_each (fun name => err_if (name = "") (ErrorNew (Text "sensitive field name cannot be empty"))) normalized;;
  for_each (fun canary => err_if ((length canary < 8)%nat)
    (ErrorNew (Text "secret canary must contain at least 8 bytes"))) secrets;;
  mret (mkRedactor (list_to_set normalized) secrets).

Context (redactor : Redactor).

Definition isSensitiveName (name : string) : bool :=
  let normalized := lower (TrimSpace name) in
  bool_decide (normalized ∈ sensitiveNames redactor) || existsb (HasSuffix normalized) sensitive_suffixes.

(** [RedactText([]byte(text))] as a string, with the counts merged. *)
Definition redact_string (text : string) (counts : Counts) : string * Counts :=
  let '(sanitized, report) := RedactText redactor (list_ascii_of_string text) in
  (string_of_list_ascii sanitized, mergeCounts counts report).

Fixpoint composite_members (ms : list (string * json)) (counts : Counts) : list (string * json) * Counts :=
  match ms with
  | [] => ([], counts)
  | (key, item) :: ms' =>
      let '(item', counts) :=
        match item with
        | JString text =>
            if decide (text = Replacement) then (item, counts)
            else let '(text', counts) := redact_string text counts in (JString text', counts)
        | _ => (item, counts)
        end in
      let '(rest, counts) := composite_members ms' counts in
      ((key, item') :: rest, counts)
  end.

Fixpoint composite_elements (xs : list json) (counts : Counts) : list json * Counts :=
  match xs with
  | [] => ([], counts)
  | item :: xs' =>
      let '(item', counts) :=
        match item with
        | JString text => let '(text', counts) := redact_string text counts in (JString text', counts)
        | _ => (item, counts)
        end in
      let '(rest, counts) := composite_elements xs' counts in
      (item' :: rest, counts)
  end.

Definition redactCompositeStrings (value : json) (counts : Counts) : json * Counts :=
  match value with
  | JObject ms => let '(ms', counts) := composite_members ms counts in (JObject ms', counts)
  | JArray xs => let '(xs', counts) := composite_elements xs counts in (JArray xs', counts)
  | _ => (value, counts)
  end.

Definition sensitive_json_field : string := "sensitive-json-field".

Fixpoint walk (value : json) (counts : Counts) : json * Counts :=
  match value with
  | JObject ms =>
      let '(ms', counts) :=
        (fix members (ms : list (string * json)) (counts : Counts) :=
           match ms with
           | [] => ([], counts)
           | (key, item) :: ms' =>
               let '(item', counts) :=
                 if isSensitiveName key then (JString Replacement, add_count sensitive_json_field 1 counts)
                 else walk item counts in
               let '(rest, counts) := members ms' counts in
               ((key, item') :: rest, counts)
           end) ms counts in
      redactCompositeStrings (JObject ms') counts
  | JArray xs =>
      let '(xs', counts) :=
        (fix elements (xs : list json) (counts : Counts) :=
           match xs with
           | [] => ([], counts)
           | item :: xs' =>
               let '(item', counts) := walk item counts in
               let '(rest, counts) := elements xs' counts in
               (item' :: rest, counts)
           end) xs counts in
      redactCompositeStrings (JArray xs') counts
  | _ => redactCompositeStrings value counts
  end.

Definition RedactJSON (raw : list ascii) : result error (list ascii * Report) :=
  canonical ← wrap (Wrapf (Text "validate JSON for redaction: %w")) (CanonicalizeJSON raw);
  value ← wrap (Wrapf (Text "decode JSON for redaction: %w")) (decode_any canonical);
  let '(value, counts) := walk value ∅ in
  encoded ← wrap (Wrapf (Text "encode redacted JSON: %w")) (Marshal_any value);
  AssertNoCanary redactor encoded;;
  mret (encoded, makeReport counts).

Definition SanitizeJSON (raw : list ascii) : result error SanitizedPayload :=
  '(data, report) ← RedactJSON raw;
  mret (mkSanitizedPayload data report "redacted_json").

Definition SanitizeText (raw : list ascii) : result error SanitizedPayload :=
  let '(data, report) := RedactText redactor raw in
  AssertNoCanary redactor data;;
  mret (mkSanitizedPayload data report "redacted_text").

(** The values of one header or query parameter, sanitized one by one. *)
Fixpoint redact_values (values : list string) (counts : Counts) : list string * Counts :=
  match values with
  | [] => ([], counts)
  | value :: rest =>
      let '(value', counts) := redact_string value counts in
      let '(rest', counts) := redact_values rest counts in
      (value' :: rest', counts)
  end.

(** [name] is a header name; [Add] stores under its canonical form, which the
    caller of net/http already uses for a parsed header. *)
Definition redact_header (CanonicalHeaderKey : string -> string)
    (s : gmap string (list string) * Counts) (header : string * list string)
    : gmap string (list string) * Counts :=
  let '(output, counts) := s in
  let '(name, values) := header in
  if isSensitiveName name then
    (<[name := [Replacement]]> output, add_count "sensitive-header" (Z.of_nat (length values)) counts)
  else
    let '(values', counts) := redact_values values counts in
    (match values' with
     | [] => output
     | _ => let key := CanonicalHeaderKey name in
            <[key := default [] (output !! key) ++ values']> output
     end, counts).

Definition RedactHeaders (CanonicalHeaderKey : string -> string) (headers : gmap string (list string))
    : gmap string (list string) * Report :=
  let '(output, counts) := foldl (redact_header CanonicalHeaderKey) (∅, ∅) (range headers) in
  (output, makeReport counts).
End Redact.
