(* ===== verification/Evidence.v ===== *)
(** * pkg/schema/evidence.go: evidence envelopes

    One observation at one capture layer, with its validator. *)
From Stdlib Require Import ZArith Ascii String Lia.
From stdpp Require Import base gmap sets list strings.
From S2P Require Import Prelude Schema Canonical Documents.
Local Open Scope Z_scope.
Local Open Scope string_scope.
Local Open Scope list_scope.

Definition CaptureLayer := string.
Definition LayerUpstreamApplication : CaptureLayer := "upstream_application_observation".
Definition LayerProxyForwarded : CaptureLayer := "proxy_forwarded_observation".
Definition LayerClientSDK : CaptureLayer := "client_sdk_observation".
Definition LayerSanitizedPersisted : CaptureLayer := "sanitized_persisted_evidence".

Definition InstrumentationMode := string.
Definition InstrumentationDirect : InstrumentationMode := "direct_transport".
Definition InstrumentationProxy : InstrumentationMode := "recording_proxy".
Definition InstrumentationFixture : InstrumentationMode := "fixture_replay".
Definition InstrumentationClient : InstrumentationMode := "client_native".

Definition Direction := string.
Definition DirectionCoreToTarget : Direction := "core_to_target".
Definition DirectionTargetToCore : Direction := "target_to_core".
Definition DirectionProxyToClient : Direction := "proxy_to_client".
Definition DirectionClientToProxy : Direction := "client_to_proxy".
Definition DirectionDriverToCore : Direction := "driver_to_core".

Record RedactionRecord := mkRedactionRecord { rrRuleID : string; rrFieldClass : string; rrCount : Z }.
Record EvidenceRelation := mkEvidenceRelation { erRelation : string; erTarget : ObjectRef }.

Record Evidence := mkEvidence {
  eviMeta : EnvelopeMeta;
  eviEvidenceID : Digest;
  eviRunID : InstanceID;
  eviInvocationID : InstanceID;
  eviAttemptID : InstanceID;
  eviSequence : Z;
  eviCaptureLayer : CaptureLayer;
  eviInstrumentationMode : InstrumentationMode;
  eviDirection : Direction;
  eviKind : string;
  eviMonotonicOffsetNS : Z;
  eviByteOffset : option Z;
  eviEventOffset : option Z;
  eviPayloadRef : option ObjectRef;
  eviPayloadDigest : option Digest;
  eviUnavailableReason : string;
  eviRedactions : list RedactionRecord;
  eviRelations : list EvidenceRelation
}.

Definition eviObjectRef (evidence : Evidence) : ObjectRef := emObjectRef (eviMeta evidence).

Definition capture_layers : list CaptureLayer :=
  [LayerUpstreamApplication; LayerProxyForwarded; LayerClientSDK; LayerSanitizedPersisted].
Definition instrumentation_modes : list InstrumentationMode :=
  [InstrumentationDirect; InstrumentationProxy; InstrumentationFixture; InstrumentationClient].
Definition directions : list Direction :=
  [DirectionCoreToTarget; DirectionTargetToCore; DirectionProxyToClient; DirectionClientToProxy;
   DirectionDriverToCore].

Definition validEvidenceObservationPoint (layer : CaptureLayer) (mode : InstrumentationMode)
    (direction : Direction) : bool :=
  if decide (layer = LayerSanitizedPersisted) then true
  else if decide (layer = LayerUpstreamApplication) then
    bool_decide (mode ∈ [InstrumentationDirect; InstrumentationFixture] ∧
                 direction ∈ [DirectionCoreToTarget; DirectionTargetToCore])
  else if decide (layer = LayerProxyForwarded) then
    bool_decide (mode = InstrumentationProxy ∧ direction ∈ [DirectionProxyToClient; DirectionClientToProxy])
  else if decide (layer = LayerClientSDK) then
    bool_decide (mode ∈ [InstrumentationClient; InstrumentationFixture] ∧ direction = DirectionDriverToCore)
  else false.

(** [offset != nil && *offset < 0]. *)
Definition negative (offset : option Z) : bool :=
  match offset with Some z => bool_decide (z < 0) | None => false end.

Section Validate.
Context {lib : DocumentLibrary} {ro : RangeOrder string string}.

(** [for name, id := range map[string]InstanceID{...}]. *)
Definition named_ids (l : list (string * InstanceID)) : result error unit :=
  for_each (fun '(name, id) => wrap (Wrapf (Sprintf "%s ID: %w" [FStr name])) (InstanceID_Validate id))
    (range (list_to_map l : gmap string string)).

Definition payload_check (evidence : Evidence) (ref : ObjectRef) : result error unit :=
  wrap (Wrapf (Text "payload ref: %w")) (ObjectRef_Validate ref);;
  err_if (refKind ref ≠ "Payload" ∨ refInstanceID ref ≠ "")
    (ErrorNew (Text "payload_ref must be a content-addressed Payload ref"));;
  err_if (eviPayloadDigest evidence ≠ Some (refContentDigest ref))
    (ErrorNew (Text "payload digest does not match payload_ref")).

Definition redaction_check (redaction : RedactionRecord) : result error unit :=
  err_if (rrRuleID redaction = "" ∨ rrFieldClass redaction = "" ∨ rrCount redaction <= 0)
    (ErrorNew (Text "redaction records require rule, field class, and positive count")).

Definition relation_check (relation : EvidenceRelation) : result error unit :=
  err_if (TrimSpace (erRelation relation) = "") (ErrorNew (Text "evidence relation name is required"));;
  wrap (Wrapf (Text "evidence relation target: %w")) (ObjectRef_Validate (erTarget relation)).

Definition Evidence_Validate (evidence : Evidence) : result error unit :=
  EnvelopeMeta_Validate (eviMeta evidence);;
  err_if (emKind (eviMeta evidence) ≠ "Evidence" ∨ eviEvidenceID evidence ≠ emContentDigest (eviMeta evidence))
    (ErrorNew (Text "evidence identity does not match its envelope"));;
  named_ids [("run", eviRunID evidence); ("invocation", eviInvocationID evidence);
             ("attempt", eviAttemptID evidence)];;
  err_if (eviCaptureLayer evidence ∉ capture_layers)
    (ErrorNew (Sprintf "invalid capture layer %q" [FStr (eviCaptureLayer evidence)]));;
  err_if (eviInstrumentationMode evidence ∉ instrumentation_modes)
    (ErrorNew (Sprintf "invalid instrumentation mode %q" [FStr (eviInstrumentationMode evidence)]));;
  err_if (eviDirection evidence ∉ directions)
    (ErrorNew (Sprintf "invalid evidence direction %q" [FStr (eviDirection evidence)]));;
  err_if (validEvidenceObservationPoint (eviCaptureLayer evidence) (eviInstrumentationMode evidence)
            (eviDirection evidence) = false)
    (ErrorNew (Sprintf "instrumentation mode %q and direction %q cannot describe capture layer %q"
       [FStr (eviInstrumentationMode evidence); FStr (eviDirection evidence); FStr (eviCaptureLayer evidence)]));;
  err_if (eviSequence evidence = 0 ∨ eviMonotonicOffsetNS evidence < 0 ∨ eviKind evidence = "")
    (ErrorNew (Text "evidence requires a positive sequence, nonnegative offset, and kind"));;
  err_if (negative (eviByteOffset evidence) = true) (ErrorNew (Text "evidence byte_offset cannot be negative"));;
  err_if (negative (eviEventOffset evidence) = true) (ErrorNew (Text "evidence event_offset cannot be negative"));;
  err_if (is_Some (eviPayloadRef evidence) ∧ eviPayloadDigest evidence = None ∨
          eviPayloadRef evidence = None ∧ is_Some (eviPayloadDigest evidence))
    (ErrorNew (Text "payload_ref and payload_digest must be present together"));;
  err_if (eviPayloadRef evidence = None ∧ eviUnavailableReason evidence = "")
    (ErrorNew (Text "missing payload requires unavailable_reason"));;
  err_if (is_Some (eviPayloadRef evidence) ∧ eviUnavailableReason evidence ≠ "")
    (ErrorNew (Text "available payload cannot also declare unavailable_reason"));;
  match eviPayloadRef evidence with Some ref => payload_check evidence ref | None => mret tt end;;
  for_each redaction_check (eviRedactions evidence);;
  for_each relation_check (eviRelations evidence).
End Validate.
