(* ===== verification/CAS.v ===== *)
(** * internal/cas: the content-addressed store

    store.go, with file_identity_unix.go and dirsync_unix.go, on a file
    system that is the class [FileSystem]: every call of package os may
    answer anything and change the world [W], so other processes, races and
    crashes between two calls are included.  A path is the list of its
    components below the root of the store; [[..]] is the parent of the root.
    A [Store] is what [Open] returns: never nil, with its identity and with
    the platform's directory sync.  Overwriting buffers with zeros leaves no
    trace in the results and is left out. *)
From Stdlib Require Import ZArith Ascii String Lia.
From stdpp Require Import base gmap sets list strings.
From S2P Require Import Prelude Schema Canonical Documents Redaction Evidence.
Local Open Scope Z_scope.
Local Open Scope string_scope.
Local Open Scope list_scope.

Definition DefaultMaxObjectBytes : Z := Z.shiftl 256 20.
Definition EvidenceSchemaVersion : string := "urn:agentapi-doctor:evidence:v1alpha2".
Definition maxEvidenceRelationDepth : nat := 32.

Definition ErrCorruptObject : string := "CAS object digest mismatch".
Definition ErrObjectConflict : string := "CAS object identity already has different content".
Definition ErrRootReplaced : string := "CAS root identity changed".
Definition ErrNotExist : string := "file does not exist".
Definition ErrExist : string := "file already exists".

(** ** The file system *)
Abbreviation Path := (list string).

(** [os.FileInfo]; the identity is the device and inode that [os.SameFile]
    compares. *)
Record FileInfo := mkFileInfo {
  fiSymlink : bool;
  fiIsDir : bool;
  fiIsRegular : bool;
  fiSize : Z;
  fiIdentity : Z
}.
Definition SameFile (a b : FileInfo) : bool := bool_decide (fiIdentity a = fiIdentity b).

Class FileSystem (W File : Type) := {
  fs_ctxErr : GoM W error unit;
  fs_MkdirAll : GoM W error unit;
  fs_Lstat : Path -> GoM W error FileInfo;
  fs_Mkdir : Path -> GoM W error unit;
  fs_Open : Path -> GoM W error File;
  fs_CreateTemp : Path -> GoM W error (Path * File);
  fs_Link : Path -> Path -> GoM W error unit;
  fs_Remove : Path -> GoM W error unit;
  file_Stat : File -> GoM W error FileInfo;
  file_Chmod : File -> GoM W error unit;
  file_Write : File -> list ascii -> GoM W error unit;
  file_Sync : File -> GoM W error unit;
  file_Close : File -> GoM W error unit;
  (** [io.ReadAll(io.LimitReader(file, limit))] *)
  file_ReadAll : File -> Z -> GoM W error (list ascii)
}.

(** [encoding/json] at the types of this package. *)
Record evidenceProjection := mkEvidenceProjection {
  epSchemaVersion : string;
  epKind : string;
  epProducer : Producer;
  epCreatedAt : Time;
  epExtensions : gmap string string;
  epRunID : InstanceID;
  epInvocationID : InstanceID;
  epAttemptID : InstanceID;
  epSequence : Z;
  epCaptureLayer : CaptureLayer;
  epInstrumentationMode : InstrumentationMode;
  epDirection : Direction;
  epEvidenceKind : string;
  epMonotonicOffsetNS : Z;
  epByteOffset : option Z;
  epEventOffset : option Z;
  epPayloadRef : ObjectRef;
  epPayloadDigest : Digest;
  epRedactions : list RedactionRecord;
  epRelations : list EvidenceRelation
}.

Class EvidenceCodec := {
  Marshal_Evidence : Evidence -> result error (list ascii);
  Marshal_projection : evidenceProjection -> result error (list ascii);
  (** [Decode] with [DisallowUnknownFields], and what a second [Decode]
      answers. *)
  Decode_Evidence : list ascii -> result error (Evidence * result error unit)
}.

#[export] Instance ObjectRef_countable : Countable ObjectRef.
Proof.
  refine (inj_countable' (fun r => (refKind r, refInstanceID r, refContentDigest r))
            (fun '(k, i, d) => mkObjectRef k i d) _). by intros [].
Defined.

(** ** Errors and deferred calls *)
Definition wrapM {S E E' A} (f : E -> E') (m : GoM S E A) : GoM S E' A :=
  fun s => let '(r, s') := m s in (wrap f r, s').
(** The answer of a call whose error is inspected and not returned. *)
Definition try {S E A} (m : GoM S E A) : GoM S E (result E A) := fun s => let '(r, s') := m s in (Ok r, s').
(** [defer cleanup()]. *)
Definition defer {S E A} (cleanup : S -> S) (m : GoM S E A) : GoM S E A :=
  fun s => let '(r, s') := m s in (r, cleanup s').

Definition corruptEvidence (e : error) : error := Wrapf (Text "%w: %v") (Sentinel ErrCorruptObject).

(** ** Paths *)
Definition path_Dir (p : Path) : Path := removelast p.
(** [filepath.Rel(store.root, p)] leads out of the root. *)
Definition escapes (p : Path) : Prop := head p = Some "..".
#[export] Instance escapes_dec p : Decision (escapes p).
Proof. apply _. Defined.

Definition hex_of (digest : Digest) : string := String.substring 7 (String.length digest - 7) digest.
Definition digestPath (base : Path) (digest : Digest) : result error Path :=
  Digest_Validate digest;;
  let hexDigest := hex_of digest in
  mret (base ++ [String.substring 0 2 hexDigest; String.substring 2 (String.length hexDigest - 2) hexDigest]).
Definition objectPath : Digest -> result error Path := digestPath ["sha256"].
Definition evidenceEnvelopePath : Digest -> result error Path :=
  digestPath ["objects"; "evidence"; "envelopes"; "sha256"].
Definition evidenceRefPath (ref : ObjectRef) : result error Path :=
  ObjectRef_Validate ref;;
  err_if (refKind ref ≠ "Evidence" ∨ refInstanceID ref ≠ "")
    (ErrorNew (Text "evidence ref must be content-addressed and have kind Evidence"));;
  digestPath ["objects"; "evidence"; "refs"; "sha256"] (refContentDigest ref).

(** ** The store *)
Record Store := mkStore { rootIdentity : FileInfo; maxObjectBytes : Z }.

Definition regularObject (store : Store) (info : FileInfo) : bool :=
  negb (fiSymlink info) && fiIsRegular info &&
  bool_decide (0 < fiSize info) && bool_decide (fiSize info <= maxObjectBytes store).

Section Store.
Context {W File : Type} {fs : FileSystem W File} {lib : DocumentLibrary} {codec : EvidenceCodec}.
Context {ro : RangeOrder string string}.
Context (store : Store).

Definition requireDirectory (path : Path) : GoM W error unit :=
  info ← fs_Lstat path;
  fail_if (fiSymlink info = true ∨ fiIsDir info = false)
    (ErrorNew (Text "path must be a non-symlink directory")).

(** [syncDirectoryPlatform] of dirsync_unix.go. *)
Definition syncDirectoryPlatform (path : Path) : GoM W error unit :=
  prior ← fs_Lstat path;
  fail_if (fiSymlink prior = true ∨ fiIsDir prior = false)
    (ErrorNew (Text "directory sync path must be a non-symlink directory"));;
  directory ← fs_Open path;
  defer (fun w => (file_Close directory w).2)
    (opened ← file_Stat directory;
     fail_if (fiIsDir opened = false ∨ SameFile prior opened = false)
       (ErrorNew (Text "directory changed before sync"));;
     file_Sync directory;;
     later ← fs_Lstat path;
     fail_if (fiSymlink later = true ∨ fiIsDir later = false ∨ SameFile opened later = false)
       (ErrorNew (Text "directory changed during sync"))).

Definition validateRoot : GoM W error unit :=
  current ← wrapM (fun _ => Wrapf (Text "%w: %v") (Sentinel ErrRootReplaced)) (fs_Lstat []);
  fail_if (fiSymlink current = true ∨ fiIsDir current = false ∨ SameFile (rootIdentity store) current = false)
    (Sentinel ErrRootReplaced).

(** [fmt.Errorf("...: %w", store.rootAwareError(err))] for the error of [m]. *)
Definition root_aware {A} (f : error -> error) (m : GoM W error A) : GoM W error A :=
  answer ← try m;
  match answer with
  | Ok a => mret a
  | Err e => wrapM f validateRoot;; fail (f e)
  end.

Definition syncDirectory (path : Path) : GoM W error unit :=
  validateRoot;;
  fail_if (escapes path) (ErrorNew (Text "CAS directory sync path escapes its root"));;
  syncDirectoryPlatform path;;
  validateRoot.

(** One component of [checkDirectory]. *)
Definition check_component (create : bool) (current : Path) : GoM W error unit :=
  (if create then
     answer ← try (fs_Mkdir current);
     match answer with
     | Ok _ => mret tt
     | Err e => fail_if (errors_Is e ErrExist = false) e
     end
   else mret tt);;
  requireDirectory current;;
  (if create then
     validateRoot;;
     wrapM (Wrapf (Text "sync CAS directory %q: %w")) (syncDirectory current);;
     wrapM (Wrapf (Text "sync CAS directory parent %q: %w")) (syncDirectory (path_Dir current))
   else mret tt).

(** [current] is the part of the path that was walked. *)
Fixpoint check_components (create : bool) (current components : Path) : GoM W error unit :=
  match components with
  | [] => mret tt
  | component :: rest =>
      if decide (component = "" ∨ component = ".") then check_components create current rest
      else
        check_component create (current ++ [component]);;
        check_components create (current ++ [component]) rest
  end.

Definition checkDirectory (path : Path) (create : bool) : GoM W error unit :=
  validateRoot;;
  fail_if (escapes path) (ErrorNew (Text "CAS path escapes its root"));;
  match path with
  | [] => mret tt
  | _ => check_components create [] path;; validateRoot
  end.
Definition ensureDirectory (path : Path) : GoM W error unit := checkDirectory path true.

(** The reading of [readBoundedAfterLstat] once the file is open. *)
Definition read_open (path : Path) (prior : FileInfo) (file : File) : GoM W error (list ascii) :=
  opened ← file_Stat file;
  fail_if (regularObject store opened = false ∨ SameFile prior opened = false ∨ fiSize prior ≠ fiSize opened)
    (ErrorNew (Text "CAS object changed between lstat and open"));;
  let readLimit := int64_wrap (maxObjectBytes store + 1) in
  let readLimit := if decide (readLimit <= 0) then maxObjectBytes store else readLimit in
  data ← file_ReadAll file readLimit;
  later ← file_Stat file;
  pathAfter ← root_aware id (fs_Lstat path);
  fail_if (regularObject store later = false ∨ regularObject store pathAfter = false ∨
           SameFile opened later = false ∨ SameFile opened pathAfter = false ∨
           fiSize opened ≠ fiSize later ∨ fiSize opened ≠ fiSize pathAfter ∨
           Z.of_nat (length data) ≠ fiSize opened)
    (ErrorNew (Text "CAS object changed or exceeded the configured limit during read"));;
  checkDirectory (path_Dir path) false;;
  validateRoot;;
  mret data.

(** [readBoundedAfterLstat] without its test hook. *)
Definition readBounded (path : Path) : GoM W error (list ascii) :=
  validateRoot;;
  checkDirectory (path_Dir path) false;;
  prior ← root_aware id (fs_Lstat path);
  fail_if (regularObject store prior = false)
    (ErrorNew (Text "CAS object must be a bounded regular non-symlink file"));;
  file ← root_aware id (fs_Open path);
  defer (fun w => (file_Close file w).2) (read_open path prior file).

Definition readVerified (path : Path) (expected : Digest) : GoM W error (list ascii) :=
  data ← readBounded path;
  fail_if (NewDigest data ≠ expected) (Sentinel ErrCorruptObject);;
  mret data.

(** The deferred removal of the temporary file of [putDigestBytes]. *)
Definition discard_temporary (name : Path) (identity : FileInfo) (file : File) (w : W) : W :=
  let w := (file_Close file w).2 in
  match validateRoot w with
  | (Err _, w) => w
  | (Ok _, w) =>
      match fs_Lstat name w with
      | (Ok current, w) =>
          if decide (fiSymlink current = false ∧ fiIsRegular current = true ∧ SameFile identity current = true)
          then (fs_Remove name w).2 else w
      | (Err _, w) => w
      end
  end.

(** [putDigestBytes] from the write of the temporary file on. *)
Definition commit_temporary (path : Path) (data : list ascii) (digest : Digest) (name : Path)
    (identity : FileInfo) (file : File) : GoM W error unit :=
  validateRoot;;
  root_aware (Wrapf (Text "set CAS object permissions: %w")) (file_Chmod file);;
  root_aware (Wrapf (Text "write CAS object: %w")) (file_Write file data);;
  root_aware (Wrapf (Text "sync CAS object: %w")) (file_Sync file);;
  written ← root_aware id (file_Stat file);
  fail_if (fiIsRegular written = false ∨ SameFile identity written = false ∨
           fiSize written ≠ Z.of_nat (length data))
    (ErrorNew (Text "CAS temporary object identity changed"));;
  root_aware (Wrapf (Text "close CAS object: %w")) (file_Close file);;
  validateRoot;;
  current ← root_aware id (fs_Lstat name);
  fail_if (fiSymlink current = true ∨ fiIsRegular current = false ∨ SameFile identity current = false ∨
           fiSize current ≠ Z.of_nat (length data))
    (ErrorNew (Text "CAS temporary object path changed before commit"));;
  linked ← try (fs_Link name path);
  (match linked with
   | Ok _ => mret tt
   | Err e => if errors_Is e ErrExist then mret tt
              else root_aware (Wrapf (Text "commit immutable CAS object: %w")) (fail e)
   end);;
  readVerified path digest;;
  current ← root_aware id (fs_Lstat name);
  fail_if (fiSymlink current = true ∨ fiIsRegular current = false ∨ SameFile identity current = false)
    (ErrorNew (Text "CAS temporary object path changed after commit"));;
  root_aware (Wrapf (Text "remove CAS temporary object: %w")) (fs_Remove name);;
  wrapM (Wrapf (Text "sync committed CAS object directory: %w")) (syncDirectory (path_Dir path));;
  validateRoot.

Definition putDigestBytes (path : Path) (data : list ascii) (digest : Digest) : GoM W error unit :=
  validateRoot;;
  let directory := path_Dir path in
  wrapM (Wrapf (Text "create CAS shard: %w")) (ensureDirectory directory);;
  existing ← try (readVerified path digest);
  match existing with
  | Ok _ =>
      wrapM (Wrapf (Text "sync existing CAS object directory: %w")) (syncDirectory directory);;
      validateRoot
  | Err e =>
      if errors_Is e ErrNotExist then
        '(name, file) ← root_aware (Wrapf (Text "create CAS temporary object: %w")) (fs_CreateTemp directory);
        identity ← try (file_Stat file);
        match identity with
        | Err e =>
            try (file_Close file);;
            root_aware id (fail e)
        | Ok identity =>
            defer (discard_temporary name identity file) (commit_temporary path data digest name identity file)
        end
      else fail e
  end.

(** ** Payloads *)
Definition Put (payload : SanitizedPayload) : GoM W error ObjectRef :=
  fs_ctxErr;;
  validateRoot;;
  fail_if (Size payload <= 0 ∨ Size payload > maxObjectBytes store)
    (ErrorNew (Sprintf "sanitized payload size must be between 1 and %d bytes" [FInt (maxObjectBytes store)]));;
  let data := spData payload in
  let digest := NewDigest data in
  path ← lift (objectPath digest);
  putDigestBytes path data digest;;
  validateRoot;;
  mret (mkObjectRef "Payload" "" digest).

Definition Get (digest : Digest) : GoM W error (list ascii) :=
  fs_ctxErr;;
  validateRoot;;
  path ← lift (objectPath digest);
  readVerified path digest.

Definition Verify (digest : Digest) : GoM W error unit :=
  Get digest;;
  mret tt.

(** ** Evidence envelopes *)
Definition evidenceProjectionOf (evidence : Evidence) (producer : Producer) (createdAt : Time)
    : result error evidenceProjection :=
  match eviPayloadRef evidence, eviPayloadDigest evidence with
  | Some ref, Some digest =>
      mret (mkEvidenceProjection EvidenceSchemaVersion "Evidence" producer createdAt
        (emExtensions (eviMeta evidence)) (eviRunID evidence) (eviInvocationID evidence) (eviAttemptID evidence)
        (eviSequence evidence) (eviCaptureLayer evidence) (eviInstrumentationMode evidence)
        (eviDirection evidence) (eviKind evidence) (eviMonotonicOffsetNS evidence) (eviByteOffset evidence)
        (eviEventOffset evidence) ref digest (eviRedactions evidence) (eviRelations evidence))
  | _, _ => Err (ErrorNew (Text "evidence projection requires payload_ref and payload_digest"))
  end.

Definition SealEvidenceMeta (producer : Producer) (createdAt : Time) (evidence : Evidence)
    : result error EnvelopeMeta :=
  projection ← evidenceProjectionOf evidence producer createdAt;
  SealMeta Marshal_projection EvidenceSchemaVersion "Evidence" "" producer createdAt projection.

Definition validateEvidence (evidence : Evidence) (expected : ObjectRef) : result error unit :=
  wrap (Wrapf (Text "evidence ref: %w")) (ObjectRef_Validate expected);;
  err_if (refKind expected ≠ "Evidence" ∨ refInstanceID expected ≠ "")
    (ErrorNew (Text "evidence store requires a content-addressed Evidence ref"));;
  wrap (Wrapf (Text "evidence validation: %w")) (Evidence_Validate evidence);;
  err_if (emSchemaVersion (eviMeta evidence) ≠ EvidenceSchemaVersion ∨ emKind (eviMeta evidence) ≠ "Evidence" ∨
          emInstanceID (eviMeta evidence) ≠ "")
    (ErrorNew (Text "evidence envelope has an unsupported schema or identity form"));;
  err_if (eviObjectRef evidence ≠ expected)
    (ErrorNew (Text "evidence ObjectRef does not match the requested reference"));;
  err_if (eviPayloadRef evidence = None ∨ eviPayloadDigest evidence = None)
    (ErrorNew (Text "persisted evidence requires a payload reference"));;
  err_if ((refKind <$> eviPayloadRef evidence) ≠ Some "Payload" ∨ (refInstanceID <$> eviPayloadRef evidence) ≠ Some "")
    (ErrorNew (Text "evidence payload_ref must be a content-addressed Payload ref"));;
  resealed ← wrap (Wrapf (Text "recompute evidence projection: %w"))
    (SealEvidenceMeta (emProducer (eviMeta evidence)) (emCreatedAt (eviMeta evidence)) evidence);
  err_if (emContentDigest resealed ≠ emContentDigest (eviMeta evidence) ∨
          emObjectRef resealed ≠ eviObjectRef evidence ∨ eviEvidenceID evidence ≠ emContentDigest resealed)
    (ErrorNew (Text "evidence immutable projection digest does not match its envelope")).

Definition decodeStrictJSON (raw : list ascii) : result error Evidence :=
  '(evidence, trailing) ← Decode_Evidence raw;
  match trailing with
  | Err e => if errors_Is e "EOF" then mret evidence else Err e
  | Ok _ => Err (ErrorNew (Text "trailing JSON value"))
  end.

(** The digest behind [evidence.PayloadRef], which the validator required. *)
Definition payload_digest (evidence : Evidence) : Digest :=
  match eviPayloadRef evidence with Some ref => refContentDigest ref | None => "" end.

Record evidenceTraversal := mkTraversal {
  visiting : gset ObjectRef;
  loaded : gmap ObjectRef Evidence
}.
Definition newEvidenceTraversal : evidenceTraversal := mkTraversal ∅ ∅.
Definition set_visiting (v : gset ObjectRef) (t : evidenceTraversal) : evidenceTraversal := mkTraversal v (loaded t).
Definition set_loaded (l : gmap ObjectRef Evidence) (t : evidenceTraversal) : evidenceTraversal :=
  mkTraversal (visiting t) l.

(** A call that does not touch the traversal. *)
Definition on_fs {A} (m : GoM W error A) : GoM (W * evidenceTraversal) error A :=
  fun '(w, t) => let '(r, w') := m w in (r, (w', t)).

Definition relation_target (load : ObjectRef -> GoM (W * evidenceTraversal) error Evidence)
    (relation : Z * EvidenceRelation) : GoM (W * evidenceTraversal) error unit :=
  let '(index, relation) := relation in
  let target := erTarget relation in
  lift (wrap (Wrapf (Sprintf "relation %d target: %w" [FInt index])) (ObjectRef_Validate target));;
  fail_if (refInstanceID target ≠ "")
    (ErrorNew (Sprintf "relation %d target must be content-addressed" [FInt index]));;
  if decide (refKind target = "Payload") then
    wrapM (Wrapf (Sprintf "relation %d Payload target: %w" [FInt index])) (on_fs (Verify (refContentDigest target)))
  else if decide (refKind target = "Evidence") then
    wrapM (Wrapf (Sprintf "relation %d Evidence target: %w" [FInt index])) (load target);;
    mret tt
  else fail (ErrorNew (Sprintf "relation %d target kind %q is unsupported" [FInt index; FStr (refKind target)])).

Definition resolveEvidenceRelations (load : ObjectRef -> GoM (W * evidenceTraversal) error Evidence)
    (evidence : Evidence) : GoM (W * evidenceTraversal) error unit :=
  for_eachM (relation_target load) (enumerate (eviRelations evidence)).

(** What [getEvidence] reads and checks of one envelope. *)
Definition read_envelope (ref : ObjectRef) : GoM W error Evidence :=
  path ← lift (evidenceRefPath ref);
  raw ← wrapM (fun e => if errors_Is e ErrNotExist then e else corruptEvidence e) (readBounded path);
  let envelopeDigest := NewDigest raw in
  envelopePath ← lift (wrap corruptEvidence (evidenceEnvelopePath envelopeDigest));
  content ← wrapM corruptEvidence (readVerified envelopePath envelopeDigest);
  fail_if (raw ≠ content) (corruptEvidence (ErrorNew (Text "evidence reference and envelope content differ")));;
  fail_if (CanonicalizeJSON raw ≠ Ok raw)
    (corruptEvidence (ErrorNew (Text "evidence envelope is not strict RFC 8785 canonical JSON")));;
  evidence ← lift (wrap (fun e => corruptEvidence (Wrapf (Text "decode Evidence envelope: %w") e)) (decodeStrictJSON raw));
  lift (wrap corruptEvidence (validateEvidence evidence ref));;
  wrapM (fun e => corruptEvidence (Wrapf (Text "resolve Evidence payload: %w") e)) (Verify (payload_digest evidence));;
  mret evidence.

(** [room] is [maxEvidenceRelationDepth + 1 - depth]: the depth limit is
    exceeded exactly when no room is left, so the recursion is structural. *)
Fixpoint getEvidence (room : nat) (ref : ObjectRef) : GoM (W * evidenceTraversal) error Evidence :=
  on_fs fs_ctxErr;;
  match room with
  | O => fail (corruptEvidence (ErrorNew (Text "evidence relation depth exceeds the configured limit")))
  | S room =>
      '(w, t) ← get;
      match loaded t !! ref with
      | Some evidence => mret evidence
      | None =>
          fail_if (ref ∈ visiting t) (corruptEvidence (ErrorNew (Text "evidence relation cycle detected")));;
          modify (fun '(w, t) => (w, set_visiting ({[ref]} ∪ visiting t) t));;
          defer (fun '(w, t) => (w, set_visiting (visiting t ∖ {[ref]}) t))
            (evidence ← on_fs (read_envelope ref);
             wrapM (fun e => corruptEvidence (Wrapf (Text "resolve Evidence relations: %w") e))
               (resolveEvidenceRelations (getEvidence room) evidence);;
             on_fs validateRoot;;
             modify (fun '(w, t) => (w, set_loaded (<[ref := evidence]> (loaded t)) t));;
             mret evidence)
      end
  end.

(** A traversal that starts in the state [t]. *)
Definition with_traversal {A} (t : evidenceTraversal) (m : GoM (W * evidenceTraversal) error A) : GoM W error A :=
  fun w => let '(r, (w', _)) := m (w, t) in (r, w').

Definition GetEvidence (ref : ObjectRef) : GoM W error Evidence :=
  fs_ctxErr;;
  validateRoot;;
  with_traversal newEvidenceTraversal (getEvidence (S maxEvidenceRelationDepth) ref).

Definition compareExistingEvidence (ref : ObjectRef) (expected : list ascii) : GoM W error ObjectRef :=
  current ← GetEvidence ref;
  encoded ← lift (wrap corruptEvidence (CanonicalMarshal Marshal_Evidence current));
  fail_if (encoded ≠ expected) (Sentinel ErrObjectConflict);;
  mret ref.

(** The reference exists already. *)
Definition existing_reference (ref : ObjectRef) (refPath : Path) (encoded : list ascii) : GoM W error ObjectRef :=
  wrapM (Wrapf (Text "sync existing Evidence reference directory: %w")) (syncDirectory (path_Dir refPath));;
  compareExistingEvidence ref encoded.

(** [PutEvidence] from the write of the envelope on. *)
Definition commit_reference (ref : ObjectRef) (refPath : Path) (encoded : list ascii) : GoM W error ObjectRef :=
  let envelopeDigest := NewDigest encoded in
  envelopePath ← lift (evidenceEnvelopePath envelopeDigest);
  wrapM (Wrapf (Text "persist canonical Evidence envelope bytes: %w"))
    (putDigestBytes envelopePath encoded envelopeDigest);;
  wrapM (Wrapf (Text "create Evidence reference shard: %w")) (ensureDirectory (path_Dir refPath));;
  validateRoot;;
  linked ← try (fs_Link envelopePath refPath);
  match linked with
  | Err e =>
      if errors_Is e ErrExist then existing_reference ref refPath encoded
      else root_aware (Wrapf (Text "commit immutable Evidence reference: %w")) (fail e)
  | Ok _ =>
      wrapM (Wrapf (Text "sync committed Evidence reference directory: %w")) (syncDirectory (path_Dir refPath));;
      validateRoot;;
      current ← GetEvidence ref;
      fail_if (CanonicalMarshal Marshal_Evidence current ≠ Ok encoded) (Sentinel ErrObjectConflict);;
      validateRoot;;
      mret ref
  end.

Definition PutEvidence (evidence : Evidence) : GoM W error ObjectRef :=
  fs_ctxErr;;
  validateRoot;;
  let ref := eviObjectRef evidence in
  lift (wrap (Wrapf (Text "persist Evidence envelope: %w")) (validateEvidence evidence ref));;
  wrapM (Wrapf (Text "persist Evidence envelope with unavailable payload: %w")) (Verify (payload_digest evidence));;
  wrapM (Wrapf (Text "persist Evidence envelope with unresolved relation: %w"))
    (with_traversal (mkTraversal {[ref]} ∅)
       (resolveEvidenceRelations (getEvidence maxEvidenceRelationDepth) evidence));;
  encoded ← lift (wrap (Wrapf (Text "encode Evidence envelope: %w")) (CanonicalMarshal Marshal_Evidence evidence));
  fail_if (length encoded = 0%nat ∨ Z.of_nat (length encoded) > maxObjectBytes store)
    (ErrorNew (Text "evidence envelope size is outside the configured limit"));;
  refPath ← lift (evidenceRefPath ref);
  stat ← try (fs_Lstat refPath);
  match stat with
  | Ok _ => existing_reference ref refPath encoded
  | Err e => if errors_Is e ErrNotExist then commit_reference ref refPath encoded else fail e
  end.
End Store.

(** [Open], of an absolute root. *)
Section Open.
Context {W File : Type} {fs : FileSystem W File}.

Definition Open (root : string) (limit : Z) : GoM W error Store :=
  fail_if (root = "" ∨ HasPrefix root "/" = false) (ErrorNew (Text "CAS root must be an absolute path"));;
  let limit := if decide (limit <= 0) then DefaultMaxObjectBytes else limit in
  prior ← try (fs_Lstat []);
  (match prior with
   | Ok _ => mret tt
   | Err e => fail_if (errors_Is e ErrNotExist = false) (Wrapf (Text "stat CAS root: %w") e)
   end);;
  wrapM (Wrapf (Text "create CAS root: %w")) fs_MkdirAll;;
  wrapM (Wrapf (Text "CAS root: %w")) (requireDirectory []);;
  (match prior with
   | Err _ =>
       wrapM (Wrapf (Text "sync CAS root parent: %w")) (syncDirectoryPlatform [".."]);;
       wrapM (Wrapf (Text "sync CAS root: %w")) (syncDirectoryPlatform [])
   | Ok _ => mret tt
   end);;
  identity ← wrapM (Wrapf (Text "stat CAS root identity: %w")) (fs_Lstat []);
  mret (mkStore identity limit).
End Open.
