(* ===== verification/Disk.v ===== *)
(** * An ordinary file system

    The instance of [FileSystem] in which nobody interferes: names are
    linked to inodes, calls fail only when the path is missing or taken. *)
From Stdlib Require Import ZArith Ascii String Lia.
From stdpp Require Import base gmap sets list strings pretty.
From S2P Require Import Prelude Schema CAS.
Local Open Scope Z_scope.
Local Open Scope string_scope.
Local Open Scope list_scope.

Inductive node :=
| Directory
| Regular (data : list ascii).

Record Disk := mkDisk {
  inodes : gmap Z node;
  names : gmap Path Z;
  nextInode : Z
}.

Definition missing : error := Sentinel ErrNotExist.
Definition taken : error := Sentinel ErrExist.

Definition info_of (inode : Z) (n : node) : FileInfo :=
  match n with
  | Directory => mkFileInfo false true false 4096 inode
  | Regular data => mkFileInfo false false true (Z.of_nat (length data)) inode
  end.

Definition disk_Stat (inode : Z) : GoM Disk error FileInfo := fun d =>
  match inodes d !! inode with Some n => (Ok (info_of inode n), d) | None => (Err missing, d) end.
Definition disk_Lookup (path : Path) : GoM Disk error Z := fun d =>
  match names d !! path with Some inode => (Ok inode, d) | None => (Err missing, d) end.
Definition disk_Lstat (path : Path) : GoM Disk error FileInfo :=
  inode ← disk_Lookup path;
  disk_Stat inode.

(** A new inode under a name that is not taken. *)
Definition disk_Create (path : Path) (n : node) : GoM Disk error Z := fun d =>
  match names d !! path with
  | Some _ => (Err taken, d)
  | None =>
      (Ok (nextInode d),
       mkDisk (<[nextInode d := n]> (inodes d)) (<[path := nextInode d]> (names d)) (nextInode d + 1))
  end.

Definition temporary_name (d : Disk) (directory : Path) : Path :=
  directory ++ [".put-" +:+ pretty (nextInode d)].

#[export] Instance disk_filesystem : FileSystem Disk Z := {
  fs_ctxErr := mret tt;
  fs_MkdirAll := fun d => match disk_Create [] Directory d with (_, d') => (Ok tt, d') end;
  fs_Lstat := disk_Lstat;
  fs_Mkdir path := disk_Create path Directory;; mret tt;
  fs_Open := disk_Lookup;
  fs_CreateTemp directory := fun d =>
    let name := temporary_name d directory in
    (inode ← disk_Create name (Regular []); mret (name, inode)) d;
  fs_Link old new := fun d =>
    match names d !! new, names d !! old with
    | Some _, _ => (Err taken, d)
    | None, Some inode => (Ok tt, mkDisk (inodes d) (<[new := inode]> (names d)) (nextInode d))
    | None, None => (Err missing, d)
    end;
  fs_Remove path := fun d => (Ok tt, mkDisk (inodes d) (delete path (names d)) (nextInode d));
  file_Stat := disk_Stat;
  file_Chmod _ := mret tt;
  file_Write inode data := fun d =>
    match inodes d !! inode with
    | Some (Regular old) => (Ok tt, mkDisk (<[inode := Regular (old ++ data)]> (inodes d)) (names d) (nextInode d))
    | _ => (Err missing, d)
    end;
  file_Sync _ := mret tt;
  file_Close _ := mret tt;
  file_ReadAll inode limit := fun d =>
    match inodes d !! inode with
    | Some (Regular data) => (Ok (take (Z.to_nat (Z.min limit (Z.of_nat (length data)))) data), d)
    | _ => (Err missing, d)
    end
}.

(** A disk with the directories that hold the root of a store and the root
    itself. *)
Definition empty_disk : Disk := mkDisk {[0 := Directory; 1 := Directory]} {[[".."] := 0; [] := 1]} 2.
Definition disk_store (limit : Z) : Store := mkStore (info_of 1 Directory) limit.
