(* ===== verification/CASSpec.v ===== *)
(** * What the content-addressed store returns

    For every file system, also one that other processes change or that
    fails at any call: bytes are returned only under their digest, and an
    envelope only with its whole relation graph. *)
From Stdlib Require Import ZArith Ascii String Lia.
From stdpp Require Import base gmap sets list strings.
From S2P Require Import Prelude Schema Canonical Documents Redaction Evidence CAS Disk.
Local Open Scope Z_scope.
Local Open Scope string_scope.
Local Open Scope list_scope.

(** ** Successful calls *)
Lemma bindM_Ok {S E A B} (m : GoM S E A) (k : A -> GoM S E B) b s s2 :
  (x ← m; k x) s = (Ok b, s2) <-> exists a s1, m s = (Ok a, s1) ∧ k a s1 = (Ok b, s2).
Proof. unfold mbind, gom_bind. destruct (m s) as [[a|e] s1]; naive_solver. Qed.

Lemma wrapM_Ok {S E E' A} (f : E -> E') (m : GoM S E A) a s s' :
  wrapM f m s = (Ok a, s') <-> m s = (Ok a, s').
Proof. unfold wrapM. destruct (m s) as [[x|e] s1]; unfold wrap; naive_solver. Qed.

Lemma fail_if_Ok {S E} (P : Prop) `{Decision P} (e : E) u (s s' : S) :
  fail_if P e s = (Ok u, s') <-> ~ P ∧ s' = s.
Proof. unfold fail_if, fail, mret, gom_ret. destruct u, (decide P); naive_solver. Qed.

Lemma lift_Ok {S E A} (r : result E A) a (s s' : S) : lift r s = (Ok a, s') <-> r = Ok a ∧ s' = s.
Proof. unfold lift. naive_solver. Qed.

Lemma try_Ok {S E A} (m : GoM S E A) r s s' : try m s = (Ok r, s') <-> m s = (r, s').
Proof. unfold try. destruct (m s) as [r' s1]. naive_solver. Qed.

Lemma defer_Ok {S E A} (c : S -> S) (m : GoM S E A) a s s' :
  defer c m s = (Ok a, s') <-> exists s1, m s = (Ok a, s1) ∧ s' = c s1.
Proof. unfold defer. destruct (m s) as [r s1]. naive_solver. Qed.

(** The next call of a successful sequence: its answer and what follows. *)
Ltac next_call H a s H1 := apply bindM_Ok in H as (a & s & H1 & H); cbn beta in H.
Ltac skip_call H :=
  let a := fresh "ignored" in let s := fresh "passed" in let H1 := fresh "Hskip" in
  next_call H a s H1; clear H1.

Section Safety.
Context {W File : Type} {fs : FileSystem W File} {lib : DocumentLibrary} {codec : EvidenceCodec}.
Context {ro : RangeOrder string string}.
Context (store : Store).

(** The size of a stored object. *)
Definition object_size (data : list ascii) : Prop := 0 < Z.of_nat (length data) <= maxObjectBytes store.

Lemma regularObject_size info : regularObject store info = true -> 0 < fiSize info <= maxObjectBytes store.
Proof. unfold regularObject. rewrite !andb_true_iff, !bool_decide_eq_true. tauto. Qed.

Lemma read_open_ok path prior file data w w' :
  read_open store path prior file w = (Ok data, w') -> object_size data.
Proof.
  unfold read_open. intros H. next_call H opened s1 H1. next_call H u s2 H2.
  apply fail_if_Ok in H2 as [H2 ->]. next_call H data' s3 H3. next_call H later s4 H4.
  next_call H pathAfter s5 H5. next_call H u2 s6 H6. apply fail_if_Ok in H6 as [H6 ->].
  do 2 skip_call H. injection H as <- _. unfold object_size.
  assert (Z.of_nat (length data') = fiSize opened) as -> by (destruct (decide (Z.of_nat (length data') = fiSize opened)); tauto).
  apply regularObject_size. destruct (regularObject store opened); tauto.
Qed.

Lemma readBounded_ok path data w w' : readBounded store path w = (Ok data, w') -> object_size data.
Proof.
  unfold readBounded. intros H. do 5 skip_call H.
  apply defer_Ok in H as (w1 & H & _). by eapply read_open_ok.
Qed.

Lemma readVerified_ok path expected data w w' :
  readVerified store path expected w = (Ok data, w') -> NewDigest data = expected ∧ object_size data.
Proof.
  unfold readVerified. intros H. next_call H data' s1 H1. next_call H u s2 H2.
  apply fail_if_Ok in H2 as [H2 ->]. injection H as <- _. split; [|by eapply readBounded_ok].
  by destruct (decide (NewDigest data' = expected)).
Qed.

Lemma Get_ok digest data w w' : Get store digest w = (Ok data, w') -> NewDigest data = digest ∧ object_size data.
Proof. unfold Get. intros H. do 3 skip_call H. by eapply readVerified_ok. Qed.

Lemma Verify_held digest w w' : Verify store digest w = (Ok tt, w') ->
  exists data, NewDigest data = digest ∧ object_size data.
Proof. unfold Verify. intros H. next_call H data s1 H1. exists data. by eapply Get_ok. Qed.

(** ** Envelopes *)

(** An envelope that may be answered for [ref]. *)
Record sound_envelope (ref : ObjectRef) (evidence : Evidence) : Prop := {
  se_valid : Evidence_Validate evidence = Ok tt;
  se_ref : eviObjectRef evidence = ref;
  se_kind : refKind ref = "Evidence" ∧ refInstanceID ref = "";
  (** the reference pins everything the projection holds *)
  se_pinned : exists projection,
    evidenceProjectionOf evidence (emProducer (eviMeta evidence)) (emCreatedAt (eviMeta evidence)) = Ok projection ∧
    CanonicalDigest Marshal_projection projection = Ok (refContentDigest ref);
  se_stored : exists raw, CanonicalizeJSON raw = Ok raw ∧ decodeStrictJSON raw = Ok evidence ∧ object_size raw;
  se_payload : exists data, NewDigest data = payload_digest evidence ∧ object_size data
}.

(** The relation graph below an envelope, of height at most [n]: it is
    complete and has no cycle. *)
Inductive resolved : nat -> ObjectRef -> Evidence -> Prop :=
| resolved_intro n ref evidence :
    sound_envelope ref evidence ->
    (forall relation, relation ∈ eviRelations evidence ->
       refInstanceID (erTarget relation) = "" ∧
       (refKind (erTarget relation) = "Payload" ∧
          (exists data, NewDigest data = refContentDigest (erTarget relation) ∧ object_size data) ∨
        refKind (erTarget relation) = "Evidence" ∧ exists evidence', resolved n (erTarget relation) evidence')) ->
    resolved (S n) ref evidence.

Lemma resolved_mono n : forall m ref evidence, (n <= m)%nat -> resolved n ref evidence -> resolved m ref evidence.
Proof.
  induction n as [|n IH]; intros [|m] ref evidence Hle H; inversion H as [? ? ? Hs Hr]; subst; [lia|].
  constructor; [done|]. intros relation Hin. destruct (Hr relation Hin) as [H1 [H2|(H2 & e & He)]]; [auto|].
  split; [done|]. right. split; [done|]. exists e. apply IH; [lia|done].
Qed.

Definition good (t : evidenceTraversal) : Prop :=
  map_Forall (fun ref evidence => exists n, resolved n ref evidence) (loaded t).

Lemma validateEvidence_ok evidence ref : validateEvidence evidence ref = Ok tt ->
  Evidence_Validate evidence = Ok tt ∧ eviObjectRef evidence = ref ∧
  (refKind ref = "Evidence" ∧ refInstanceID ref = "") ∧
  exists projection,
    evidenceProjectionOf evidence (emProducer (eviMeta evidence)) (emCreatedAt (eviMeta evidence)) = Ok projection ∧
    CanonicalDigest Marshal_projection projection = Ok (refContentDigest ref).
Proof.
  unfold validateEvidence. intros H.
  apply bind_ok in H as [_ H]. apply bind_ok in H as [H1%err_if_ok H]. apply bind_ok in H as [H2%wrap_ok H].
  apply bind_ok in H as [_ H]. apply bind_ok in H as [H3%err_if_ok H]. do 2 apply bind_ok in H as [_ H].
  apply bind_Ok in H as (resealed & Hr%wrap_ok & H4%err_if_ok).
  unfold SealEvidenceMeta in Hr. apply bind_Ok in Hr as (projection & Hp & Hr).
  unfold SealMeta in Hr. do 5 apply bind_Ok in Hr as ([] & _ & Hr).
  apply bind_Ok in Hr as (digest & Hd%wrap_ok & Hr). injection Hr as <-. cbn in H4.
  assert (eviObjectRef evidence = ref) as E by (destruct (decide (eviObjectRef evidence = ref)); tauto).
  split_and!; [done|done| | |].
  - destruct (decide (refKind ref = "Evidence")); tauto.
  - destruct (decide (refInstanceID ref = "")); tauto.
  - exists projection. split; [done|]. rewrite <- E.
    assert (mkObjectRef "Evidence" "" digest = eviObjectRef evidence) as <-; [|done].
    destruct (decide (mkObjectRef "Evidence" "" digest = eviObjectRef evidence)); tauto.
Qed.

Lemma read_envelope_ok ref evidence w w' :
  read_envelope store ref w = (Ok evidence, w') -> sound_envelope ref evidence.
Proof.
  unfold read_envelope. intros H. skip_call H. next_call H raw s1 H1. apply wrapM_Ok in H1.
  next_call H p s2 H2. apply lift_Ok in H2 as [_ ->]. next_call H content s3 H3.
  next_call H u s4 H4. apply fail_if_Ok in H4 as [H4 ->]. next_call H u1 s5 H5. apply fail_if_Ok in H5 as [H5 ->].
  next_call H ev s6 H6. apply lift_Ok in H6 as [H6%wrap_ok ->].
  next_call H u2 s7 H7. apply lift_Ok in H7 as [H7%wrap_ok ->].
  next_call H u3 s8 H8. apply wrapM_Ok in H8. injection H as <- _. destruct u2, u3.
  destruct (validateEvidence_ok _ _ H7) as (V1 & V2 & V3 & V4). split; [done|done|done|done| |by eapply Verify_held].
  exists raw. split_and!; [by destruct (decide (CanonicalizeJSON raw = Ok raw))|done|by eapply readBounded_ok].
Qed.

Lemma on_fs_Ok {A} (m : GoM W error A) a w t w' t' :
  on_fs m (w, t) = (Ok a, (w', t')) <-> m w = (Ok a, w') ∧ t' = t.
Proof. unfold on_fs. destruct (m w) as [r w1]. naive_solver. Qed.

Definition target_ok (n : nat) (relation : EvidenceRelation) : Prop :=
  refInstanceID (erTarget relation) = "" ∧
  (refKind (erTarget relation) = "Payload" ∧
     (exists data, NewDigest data = refContentDigest (erTarget relation) ∧ object_size data) ∨
   refKind (erTarget relation) = "Evidence" ∧ exists evidence', resolved n (erTarget relation) evidence').

Lemma target_ok_mono n m relation : (n <= m)%nat -> target_ok n relation -> target_ok m relation.
Proof.
  intros Hle [H1 [H2|(H2 & e & He)]]; (split; [done|]); [by left|right].
  split; [done|]. exists e. by apply (resolved_mono n).
Qed.

Lemma enumerate_snd {A} (l : list A) : (enumerate l).*2 = l.
Proof. unfold enumerate. generalize 0. induction l as [|x l IH]; intros k; [done|]. cbn. by rewrite IH. Qed.

Section Load.
Context (load : ObjectRef -> GoM (W * evidenceTraversal) error Evidence).
Hypothesis load_ok : forall ref evidence w t w' t', good t -> load ref (w, t) = (Ok evidence, (w', t')) ->
  good t' ∧ exists n, resolved n ref evidence.

Lemma relation_target_ok index relation w t w' t' :
  good t -> relation_target store load (index, relation) (w, t) = (Ok tt, (w', t')) ->
  good t' ∧ exists n, target_ok n relation.
Proof.
  unfold relation_target. intros Hg H. next_call H u1 s1 H1. apply lift_Ok in H1 as [_ ->].
  next_call H u2 s2 H2. apply fail_if_Ok in H2 as [H2 ->].
  assert (refInstanceID (erTarget relation) = "") as Hid by by destruct (decide (refInstanceID (erTarget relation) = "")).
  case_decide as Hp; [|case_decide as He; [|done]].
  - apply wrapM_Ok, on_fs_Ok in H as [H ->]. split; [done|]. exists 0%nat. split; [done|]. left.
    split; [done|]. by eapply Verify_held.
  - next_call H ev s3 H3. apply wrapM_Ok in H3. injection H as ->. destruct (load_ok _ _ _ _ _ _ Hg H3) as [Hg' [n Hn]].
    split; [done|]. exists n. split; [done|]. right. split; [done|]. by exists ev.
Qed.

Lemma relations_ok l : forall w t w' t', good t ->
  for_eachM (relation_target store load) l (w, t) = (Ok tt, (w', t')) ->
  good t' ∧ exists n, forall relation, relation ∈ l.*2 -> target_ok n relation.
Proof.
  induction l as [|[index relation] l IH]; intros w t w' t' Hg H.
  { injection H as <- <-. split; [done|]. exists 0%nat. intros relation Hin. by apply elem_of_nil in Hin. }
  cbn [for_eachM] in H. next_call H u s1 H1. destruct u, s1 as [w1 t1].
  destruct (relation_target_ok _ _ _ _ _ _ Hg H1) as [Hg1 [n1 H1']].
  destruct (IH _ _ _ _ Hg1 H) as [Hg2 [n2 H2]]. split; [done|]. exists (n1 + n2)%nat.
  intros r [->|Hin]%elem_of_cons; [apply (target_ok_mono n1); [lia|done]|].
  apply (target_ok_mono n2); [lia|]. by apply H2.
Qed.
End Load.

Lemma getEvidence_ok room : forall ref evidence w t w' t', good t ->
  getEvidence store room ref (w, t) = (Ok evidence, (w', t')) -> good t' ∧ exists n, resolved n ref evidence.
Proof.
  induction room as [|room IH]; intros ref evidence w t w' t' Hg H; cbn [getEvidence] in H.
  { skip_call H. done. }
  next_call H u s1 H1. destruct s1 as [w1 t1]. apply on_fs_Ok in H1 as [_ ->].
  next_call H st s2 H2. injection H2 as <- <-.
  destruct (loaded t !! ref) as [e|] eqn:El; [injection H as <- _ <-; split; [done|by apply Hg]|].
  next_call H u2 s3 H3. apply fail_if_Ok in H3 as [_ ->]. next_call H u3 s4 H4. injection H4 as <- <-.
  apply defer_Ok in H as ([w5 t5] & H & [= -> ->]).
  next_call H ev s6 H6. destruct s6 as [w6 t6]. apply on_fs_Ok in H6 as [H6 ->].
  next_call H u4 s7 H7. destruct s7 as [w7 t7]. destruct u4. apply wrapM_Ok in H7.
  apply (relations_ok _ IH) in H7 as [Hg7 [n Hn]]; [|done].
  next_call H u5 s8 H8. destruct s8 as [w8 t8]. apply on_fs_Ok in H8 as [_ ->].
  next_call H u6 s9 H9. injection H9 as <- <-. injection H as <- _ <-.
  assert (resolved (S n) ref ev) as Hr.
  { constructor; [by eapply read_envelope_ok|]. intros relation Hin. apply Hn. by rewrite enumerate_snd. }
  split; [|by exists (S n)]. unfold good. cbn. apply map_Forall_insert_2; [by exists (S n)|done].
Qed.

Lemma GetEvidence_ok ref evidence w w' :
  GetEvidence store ref w = (Ok evidence, w') -> exists n, resolved n ref evidence.
Proof.
  unfold GetEvidence. intros H. do 2 skip_call H. unfold with_traversal in H.
  destruct (getEvidence _ _ _ _) as [r [w1 t1]] eqn:E. injection H as -> _.
  apply getEvidence_ok in E; [tauto|]. apply map_Forall_empty.
Qed.

Lemma root_aware_fail {A} f e (a : A) (w w' : W) : root_aware store f (fail e) w <> (Ok a, w').
Proof.
  unfold root_aware. intros H. next_call H r s1 H1. apply try_Ok in H1. injection H1 as <- <-.
  by skip_call H.
Qed.

Lemma existing_reference_ok ref path encoded r w w' :
  existing_reference store ref path encoded w = (Ok r, w') ->
  r = ref ∧ exists n evidence, resolved n ref evidence ∧ CanonicalMarshal Marshal_Evidence evidence = Ok encoded.
Proof.
  unfold existing_reference, compareExistingEvidence. intros H. skip_call H. next_call H e s1 H1.
  next_call H enc s2 H2. apply lift_Ok in H2 as [H2%wrap_ok ->]. next_call H u s3 H3.
  apply fail_if_Ok in H3 as [H3 ->]. injection H as <- _. destruct (GetEvidence_ok _ _ _ _ H1) as [n Hn].
  split; [done|]. exists n, e. split; [done|]. rewrite H2. f_equal. by destruct (decide (enc = encoded)).
Qed.

Lemma commit_reference_ok ref path encoded r w w' :
  commit_reference store ref path encoded w = (Ok r, w') ->
  r = ref ∧ exists n evidence, resolved n ref evidence ∧ CanonicalMarshal Marshal_Evidence evidence = Ok encoded.
Proof.
  unfold commit_reference. intros H. do 4 skip_call H. next_call H linked s1 H1. destruct linked as [u|e].
  - do 2 skip_call H. next_call H ev s2 H2. next_call H u2 s3 H3. apply fail_if_Ok in H3 as [H3 ->].
    skip_call H. injection H as <- _. destruct (GetEvidence_ok _ _ _ _ H2) as [n Hn].
    split; [done|]. exists n, ev. split; [done|].
    by destruct (decide (CanonicalMarshal Marshal_Evidence ev = Ok encoded)).
  - destruct (errors_Is e ErrExist); [by eapply existing_reference_ok|].
    by apply root_aware_fail in H.
Qed.

Lemma PutEvidence_ok evidence r w w' : PutEvidence store evidence w = (Ok r, w') ->
  r = eviObjectRef evidence ∧ exists n stored encoded, resolved n r stored ∧
    CanonicalMarshal Marshal_Evidence evidence = Ok encoded ∧ CanonicalMarshal Marshal_Evidence stored = Ok encoded.
Proof.
  unfold PutEvidence. intros H. do 5 skip_call H. next_call H encoded s1 H1. apply lift_Ok in H1 as [H1%wrap_ok ->].
  do 2 skip_call H. next_call H stat s2 H2.
  assert (r = eviObjectRef evidence ∧ exists n stored, resolved n (eviObjectRef evidence) stored ∧
    CanonicalMarshal Marshal_Evidence stored = Ok encoded) as (-> & n & stored & Hn & Hs).
  { destruct stat as [i|e]; [by eapply existing_reference_ok|].
    destruct (errors_Is e ErrNotExist); [by eapply commit_reference_ok|done]. }
  split; [done|]. by exists n, stored, encoded.
Qed.

(** [C15] The store answers only what was named, whatever the file system does:
    [Get] returns bytes with the requested digest and within the size limit;
    [GetEvidence] returns a valid envelope whose reference is the digest of
    its own projection, with its payload and its whole relation graph, which
    has no cycle; and a reference that [PutEvidence] returns was read back
    with such an envelope, byte for byte the canonical form of the one to be
    stored. *)
Theorem store_answers_what_was_named w w' :
  (forall digest data, Get store digest w = (Ok data, w') -> NewDigest data = digest ∧ object_size data) ∧
  (forall ref evidence, GetEvidence store ref w = (Ok evidence, w') -> exists n, resolved n ref evidence) ∧
  (forall evidence ref, PutEvidence store evidence w = (Ok ref, w') ->
     ref = eviObjectRef evidence ∧ exists n stored encoded, resolved n ref stored ∧
       CanonicalMarshal Marshal_Evidence evidence = Ok encoded ∧
       CanonicalMarshal Marshal_Evidence stored = Ok encoded).
Proof.
  split_and!.
  - intros digest data. apply Get_ok.
  - intros ref evidence. apply GetEvidence_ok.
  - intros evidence ref. apply PutEvidence_ok.
Qed.
End Safety.
