(* ===== verification/Recorder.v ===== *)
(** * internal/recorder/recorder.go: recording observations

    A recorder is fixed to one attempt and one capture layer.  It sanitizes
    an observation, stores the payload and the sealed envelope in the store
    of CAS.v, and advances its sequence only after both are committed. *)
From Stdlib Require Import ZArith Ascii String Lia.
From stdpp Require Import base gmap sets list strings.
From stdpp Require Import list_numbers.
From S2P Require Import Prelude Schema Canonical Documents OracleSchema Redaction Evidence CAS.
From S2P Require Import RedactionSpec.
From S2P Require Import Disk CASSpec.
Local Open Scope Z_scope.
Local Open Scope string_scope.
Local Open Scope list_scope.

Definition PayloadFormat := string.
Definition PayloadText : PayloadFormat := "text".
Definition PayloadJSON : PayloadFormat := "json".
Definition DefaultMaxObservationBytes : Z := Z.shiftl 1 20.

Record RecorderConfig := mkRecorderConfig {
  rcRunID : InstanceID;
  rcInvocationID : InstanceID;
  rcAttemptID : InstanceID;
  rcProducer : Producer;
  rcCaptureLayer : CaptureLayer;
  rcInstrumentationMode : InstrumentationMode;
  rcMaxObservationBytes : Z
}.

Record Observed := mkObserved {
  obSequence : Z;
  obCaptureLayer : CaptureLayer;
  obInstrumentationMode : InstrumentationMode;
  obDirection : Direction;
  obKind : string;
  obMonotonicOffsetNS : Z;
  obByteOffset : option Z;
  obEventOffset : option Z;
  obPayload : list ascii;
  obFormat : PayloadFormat;
  obRelations : list EvidenceRelation
}.

Record Recorder := mkRecorder {
  rdConfig : RecorderConfig;
  rdRedactor : Redactor;
  rdStore : Store;
  rdNextSequence : Z
}.

Definition sourceCaptureLayer (layer : CaptureLayer) : bool :=
  bool_decide (layer ∈ [LayerUpstreamApplication; LayerProxyForwarded; LayerClientSDK]).

Definition validLayerMode (layer : CaptureLayer) (mode : InstrumentationMode) : bool :=
  if decide (layer = LayerUpstreamApplication) then
    bool_decide (mode = InstrumentationDirect ∨ mode = InstrumentationFixture)
  else if decide (layer = LayerProxyForwarded) then bool_decide (mode = InstrumentationProxy)
  else if decide (layer = LayerClientSDK) then
    bool_decide (mode = InstrumentationClient ∨ mode = InstrumentationFixture)
  else false.

Definition validDirection (layer : CaptureLayer) (direction : Direction) : bool :=
  if decide (layer = LayerUpstreamApplication) then
    bool_decide (direction = DirectionCoreToTarget ∨ direction = DirectionTargetToCore)
  else if decide (layer = LayerProxyForwarded) then
    bool_decide (direction = DirectionProxyToClient ∨ direction = DirectionClientToProxy)
  else if decide (layer = LayerClientSDK) then bool_decide (direction = DirectionDriverToCore)
  else false.

Definition redactionRecords (report : Report) : list RedactionRecord :=
  (fun finding => mkRedactionRecord (rfRuleID finding) "secret" (rfCount finding)) <$> report.

Section Recorder.
Context {W File : Type} {fs : FileSystem W File} {lib : DocumentLibrary} {codec : EvidenceCodec}.
Context {ro : RangeOrder string string} {redaction : RedactionLibrary}.
(** [config.Now]. *)
Context (Now : W -> Time * W).

(** [New], of a redactor and a store that are not nil. *)
Definition NewRecorder (config : RecorderConfig) (redactor : Redactor) (store : Store) : result error Recorder :=
  named_ids [("run", rcRunID config); ("invocation", rcInvocationID config); ("attempt", rcAttemptID config)];;
  wrap (Wrapf (Text "producer: %w")) (Producer_Validate (rcProducer config));;
  err_if (sourceCaptureLayer (rcCaptureLayer config) = false)
    (ErrorNew (Sprintf "capture layer %q is not a source observation layer" [FStr (rcCaptureLayer config)]));;
  err_if (validLayerMode (rcCaptureLayer config) (rcInstrumentationMode config) = false)
    (ErrorNew (Sprintf "instrumentation mode %q cannot observe capture layer %q"
                 [FStr (rcInstrumentationMode config); FStr (rcCaptureLayer config)]));;
  let limit := if decide (rcMaxObservationBytes config <= 0) then DefaultMaxObservationBytes
               else rcMaxObservationBytes config in
  mret (mkRecorder
    (mkRecorderConfig (rcRunID config) (rcInvocationID config) (rcAttemptID config) (rcProducer config)
       (rcCaptureLayer config) (rcInstrumentationMode config) limit) redactor store 1).

Definition validateObservation (recorder : Recorder) (observation : Observed) : result error unit :=
  let config := rdConfig recorder in
  err_if (obSequence observation ≠ rdNextSequence recorder)
    (ErrorNew (Sprintf "observation sequence must be %d, got %d"
                 [FInt (rdNextSequence recorder); FInt (obSequence observation)]));;
  err_if (obCaptureLayer observation ≠ rcCaptureLayer config)
    (ErrorNew (Sprintf "observation cannot impersonate capture layer %q from recorder layer %q"
                 [FStr (obCaptureLayer observation); FStr (rcCaptureLayer config)]));;
  err_if (obInstrumentationMode observation ≠ rcInstrumentationMode config)
    (ErrorNew (Sprintf "observation cannot change instrumentation mode from %q to %q"
                 [FStr (rcInstrumentationMode config); FStr (obInstrumentationMode observation)]));;
  err_if (validDirection (obCaptureLayer observation) (obDirection observation) = false)
    (ErrorNew (Sprintf "direction %q is invalid for capture layer %q"
                 [FStr (obDirection observation); FStr (obCaptureLayer observation)]));;
  err_if (obKind observation = "") (ErrorNew (Text "observation kind is required"));;
  err_if (obMonotonicOffsetNS observation < 0) (ErrorNew (Text "monotonic offset cannot be negative"));;
  err_if (length (obPayload observation) = 0%nat) (ErrorNew (Text "observation payload cannot be empty"));;
  err_if (Z.of_nat (length (obPayload observation)) > rcMaxObservationBytes config)
    (ErrorNew (Sprintf "observation payload exceeds %d bytes" [FInt (rcMaxObservationBytes config)]));;
  err_if (negative (obByteOffset observation) = true) (ErrorNew (Text "byte offset cannot be negative"));;
  err_if (negative (obEventOffset observation) = true) (ErrorNew (Text "event offset cannot be negative")).

Definition sanitize (redactor : Redactor) (observation : Observed) : result error SanitizedPayload :=
  if decide (obFormat observation = PayloadText) then SanitizeText redactor (obPayload observation)
  else if decide (obFormat observation = PayloadJSON) then SanitizeJSON redactor (obPayload observation)
  else Err (ErrorNew (Sprintf "unsupported payload format %q" [FStr (obFormat observation)])).

Definition no_meta : EnvelopeMeta :=
  mkEnvelopeMeta "" "" "" "" (mkObjectRef "" "" "") (mkProducer "" "" "") 0 ∅.
Definition set_meta (meta : EnvelopeMeta) (e : Evidence) : Evidence :=
  mkEvidence meta (emContentDigest meta) (eviRunID e) (eviInvocationID e) (eviAttemptID e) (eviSequence e)
    (eviCaptureLayer e) (eviInstrumentationMode e) (eviDirection e) (eviKind e) (eviMonotonicOffsetNS e)
    (eviByteOffset e) (eviEventOffset e) (eviPayloadRef e) (eviPayloadDigest e) (eviUnavailableReason e)
    (eviRedactions e) (eviRelations e).

(** The envelope before it is sealed. *)
Definition draft (config : RecorderConfig) (observation : Observed) (payload : SanitizedPayload)
    (payloadRef : ObjectRef) : Evidence :=
  mkEvidence no_meta "" (rcRunID config) (rcInvocationID config) (rcAttemptID config) (obSequence observation)
    (obCaptureLayer observation) (obInstrumentationMode observation) (obDirection observation)
    (obKind observation) (obMonotonicOffsetNS observation) (obByteOffset observation) (obEventOffset observation)
    (Some payloadRef) (Some (refContentDigest payloadRef)) "" (redactionRecords (spReport payload))
    (obRelations observation).

(** The receiver is the world with the recorder in it. *)
Definition RecM := GoM (W * Recorder) error.
Definition on_world {A} (m : GoM W error A) : RecM A := fun '(w, r) => let '(a, w') := m w in (a, (w', r)).
Definition now : RecM Time := fun '(w, r) => let '(t, w') := Now w in (Ok t, (w', r)).
Definition advance : RecM unit := fun '(w, r) =>
  (Ok tt, (w, mkRecorder (rdConfig r) (rdRedactor r) (rdStore r) (uint64_wrap (rdNextSequence r + 1)))).

Definition Record_ (observation : Observed) : RecM Evidence :=
  '(_, recorder) ← get;
  lift (validateObservation recorder observation);;
  payload ← lift (wrap (Wrapf (Text "sanitize observation before persistence: %w"))
                    (sanitize (rdRedactor recorder) observation));
  payloadRef ← wrapM (Wrapf (Text "persist sanitized observation: %w"))
                 (on_world (Put (rdStore recorder) payload));
  let evidence := draft (rdConfig recorder) observation payload payloadRef in
  createdAt ← now;
  meta ← lift (wrap (Wrapf (Text "seal evidence: %w"))
                 (SealEvidenceMeta (rcProducer (rdConfig recorder)) createdAt evidence));
  let evidence := set_meta meta evidence in
  lift (wrap (Wrapf (Text "validate committed evidence: %w")) (Evidence_Validate evidence));;
  persistedRef ← wrapM (Wrapf (Text "persist Evidence envelope: %w"))
                   (on_world (PutEvidence (rdStore recorder) evidence));
  fail_if (persistedRef ≠ eviObjectRef evidence)
    (ErrorNew (Text "persisted Evidence reference differs from the sealed envelope"));;
  advance;;
  mret evidence.
End Recorder.

(** ** What a recorder guarantees

    Evidence is numbered without gaps, belongs to the recorder's attempt, and
    points to the sanitized payload of its observation; a failed call does
    not advance the recorder. *)

(** Digests are those of the store's library. *)
#[local] Existing Instance document_json | 0.

Section Spec.
Context {W File : Type} {fs : FileSystem W File} {lib : DocumentLibrary} {codec : EvidenceCodec}.
Context {ro : RangeOrder string string} {redaction : RedactionLibrary}.
Context (Now : W -> Time * W).

(** ** Errors leave the recorder as it was *)
Definition keeps {A} (m : RecM (W := W) A) : Prop := forall w r a w' r', m (w, r) = (a, (w', r')) -> r' = r.
Definition err_keeps {A} (m : RecM (W := W) A) : Prop :=
  forall w r e w' r', m (w, r) = (Err e, (w', r')) -> r' = r.

Lemma keeps_err {A} (m : RecM (W := W) A) : keeps m -> err_keeps m.
Proof. intros H w r e w' r'. apply H. Qed.
Lemma keeps_lift {A} (x : result error A) : keeps (lift x).
Proof. by intros w r a w' r' [= _ _ <-]. Qed.
Lemma keeps_on_world {A} (m : GoM W error A) : keeps (on_world m).
Proof. intros w r a w' r' H. unfold on_world in H. destruct (m w). by injection H as _ _ <-. Qed.
Lemma keeps_wrap {A} f (m : RecM (W := W) A) : keeps m -> keeps (wrapM f m).
Proof.
  intros Hm w r a w' r' H. unfold wrapM in H. destruct (m (w, r)) as [x [w1 r1]] eqn:E.
  injection H as _ _ <-. by eapply Hm.
Qed.
Lemma keeps_now : keeps (now Now).
Proof. intros w r a w' r' H. unfold now in H. destruct (Now w). by injection H as _ _ <-. Qed.
Lemma keeps_fail_if (P : Prop) `{Decision P} e : keeps (fail_if P e).
Proof. intros w r a w' r' H1. unfold fail_if in H1. by case_decide; injection H1 as _ _ <-. Qed.

Lemma err_keeps_bind {A B} (m : RecM (W := W) A) (k : A -> RecM (W := W) B) :
  keeps m -> (forall a, err_keeps (k a)) -> err_keeps (x ← m; k x).
Proof.
  intros Hm Hk w r e w' r' H. unfold mbind, gom_bind in H. destruct (m (w, r)) as [[a|e1] [w1 r1]] eqn:E.
  - rewrite (Hk _ _ _ _ _ _ H). by eapply Hm.
  - injection H as _ _ <-. by eapply Hm.
Qed.
Lemma err_keeps_ok {A} (m : RecM (W := W) A) : (forall s, exists a s', m s = (Ok a, s')) -> err_keeps m.
Proof. intros Hm w r e w' r' H. destruct (Hm (w, r)) as (a & s' & E). congruence. Qed.

Lemma keeps_get : keeps get.
Proof. by intros w r a w' r' [= _ _ <-]. Qed.

#[local] Hint Resolve keeps_lift keeps_on_world keeps_wrap keeps_now keeps_fail_if keeps_get : recorder.

Lemma Record_err observation : err_keeps (Record_ Now observation).
Proof.
  unfold Record_. apply err_keeps_bind; [auto with recorder|]. intros [_ recorder].
  repeat (apply err_keeps_bind; [solve [auto with recorder]|intros ?; cbn zeta]).
  apply err_keeps_ok. intros [w r]. by eexists _, _.
Qed.

(** ** What a recorded observation is *)
Record recorded (config : RecorderConfig) (redactor : Redactor) (store : Store) (observation : Observed)
    (evidence : Evidence) : Prop := {
  rec_valid : Evidence_Validate evidence = Ok tt;
  rec_attempt : eviRunID evidence = rcRunID config ∧ eviInvocationID evidence = rcInvocationID config ∧
    eviAttemptID evidence = rcAttemptID config;
  rec_point : eviCaptureLayer evidence = rcCaptureLayer config ∧
    eviInstrumentationMode evidence = rcInstrumentationMode config ∧ eviSequence evidence = obSequence observation ∧
    eviKind evidence = obKind observation ∧ eviDirection evidence = obDirection observation;
  (** the payload is what redaction made of the observation *)
  rec_payload : exists payload, sanitize redactor observation = Ok payload ∧
    canary_free redactor (spData payload) ∧
    eviPayloadRef evidence = Some (mkObjectRef "Payload" "" (NewDigest (spData payload))) ∧
    eviRedactions evidence = redactionRecords (spReport payload);
  (** the store held the envelope when it answered *)
  rec_stored : exists n stored encoded, resolved store n (eviObjectRef evidence) stored ∧
    CanonicalMarshal Marshal_Evidence evidence = Ok encoded ∧ CanonicalMarshal Marshal_Evidence stored = Ok encoded
}.

Lemma sanitize_canary_free redactor observation payload :
  sanitize redactor observation = Ok payload -> canary_free redactor (spData payload).
Proof.
  unfold sanitize, SanitizeText, SanitizeJSON. intros H. case_decide; [|case_decide; [|done]].
  - destruct (RedactText redactor (obPayload observation)) as [data report].
    apply bind_Ok in H as ([] & Hc%AssertNoCanary_spec & H). by injection H as <-.
  - apply bind_Ok in H as ([data report] & Hj & H). injection H as <-.
    by destruct (RedactJSON_spec _ _ _ _ Hj) as (_ & _ & _ & _ & _ & ? & _).
Qed.

Lemma Put_ref store payload ref w w' : Put store payload w = (Ok ref, w') ->
  ref = mkObjectRef "Payload" "" (NewDigest (spData payload)).
Proof. unfold Put. intros H. do 6 skip_call H. by injection H as <- _. Qed.

Lemma on_world_Ok {A} (m : GoM W error A) a w r w' r' :
  on_world m (w, r) = (Ok a, (w', r')) -> m w = (Ok a, w') ∧ r' = r.
Proof. unfold on_world. destruct (m w) as [x w1]. by intros [= -> <- <-]. Qed.

Lemma Record_ok observation w r evidence w' r' :
  Record_ Now observation (w, r) = (Ok evidence, (w', r')) ->
  obSequence observation = rdNextSequence r ∧ recorded (rdConfig r) (rdRedactor r) (rdStore r) observation evidence ∧
  r' = mkRecorder (rdConfig r) (rdRedactor r) (rdStore r) (uint64_wrap (rdNextSequence r + 1)).
Proof.
  unfold Record_. intros H. next_call H st s1 H1. injection H1 as <- <-.
  next_call H u1 s2 H2. apply lift_Ok in H2 as [H2 ->].
  next_call H payload s3 H3. apply lift_Ok in H3 as [H3%wrap_ok ->].
  next_call H ref s4 H4. destruct s4 as [w4 r4]. apply wrapM_Ok, on_world_Ok in H4 as [H4%Put_ref ->].
  next_call H createdAt s5 H5. destruct s5 as [w5 r5]. apply keeps_now in H5 as ->.
  next_call H meta s6 H6. apply lift_Ok in H6 as [H6%wrap_ok ->]. cbn zeta in H.
  next_call H u2 s7 H7. apply lift_Ok in H7 as [H7%wrap_ok ->]. destruct u2.
  next_call H persisted s8 H8. destruct s8 as [w8 r8]. apply wrapM_Ok, on_world_Ok in H8 as [H8 ->].
  next_call H u3 s9 H9. apply fail_if_Ok in H9 as [_ ->]. next_call H u4 s10 H10. injection H10 as <- <-.
  injection H as <- _ <-. destruct u1. unfold validateObservation in H2.
  apply bind_ok in H2 as [V1%err_if_ok H2]. apply bind_ok in H2 as [V2%err_if_ok H2].
  apply bind_ok in H2 as [V3%err_if_ok _]. apply dec_stable in V1, V2, V3.
  destruct (PutEvidence_ok _ _ _ _ _ H8) as (-> & n & stored & encoded & P1 & P2 & P3).
  split_and!; [done| |done]. split; [done|done|done| |by exists n, stored, encoded].
  exists payload. split_and!; [done|by eapply sanitize_canary_free|by rewrite H4|done].
Qed.

(** A caller that offers observations one after the other, whatever is
    answered: what was recorded, and the recorder at the end. *)
Fixpoint record_all (observations : list Observed) (s : W * Recorder)
    : list (Observed * Evidence) * (W * Recorder) :=
  match observations with
  | [] => ([], s)
  | observation :: rest =>
      match Record_ Now observation s with
      | (Ok evidence, s') => let '(kept, s2) := record_all rest s' in ((observation, evidence) :: kept, s2)
      | (Err _, s') => record_all rest s'
      end
  end.

Lemma record_all_spec observations : forall w r, 0 <= rdNextSequence r ->
  rdNextSequence r + Z.of_nat (length observations) < 2 ^ 64 ->
  let '(kept, (_, r')) := record_all observations (w, r) in
  (eviSequence ∘ snd <$> kept) = seqZ (rdNextSequence r) (Z.of_nat (length kept)) ∧
  Forall (fun '(o, e) => recorded (rdConfig r) (rdRedactor r) (rdStore r) o e) kept ∧
  r' = mkRecorder (rdConfig r) (rdRedactor r) (rdStore r) (rdNextSequence r + Z.of_nat (length kept)).
Proof.
  induction observations as [|o observations IH]; intros w r Hpos Hlen; cbn [record_all].
  { split_and!; [done|constructor|]. destruct r. cbn. f_equal. lia. }
  cbn [length] in Hlen. destruct (Record_ Now o (w, r)) as [[e|e] [w1 r1]] eqn:E.
  - apply Record_ok in E as (E1 & E2 & ->).
    specialize (IH w1 (mkRecorder (rdConfig r) (rdRedactor r) (rdStore r) (uint64_wrap (rdNextSequence r + 1)))).
    cbn [rdNextSequence rdConfig rdRedactor rdStore] in IH. rewrite uint64_wrap_id in IH by lia.
    rewrite uint64_wrap_id by lia.
    destruct (record_all observations _) as [kept [w2 r2]]. destruct IH as (I1 & I2 & ->); [lia|lia|].
    split_and!; [|by constructor|cbn [length]; f_equal; lia].
    rewrite fmap_cons, I1. cbn [length]. rewrite (seqZ_cons (rdNextSequence r)) by lia. f_equal.
    + destruct E2 as [_ _ (_ & _ & E3 & _) _ _]. cbn. congruence.
    + f_equal; lia.
  - apply Record_err in E as ->. apply IH; lia.
Qed.

(** [C16] Evidence is complete and sanitized: from a new recorder, whatever
    observations are offered and whatever the file system does, the recorded
    evidence is numbered 1, 2, ... without gaps and every piece of it is
    valid, names the recorder's attempt and capture layer, points to exactly
    the payload that redaction made of its observation, without a canary,
    and was read back from the store. *)
Theorem recorder_numbers_its_evidence config redactor store r observations w
    (Hnew : NewRecorder config redactor store = Ok r)
    (Hlen : Z.of_nat (length observations) < 2 ^ 64 - 1) :
  let '(kept, (_, r')) := record_all observations (w, r) in
  (eviSequence ∘ snd <$> kept) = seqZ 1 (Z.of_nat (length kept)) ∧
  Forall (fun '(o, e) => recorded (rdConfig r) redactor store o e) kept ∧
  rdNextSequence r' = 1 + Z.of_nat (length kept) ∧
  rcAttemptID (rdConfig r) = rcAttemptID config ∧ rcCaptureLayer (rdConfig r) = rcCaptureLayer config.
Proof.
  unfold NewRecorder in Hnew. do 4 apply bind_Ok in Hnew as ([] & _ & Hnew). injection Hnew as <-.
  pose proof (record_all_spec observations w (mkRecorder
    (mkRecorderConfig (rcRunID config) (rcInvocationID config) (rcAttemptID config) (rcProducer config)
       (rcCaptureLayer config) (rcInstrumentationMode config)
       (if decide (rcMaxObservationBytes config <= 0) then DefaultMaxObservationBytes
        else rcMaxObservationBytes config)) redactor store 1)) as H.
  cbn [rdNextSequence rdConfig rdRedactor rdStore] in H.
  destruct (record_all observations _) as [kept [w' r']]. destruct H as (H1 & H2 & ->); [lia|lia|done].
Qed.
End Spec.

(** ** A recorder on an ordinary disk *)
#[local] Instance sample_json : JSONLibrary := {
  NewDecoder raw := mkDecoder [Delim "{"; Delim "}"] io_EOF false;
  jcs_Transform raw := Ok raw;
  Sum256 data := resize 32 "0"%char data;
  Sum256_length data := length_resize data 32 "0"%char
}.
#[local] Instance sample_documents : DocumentLibrary := {
  document_json := sample_json;
  json_Valid _ := true;
  url_Parse _ := Err (ErrorNew (Text "no URL"))
}.
#[local] Instance sample_decoder : AnyDecoder := {
  any_library := sample_json;
  decode_any _ := Ok (JObject [])
}.
#[local] Instance sample_redaction : RedactionLibrary := {
  redaction_decoder := sample_decoder;
  lower s := s;
  Marshal_any _ := Ok (list_ascii_of_string "{}")
}.

Definition sample_id : InstanceID := "01890000-0000-7000-8000-000000000000".
Definition sample_digest : Digest := NewDigest (list_ascii_of_string "{}").
Definition sample_config : RecorderConfig :=
  mkRecorderConfig sample_id sample_id sample_id (mkProducer "doctor" "1" sample_digest)
    LayerUpstreamApplication InstrumentationDirect 0.
Definition sample_observation : Observed :=
  mkObserved 1 LayerUpstreamApplication InstrumentationDirect DirectionCoreToTarget "http_request" 0 None None
    (list_ascii_of_string "{}") PayloadJSON [].
Definition sample_meta : EnvelopeMeta :=
  mkEnvelopeMeta EvidenceSchemaVersion "Evidence" "" sample_digest (mkObjectRef "Evidence" "" sample_digest)
    (mkProducer "doctor" "1" sample_digest) 7 ∅.
Definition sample_evidence : Evidence :=
  set_meta sample_meta
    (draft sample_config sample_observation (mkSanitizedPayload (list_ascii_of_string "{}") [] "redacted_json")
       (mkObjectRef "Payload" "" sample_digest)).

#[local] Instance sample_codec : EvidenceCodec := {
  Marshal_Evidence _ := Ok (list_ascii_of_string "{}");
  Marshal_projection _ := Ok (list_ascii_of_string "{}");
  Decode_Evidence _ := Ok (sample_evidence, Err io_EOF)
}.
Definition sample_now (d : Disk) : Time * Disk := (7, d).
Definition sample_recorder : Recorder :=
  mkRecorder (mkRecorderConfig sample_id sample_id sample_id (mkProducer "doctor" "1" sample_digest)
    LayerUpstreamApplication InstrumentationDirect DefaultMaxObservationBytes) (mkRedactor ∅ []) (disk_store 1000) 1.

Example sample_recording :
  (record_all sample_now [sample_observation; sample_observation] (empty_disk, sample_recorder)).1 =
  [(sample_observation, sample_evidence)].
Proof. vm_compute. reflexivity. Qed.

Lemma recorder_numbers_its_evidence_witness :
  recorded (rdConfig sample_recorder) (mkRedactor ∅ []) (disk_store 1000) sample_observation sample_evidence.
Proof.
  pose proof (recorder_numbers_its_evidence sample_now sample_config (mkRedactor ∅ []) (disk_store 1000)
    sample_recorder [sample_observation; sample_observation] empty_disk eq_refl ltac:(reflexivity)) as H.
  pose proof sample_recording as E.
  destruct (record_all sample_now [sample_observation; sample_observation] (empty_disk, sample_recorder))
    as [kept [w' r']]. cbn [fst] in E. rewrite E in H. destruct H as (_ & H & _).
  exact (Forall_inv H).
Defined.
