(* ===== verification/RunStore.v ===== *)
(** * internal/runstore/store.go: the store of local runs

    A run is published as one directory that holds its canonical record; the
    file latest.json points to the last one.  The file system is a parameter
    that may do anything between two calls, as in CAS.v; paths are relative to
    the root of the store.  The store is not nil, and its directory sync is
    the one of dirsync_unix.go. *)
From Stdlib Require Import ZArith Ascii String Lia.
From stdpp Require Import base gmap sets list strings.
From stdpp Require Import pretty.
From S2P Require Import Prelude Schema Canonical Documents CAS.
From S2P Require Import CASSpec Disk.
Local Open Scope Z_scope.
Local Open Scope string_scope.
Local Open Scope list_scope.

Definition RecordSchema : string := "urn:agentapi-doctor:local-run-record:v1alpha2".
Definition legacyRecordSchema : string := "urn:agentapi-doctor:local-run-record:v1alpha1".
Definition DefaultMaxRecordBytes : Z := Z.shiftl 64 20.

Definition ErrExists : string := "run already exists".
Definition ErrCorrupt : string := "local run record is corrupt".
Definition ErrLatestForbidden : string := "latest run reference requires explicit --allow-latest".
Definition ErrRootReplaced : string := "run store root identity changed".
Definition corrupt : error := Sentinel ErrCorrupt.

(** [Record] and [recordV2]; a legacy record has no plan. *)
Record RunRecord := mkRunRecord {
  rnSchemaVersion : string;
  rnRunID : InstanceID;
  rnBundleDigest : Digest;
  rnBundle : list ascii;
  rnPlanDigest : Digest;
  rnPlan : list ascii
}.

Record Payload := mkPayload { plBundle : list ascii; plPlan : list ascii }.

Record latestPointer := mkLatestPointer {
  lpSchemaVersion : string;
  lpRunID : InstanceID;
  lpRecordDigest : Digest
}.

Record RunStore := mkRunStore { rsRootIdentity : FileInfo; rsMaxBytes : Z }.

(** What this package uses beyond the calls of CAS.v. *)
Class RunFileSystem (W File : Type) := {
  run_files :: FileSystem W File;
  (** a new directory [dir/.run-*] *)
  fs_MkdirTemp : GoM W error Path;
  fs_RemoveAll : Path -> GoM W error unit;
  fs_Rename : Path -> Path -> GoM W error unit;
  (** the names in the root and whether they are directories *)
  fs_ReadDir : GoM W error (list (string * bool));
  (** [os.OpenFile] with [O_WRONLY|O_CREATE|O_EXCL] *)
  fs_OpenExclusive : Path -> GoM W error File;
  fs_ChmodRoot : GoM W error unit;
  info_Perm : FileInfo -> Z
}.

(** [encoding/json] at the types of this package. *)
Class RunCodec := {
  Marshal_recordV2 : RunRecord -> result error (list ascii);
  Marshal_pointer : latestPointer -> result error (list ascii);
  (** [json.Unmarshal] of the schema version alone *)
  Unmarshal_header : list ascii -> result error string;
  (** [Decode] with [DisallowUnknownFields], and what a second one answers *)
  Decode_recordV2 : list ascii -> result error (RunRecord * result error unit);
  Decode_recordV1 : list ascii -> result error (RunRecord * result error unit);
  Decode_pointer : list ascii -> result error (latestPointer * result error unit)
}.

Definition regularWithinLimit (info : FileInfo) (limit : Z) : bool :=
  negb (fiSymlink info) && fiIsRegular info && bool_decide (0 < fiSize info <= limit).

Definition supportedPointerSchema (value : string) : bool :=
  bool_decide (value = RecordSchema +:+ ":latest" ∨ value = legacyRecordSchema +:+ ":latest").

Definition run_path (runID : InstanceID) : Path := [runID].
Definition latest_path : Path := ["latest.json"].

(** [decoder.Decode] and the check for a trailing value. *)
Definition strictDecode {A} (decode : list ascii -> result error (A * result error unit)) (raw : list ascii)
    : result error A :=
  '(value, trailing) ← decode raw;
  match trailing with
  | Err e => if errors_Is e "EOF" then mret value else Err e
  | Ok _ => Err (ErrorNew (Text "trailing JSON value"))
  end.

(** ** Sorting *)

(** [if values[j] < values[i] { swap }], for one [j]. *)
Definition exchange (i j : nat) (values : list string) : list string :=
  match values !! i, values !! j with
  | Some vi, Some vj => if decide (String.ltb vj vi = true) then <[j := vi]> (<[i := vj]> values) else values
  | _, _ => values
  end.
Definition sortIDs (values : list string) : list string :=
  let n := length values in
  foldl (fun vs i => foldl (fun vs j => exchange i j vs) vs (seq (S i) (n - S i))) values (seq 0 n).

(** [defer] that is called off when the operation succeeds. *)
Definition on_error {S E A} (cleanup : S -> S) (m : GoM S E A) : GoM S E A := fun s =>
  match m s with (Err e, s') => (Err e, cleanup s') | answer => answer end.

Section Store.
Context {W File : Type} {fs : RunFileSystem W File} {lib : DocumentLibrary} {codec : RunCodec}.
Context (store : RunStore).

Definition is_directory (info : FileInfo) : bool := negb (fiSymlink info) && fiIsDir info.

(** ** The root *)
Definition validateRoot : GoM W error unit :=
  current ← wrapM (fun _ => Wrapf (Text "%w: %v") (Sentinel ErrRootReplaced)) (fs_Lstat []);
  fail_if (is_directory current = false ∨ SameFile (rsRootIdentity store) current = false) (Sentinel ErrRootReplaced).

Definition rootAware {A} (m : GoM W error A) : GoM W error A :=
  answer ← try m;
  match answer with
  | Ok a => mret a
  | Err e => validateRoot;; fail e
  end.

Definition syncDirectoryPlatform (path : Path) : GoM W error unit :=
  prior ← fs_Lstat path;
  fail_if (is_directory prior = false) (ErrorNew (Text "directory sync path must be a non-symlink directory"));;
  directory ← fs_Open path;
  defer (fun w => (file_Close directory w).2)
    (opened ← file_Stat directory;
     fail_if (fiIsDir opened = false ∨ SameFile prior opened = false) (ErrorNew (Text "directory changed before sync"));;
     file_Sync directory;;
     later ← fs_Lstat path;
     fail_if (is_directory later = false ∨ SameFile opened later = false)
       (ErrorNew (Text "directory changed during sync"))).

Definition syncDirectory : GoM W error unit :=
  validateRoot;;
  syncDirectoryPlatform [];;
  validateRoot.

(** [filepath.Dir(clean) != store.root || !HasPrefix(Base(clean), ".run-")]. *)
Definition temporary_run (path : Path) : bool :=
  match path with [name] => HasPrefix name ".run-" | _ => false end.

Definition syncTemporaryDirectory (path : Path) (identity : FileInfo) : GoM W error unit :=
  validateRoot;;
  fail_if (temporary_run path = false) corrupt;;
  current ← rootAware (fs_Lstat path);
  fail_if (is_directory current = false ∨ SameFile identity current = false) corrupt;;
  syncDirectoryPlatform path;;
  later ← rootAware (fs_Lstat path);
  fail_if (is_directory later = false ∨ SameFile identity later = false) corrupt;;
  validateRoot.

(** ** Files *)

(** [readRegularAfterLstat] once the file is open. *)
Definition read_opened (path : Path) (limit : Z) (prior : FileInfo) (file : File) : GoM W error (list ascii) :=
  opened ← file_Stat file;
  fail_if (regularWithinLimit opened limit = false ∨ SameFile prior opened = false ∨ fiSize prior ≠ fiSize opened) corrupt;;
  let readLimit := int64_wrap (limit + 1) in
  let readLimit := if decide (readLimit <= 0) then limit else readLimit in
  raw ← file_ReadAll file readLimit;
  later ← file_Stat file;
  pathAfter ← wrapM (fun _ => corrupt) (fs_Lstat path);
  fail_if (regularWithinLimit later limit = false ∨ regularWithinLimit pathAfter limit = false ∨
           SameFile opened later = false ∨ SameFile opened pathAfter = false ∨ fiSize opened ≠ fiSize later ∨
           fiSize opened ≠ fiSize pathAfter ∨ Z.of_nat (length raw) ≠ fiSize opened) corrupt;;
  mret raw.

(** Without the test hook. *)
Definition readRegular (path : Path) (limit : Z) : GoM W error (list ascii) :=
  fail_if (limit <= 0) corrupt;;
  prior ← fs_Lstat path;
  fail_if (regularWithinLimit prior limit = false) corrupt;;
  file ← fs_Open path;
  defer (fun w => (file_Close file w).2) (read_opened path limit prior file).

Definition writeExclusive (path : Path) (data : list ascii) : GoM W error unit :=
  file ← fs_OpenExclusive path;
  defer (fun w => (file_Close file w).2)
    (file_Write file data;;
     file_Sync file;;
     file_Close file).

Definition requireCanonicalJSON (label : string) (raw : list ascii) (maxBytes : Z) : result error unit :=
  err_if (length raw = 0%nat ∨ Z.of_nat (length raw) > maxBytes)
    (ErrorNew (Sprintf "%s size is outside the configured limit" [FStr label]));;
  canonical ← wrap (Wrapf (Sprintf "%s must be strict JSON: %w" [FStr label])) (CanonicalizeJSON raw);
  err_if (raw ≠ canonical) (ErrorNew (Sprintf "%s must already be RFC8785 canonical JSON" [FStr label])).

(** ** Records *)
Definition decodeRecord (raw : list ascii) (runID : InstanceID) (maxBytes : Z) : result error RunRecord :=
  schema_version ← wrap (fun _ => corrupt) (Unmarshal_header raw);
  record ← (if decide (schema_version = RecordSchema) then
              wire ← wrap (fun _ => corrupt) (strictDecode Decode_recordV2 raw);
              err_if (NewDigest (rnPlan wire) ≠ rnPlanDigest wire ∨
                      is_ok (requireCanonicalJSON "plan" (rnPlan wire) maxBytes) = false) corrupt;;
              mret wire
            else if decide (schema_version = legacyRecordSchema) then
              wire ← wrap (fun _ => corrupt) (strictDecode Decode_recordV1 raw);
              mret (mkRunRecord (rnSchemaVersion wire) (rnRunID wire) (rnBundleDigest wire) (rnBundle wire) "" [])
            else Err corrupt);
  err_if (rnRunID record ≠ runID ∨ NewDigest (rnBundle record) ≠ rnBundleDigest record ∨
          is_ok (requireCanonicalJSON "bundle" (rnBundle record) maxBytes) = false) corrupt;;
  mret record.

Definition readRunRecord (runID : InstanceID) : GoM W error (list ascii) :=
  validateRoot;;
  let directory := run_path runID in
  prior ← rootAware (fs_Lstat directory);
  fail_if (is_directory prior = false) corrupt;;
  validateRoot;;
  raw ← rootAware (readRegular (directory ++ ["record.json"]) (rsMaxBytes store));
  validateRoot;;
  later ← wrapM (fun _ => corrupt) (fs_Lstat directory);
  fail_if (is_directory later = false ∨ SameFile prior later = false) corrupt;;
  validateRoot;;
  mret raw.

Definition readLatest : GoM W error latestPointer :=
  validateRoot;;
  raw ← rootAware (readRegular latest_path (Z.shiftl 1 20));
  canonical ← lift (wrap (fun _ => corrupt) (CanonicalizeJSON raw));
  fail_if (raw ≠ canonical) corrupt;;
  pointer ← lift (wrap (fun _ => corrupt) (strictDecode Decode_pointer raw));
  fail_if (supportedPointerSchema (lpSchemaVersion pointer) = false ∨ is_ok (InstanceID_Validate (lpRunID pointer)) = false ∨
           is_ok (Digest_Validate (lpRecordDigest pointer)) = false) corrupt;;
  validateRoot;;
  mret pointer.

(** ** Publishing *)

(** The deferred removals of the temporary directory and file. *)
Definition discard_directory (name : Path) (identity : FileInfo) (w : W) : W :=
  match validateRoot w with
  | (Err _, w) => w
  | (Ok _, w) =>
      match fs_Lstat name w with
      | (Ok current, w) =>
          if is_directory current && SameFile identity current then (fs_RemoveAll name w).2 else w
      | (Err _, w) => w
      end
  end.
Definition discard_file (name : Path) (identity : FileInfo) (file : File) (w : W) : W :=
  let w := (file_Close file w).2 in
  match validateRoot w with
  | (Err _, w) => w
  | (Ok _, w) =>
      match fs_Lstat name w with
      | (Ok current, w) =>
          if negb (fiSymlink current) && fiIsRegular current && SameFile identity current
          then (fs_Remove name w).2 else w
      | (Err _, w) => w
      end
  end.

(** [replaceLatest] until the rename. *)
Definition write_latest (name : Path) (identity : FileInfo) (file : File) (data : list ascii) : GoM W error unit :=
  validateRoot;;
  rootAware (file_Chmod file);;
  rootAware (file_Write file data);;
  rootAware (file_Sync file);;
  rootAware (file_Close file);;
  validateRoot;;
  current ← rootAware (fs_Lstat name);
  fail_if (regularWithinLimit current (Z.of_nat (length data)) = false ∨ fiSize current ≠ Z.of_nat (length data) ∨
           SameFile identity current = false) corrupt;;
  rootAware (fs_Rename name latest_path).

Definition replaceLatest (data : list ascii) : GoM W error unit :=
  validateRoot;;
  '(name, file) ← rootAware (fs_CreateTemp []);
  identity ← try (file_Stat file);
  match identity with
  | Err e =>
      try (file_Close file);;
      rootAware (fail e)
  | Ok identity =>
      on_error (discard_file name identity file) (write_latest name identity file data);;
      defer (fun w => (file_Close file w).2)
        (wrapM (Wrapf (Text "sync latest pointer parent: %w")) syncDirectory;;
         validateRoot)
  end.

(** [Put] from the temporary directory to the rename. *)
Definition publish (runID : InstanceID) (encoded : list ascii) (temporary : Path) (identity : FileInfo) : GoM W error unit :=
  validateRoot;;
  rootAware (writeExclusive (temporary ++ ["record.json"]) encoded);;
  validateRoot;;
  written ← rootAware (readRegular (temporary ++ ["record.json"]) (rsMaxBytes store));
  fail_if (written ≠ encoded) corrupt;;
  validateRoot;;
  current ← wrapM (fun _ => corrupt) (fs_Lstat temporary);
  fail_if (is_directory current = false ∨ SameFile identity current = false) corrupt;;
  wrapM (Wrapf (Text "sync temporary run directory: %w")) (syncTemporaryDirectory temporary identity);;
  let directory := run_path runID in
  existing ← try (fs_Lstat directory);
  (match existing with
   | Ok _ => fail (Sentinel ErrExists)
   | Err e => if errors_Is e ErrNotExist then mret tt else validateRoot;; fail e
   end);;
  validateRoot;;
  renamed ← try (fs_Rename temporary directory);
  match renamed with
  | Ok _ => mret tt
  | Err e =>
      validateRoot;;
      taken ← try (fs_Lstat directory);
      match taken with
      | Ok _ => fail (Sentinel ErrExists)
      | Err _ => fail e
      end
  end.

(** [Put] after the rename. *)
Definition confirm (runID : InstanceID) (encoded : list ascii) (identity : FileInfo) : GoM W error Digest :=
  validateRoot;;
  wrapM (Wrapf (Text "sync published run directory parent: %w")) syncDirectory;;
  published ← wrapM (fun _ => corrupt) (fs_Lstat (run_path runID));
  fail_if (is_directory published = false ∨ SameFile identity published = false) corrupt;;
  record ← readRunRecord runID;
  fail_if (record ≠ encoded) corrupt;;
  let recordDigest := NewDigest encoded in
  pointer ← lift (CanonicalMarshal Marshal_pointer (mkLatestPointer (RecordSchema +:+ ":latest") runID recordDigest));
  validateRoot;;
  replaceLatest pointer;;
  validateRoot;;
  mret recordDigest.

Definition record_of (runID : InstanceID) (payload : Payload) : RunRecord :=
  mkRunRecord RecordSchema runID (NewDigest (plBundle payload)) (plBundle payload) (NewDigest (plPlan payload))
    (plPlan payload).

Definition Put (runID : InstanceID) (payload : Payload) : GoM W error Digest :=
  lift (InstanceID_Validate runID);;
  validateRoot;;
  lift (requireCanonicalJSON "bundle" (plBundle payload) (rsMaxBytes store));;
  lift (requireCanonicalJSON "plan" (plPlan payload) (rsMaxBytes store));;
  encoded ← lift (CanonicalMarshal Marshal_recordV2 (record_of runID payload));
  fail_if (Z.of_nat (length encoded) > rsMaxBytes store)
    (ErrorNew (Text "run record size is outside the configured limit"));;
  validateRoot;;
  temporary ← rootAware fs_MkdirTemp;
  identity ← rootAware (fs_Lstat temporary);
  on_error (discard_directory temporary identity) (publish runID encoded temporary identity);;
  confirm runID encoded identity.

(** ** Reading *)

(** The run that a reference names, with the digest and the schema of the
    pointer for the latest one. *)
Definition find (reference : string) (allowLatest : bool) : GoM W error (InstanceID * option latestPointer) :=
  if is_latest reference then
    fail_if (allowLatest = false) (Sentinel ErrLatestForbidden);;
    pointer ← readLatest;
    mret (lpRunID pointer, Some pointer)
  else
    runID ← lift (ParseInstanceID reference);
    mret (runID, None).

Definition pointed_at (pointer : option latestPointer) (raw : list ascii) : bool :=
  match pointer with Some p => bool_decide (NewDigest raw = lpRecordDigest p) | None => true end.
Definition pointer_fits (pointer : option latestPointer) (record : RunRecord) : bool :=
  match pointer with Some p => bool_decide (lpSchemaVersion p = rnSchemaVersion record +:+ ":latest") | None => true end.

Definition Get (reference : string) (allowLatest : bool) : GoM W error RunRecord :=
  validateRoot;;
  '(runID, pointer) ← find reference allowLatest;
  answer ← try (readRunRecord runID);
  raw ← (match answer with
         | Ok raw => mret raw
         | Err e => if errors_Is e ErrRootReplaced then fail e
                    else match pointer with Some _ => fail corrupt | None => fail e end
         end);
  fail_if (pointed_at pointer raw = false) corrupt;;
  canonical ← lift (wrap (fun _ => corrupt) (CanonicalizeJSON raw));
  fail_if (raw ≠ canonical) corrupt;;
  record ← lift (wrap (fun _ => corrupt) (decodeRecord raw runID (rsMaxBytes store)));
  fail_if (pointer_fits pointer record = false) corrupt;;
  mret record.

Definition Resolve (reference : string) (allowLatest : bool) : GoM W error InstanceID :=
  validateRoot;;
  if is_latest reference then
    fail_if (allowLatest = false) (Sentinel ErrLatestForbidden);;
    pointer ← readLatest;
    raw ← wrapM (fun e => if errors_Is e ErrRootReplaced then e else corrupt) (readRunRecord (lpRunID pointer));
    fail_if (NewDigest raw ≠ lpRecordDigest pointer) corrupt;;
    lift (wrap (fun _ => corrupt) (requireCanonicalJSON "record" raw (rsMaxBytes store)));;
    record ← lift (wrap (fun _ => corrupt) (decodeRecord raw (lpRunID pointer) (rsMaxBytes store)));
    fail_if (pointer_fits (Some pointer) record = false) corrupt;;
    validateRoot;;
    mret (lpRunID pointer)
  else
    runID ← lift (ParseInstanceID reference);
    validateRoot;;
    mret runID.

Definition listed (entry : string * bool) : option InstanceID :=
  let '(name, directory) := entry in
  if (directory : bool) then match ParseInstanceID name with Ok id => Some id | Err _ => None end else None.

Definition List : GoM W error (list InstanceID) :=
  validateRoot;;
  entries ← rootAware fs_ReadDir;
  let result := sortIDs (omap listed entries) in
  validateRoot;;
  mret result.
End Store.

(** [Open], of an absolute root. *)
Section Open.
Context {W File : Type} {fs : RunFileSystem W File}.

Definition ensureDirectory : GoM W error unit :=
  fs_MkdirAll;;
  info ← fs_Lstat [];
  fail_if (is_directory info = false) (ErrorNew (Text "run store root must be a non-symlink directory"));;
  if decide (Z.land (info_Perm info) 63 ≠ 0) then fs_ChmodRoot else mret tt.

Definition Open (root : string) (maxBytes : Z) : GoM W error RunStore :=
  fail_if (root = "" ∨ HasPrefix root "/" = false) (ErrorNew (Text "run store root must be absolute"));;
  let maxBytes := if decide (maxBytes <= 0) then DefaultMaxRecordBytes else maxBytes in
  ensureDirectory;;
  identity ← fs_Lstat [];
  mret (mkRunStore identity maxBytes).
End Open.

(** ** What the store of runs answers (internal/runstore/store.go)

    On any file system, answers are records whose digests and canonical form
    were checked.  On an ordinary disk, a published run is immutable. *)

Section Answers.
Context {W File : Type} {fs : RunFileSystem W File} {lib : DocumentLibrary} {codec : RunCodec}.
Context (store : RunStore).

Definition canonical_within (raw : list ascii) : Prop :=
  CanonicalizeJSON raw = Ok raw ∧ 0 < Z.of_nat (length raw) <= rsMaxBytes store.

Lemma requireCanonicalJSON_ok label raw :
  requireCanonicalJSON label raw (rsMaxBytes store) = Ok tt <-> canonical_within raw.
Proof.
  unfold requireCanonicalJSON, canonical_within. split.
  - intros H. apply bind_Ok in H as ([] & H1%err_if_ok & H). apply bind_Ok in H as (c & H2%wrap_ok & H3%err_if_ok).
    apply dec_stable in H3. subst c. split; [done|]. destruct raw; [tauto|cbn [length] in *; lia].
  - intros [H1 H2]. rewrite H1. cbn. unfold err_if. rewrite !decide_False; [done|lia|].
    intros Hn. by apply Hn.
Qed.

Lemma is_ok_true {E A} (r : result E A) : is_ok r = true <-> exists a, r = Ok a.
Proof. destruct r; cbn; naive_solver. Qed.
Lemma checked_json label raw : is_ok (requireCanonicalJSON label raw (rsMaxBytes store)) = true <-> canonical_within raw.
Proof. rewrite is_ok_true, <- (requireCanonicalJSON_ok label). split; [intros [[] ?]; done|by exists tt]. Qed.

(** A record that may be answered for a run: what its bytes decode to, with
    the documents its digests name. *)
Record sound_record (runID : InstanceID) (raw : list ascii) (record : RunRecord) : Prop := {
  sr_run : rnRunID record = runID;
  sr_bundle : NewDigest (rnBundle record) = rnBundleDigest record ∧ canonical_within (rnBundle record);
  sr_version : exists version, Unmarshal_header raw = Ok version ∧
    (version = RecordSchema ∧ strictDecode Decode_recordV2 raw = Ok record ∧
       NewDigest (rnPlan record) = rnPlanDigest record ∧ canonical_within (rnPlan record) ∨
     version = legacyRecordSchema ∧ rnPlan record = [] ∧ rnPlanDigest record = "")
}.

Lemma decodeRecord_ok raw runID record :
  decodeRecord raw runID (rsMaxBytes store) = Ok record -> sound_record runID raw record.
Proof.
  unfold decodeRecord. intros H. apply bind_Ok in H as (version & H1%wrap_ok & H).
  apply bind_Ok in H as (r & H2 & H). apply bind_Ok in H as ([] & H3%err_if_ok & H). injection H as ->.
  assert (rnRunID record = runID ∧ NewDigest (rnBundle record) = rnBundleDigest record ∧ canonical_within (rnBundle record))
    as (R1 & R2 & R3).
  { destruct (is_ok (requireCanonicalJSON "bundle" (rnBundle record) (rsMaxBytes store))) eqn:Eb; [|tauto].
    split_and!; [apply dec_stable; tauto|apply dec_stable; tauto|by apply (checked_json "bundle")]. }
  split; [done|done|]. exists version. split; [done|]. case_decide as E.
  - left. apply bind_Ok in H2 as (wire & H4%wrap_ok & H2). apply bind_Ok in H2 as ([] & H5%err_if_ok & H2).
    injection H2 as ->.
    destruct (is_ok (requireCanonicalJSON "plan" (rnPlan record) (rsMaxBytes store))) eqn:Eb; [|tauto].
    split_and!; [done|done|apply dec_stable; tauto|by apply (checked_json "plan")].
  - right. case_decide as E2; [|done]. apply bind_Ok in H2 as (wire & _ & H2). injection H2 as <-. done.
Qed.

Lemma regularWithinLimit_size info limit : regularWithinLimit info limit = true -> 0 < fiSize info <= limit.
Proof. unfold regularWithinLimit. rewrite !andb_true_iff, !bool_decide_eq_true. tauto. Qed.

Lemma readRegular_ok path limit raw w w' :
  readRegular path limit w = (Ok raw, w') -> 0 < Z.of_nat (length raw) <= limit.
Proof.
  unfold readRegular. intros H. do 4 skip_call H. apply defer_Ok in H as (w1 & H & _). unfold read_opened in H.
  next_call H opened s1 H1. next_call H u s2 H2. apply fail_if_Ok in H2 as [H2 ->].
  next_call H data s3 H3. next_call H later s4 H4. next_call H after s5 H5. next_call H u2 s6 H6.
  apply fail_if_Ok in H6 as [H6 ->]. injection H as <- _.
  assert (Z.of_nat (length data) = fiSize opened) as -> by (apply dec_stable; tauto).
  apply regularWithinLimit_size. destruct (regularWithinLimit opened limit); tauto.
Qed.

Lemma rootAware_Ok {A} (m : GoM W error A) a w w' : rootAware store m w = (Ok a, w') -> m w = (Ok a, w').
Proof.
  unfold rootAware, try, mbind, gom_bind. destruct (m w) as [[b|e] w1]; [by intros [= -> ->]|].
  by destruct (validateRoot store w1) as [[[]|e'] w2].
Qed.

Lemma readRunRecord_size runID raw w w' :
  readRunRecord store runID w = (Ok raw, w') -> 0 < Z.of_nat (length raw) <= rsMaxBytes store.
Proof.
  unfold readRunRecord. intros H. do 4 skip_call H. next_call H raw' s1 H1. do 4 skip_call H. injection H as <- _.
  apply rootAware_Ok in H1. by eapply readRegular_ok.
Qed.

(** What a reference names: the run itself, or what the pointer of the latest
    run says. *)
Definition refers (reference : string) (allowLatest : bool) (runID : InstanceID) (raw : list ascii)
    (record : RunRecord) : Prop :=
  if is_latest reference then
    allowLatest = true ∧ exists pointer, lpRunID pointer = runID ∧ NewDigest raw = lpRecordDigest pointer ∧
      lpSchemaVersion pointer = rnSchemaVersion record +:+ ":latest" ∧ InstanceID_Validate runID = Ok tt
  else reference = runID ∧ InstanceID_Validate runID = Ok tt.

Lemma ParseInstanceID_ok value id : ParseInstanceID value = Ok id -> id = value ∧ InstanceID_Validate id = Ok tt.
Proof.
  intros H. assert (id = value) as ->.
  { unfold ParseInstanceID in H. destruct (is_latest value); [done|]. destruct (uuidV7Pattern value); [|done].
    by injection H as ->. }
  split; [done|]. unfold InstanceID_Validate. by rewrite H.
Qed.

Lemma readLatest_ok pointer w w' : readLatest store w = (Ok pointer, w') -> InstanceID_Validate (lpRunID pointer) = Ok tt.
Proof.
  unfold readLatest. intros H. do 4 skip_call H. next_call H p s1 H1. next_call H u s2 H2.
  apply fail_if_Ok in H2 as [H2 _]. skip_call H. injection H as -> _.
  destruct (is_ok (InstanceID_Validate (lpRunID pointer))) eqn:E; [|tauto]. by apply is_ok_true in E as [[] ?].
Qed.

Lemma find_ok reference allowLatest runID pointer w w' :
  find store reference allowLatest w = (Ok (runID, pointer), w') ->
  InstanceID_Validate runID = Ok tt ∧
  if is_latest reference then allowLatest = true ∧ exists p, pointer = Some p ∧ lpRunID p = runID
  else reference = runID ∧ pointer = None.
Proof.
  unfold find. destruct (is_latest reference).
  - intros H. next_call H u s1 H1. apply fail_if_Ok in H1 as [H1 ->]. next_call H p s2 H2. injection H as <- <- _.
    split; [by eapply readLatest_ok|]. split; [by destruct allowLatest|]. by exists p.
  - intros H. next_call H parsed s1 H1. apply lift_Ok in H1 as [H1 ->]. injection H as <- <- _.
    by apply ParseInstanceID_ok in H1 as [-> ?].
Qed.

Lemma Get_record reference allowLatest record w w' :
  Get store reference allowLatest w = (Ok record, w') ->
  exists runID raw, refers reference allowLatest runID raw record ∧ canonical_within raw ∧ sound_record runID raw record.
Proof.
  unfold Get. intros H. skip_call H. next_call H found s1 H1. destruct found as [runID pointer].
  apply find_ok in H1 as [Hid Hf]. next_call H answer s2 H2. apply (proj1 (try_Ok _ _ _ _)) in H2. next_call H raw s3 H3.
  destruct answer as [raw'|e]; [|destruct (errors_Is e ErrRootReplaced), pointer; done].
  injection H3 as <- <-. apply readRunRecord_size in H2. next_call H u1 s4 H4. apply fail_if_Ok in H4 as [H4 ->].
  next_call H canonical s5 H5. apply lift_Ok in H5 as [H5%wrap_ok ->].
  next_call H u2 s6 H6. apply fail_if_Ok in H6 as [H6 ->]. apply dec_stable in H6. subst canonical.
  next_call H r s7 H7. apply lift_Ok in H7 as [H7%wrap_ok%decodeRecord_ok ->].
  next_call H u3 s8 H8. apply fail_if_Ok in H8 as [H8 ->]. injection H as -> _.
  exists runID, raw'. split_and!; [|done|done]. unfold refers. destruct (is_latest reference); [|naive_solver].
  destruct Hf as (-> & p & -> & <-). split; [done|]. exists p. cbn in H4, H8.
  case_bool_decide; [|done]. case_bool_decide; [|done]. done.
Qed.

(** Runs are answered as they were recorded: whatever the file system
    does, [Get] answers a record only when its bytes are canonical, within the
    limit, decode strictly to the record, name the requested run and hold
    canonical documents with the digests it states; the latest run only when
    that was allowed and the bytes have the digest of its pointer; and [Put]
    succeeds only after exactly the canonical record of the given documents
    was read back under the run's name, and answers its digest. *)
Theorem runs_are_answered_as_recorded w w' :
  (forall reference allowLatest record, Get store reference allowLatest w = (Ok record, w') ->
     exists runID raw, refers reference allowLatest runID raw record ∧ canonical_within raw ∧
       sound_record runID raw record) ∧
  (forall runID payload digest, Put store runID payload w = (Ok digest, w') ->
     InstanceID_Validate runID = Ok tt ∧ canonical_within (plBundle payload) ∧ canonical_within (plPlan payload) ∧
     exists encoded, CanonicalMarshal Marshal_recordV2 (record_of runID payload) = Ok encoded ∧
       digest = NewDigest encoded ∧ exists w1 w2, readRunRecord store runID w1 = (Ok encoded, w2)).
Proof.
  split; [intros; by eapply Get_record|]. intros runID payload digest H. unfold Put in H.
  next_call H u1 s1 H1. apply lift_Ok in H1 as [H1 ->]. skip_call H.
  next_call H u2 s2 H2. apply lift_Ok in H2 as [H2 ->]. next_call H u3 s3 H3. apply lift_Ok in H3 as [H3 ->].
  next_call H encoded s4 H4. apply lift_Ok in H4 as [H4 ->]. do 4 skip_call H.
  skip_call H. unfold confirm in H. do 4 skip_call H. next_call H record s6 H6. next_call H u7 s7 H7.
  apply fail_if_Ok in H7 as [H7 ->]. apply dec_stable in H7. subst record. cbn zeta in H. do 4 skip_call H.
  injection H as <- _. destruct u1, u2, u3. apply requireCanonicalJSON_ok in H2, H3.
  split_and!; [done|done|done|]. exists encoded. split_and!; [done|done|]. by eexists _, _.
Qed.
End Answers.
