(* ===== verification/RunDisk.v ===== *)
(** * Published runs on an ordinary disk

    The file system of Disk.v with the calls of internal/runstore, and the
    immutability of published runs on it: no operation of the store changes
    or removes what a run's directory holds. *)
From Stdlib Require Import ZArith Ascii String Lia.
From stdpp Require Import base gmap sets list strings pretty.
From S2P Require Import Prelude Schema Canonical CanonicalSpec Documents CAS CASSpec Disk RunStore.
Local Open Scope Z_scope.
Local Open Scope string_scope.
Local Open Scope list_scope.

(** ** Renaming *)
Definition moved (old new : Path) (names : gmap Path Z) : gmap Path Z :=
  list_to_map ((fun '(k, v) => (new ++ drop (length old) k, v)) <$> map_to_list (filter (fun kv => old `prefix_of` kv.1) names))
  ∪ filter (fun kv => ~ old `prefix_of` kv.1) names.

(** A directory has names below it. *)
Definition populated (p : Path) (names : gmap Path Z) : Prop :=
  map_Exists (fun k _ => p `prefix_of` k ∧ k ≠ p) names.
#[export] Instance populated_dec p names : Decision (populated p names).
Proof. unfold populated. apply _. Defined.

(** What an existing destination allows. *)
Definition replaceable (d : Disk) (source destination : option node) (new : Path) : bool :=
  match source, destination with
  | Some (Regular _), Some (Regular _) => true
  | Some Directory, Some Directory => negb (bool_decide (populated new (names d)))
  | _, _ => false
  end.

Definition disk_Rename (old new : Path) : GoM Disk error unit := fun d =>
  match names d !! old, names d !! new with
  | None, _ => (Err missing, d)
  | Some inode, None => (Ok tt, mkDisk (inodes d) (moved old new (names d)) (nextInode d))
  | Some inode, Some other =>
      if replaceable d (inodes d !! inode) (inodes d !! other) new then
        (Ok tt, mkDisk (inodes d) (moved old new (delete new (names d))) (nextInode d))
      else (Err taken, d)
  end.

#[export] Instance disk_run_filesystem : RunFileSystem Disk Z := {
  run_files := disk_filesystem;
  fs_MkdirTemp := fun d =>
    let name := [".run-" +:+ pretty (nextInode d)] in
    (disk_Create name Directory;; mret name) d;
  fs_RemoveAll p := fun d =>
    (Ok tt, mkDisk (inodes d) (filter (fun kv => ~ p `prefix_of` kv.1) (names d)) (nextInode d));
  fs_Rename := disk_Rename;
  fs_ReadDir := fun d =>
    (Ok (omap (fun '(k, inode) =>
           match k with
           | [name] => Some (name, match inodes d !! inode with Some Directory => true | _ => false end)
           | _ => None
           end) (map_to_list (names d))), d);
  fs_OpenExclusive p := disk_Create p (Regular []);
  fs_ChmodRoot := mret tt;
  info_Perm _ := 448
}.

Definition disk_run_store (limit : Z) : RunStore := mkRunStore (info_of 1 Directory) limit.

(** ** A published run *)

(** The root is there and inodes are not used twice. *)
Record sound_disk (d : Disk) : Prop := {
  sd_root : names d !! [] = Some 1 ∧ inodes d !! 1 = Some Directory;
  sd_allocated : forall inode, is_Some (inodes d !! inode) -> inode < nextInode d
}.

(** The directory of the run, its record and what that holds. *)
Record published_run (id : string) (directory record : Z) (data : list ascii) (d : Disk) : Prop := {
  pr_directory : names d !! [id] = Some directory ∧ inodes d !! directory = Some Directory;
  pr_record : names d !! [id; "record.json"] = Some record ∧ inodes d !! record = Some (Regular data)
}.

Section Published.
Context (id : string) (Hid : InstanceID_Validate id = Ok tt) (published : bool) (directory record : Z) (data : list ascii).

Definition holds (d : Disk) : Prop :=
  sound_disk d ∧ (published = true -> published_run id directory record data d).

(** Nothing that starts with [p] is a part of the run. *)
Definition foreign (p : Path) : Prop := ~ p `prefix_of` [] ∧ ~ p `prefix_of` [id] ∧ ~ p `prefix_of` [id; "record.json"].

Lemma foreign_name name rest : name ≠ id -> foreign (name :: rest).
Proof.
  intros H. split_and!; intros [k Hk]; [done| |]; injection Hk; intros; by subst.
Qed.

(** The first character of an identifier is a hexadecimal digit. *)
Lemma id_first c name : is_lower_hex c = false -> String c name ≠ id.
Proof.
  intros Hc <-. apply InstanceID_Validate_ok in Hid as [Hu _]. unfold uuidV7Pattern in Hu. cbn in Hu.
  by rewrite Hc in Hu.
Qed.

(** ** Calls that leave the run alone *)
Definition guards {A} (m : GoM Disk error A) (Q : A -> Prop) : Prop :=
  forall d, holds d -> let '(r, d') := m d in holds d' ∧ forall a, r = Ok a -> Q a.
Definition guards_world (f : Disk -> Disk) : Prop := forall d, holds d -> holds (f d).

Lemma guards_bind {A B} (m : GoM Disk error A) (k : A -> GoM Disk error B) Q R :
  guards m Q -> (forall a, Q a -> guards (k a) R) -> guards (m ≫= k) R.
Proof.
  intros Hm Hk d Hd. specialize (Hm d Hd). unfold mbind, gom_bind. destruct (m d) as [[a|e] d'].
  - destruct Hm as [Hd' Ha]. exact (Hk a (Ha a eq_refl) d' Hd').
  - destruct Hm as [Hd' _]. by split.
Qed.
Lemma guards_same {A} (m : GoM Disk error A) : (forall d, (m d).2 = d) -> guards m (fun _ => True).
Proof. intros H d Hd. specialize (H d). destruct (m d) as [r d']. cbn in H. by subst. Qed.
Lemma guards_ret {A} (a : A) : guards (mret a) (eq a).
Proof. intros d Hd. split; [done|]. by intros b [= ->]. Qed.
Lemma guards_fail {A} e (Q : A -> Prop) : guards (fail e) Q.
Proof. by intros d Hd. Qed.
Lemma guards_lift {A} (r : result error A) : guards (lift r) (fun _ => True).
Proof. by apply guards_same. Qed.
Lemma guards_fail_if (P : Prop) `{Decision P} e : guards (fail_if P e) (fun _ => True).
Proof. apply guards_same. intros d. unfold fail_if. by destruct (decide P). Qed.
Lemma guards_wrapM {A} f (m : GoM Disk error A) Q : guards m Q -> guards (wrapM f m) Q.
Proof. intros H d Hd. specialize (H d Hd). unfold wrapM. destruct (m d) as [[a|e] d']; [|by destruct H]. exact H. Qed.
Lemma guards_try {A} (m : GoM Disk error A) Q : guards m Q -> guards (try m) (fun r => forall a, r = Ok a -> Q a).
Proof. intros H d Hd. specialize (H d Hd). unfold try. destruct (m d) as [r d']. destruct H as [H1 H2]. split; [done|]. by intros r' [= <-]. Qed.
Lemma guards_defer {A} f (m : GoM Disk error A) Q : guards_world f -> guards m Q -> guards (defer f m) Q.
Proof. intros Hf H d Hd. specialize (H d Hd). unfold defer. destruct (m d) as [r d']. destruct H as [H1 H2]. split; [by apply Hf|done]. Qed.
Lemma guards_on_error {A} f (m : GoM Disk error A) Q : guards_world f -> guards m Q -> guards (on_error f m) Q.
Proof.
  intros Hf H d Hd. specialize (H d Hd). unfold on_error. destruct (m d) as [[a|e] d']; [done|].
  destruct H as [H1 _]. split; [by apply Hf|done].
Qed.
Lemma guards_weaken {A} (m : GoM Disk error A) (Q R : A -> Prop) : guards m Q -> (forall a, Q a -> R a) -> guards m R.
Proof. intros H HQ d Hd. specialize (H d Hd). destruct (m d) as [r d']. destruct H as [H1 H2]. naive_solver. Qed.

(** Reading calls. *)
Lemma guards_Lstat p : guards (fs_Lstat p) (fun _ => True).
Proof.
  apply guards_same. intros d. cbn. unfold disk_Lstat, disk_Lookup, disk_Stat, mbind, gom_bind.
  destruct (names d !! p); [|done]. by destruct (inodes d !! z).
Qed.
Lemma guards_Open p : guards (fs_Open p) (fun _ => True).
Proof. apply guards_same. intros d. cbn. unfold disk_Lookup. by destruct (names d !! p). Qed.
Lemma guards_Stat f : guards (file_Stat f) (fun _ => True).
Proof. apply guards_same. intros d. cbn. unfold disk_Stat. by destruct (inodes d !! f). Qed.
Lemma guards_ReadAll f n : guards (file_ReadAll f n) (fun _ => True).
Proof. apply guards_same. intros d. cbn. by destruct (inodes d !! f) as [[]|]. Qed.
Lemma guards_Close f : guards (file_Close f) (fun _ => True).
Proof. by apply guards_same. Qed.
Lemma guards_Sync f : guards (file_Sync f) (fun _ => True).
Proof. by apply guards_same. Qed.
Lemma guards_Chmod f : guards (file_Chmod f) (fun _ => True).
Proof. by apply guards_same. Qed.
Lemma guards_closing f : guards_world (fun w => (file_Close f w).2).
Proof. by intros d Hd. Qed.

(** Writing calls. *)
Definition other_file (f : Z) : Prop := published = true -> f ≠ record.

Lemma sound_renamed names' d : sound_disk d -> names' !! [] = names d !! [] ->
  sound_disk (mkDisk (inodes d) names' (nextInode d)).
Proof. intros [[R1 R2] A] E. split; cbn; rewrite ?E; done. Qed.
Lemma holds_renamed names' d : holds d -> (forall p, p = [] ∨ p = [id] ∨ p = [id; "record.json"] -> names' !! p = names d !! p) ->
  holds (mkDisk (inodes d) names' (nextInode d)).
Proof.
  intros [S P] E. split; [by apply sound_renamed; [|apply E; left]|].
  intros Hp. destruct (P Hp) as [D F]. split; cbn; rewrite E by tauto; done.
Qed.
Lemma guards_Write f bytes : other_file f -> guards (file_Write f bytes) (fun _ => True).
Proof.
  intros Hf d [S P]. cbn. destruct (inodes d !! f) as [[|old]|] eqn:E; [done| |done]. split; [|done].
  destruct S as [[R1 R2] A]. split.
  - split; cbn; [by rewrite lookup_insert_ne by congruence|]. intros i Hi. apply A.
    destruct (decide (f = i)) as [<-|]; [by eexists|]. by rewrite lookup_insert_ne in Hi.
  - intros Hp. destruct (P Hp) as [[D1 D2] [F1 F2]]. specialize (Hf Hp).
    split; cbn; rewrite lookup_insert_ne by congruence; done.
Qed.
Lemma guards_Create p n : guards (disk_Create p n) other_file.
Proof.
  intros d [[[R1 R2] A] P]. unfold disk_Create. destruct (names d !! p) as [i|] eqn:E; [by split|].
  assert (N : forall i n, inodes d !! i = Some n -> nextInode d ≠ i).
  { intros i m Hi. assert (i < nextInode d) by (apply A; by eexists). lia. }
  split; [split|].
  - split; cbn; [rewrite !lookup_insert_ne; [done|by eapply N|congruence]|].
    intros i Hi. destruct (decide (nextInode d = i)) as [<-|]; [lia|]. rewrite lookup_insert_ne in Hi by done.
    specialize (A i Hi). lia.
  - intros Hp. destruct (P Hp) as [[D1 D2] [F1 F2]].
    split; cbn; (rewrite !lookup_insert_ne; [done|by eapply N|congruence]).
  - intros a [= <-] Hp. destruct (P Hp) as [_ [F1 F2]]. by eapply N.
Qed.
Lemma guards_CreateTemp : guards (fs_CreateTemp []) (fun '(name, file) => foreign name ∧ other_file file).
Proof.
  intros d Hd. cbn.
  assert (H : guards (inode ← disk_Create (temporary_name d []) (Regular []); mret (temporary_name d [], inode))
                (fun '(name, file) => foreign name ∧ other_file file)).
  { eapply guards_bind; [apply guards_Create|]. intros f Hf. eapply guards_weaken; [apply guards_ret|].
    intros [name file] [= <- <-]. split; [|done]. by apply foreign_name, id_first. }
  exact (H d Hd).
Qed.
Lemma guards_MkdirTemp : guards fs_MkdirTemp foreign.
Proof.
  intros d Hd. cbn. set (name := [_]).
  assert (H : guards (disk_Create name Directory;; mret name) foreign).
  { eapply guards_bind; [apply guards_Create|]. intros f Hf. eapply guards_weaken; [apply guards_ret|].
    intros ? <-. by apply foreign_name, id_first. }
  exact (H d Hd).
Qed.
Lemma guards_OpenExclusive p : guards (fs_OpenExclusive p) other_file.
Proof. apply guards_Create. Qed.

(** A path of the run does not start with a foreign one. *)
Lemma foreign_part p q : foreign p -> q = [] ∨ q = [id] ∨ q = [id; "record.json"] -> ~ p `prefix_of` q.
Proof. intros (H1 & H2 & H3) [->|[->| ->]]; done. Qed.
Lemma guards_RemoveAll p : foreign p -> guards_world (fun w => (fs_RemoveAll p w).2).
Proof.
  intros Hp d Hd. cbn. apply (holds_renamed _ _ Hd). intros q Hq.
  destruct (names d !! q) as [i|] eqn:E.
  - apply map_lookup_filter_Some. split; [done|]. by apply foreign_part.
  - apply map_lookup_filter_None. by left.
Qed.
Lemma guards_Remove p : foreign p -> guards_world (fun w => (fs_Remove p w).2).
Proof.
  intros Hp d Hd. cbn. apply (holds_renamed _ _ Hd). intros q Hq.
  apply lookup_delete_ne. intros ->. by apply (foreign_part q q Hp).
Qed.

(** Moving a directory changes the names below the old and the new one. *)
Lemma moved_elsewhere old new ns q : ~ old `prefix_of` q -> ~ new `prefix_of` q -> moved old new ns !! q = ns !! q.
Proof.
  intros Ho Hn. unfold moved. rewrite lookup_union_r.
  - destruct (ns !! q) as [i|] eqn:E; [by apply map_lookup_filter_Some|]. apply map_lookup_filter_None. by left.
  - apply not_elem_of_list_to_map_1. rewrite <- list_fmap_compose. intros ([k v] & -> & _)%list_elem_of_fmap.
    cbn in Hn. apply Hn. by exists (drop (length old) k).
Qed.
Lemma guards_Rename old name : foreign old -> guards (fs_Rename old [name]) (fun _ => True).
Proof.
  intros Ho d Hd. cbn. unfold disk_Rename. destruct (names d !! old) as [i|]; [|done].
  destruct (decide (published = true ∧ name = id)) as [[Hp ->]|Hname].
  - destruct Hd as [S P]. destruct (P Hp) as [[D1 D2] [F1 F2]]. rewrite D1, D2. unfold replaceable.
    destruct (inodes d !! i) as [[|?]|]; [|done..]. rewrite bool_decide_true; [done|].
    exists [id; "record.json"], record. split_and!; [done| |done]. by exists ["record.json"].
  - assert (Hr : forall names', (names' = moved old [name] (names d) ∨ names' = moved old [name] (delete [name] (names d))) ->
      holds (mkDisk (inodes d) names' (nextInode d))).
    { intros names' Hn. destruct Hd as [S P]. split.
      - apply (sound_renamed _ _ S). destruct Ho as (Ho & _ & _).
        destruct Hn as [->| ->]; (rewrite moved_elsewhere; [|done|by intros [k ?]]); [done|]. by rewrite lookup_delete_ne.
      - intros Hp. destruct (P Hp) as [D F]. assert (Hf : foreign [name]) by (apply foreign_name; tauto).
        assert (E : forall p, p = [] ∨ p = [id] ∨ p = [id; "record.json"] -> names' !! p = names d !! p).
        { intros q Hq. destruct Hn as [->| ->]; rewrite moved_elsewhere by (by apply foreign_part); [done|].
          apply lookup_delete_ne. intros <-. by apply (foreign_part [name] [name] Hf). }
        split; cbn; rewrite E by tauto; done. }
    destruct (names d !! [name]) as [j|]; [destruct replaceable; [|done]|]; (split; [|done]); apply Hr; tauto.
Qed.

(** ** Operations *)
Context {lib : DocumentLibrary} {codec : RunCodec} (store : RunStore).
Abbreviation safe m := (guards m (fun _ => True)).

Lemma guards_then {A B} (m : GoM Disk error A) (k : A -> GoM Disk error B) R :
  safe m -> (forall a, guards (k a) R) -> guards (m ≫= k) R.
Proof. intros Hm Hk. eapply guards_bind; [exact Hm|]. intros a _. apply Hk. Qed.
Lemma guards_ret_safe {A} (a : A) : safe (mret a).
Proof. by eapply guards_weaken; [apply guards_ret|]. Qed.
Lemma guards_try_safe {A} (m : GoM Disk error A) : safe m -> safe (try m).
Proof. intros H. by eapply guards_weaken; [apply guards_try, H|]. Qed.

Lemma guards_validateRoot : safe (validateRoot store).
Proof.
  unfold validateRoot. apply guards_then; [apply guards_wrapM, guards_Lstat|]. intros info. apply guards_fail_if.
Qed.
Lemma guards_rootAware {A} (m : GoM Disk error A) Q : guards m Q -> guards (rootAware store m) Q.
Proof.
  intros H. unfold rootAware. eapply guards_bind; [by apply guards_try|]. intros [a|e] Ha.
  - eapply guards_weaken; [apply guards_ret|]. intros ? <-. by apply Ha.
  - apply guards_then; [apply guards_validateRoot|]. intros _. apply guards_fail.
Qed.

(** One step through the body of an operation. *)
Ltac guard_call :=
  match goal with
  | |- guards (mbind _ _) _ => apply guards_then; [|intros]
  | |- guards (mret _) _ => apply guards_ret_safe
  | |- guards (fail _) _ => apply guards_fail
  | |- guards (lift _) _ => apply guards_lift
  | |- guards (fail_if _ _) _ => apply guards_fail_if
  | |- guards (wrapM _ _) _ => apply guards_wrapM
  | |- guards (try _) _ => apply guards_try_safe
  | |- guards (defer _ _) _ => apply guards_defer; [apply guards_closing|]
  | |- guards (validateRoot _) _ => apply guards_validateRoot
  | |- guards (rootAware _ _) _ => apply guards_rootAware
  | |- guards (fs_Lstat _) _ => apply guards_Lstat
  | |- guards (fs_Open _) _ => apply guards_Open
  | |- guards (file_Stat _) _ => apply guards_Stat
  | |- guards (file_ReadAll _ _) _ => apply guards_ReadAll
  | |- guards (file_Close _) _ => apply guards_Close
  | |- guards (file_Sync _) _ => apply guards_Sync
  | |- guards (file_Chmod _) _ => apply guards_Chmod
  | |- guards (match ?x with _ => _ end) _ => destruct x
  | |- guards (let _ := _ in _) _ => cbn zeta
  end.

Lemma guards_syncDirectoryPlatform p : safe (syncDirectoryPlatform p).
Proof. unfold syncDirectoryPlatform. repeat guard_call. Qed.
Lemma guards_syncDirectory : safe (syncDirectory store).
Proof. unfold syncDirectory. repeat guard_call. apply guards_syncDirectoryPlatform. Qed.
Lemma guards_syncTemporaryDirectory p identity : safe (syncTemporaryDirectory store p identity).
Proof. unfold syncTemporaryDirectory. repeat guard_call. apply guards_syncDirectoryPlatform. Qed.
Lemma guards_readRegular p limit : safe (readRegular p limit).
Proof. unfold readRegular, read_opened. repeat guard_call. Qed.
Lemma guards_writeExclusive p bytes : safe (writeExclusive p bytes).
Proof.
  unfold writeExclusive. eapply guards_bind; [apply guards_OpenExclusive|]. intros f Hf.
  repeat guard_call. by apply guards_Write.
Qed.
Lemma guards_readRunRecord runID : safe (readRunRecord store runID).
Proof. unfold readRunRecord. repeat guard_call. apply guards_readRegular. Qed.
Lemma guards_readLatest : safe (readLatest store).
Proof. unfold readLatest. repeat guard_call. apply guards_readRegular. Qed.

Lemma guards_after {A} (m : GoM Disk error A) d r d' : safe m -> holds d -> m d = (r, d') -> holds d'.
Proof. intros H Hd E. specialize (H d Hd). rewrite E in H. tauto. Qed.
Lemma guards_discard (name : Path) (check : FileInfo -> bool) (remove : Disk -> Disk) : guards_world remove ->
  guards_world (fun w =>
    match validateRoot store w with
    | (Err _, w) => w
    | (Ok _, w) =>
        match fs_Lstat name w with
        | (Ok current, w) => if check current then remove w else w
        | (Err _, w) => w
        end
    end).
Proof.
  intros Hr d Hd. destruct (validateRoot store d) as [[[]|e] d1] eqn:E1;
    apply (guards_after _ _ _ _ guards_validateRoot Hd) in E1; [|done].
  destruct (fs_Lstat name d1) as [[i|e] d2] eqn:E2; apply (guards_after _ _ _ _ (guards_Lstat name) E1) in E2; [|done].
  destruct (check i); [by apply Hr|done].
Qed.
Lemma guards_discard_directory p identity : foreign p -> guards_world (discard_directory store p identity).
Proof. intros Hp. exact (guards_discard p (fun i => is_directory i && SameFile identity i) _ (guards_RemoveAll p Hp)). Qed.
Lemma guards_discard_file p identity f : foreign p -> guards_world (discard_file store p identity f).
Proof.
  intros Hp d Hd. unfold discard_file. cbn zeta.
  exact (guards_discard p (fun i => negb (fiSymlink i) && fiIsRegular i && SameFile identity i) _ (guards_Remove p Hp) _
           (guards_closing f d Hd)).
Qed.

Lemma guards_write_latest name identity f bytes : foreign name -> other_file f ->
  safe (write_latest store name identity f bytes).
Proof.
  intros Hn Hf. unfold write_latest. repeat guard_call; [by apply guards_Write|].
  by apply guards_Rename.
Qed.
Lemma guards_replaceLatest bytes : safe (replaceLatest store bytes).
Proof.
  unfold replaceLatest. apply guards_then; [guard_call|]. intros _.
  eapply guards_bind; [apply guards_rootAware, guards_CreateTemp|]. intros [name f] [Hn Hf].
  repeat guard_call; [|apply guards_syncDirectory].
  apply guards_on_error; [by apply guards_discard_file|by apply guards_write_latest].
Qed.
Lemma guards_publish runID encoded temporary identity : foreign temporary ->
  safe (publish store runID encoded temporary identity).
Proof.
  intros Ht. unfold publish. repeat guard_call.
  - apply guards_writeExclusive.
  - apply guards_readRegular.
  - apply guards_syncTemporaryDirectory.
  - by apply guards_Rename.
Qed.
Lemma guards_confirm runID encoded identity : safe (confirm store runID encoded identity).
Proof.
  unfold confirm. repeat guard_call; [apply guards_syncDirectory|apply guards_readRunRecord|apply guards_replaceLatest].
Qed.
Lemma guards_Put runID payload : safe (Put store runID payload).
Proof.
  unfold Put. do 7 (apply guards_then; [guard_call|intros ?]).
  eapply guards_bind; [apply guards_rootAware, guards_MkdirTemp|]. intros temporary Ht.
  repeat guard_call; [|apply guards_confirm].
  apply guards_on_error; [by apply guards_discard_directory|by apply guards_publish].
Qed.
Lemma guards_Get reference allowLatest : safe (Get store reference allowLatest).
Proof. unfold Get, find. repeat guard_call; (apply guards_readLatest || apply guards_readRunRecord). Qed.
Lemma guards_Resolve reference allowLatest : safe (Resolve store reference allowLatest).
Proof. unfold Resolve. repeat guard_call; (apply guards_readLatest || apply guards_readRunRecord). Qed.
Lemma guards_List : safe (RunStore.List store).
Proof. unfold RunStore.List. repeat guard_call. by apply guards_same. Qed.

(** A run is not published twice. *)
Lemma guards_existing : published = true -> guards (try (fs_Lstat [id])) (fun r => exists info, r = Ok info).
Proof.
  intros Hp d Hd. destruct Hd as [S P]. destruct (P Hp) as [[D1 D2] _].
  unfold try. cbn. unfold disk_Lstat, disk_Lookup, disk_Stat, mbind, gom_bind. rewrite D1, D2.
  split; [by split|]. intros r [= <-]. by eexists.
Qed.
Lemma guards_publish_again encoded temporary identity : published = true -> foreign temporary ->
  guards (publish store id encoded temporary identity) (fun _ => False).
Proof.
  intros Hp Ht. unfold publish.
  do 9 (apply guards_then;
    [solve [repeat guard_call; auto using guards_writeExclusive, guards_readRegular, guards_syncTemporaryDirectory]|intros ?]).
  cbn zeta. eapply guards_bind; [by apply guards_existing|]. intros r [info ->].
  apply (guards_bind _ _ (fun _ => False)); [apply guards_fail|by intros ? []].
Qed.
Lemma guards_Put_again payload : published = true -> guards (Put store id payload) (fun _ => False).
Proof.
  intros Hp. unfold Put. do 7 (apply guards_then; [guard_call|intros ?]).
  eapply guards_bind; [apply guards_rootAware, guards_MkdirTemp|]. intros temporary Ht.
  apply guards_then; [repeat guard_call|]. intros identity. apply (guards_bind _ _ (fun _ => False)); [|by intros ? []].
  apply guards_on_error; [by apply guards_discard_directory|by apply guards_publish_again].
Qed.
End Published.

(** ** Sequences of operations *)
Inductive operation :=
| OpPut (runID : InstanceID) (payload : Payload)
| OpGet (reference : string) (allowLatest : bool)
| OpResolve (reference : string) (allowLatest : bool)
| OpList.

Section Sequences.
Context {lib : DocumentLibrary} {codec : RunCodec} (store : RunStore).

Definition perform (op : operation) (d : Disk) : Disk :=
  match op with
  | OpPut runID payload => (Put store runID payload d).2
  | OpGet reference allowLatest => (Get store reference allowLatest d).2
  | OpResolve reference allowLatest => (Resolve store reference allowLatest d).2
  | OpList => (RunStore.List store d).2
  end.
Definition performs (ops : list operation) (d : Disk) : Disk := foldl (fun d op => perform op d) d ops.

Lemma guards_second id published directory record data {A} (m : GoM Disk error A) d :
  guards id published directory record data m (fun _ => True) -> holds id published directory record data d ->
  holds id published directory record data (m d).2.
Proof. intros H Hd. specialize (H d Hd). destruct (m d). tauto. Qed.

Lemma performs_holds id published directory record data ops d : InstanceID_Validate id = Ok tt ->
  holds id published directory record data d -> holds id published directory record data (performs ops d).
Proof.
  intros Hid. revert d. induction ops as [|op ops IH]; intros d Hd; [done|]. apply IH.
  destruct op; apply guards_second; [by apply guards_Put|done|by apply guards_Get|done|by apply guards_Resolve|done|
    by apply guards_List|done].
Qed.
End Sequences.

(** ** Reading a published run *)
Section Reading.
Context {lib : DocumentLibrary} {codec : RunCodec} (limit : Z).
Abbreviation store := (disk_run_store limit).

Lemma run_gom_bind {A B} (m : GoM Disk error A) (k : A -> GoM Disk error B) d a d' :
  m d = (Ok a, d') -> (m ≫= k) d = k a d'.
Proof. intros H. unfold mbind, gom_bind. by rewrite H. Qed.
Lemma fail_if_passes (P : Prop) `{Decision P} (e : error) (d : Disk) : ~ P -> fail_if P e d = (Ok tt, d).
Proof. intros HP. unfold fail_if. by rewrite decide_False. Qed.
Lemma SameFile_refl info : SameFile info info = true.
Proof. unfold SameFile. by apply bool_decide_true. Qed.

Lemma Lstat_node p inode n d : names d !! p = Some inode -> inodes d !! inode = Some n ->
  @fs_Lstat _ _ run_files p d = (Ok (info_of inode n), d).
Proof. intros H1 H2. cbn. unfold disk_Lstat, disk_Lookup, disk_Stat, mbind, gom_bind. by rewrite H1, H2. Qed.
Lemma validateRoot_disk d : sound_disk d -> validateRoot store d = (Ok tt, d).
Proof.
  intros [[R1 R2] _]. unfold validateRoot.
  rewrite (run_gom_bind _ _ d (info_of 1 Directory) d); [done|].
  unfold wrapM. by rewrite (Lstat_node [] 1 Directory d R1 R2).
Qed.

Lemma is_directory_node inode n : is_directory (info_of inode n) = true -> n = Directory.
Proof. by destruct n. Qed.
Lemma regular_node inode n bound : regularWithinLimit (info_of inode n) bound = true -> exists data, n = Regular data.
Proof. destruct n as [|data]; [done|by exists data]. Qed.
Lemma Lstat_disk p d info d' : @fs_Lstat _ _ run_files p d = (Ok info, d') ->
  d' = d ∧ exists inode n, names d !! p = Some inode ∧ inodes d !! inode = Some n ∧ info = info_of inode n.
Proof.
  cbn. unfold disk_Lstat, disk_Lookup, disk_Stat, mbind, gom_bind. destruct (names d !! p) as [i|]; [|done].
  destruct (inodes d !! i) as [n|] eqn:E; [|done]. intros [= <- <-]. split; [done|]. by exists i, n.
Qed.

(** A regular file is read in full. *)
Lemma readRegular_disk p bound d raw d' : readRegular p bound d = (Ok raw, d') ->
  d' = d ∧ exists inode, names d !! p = Some inode ∧ inodes d !! inode = Some (Regular raw).
Proof.
  unfold readRegular. intros H. next_call H u s0 H0. apply fail_if_Ok in H0 as [_ ->].
  next_call H prior s1 H1. apply Lstat_disk in H1 as [-> (inode & n & N1 & N2 & ->)].
  next_call H u1 s2 H2. apply fail_if_Ok in H2 as [H2 ->]. apply not_false_is_true in H2.
  apply regular_node in H2 as Hn. destruct Hn as [data ->].
  next_call H f s3 H3. cbn in H3. unfold disk_Lookup in H3. rewrite N1 in H3. injection H3 as <- <-.
  apply defer_Ok in H as (w1 & H & ->). unfold read_opened in H.
  next_call H opened s4 H4. cbn in H4. unfold disk_Stat in H4. rewrite N2 in H4. injection H4 as <- <-.
  next_call H u3 s5 H5. apply fail_if_Ok in H5 as [_ ->].
  next_call H bytes s6 H6. cbn in H6. rewrite N2 in H6. injection H6 as <- <-.
  next_call H later s7 H7. cbn in H7. unfold disk_Stat in H7. rewrite N2 in H7. injection H7 as <- <-.
  next_call H after s8 H8. apply wrapM_Ok, Lstat_disk in H8 as [-> _].
  next_call H u4 s9 H9. apply fail_if_Ok in H9 as [H9 ->]. injection H as <- <-.
  split; [done|]. exists inode. split; [done|].
  assert (L : Z.of_nat (length (take (Z.to_nat (Z.min (if decide (int64_wrap (bound + 1) <= 0) then bound
    else int64_wrap (bound + 1)) (Z.of_nat (length data)))) data)) = Z.of_nat (length data)) by (apply dec_stable; tauto).
  rewrite length_take in L. rewrite take_ge by lia. done.
Qed.

Lemma validateRoot_same d r d' : validateRoot store d = (r, d') -> d' = d.
Proof.
  intros H. unfold validateRoot, wrapM, fail_if, mbind, gom_bind in H. cbn in H.
  unfold disk_Lstat, disk_Lookup, disk_Stat, mbind, gom_bind in H.
  destruct (names d !! []) as [i|]; [|by injection H].
  destruct (inodes d !! i) as [n|]; [|by injection H]. cbn in H. by destruct (decide _); injection H.
Qed.

Lemma readRunRecord_disk (runID : string) d raw d' : readRunRecord store runID d = (Ok raw, d') ->
  d' = d ∧ exists directory record, published_run runID directory record raw d.
Proof.
  unfold readRunRecord. intros H. next_call H u1 s1 H1. apply validateRoot_same in H1 as ->.
  next_call H prior s2 H2. apply rootAware_Ok, Lstat_disk in H2 as [-> (directory & n & D1 & D2 & ->)].
  next_call H u2 s3 H3. apply fail_if_Ok in H3 as [H3%not_false_is_true ->]. apply is_directory_node in H3 as ->.
  next_call H u3 s4 H4. apply validateRoot_same in H4 as ->.
  next_call H bytes s5 H5. apply rootAware_Ok, readRegular_disk in H5 as [-> (record & F1 & F2)].
  next_call H u4 s6 H6. apply validateRoot_same in H6 as ->.
  next_call H later s7 H7. apply wrapM_Ok, Lstat_disk in H7 as [-> _].
  next_call H u5 s8 H8. apply fail_if_Ok in H8 as [_ ->]. next_call H u6 s9 H9. apply validateRoot_same in H9 as ->.
  injection H as -> <-. split; [done|]. exists directory, record. by split.
Qed.

Lemma rootAware_run {A} (m : GoM Disk error A) d a d' : m d = (Ok a, d') -> rootAware store m d = (Ok a, d').
Proof. intros H. unfold rootAware. rewrite (run_gom_bind _ _ d (Ok a) d'); [done|]. unfold try. by rewrite H. Qed.

Lemma wrapM_run {A} (f : error -> error) (m : GoM Disk error A) d a d' : m d = (Ok a, d') -> wrapM f m d = (Ok a, d').
Proof. intros H. unfold wrapM. by rewrite H. Qed.

Lemma readRegular_reads p inode raw d : limit <= int64_max -> 0 < Z.of_nat (length raw) <= limit ->
  names d !! p = Some inode -> inodes d !! inode = Some (Regular raw) ->
  readRegular p limit d = (Ok raw, d).
Proof.
  intros Hm Hl N1 N2. unfold readRegular.
  assert (G : regularWithinLimit (info_of inode (Regular raw)) limit = true).
  { unfold regularWithinLimit. cbn. by apply bool_decide_true. }
  rewrite (run_gom_bind _ _ d tt d) by (apply fail_if_passes; lia).
  rewrite (run_gom_bind _ _ _ _ _ (Lstat_node _ _ _ _ N1 N2)).
  rewrite (run_gom_bind _ _ d tt d) by (apply fail_if_passes; by rewrite G).
  rewrite (run_gom_bind _ _ d inode d) by (cbn; unfold disk_Lookup; by rewrite N1).
  unfold defer. enough (read_opened p limit (info_of inode (Regular raw)) inode d = (Ok raw, d)) as -> by done.
  assert (S : file_Stat inode d = (Ok (info_of inode (Regular raw)), d)) by (cbn; unfold disk_Stat; by rewrite N2).
  unfold read_opened. rewrite (run_gom_bind _ _ _ _ _ S).
  rewrite (run_gom_bind _ _ d tt d) by (apply fail_if_passes; rewrite G, SameFile_refl; naive_solver).
  cbn zeta. rewrite (run_gom_bind _ _ d raw d).
  2: { cbn. rewrite N2. rewrite take_ge; [done|]. rewrite Z2Nat.inj_min, Nat2Z.id.
    case_decide as Hw; [lia|]. destruct (decide (limit = int64_max)) as [->|]; [vm_compute in Hw; by destruct Hw|].
    rewrite int64_wrap_id by (unfold int64_range, int64_min, int64_max in *; lia). lia. }
  rewrite (run_gom_bind _ _ _ _ _ S).
  rewrite (run_gom_bind _ _ d (info_of inode (Regular raw)) d) by (unfold wrapM; by rewrite (Lstat_node _ _ _ _ N1 N2)).
  rewrite (run_gom_bind _ _ d tt d) by (apply fail_if_passes; rewrite G, SameFile_refl; cbn; naive_solver). done.
Qed.

Lemma readRunRecord_reads (runID : string) directory record raw d : limit <= int64_max ->
  0 < Z.of_nat (length raw) <= limit -> sound_disk d -> published_run runID directory record raw d ->
  readRunRecord store runID d = (Ok raw, d).
Proof.
  intros Hm Hl S [[D1 D2] [F1 F2]]. pose proof (validateRoot_disk d S) as V. unfold readRunRecord.
  rewrite (run_gom_bind _ _ _ _ _ V).
  rewrite (run_gom_bind _ _ _ _ _ (rootAware_run _ _ _ _ (Lstat_node _ _ _ _ D1 D2))).
  rewrite (run_gom_bind _ _ d tt d) by (by apply fail_if_passes).
  rewrite (run_gom_bind _ _ _ _ _ V).
  rewrite (run_gom_bind _ _ _ _ _ (rootAware_run _ _ _ _ (readRegular_reads _ _ _ _ Hm Hl F1 F2))).
  rewrite (run_gom_bind _ _ _ _ _ V).
  rewrite (run_gom_bind _ _ _ _ _ (wrapM_run _ _ _ _ _ (Lstat_node _ _ _ _ D1 D2))).
  rewrite (run_gom_bind _ _ d tt d) by (apply fail_if_passes; rewrite SameFile_refl; naive_solver).
  by rewrite (run_gom_bind _ _ _ _ _ V).
Qed.

Lemma guards_elim {A} id published directory record data (m : GoM Disk error A) Q d a d' :
  guards id published directory record data m Q -> holds id published directory record data d -> m d = (Ok a, d') ->
  holds id published directory record data d' ∧ Q a.
Proof. intros H Hd E. specialize (H d Hd). rewrite E in H. naive_solver. Qed.

(** What a successful [confirm] leaves on the disk. *)
Lemma confirm_publishes id encoded identity d digest d' : InstanceID_Validate id = Ok tt -> sound_disk d ->
  confirm store id encoded identity d = (Ok digest, d') ->
  digest = NewDigest encoded ∧ 0 < Z.of_nat (length encoded) <= limit ∧
  exists directory record, holds id true directory record encoded d'.
Proof.
  intros Hid S H. assert (U : holds id false 0 0 [] d) by (by split).
  unfold confirm in H. next_call H u1 s1 H1. apply validateRoot_same in H1 as ->.
  next_call H u2 s2 H2. eapply guards_elim in H2 as [U2 _]; [|by apply guards_wrapM, guards_syncDirectory|exact U].
  next_call H published s3 H3. apply wrapM_Ok, Lstat_disk in H3 as [-> _].
  next_call H u4 s4 H4. apply fail_if_Ok in H4 as [_ ->].
  next_call H record s5 H5. pose proof (readRunRecord_size _ _ _ _ _ H5) as L.
  apply readRunRecord_disk in H5 as [-> (directory & file & P)].
  next_call H u6 s6 H6. apply fail_if_Ok in H6 as [H6%dec_stable ->]. subst record. cbn zeta in H.
  next_call H pointer s7 H7. apply lift_Ok in H7 as [_ ->]. next_call H u8 s8 H8. apply validateRoot_same in H8 as ->.
  assert (U3 : holds id true directory file encoded s2) by (split; [apply U2|done]).
  next_call H u9 s9 H9. eapply guards_elim in H9 as [U9 _]; [|by apply guards_replaceLatest|exact U3].
  next_call H u10 s10 H10. apply validateRoot_same in H10 as ->. injection H as <- <-.
  split; [done|]. split; [exact L|]. by exists directory, file.
Qed.

Lemma Put_publishes id payload d digest d' : sound_disk d -> Put store id payload d = (Ok digest, d') ->
  InstanceID_Validate id = Ok tt ∧ canonical_within store (plBundle payload) ∧ canonical_within store (plPlan payload) ∧
  exists encoded directory record, CanonicalMarshal Marshal_recordV2 (record_of id payload) = Ok encoded ∧
    digest = NewDigest encoded ∧ 0 < Z.of_nat (length encoded) <= limit ∧ holds id true directory record encoded d'.
Proof.
  intros S H. unfold Put in H. next_call H u1 s1 H1. apply lift_Ok in H1 as [Hid ->]. destruct u1.
  next_call H u2 s2 H2. apply validateRoot_same in H2 as ->.
  next_call H u3 s3 H3. apply lift_Ok in H3 as [H3 ->]. destruct u3. apply requireCanonicalJSON_ok in H3.
  next_call H u4 s4 H4. apply lift_Ok in H4 as [H4 ->]. destruct u4. apply requireCanonicalJSON_ok in H4.
  next_call H encoded s5 H5. apply lift_Ok in H5 as [H5 ->].
  next_call H u6 s6 H6. apply fail_if_Ok in H6 as [_ ->]. next_call H u7 s7 H7. apply validateRoot_same in H7 as ->.
  assert (U : holds id false 0 0 [] d) by (by split).
  next_call H temporary s8 H8. eapply guards_elim in H8 as [U8 Ht]; [|by apply guards_rootAware, guards_MkdirTemp|exact U].
  next_call H stamp s9 H9. apply rootAware_Ok, Lstat_disk in H9 as [-> _].
  next_call H u10 s10 H10. eapply guards_elim in H10 as [U10 _];
    [|apply guards_on_error; [by apply guards_discard_directory|by apply guards_publish]|exact U8].
  apply confirm_publishes in H as (-> & L & directory & record & P); [|done|apply U10].
  split_and!; [done|done|done|]. by exists encoded, directory, record.
Qed.

(** A record of plain strings and of documents in canonical form. *)
Record canonical_record (record : RunRecord) : Prop := {
  cr_schema : rnSchemaVersion record = RecordSchema;
  cr_run : InstanceID_Validate (rnRunID record) = Ok tt;
  cr_digests : Digest_Validate (rnBundleDigest record) = Ok tt ∧ Digest_Validate (rnPlanDigest record) = Ok tt;
  cr_documents : Forall (fun raw => CanonicalizeJSON raw = Ok raw ∧ raw ≠ []) [rnBundle record; rnPlan record]
}.
(** What [encoding/json] reads back from the canonical encoding of such a
    record: RFC 8785 leaves a document that it made as it is, also inside
    another one, and a [json.RawMessage] keeps the bytes of its value. *)
Class RunCodecLaws : Prop := {
  record_reads_back record raw : canonical_record record -> CanonicalMarshal Marshal_recordV2 record = Ok raw ->
    CanonicalizeJSON raw = Ok raw ∧ Unmarshal_header raw = Ok (rnSchemaVersion record) ∧
    Decode_recordV2 raw = Ok (record, Err (Sentinel "EOF"))
}.

Lemma record_of_canonical id payload : InstanceID_Validate id = Ok tt ->
  canonical_within store (plBundle payload) -> canonical_within store (plPlan payload) -> canonical_record (record_of id payload).
Proof.
  intros Hid [B1 B2] [P1 P2]. split; [done|done|split; apply NewDigest_valid|].
  rewrite !Forall_cons. cbn. split_and!; [done|intros E; rewrite E in B2; cbn in B2; lia|done|intros E; rewrite E in P2; cbn in P2; lia|constructor].
Qed.

Lemma decode_published {laws : RunCodecLaws} id payload raw : InstanceID_Validate id = Ok tt ->
  canonical_within store (plBundle payload) -> canonical_within store (plPlan payload) ->
  CanonicalMarshal Marshal_recordV2 (record_of id payload) = Ok raw ->
  decodeRecord raw id limit = Ok (record_of id payload).
Proof.
  intros Hid Hb Hp H. destruct (record_reads_back _ _ (record_of_canonical _ _ Hid Hb Hp) H) as (_ & H1 & H2). unfold decodeRecord.
  rewrite H1. cbn [wrap mbind result_bind]. unfold strictDecode. rewrite H2.
  apply (requireCanonicalJSON_ok store "bundle") in Hb. apply (requireCanonicalJSON_ok store "plan") in Hp.
  change (rsMaxBytes store) with limit in Hb, Hp. rewrite decide_True by done. cbn -[NewDigest requireCanonicalJSON err_if].
  rewrite bool_decide_true by done. cbn -[NewDigest requireCanonicalJSON err_if].
  rewrite (proj2 (err_if_ok _ _)) by (rewrite Hp; naive_solver). cbn -[NewDigest requireCanonicalJSON err_if].
  by rewrite (proj2 (err_if_ok _ _)) by (rewrite Hb; naive_solver).
Qed.

Lemma Get_published {laws : RunCodecLaws} id payload raw directory record d : limit <= int64_max ->
  InstanceID_Validate id = Ok tt ->
  canonical_within store (plBundle payload) -> canonical_within store (plPlan payload) ->
  CanonicalMarshal Marshal_recordV2 (record_of id payload) = Ok raw -> 0 < Z.of_nat (length raw) <= limit ->
  holds id true directory record raw d -> Get store id false d = (Ok (record_of id payload), d).
Proof.
  intros Hm Hid Hb Hp H L [S P]. unfold Get.
  rewrite (run_gom_bind _ _ _ _ _ (validateRoot_disk d S)).
  rewrite (run_gom_bind _ _ d (id, None) d).
  2: { apply InstanceID_Validate_ok in Hid as [Hu Hl]. unfold find. rewrite Hl. unfold ParseInstanceID. by rewrite Hl, Hu. }
  cbn beta iota. rewrite (run_gom_bind _ _ d (Ok raw) d).
  2: { unfold try. by rewrite (readRunRecord_reads id directory record raw d Hm L S (P eq_refl)). }
  destruct (record_reads_back _ _ (record_of_canonical _ _ Hid Hb Hp) H) as (H1 & _ & _).
  rewrite (run_gom_bind _ _ d raw d) by done. rewrite (run_gom_bind _ _ d tt d) by (by apply fail_if_passes).
  rewrite (run_gom_bind _ _ d raw d) by (by rewrite H1).
  rewrite (run_gom_bind _ _ d tt d) by (apply fail_if_passes; tauto).
  rewrite (run_gom_bind _ _ d (record_of id payload) d); [done|].
  unfold lift. change (rsMaxBytes store) with limit. by rewrite (decode_published id payload raw Hid Hb Hp H).
Qed.

(** [C20] Published runs are immutable: on a disk that nobody else writes, once
    [Put] has answered a digest for a run, then after any sequence of
    operations, other publications and failures among them, [Get] answers
    exactly the record that was put, its bytes still have that digest, and
    every further [Put] of the run is refused.  That [Get] answers the record
    needs [RunCodecLaws]. *)
Theorem published_runs_are_immutable {laws : RunCodecLaws} id payload digest d d1 ops :
  limit <= int64_max -> sound_disk d -> Put store id payload d = (Ok digest, d1) ->
  let later := performs store ops d1 in
  (Get store id false later).1 = Ok (record_of id payload) ∧
  (exists raw, (readRunRecord store id later).1 = Ok raw ∧ NewDigest raw = digest) ∧
  forall again, exists e, (Put store id again later).1 = Err e.
Proof.
  intros Hm S H later. apply Put_publishes in H as (Hid & Hb & Hp & raw & directory & record & E & -> & L & P); [|done].
  apply (performs_holds store id true directory record raw ops d1 Hid) in P. fold later in P. split_and!.
  - by rewrite (Get_published id payload raw directory record later).
  - exists raw. destruct P as [S' P]. by rewrite (readRunRecord_reads id directory record raw later Hm L S' (P eq_refl)).
  - intros again. destruct (Put store id again later) as [[a|e] d'] eqn:Ea; [|by exists e].
    by destruct (guards_elim id true directory record raw _ _ _ _ _
      (guards_Put_again id Hid true directory record raw store again eq_refl) P Ea) as [_ []].
Qed.
End Reading.

(** ** Two runs on an ordinary disk *)
#[local] Instance sample_json : JSONLibrary := {
  NewDecoder raw := mkDecoder [Delim "{"; Delim "}"] io_EOF false;
  jcs_Transform raw := Ok raw;
  Sum256 data := resize 32 "0"%char data;
  Sum256_length data := length_resize data 32 "0"%char
}.
#[local] Instance sample_documents : DocumentLibrary := {
  document_json := sample_json;
  json_Valid _ := true;
  url_Parse _ := Err (ErrorNew (Text "no URL"))
}.

Definition first_run : InstanceID := "01890000-0000-7000-8000-000000000001".
Definition second_run : InstanceID := "01890000-0000-7000-8000-000000000002".
Definition first_payload : Payload := mkPayload (list_ascii_of_string "{}") (list_ascii_of_string "{}").
Definition second_payload : Payload := mkPayload (list_ascii_of_string "[]") (list_ascii_of_string "{}").
Definition first_record : RunRecord := record_of first_run first_payload.
Definition second_record : RunRecord := record_of second_run second_payload.

#[local] Instance RunRecord_eq_dec : EqDecision RunRecord.
Proof. solve_decision. Defined.

(** A codec that knows these two runs. *)
Definition byte_of (runID : InstanceID) : list ascii :=
  list_ascii_of_string (if decide (runID = first_run) then "1" else "2").
Definition record_at (raw : list ascii) : RunRecord :=
  if decide (raw = byte_of first_run) then first_record else second_record.
#[local] Instance sample_codec : RunCodec := {
  Marshal_recordV2 record :=
    if decide (record = first_record ∨ record = second_record) then Ok (byte_of (rnRunID record))
    else Err (ErrorNew (Text "unknown run"));
  Marshal_pointer pointer := Ok (byte_of (lpRunID pointer));
  Unmarshal_header _ := Ok RecordSchema;
  Decode_recordV2 raw := Ok (record_at raw, Err (Sentinel "EOF"));
  Decode_recordV1 _ := Err (ErrorNew (Text "no legacy record"));
  Decode_pointer raw :=
    Ok (mkLatestPointer (RecordSchema +:+ ":latest") (rnRunID (record_at raw)) (NewDigest raw), Err (Sentinel "EOF"))
}.
#[local] Instance sample_laws : RunCodecLaws.
Proof.
  split. intros record raw _ H. unfold CanonicalMarshal in H.
  apply bind_Ok in H as (bytes & H1%wrap_ok & H2). cbn in H1. case_decide as E; [|done].
  injection H1 as <-. destruct E as [->| ->]; vm_compute in H2; injection H2 as <-; by vm_compute.
Qed.

Definition after_first : result error Digest * Disk := Put (disk_run_store 100) first_run first_payload empty_disk.
Definition sample_operations : list operation :=
  [OpPut second_run second_payload; OpPut first_run second_payload; OpGet "latest" true; OpList].

Example sample_run_store :
  let d := performs (disk_run_store 100) sample_operations after_first.2 in
  (Get (disk_run_store 100) first_run false d).1 = Ok first_record ∧
  (Get (disk_run_store 100) "latest" true d).1 = Ok second_record ∧
  (RunStore.List (disk_run_store 100) d).1 = Ok [first_run; second_run] ∧
  (Put (disk_run_store 100) first_run first_payload d).1 = Err (Sentinel ErrExists).
Proof. vm_compute. done. Qed.

Lemma published_runs_are_immutable_witness :
  (Get (disk_run_store 100) first_run false (performs (disk_run_store 100) sample_operations after_first.2)).1 =
  Ok first_record.
Proof.
  assert (S : sound_disk empty_disk).
  { split; [done|]. intros inode [n Hn]. cbn in Hn. unfold empty_disk in *. cbn in *.
    apply lookup_insert_Some in Hn as [[<- _]|[_ Hn]]; [lia|]. apply lookup_singleton_Some in Hn as [<- _]. lia. }
  assert (H : Put (disk_run_store 100) first_run first_payload empty_disk = (Ok (NewDigest (byte_of first_run)), after_first.2)).
  { vm_compute. reflexivity. }
  exact (proj1 (published_runs_are_immutable 100 first_run first_payload _ empty_disk after_first.2 sample_operations
    ltac:(unfold int64_max; lia) S H)).
Defined.
