(* ===== verification/Normalizer.v ===== *)
(** * internal/normalizer: provider-neutral items

    [Normalize] builds the intermediate items that the relational oracle of
    Oracle.v judges.  Byte slices of JSON are strings, as in [IRItem];
    [NativeLibrary] is encoding/json at the types the package decodes. *)
From Stdlib Require Import ZArith Ascii String Lia.
From stdpp Require Import base gmap sets list strings.
From S2P Require Import Prelude Schema Results Canonical Documents DocumentsSpec Oracle.
Local Open Scope Z_scope.
Local Open Scope string_scope.
Local Open Scope list_scope.

Definition Transform := string.
Definition TransformIdentity : Transform := "identity".
Definition TransformDecodeJSONString : Transform := "decode_json_string".

Record Request := mkRequest {
  rqItemID : string;
  rqIRType : IRType;
  rqSourceProtocol : string;
  rqInteractionID : string;
  rqParentItemID : string;
  rqCallID : string;
  rqNativeValue : string;
  rqEvidenceRefs : list ObjectRef;
  rqExtension : string;
  rqTransform : Transform;
  rqVersion : string
}.

Class NativeLibrary := {
  native_documents :: DocumentLibrary;
  (** [json.Unmarshal] into a [string]. *)
  unmarshal_string : string -> result error string;
  (** Whether [Decode] into a [json.Number] succeeds. *)
  decode_number : string -> result error unit
}.

Section Normalizer.
Context {lib : NativeLibrary}.

Definition canonical_string (raw : string) : result error string :=
  c ← CanonicalizeJSON (list_ascii_of_string raw); mret (string_of_list_ascii c).

Definition JSONType (raw : string) : result error string :=
  let trimmed := TrimSpace raw in
  err_if (len trimmed = 0 ∨ json_Valid trimmed = false) (ErrorNew (Text "value is not valid JSON"));;
  match trimmed with
  | String "{" _ => mret "object"
  | String "[" _ => mret "array"
  | String "034" _ => mret "string"
  | String "t" _ => mret "boolean"
  | String "f" _ => mret "boolean"
  | String "n" _ => mret "null"
  | _ => wrap (Wrapf (Text "decode JSON number: %w")) (decode_number trimmed);; mret "number"
  end.

(** The item before the transform: the record literal of [Normalize]. *)
Definition untransformed (request : Request) (native sourceType : string) : IRItem :=
  mkIRItem (rqItemID request) (rqIRType request) (rqSourceProtocol request) sourceType
    (rqInteractionID request) (rqParentItemID request) (rqCallID request) native ""
    (rqEvidenceRefs request) (rqExtension request) (rqTransform request) (rqVersion request) [] [].

Definition set_NormalizedValue (value : string) (i : IRItem) : IRItem :=
  mkIRItem (ItemID i) (itIRType i) (SourceProtocol i) (SourceType i) (InteractionID i)
    (ParentItemID i) (CallID i) (NativeValue i) value (itEvidenceRefs i) (Extension i)
    (TransformID i) (TransformVersion i) (LossMarkers i) (Unavailable i).

Definition set_loss (markers : list LossMarker) (unavailable : list string) (i : IRItem) : IRItem :=
  mkIRItem (ItemID i) (itIRType i) (SourceProtocol i) (SourceType i) (InteractionID i)
    (ParentItemID i) (CallID i) (NativeValue i) (NormalizedValue i) (itEvidenceRefs i) (Extension i)
    (TransformID i) (TransformVersion i) markers unavailable.

(** The switch over the transform. *)
Definition transform (request : Request) (native sourceType : string) (item : IRItem)
    : result error IRItem :=
  if decide (rqTransform request = TransformIdentity) then mret (set_NormalizedValue native item)
  else if decide (rqTransform request = TransformDecodeJSONString) then
    err_if (sourceType ≠ "string")
      (ErrorNew (Sprintf "decode_json_string requires native string, got %s" [FStr sourceType]));;
    encoded ← wrap (Wrapf (Text "decode native JSON string: %w")) (unmarshal_string native);
    match canonical_string encoded with
    | Err _ =>
        mret (set_loss [mkLossMarker (rqTransform request)
                          "provider-native string does not contain valid JSON"]
                ["normalized_value"] item)
    | Ok inner => mret (set_NormalizedValue inner item)
    end
  else Err (ErrorNew (Sprintf "unsupported normalization transform %q" [FStr (rqTransform request)])).

Definition Normalize (request : Request) : result error IRItem :=
  err_if (rqVersion request = "") (ErrorNew (Text "normalization transform version is required"));;
  native ← wrap (Wrapf (Text "provider-native value: %w")) (canonical_string (rqNativeValue request));
  sourceType ← JSONType native;
  item ← transform request native sourceType (untransformed request native sourceType);
  err_if (Extension item ≠ "" ∧
          (HasPrefix (Extension item) ExtensionPrefix = false ∨
           len (Extension item) = len ExtensionPrefix))
    (ErrorNew (Text "extension namespace must start with x- and include a name"));;
  err_if (len (NormalizedValue item) > 0 ∧ json_Valid (NormalizedValue item) = false)
    (ErrorNew (Text "normalized value is not valid JSON"));;
  wrap (Wrapf (Text "validate IR item: %w")) (IRItem_Validate json_Valid item);;
  mret item.

(** ** What a normalized item says *)

Lemma transform_ok request native sourceType i item :
  transform request native sourceType i = Ok item ->
  ItemID item = ItemID i ∧ itIRType item = itIRType i ∧ InteractionID item = InteractionID i ∧
  ParentItemID item = ParentItemID i ∧ CallID item = CallID i ∧ NativeValue item = NativeValue i ∧
  SourceType item = SourceType i ∧ itEvidenceRefs item = itEvidenceRefs i ∧
  ((rqTransform request = TransformIdentity ∧ NormalizedValue item = native ∧
    LossMarkers item = LossMarkers i ∧ Unavailable item = Unavailable i) ∨
   (rqTransform request = TransformDecodeJSONString ∧ sourceType = "string" ∧
    exists encoded, unmarshal_string native = Ok encoded ∧
      ((canonical_string encoded = Ok (NormalizedValue item) ∧
        LossMarkers item = LossMarkers i ∧ Unavailable item = Unavailable i) ∨
       ((exists e, canonical_string encoded = Err e) ∧ NormalizedValue item = NormalizedValue i ∧
        Unavailable item = ["normalized_value"])))).
Proof.
  unfold transform. case_decide as H1.
  { intros [= <-]. split_and!; try done. left. done. }
  case_decide as H2; [|done]. rewrite bind_Ok. intros ([] & Hs & H). apply err_if_ok in Hs.
  apply dec_stable in Hs. apply bind_Ok in H as (encoded & Hu & H). apply wrap_ok in Hu.
  destruct (canonical_string encoded) as [inner|e] eqn:E; injection H as <-;
    (split_and!; try done); right; (split_and!; try done); exists encoded; (split; [done|]).
  - left. done.
  - right. split; [by exists e|done].
Qed.

(** Normalization keeps what the provider sent and admits what it lost:
    an item that [Normalize] returns passes the item validator, carries the
    canonical form of the native value with its JSON type and all the
    evidence; its normalized value is that same form for the identity, and
    for an encoded string the canonical form of the decoded text; and a loss
    is marked exactly when the text has none, in which case there is no
    normalized value. *)
Theorem normalized_items_are_honest request item
    (Hnorm : Normalize request = Ok item) :
  IRItem_Validate json_Valid item = Ok tt ∧
  canonical_string (rqNativeValue request) = Ok (NativeValue item) ∧
  JSONType (NativeValue item) = Ok (SourceType item) ∧
  itEvidenceRefs item = rqEvidenceRefs request ∧
  ItemID item = rqItemID request ∧ InteractionID item = rqInteractionID request ∧
  (rqTransform request = TransformIdentity ->
     NormalizedValue item = NativeValue item ∧ LossMarkers item = [] ∧ Unavailable item = []) ∧
  (rqTransform request = TransformDecodeJSONString ->
     exists encoded, unmarshal_string (NativeValue item) = Ok encoded ∧
       (Unavailable item = [] <-> exists c, canonical_string encoded = Ok c) ∧
       (forall c, canonical_string encoded = Ok c -> NormalizedValue item = c ∧ LossMarkers item = []) ∧
       (Unavailable item <> [] -> NormalizedValue item = "")).
Proof.
  unfold Normalize in Hnorm. apply bind_Ok in Hnorm as ([] & _ & H).
  apply bind_Ok in H as (native & Hn & H). apply wrap_ok in Hn.
  apply bind_Ok in H as (st & Hst & H). apply bind_Ok in H as (item' & Ht & H).
  apply bind_Ok in H as ([] & _ & H). apply bind_Ok in H as ([] & _ & H).
  apply bind_Ok in H as ([] & Hv & H). apply wrap_ok in Hv. injection H as ->.
  destruct (transform_ok _ _ _ _ _ Ht) as (E1 & E2 & E3 & E4 & E5 & E6 & E7 & E8 & C).
  simpl in E1, E3, E6, E7, E8. subst native st. split_and!; try done.
  - intros Hid. destruct C as [(_ & -> & -> & ->)|(C & _)]; [done|by rewrite Hid in C].
  - intros Hd. destruct C as [(C & _)|(_ & _ & encoded & Hu & C)]; [by rewrite Hd in C|].
    exists encoded. split; [done|]. simpl in C.
    destruct C as [(C1 & C2 & C3)|((e & C1) & C2 & C3)]; rewrite C1, C3.
    + split_and!; [split; eauto|by intros c [= <-]|done].
    + split_and!; [split; [done|by intros (c & ?)]|done|done].
Qed.
End Normalizer.

(** ** A concrete request *)
#[local] Instance sample_json : JSONLibrary := {
  NewDecoder raw := mkDecoder [Scalar SNull] io_EOF false;
  jcs_Transform raw := Ok raw;
  Sum256 data := resize 32 "0"%char data;
  Sum256_length data := length_resize data 32 "0"%char
}.
#[local] Instance sample_documents : DocumentLibrary := {
  document_json := sample_json;
  json_Valid _ := true;
  url_Parse _ := Err (ErrorNew (Text "no URL"))
}.
#[local] Instance sample_native : NativeLibrary := {
  native_documents := sample_documents;
  unmarshal_string s := Ok (String.substring 1 (String.length s - 2) s);
  decode_number _ := Ok tt
}.
(** The bytes of an encoded string, with its quotes. *)
Definition quoted (s : string) : string := String "034" (s +:+ String "034" "").
Definition sample_request : Request :=
  mkRequest "item" IRToolCall "openai-chat" "scenario" "" "call" (quoted "{}")
    [mkObjectRef "Response" "" "sha256:0123456789abcdef0123456789abcdef0123456789abcdef0123456789abcdef"]
    "" TransformDecodeJSONString "1.0.0".

Definition sample_item : IRItem :=
  set_NormalizedValue "{}" (untransformed sample_request (quoted "{}") "string").

Lemma normalized_items_are_honest_witness :
  Normalize sample_request = Ok sample_item ∧
  JSONType (NativeValue sample_item) = Ok (SourceType sample_item) ∧
  exists encoded, unmarshal_string (NativeValue sample_item) = Ok encoded.
Proof.
  assert (Normalize sample_request = Ok sample_item) as H by (vm_compute; reflexivity).
  destruct (normalized_items_are_honest sample_request sample_item H)
    as (_ & _ & Ht & _ & _ & _ & _ & Hd).
  split; [exact H|]. split; [exact Ht|].
  destruct (Hd eq_refl) as (encoded & Hu & _). exact (ex_intro _ encoded Hu).
Defined.
