(* ===== verification/RawJSON.v ===== *)
(** * internal/rawdriver: scenarios and loosely typed JSON

    The types of registry.go that the evaluation reads, and the helpers of
    evaluate.go on decoded JSON.  A [map[string]any] is the list of its
    entries in the order in which a [range] visits them, [None] when it is
    nil; a missing entry and a JSON null are both the nil interface
    ([JNull]).  Decoding uses [UseNumber], so the numeric cases other than
    [json.Number] cannot occur. *)
From Stdlib Require Import ZArith Ascii String Lia.
From stdpp Require Import base gmap sets list strings.
From S2P Require Import Prelude Schema Results Canonical Documents SSE Oracle OracleSchema Normalizer.
Local Open Scope Z_scope.
Local Open Scope string_scope.
Local Open Scope list_scope.

(** ** Scenarios (registry.go) *)
Definition Protocol := string.
Definition ProtocolOpenAIChat : Protocol := "openai-chat".
Definition ProtocolOpenAIResponses : Protocol := "openai-responses".
Definition ProtocolAnthropic : Protocol := "anthropic-messages".

Definition CheckKind := string.
Definition CheckArgumentsString : CheckKind := "arguments_string".
Definition CheckOutputIndexes : CheckKind := "output_indexes".
Definition CheckStreamingToolCall : CheckKind := "streaming_tool_call".
Definition CheckFinishReason : CheckKind := "finish_reason".
Definition CheckTerminalEvent : CheckKind := "terminal_event".
Definition CheckStableToolCallID : CheckKind := "stable_tool_call_id".
Definition CheckNoUnknownEvent : CheckKind := "no_unknown_event".
Definition CheckClosedReasoning : CheckKind := "closed_reasoning".
Definition CheckUsageConsistent : CheckKind := "usage_consistent".
Definition CheckValidUTF8 : CheckKind := "valid_utf8".
Definition CheckRequiredEnvelope : CheckKind := "required_response_envelope".
Definition CheckStreamMediaType : CheckKind := "stream_media_type".
Definition CheckNoPostTerminal : CheckKind := "no_post_terminal_data".

Record TokenUsage := mkTokenUsage { tuInput : Z; tuOutput : Z; tuTotal : option Z }.

Record AssertionSpec := mkAssertionSpec {
  asAssertionID : string;
  asRequirementID : string;
  asRole : AssertionRole;
  asOracle : ArtifactPin;
  asEvaluatorDigest : Digest;
  asCheck : CheckKind;
  asAllowedValues : list string;
  asExpectedUsage : option TokenUsage
}.

Record BodyBudget := mkBodyBudget { bbRequestBytes : Z; bbResponseBytes : Z }.

(** [http.Header]. *)
Abbreviation Header := (gmap string (list string)).

Record Scenario := mkScenario {
  snPlanDigest : Digest;
  snID : string;
  snDriver : ArtifactPin;
  snProtocol : Protocol;
  snMethod : string;
  snPath : string;
  snHeaders : Header;
  snBody : list ascii;
  snStreaming : bool;
  snExpectedStatus : Z;
  snBudget : BodyBudget;
  snAssertion : AssertionSpec
}.

(** ** The library *)
Abbreviation object := (list (string * json)).

Class ExchangeLibrary := {
  exchange_native :: NativeLibrary;
  (** [Decode] into [any] and into [map[string]any], with [UseNumber]. *)
  exchange_any : list ascii -> result error json;
  exchange_object : list ascii -> result error (option object);
  (** strings.ToLower and strings.EqualFold, which fold Unicode. *)
  ToLower : string -> string;
  EqualFold : string -> string -> bool;
  (** The media type that mime.ParseMediaType returns. *)
  ParseMediaType : string -> result error string
}.

#[export] Instance exchange_decoder {lib : ExchangeLibrary} : AnyDecoder := {
  any_library := document_json;
  decode_any := exchange_any
}.

(** [strings.Contains]. *)
Definition Contains (s sub : string) : bool :=
  match String.index 0 sub s with Some _ => true | None => false end.

(** ** Values *)
Definition objectValue (value : json) : option object :=
  match value with JObject ms => Some ms | _ => None end.
Definition arrayValue (value : json) : list json :=
  match value with JArray xs => xs | _ => [] end.
Definition stringValue (value : json) : option string :=
  match value with JString s => Some s | _ => None end.

(** [m[name]]; a nil map and a missing key give the nil interface. *)
Definition field (m : option object) (name : string) : json :=
  default JNull (m ≫= lookup_entry name).
(** [text, _ := stringValue(m[name])]. *)
Definition text_field (m : option object) (name : string) : string :=
  default "" (stringValue (field m name)).

Definition firstObject (value : json) : option object :=
  match arrayValue value with [] => None | v :: _ => objectValue v end.

(** [None] is the result with [ok] false, whose value no caller reads. *)
Definition integerValue (value : json) : option Z :=
  match value with
  | JNumber text =>
      match ParseInt text with
      | Some n => if decide (n >= 0) then Some n else None
      | None => None
      end
  | _ => None
  end.

(** [int] has 64 bits. *)
Definition indexValue (value : json) : Z :=
  match integerValue value with
  | Some n => if decide (n > int64_max) then -1 else n
  | None => -1
  end.

Definition jsonType (value : json) : string :=
  match value with
  | JString _ => "string"
  | JObject _ => "object"
  | JArray _ => "array"
  | JNumber _ => "number"
  | JBool _ => "boolean"
  | JNull => "null"
  end.

Definition responsesOutputLimitReached (response : option object) : bool :=
  if decide (text_field response "status" ≠ "incomplete") then false
  else bool_decide (text_field (objectValue (field response "incomplete_details")) "reason"
                    = "max_output_tokens").

Definition unsupportedFieldMarkers : list string :=
  ["unsupported parameter"; "unsupported_parameter"; "not supported";
   "does not support"; "unknown parameter"; "unknown_parameter"; "unknown argument";
   "unrecognized parameter"; "unrecognized argument"; "unrecognized request argument";
   "unknown field"; "unrecognized field";
   "unexpected field"; "unexpected argument"; "extra_forbidden";
   "extra inputs are not permitted"; "additional properties are not allowed"].

Definition containsUnsupportedFieldMarker (text : string) : bool :=
  existsb (Contains text) unsupportedFieldMarkers.

Section Values.
Context {lib : ExchangeLibrary}.

Definition decodeObject (raw : list ascii) : result error (option object) := exchange_object raw.

Fixpoint containsExactString (value : json) (expected : string) : bool :=
  match value with
  | JString s => EqualFold s expected
  | JArray xs => (fix loop l := match l with
                               | [] => false
                               | x :: l' => containsExactString x expected || loop l'
                               end) xs
  | _ => false
  end.

Fixpoint valueContainsUnsupportedFieldMarker (value : json) : bool :=
  match value with
  | JString s => containsUnsupportedFieldMarker (ToLower s)
  | JArray xs => (fix loop l := match l with
                               | [] => false
                               | x :: l' => valueContainsUnsupportedFieldMarker x || loop l'
                               end) xs
  | JObject ms => (fix loop l := match l with
                                | [] => false
                                | (key, x) :: l' =>
                                    containsUnsupportedFieldMarker (ToLower key) ||
                                    valueContainsUnsupportedFieldMarker x || loop l'
                                end) ms
  | _ => false
  end.

Definition unsupported_text (name s : string) : bool :=
  let text := ToLower s in Contains text name && containsUnsupportedFieldMarker text.

(** The first loop over the members: [None] when it returns true, else
    [associated]. *)
Fixpoint associated_members (ms : object) (name : string) (associated : bool) : option bool :=
  match ms with
  | [] => Some associated
  | (key, item) :: ms' =>
      let key := ToLower key in
      let associated :=
        if decide (key = name) then true
        else if decide (key ∈ ["param"; "parameter"; "field"; "argument"; "loc"; "path"])
        then associated || containsExactString item name
        else associated in
      match item with
      | JString s => if unsupported_text name s then None else associated_members ms' name associated
      | _ => associated_members ms' name associated
      end
  end.

Fixpoint containsUnsupportedFieldError (value : json) (name : string) : bool :=
  match value with
  | JString s => unsupported_text name s
  | JArray xs => (fix loop l := match l with
                               | [] => false
                               | x :: l' => containsUnsupportedFieldError x name || loop l'
                               end) xs
  | JObject ms =>
      match associated_members ms name false with
      | None => true
      | Some associated =>
          (associated && valueContainsUnsupportedFieldMarker value) ||
          (fix loop l := match l with
                         | [] => false
                         | (_, x) :: l' => containsUnsupportedFieldError x name || loop l'
                         end) ms
      end
  | _ => false
  end.

(** ** Output limits *)

(** [Some (field, limit)] is the triple with [true]; the callers read
    nothing of the others. *)
Definition requestedOutputLimit (scenario : Scenario) : option (string * Z) :=
  let limit name :=
    match decodeObject (snBody scenario) with
    | Err _ => None
    | Ok request =>
        match integerValue (field request name) with
        | Some limit => if decide (limit > 0) then Some (name, limit) else None
        | None => None
        end
    end in
  if decide (snProtocol scenario = ProtocolOpenAIChat) then limit "max_completion_tokens"
  else if decide (snProtocol scenario = ProtocolOpenAIResponses) then limit "max_output_tokens"
  else if decide (snProtocol scenario = ProtocolAnthropic) then limit "max_tokens"
  else None.

Definition requestedOutputLimitField (scenario : Scenario) : option string :=
  if decide (snProtocol scenario ≠ ProtocolOpenAIChat ∧ snProtocol scenario ≠ ProtocolOpenAIResponses)
  then None
  else fst <$> requestedOutputLimit scenario.

Definition StatusBadRequest : Z := 400.
Definition StatusUnprocessableEntity : Z := 422.

Definition unsupportedOutputLimitField (scenario : Scenario) (status : Z) (body : list ascii)
    : option string :=
  match requestedOutputLimitField scenario with
  | None => None
  | Some name =>
      if decide ((status ≠ StatusBadRequest ∧ status ≠ StatusUnprocessableEntity) ∨
                 json_Valid (string_of_list_ascii body) = false) then None
      else match decodeObject body with
      | Err _ => None
      | Ok response =>
          if containsUnsupportedFieldError (JObject (default [] response)) name then Some name else None
      end
  end.
End Values.
