(* ===== verification/RawStream.v ===== *)
(** * internal/rawdriver/evaluate.go: what an exchange says

    [streamDecoder] translates the server-sent events of the three provider
    protocols into the events of Statemachine.v and counts what the checks
    read; [inspectNonStream] reads one response document.  A tool's
    [*toolLifecycle] is reachable only through the map that holds it, so the
    maps hold the records.  A (value, has) pair of [observedUsage] is an
    option. *)
From Stdlib Require Import ZArith Ascii String Lia.
From stdpp Require Import base gmap sets list strings pretty sorting.
From S2P Require Import Prelude Schema Results Statemachine Oracle OracleSchema SSE RawJSON.
Local Open Scope Z_scope.
Local Open Scope string_scope.
Local Open Scope list_scope.

Record observedUsage := mkObservedUsage {
  ouInput : option Z;
  ouOutput : option Z;
  ouReasoning : option Z;
  ouTotal : option Z
}.

(** The fields of [exchangeFacts] that reading content changes. *)
Record contentFacts := mkContentFacts {
  unknownCount : Z;
  toolCallCount : Z;
  argumentTypes : list string;
  finishReasons : list string;
  usage : observedUsage;
  outputLimitHit : string
}.

Definition no_content : contentFacts := mkContentFacts 0 0 [] [] (mkObservedUsage None None None None) "".

Definition count_unknown (f : contentFacts) : contentFacts :=
  mkContentFacts (unknownCount f + 1) (toolCallCount f) (argumentTypes f) (finishReasons f) (usage f)
    (outputLimitHit f).
Definition count_tool_call (f : contentFacts) : contentFacts :=
  mkContentFacts (unknownCount f) (toolCallCount f + 1) (argumentTypes f) (finishReasons f) (usage f)
    (outputLimitHit f).
Definition add_argument_type (t : string) (f : contentFacts) : contentFacts :=
  mkContentFacts (unknownCount f) (toolCallCount f) (argumentTypes f ++ [t]) (finishReasons f) (usage f)
    (outputLimitHit f).
Definition add_finish_reason (r : string) (f : contentFacts) : contentFacts :=
  mkContentFacts (unknownCount f) (toolCallCount f) (argumentTypes f) (finishReasons f ++ [r]) (usage f)
    (outputLimitHit f).
Definition set_usage (u : observedUsage) (f : contentFacts) : contentFacts :=
  mkContentFacts (unknownCount f) (toolCallCount f) (argumentTypes f) (finishReasons f) u
    (outputLimitHit f).
Definition set_outputLimitHit (s : string) (f : contentFacts) : contentFacts :=
  mkContentFacts (unknownCount f) (toolCallCount f) (argumentTypes f) (finishReasons f) (usage f) s.

(** [if v, ok := ...; ok { usage.X, usage.HasX = v, true }]. *)
Definition keep (v old : option Z) : option Z := match v with Some _ => v | None => old end.

Definition readUsage (value : option object) (inputName outputName totalName : string)
    (u : observedUsage) : observedUsage :=
  mkObservedUsage
    (keep (integerValue (field value inputName)) (ouInput u))
    (keep (integerValue (field value outputName)) (ouOutput u))
    (ouReasoning u)
    (if decide (totalName ≠ "") then keep (integerValue (field value totalName)) (ouTotal u)
     else ouTotal u).

Definition readReasoningUsage (value : option object) (detailsName : string) (u : observedUsage)
    : observedUsage :=
  mkObservedUsage (ouInput u) (ouOutput u)
    (keep (integerValue (field (objectValue (field value detailsName)) "reasoning_tokens"))
       (ouReasoning u))
    (ouTotal u).

Definition read_all_usage (value : option object) (inputName outputName totalName detailsName : string)
    (f : contentFacts) : contentFacts :=
  set_usage (readReasoningUsage value detailsName
               (readUsage value inputName outputName totalName (usage f))) f.

Definition length_limit : string := "finish_reason=length".
Definition incomplete_limit : string := "status=incomplete,incomplete_details.reason=max_output_tokens".

(** [if reason, ok := stringValue(v); ok { append }]. *)
Definition read_reason (v : json) (f : contentFacts) : contentFacts :=
  match stringValue v with Some reason => add_finish_reason reason f | None => f end.

(** The reason of a Chat choice, which may report the output limit. *)
Definition read_chat_reason (v : json) (f : contentFacts) : contentFacts :=
  match stringValue v with
  | Some reason =>
      let f := add_finish_reason reason f in
      if decide (reason = "length") then set_outputLimitHit length_limit f else f
  | None => f
  end.

(** ** One response document *)
Definition inspectNonStream (protocol : Protocol) (value : option object) (f : contentFacts)
    : contentFacts :=
  if decide (protocol = ProtocolOpenAIChat) then
    let choice := firstObject (field value "choices") in
    let message := objectValue (field choice "message") in
    let f := foldl (fun f call =>
      let function := objectValue (field (objectValue call) "function") in
      add_argument_type (jsonType (field function "arguments")) (count_tool_call f))
      f (arrayValue (field message "tool_calls")) in
    let f := read_chat_reason (field choice "finish_reason") f in
    read_all_usage (objectValue (field value "usage")) "prompt_tokens" "completion_tokens"
      "total_tokens" "completion_tokens_details" f
  else if decide (protocol = ProtocolOpenAIResponses) then
    let f := foldl (fun f itemValue =>
      let item := objectValue itemValue in
      match field item "type" with
      | JString "function_call" =>
          add_argument_type (jsonType (field item "arguments")) (count_tool_call f)
      | _ => f
      end) f (arrayValue (field value "output")) in
    let f := read_reason (field value "status") f in
    let f := if responsesOutputLimitReached value then set_outputLimitHit incomplete_limit f else f in
    read_all_usage (objectValue (field value "usage")) "input_tokens" "output_tokens"
      "total_tokens" "output_tokens_details" f
  else if decide (protocol = ProtocolAnthropic) then
    let f := foldl (fun f contentValue =>
      match field (objectValue contentValue) "type" with
      | JString "tool_use" => count_tool_call f
      | _ => f
      end) f (arrayValue (field value "content")) in
    let f := read_reason (field value "stop_reason") f in
    set_usage (readUsage (objectValue (field value "usage")) "input_tokens" "output_tokens" "" (usage f)) f
  else f.

(** ** Streams *)
Record toolLifecycle := mkToolLifecycle {
  tlItemID : string;
  tlCallID : string;
  tlArguments : string
}.

Record streamDecoder := mkStreamDecoder {
  sdProtocol : Protocol;
  sdEvents : list Event;
  sdChatCreated : bool;
  sdChatTools : gmap Z toolLifecycle;
  sdAnthropicItems : gmap Z toolLifecycle
}.

Definition newStreamDecoder (protocol : Protocol) : streamDecoder := mkStreamDecoder protocol [] false ∅ ∅.

Definition set_chatTools (t : gmap Z toolLifecycle) (d : streamDecoder) : streamDecoder :=
  mkStreamDecoder (sdProtocol d) (sdEvents d) (sdChatCreated d) t (sdAnthropicItems d).
Definition set_anthropicItems (t : gmap Z toolLifecycle) (d : streamDecoder) : streamDecoder :=
  mkStreamDecoder (sdProtocol d) (sdEvents d) (sdChatCreated d) (sdChatTools d) t.

Definition number_event (n : Z) (e : Event) : Event :=
  mkEvent n (evType e) (evItemID e) (evItemKind e) (evOutputIndex e) (evCallID e) (evDelta e)
    (evArguments e).

(** [decoder.append]. *)
Definition append_event (e : Event) (d : streamDecoder) : streamDecoder :=
  mkStreamDecoder (sdProtocol d)
    (sdEvents d ++ [number_event (uint64_wrap (Z.of_nat (length (sdEvents d)) + 1)) e])
    (sdChatCreated d) (sdChatTools d) (sdAnthropicItems d).

(** Event literals, by the fields they set. *)
Definition bare (t : EventType) : Event := mkEvent 0 t "" "" 0 "" "" "".
Definition added (itemID kind : string) (index : Z) (callID : string) : Event :=
  mkEvent 0 EventOutputItemAdded itemID kind index callID "" "".
Definition delta_event (itemID callID delta : string) : Event :=
  mkEvent 0 EventArgumentsDelta itemID "" 0 callID delta "".
Definition arguments_done (itemID callID arguments : string) : Event :=
  mkEvent 0 EventArgumentsDone itemID "" 0 callID "" arguments.
Definition item_done (itemID callID : string) : Event :=
  mkEvent 0 EventOutputItemDone itemID "" 0 callID "" "".

Definition ensureChatCreated (d : streamDecoder) : streamDecoder :=
  if sdChatCreated d then d
  else append_event (bare EventResponseCreated)
         (mkStreamDecoder (sdProtocol d) (sdEvents d) true (sdChatTools d) (sdAnthropicItems d)).

(** The item's members, with their presence. *)
Definition has_field (m : option object) (name : string) : bool :=
  match m ≫= lookup_entry name with Some _ => true | None => false end.

Definition consumeResponses (value : option object) (typeName : string) (d : streamDecoder)
    (f : contentFacts) : streamDecoder * contentFacts :=
  let response_usage f :=
    read_all_usage (objectValue (field (objectValue (field value "response")) "usage"))
      "input_tokens" "output_tokens" "total_tokens" "output_tokens_details" f in
  let response := objectValue (field value "response") in
  if decide (typeName = "response.created") then (append_event (bare EventResponseCreated) d, f)
  else if decide (typeName = "response.in_progress") then
    (append_event (bare EventResponseInProgress) d, f)
  else if decide (typeName = "response.output_item.added") then
    let item := objectValue (field value "item") in
    let itemKind := text_field item "type" in
    (append_event (added (text_field item "id") itemKind (indexValue (field value "output_index"))
                     (text_field item "call_id")) d,
     if decide (itemKind = "function_call") then
       let f := count_tool_call f in
       if has_field item "arguments" then add_argument_type (jsonType (field item "arguments")) f else f
     else f)
  else if decide (typeName = "response.function_call_arguments.delta") then
    (append_event (delta_event (text_field value "item_id") (text_field value "call_id")
                     (text_field value "delta")) d, f)
  else if decide (typeName = "response.function_call_arguments.done") then
    (append_event (arguments_done (text_field value "item_id") (text_field value "call_id")
                     (text_field value "arguments")) d,
     add_argument_type (match stringValue (field value "arguments") with
                        | Some _ => "string"
                        | None => jsonType (field value "arguments")
                        end) f)
  else if decide (typeName = "response.output_item.done") then
    let item := objectValue (field value "item") in
    (append_event (item_done (text_field item "id") (text_field item "call_id")) d, f)
  else if decide (typeName = "response.completed") then
    (append_event (bare EventResponseCompleted) d, response_usage (read_reason (field response "status") f))
  else if decide (typeName = "response.failed") then (append_event (bare EventResponseFailed) d, f)
  else if decide (typeName = "response.incomplete") then
    let f := read_reason (field response "status") f in
    let f := if responsesOutputLimitReached response then set_outputLimitHit incomplete_limit f else f in
    (append_event (bare EventResponseIncomplete) d, response_usage f)
  else (d, f).

(** [lifecycle := decoder.chatTools[index]], announced when it is new. *)
Definition chat_tool (index : Z) (callID : string) (d : streamDecoder) (f : contentFacts)
    : toolLifecycle * streamDecoder * contentFacts :=
  match sdChatTools d !! index with
  | Some tool => (tool, d, f)
  | None =>
      let tool := mkToolLifecycle ("chat-tool-" +:+ pretty index) callID "" in
      (tool,
       append_event (added (tlItemID tool) "function_call" index callID)
         (set_chatTools (<[index := tool]> (sdChatTools d)) d),
       count_tool_call f)
  end.

(** One entry of [delta.tool_calls]. *)
Definition chat_call (callValue : json) (s : streamDecoder * contentFacts) : streamDecoder * contentFacts :=
  let call := objectValue callValue in
  let index := indexValue (field call "index") in
  let callID := text_field call "id" in
  let function := objectValue (field call "function") in
  let '(tool, d, f) := chat_tool index callID s.1 s.2 in
  if has_field function "arguments" then
    let arguments := field function "arguments" in
    let f := add_argument_type (jsonType arguments) f in
    match stringValue arguments with
    | Some text =>
        if decide (text ≠ "") then
          (append_event (delta_event (tlItemID tool) callID text)
             (set_chatTools (<[index := mkToolLifecycle (tlItemID tool) (tlCallID tool)
                                          (tlArguments tool +:+ text)]> (sdChatTools d)) d), f)
        else (d, f)
    | None => (d, f)
    end
  else (d, f).

Definition sortedToolIndexes (tools : gmap Z toolLifecycle) : list Z :=
  merge_sort Z.le (elements (dom tools)).

(** The two events that close the tool at [index]. *)
Definition close_tool (d : streamDecoder) (index : Z) : streamDecoder :=
  match sdChatTools d !! index with
  | Some tool =>
      append_event (item_done (tlItemID tool) (tlCallID tool))
        (append_event (arguments_done (tlItemID tool) (tlCallID tool) (tlArguments tool)) d)
  | None => d
  end.

Definition consumeChat (value : option object) (d : streamDecoder) (f : contentFacts)
    : streamDecoder * contentFacts :=
  let d := ensureChatCreated d in
  let f := read_all_usage (objectValue (field value "usage")) "prompt_tokens" "completion_tokens"
             "total_tokens" "completion_tokens_details" f in
  match firstObject (field value "choices") with
  | None => (d, f)
  | choice =>
      let delta := objectValue (field choice "delta") in
      let '(d, f) := foldl (fun s call => chat_call call s) (d, f)
                       (arrayValue (field delta "tool_calls")) in
      match stringValue (field choice "finish_reason") with
      | Some _ => (foldl close_tool d (sortedToolIndexes (sdChatTools d)),
                   read_chat_reason (field choice "finish_reason") f)
      | None => (d, f)
      end
  end.

Definition consumeAnthropic (eventName : string) (value : option object) (d : streamDecoder)
    (f : contentFacts) : streamDecoder * contentFacts :=
  let index := indexValue (field value "index") in
  if decide (eventName = "message_start") then
    let message_usage := objectValue (field (objectValue (field value "message")) "usage") in
    let u := usage f in
    (append_event (bare EventResponseCreated) d,
     set_usage (mkObservedUsage (keep (integerValue (field message_usage "input_tokens")) (ouInput u))
                  (ouOutput u) (ouReasoning u) (ouTotal u)) f)
  else if decide (eventName = "content_block_start") then
    let block := objectValue (field value "content_block") in
    let kind := text_field block "type" in
    let callID := text_field block "id" in
    let tool := mkToolLifecycle ("anthropic-item-" +:+ pretty index) callID "" in
    let itemKind := if decide (kind = "tool_use") then "function_call" else kind in
    (append_event (added (tlItemID tool) itemKind index callID)
       (set_anthropicItems (<[index := tool]> (sdAnthropicItems d)) d),
     if decide (kind = "tool_use") then count_tool_call f else f)
  else if decide (eventName = "content_block_delta") then
    let delta := objectValue (field value "delta") in
    match sdAnthropicItems d !! index, field delta "type" with
    | Some tool, JString "input_json_delta" =>
        let partial := text_field delta "partial_json" in
        (append_event (delta_event (tlItemID tool) (tlCallID tool) partial)
           (set_anthropicItems (<[index := mkToolLifecycle (tlItemID tool) (tlCallID tool)
                                             (tlArguments tool +:+ partial)]> (sdAnthropicItems d)) d),
         add_argument_type "string" f)
    | _, _ => (d, f)
    end
  else if decide (eventName = "content_block_stop") then
    match sdAnthropicItems d !! index with
    | None => (d, f)
    | Some tool =>
        let d := if decide (tlCallID tool ≠ "")
                 then append_event (arguments_done (tlItemID tool) (tlCallID tool) (tlArguments tool)) d
                 else d in
        (append_event (item_done (tlItemID tool) (tlCallID tool)) d, f)
    end
  else if decide (eventName = "message_delta") then
    let f := read_reason (field (objectValue (field value "delta")) "stop_reason") f in
    let u := usage f in
    (d, set_usage (mkObservedUsage (ouInput u)
                     (keep (integerValue (field (objectValue (field value "usage")) "output_tokens"))
                        (ouOutput u)) (ouReasoning u) (ouTotal u)) f)
  else if decide (eventName = "message_stop") then (append_event (bare EventResponseCompleted) d, f)
  else (d, f).

Definition done_marker : string := "[DONE]".

Section Consume.
Context {lib : ExchangeLibrary}.

Definition consume (event : SSELogicalEvent) (d : streamDecoder) (f : contentFacts)
    : streamDecoder * contentFacts :=
  if decide (evData event = done_marker) then
    (append_event (bare EventResponseCompleted) (ensureChatCreated d), f)
  else match decodeObject (list_ascii_of_string (evData event)) with
  | Err _ => (d, f)
  | Ok value =>
      let typeName := text_field value "type" in
      let f := if decide (evEvent event = "fixture.unknown" ∨ typeName = "fixture.unknown")
               then count_unknown f else f in
      if decide (sdProtocol d = ProtocolOpenAIResponses) then consumeResponses value typeName d f
      else if decide (sdProtocol d = ProtocolOpenAIChat) then consumeChat value d f
      else if decide (sdProtocol d = ProtocolAnthropic) then consumeAnthropic (evEvent event) value d f
      else (d, f)
  end.

(** ** Terminal markers *)
Definition terminal_names : list string := ["response.completed"; "response.failed"; "response.incomplete"].

Definition isTerminalEvent (protocol : Protocol) (event : SSELogicalEvent) : bool :=
  if decide (protocol = ProtocolOpenAIChat) then bool_decide (evData event = done_marker)
  else if decide (evEvent event = "message_stop" ∧ protocol = ProtocolAnthropic) then true
  else if decide (protocol ≠ ProtocolOpenAIResponses ∨ evData event = done_marker) then false
  else match decodeObject (list_ascii_of_string (evData event)) with
  | Err _ => false
  | Ok value => bool_decide (text_field value "type" ∈ terminal_names)
  end.

(** [None] is the pair with [false]. *)
Definition countedTerminalMarker (protocol : Protocol) (event : SSELogicalEvent) : option string :=
  if decide (evData event = done_marker) then Some done_marker
  else if decide (protocol = ProtocolAnthropic) then
    if decide (evEvent event ≠ "message_stop") then None
    else match decodeObject (list_ascii_of_string (evData event)) with
    | Err _ => None
    | Ok _ => Some "message_stop"
    end
  else if decide (protocol ≠ ProtocolOpenAIResponses) then None
  else match decodeObject (list_ascii_of_string (evData event)) with
  | Err _ => None
  | Ok value =>
      let typeName := text_field value "type" in
      if decide (typeName ∈ terminal_names) then Some typeName else None
  end.
End Consume.
