(* ===== verification/RawStreamSpec.v ===== *)
(** * internal/rawdriver/evaluate.go: the Chat translation is faithful

    The lifecycle rules of StatemachineSpec.v are stated for the typed events
    of one protocol; a Chat stream has no such events, and [streamDecoder]
    makes them up.  Here is what it may and may not make up. *)
From Stdlib Require Import ZArith Ascii String Lia.
From stdpp Require Import base gmap sets list strings pretty sorting.
From S2P Require Import Prelude Schema Results Statemachine StatemachineSpec Oracle OracleSchema SSE RawJSON RawStream.
Local Open Scope Z_scope.
Local Open Scope string_scope.
Local Open Scope list_scope.

(** An event after the history [h] that respects every lifecycle rule that
    does not depend on what the provider sent: the sequence number, a single
    opening event, items announced once and under their own output index,
    argument and closing events about announced items, and final arguments
    that are the concatenation of the deltas. *)
Record faithful_event (h : list Event) (e : Event) : Prop := {
  fe_sequence : Statemachine.evSequence e = uint64_wrap (Z.of_nat (length h) + 1);
  fe_created : evType e = EventResponseCreated <-> h = [];
  fe_added : evType e = EventOutputItemAdded ->
    evItemID e <> "" ∧ evItemKind e = "function_call" ∧
    forall id a, announced h id a -> id <> evItemID e ∧ evOutputIndex a <> evOutputIndex e;
  fe_about : evType e ∈ [EventArgumentsDelta; EventArgumentsDone; EventOutputItemDone] ->
    exists a, announced h (evItemID e) a ∧ evItemKind a = "function_call";
  fe_arguments : evType e = EventArgumentsDone -> evArguments e = deltas h (evItemID e);
  fe_types : evType e ∈ [EventResponseCreated; EventOutputItemAdded; EventArgumentsDelta;
                         EventArgumentsDone; EventOutputItemDone; EventResponseCompleted]
}.

Inductive faithful : list Event -> Prop :=
| faithful_nil : faithful []
| faithful_snoc h e : faithful h -> faithful_event h e -> faithful (h ++ [e]).

Definition tool_id (index : Z) : string := "chat-tool-" +:+ pretty index.

Lemma string_app_inj (s t u : string) : s +:+ t = s +:+ u -> t = u.
Proof.
  induction s as [|c s IH]; [done|]. rewrite !string_app_cons. intros H. apply IH. congruence.
Qed.

Lemma tool_id_inj i j : tool_id i = tool_id j -> i = j.
Proof. unfold tool_id. intros H%string_app_inj. by apply (inj pretty). Qed.
Lemma tool_id_nonempty i : tool_id i <> "".
Proof. done. Qed.

(** What the decoder knows of a Chat stream. *)
Record chat_inv (d : streamDecoder) : Prop := {
  ci_faithful : faithful (sdEvents d);
  ci_created : sdChatCreated d = true <-> sdEvents d <> [];
  ci_tool i t : sdChatTools d !! i = Some t ->
    tlItemID t = tool_id i ∧ tlArguments t = deltas (sdEvents d) (tool_id i) ∧
    exists a, announced (sdEvents d) (tool_id i) a ∧ evItemKind a = "function_call";
  ci_no_tool i : sdChatTools d !! i = None -> deltas (sdEvents d) (tool_id i) = "";
  ci_announced id a : announced (sdEvents d) id a ->
    exists i, is_Some (sdChatTools d !! i) ∧ id = tool_id i ∧ evOutputIndex a = i
}.

(** An event that is neither an announcement nor a delta, with the tools
    unchanged. *)
Lemma chat_inv_plain d e :
  chat_inv d -> sdChatCreated d = true ->
  evType e ∈ [EventArgumentsDone; EventOutputItemDone; EventResponseCompleted] ->
  (evType e <> EventResponseCompleted -> exists i t, sdChatTools d !! i = Some t ∧ evItemID e = tool_id i ∧
     evArguments e = (if decide (evType e = EventArgumentsDone) then tlArguments t else "")) ->
  chat_inv (append_event e d).
Proof.
  intros [F C T N A] Hc Ht Hi. pose proof (proj1 C Hc) as Hne.
  set (h := sdEvents d) in *. set (e' := number_event (uint64_wrap (Z.of_nat (length h) + 1)) e).
  assert (evType e <> EventArgumentsDelta ∧ evType e <> EventOutputItemAdded ∧
          evType e <> EventResponseCreated) as (N1 & N2 & N3).
  { rewrite !elem_of_cons, elem_of_nil in Ht. by destruct Ht as [->|[->|[->|[]]]]. }
  assert (forall id, deltas (h ++ [e']) id = deltas h id) as D.
  { intros id. rewrite deltas_snoc. rewrite decide_False by (intros [? _]; done). apply string_app_nil_r. }
  assert (forall id a, announced (h ++ [e']) id a <-> announced h id a) as S.
  { intros id a. rewrite announced_snoc. split; [intros [?|(_ & ? & _)]; done|by left]. }
  split; cbn [append_event sdEvents sdChatCreated sdChatTools]; fold h e'.
  - constructor; [done|]. split; [done|naive_solver|done| | |].
    + intros Hab. destruct Hi as (i & t & Hi & Hid & _).
      { intros E. simpl in Hab. rewrite E in Hab. set_solver. }
      change (evItemID e') with (evItemID e). rewrite Hid. destruct (T i t Hi) as (_ & _ & a & ? & ?). by exists a.
    + intros E. simpl in E. destruct Hi as (i & t & Hi & Hid & Ha); [by rewrite E|].
      change (evItemID e') with (evItemID e). change (evArguments e') with (evArguments e).
      rewrite Hid, Ha, decide_True by done. by destruct (T i t Hi) as (_ & -> & _).
    + change (evType e') with (evType e). set_solver.
  - rewrite Hc. split; [|done]. intros _ H. by apply app_eq_nil in H as [_ ?].
  - intros i t Hit. rewrite D. destruct (T i t Hit) as (? & ? & a & ? & ?). split_and!; try done.
    exists a. by rewrite S.
  - intros i Hit. rewrite D. by apply N.
  - intros id a Ha%S. by apply A.
Qed.

(** The announcement of a new tool. *)
Lemma chat_inv_added d index callID :
  chat_inv d -> sdChatCreated d = true -> sdChatTools d !! index = None ->
  let tool := mkToolLifecycle (tool_id index) callID "" in
  chat_inv (append_event (added (tool_id index) "function_call" index callID)
              (set_chatTools (<[index := tool]> (sdChatTools d)) d)).
Proof.
  intros [F C T N A] Hc Hno tool. pose proof (proj1 C Hc) as Hne.
  set (h := sdEvents d) in *.
  set (e' := number_event (uint64_wrap (Z.of_nat (length h) + 1)) (added (tool_id index) "function_call" index callID)).
  assert (forall id, deltas (h ++ [e']) id = deltas h id) as D.
  { intros id. rewrite deltas_snoc. rewrite decide_False by (intros [? _]; done). apply string_app_nil_r. }
  assert (forall id a, announced h id a -> id <> tool_id index ∧ evOutputIndex a <> index) as Hnew.
  { intros id a Ha. destruct (A id a Ha) as (i & [t Hi] & -> & Hx). split; [intros E%tool_id_inj|];
      congruence. }
  split; cbn [append_event sdEvents sdChatCreated sdChatTools set_chatTools]; fold h e'.
  - constructor; [done|]. split; [done|naive_solver| |set_solver|done|set_solver].
    intros _. split_and!; [done|done|exact Hnew].
  - rewrite Hc. split; [|done]. intros _ H. by apply app_eq_nil in H as [_ ?].
  - intros i t. rewrite D. intros [[<- <-]|[Hne' Hi]]%lookup_insert_Some.
    + split_and!; [done|by rewrite N|]. exists e'. split; [|done]. apply announced_snoc. by right.
    + destruct (T i t Hi) as (? & ? & a & ? & ?). split_and!; try done. exists a. split; [|done].
      apply announced_snoc. by left.
  - intros i [Hi _]%lookup_insert_None. rewrite D. by apply N.
  - intros id a [Ha|(-> & _ & <-)]%announced_snoc.
    + destruct (A id a Ha) as (i & Hi & -> & Hx). exists i. split_and!; try done.
      rewrite lookup_insert_ne by (by intros ->; destruct Hi; congruence). done.
    + exists index. by rewrite lookup_insert_eq.
Qed.

(** A delta of a known tool. *)
Lemma chat_inv_delta d index tool callID text :
  chat_inv d -> sdChatCreated d = true -> sdChatTools d !! index = Some tool ->
  let tool' := mkToolLifecycle (tlItemID tool) (tlCallID tool) (tlArguments tool +:+ text) in
  chat_inv (append_event (delta_event (tlItemID tool) callID text)
              (set_chatTools (<[index := tool']> (sdChatTools d)) d)).
Proof.
  intros [F C T N A] Hc Hi tool'. pose proof (proj1 C Hc) as Hne. set (h := sdEvents d) in *.
  destruct (T index tool Hi) as (Hid & Harg & a0 & Ha0 & Hk0).
  set (e' := number_event (uint64_wrap (Z.of_nat (length h) + 1)) (delta_event (tlItemID tool) callID text)).
  assert (deltas (h ++ [e']) (tool_id index) = deltas h (tool_id index) +:+ text) as D1.
  { rewrite deltas_snoc, decide_True by done. done. }
  assert (forall i, i <> index -> deltas (h ++ [e']) (tool_id i) = deltas h (tool_id i)) as D2.
  { intros i Hi'. rewrite deltas_snoc, decide_False; [apply string_app_nil_r|].
    simpl. rewrite Hid. by intros [_ ?%tool_id_inj]. }
  assert (forall id a, announced (h ++ [e']) id a <-> announced h id a) as S.
  { intros id a. rewrite announced_snoc. split; [intros [?|(_ & ? & _)]; done|by left]. }
  split; cbn [append_event sdEvents sdChatCreated sdChatTools set_chatTools]; fold h e'.
  - constructor; [done|]. split; [done|naive_solver|done| |done|set_solver].
    intros _. simpl. rewrite Hid. by exists a0.
  - rewrite Hc. split; [|done]. intros _ H. by apply app_eq_nil in H as [_ ?].
  - intros i t [[<- <-]|[Hne' Hi']]%lookup_insert_Some.
    + split_and!; [done|by rewrite D1; simpl; rewrite Harg|]. exists a0. by rewrite S.
    + destruct (T i t Hi') as (? & ? & a & ? & ?). rewrite D2 by done. split_and!; try done. exists a. by rewrite S.
  - intros i [Hi' Hne']%lookup_insert_None. rewrite D2 by done. by apply N.
  - intros id a (i & Hi' & -> & Hx)%S%A. exists i. split_and!; try done.
    destruct (decide (i = index)) as [->|]; [by rewrite lookup_insert_eq|by rewrite lookup_insert_ne].
Qed.

Lemma chat_inv_ensure d : chat_inv d -> chat_inv (ensureChatCreated d) ∧ sdChatCreated (ensureChatCreated d) = true.
Proof.
  intros I. pose proof I as [F C T N A]. unfold ensureChatCreated.
  destruct (sdChatCreated d) eqn:E; [done|].
  assert (sdEvents d = []) as Hnil.
  { destruct (sdEvents d); [done|]. assert (false = true); [|done]. by apply C. }
  rewrite Hnil in *.
  assert (sdChatTools d = ∅) as Hno.
  { apply map_eq. intros i. rewrite lookup_empty. destruct (sdChatTools d !! i) as [t|] eqn:Ht; [|done].
    destruct (T i t Ht) as (_ & _ & a & [Ha _] & _). set_solver. }
  split; [|done]. unfold append_event. cbn [sdEvents sdChatTools sdAnthropicItems sdProtocol sdChatCreated].
  split; cbn [sdEvents sdChatCreated sdChatTools].
  - apply (faithful_snoc []); [constructor|]. split; try done; set_solver.
  - done.
  - intros i t. by rewrite Hno, lookup_empty.
  - done.
  - intros id a (Ha & Ht & _). simpl in Ha. apply list_elem_of_singleton in Ha as ->. done.
Qed.

Definition chat_ready (d : streamDecoder) : Prop := chat_inv d ∧ sdChatCreated d = true.

Lemma chat_tool_ready index callID d f :
  chat_ready d -> let '(tool, d', _) := chat_tool index callID d f in
  chat_ready d' ∧ sdChatTools d' !! index = Some tool ∧ sdProtocol d' = sdProtocol d.
Proof.
  intros [I Hc]. unfold chat_tool. destruct (sdChatTools d !! index) as [tool|] eqn:E; [done|].
  split_and!; [split; [by apply chat_inv_added|done]| |done].
  cbn [append_event sdChatTools set_chatTools]. by rewrite lookup_insert_eq.
Qed.

Lemma chat_call_ready callValue s :
  chat_ready s.1 ->
  chat_ready (chat_call callValue s).1 ∧ sdProtocol (chat_call callValue s).1 = sdProtocol s.1.
Proof.
  intros R. unfold chat_call. cbn zeta.
  set (index := indexValue _). set (callID := text_field (objectValue callValue) "id").
  pose proof (chat_tool_ready index callID s.1 s.2 R) as T.
  destruct (chat_tool index callID s.1 s.2) as [[tool d] f]. destruct T as ([I Hc] & Hi & Hp).
  destruct (has_field _ "arguments"); [|done]. destruct (stringValue _) as [text|]; [|done].
  case_decide; [|done]. split; [split; [by apply chat_inv_delta|done]|done].
Qed.

Lemma close_tool_ready d index : chat_ready d -> chat_ready (close_tool d index).
Proof.
  intros [I Hc]. unfold close_tool. destruct (sdChatTools d !! index) as [tool|] eqn:E; [|done].
  destruct (ci_tool d I index tool E) as (Hid & _).
  assert (chat_inv (append_event (arguments_done (tlItemID tool) (tlCallID tool) (tlArguments tool)) d)) as I1.
  { apply chat_inv_plain; [done|done|set_solver|]. intros _. exists index, tool. by rewrite decide_True. }
  split; [|done]. apply chat_inv_plain; [done|done|set_solver|]. intros _. exists index, tool. done.
Qed.

Lemma foldl_ready {A B} (P : A -> Prop) (f : A -> B -> A) l : forall a,
  (forall a b, P a -> P (f a b)) -> P a -> P (foldl f a l).
Proof. induction l as [|b l IH]; intros a Hf Ha; [done|]. by apply IH; [|apply Hf]. Qed.

Lemma ensureChatCreated_protocol d : sdProtocol (ensureChatCreated d) = sdProtocol d.
Proof. unfold ensureChatCreated. by destruct (sdChatCreated d). Qed.

Lemma consumeChat_inv value d f :
  chat_inv d ->
  chat_inv (consumeChat value d f).1 ∧ sdProtocol (consumeChat value d f).1 = sdProtocol d.
Proof.
  intros I. apply chat_inv_ensure in I as R. pose proof (ensureChatCreated_protocol d) as Hp.
  unfold consumeChat. cbn zeta. destruct (firstObject _) as [choice|]; [|by destruct R].
  set (s := foldl _ _ _).
  assert (chat_ready s.1 ∧ sdProtocol s.1 = sdProtocol d) as [R1 Hp1].
  { apply (foldl_ready (fun s => chat_ready s.1 ∧ sdProtocol s.1 = sdProtocol d)); [|done].
    intros s' call [Hr Hs]. destruct (chat_call_ready call s' Hr). split; [done|congruence]. }
  destruct s as [d1 f1]. destruct (stringValue _) as [reason|]; [|by destruct R1].
  cbn [fst]. set (d2 := foldl _ _ _).
  assert (chat_ready d2 ∧ sdProtocol d2 = sdProtocol d) as [[? _] ?]; [|done].
  apply (foldl_ready (fun d2 => chat_ready d2 ∧ sdProtocol d2 = sdProtocol d)); [|done].
  intros d3 i [Hr Hs]. split; [by apply close_tool_ready|]. unfold close_tool. by destruct (sdChatTools d3 !! i).
Qed.

(** The Chat translation invents nothing: whatever events a Chat stream
    has, the lifecycle events they are translated to are numbered from one,
    begin with the only opening event, announce every tool call once under
    an identifier and output index of its own, speak only of announced
    calls, and close a call with exactly the concatenation of the argument
    fragments that were reported for it; so a violation that the stream
    oracle reports comes from what the provider sent. *)
Theorem chat_translation_is_faithful {lib : ExchangeLibrary} (es : list SSELogicalEvent) :
  faithful (sdEvents (foldl (fun s e => consume e s.1 s.2)
                        (newStreamDecoder ProtocolOpenAIChat, no_content) es).1).
Proof.
  set (P := fun s : streamDecoder * contentFacts => chat_inv s.1 ∧ sdProtocol s.1 = ProtocolOpenAIChat).
  assert (P (foldl (fun s e => consume e s.1 s.2) (newStreamDecoder ProtocolOpenAIChat, no_content) es))
    as [I _]; [|apply I].
  apply foldl_ready.
  - intros s e [I Hp]. unfold consume. case_decide.
    + apply chat_inv_ensure in I as [I Hc]. split; [|cbn; by rewrite ensureChatCreated_protocol].
      apply chat_inv_plain; [done|done|set_solver|done].
    + destruct (decodeObject _) as [value|]; [|done]. cbn zeta. rewrite Hp.
      rewrite decide_False by done. rewrite decide_True by done.
      split; [by apply consumeChat_inv|]. rewrite <- Hp. by apply consumeChat_inv.
  - split; [|done]. split; cbn; [constructor|done| |done|].
    + intros i t. by rewrite lookup_empty.
    + intros id a (Ha & _). set_solver.
Qed.
