(* ===== verification/RawEvaluate.v ===== *)
(** * internal/rawdriver/evaluate.go: the verdict on an exchange

    [evaluate] judges one HTTP exchange: it assembles the server-sent events
    with SSE.v, translates them with RawStream.v, normalizes the documents
    with Normalizer.v, asks the three oracles, and combines the answers that
    the scenario's check is about.  [Expected] and [Observed] values are
    messages: a Go map is its entries. *)
From Stdlib Require Import ZArith Ascii String Lia.
From stdpp Require Import base gmap sets list strings pretty.
From S2P Require Import Prelude Schema Results Canonical Documents Statemachine Oracle OracleSchema SSE Normalizer RawJSON RawStream.
Local Open Scope Z_scope.
Local Open Scope string_scope.
Local Open Scope list_scope.

Definition maxTerminalTraceEntries : Z := 8.

Record exchangeFacts := mkExchangeFacts {
  validUTF8 : bool;
  framingComplete : bool;
  terminalCount : Z;
  terminalTrace : list (Z * string);
  terminalOmitted : Z;
  postTerminal : Z;
  stateEvents : list Event;
  documents : list (list ascii);
  xfItems : list IRItem;
  parseOutcomes : list Outcome;
  responseObjects : list (option object);
  content : contentFacts
}.

Definition new_facts (valid framing : bool) : exchangeFacts :=
  mkExchangeFacts valid framing 0 [] 0 0 [] [] [] [] [] no_content.

Definition set_framingComplete (b : bool) (f : exchangeFacts) : exchangeFacts :=
  mkExchangeFacts (validUTF8 f) b (terminalCount f) (terminalTrace f) (terminalOmitted f)
    (postTerminal f) (stateEvents f) (documents f) (xfItems f) (parseOutcomes f) (responseObjects f)
    (content f).
Definition count_terminal (index : Z) (marker : string) (f : exchangeFacts) : exchangeFacts :=
  let keep := bool_decide (Z.of_nat (length (terminalTrace f)) < maxTerminalTraceEntries) in
  mkExchangeFacts (validUTF8 f) (framingComplete f) (terminalCount f + 1)
    (if keep then terminalTrace f ++ [(index + 1, marker)] else terminalTrace f)
    (if keep then terminalOmitted f else terminalOmitted f + 1)
    (postTerminal f) (stateEvents f) (documents f) (xfItems f) (parseOutcomes f) (responseObjects f)
    (content f).
Definition count_postTerminal (f : exchangeFacts) : exchangeFacts :=
  mkExchangeFacts (validUTF8 f) (framingComplete f) (terminalCount f) (terminalTrace f)
    (terminalOmitted f) (postTerminal f + 1) (stateEvents f) (documents f) (xfItems f)
    (parseOutcomes f) (responseObjects f) (content f).
Definition set_stateEvents (es : list Event) (f : exchangeFacts) : exchangeFacts :=
  mkExchangeFacts (validUTF8 f) (framingComplete f) (terminalCount f) (terminalTrace f)
    (terminalOmitted f) (postTerminal f) es (documents f) (xfItems f) (parseOutcomes f)
    (responseObjects f) (content f).
Definition add_document (raw : list ascii) (o : Outcome) (f : exchangeFacts) : exchangeFacts :=
  mkExchangeFacts (validUTF8 f) (framingComplete f) (terminalCount f) (terminalTrace f)
    (terminalOmitted f) (postTerminal f) (stateEvents f) (documents f ++ [raw]) (xfItems f)
    (parseOutcomes f ++ [o]) (responseObjects f) (content f).
Definition add_parseOutcome (o : Outcome) (f : exchangeFacts) : exchangeFacts :=
  mkExchangeFacts (validUTF8 f) (framingComplete f) (terminalCount f) (terminalTrace f)
    (terminalOmitted f) (postTerminal f) (stateEvents f) (documents f) (xfItems f)
    (parseOutcomes f ++ [o]) (responseObjects f) (content f).
Definition add_item (i : IRItem) (f : exchangeFacts) : exchangeFacts :=
  mkExchangeFacts (validUTF8 f) (framingComplete f) (terminalCount f) (terminalTrace f)
    (terminalOmitted f) (postTerminal f) (stateEvents f) (documents f) (xfItems f ++ [i])
    (parseOutcomes f) (responseObjects f) (content f).
Definition add_responseObject (o : option object) (f : exchangeFacts) : exchangeFacts :=
  mkExchangeFacts (validUTF8 f) (framingComplete f) (terminalCount f) (terminalTrace f)
    (terminalOmitted f) (postTerminal f) (stateEvents f) (documents f) (xfItems f)
    (parseOutcomes f) (responseObjects f ++ [o]) (content f).
Definition set_content (c : contentFacts) (f : exchangeFacts) : exchangeFacts :=
  mkExchangeFacts (validUTF8 f) (framingComplete f) (terminalCount f) (terminalTrace f)
    (terminalOmitted f) (postTerminal f) (stateEvents f) (documents f) (xfItems f)
    (parseOutcomes f) (responseObjects f) c.

Record evaluation := mkEvaluation { evOutcome : Outcome; evUsage : observedUsage }.

(** ** Outcomes *)

(** Values of type [any] in outcomes. *)
Definition any_int (z : Z) : message := Sprintf "%d" [FInt z].
Definition any_strings (l : list string) : message := Sprintf "%v" (FStr <$> l).
Definition any_map (entries : list (string * fmt_arg)) : message :=
  Sprintf "map" (concat ((fun '(k, v) => [FStr k; v]) <$> entries)).
Definition FBool (b : bool) : fmt_arg := FStr (if b then "true" else "false").

Definition observedPass (refs : list ObjectRef) : Outcome :=
  mkOutcome VerdictPass "" "assertion_satisfied" None None refs false.
Definition observedFail (refs : list ObjectRef) (code : string) (expected observed : message) : Outcome :=
  mkOutcome VerdictFail "" code (Some expected) (Some observed) refs true.
Definition observedInconclusive (refs : list ObjectRef) (reason : ReasonCode) (code : string)
    (expected observed : message) : Outcome :=
  mkOutcome VerdictInconclusive reason code (Some expected) (Some observed) refs false.

Definition combineOutcomes (refs : list ObjectRef) (outcomes : list Outcome) : Outcome :=
  match list_find (fun o => TargetFailure o = true) outcomes with
  | Some (_, o) => o
  | None =>
      match list_find (fun o => outVerdict o = VerdictInconclusive ∨ outVerdict o = VerdictWarn) outcomes with
      | Some (_, o) => o
      | None => observedPass refs
      end
  end.

(** ** Checks *)
Definition checkUsage (expected : option TokenUsage) (actual : observedUsage) (refs : list ObjectRef)
    : Outcome :=
  match expected with
  | None => mkOutcome VerdictInconclusive ReasonHarnessError "missing_usage_expectation" None None refs false
  | Some expected =>
      let expectedMap := [("input", FInt (tuInput expected)); ("output", FInt (tuOutput expected))] in
      let observedMap :=
        [("input_observed", FBool (bool_decide (is_Some (ouInput actual))));
         ("input", FInt (default 0 (ouInput actual)));
         ("output_observed", FBool (bool_decide (is_Some (ouOutput actual))));
         ("output", FInt (default 0 (ouOutput actual)))] in
      if decide (ouInput actual = None ∨ ouOutput actual = None ∨
                 default 0 (ouInput actual) ≠ tuInput expected ∨
                 default 0 (ouOutput actual) ≠ tuOutput expected)
      then observedFail refs "usage_mismatch" (any_map expectedMap) (any_map observedMap)
      else match tuTotal expected with
      | None => observedPass refs
      | Some total =>
          if decide (ouTotal actual = None ∨ default 0 (ouTotal actual) ≠ total ∨
                     default 0 (ouTotal actual) ≠
                       int64_wrap (default 0 (ouInput actual) + default 0 (ouOutput actual)))
          then observedFail refs "usage_inconsistent"
                 (any_map (expectedMap ++ [("total", FInt total)]))
                 (any_map (observedMap ++
                    [("total_observed", FBool (bool_decide (is_Some (ouTotal actual))));
                     ("total", FInt (default 0 (ouTotal actual)))]))
          else observedPass refs
      end
  end.

Definition checkRequiredEnvelope (protocol : Protocol) (docs : list (option object))
    (refs : list ObjectRef) : Outcome :=
  match docs with
  | [Some ms] =>
      let value := Some ms in
      let requiredString name := match stringValue (field value name) with
                                 | Some t => bool_decide (t ≠ "") | None => false end in
      let requiredArray name := match field value name with JArray _ => true | _ => false end in
      let requiredObject name := match field value name with JObject _ => true | _ => false end in
      let equals name s := match field value name with JString t => bool_decide (t = s) | _ => false end in
      let integer name := bool_decide (is_Some (integerValue (field value name))) in
      let valid :=
        if decide (protocol = ProtocolOpenAIChat) then
          requiredString "id" && equals "object" "chat.completion" && integer "created" &&
          requiredString "model" && requiredArray "choices"
        else if decide (protocol = ProtocolOpenAIResponses) then
          requiredString "id" && equals "object" "response" && integer "created_at" &&
          requiredString "status" && requiredString "model" && requiredArray "output"
        else if decide (protocol = ProtocolAnthropic) then
          requiredString "id" && equals "type" "message" && equals "role" "assistant" &&
          requiredString "model" && requiredArray "content" && requiredObject "usage"
        else false in
      if valid : bool then observedPass refs
      else observedFail refs "required_response_envelope_missing" (Text "documented protocol envelope")
             (Text "one or more required fields are absent or invalid")
  | _ => observedFail refs "required_response_envelope_missing" (Text "one response object")
           (any_int (Z.of_nat (length docs)))
  end.

(** [headers.Get("Content-Type")]. *)
Definition header_Get (headers : Header) (key : string) : string :=
  match headers !! key with Some (v :: _) => v | _ => "" end.

Definition objectSchema : JSchema := mkJSchema [TypeObject] [] [] None true.

(** The observation of a reached output limit. *)
Definition limit_observed (name : string) (limit : Z) (c : contentFacts) : message :=
  any_map ([("request_field", FStr name); ("requested_output_tokens", FInt limit);
            ("terminal_signal", FStr (outputLimitHit c))] ++
           match ouOutput (usage c) with Some n => [("output_tokens", FInt n)] | None => [] end ++
           match ouReasoning (usage c) with
           | Some n => [("reasoning_tokens", FInt n);
                        ("reasoning_tokens_reached_requested_limit", FBool (bool_decide (n >= limit)))]
           | None => []
           end).

(** The first value that is not allowed, if any. *)
Definition first_bad (ok : string -> bool) (l : list string) : option string :=
  snd <$> list_find (fun s => ok s = false) l.

Section Evaluate.
Context {lib : ExchangeLibrary} {ro : RangeOrder string itemState}.

Definition checkContentType (streaming : bool) (headers : Header) (refs : list ObjectRef) : Outcome :=
  let expected := if streaming then "text/event-stream" else "application/json" in
  let failed := observedFail refs "unexpected_content_type" (Text expected)
                  (Text (header_Get headers "Content-Type")) in
  match ParseMediaType (header_Get headers "Content-Type") with
  | Err _ => failed
  | Ok actual => if decide (actual ≠ expected) then failed else observedPass refs
  end.

Definition checkFinishReason (scenario : Scenario) (facts : exchangeFacts) (refs : list ObjectRef)
    : Outcome :=
  let reasons := finishReasons (content facts) in
  let allowed := asAllowedValues (snAssertion scenario) in
  let judge :=
    if decide (length reasons = 0%nat) then
      observedFail refs "finish_reason_missing" (any_strings allowed) (Text "none")
    else match first_bad (fun r => bool_decide (r ∈ allowed)) reasons with
    | Some reason => observedFail refs "finish_reason_invalid" (any_strings allowed) (Text reason)
    | None => observedPass refs
    end in
  match requestedOutputLimit scenario with
  | Some (name, limit) =>
      if decide (outputLimitHit (content facts) ≠ "") then
        observedInconclusive refs ReasonInsufficientSamples "provider_output_limit_reached"
          (any_map [("request_field", FStr name); ("requested_output_tokens", FInt limit);
                    ("prerequisite", FStr "response completes before the requested output limit")])
          (limit_observed name limit (content facts))
      else judge
  | None => judge
  end.

Definition checkTerminalEvent (facts : exchangeFacts) (refs : list ObjectRef) : Outcome :=
  if decide (terminalCount facts ≠ 1 ∨ framingComplete facts = false) then
    observedFail refs "terminal_event_count" (any_int 1)
      (any_map ([("terminal_count", FInt (terminalCount facts));
                 ("framing_complete", FBool (framingComplete facts))] ++
                ((fun '(index, marker) => (marker, FInt index)) <$> terminalTrace facts) ++
                [("trace_entries_omitted", FInt (terminalOmitted facts))]))
  else observedPass refs.

Definition checkNoPostTerminal (facts : exchangeFacts) (refs : list ObjectRef) : Outcome :=
  if decide (terminalCount facts = 0) then
    mkOutcome VerdictInconclusive ReasonNotObserved "terminal_not_observed" None None refs false
  else if decide (postTerminal facts ≠ 0) then
    observedFail refs "semantic_data_after_terminal" (any_int 0) (any_int (postTerminal facts))
  else observedPass refs.

Definition checkScenario (scenario : Scenario) (facts : exchangeFacts) (refs : list ObjectRef) : Outcome :=
  let check := asCheck (snAssertion scenario) in
  let c := content facts in
  if decide (check = CheckArgumentsString) then
    if decide (length (argumentTypes c) = 0%nat) then
      observedFail refs "tool_arguments_not_observed" (Text "JSON-encoded string arguments") (Text "none")
    else match first_bad (fun t => bool_decide (t = "string")) (argumentTypes c) with
    | Some actual => observedFail refs "tool_arguments_wrong_type" (Text "string") (Text actual)
    | None => observedPass refs
    end
  else if decide (check = CheckStreamingToolCall) then
    if decide (toolCallCount c = 0) then
      observedFail refs "streaming_tool_call_missing" (Text "at least one streamed tool call") (Text "none")
    else observedPass refs
  else if decide (check = CheckFinishReason) then checkFinishReason scenario facts refs
  else if decide (check = CheckTerminalEvent) then checkTerminalEvent facts refs
  else if decide (check = CheckNoUnknownEvent) then
    if decide (unknownCount c ≠ 0) then
      observedFail refs "unexpected_fixture_event" (any_int 0) (any_int (unknownCount c))
    else observedPass refs
  else if decide (check = CheckUsageConsistent) then
    checkUsage (asExpectedUsage (snAssertion scenario)) (usage c) refs
  else if decide (check = CheckValidUTF8) then
    if validUTF8 facts then observedPass refs
    else observedFail refs "invalid_utf8" (Text "valid UTF-8 stream bytes") (Text "truncated code point")
  else if decide (check = CheckRequiredEnvelope) then
    checkRequiredEnvelope (snProtocol scenario) (responseObjects facts) refs
  else if decide (check = CheckStreamMediaType) then observedPass refs
  else if decide (check = CheckNoPostTerminal) then checkNoPostTerminal facts refs
  else if decide (check ∈ [CheckOutputIndexes; CheckStableToolCallID; CheckClosedReasoning]) then
    observedPass refs
  else mkOutcome VerdictInconclusive ReasonHarnessError "unsupported_registered_check" None None refs false.

(** ** Parsing *)
Definition native_request (scenario : Scenario) (itemID : string) (irType : IRType) (raw : list ascii)
    (refs : list ObjectRef) : Request :=
  mkRequest itemID irType (snProtocol scenario) (snID scenario) "" "" (string_of_list_ascii raw) refs ""
    TransformIdentity "1.0.0".

Definition schema_outcome (raw : list ascii) (refs : list ObjectRef) : Outcome :=
  EvaluateSchema (mkInput raw refs true None) objectSchema.

Definition parseJSONResponse (scenario : Scenario) (body : list ascii) (refs : list ObjectRef)
    : result error exchangeFacts :=
  let facts := add_document body (schema_outcome body refs) (new_facts (utf8_Valid body) true) in
  if json_Valid (string_of_list_ascii body) then
    item ← wrap (Wrapf (Text "normalize JSON response: %w"))
             (Normalize (native_request scenario "response-document" IRMessage body refs));
    value ← wrap (Wrapf (Text "decode validated JSON response: %w")) (decodeObject body);
    let facts := add_responseObject value (add_item item facts) in
    mret (set_content (inspectNonStream (snProtocol scenario) value (content facts)) facts)
  else mret facts.

(** [fmt.Sprintf("event-%06d", n)] for a positive [n]. *)
Fixpoint zeros (n : nat) : string := match n with O => "" | S n' => String "0" (zeros n') end.
Definition event_id (n : Z) : string :=
  let digits := pretty n in "event-" +:+ zeros (6 - String.length digits) +:+ digits.

(** The locals of the loop over the events. *)
Record streamState := mkStreamState {
  ssFacts : exchangeFacts;
  ssDecoder : streamDecoder;
  ssTerminalSeen : bool
}.

Definition read_event (scenario : Scenario) (refs : list ObjectRef) (index : Z) (event : SSELogicalEvent)
    (st : streamState) : result error streamState :=
  let protocol := snProtocol scenario in
  let facts := ssFacts st in
  let facts := if decide (ssTerminalSeen st = true ∧ evData event ≠ "")
               then count_postTerminal facts else facts in
  let facts := match countedTerminalMarker protocol event with
               | Some marker => count_terminal index marker facts
               | None => facts
               end in
  let '(decoder, c) := consume event (ssDecoder st) (content facts) in
  let facts := set_content c facts in
  let terminalSeen := ssTerminalSeen st || isTerminalEvent protocol event in
  if decide (evData event = done_marker) then mret (mkStreamState facts decoder terminalSeen)
  else
    let raw := list_ascii_of_string (evData event) in
    let facts := add_document raw (schema_outcome raw refs) facts in
    if json_Valid (evData event) then
      item ← wrap (Wrapf (Sprintf "normalize SSE event %d: %w" [FInt (index + 1)]))
               (Normalize (native_request scenario (event_id (index + 1)) IRLifecycleEvent raw refs));
      mret (mkStreamState (add_item item facts) decoder terminalSeen)
    else mret (mkStreamState facts decoder terminalSeen).

Fixpoint read_events (scenario : Scenario) (refs : list ObjectRef) (index : Z)
    (events : list SSELogicalEvent) (st : streamState) : result error streamState :=
  match events with
  | [] => mret st
  | event :: events' =>
      st ← read_event scenario refs index event st;
      read_events scenario refs (index + 1) events' st
  end.

Definition parseStream (scenario : Scenario) (body : list ascii) (refs : list ObjectRef)
    : result error exchangeFacts :=
  let facts := new_facts (utf8_Valid body) true in
  if decide (length body = 0%nat) then mret (set_framingComplete false facts)
  else
    match Feed (mkReadChunk 1 0 body) (NewSSEAssembler (Z.max (blen body + 1) 1024)) with
    | (Err _, _) =>
        mret (add_parseOutcome (observedFail refs "invalid_sse_framing"
                (Text "bounded logical SSE events") (Text "invalid framing")) facts)
    | (Ok events, assembler) =>
        let tail := SSE.Finish assembler in
        let facts :=
          if decide (BufferedBytes tail ≠ 0 ∨ PendingFieldCount tail ≠ 0) then
            add_parseOutcome (observedFail refs "incomplete_sse_event"
              (Text "blank-line terminated logical event") (Text "trailing partial event"))
              (set_framingComplete false facts)
          else facts in
        st ← read_events scenario refs 0 events
               (mkStreamState facts (newStreamDecoder (snProtocol scenario)) false);
        mret (set_stateEvents (sdEvents (ssDecoder st)) (ssFacts st))
    end.

(** ** The verdict *)
Definition stateOutcome (facts : exchangeFacts) (refs : list ObjectRef) : Evaluation :=
  EvaluateStateMachine (mkInput (stateEvents facts) refs true None).

Definition relationOutcome (facts : exchangeFacts) (refs : list ObjectRef) : Outcome :=
  if decide (0 < length (xfItems facts))%nat then
    EvaluateRelations json_Valid (mkInput (xfItems facts) refs true None)
  else observedFail refs "empty_normalized_interaction" (Text "at least one valid response document")
         (Text "none").

(** The outcomes that the check combines, in order; [None] when the state
    machine panics. *)
Definition selected_outcomes (scenario : Scenario) (facts : exchangeFacts) (refs : list ObjectRef)
    (status content_type : Outcome) : option (list Outcome) :=
  let check := asCheck (snAssertion scenario) in
  let verdict := checkScenario scenario facts refs in
  let state := match stateOutcome facts refs with Returns o => Some o | Panics => None end in
  if decide (check = CheckStreamMediaType) then Some [status; content_type; verdict]
  else if decide (check = CheckRequiredEnvelope) then
    Some ([status; content_type] ++ parseOutcomes facts ++ [verdict])
  else if decide (check = CheckTerminalEvent) then
    o ← state; Some ([status; content_type] ++ parseOutcomes facts ++ [verdict; o])
  else if decide (check = CheckNoPostTerminal) then Some [status; content_type; verdict]
  else
    streamed ← (if snStreaming scenario then o ← state; Some [o] else Some []);
    Some ([status; content_type; verdict] ++ streamed ++ parseOutcomes facts ++
          [relationOutcome facts refs]).

(** [None] is a panic. *)
Definition evaluate (scenario : Scenario) (status : Z) (headers : Header) (body : list ascii)
    (refs : list ObjectRef) : option (result error evaluation) :=
  match unsupportedOutputLimitField scenario status body with
  | Some name =>
      Some (Ok (mkEvaluation (observedInconclusive refs ReasonUnsupportedCapability
        "provider_output_limit_unsupported"
        (any_map [("request_field", FStr name);
                  ("prerequisite", FStr "provider accepts the requested output limit")])
        (any_map [("http_status", FInt status); ("request_field", FStr name);
                  ("support", FStr "unsupported")])) (mkObservedUsage None None None None)))
  | None =>
      let statusOutcome := if decide (status ≠ snExpectedStatus scenario)
        then observedFail refs "unexpected_http_status" (any_int (snExpectedStatus scenario)) (any_int status)
        else observedPass refs in
      let contentTypeOutcome := checkContentType (snStreaming scenario) headers refs in
      match (if snStreaming scenario then parseStream scenario body refs
             else parseJSONResponse scenario body refs) with
      | Err e => Some (Err e)
      | Ok facts =>
          outcomes ← selected_outcomes scenario facts refs statusOutcome contentTypeOutcome;
          Some (Ok (mkEvaluation (combineOutcomes refs outcomes) (usage (content facts))))
      end
  end.
End Evaluate.
