(* ===== verification/RawEvaluateSpec.v ===== *)
(** * internal/rawdriver/evaluate.go: what a verdict means *)
From Stdlib Require Import ZArith Ascii String Lia.
From stdpp Require Import base gmap sets list strings pretty.
From S2P Require Import Prelude Schema Results Canonical Documents DocumentsSpec Statemachine StatemachineSpec Oracle OracleSpec OracleSchema SSE SSESpec Normalizer RawJSON RawStream RawEvaluate.
Local Open Scope Z_scope.
Local Open Scope string_scope.
Local Open Scope list_scope.

(** ** Combining outcomes *)

(** An outcome as the oracles and the checks make them: the target is failed
    exactly when it is blamed. *)
Definition regular (o : Outcome) : Prop :=
  (outVerdict o = VerdictFail <-> TargetFailure o = true) ∧ three_valued (outVerdict o).

Lemma regular_pass refs : regular (observedPass refs).
Proof. split; [done|by left]. Qed.
Lemma regular_fail refs code e o : regular (observedFail refs code e o).
Proof. split; [done|by right; left]. Qed.
Lemma regular_inconclusive reason code e o refs :
  regular (mkOutcome VerdictInconclusive reason code e o refs false).
Proof. split; [done|by right; right]. Qed.

Create HintDb raw discriminated.
#[export] Hint Resolve regular_pass regular_fail regular_inconclusive : raw.

Lemma list_find_exists {A} (P : A -> Prop) `{forall x, Decision (P x)} l :
  match list_find P l with
  | Some (_, x) => x ∈ l ∧ P x
  | None => Forall (fun x => ~ P x) l
  end.
Proof.
  destruct (list_find P l) as [[i x]|] eqn:E.
  - apply list_find_Some in E as (Hi & HP & _). split; [by eapply list_elem_of_lookup_2|done].
  - by apply list_find_None in E.
Qed.

Lemma combine_spec refs os :
  Forall regular os ->
  let o := combineOutcomes refs os in
  regular o ∧ (TargetFailure o = true <-> Exists (fun o => TargetFailure o = true) os) ∧
  (outVerdict o = VerdictPass <-> Forall (fun o => outVerdict o = VerdictPass) os).
Proof.
  intros HR. unfold combineOutcomes. rewrite Forall_forall in HR. rewrite Exists_exists, !Forall_forall.
  assert (VerdictFail <> VerdictPass) by done. assert (VerdictInconclusive <> VerdictPass) by done.
  pose proof (list_find_exists (fun o => TargetFailure o = true) os) as F.
  destruct (list_find (fun o => TargetFailure o = true) os) as [[i o]|].
  { destruct F as [Hin HT]. destruct (HR o Hin) as [H1 H2]. split_and!; [done| |].
    - split; [intros _; by exists o|done].
    - split; [|intros H'; by apply H']. apply H1 in HT. congruence. }
  rewrite Forall_forall in F.
  set (Q := fun o => outVerdict o = VerdictInconclusive ∨ outVerdict o = VerdictWarn).
  pose proof (list_find_exists Q os) as G. fold Q.
  destruct (list_find Q os) as [[i o]|].
  - destruct G as [Hin HQ]. destruct (HR o Hin) as [H1 H2].
    assert (outVerdict o = VerdictInconclusive) as HV.
    { destruct HQ as [?|HW]; [done|]. rewrite HW in H2. by destruct H2 as [?|[?|?]]. }
    split_and!; [done| |].
    + split; [intros HT; by exists o|]. intros (o' & Ho' & HT). by destruct (F o' Ho').
    + split; [congruence|]. intros H'. specialize (H' o Hin). congruence.
  - rewrite Forall_forall in G. split_and!; [apply regular_pass| |].
    + split; [done|]. intros (o' & Ho' & HT). by destruct (F o' Ho').
    + split; [|done]. intros _ o Hin. destruct (HR o Hin) as [H1 [?|[H2|H2]]]; [done|..].
      * apply H1 in H2. by destruct (F o Hin).
      * destruct (G o Hin). by left.
Qed.

(** ** Every outcome is regular *)
Definition sound_refs (refs : list ObjectRef) : Prop :=
  refs <> [] ∧ Forall (fun ref => ObjectRef_Validate ref = Ok tt) refs.

(** Not an abstention. *)
Definition decisive (o : Outcome) : Prop := outVerdict o <> VerdictPass -> outVerdict o = VerdictFail.

Section Spec.
Context {lib : ExchangeLibrary} {ro : RangeOrder string itemState}.

Lemma regular_schema raw refs : regular (schema_outcome raw refs).
Proof.
  unfold schema_outcome. set (input := mkInput raw refs true None).
  destruct (judgeable_dec input objectSchema) as [J|J].
  - destruct (EvaluateSchema_judged input objectSchema J) as [[(H1 & H2 & _)|(H1 & H2 & _)] _];
      split; rewrite H1, ?H2; unfold three_valued; tauto || done.
  - destruct (EvaluateSchema_unjudged input objectSchema J) as [H1 H2].
    split; rewrite H1, ?H2; unfold three_valued; tauto || done.
Qed.

Lemma stateOutcome_spec facts refs :
  exists o, stateOutcome facts refs = Returns o ∧ regular o ∧
    (outVerdict o = VerdictPass -> accepted (stateEvents facts) ∧ terminated (stateEvents facts)) ∧
    (sound_refs refs ->
       (outVerdict o = VerdictPass <-> accepted (stateEvents facts) ∧ terminated (stateEvents facts)) ∧
       decisive o).
Proof.
  destruct (EvaluateStateMachine_spec (mkInput (stateEvents facts) refs true None))
    as (o & H1 & H2 & H3 & H4 & H5 & H6).
  exists o. split_and!; [done|by split|rewrite H2; simpl; tauto|]. intros Hs.
  assert (sound_evidence (mkInput (stateEvents facts) refs true None)) as Hs' by by split.
  split; [rewrite H2; simpl; tauto|]. specialize (H6 Hs' eq_refl). unfold decisive.
  destruct H5 as [?|[?|?]]; tauto.
Qed.

Lemma regular_relation facts refs : regular (relationOutcome facts refs).
Proof.
  unfold relationOutcome. case_decide; [|apply regular_fail].
  destruct (EvaluateRelations_spec json_Valid (mkInput (xfItems facts) refs true None)) as (_ & H2 & _ & H4).
  by split.
Qed.

Lemma regular_if (b : bool) x y : regular x -> regular y -> regular (if b then x else y).
Proof. by destruct b. Qed.
Lemma regular_decide (P : Prop) `{Decision P} x y :
  regular x -> regular y -> regular (if decide P then x else y).
Proof. by case_decide. Qed.
Lemma regular_option {A} (o : option A) f y :
  (forall a, regular (f a)) -> regular y -> regular (match o with Some a => f a | None => y end).
Proof. by destruct o. Qed.

#[local] Hint Resolve regular_if regular_decide regular_option : raw.

Lemma regular_checkUsage e u refs : regular (checkUsage e u refs).
Proof. unfold checkUsage. destruct e as [e|]; auto with raw. Qed.

Lemma regular_checkEnvelope p docs refs : regular (checkRequiredEnvelope p docs refs).
Proof.
  unfold checkRequiredEnvelope. destruct docs as [|[ms|] [|]]; cbn zeta; auto with raw.
Qed.

Lemma regular_checkFinishReason sc facts refs : regular (checkFinishReason sc facts refs).
Proof.
  unfold checkFinishReason, observedInconclusive. cbn zeta.
  destruct (requestedOutputLimit sc) as [[name limit]|]; auto 6 with raw.
Qed.

#[local] Hint Resolve regular_checkUsage regular_checkEnvelope regular_checkFinishReason : raw.

Lemma regular_checkScenario sc facts refs : regular (checkScenario sc facts refs).
Proof.
  unfold checkScenario, checkTerminalEvent, checkNoPostTerminal. cbn zeta.
  repeat (apply regular_decide; [auto with raw|]). auto with raw.
Qed.

Lemma regular_contentType b h refs : regular (checkContentType b h refs).
Proof. unfold checkContentType. destruct (ParseMediaType _); auto with raw. Qed.

(** ** Reading a stream *)

(** The decoder and the content facts after some events. *)
Definition decode_all (es : list SSELogicalEvent) (s : streamDecoder * contentFacts)
    : streamDecoder * contentFacts :=
  foldl (fun s e => consume e s.1 s.2) s es.

(** The lifecycle events that the events of a stream stand for. *)
Definition translate (protocol : Protocol) (es : list SSELogicalEvent) : list Event :=
  sdEvents (decode_all es (newStreamDecoder protocol, no_content)).1.

(** The terminal markers of a stream. *)
Definition markers (protocol : Protocol) (es : list SSELogicalEvent) : list string :=
  omap (countedTerminalMarker protocol) es.

(** The documents of a stream: the data of every event but the sentinel. *)
Definition stream_documents (es : list SSELogicalEvent) : list (list ascii) :=
  (fun e => list_ascii_of_string (evData e)) <$> filter (fun e => evData e <> done_marker) es.

(** What follows the first terminal event. *)
Fixpoint after_terminal (protocol : Protocol) (es : list SSELogicalEvent) : list SSELogicalEvent :=
  match es with
  | [] => []
  | e :: es' => if isTerminalEvent protocol e then es' else after_terminal protocol es'
  end.
Definition carries_data (e : SSELogicalEvent) : Prop := evData e <> "".
#[local] Instance carries_data_dec e : Decision (carries_data e).
Proof. unfold carries_data. apply _. Defined.

(** The facts after events [es], from the facts [f0]. *)
Record facts_after (sc : Scenario) (refs : list ObjectRef) (seen : bool) (es : list SSELogicalEvent)
    (f0 f : exchangeFacts) : Prop := {
  fa_framing : framingComplete f = framingComplete f0;
  fa_utf8 : validUTF8 f = validUTF8 f0;
  fa_count : terminalCount f = terminalCount f0 + Z.of_nat (length (markers (snProtocol sc) es));
  fa_post : postTerminal f = postTerminal f0 + Z.of_nat (length (filter carries_data
              (if seen then es else after_terminal (snProtocol sc) es)));
  fa_parse : parseOutcomes f = parseOutcomes f0 ++
               ((fun raw => schema_outcome raw refs) <$> stream_documents es)
}.

Lemma read_event_ok sc refs i e st st' :
  read_event sc refs i e st = Ok st' ->
  facts_after sc refs (ssTerminalSeen st) [e] (ssFacts st) (ssFacts st') ∧
  (ssDecoder st', content (ssFacts st')) = consume e (ssDecoder st) (content (ssFacts st)) ∧
  ssTerminalSeen st' = ssTerminalSeen st || isTerminalEvent (snProtocol sc) e.
Proof.
  unfold read_event. intros H.
  set (f1 := if decide (ssTerminalSeen st = true ∧ evData e ≠ "") then _ else _) in H.
  assert (framingComplete f1 = framingComplete (ssFacts st) ∧ validUTF8 f1 = validUTF8 (ssFacts st) ∧
    terminalCount f1 = terminalCount (ssFacts st) ∧ parseOutcomes f1 = parseOutcomes (ssFacts st) ∧
    content f1 = content (ssFacts st) ∧
    postTerminal f1 = postTerminal (ssFacts st) + Z.of_nat (length (filter carries_data
      (if ssTerminalSeen st then [e] else after_terminal (snProtocol sc) [e])))) as (A1 & A2 & A3 & A4 & A5 & A6).
  { unfold f1. cbn [after_terminal]. assert ((if isTerminalEvent (snProtocol sc) e then [] else []) =
      @nil SSELogicalEvent) as -> by by destruct (isTerminalEvent _ e).
    destruct (ssTerminalSeen st); rewrite ?filter_cons, ?filter_nil; unfold carries_data.
    - destruct (decide (evData e = "")) as [E|E].
      + rewrite !decide_False by tauto. split_and!; try done; simpl; lia.
      + rewrite !decide_True by done. done.
    - rewrite decide_False by naive_solver. split_and!; try done; simpl; lia. }
  clearbody f1.
  set (f2 := match countedTerminalMarker _ e with Some _ => _ | None => _ end) in H.
  assert (framingComplete f2 = framingComplete f1 ∧ validUTF8 f2 = validUTF8 f1 ∧
    terminalCount f2 = terminalCount f1 + Z.of_nat (length (markers (snProtocol sc) [e])) ∧
    parseOutcomes f2 = parseOutcomes f1 ∧ content f2 = content f1 ∧ postTerminal f2 = postTerminal f1)
    as (B1 & B2 & B3 & B4 & B5 & B6).
  { unfold f2, markers. simpl. destruct (countedTerminalMarker _ e); split_and!; try done; simpl; lia. }
  clearbody f2. rewrite B5, A5 in H.
  destruct (consume e (ssDecoder st) (content (ssFacts st))) as [d c].
  assert (framingComplete (ssFacts st') = framingComplete f2 ∧ validUTF8 (ssFacts st') = validUTF8 f2 ∧
    terminalCount (ssFacts st') = terminalCount f2 ∧ postTerminal (ssFacts st') = postTerminal f2 ∧
    parseOutcomes (ssFacts st') = parseOutcomes f2 ++
      ((fun raw => schema_outcome raw refs) <$> stream_documents [e]) ∧
    ssDecoder st' = d ∧ content (ssFacts st') = c ∧
    ssTerminalSeen st' = ssTerminalSeen st || isTerminalEvent (snProtocol sc) e)
    as (C1 & C2 & C3 & C4 & C5 & C6 & C7 & C8).
  { unfold stream_documents. rewrite filter_cons, filter_nil. case_decide as D.
    - injection H as <-. rewrite decide_False by tauto. simpl. by rewrite app_nil_r.
    - rewrite decide_True by done. destruct (json_Valid (evData e)); [apply bind_Ok in H as (it & _ & H)|];
        injection H as <-; done. }
  split_and!; [|by rewrite C6, C7|done]. split; congruence || lia || idtac.
Qed.

Lemma facts_after_cons sc refs seen e es f0 f1 f2 :
  facts_after sc refs seen [e] f0 f1 ->
  facts_after sc refs (seen || isTerminalEvent (snProtocol sc) e) es f1 f2 ->
  facts_after sc refs seen (e :: es) f0 f2.
Proof.
  intros [A1 A2 A3 A4 A5] [B1 B2 B3 B4 B5]. split; [congruence|congruence| | |].
  - rewrite B3, A3. change (e :: es) with ([e] ++ es) at 1. unfold markers.
    rewrite omap_app, length_app. lia.
  - rewrite B4, A4. cbn [after_terminal]. destruct seen; cbn [orb].
    + rewrite !filter_cons, filter_nil. case_decide; simpl; lia.
    + destruct (isTerminalEvent (snProtocol sc) e); simpl; lia.
  - rewrite B5, A5, <- app_assoc. unfold stream_documents. rewrite !filter_cons, filter_nil.
    by case_decide.
Qed.

Lemma facts_after_nil sc refs seen f : facts_after sc refs seen [] f f.
Proof.
  split; [done|done|simpl; lia| |by rewrite app_nil_r]. destruct seen; simpl; lia.
Qed.

Lemma read_events_ok sc refs es : forall i st st',
  read_events sc refs i es st = Ok st' ->
  facts_after sc refs (ssTerminalSeen st) es (ssFacts st) (ssFacts st') ∧
  (ssDecoder st', content (ssFacts st')) = decode_all es (ssDecoder st, content (ssFacts st)).
Proof.
  induction es as [|e es IH]; intros i st st' H; cbn [read_events] in H.
  - injection H as <-. split; [apply facts_after_nil|done].
  - apply bind_Ok in H as (st1 & H1 & H2). apply read_event_ok in H1 as (A & B & C).
    apply IH in H2 as [D E]. rewrite C in D. split; [by eapply facts_after_cons|].
    rewrite E, B. unfold decode_all. simpl. by destruct (consume e _ _).
Qed.

(** Provenance does not matter. *)
Lemma erase_decode_all es : forall s, decode_all (erase <$> es) s = decode_all es s.
Proof. induction es as [|e es IH]; intros s; [done|]. unfold decode_all in *. simpl. by rewrite IH. Qed.

Lemma erase_markers protocol es : markers protocol (erase <$> es) = markers protocol es.
Proof.
  unfold markers. induction es as [|e es IH]; [done|]. rewrite fmap_cons. cbn [omap list_omap].
  change (countedTerminalMarker protocol (erase e)) with (countedTerminalMarker protocol e).
  destruct (countedTerminalMarker protocol e); by rewrite IH.
Qed.

Lemma erase_after_terminal protocol es :
  after_terminal protocol (erase <$> es) = erase <$> after_terminal protocol es.
Proof.
  induction es as [|e es IH]; [done|]. simpl.
  change (isTerminalEvent protocol (erase e)) with (isTerminalEvent protocol e).
  by destruct (isTerminalEvent protocol e).
Qed.

Lemma erase_carries_data es :
  length (filter carries_data (erase <$> es)) = length (filter carries_data es).
Proof.
  induction es as [|e es IH]; [done|]. rewrite fmap_cons, !filter_cons. unfold carries_data in *. simpl.
  repeat case_decide; simpl; congruence.
Qed.

Lemma erase_documents es : stream_documents (erase <$> es) = stream_documents es.
Proof.
  unfold stream_documents. induction es as [|e es IH]; [done|]. rewrite fmap_cons, !filter_cons.
  change (evData (erase e)) with (evData e). case_decide; [|done]. rewrite !fmap_cons. by f_equal.
Qed.

Lemma erase_facts sc refs seen es f0 f :
  facts_after sc refs seen es f0 f -> facts_after sc refs seen (erase <$> es) f0 f.
Proof.
  intros [A1 A2 A3 A4 A5]. split; [done|done|by rewrite erase_markers| |by rewrite erase_documents].
  rewrite A4. destruct seen; [|rewrite erase_after_terminal]; by rewrite erase_carries_data.
Qed.

(** ** A stream body *)

(** The facts about a body whose server-sent events are [es], before they
    are read; [whole] when nothing is left over. *)
Definition framed (body : list ascii) (refs : list ObjectRef) (whole : bool) : exchangeFacts :=
  let f := new_facts (utf8_Valid body) true in
  if whole then f
  else add_parseOutcome (observedFail refs "incomplete_sse_event"
         (Text "blank-line terminated logical event") (Text "trailing partial event"))
         (set_framingComplete false f).

Inductive stream_parsed (sc : Scenario) (refs : list ObjectRef) (body : list ascii)
    (facts : exchangeFacts) : Prop :=
| parsed_empty : body = [] -> facts = set_framingComplete false (new_facts true true) ->
    stream_parsed sc refs body facts
| parsed_broken : ~ within_limits (Z.max (blen body + 1) 1024) body ->
    parseOutcomes facts = [observedFail refs "invalid_sse_framing"
                             (Text "bounded logical SSE events") (Text "invalid framing")] ->
    terminalCount facts = 0 ->
    stream_parsed sc refs body facts
| parsed_events : body <> [] ->
    facts_after sc refs false (reference_events 0 body)
      (framed body refs (bool_decide (reference_tail 0 body = (0, 0)))) facts ->
    stateEvents facts = translate (snProtocol sc) (reference_events 0 body) ->
    stream_parsed sc refs body facts.

Lemma NewSSEAssembler_max n : 0 < n -> maxBufferBytes (NewSSEAssembler n) = n.
Proof. unfold NewSSEAssembler. intros H. case_decide; simpl; lia. Qed.

Lemma Feed_body body : body <> [] -> blen body <= int64_max ->
  match Feed (mkReadChunk 1 0 body) (NewSSEAssembler (Z.max (blen body + 1) 1024)) with
  | (Ok es, a) => erase <$> es = reference_events 0 body ∧
      (BufferedBytes (SSE.Finish a), PendingFieldCount (SSE.Finish a)) = reference_tail 0 body
  | (Err _, _) => ~ within_limits (Z.max (blen body + 1) 1024) body
  end.
Proof.
  intros Hne Hlen. set (max := Z.max (blen body + 1) 1024). set (c := mkReadChunk 1 0 body).
  assert (stream [c] = body) as Hs by apply app_nil_r.
  pose proof (feed_all_new max [c]) as F. rewrite Hs in F. change (stream_start [c]) with 0 in F.
  specialize (F ltac:(done) ltac:(lia)). cbn [feed_all] in F. unfold mbind, gom_bind in F.
  destruct (Feed c (NewSSEAssembler max)) as [[es|e] a]; cbn beta iota delta [mret gom_ret] in F.
  - rewrite app_nil_r in F. by apply fed_reference in F.
  - intros W. apply (proj2 F). rewrite NewSSEAssembler_max by lia. split_and!; [lia|..|done].
    by cbn.
Qed.

Lemma parseStream_ok sc body refs facts :
  blen body <= int64_max -> parseStream sc body refs = Ok facts -> stream_parsed sc refs body facts.
Proof.
  intros Hlen. unfold parseStream. case_decide as Hz.
  { intros [= <-]. apply nil_length_inv in Hz as ->. by apply parsed_empty. }
  assert (body <> []) as Hne by (by intros ->). pose proof (Feed_body body Hne Hlen) as F.
  destruct (Feed _ _) as [[es|e] a]; [|intros [= <-]; by apply parsed_broken].
  destruct F as [Hes Htail]. cbn zeta. rewrite bind_Ok. intros (st & Hst & [= <-]).
  apply read_events_ok in Hst as [Hf Hd]. cbn [ssFacts ssDecoder ssTerminalSeen] in Hf, Hd.
  apply parsed_events; [done|..].
  - rewrite <- Hes. apply erase_facts. unfold framed. rewrite <- Htail.
    destruct Hf as [A1 A2 A3 A4 A5]. case_decide as D.
    + rewrite bool_decide_eq_false_2 by (intros [= ? ?]; tauto). by split.
    + rewrite bool_decide_eq_true_2 by (f_equal; lia). by split.
  - cbn [stateEvents set_stateEvents]. unfold translate. rewrite <- Hes, erase_decode_all.
    assert (content (if decide (BufferedBytes (SSE.Finish a) ≠ 0 ∨ PendingFieldCount (SSE.Finish a) ≠ 0)
       then add_parseOutcome (observedFail refs "incomplete_sse_event"
              (Text "blank-line terminated logical event") (Text "trailing partial event"))
              (set_framingComplete false (new_facts (utf8_Valid body) true))
       else new_facts (utf8_Valid body) true) = no_content) as Hc by by case_decide.
    rewrite Hc in Hd. by rewrite <- Hd.
Qed.

(** ** Verdicts *)

(** The state machine never panics, so neither does the evaluation. *)
Lemma selected_some sc facts refs o1 o2 :
  regular o1 -> regular o2 -> Forall regular (parseOutcomes facts) ->
  exists os, selected_outcomes sc facts refs o1 o2 = Some os ∧ Forall regular os ∧
    o1 ∈ os ∧ o2 ∈ os ∧ checkScenario sc facts refs ∈ os.
Proof.
  intros R1 R2 RP. destruct (stateOutcome_spec facts refs) as (o & Ho & Hr & _).
  pose proof (regular_checkScenario sc facts refs) as RC.
  pose proof (regular_relation facts refs) as RR.
  unfold selected_outcomes. rewrite Ho. cbn zeta.
  repeat case_decide; [..|destruct (snStreaming sc)]; (eexists; split; [reflexivity|]);
    (split_and!; [|set_solver..]); rewrite ?Forall_app, ?Forall_cons, ?Forall_nil; tauto.
Qed.

Lemma parse_regular sc body refs facts :
  (if snStreaming sc then parseStream sc body refs else parseJSONResponse sc body refs) = Ok facts ->
  blen body <= int64_max -> Forall regular (parseOutcomes facts).
Proof.
  intros H Hlen. destruct (snStreaming sc).
  - apply parseStream_ok in H; [|done].
    destruct H as [_ ->|_ -> _|_ [_ _ _ _ ->] _]; [constructor|apply Forall_singleton, regular_fail|].
    apply Forall_app. split.
    + unfold framed. destruct (bool_decide _); [constructor|].
      apply Forall_singleton, regular_fail.
    + apply Forall_fmap, Forall_forall. intros raw _. apply regular_schema.
  - unfold parseJSONResponse in H. pose proof (regular_schema body refs) as R.
    destruct (json_Valid _).
    + apply bind_Ok in H as (item & _ & H). apply bind_Ok in H as (value & _ & [= <-]).
      by apply Forall_singleton.
    + injection H as <-. by apply Forall_singleton.
Qed.

(** On sound evidence the object schema decides between pass and fail. *)
Lemma schema_outcome_pass raw refs :
  sound_refs refs ->
  (outVerdict (schema_outcome raw refs) = VerdictPass <-> exists ms, document raw (JObject ms)) ∧
  decisive (schema_outcome raw refs).
Proof.
  intros Hs. unfold decisive, schema_outcome. set (input := mkInput raw refs true None).
  assert (judgeable input objectSchema) as J by by split_and!.
  assert (forall v, conforms objectSchema v <-> exists ms, v = JObject ms) as C.
  { intros v. split.
    - inversion 1 as [s ms| s xs Ht|s v' Hv Hx Ht]; subst; [by exists ms|set_solver|].
      destruct v; [naive_solver|naive_solver|set_solver..].
    - intros [ms ->]. apply conforms_object; [set_solver|set_solver|done|done]. }
  destruct (EvaluateSchema_judged input objectSchema J) as [[(H1 & _ & v & H3 & H4)|(H1 & _ & H3)] _];
    rewrite H1; (split; [|done]).
  - apply C in H4 as [ms ->]. split; [by exists ms|done].
  - split; [done|]. intros [ms Hd]. destruct H3. exists (JObject ms). split; [done|]. apply C. by exists ms.
Qed.

Lemma selected_terminal sc facts refs o1 o2 o :
  asCheck (snAssertion sc) = CheckTerminalEvent -> stateOutcome facts refs = Returns o ->
  selected_outcomes sc facts refs o1 o2 =
    Some ([o1; o2] ++ parseOutcomes facts ++ [checkTerminalEvent facts refs; o]).
Proof.
  intros Hc Ho. assert (checkScenario sc facts refs = checkTerminalEvent facts refs) as E
    by (unfold checkScenario; by rewrite Hc).
  unfold selected_outcomes. by rewrite E, Hc, Ho.
Qed.

(** What a stream must be to pass the terminal-event check. *)
Definition ends_properly (sc : Scenario) (status : Z) (headers : Header) (body : list ascii) : Prop :=
  let es := reference_events 0 body in
  status = snExpectedStatus sc ∧
  ParseMediaType (header_Get headers "Content-Type") = Ok "text/event-stream" ∧
  reference_tail 0 body = (0, 0) ∧ length (markers (snProtocol sc) es) = 1%nat ∧
  Forall (fun raw => exists ms, document raw (JObject ms)) (stream_documents es) ∧
  accepted (translate (snProtocol sc) es) ∧ terminated (translate (snProtocol sc) es).

Lemma checkContentType_pass streaming headers refs :
  outVerdict (checkContentType streaming headers refs) = VerdictPass <->
  ParseMediaType (header_Get headers "Content-Type") =
    Ok (if streaming then "text/event-stream" else "application/json").
Proof.
  unfold checkContentType. destruct (ParseMediaType _) as [t|e]; [|by split].
  case_decide as D; simpl.
  - split; [done|]. by intros [= ->].
  - split; [|done]. intros _. by rewrite D.
Qed.

Lemma checkTerminalEvent_pass facts refs :
  outVerdict (checkTerminalEvent facts refs) = VerdictPass <->
  terminalCount facts = 1 ∧ framingComplete facts = true.
Proof.
  unfold checkTerminalEvent. case_decide as D; simpl.
  - split; [done|]. intros [? H]. rewrite H in D. by destruct D.
  - split; [|done]. intros _. split; [lia|]. by destruct (framingComplete facts); [|tauto].
Qed.

(** The parse and the check together: a readable stream passes both exactly
    when it is whole, has one terminal marker and only JSON objects. *)
Lemma parsed_stream_passes sc refs body facts :
  sound_refs refs -> stream_parsed sc refs body facts ->
  (Forall (fun o => outVerdict o = VerdictPass) (parseOutcomes facts) ∧
   outVerdict (checkTerminalEvent facts refs) = VerdictPass ->
   reference_tail 0 body = (0, 0) ∧
   length (markers (snProtocol sc) (reference_events 0 body)) = 1%nat ∧
   Forall (fun raw => exists ms, document raw (JObject ms)) (stream_documents (reference_events 0 body)) ∧
   stateEvents facts = translate (snProtocol sc) (reference_events 0 body)) ∧
  (within_limits (Z.max (blen body + 1) 1024) body -> reference_tail 0 body = (0, 0) ->
   length (markers (snProtocol sc) (reference_events 0 body)) = 1%nat ->
   Forall (fun raw => exists ms, document raw (JObject ms)) (stream_documents (reference_events 0 body)) ->
   Forall (fun o => outVerdict o = VerdictPass) (parseOutcomes facts) ∧
   outVerdict (checkTerminalEvent facts refs) = VerdictPass ∧
   stateEvents facts = translate (snProtocol sc) (reference_events 0 body)).
Proof.
  intros Hs [-> ->|Hw Hp Hc|Hne [F1 F2 F3 F4 F5] Hev].
  - split; [by intros [_ ?]|]. by intros _ _ H _.
  - split; [|done]. rewrite Hp. intros [[? _]%Forall_cons _]. done.
  - rewrite F5, Forall_app, Forall_fmap, checkTerminalEvent_pass, F3, F1.
    assert (forall l, Forall ((fun o => outVerdict o = VerdictPass) ∘ (fun raw => schema_outcome raw refs)) l <->
                 Forall (fun raw => exists ms, document raw (JObject ms)) l) as E.
    { intros l. apply Forall_iff. intros raw. apply (schema_outcome_pass raw refs Hs). }
    rewrite E. unfold framed. destruct (bool_decide_reflect (reference_tail 0 body = (0, 0))) as [T|T]; simpl.
    + split; [|intros _ _ Hm Hd; split_and!; try done; lia]. intros [[_ Hd] [Hm _]]. split_and!; [done|lia|done|done].
    + split; [|done]. by intros [_ [_ ?]].
Qed.

Lemma combine_decisive refs os :
  Forall regular os -> Forall decisive os -> decisive (combineOutcomes refs os).
Proof.
  intros HR HD. destruct (combine_spec refs os HR) as ([R _] & T & P). intros H. apply R, T.
  rewrite P in H. apply not_Forall_Exists in H; [|intros o; apply _].
  rewrite Exists_exists in H |- *. destruct H as (o & Ho & Hv). exists o. split; [done|].
  rewrite Forall_forall in HR, HD. apply (HR o Ho). by apply (HD o Ho).
Qed.

Lemma parsed_decisive sc refs body facts :
  sound_refs refs -> stream_parsed sc refs body facts -> Forall decisive (parseOutcomes facts).
Proof.
  intros Hs [-> ->|_ -> _|_ [_ _ _ _ ->] _]; [constructor|by apply Forall_singleton|].
  apply Forall_app. split.
  - unfold framed. destruct (bool_decide _); [constructor|]. by apply Forall_singleton.
  - apply Forall_fmap, Forall_forall. intros raw _. apply (schema_outcome_pass raw refs Hs).
Qed.

Lemma combine_terminal refs o1 o2 o3 so ps :
  Forall (fun o => regular o ∧ decisive o) (o1 :: o2 :: o3 :: so :: ps) ->
  let o := combineOutcomes refs ([o1; o2] ++ ps ++ [o3; so]) in
  (outVerdict o = VerdictPass <->
     outVerdict o1 = VerdictPass ∧ outVerdict o2 = VerdictPass ∧
     (Forall (fun o => outVerdict o = VerdictPass) ps ∧ outVerdict o3 = VerdictPass) ∧
     outVerdict so = VerdictPass) ∧
  (outVerdict o <> VerdictPass -> outVerdict o = VerdictFail ∧ TargetFailure o = true).
Proof.
  rewrite !Forall_cons, Forall_and. intros (H1 & H2 & H3 & H4 & HR & HD).
  set (os := [o1; o2] ++ ps ++ [o3; so]).
  assert (Forall regular os) as R
    by (unfold os; rewrite !Forall_app, !Forall_cons, Forall_nil; naive_solver).
  assert (Forall decisive os) as D
    by (unfold os; rewrite !Forall_app, !Forall_cons, Forall_nil; naive_solver).
  destruct (combine_spec refs os R) as ([R' _] & _ & P). split.
  - rewrite P. unfold os. rewrite !Forall_app, !Forall_cons, Forall_nil. tauto.
  - intros H. apply (combine_decisive refs os R D) in H. split; [done|]. by apply R'.
Qed.

(** The status outcome of [evaluate]. *)
Definition status_outcome (sc : Scenario) (status : Z) (refs : list ObjectRef) : Outcome :=
  if decide (status ≠ snExpectedStatus sc)
  then observedFail refs "unexpected_http_status" (any_int (snExpectedStatus sc)) (any_int status)
  else observedPass refs.

Lemma status_outcome_spec sc status refs :
  regular (status_outcome sc status refs) ∧ decisive (status_outcome sc status refs) ∧
  (outVerdict (status_outcome sc status refs) = VerdictPass <-> status = snExpectedStatus sc).
Proof. unfold status_outcome, decisive. case_decide; split_and!; auto with raw; done. Qed.

Lemma checks_decisive headers refs facts :
  (forall streaming, decisive (checkContentType streaming headers refs)) ∧ decisive (checkTerminalEvent facts refs).
Proof.
  unfold decisive, checkContentType, checkTerminalEvent.
  split; [intros streaming; destruct (ParseMediaType _)|]; by repeat case_decide.
Qed.

(** The terminal-event check judges the stream: when [evaluate] answers
    for a streaming scenario with this check, on sound evidence and unless
    the provider refused the output limit, the target passes only if the
    status and the media type are right, the reference parse of the body
    leaves no partial event, every event but the sentinel is one strict JSON
    object, exactly one event is a terminal marker, and the lifecycle events
    the stream stands for form an accepted history that reached its end; a
    body within the assembler's limits that is so passes; and everything else
    is a failure of the target, never an abstention. *)
Theorem terminal_check_judges_the_stream sc status headers body refs ev
    (Hlen : blen body <= int64_max) (Hstreaming : snStreaming sc = true)
    (Hcheck : asCheck (snAssertion sc) = CheckTerminalEvent) (Hsound : sound_refs refs)
    (Hlimit : unsupportedOutputLimitField sc status body = None)
    (Heval : evaluate sc status headers body refs = Some (Ok ev)) :
  let o := evOutcome ev in
  (outVerdict o = VerdictPass -> ends_properly sc status headers body) ∧
  (within_limits (Z.max (blen body + 1) 1024) body -> ends_properly sc status headers body ->
     outVerdict o = VerdictPass) ∧
  (outVerdict o <> VerdictPass -> outVerdict o = VerdictFail ∧ TargetFailure o = true).
Proof.
  unfold evaluate in Heval. rewrite Hlimit, Hstreaming in Heval. cbn zeta in Heval.
  fold (status_outcome sc status refs) in Heval.
  destruct (status_outcome_spec sc status refs) as (R1 & D1 & V1).
  destruct (parseStream sc body refs) as [facts|e] eqn:E; [|done].
  assert (Forall regular (parseOutcomes facts)) as RP
    by (apply (parse_regular sc body refs); [by rewrite Hstreaming|done]).
  apply parseStream_ok in E; [|done]. pose proof (parsed_decisive _ _ _ _ Hsound E) as DP.
  destruct (stateOutcome_spec facts refs) as (so & Hso & Rso & _ & Vso). destruct (Vso Hsound) as [Vs Ds].
  rewrite (selected_terminal _ _ _ _ _ _ Hcheck Hso) in Heval. injection Heval as <-. cbn [evOutcome].
  destruct (checks_decisive headers refs facts) as [D2 D3].
  assert (regular (checkTerminalEvent facts refs)) as R3 by (unfold checkTerminalEvent; auto with raw).
  destruct (combine_terminal refs (status_outcome sc status refs) (checkContentType true headers refs)
              (checkTerminalEvent facts refs) so (parseOutcomes facts)) as [P F].
  { rewrite !Forall_cons, Forall_and. split_and!; [exact R1|exact D1|apply (regular_contentType true headers)|
      exact (D2 true)|exact R3|exact D3|exact Rso|exact Ds|exact RP|exact DP]. }
  rewrite V1, checkContentType_pass, Vs in P.
  destruct (parsed_stream_passes sc refs body facts Hsound E) as [Q1 Q2].
  unfold ends_properly. split_and!; [| |exact F].
  - intros (H1 & H2 & H3 & H4)%P. destruct (Q1 H3) as (A1 & A2 & A3 & A4). rewrite A4 in H4.
    split_and!; tauto.
  - intros Hw (H1 & H2 & H3 & H4 & H5 & H6). apply P. destruct (Q2 Hw H3 H4 H5) as (A1 & A2 & ->). tauto.
Qed.


(** *** What a check looks at *)
Definition check_of (sc : Scenario) : CheckKind := asCheck (snAssertion sc).
Definition catalogued : list CheckKind :=
  [CheckStreamMediaType; CheckRequiredEnvelope; CheckTerminalEvent; CheckNoPostTerminal].
Definition judges_documents (sc : Scenario) : Prop := check_of sc ∉ [CheckStreamMediaType; CheckNoPostTerminal].
Definition judges_lifecycle (sc : Scenario) : Prop :=
  check_of sc = CheckTerminalEvent ∨ check_of sc ∉ catalogued ∧ snStreaming sc = true.
Definition judges_items (sc : Scenario) : Prop := check_of sc ∉ catalogued.

Lemma selected_elem sc facts refs o1 o2 os so o :
  stateOutcome facts refs = Returns so -> selected_outcomes sc facts refs o1 o2 = Some os ->
  o ∈ os <->
  o = o1 ∨ o = o2 ∨ o = checkScenario sc facts refs ∨ (judges_documents sc ∧ o ∈ parseOutcomes facts) ∨
  (judges_lifecycle sc ∧ o = so) ∨ (judges_items sc ∧ o = relationOutcome facts refs).
Proof.
  intros Hso. unfold selected_outcomes, judges_documents, judges_lifecycle, judges_items, catalogued, check_of.
  rewrite Hso. generalize (asCheck (snAssertion sc)) as check. intros check.
  assert (NoDup [CheckStreamMediaType; CheckRequiredEnvelope; CheckTerminalEvent; CheckNoPostTerminal]) as N
    by (apply (bool_decide_unpack _); vm_compute; exact I).
  rewrite !NoDup_cons, !not_elem_of_cons in N. destruct N as ((N1 & N2 & N3 & _) & (N4 & N5 & _) & (N6 & _) & _).
  cbn zeta. repeat case_decide; try subst check; try destruct (snStreaming sc); cbn -[elem_of]; intros [= <-];
    repeat rewrite ?elem_of_app, ?elem_of_cons, ?elem_of_nil; intuition congruence.
Qed.
Lemma selected_Forall (P : Outcome -> Prop) sc facts refs o1 o2 os so :
  stateOutcome facts refs = Returns so -> selected_outcomes sc facts refs o1 o2 = Some os ->
  Forall P os <->
  P o1 ∧ P o2 ∧ P (checkScenario sc facts refs) ∧ (judges_documents sc -> Forall P (parseOutcomes facts)) ∧
  (judges_lifecycle sc -> P so) ∧ (judges_items sc -> P (relationOutcome facts refs)).
Proof.
  intros Hso Hos. rewrite !Forall_forall. setoid_rewrite (fun o => selected_elem _ _ _ _ _ _ _ o Hso Hos). naive_solver.
Qed.
Lemma selected_Exists (P : Outcome -> Prop) sc facts refs o1 o2 os so :
  stateOutcome facts refs = Returns so -> selected_outcomes sc facts refs o1 o2 = Some os ->
  Exists P os <->
  P o1 ∨ P o2 ∨ P (checkScenario sc facts refs) ∨ (judges_documents sc ∧ Exists P (parseOutcomes facts)) ∨
  (judges_lifecycle sc ∧ P so) ∨ (judges_items sc ∧ P (relationOutcome facts refs)).
Proof.
  intros Hso Hos. rewrite !Exists_exists. setoid_rewrite (fun o => selected_elem _ _ _ _ _ _ _ o Hso Hos). split.
  - intros (o & H & HP). destruct H as [->|[->|[->|[[J H]|[[J ->]|[J ->]]]]]]; [tauto..| |tauto|tauto].
    do 3 right. left. split; [done|]. by exists o.
  - intros [H|[H|[H|[[J (o & Ho & H)]|[[J H]|[J H]]]]]]; eexists; (split; [|exact H]); tauto.
Qed.

(** What a pass stands for. *)
Record satisfied (sc : Scenario) (status : Z) (headers : Header) (refs : list ObjectRef) (facts : exchangeFacts) : Prop := {
  sf_status : status = snExpectedStatus sc;
  sf_media : ParseMediaType (header_Get headers "Content-Type") =
    Ok (if snStreaming sc then "text/event-stream" else "application/json");
  sf_check : outVerdict (checkScenario sc facts refs) = VerdictPass;
  sf_documents : judges_documents sc -> Forall (fun o => outVerdict o = VerdictPass) (parseOutcomes facts);
  sf_lifecycle : judges_lifecycle sc -> accepted (stateEvents facts) ∧ terminated (stateEvents facts);
  sf_items : judges_items sc -> outVerdict (relationOutcome facts refs) = VerdictPass
}.
(** What a target is blamed for. *)
Definition blamed (o : Outcome) : Prop := TargetFailure o = true.
Definition violated (sc : Scenario) (status : Z) (headers : Header) (refs : list ObjectRef) (facts : exchangeFacts) : Prop :=
  status ≠ snExpectedStatus sc ∨
  ParseMediaType (header_Get headers "Content-Type") ≠ Ok (if snStreaming sc then "text/event-stream" else "application/json") ∨
  blamed (checkScenario sc facts refs) ∨
  (judges_documents sc ∧ Exists blamed (parseOutcomes facts)) ∨
  (judges_lifecycle sc ∧ exists o, stateOutcome facts refs = Returns o ∧ blamed o) ∨
  (judges_items sc ∧ blamed (relationOutcome facts refs)).

Lemma blamed_decisive o : regular o -> decisive o -> (blamed o <-> outVerdict o ≠ VerdictPass).
Proof.
  intros [H _] D. unfold blamed. rewrite <- H. split; [intros ->; done|apply D].
Qed.

Lemma judged_exchange sc status headers refs facts os :
  Forall regular (parseOutcomes facts) ->
  selected_outcomes sc facts refs (status_outcome sc status refs) (checkContentType (snStreaming sc) headers refs) = Some os ->
  let o := combineOutcomes refs os in
  regular o ∧ (outVerdict o = VerdictPass -> satisfied sc status headers refs facts) ∧
  (sound_refs refs -> satisfied sc status headers refs facts -> outVerdict o = VerdictPass) ∧
  (blamed o <-> violated sc status headers refs facts).
Proof.
  intros RP Hos. destruct (status_outcome_spec sc status refs) as (R1 & D1 & V1).
  pose proof (regular_contentType (snStreaming sc) headers refs) as R2.
  pose proof (checkContentType_pass (snStreaming sc) headers refs) as V2. destruct (checks_decisive headers refs facts) as [D2 _].
  destruct (selected_some sc facts refs _ _ R1 R2 RP) as (os' & E & R & _). assert (os' = os) as -> by congruence.
  destruct (stateOutcome_spec facts refs) as (so & Hso & Rso & Pso & Sso).
  destruct (combine_spec refs os R) as (Ro & B & P). pose proof (fun Q => selected_Forall Q _ _ _ _ _ _ _ Hso Hos) as F.
  cbv zeta. split_and!; [done| | |].
  - intros (H1 & H2 & H3 & H4 & H5 & H6)%P%F. split; try done; [by apply V1|by apply V2|]. intros J. by apply Pso, H5.
  - intros Hs [S1 S2 S3 S4 S5 S6]. apply P, F. split_and!; try done; [by apply V1|by apply V2|]. intros J. by apply Sso, S5.
  - unfold blamed at 1. rewrite B. fold blamed. rewrite (selected_Exists blamed _ _ _ _ _ _ _ Hso Hos).
    rewrite (blamed_decisive _ R1 D1), (blamed_decisive _ R2 (D2 _)), V1, V2. unfold violated.
    assert ((exists o, stateOutcome facts refs = Returns o ∧ blamed o) <-> blamed so) as ->; [|done].
    rewrite Hso. split; [by intros (o & [= <-] & ?)|by exists so].
Qed.

(** The exchange as it is parsed. *)
Definition parsed (sc : Scenario) (body : list ascii) (refs : list ObjectRef) : result error exchangeFacts :=
  if snStreaming sc then parseStream sc body refs else parseJSONResponse sc body refs.

(** [evaluate] on every branch. *)
Lemma evaluate_cases sc status headers body refs : blen body <= int64_max ->
  (is_Some (unsupportedOutputLimitField sc status body) ∧ exists ev, evaluate sc status headers body refs = Some (Ok ev) ∧
     outVerdict (evOutcome ev) = VerdictInconclusive ∧ TargetFailure (evOutcome ev) = false) ∨
  (unsupportedOutputLimitField sc status body = None ∧ exists e, parsed sc body refs = Err e ∧
     evaluate sc status headers body refs = Some (Err e)) ∨
  (unsupportedOutputLimitField sc status body = None ∧ exists facts os, parsed sc body refs = Ok facts ∧
     Forall regular (parseOutcomes facts) ∧
     selected_outcomes sc facts refs (status_outcome sc status refs) (checkContentType (snStreaming sc) headers refs) = Some os ∧
     evaluate sc status headers body refs = Some (Ok (mkEvaluation (combineOutcomes refs os) (usage (content facts))))).
Proof.
  intros Hlen. unfold evaluate. destruct (unsupportedOutputLimitField sc status body) as [name|].
  { left. split; [by eexists|]. eexists. split; [reflexivity|]. done. }
  right. cbn zeta. fold (status_outcome sc status refs). fold (parsed sc body refs).
  destruct (parsed sc body refs) as [facts|e] eqn:E; [right|left; split; [done|by exists e]].
  assert (Forall regular (parseOutcomes facts)) as RP by by eapply parse_regular.
  destruct (status_outcome_spec sc status refs) as (R1 & _ & _).
  destruct (selected_some sc facts refs _ _ R1 (regular_contentType (snStreaming sc) headers refs) RP) as (os & Hos & _).
  split; [done|]. exists facts, os. by rewrite Hos.
Qed.

Lemma evaluate_regular sc status headers body refs : blen body <= int64_max ->
  exists r, evaluate sc status headers body refs = Some r ∧ forall ev, r = Ok ev -> regular (evOutcome ev).
Proof.
  intros Hlen. destruct (evaluate_cases sc status headers body refs Hlen)
    as [(_ & ev & -> & V & T)|[(_ & e & _ & ->)|(_ & facts & os & _ & RP & Hos & ->)]]; (eexists; split; [done|]); intros ? [= <-].
  - split; rewrite V, ?T; [done|by right; right].
  - by apply (judged_exchange sc status headers refs facts os RP).
Qed.


End Spec.

(** ** A concrete exchange *)
#[local] Instance sample_json : JSONLibrary := {
  NewDecoder raw := mkDecoder [Delim "{"; Delim "}"] io_EOF false;
  jcs_Transform raw := Ok raw;
  Sum256 data := resize 32 "0"%char data;
  Sum256_length data := length_resize data 32 "0"%char
}.
#[local] Instance sample_documents : DocumentLibrary := {
  document_json := sample_json;
  json_Valid _ := true;
  url_Parse _ := Err (ErrorNew (Text "no URL"))
}.
#[local] Instance sample_native : NativeLibrary := {
  native_documents := sample_documents;
  unmarshal_string s := Ok s;
  decode_number _ := Ok tt
}.
#[local] Instance sample_exchange : ExchangeLibrary := {
  exchange_native := sample_native;
  exchange_any _ := Ok (JObject []);
  exchange_object _ := Ok (Some []);
  ToLower s := s;
  EqualFold s t := bool_decide (s = t);
  ParseMediaType s := Ok s
}.

Definition sample_digest : Digest :=
  "sha256:0123456789abcdef0123456789abcdef0123456789abcdef0123456789abcdef".
Definition sample_refs : list ObjectRef := [mkObjectRef "Response" "" sample_digest].
Definition sample_scenario : Scenario :=
  mkScenario sample_digest "chat-terminal" (mkArtifactPin "Driver" "raw" "1" sample_digest)
    ProtocolOpenAIChat "POST" "/v1/chat/completions" ∅ (list_ascii_of_string "{}") true 200
    (mkBodyBudget 1024 4096)
    (mkAssertionSpec "a" "r" AssertionNormative (mkArtifactPin "Oracle" "o" "1" sample_digest)
       sample_digest CheckTerminalEvent [] None).
Definition sample_headers : Header := {["Content-Type" := ["text/event-stream"]]}.
Definition sample_body : list ascii :=
  text ("data: {}" +:+ nl +:+ nl +:+ "data: [DONE]" +:+ nl +:+ nl).
Definition sample_evaluation : evaluation :=
  mkEvaluation (observedPass sample_refs) (mkObservedUsage None None None None).

Example sample_evaluated :
  evaluate sample_scenario 200 sample_headers sample_body sample_refs = Some (Ok sample_evaluation).
Proof. vm_compute. reflexivity. Qed.

Lemma terminal_check_judges_the_stream_witness :
  ends_properly sample_scenario 200 sample_headers sample_body ∧
  outVerdict (evOutcome sample_evaluation) = VerdictPass.
Proof.
  split; [|reflexivity].
  refine (proj1 (terminal_check_judges_the_stream sample_scenario 200 sample_headers sample_body
    sample_refs sample_evaluation _ eq_refl eq_refl _ _ sample_evaluated) eq_refl).
  - vm_compute. discriminate.
  - split; [discriminate|]. apply Forall_singleton. vm_compute. reflexivity.
  - vm_compute. reflexivity.
Defined.

