(* ===== verification/Transport.v ===== *)
(** * internal/transport/client.go: the origin-bound HTTP client

    The network policy for addresses, the dialer that resolves a host and
    checks every answer before it dials, the redirect policy and [Do].  Name
    resolution, dialing and single HTTP exchanges are [Network]; parsing of
    URLs and host names is [AddressLibrary].  [http.Client.Do] is the loop
    that net/http documents: it follows redirects as long as
    [CheckRedirect] allows it.  Certificates (tls.go) are not modelled. *)
From Stdlib Require Import ZArith Ascii String Lia.
From stdpp Require Import base gmap sets list strings.
From S2P Require Import Prelude Documents RawJSON CAS.

(** ** Addresses of net/netip

    The address and prefix type of the Go standard library, as far as
    internal/transport uses it: an IPv4 address is a 32-bit number, an IPv6
    address a 128-bit number with a zone. *)
Local Open Scope Z_scope.
Local Open Scope string_scope.
Local Open Scope list_scope.

Inductive Addr :=
| Invalid
| V4 (bits : Z)
| V6 (bits : Z) (zone : string).

#[export] Instance Addr_eq_dec : EqDecision Addr.
Proof. solve_decision. Defined.

(** The n-th byte of an IPv4 address and the n-th 16-bit group of an IPv6
    address. *)
Definition v4 (bits n : Z) : Z := Z.land (Z.shiftr bits (8 * (3 - n))) 255.
Definition v6u16 (bits n : Z) : Z := Z.land (Z.shiftr bits (16 * (7 - n))) 65535.

Definition Is6 (ip : Addr) : bool := match ip with V6 _ _ => true | _ => false end.
Definition IsValid (ip : Addr) : bool := match ip with Invalid => false | _ => true end.
Definition WithZone (ip : Addr) (zone : string) : Addr := match ip with V6 bits _ => V6 bits zone | _ => ip end.
Definition hasZone (ip : Addr) : bool := match ip with V6 _ zone => bool_decide (zone ≠ "") | _ => false end.

(** An IPv4 address in [::ffff:0:0/96] becomes an IPv4 address. *)
Definition Unmap (ip : Addr) : Addr :=
  match ip with
  | V6 bits _ => if decide (Z.shiftr bits 32 = 65535) then V4 (Z.land bits (Z.ones 32)) else ip
  | _ => ip
  end.

Definition IsUnspecified (ip : Addr) : bool := bool_decide (ip = V4 0 ∨ ip = V6 0 "").
Definition IsLoopback (ip : Addr) : bool :=
  match ip with
  | V4 bits => bool_decide (v4 bits 0 = 127)
  | V6 bits _ => bool_decide (bits = 1)
  | Invalid => false
  end.
Definition IsMulticast (ip : Addr) : bool :=
  match ip with
  | V4 bits => bool_decide (Z.land (v4 bits 0) 240 = 224)
  | V6 bits _ => bool_decide (Z.shiftr (v6u16 bits 0) 8 = 255)
  | Invalid => false
  end.
Definition IsLinkLocalUnicast (ip : Addr) : bool :=
  match ip with
  | V4 bits => bool_decide (v4 bits 0 = 169 ∧ v4 bits 1 = 254)
  | V6 bits _ => bool_decide (Z.land (v6u16 bits 0) 65472 = 65152)
  | Invalid => false
  end.
Definition IsLinkLocalMulticast (ip : Addr) : bool :=
  match ip with
  | V4 bits => bool_decide (v4 bits 0 = 224 ∧ v4 bits 1 = 0 ∧ v4 bits 2 = 0)
  | V6 bits _ => bool_decide (Z.land (v6u16 bits 0) 65295 = 65282)
  | Invalid => false
  end.
Definition IsPrivate (ip : Addr) : bool :=
  match ip with
  | V4 bits => bool_decide (v4 bits 0 = 10 ∨ v4 bits 0 = 172 ∧ Z.land (v4 bits 1) 240 = 16 ∨
                            v4 bits 0 = 192 ∧ v4 bits 1 = 168)
  | V6 bits _ => bool_decide (Z.land (Z.shiftr (v6u16 bits 0) 8) 254 = 252)
  | Invalid => false
  end.
Definition IsGlobalUnicast (ip : Addr) : bool :=
  match ip with
  | Invalid => false
  | _ => negb (bool_decide (ip = V4 0 ∨ ip = V4 (Z.ones 32))) && negb (bool_decide (ip = V6 0 "")) &&
         negb (IsLoopback ip) && negb (IsMulticast ip) && negb (IsLinkLocalUnicast ip)
  end.

(** ** Prefixes *)
Record Prefix := mkPrefix { pxIP : Addr; pxBits : Z }.

Definition Prefix_Contains (p : Prefix) (ip : Addr) : bool :=
  negb (hasZone ip) &&
  match pxIP p, ip with
  | V4 net, V4 bits => bool_decide (Z.shiftr (Z.lxor bits net) (32 - pxBits p) = 0)
  | V6 net _, V6 bits _ => bool_decide (Z.shiftr (Z.lxor bits net) (128 - pxBits p) = 0)
  | _, _ => false
  end.

(** Addresses from their groups, the missing ones zero. *)
Definition from_groups (width count : Z) (groups : list Z) : Z :=
  foldr (fun '(i, g) acc => Z.lor (Z.shiftl g (width * (count - 1 - Z.of_nat i))) acc) 0
    (zip (seq 0 (length groups)) groups).
Definition ip4 (groups : list Z) : Addr := V4 (from_groups 8 4 groups).
Definition ip6 (groups : list Z) : Addr := V6 (from_groups 16 8 groups) "".

(** ** Blocks of addresses *)

(** [x] starts with the first [n] of the [w] bits of [net]. *)
Definition in_block (w net n x : Z) : Prop := net <= x < net + 2 ^ (w - n).
#[export] Instance in_block_dec w net n x : Decision (in_block w net n x).
Proof. unfold in_block. apply _. Defined.

Lemma shiftr_block w net n x : 0 <= n <= w -> net mod 2 ^ (w - n) = 0 ->
  Z.shiftr (Z.lxor x net) (w - n) = 0 <-> in_block w net n x.
Proof.
  intros Hn Hnet. rewrite Z.shiftr_lxor, Z.lxor_eq_0_iff, !Z.shiftr_div_pow2 by lia. unfold in_block.
  assert (0 < 2 ^ (w - n)) as Hpos by (apply Z.pow_pos_nonneg; lia).
  rewrite (Z.div_mod x (2 ^ (w - n))) at 2 3 by lia. rewrite (Z.div_mod net (2 ^ (w - n))) at 2 3 by lia. rewrite Hnet.
  pose proof (Z.mod_pos_bound x (2 ^ (w - n)) Hpos). nia.
Qed.

(** The leading bits as a number. *)
Lemma leading_block w net n x : 0 <= n <= w -> Z.shiftr x (w - n) = net <-> in_block w (net * 2 ^ (w - n)) n x.
Proof.
  intros Hn. assert (0 < 2 ^ (w - n)) as Hpos by (apply Z.pow_pos_nonneg; lia).
  rewrite Z.shiftr_div_pow2 by lia. unfold in_block. pose proof (Z.div_mod x (2 ^ (w - n))).
  pose proof (Z.mod_pos_bound x (2 ^ (w - n)) Hpos). nia.
Qed.


Definition DefaultMaxRequestBytes : Z := Z.shiftl 16 20.
Definition DefaultMaxResponseBytes : Z := Z.shiftl 64 20.

Definition NetworkMode := string.
Definition NetworkLocalTarget : NetworkMode := "local_target".
Definition NetworkPublicRunner : NetworkMode := "public_runner".

Definition RedirectPolicy := string.
Definition RedirectNone : RedirectPolicy := "none".
Definition RedirectSameOrigin : RedirectPolicy := "same_origin".

(** The fields of [Policy] without the resolver, dialer and TLS files. *)
Record Policy := mkPolicy {
  AllowedOrigin : string;
  Mode : NetworkMode;
  Redirects : RedirectPolicy;
  MaxRedirects : Z;
  AllowPlainHTTP : bool;
  MaxRequestBytes : Z;
  MaxResponseBytes : Z;
  (** nanoseconds *)
  Timeout : Z;
  (** [policy.TLSConfig.ServerName], if there is a TLS configuration *)
  ServerName : option string
}.

(** [transport.Response]. *)
Record Response := mkResponse {
  rsStatusCode : Z;
  rsHeader : Header;
  rsBody : list ascii;
  rsProtocol : string;
  rsDuration : Z
}.

Definition ErrOriginViolation : string := "request escaped the authorized origin".
Definition ErrBlockedAddress : string := "destination address is forbidden by runner network policy".
Definition ErrBodyLimit : string := "HTTP body exceeded the configured hard limit".

(** ** Addresses *)
Definition publicRunnerSpecialUsePrefixes : list Prefix :=
  [mkPrefix (ip4 [0; 0; 0; 0]) 8; mkPrefix (ip4 [100; 64; 0; 0]) 10; mkPrefix (ip4 [192; 0; 0; 0]) 24;
   mkPrefix (ip4 [192; 0; 2; 0]) 24; mkPrefix (ip4 [192; 31; 196; 0]) 24; mkPrefix (ip4 [192; 52; 193; 0]) 24;
   mkPrefix (ip4 [192; 88; 99; 0]) 24; mkPrefix (ip4 [192; 175; 48; 0]) 24; mkPrefix (ip4 [198; 18; 0; 0]) 15;
   mkPrefix (ip4 [198; 51; 100; 0]) 24; mkPrefix (ip4 [203; 0; 113; 0]) 24; mkPrefix (ip4 [240; 0; 0; 0]) 4;
   mkPrefix (ip6 [0x64; 0xff9b]) 96; mkPrefix (ip6 [0x64; 0xff9b; 1]) 48; mkPrefix (ip6 [0x100]) 64;
   mkPrefix (ip6 [0x100; 0; 0; 1]) 64; mkPrefix (ip6 [0x2001]) 23; mkPrefix (ip6 [0x2001; 0xdb8]) 32;
   mkPrefix (ip6 [0x2002]) 16; mkPrefix (ip6 [0x2620; 0x4f; 0x8000]) 48; mkPrefix (ip6 [0x3fff]) 20;
   mkPrefix (ip6 [0x5f00]) 16].

Definition alwaysBlockedDestinations : list Addr :=
  [ip4 [169; 254; 169; 254]; ip4 [100; 100; 100; 200]; ip6 [0xfd00; 0xec2; 0; 0; 0; 0; 0; 0x254]].

Definition isAlwaysBlocked (address : Addr) : bool :=
  let address := Unmap address in
  negb (IsValid address) ||
  (let address := if Is6 address then WithZone address "" else address in
   IsUnspecified address || IsMulticast address || IsLinkLocalUnicast address || IsLinkLocalMulticast address ||
   bool_decide (address ∈ alwaysBlockedDestinations)).

Definition isPublic (address : Addr) : bool :=
  let address := Unmap address in
  negb (isAlwaysBlocked address || negb (IsGlobalUnicast address) || IsPrivate address || IsLoopback address) &&
  negb (existsb (fun prefix => Prefix_Contains prefix address) publicRunnerSpecialUsePrefixes).

(** ** URLs and hosts *)
Class AddressLibrary := {
  parse_url : string -> result error URL;
  (** the methods of [url.URL] *)
  url_Hostname : URL -> string;
  url_Port : URL -> string;
  (** the path that [ResolveReference] merges *)
  resolve_path : URL -> URL -> string;
  (** [http.NewRequest] parses the printed URL again *)
  NewRequest : string -> URL -> result error URL;
  SplitHostPort : string -> result error (string * string);
  ParseAddr : string -> result error Addr;
  Addr_String : Addr -> string;
  (** the headers of a redirected request, of its URL and the one before *)
  redirect_headers : Header -> URL -> URL -> Header;
  host_lower : string -> string;
  fold_equal : string -> string -> bool
}.

Record Client := mkClient {
  clOrigin : URL;
  clMode : NetworkMode;
  clRedirects : RedirectPolicy;
  clMaxRedirects : Z;
  clTimeout : Z;
  maxRequestBytes : Z;
  maxResponseBytes : Z
}.

(** An answer of the round tripper: its [Location] header, parsed relative to
    the request, if it has one, and its body, which is read to a limit. *)
Record Answer (Body : Type) := mkAnswer {
  anStatus : Z;
  anHeader : Header;
  anProto : string;
  anLocation : option (result error URL);
  anBody : Body
}.
Arguments mkAnswer {Body}.
Arguments anStatus {Body}.
Arguments anHeader {Body}.
Arguments anProto {Body}.
Arguments anLocation {Body}.
Arguments anBody {Body}.

Class Network (W Conn Body : Type) := {
  net_ctxErr : GoM W error unit;
  LookupNetIP : string -> GoM W error (list Addr);
  DialContext : string -> string -> GoM W error Conn;
  RoundTrip : string -> URL -> Header -> list ascii -> GoM W error (Answer Body);
  (** [io.ReadAll(io.LimitReader(body, n))] *)
  ReadLimited : Body -> Z -> GoM W error (list ascii);
  net_elapsed : W -> Z * W
}.

(** [net.JoinHostPort]. *)
Definition JoinHostPort (host port : string) : string :=
  if Contains host ":" then "[" +:+ host +:+ "]:" +:+ port else host +:+ ":" +:+ port.

Section Transport.
Context {lib : AddressLibrary}.

Definition parseOrigin (value : string) : result error URL :=
  let refused := ErrorNew (Text "allowed origin must contain exactly scheme and host") in
  parsed ← wrap (fun _ => refused) (parse_url value);
  err_if (Scheme parsed = "" ∨ Host parsed = "" ∨ HasUser parsed = true ∨ RawQuery parsed ≠ "" ∨
          Fragment parsed ≠ "" ∨ URLPath parsed ≠ "" ∧ URLPath parsed ≠ "/") refused;;
  err_if (Scheme parsed ≠ "http" ∧ Scheme parsed ≠ "https")
    (ErrorNew (Text "allowed origin scheme must be HTTP or HTTPS"));;
  mret (mkURL (Scheme parsed) (Host parsed) "" (RawQuery parsed) (Fragment parsed) (HasUser parsed)).

Definition canonicalHost (value : URL) : string :=
  let host := host_lower (url_Hostname value) in
  let port := url_Port value in
  let port := if decide (port = "") then
                if decide (Scheme value = "https") then "443"
                else if decide (Scheme value = "http") then "80" else port
              else port in
  JoinHostPort host port.

Definition sameOrigin (a b : URL) : bool :=
  fold_equal (Scheme a) (Scheme b) && fold_equal (canonicalHost a) (canonicalHost b).

(** [New]; a certificate file is read in tls.go. *)
Definition New (policy : Policy) : result error Client :=
  origin ← parseOrigin (AllowedOrigin policy);
  let mode := if decide (Mode policy = "") then NetworkLocalTarget else Mode policy in
  err_if (mode ≠ NetworkLocalTarget ∧ mode ≠ NetworkPublicRunner)
    (ErrorNew (Sprintf "unknown network mode %q" [FStr mode]));;
  err_if (Scheme origin = "http" ∧ AllowPlainHTTP policy = false)
    (ErrorNew (Text "plain HTTP requires explicit AllowPlainHTTP"));;
  let redirects := if decide (Redirects policy = "") then RedirectNone else Redirects policy in
  err_if (redirects ≠ RedirectNone ∧ redirects ≠ RedirectSameOrigin) (ErrorNew (Text "invalid redirect policy"));;
  let maxRedirects := if decide (MaxRedirects policy <= 0 ∨ MaxRedirects policy > 10) then 3 else MaxRedirects policy in
  let maxRequest := if decide (MaxRequestBytes policy <= 0) then DefaultMaxRequestBytes else MaxRequestBytes policy in
  let maxResponse := if decide (MaxResponseBytes policy <= 0) then DefaultMaxResponseBytes else MaxResponseBytes policy in
  let timeout := if decide (Timeout policy <= 0) then 30000000000 else Timeout policy in
  err_if (timeout > 600000000000) (ErrorNew (Text "transport timeout exceeds the ten-minute safety ceiling"));;
  match ServerName policy with
  | Some name =>
      let name := if decide (name = "") then url_Hostname origin else name in
      err_if (fold_equal name (url_Hostname origin) = false)
        (ErrorNew (Text "TLS server name must match the authorized origin host"))
  | None => mret tt
  end;;
  mret (mkClient origin mode redirects maxRedirects timeout maxRequest maxResponse).

(** The [CheckRedirect] of the client: [Ok false] is [ErrUseLastResponse]. *)
Definition CheckRedirect (client : Client) (target : URL) (via : Z) : result error bool :=
  if decide (clRedirects client = RedirectNone) then mret false
  else
    err_if (via >= clMaxRedirects client) (ErrorNew (Text "redirect limit exceeded"));;
    err_if (sameOrigin (clOrigin client) target = false) (Sentinel ErrOriginViolation);;
    mret true.

(** [ResolveReference] of a reference without scheme, user and host. *)
Definition ResolveReference (origin reference : URL) : URL :=
  mkURL (Scheme origin) (Host origin) (resolve_path origin reference) (RawQuery reference) (Fragment reference)
    (HasUser origin).

Section Calls.
Context {W Conn Body : Type} {net : Network W Conn Body}.

(** ** The dialer *)

(** The loop over the checked addresses; [last] is the last error. *)
Fixpoint dial_each (network port : string) (addresses : list Addr) (last : option error) : GoM W error Conn :=
  match addresses with
  | [] => fail (default (Sentinel ErrBlockedAddress) last)
  | address :: rest =>
      answer ← try (DialContext network (JoinHostPort (Addr_String address) port));
      match answer with
      | Ok connection => mret connection
      | Err e => dial_each network port rest (Some e)
      end
  end.

Definition resolve_host (host : string) : GoM W error (list Addr) :=
  match ParseAddr host with
  | Ok literal => mret [literal]
  | Err _ => wrapM (Wrapf (Text "resolve authorized host: %w")) (LookupNetIP host)
  end.

Definition originDialer (origin : URL) (mode : NetworkMode) (network address : string) : GoM W error Conn :=
  '(host, port) ← lift (wrap (fun _ => Sentinel ErrOriginViolation) (SplitHostPort address));
  fail_if (fold_equal (JoinHostPort host port) (canonicalHost origin) = false) (Sentinel ErrOriginViolation);;
  addresses ← resolve_host host;
  fail_if (length addresses = 0%nat) (ErrorNew (Text "authorized host resolved to no addresses"));;
  lift (for_each (fun address =>
    err_if (isAlwaysBlocked address = true ∨ mode = NetworkPublicRunner ∧ isPublic address = false)
      (Sentinel ErrBlockedAddress)) addresses);;
  dial_each network port addresses None.

(** ** Requests *)

(** [redirectBehavior] of net/http: the method of the next request and
    whether it carries the body. *)
Definition redirect_behaviour (method : string) (status : Z) : option (string * bool) :=
  if decide (status = 301 ∨ status = 302 ∨ status = 303) then
    Some (if decide (method ≠ "GET" ∧ method ≠ "HEAD") then "GET" else method, false)
  else if decide (status = 307 ∨ status = 308) then Some (method, true)
  else None.

Definition url_error (e : error) : error := Wrapf (Text "%s %q: %w") e.

(** [http.Client.Do] from the request number [via + 1] on; [room] bounds the
    redirects, which [CheckRedirect] limits to [clMaxRedirects]. *)
Fixpoint follow (client : Client) (method : string) (headers : Header) (body : list ascii) (room : nat) (via : Z)
    (target : URL) : GoM W error (Answer Body) :=
  answer ← wrapM url_error (RoundTrip method target headers body);
  match redirect_behaviour method (anStatus answer), anLocation answer with
  | Some (method, keep), Some location =>
      next ← lift (wrap url_error location);
      allowed ← lift (wrap url_error (CheckRedirect client next (via + 1)));
      if (allowed : bool) then
        match room with
        | O => fail (ErrorNew (Text "redirect limit exceeded"))
        | S room =>
            follow client method (redirect_headers headers next target) (if (keep : bool) then body else []) room
              (via + 1) next
        end
      else mret answer
  | _, _ => mret answer
  end.

Definition http_Do (client : Client) (method : string) (target : URL) (headers : Header) (body : list ascii)
    : GoM W error (Answer Body) :=
  follow client method headers body (Z.to_nat (clMaxRedirects client)) 0 target.

Definition Do (client : Client) (method path : string) (headers : Header) (body : list ascii) : GoM W error Response :=
  net_ctxErr;;
  fail_if (method = "" ∨ existsb (fun c => Contains method c) [" "; String "009" ""; String "013" ""; String "010" ""] = true)
    (ErrorNew (Text "invalid HTTP method"));;
  fail_if (Z.of_nat (length body) > maxRequestBytes client) (Sentinel ErrBodyLimit);;
  let refused := ErrorNew (Text "request path must be an absolute-path reference without origin or fragment") in
  reference ← lift (wrap (fun _ => refused) (parse_url path));
  fail_if (Scheme reference ≠ "" ∨ Host reference ≠ "" ∨ HasUser reference = true ∨ Fragment reference ≠ "" ∨
           HasPrefix (URLPath reference) "/" = false) refused;;
  let target := ResolveReference (clOrigin client) reference in
  fail_if (sameOrigin (clOrigin client) target = false) (Sentinel ErrOriginViolation);;
  request ← lift (NewRequest method target);
  answer ← http_Do client method request headers body;
  duration ← (fun w => let '(d, w') := net_elapsed w in (Ok d, w'));
  payload ← ReadLimited (anBody answer) (int64_wrap (maxResponseBytes client + 1));
  fail_if (Z.of_nat (length payload) > maxResponseBytes client) (Sentinel ErrBodyLimit);;
  mret (mkResponse (anStatus answer) (anHeader answer) payload (anProto answer) duration).
End Calls.
End Transport.
