(* ===== verification/TransportSpec.v ===== *)
(** * What the origin-bound client reaches (internal/transport/client.go)

    The addresses a public runner may dial are those outside a table of
    reserved blocks; a dial happens only for the authorized host and only when
    every resolved address is allowed; requests, redirected ones too, stay at
    the authorized origin and bodies within their limits. *)
From Stdlib Require Import ZArith Ascii String Lia.
From stdpp Require Import base gmap sets list strings.
From S2P Require Import Prelude Documents RawJSON Transport CAS CASSpec.
Local Open Scope Z_scope.
Local Open Scope string_scope.
Local Open Scope list_scope.

(** ** Bits of addresses *)
Lemma v4_div x n : 0 <= n <= 3 -> v4 x n = (x / 2 ^ (8 * (3 - n))) mod 256.
Proof.
  intros Hn. unfold v4. rewrite Z.shiftr_div_pow2 by lia. exact (Z.land_ones _ 8 ltac:(lia)).
Qed.
Lemma v6_div x n : 0 <= n <= 7 -> v6u16 x n = (x / 2 ^ (16 * (7 - n))) mod 65536.
Proof.
  intros Hn. unfold v6u16. rewrite Z.shiftr_div_pow2 by lia. exact (Z.land_ones _ 16 ltac:(lia)).
Qed.

(** A mask of the high bits. *)
Lemma land_high g k m : 0 <= k -> 0 <= m -> 0 <= g < 2 ^ (k + m) ->
  Z.land g (Z.shiftl (Z.ones m) k) = 2 ^ k * (g / 2 ^ k).
Proof.
  intros Hk Hm Hg. rewrite Z.mul_comm, <- Z.shiftr_div_pow2, <- Z.shiftl_mul_pow2 by lia.
  apply Z.bits_inj'. intros n Hn. rewrite Z.land_spec, !Z.shiftl_spec by lia.
  destruct (decide (n < k)).
  - rewrite !(Z.testbit_neg_r _ (n - k)) by lia. apply andb_false_r.
  - rewrite Z.shiftr_spec by lia. replace (n - k + k) with n by lia. rewrite Z.testbit_ones_nonneg by lia.
    destruct (Z.ltb_spec (n - k) m); [apply andb_true_r|].
    rewrite <- (Z.mod_small g (2 ^ (k + m))), Z.mod_pow2_bits_high by lia. done.
Qed.

Lemma land_240 o : 0 <= o < 256 -> Z.land o 240 = 16 * (o / 16).
Proof. exact (land_high o 4 4 ltac:(lia) ltac:(lia)). Qed.
Lemma land_254 o : 0 <= o < 256 -> Z.land o 254 = 2 * (o / 2).
Proof. exact (land_high o 1 7 ltac:(lia) ltac:(lia)). Qed.
Lemma land_65472 g : 0 <= g < 65536 -> Z.land g 65472 = 64 * (g / 64).
Proof. exact (land_high g 6 10 ltac:(lia) ltac:(lia)). Qed.

(** ** The reserved blocks *)
Definition reserved4 : list (Z * Z) :=
  (fun '(groups, n) => (from_groups 8 4 groups, n)) <$>
  [([0], 8); ([10], 8); ([100; 64], 10); ([127], 8); ([169; 254], 16); ([172; 16], 12); ([192; 0; 0], 24);
   ([192; 0; 2], 24); ([192; 31; 196], 24); ([192; 52; 193], 24); ([192; 88; 99], 24); ([192; 168], 16);
   ([192; 175; 48], 24); ([198; 18], 15); ([198; 51; 100], 24); ([203; 0; 113], 24); ([224], 4); ([240], 4)].
Definition reserved6 : list (Z * Z) :=
  (fun '(groups, n) => (from_groups 16 8 groups, n)) <$>
  [([0], 128); ([0; 0; 0; 0; 0; 0; 0; 1], 128); ([0x64; 0xff9b], 96); ([0x64; 0xff9b; 1], 48); ([0x100], 64);
   ([0x100; 0; 0; 1], 64); ([0x2001], 23); ([0x2001; 0xdb8], 32); ([0x2002], 16); ([0x2620; 0x4f; 0x8000], 48);
   ([0x3fff], 20); ([0x5f00], 16); ([0xfc00], 7); ([0xfe80], 10); ([0xff00], 8)].

Definition outside (w : Z) (blocks : list (Z * Z)) (x : Z) : Prop := Forall (fun '(net, n) => ~ in_block w net n x) blocks.

(** The predicates of the library, as blocks. *)
Section Address4.
Context (x : Z) (Hx : 0 <= x < 2 ^ 32).

Ltac bytes := unfold in_block; cbn -[Z.add Z.mul Z.div Z.modulo Z.le Z.lt]; rewrite ?v4_div by lia;
  change (2 ^ (8 * (3 - 0))) with 16777216; change (2 ^ (8 * (3 - 1))) with 65536; change (2 ^ (8 * (3 - 2))) with 256.

Lemma loopback4 : IsLoopback (V4 x) = true <-> in_block 32 (127 * 2 ^ 24) 8 x.
Proof. unfold IsLoopback. rewrite bool_decide_eq_true. bytes. Z.to_euclidean_division_equations; lia. Qed.
Lemma multicast4 : IsMulticast (V4 x) = true <-> in_block 32 (224 * 2 ^ 24) 4 x.
Proof.
  unfold IsMulticast. rewrite bool_decide_eq_true. bytes. rewrite land_240 by (apply Z.mod_pos_bound; lia).
  Z.to_euclidean_division_equations; lia.
Qed.
Lemma link_local4 : IsLinkLocalUnicast (V4 x) = true <-> in_block 32 (43518 * 2 ^ 16) 16 x.
Proof. unfold IsLinkLocalUnicast. rewrite bool_decide_eq_true. bytes. Z.to_euclidean_division_equations; lia. Qed.
Lemma link_multicast4 : IsLinkLocalMulticast (V4 x) = true -> IsMulticast (V4 x) = true.
Proof.
  rewrite multicast4. unfold IsLinkLocalMulticast. rewrite bool_decide_eq_true. bytes.
  Z.to_euclidean_division_equations; lia.
Qed.
Lemma private4 : IsPrivate (V4 x) = true <->
  in_block 32 (10 * 2 ^ 24) 8 x ∨ in_block 32 (2753 * 2 ^ 20) 12 x ∨ in_block 32 (49320 * 2 ^ 16) 16 x.
Proof.
  unfold IsPrivate. rewrite bool_decide_eq_true. bytes. rewrite land_240 by (apply Z.mod_pos_bound; lia).
  Z.to_euclidean_division_equations; lia.
Qed.
End Address4.

Section Address6.
Context (x : Z) (Hx : 0 <= x < 2 ^ 128).

Lemma first_group : v6u16 x 0 = x / 2 ^ 112.
Proof.
  rewrite v6_div by lia. change (16 * (7 - 0)) with 112. apply Z.mod_small.
  split; [apply Z.div_pos; lia|]. apply Z.div_lt_upper_bound; [lia|]. lia.
Qed.
Lemma first_group_range : 0 <= x / 2 ^ 112 < 65536.
Proof. rewrite <- first_group, v6_div by lia. apply Z.mod_pos_bound. lia. Qed.

(** The first group decides by intervals. *)
Lemma group_block q n : 0 <= n <= 16 ->
  x / 2 ^ 112 / 2 ^ (16 - n) = q <-> in_block 128 (q * 2 ^ (128 - n)) n x.
Proof.
  intros Hn. rewrite Zdiv.Zdiv_Zdiv by (apply Z.pow_nonneg; lia). rewrite <- Z.pow_add_r by lia.
  replace (112 + (16 - n)) with (128 - n) by lia. rewrite <- Z.shiftr_div_pow2 by lia. apply leading_block. lia.
Qed.

Lemma multicast6 z : IsMulticast (V6 x z) = true <-> in_block 128 (255 * 2 ^ 120) 8 x.
Proof.
  unfold IsMulticast. rewrite bool_decide_eq_true, first_group, Z.shiftr_div_pow2 by lia.
  exact (group_block 255 8 ltac:(lia)).
Qed.
Lemma link_local6 z : IsLinkLocalUnicast (V6 x z) = true <-> in_block 128 (1018 * 2 ^ 118) 10 x.
Proof.
  unfold IsLinkLocalUnicast. rewrite bool_decide_eq_true, first_group, land_65472 by apply first_group_range.
  rewrite <- (group_block 1018 10) by lia. change (2 ^ (16 - 10)) with 64. lia.
Qed.
Lemma private6 z : IsPrivate (V6 x z) = true <-> in_block 128 (126 * 2 ^ 121) 7 x.
Proof.
  unfold IsPrivate. rewrite bool_decide_eq_true, first_group, Z.shiftr_div_pow2 by lia. change (2 ^ 8) with 256.
  pose proof first_group_range as Hr. rewrite land_254 by (Z.to_euclidean_division_equations; lia).
  rewrite <- (group_block 126 7) by lia. change (2 ^ (16 - 7)) with 512. Z.to_euclidean_division_equations; lia.
Qed.
Lemma link_multicast6 z : IsLinkLocalMulticast (V6 x z) = true -> in_block 128 (255 * 2 ^ 120) 8 x.
Proof.
  unfold IsLinkLocalMulticast. rewrite bool_decide_eq_true, first_group, <- (group_block 255 8) by lia.
  change (2 ^ (16 - 8)) with 256. generalize first_group_range. generalize (x / 2 ^ 112). intros g Hg E.
  assert (Z.shiftr (Z.land g 65295) 8 = 255) as E' by by rewrite E.
  rewrite Z.shiftr_land in E'. change (Z.shiftr 65295 8) with (Z.ones 8) in E'.
  rewrite Z.land_ones, Z.shiftr_div_pow2 in E' by lia. change (2 ^ 8) with 256 in E'.
  rewrite Z.mod_small in E' by (Z.to_euclidean_division_equations; lia). done.
Qed.
End Address6.

(** The listed prefixes, as blocks. *)
Definition aligned (p : Prefix) : Prop :=
  match pxIP p with
  | V4 net => 0 <= pxBits p <= 32 ∧ net mod 2 ^ (32 - pxBits p) = 0
  | V6 net _ => 0 <= pxBits p <= 128 ∧ net mod 2 ^ (128 - pxBits p) = 0
  | Invalid => False
  end.
#[local] Instance aligned_dec p : Decision (aligned p).
Proof. unfold aligned. destruct (pxIP p); apply _. Defined.

Lemma special_aligned : Forall aligned publicRunnerSpecialUsePrefixes.
Proof. apply (bool_decide_unpack _). vm_compute. reflexivity. Qed.

Definition block_of (p : Prefix) (ip : Addr) : Prop :=
  match pxIP p, ip with
  | V4 net, V4 x => in_block 32 net (pxBits p) x
  | V6 net _, V6 x "" => in_block 128 net (pxBits p) x
  | _, _ => False
  end.

Lemma Contains_block p ip : aligned p -> Prefix_Contains p ip = true <-> block_of p ip.
Proof.
  unfold aligned, Prefix_Contains, block_of. destruct (pxIP p) as [|net|net z], ip as [|x|x [|c z']]; try done.
  - intros [H1 H2]. cbn [hasZone negb andb]. by rewrite bool_decide_eq_true, shiftr_block.
  - intros [H1 H2]. rewrite andb_true_iff, bool_decide_eq_true, shiftr_block by done. split; [by intros []|done].
Qed.

Lemma special_blocks ip :
  existsb (fun prefix => Prefix_Contains prefix ip) publicRunnerSpecialUsePrefixes = false <->
  Forall (fun p => ~ block_of p ip) publicRunnerSpecialUsePrefixes.
Proof.
  generalize special_aligned. generalize publicRunnerSpecialUsePrefixes. intros l H.
  induction H as [|p l Hp H IH]; [by split|]. cbn [existsb]. rewrite orb_false_iff, Forall_cons, IH.
  by rewrite <- (Contains_block p ip Hp), not_true_iff_false.
Qed.

Ltac groups :=
  repeat match goal with
  | |- context [from_groups ?w ?c ?l] =>
      let v := eval vm_compute in (from_groups w c l) in change (from_groups w c l) with v
  end.

Lemma public4 x : 0 <= x < 2 ^ 32 -> isPublic (V4 x) = true <-> outside 32 reserved4 x.
Proof.
  intros Hx. unfold isPublic, isAlwaysBlocked. cbn [Unmap IsValid Is6 negb orb].
  rewrite andb_true_iff, !negb_true_iff, special_blocks, !orb_false_iff, negb_false_iff.
  unfold IsGlobalUnicast. rewrite !andb_true_iff, !negb_true_iff, <- !not_true_iff_false.
  rewrite (loopback4 x Hx), (multicast4 x Hx), (link_local4 x Hx), (private4 x Hx).
  pose proof (link_multicast4 x Hx) as HL. rewrite (multicast4 x Hx) in HL.
  unfold IsUnspecified, outside. rewrite !bool_decide_eq_true.
  unfold publicRunnerSpecialUsePrefixes, reserved4, alwaysBlockedDestinations, block_of.
  cbn [fmap list_fmap]. rewrite !Forall_cons, !Forall_nil, !elem_of_cons, elem_of_nil.
  assert (forall a, V4 x = V4 a <-> x = a) as E4 by (split; congruence).
  assert (forall a z, V4 x = V6 a z <-> False) as E6 by by split.
  unfold ip4, ip6 in *. rewrite !E4, !E6. unfold in_block in *. cbn [pxIP pxBits]. groups.
  change (Z.ones 32) with 4294967295. assert (IsLinkLocalMulticast (V4 x) ≠ true ∨ 224 * 2 ^ 24 <= x < 240 * 2 ^ 24) as HM
    by (destruct (IsLinkLocalMulticast (V4 x)); [right; specialize (HL eq_refl)|left]; [lia|done]).
  clear HL. generalize dependent (IsLinkLocalMulticast (V4 x) ≠ true). intros P HM. split; [lia|].
  intros HH. split_and!; try lia. destruct HM; [done|lia].
Qed.

Lemma public6 x : 0 <= x < 2 ^ 128 -> Z.shiftr x 32 ≠ 65535 ->
  isPublic (V6 x "") = true <-> outside 128 reserved6 x.
Proof.
  intros Hx Hm. unfold isPublic, isAlwaysBlocked. cbn [Unmap]. rewrite !decide_False by done.
  cbn [Unmap IsValid Is6 negb orb WithZone]. rewrite !decide_False by done. cbn [IsValid Is6 negb orb WithZone].
  rewrite andb_true_iff, !negb_true_iff, special_blocks, !orb_false_iff, negb_false_iff.
  unfold IsGlobalUnicast. rewrite !andb_true_iff, !negb_true_iff, <- !not_true_iff_false.
  rewrite (multicast6 x Hx), (link_local6 x Hx), (private6 x Hx).
  pose proof (link_multicast6 x Hx "") as HL.
  unfold IsUnspecified, IsLoopback, outside. rewrite !bool_decide_eq_true.
  unfold publicRunnerSpecialUsePrefixes, reserved6, alwaysBlockedDestinations, block_of.
  cbn [fmap list_fmap]. rewrite !Forall_cons, !Forall_nil, !elem_of_cons, elem_of_nil.
  assert (forall a, V6 x "" = V6 a "" <-> x = a) as E6 by (split; congruence).
  assert (forall a, V6 x "" = V4 a <-> False) as E4 by by split.
  unfold ip4, ip6 in *. rewrite !E4, !E6. unfold in_block in *. cbn [pxIP pxBits]. groups.
  assert (IsLinkLocalMulticast (V6 x "") ≠ true ∨ 255 * 2 ^ 120 <= x < 2 ^ 128) as HM
    by (destruct (IsLinkLocalMulticast (V6 x "")); [right; specialize (HL eq_refl)|left]; [lia|done]).
  clear HL. generalize dependent (IsLinkLocalMulticast (V6 x "") ≠ true). intros P HM. split; [lia|].
  intros HH. split_and!; try lia. destruct HM; [done|lia].
Qed.

Lemma Unmap_mapped x z : 0 <= x < 2 ^ 32 -> Unmap (V6 (65535 * 2 ^ 32 + x) z) = V4 x.
Proof.
  intros Hx. unfold Unmap. rewrite Z.shiftr_div_pow2 by lia.
  rewrite decide_True by (rewrite Z.div_add_l by lia; rewrite Z.div_small; lia).
  f_equal. rewrite Z.land_ones by lia. rewrite Z.add_comm, Z_mod_plus_full. by apply Z.mod_small.
Qed.

(** What a public runner may dial: an IPv4 address, also written as an
    IPv6 address, passes the policy exactly when it is outside the table of
    reserved IPv4 blocks, and an IPv6 address without a zone exactly when it
    is outside the reserved IPv6 blocks; the listed metadata services are
    refused in every mode, with any zone.  A zone, however, hides a
    special-use address: with one, an address of a listed prefix passes. *)
Theorem public_addresses_are_unreserved :
  (forall x, 0 <= x < 2 ^ 32 -> isPublic (V4 x) = true <-> outside 32 reserved4 x) ∧
  (forall x z, 0 <= x < 2 ^ 32 -> isPublic (V6 (65535 * 2 ^ 32 + x) z) = isPublic (V4 x)) ∧
  (forall x, 0 <= x < 2 ^ 128 -> Z.shiftr x 32 ≠ 65535 -> isPublic (V6 x "") = true <-> outside 128 reserved6 x) ∧
  (forall a z, a ∈ alwaysBlockedDestinations -> isAlwaysBlocked (WithZone a z) = true) ∧
  (exists p x z, p ∈ publicRunnerSpecialUsePrefixes ∧ Prefix_Contains p (V6 x "") = true ∧ isPublic (V6 x z) = true).
Proof.
  split_and!; [apply public4| |apply public6| |].
  - intros x z Hx. unfold isPublic, isAlwaysBlocked. by rewrite Unmap_mapped.
  - intros a z Ha. unfold alwaysBlockedDestinations in Ha. rewrite !elem_of_cons, elem_of_nil in Ha.
    destruct Ha as [->|[->|[->|[]]]]; vm_compute; reflexivity.
  - exists (mkPrefix (ip6 [0x2001; 0xdb8]) 32), (from_groups 16 8 [0x2001; 0xdb8; 0; 0; 0; 0; 0; 1]), "eth0".
    split_and!; [unfold publicRunnerSpecialUsePrefixes; rewrite !elem_of_cons; tauto|vm_compute; reflexivity..].
Qed.

(** ** What goes out *)
Inductive Outgoing :=
| Dialed (address : string)
| Sent (method : string) (target : URL) (body : list ascii).

Section Calls.
Context {lib : AddressLibrary} {W Conn Body : Type} {net : Network W Conn Body}.

Definition quietly {A} (m : GoM W error A) : GoM (W * list Outgoing) error A := fun '(w, log) =>
  let '(a, w') := m w in (a, (w', log)).
Definition noting {A} (o : Outgoing) (m : GoM W error A) : GoM (W * list Outgoing) error A := fun '(w, log) =>
  let '(a, w') := m w in (a, (w', log ++ [o])).

(** The same network, with a log of what goes out. *)
#[export] Instance logged : Network (W * list Outgoing) Conn Body := {
  net_ctxErr := quietly net_ctxErr;
  LookupNetIP host := quietly (LookupNetIP host);
  DialContext network address := noting (Dialed address) (DialContext network address);
  RoundTrip method target headers body := noting (Sent method target body) (RoundTrip method target headers body);
  ReadLimited body n := quietly (ReadLimited body n);
  net_elapsed '(w, log) := let '(d, w') := net_elapsed w in (d, (w', log))
}.

(** ** Dialing *)
Definition allowed (mode : NetworkMode) (a : Addr) : Prop :=
  isAlwaysBlocked a = false ∧ (mode = NetworkPublicRunner -> isPublic a = true).

Definition dial_target (port : string) (a : Addr) : Outgoing := Dialed (JoinHostPort (Addr_String a) port).

Lemma dial_each_spec network port addresses : forall last w log,
  let '(answer, (_, log')) := dial_each network port addresses last (w, log) in
  exists dialed, log' = log ++ dialed ∧ dialed `prefix_of` (dial_target port <$> addresses) ∧
    (is_ok answer = true -> dialed ≠ []).
Proof.
  induction addresses as [|a addresses IH]; intros last w log; cbn [dial_each].
  { exists []. rewrite app_nil_r. by split_and!. }
  unfold try, mbind, gom_bind. cbn -[JoinHostPort]. unfold noting.
  destruct (DialContext network (JoinHostPort (Addr_String a) port) w) as [[c|e] w1].
  - cbn. exists [dial_target port a]. split_and!; [done| |done]. by eexists.
  - specialize (IH (Some e) w1 (log ++ [Dialed (JoinHostPort (Addr_String a) port)])).
    destruct (dial_each network port addresses (Some e) _) as [answer [w2 log2]].
    destruct IH as (dialed & -> & Hp & Hok). exists (dial_target port a :: dialed).
    split_and!; [by rewrite <- app_assoc|by apply prefix_cons|done].
Qed.

Lemma resolve_host_spec host w log :
  let '(answer, (w', log')) := resolve_host host (w, log) in
  log' = log ∧ forall addresses, answer = Ok addresses ->
    match ParseAddr host with
    | Ok literal => addresses = [literal]
    | Err _ => LookupNetIP host w = (Ok addresses, w')
    end.
Proof.
  unfold resolve_host. destruct (ParseAddr host) as [literal|e]; [cbn; split; [done|congruence]|].
  unfold wrapM. cbn. unfold quietly. destruct (LookupNetIP host w) as [[addresses|e'] w'] eqn:E; cbn; [|done].
  split; [done|]. intros a [= ->]. done.
Qed.

Lemma checked_addresses mode addresses :
  for_each (fun address =>
    err_if (isAlwaysBlocked address = true ∨ mode = NetworkPublicRunner ∧ isPublic address = false)
      (Sentinel ErrBlockedAddress)) addresses = Ok tt <-> Forall (allowed mode) addresses.
Proof.
  rewrite for_each_ok. apply Forall_proper; [|done]. intros a. rewrite err_if_ok. unfold allowed.
  destruct (isAlwaysBlocked a), (isPublic a); naive_solver.
Qed.

(** [C19] A connection is opened only to the authorized host: whatever a
    resolver answers, the dialer opens connections only when the address it
    was given is the canonical host and port of the origin, the resolved
    addresses (or the literal address itself) are all allowed in the mode, and
    then to them, one by one, in the order of the answer; a single forbidden
    address in the answer stops it before it dials. *)
Theorem dials_only_the_authorized_host origin mode network address w :
  let '(answer, (_, out)) := originDialer origin mode network address (w, []) in
  (is_ok answer = true -> out ≠ []) ∧
  (out ≠ [] -> exists host port addresses,
     SplitHostPort address = Ok (host, port) ∧ fold_equal (JoinHostPort host port) (canonicalHost origin) = true ∧
     match ParseAddr host with
     | Ok literal => addresses = [literal]
     | Err _ => exists w1 w2 : W, LookupNetIP host w1 = (Ok addresses, w2)
     end ∧
     Forall (allowed mode) addresses ∧ out `prefix_of` (dial_target port <$> addresses)).
Proof.
  unfold originDialer, mbind, gom_bind, lift, wrap, fail_if.
  destruct (SplitHostPort address) as [[host port]|e] eqn:Es; [|done].
  destruct (decide (fold_equal (JoinHostPort host port) (canonicalHost origin) = false)) as [|Hf]; [done|].
  cbn [mret gom_ret]. pose proof (resolve_host_spec host w []) as HR.
  destruct (resolve_host host (w, [])) as [[addresses|e] [w1 log1]]; destruct HR as [-> HR]; [|done].
  destruct (decide (length addresses = 0%nat)); [done|]. cbn [mret gom_ret].
  destruct (for_each _ addresses) as [[]|e] eqn:Ec; [|done]. apply checked_addresses in Ec.
  pose proof (dial_each_spec network port addresses None w1 []) as HD.
  destruct (dial_each network port addresses None (w1, [])) as [answer [w2 out]].
  destruct HD as (dialed & -> & Hp & Hok). split; [done|]. intros _. exists host, port, addresses.
  split_and!; [done|by apply not_false_iff_true| |done|done].
  specialize (HR addresses eq_refl). destruct (ParseAddr host); [done|]. by exists w, w1.
Qed.

(** ** Requests *)
Lemma New_bounds policy client : New policy = Ok client ->
  1 <= clMaxRedirects client <= 10 ∧ 0 < maxRequestBytes client ∧ 0 < maxResponseBytes client ∧
  (Scheme (clOrigin client) = "http" ∨ Scheme (clOrigin client) = "https") ∧
  0 < clTimeout client <= 600000000000.
Proof.
  unfold New. intros H. apply bind_Ok in H as (origin & Ho & H). apply bind_Ok in H as ([] & _ & H).
  apply bind_Ok in H as ([] & _ & H). apply bind_Ok in H as ([] & _ & H). apply bind_Ok in H as ([] & Ht%err_if_ok & H).
  apply bind_Ok in H as ([] & _ & H). injection H as <-.
  cbn [clMaxRedirects maxRequestBytes maxResponseBytes clOrigin clTimeout].
  unfold parseOrigin in Ho. apply bind_Ok in Ho as (parsed & _ & Ho). apply bind_Ok in Ho as ([] & _ & Ho).
  apply bind_Ok in Ho as ([] & Hs%err_if_ok & Ho). injection Ho as <-. cbn [Scheme].
  change DefaultMaxRequestBytes with 16777216. change DefaultMaxResponseBytes with 67108864.
  assert (Scheme parsed = "http" ∨ Scheme parsed = "https") as Hscheme
    by (destruct (decide (Scheme parsed = "http")), (decide (Scheme parsed = "https")); tauto).
  clear Hs. split_and!; [repeat case_decide; lia..|done| |]; repeat case_decide; lia.
Qed.

Definition at_origin (client : Client) (body : list ascii) (o : Outgoing) : Prop :=
  exists method target sent, o = Sent method target sent ∧ sameOrigin (clOrigin client) target = true ∧
    (sent = body ∨ sent = []).

Lemma at_origin_empty client body o : at_origin client [] o -> at_origin client body o.
Proof. intros (m & t & b & -> & H & Hb). exists m, t, b. split_and!; [done|done|]. right. by destruct Hb. Qed.

Lemma CheckRedirect_ok client next via : CheckRedirect client next via = Ok true ->
  clRedirects client ≠ RedirectNone ∧ via < clMaxRedirects client ∧ sameOrigin (clOrigin client) next = true.
Proof.
  unfold CheckRedirect. case_decide; [done|]. intros HC%bind_Ok. destruct HC as ([] & H1%err_if_ok & HC).
  apply bind_Ok in HC as ([] & H2%err_if_ok & _). split_and!; [done|lia|by apply not_false_iff_true].
Qed.

Lemma follow_spec client room : forall method headers body via target w log,
  sameOrigin (clOrigin client) target = true -> via < clMaxRedirects client ->
  let '(_, (_, log')) := follow client method headers body room via target (w, log) in
  exists out, log' = log ++ out ∧ Forall (at_origin client body) out ∧
    (1 <= Z.of_nat (length out) <= clMaxRedirects client - via) ∧
    (clRedirects client = RedirectNone -> length out = 1%nat).
Proof.
  assert (forall method body via target (log : list Outgoing), sameOrigin (clOrigin client) target = true ->
    via < clMaxRedirects client ->
    exists out, log ++ [Sent method target body] = log ++ out ∧ Forall (at_origin client body) out ∧
    (1 <= Z.of_nat (length out) <= clMaxRedirects client - via) ∧
    (clRedirects client = RedirectNone -> length out = 1%nat)) as Hone.
  { intros method body via target log Hs Hv. exists [Sent method target body].
    split_and!; [done| |cbn; lia|cbn; lia|done]. constructor; [|done]. exists method, target, body. by split_and!; [..|left]. }
  induction room as [|room IH]; intros method headers body via target w log Hs Hv; cbn [follow];
    unfold mbind, gom_bind, wrapM; cbn -[CheckRedirect redirect_behaviour]; unfold noting;
    (destruct (RoundTrip method target headers body w) as [[answer|e] w1]; [|by apply Hone]); cbn -[CheckRedirect redirect_behaviour follow];
    (destruct (redirect_behaviour method (anStatus answer)) as [[method' keep]|]; [|by apply Hone]);
    (destruct (anLocation answer) as [[next|e]|]; [|by apply Hone..]); cbn -[CheckRedirect follow];
    (destruct (CheckRedirect client next (via + 1)) as [[]|e] eqn:Ec; [|by apply Hone..]); [by apply Hone|].
  apply CheckRedirect_ok in Ec as (Hr & Hv' & Hs'). cbn -[follow].
  specialize (IH method' (redirect_headers headers next target) (if keep then body else []) (via + 1) next w1
    (log ++ [Sent method target body]) Hs' Hv').
  destruct (follow _ _ _ _ _ _ _ _) as [x [w2 log2]]. destruct IH as (out & -> & H1 & H2 & H3).
  exists (Sent method target body :: out). split_and!; [by rewrite <- app_assoc| |cbn [length]; lia|cbn [length]; lia|done].
  constructor; [exists method, target, body; by split_and!; [..|left]|].
  eapply Forall_impl; [exact H1|]. intros o Ho. destruct keep; [done|by apply at_origin_empty].
Qed.

(** What a call of [Do] may send and answer. *)
Record bounded_exchange (client : Client) (body : list ascii) (answer : result error Response) (out : list Outgoing)
    : Prop := {
  be_origin : Forall (at_origin client body) out;
  be_count : Z.of_nat (length out) <= clMaxRedirects client;
  be_single : clRedirects client = RedirectNone -> (length out <= 1)%nat;
  be_request : out ≠ [] -> Z.of_nat (length body) <= maxRequestBytes client;
  be_response : forall response, answer = Ok response ->
    out ≠ [] ∧ Z.of_nat (length (rsBody response)) <= maxResponseBytes client
}.

Lemma nothing_sent client body e : 1 <= clMaxRedirects client -> bounded_exchange client body (Err e) [].
Proof. intros H. split; [done|cbn; lia|cbn; lia|done|done]. Qed.

Lemma Do_spec client method path headers body w :
  (forall method target request, NewRequest method target = Ok request ->
     sameOrigin (clOrigin client) target = true -> sameOrigin (clOrigin client) request = true) ->
  1 <= clMaxRedirects client ->
  let '(answer, (_, out)) := Do client method path headers body (w, []) in bounded_exchange client body answer out.
Proof.
  intros Hprint Hmax. unfold Do, mbind, gom_bind, fail_if, lift.
  cbn -[http_Do existsb ResolveReference sameOrigin Contains HasPrefix]. unfold quietly.
  destruct (net_ctxErr w) as [[[]|e] w1]; [|by apply nothing_sent].
  case_decide; [by apply nothing_sent|]. cbn -[http_Do ResolveReference sameOrigin HasPrefix].
  case_decide as Hbody; [by apply nothing_sent|]. cbn -[http_Do ResolveReference sameOrigin HasPrefix].
  destruct (wrap _ (parse_url path)) as [reference|e]; [|by apply nothing_sent].
  case_decide; [by apply nothing_sent|]. cbn -[http_Do ResolveReference sameOrigin].
  case_decide as Hs; [by apply nothing_sent|]. cbn -[http_Do ResolveReference].
  destruct (NewRequest method (ResolveReference (clOrigin client) reference)) as [request|e] eqn:Er; [|by apply nothing_sent].
  apply not_false_iff_true in Hs. pose proof (Hprint _ _ _ Er Hs) as Hs'.
  unfold http_Do. pose proof (follow_spec client (Z.to_nat (clMaxRedirects client)) method headers body 0 request w1 []
    Hs' ltac:(lia)) as HF.
  destruct (follow _ _ _ _ _ _ _ (w1, [])) as [x [w2 log2]]. destruct HF as (out & -> & H1 & H2 & H3).
  assert (forall answer, (forall response, answer = Ok response -> Z.of_nat (length (rsBody response)) <= maxResponseBytes client) ->
    bounded_exchange client body answer out) as Hout.
  { intros answer Ha. split; [done|lia|intros E; rewrite (H3 E); lia|lia|]. intros response E. split; [|by apply Ha].
    intros ->. cbn in H2. lia. }
  destruct x as [answer|e]; [|by apply Hout]. destruct (net_elapsed w2) as [d w3].
  destruct (ReadLimited (anBody answer) _ w3) as [[payload|e] w4]; [|by apply Hout].
  case_decide as Hp; [by apply Hout|]. apply Hout. intros response [= <-]. cbn. lia.
Qed.

(** [C18] Requests stay at the authorized origin: from a client of any policy,
    whatever the target answers, everything [Do] sends goes to an address of
    the same origin, with the given body or, after a redirect, none; at most
    the allowed number of redirects, never more than ten, is followed, and
    none without a redirect policy; nothing is sent with a body over the
    limit, and no response over the limit is answered. *)
Theorem requests_stay_at_the_origin policy client method path headers body w
    (Hnew : New policy = Ok client)
    (Hprint : forall method target request, NewRequest method target = Ok request ->
       sameOrigin (clOrigin client) target = true -> sameOrigin (clOrigin client) request = true) :
  let '(answer, (_, out)) := Do client method path headers body (w, []) in
  bounded_exchange client body answer out ∧ clMaxRedirects client <= 10.
Proof.
  destruct (New_bounds _ _ Hnew) as [Hmax _].
  pose proof (Do_spec client method path headers body w Hprint ltac:(lia)) as H.
  destruct (Do client method path headers body (w, [])) as [answer [w' out]]. split; [done|lia].
Qed.
End Calls.

(** ** A small network *)
#[local] Instance sample_addresses : AddressLibrary := {
  parse_url s :=
    if decide (s = "https://api.example") then Ok (mkURL "https" "api.example" "" "" "" false)
    else Ok (mkURL "" "" s "" "" false);
  url_Hostname u := Host u;
  url_Port _ := "";
  resolve_path _ reference := URLPath reference;
  NewRequest _ target := Ok target;
  SplitHostPort s := if decide (s = "api.example:443") then Ok ("api.example", "443") else Err (ErrorNew (Text "address"));
  ParseAddr _ := Err (ErrorNew (Text "not a literal"));
  Addr_String a := match a with V4 _ => "v4" | _ => "v6" end;
  redirect_headers headers _ _ := headers;
  host_lower s := s;
  fold_equal a b := bool_decide (a = b)
}.
(** A target that redirects to itself for ever, and whose name has a public
    and a private address. *)
#[local] Instance sample_network : Network unit unit (list ascii) := {
  net_ctxErr := mret tt;
  LookupNetIP _ := mret [ip4 [93; 184; 216; 34]; ip4 [10; 0; 0; 1]];
  DialContext _ _ := mret tt;
  RoundTrip _ target _ _ := mret (mkAnswer 307 ∅ "HTTP/1.1" (Some (Ok target)) (list_ascii_of_string "body"));
  ReadLimited body n := mret (take (Z.to_nat n) body);
  net_elapsed w := (5, w)
}.
Definition sample_policy (redirects : RedirectPolicy) (limit : Z) : Policy :=
  mkPolicy "https://api.example" "" redirects 2 false 0 limit 0 None.
Definition sample_client (redirects : RedirectPolicy) (limit : Z) : Client :=
  mkClient (mkURL "https" "api.example" "" "" "" false) NetworkLocalTarget redirects 2 30000000000
    DefaultMaxRequestBytes limit.

(** A private address among the answers stops a public runner. *)
Example sample_dials :
  (originDialer (clOrigin (sample_client RedirectNone 4)) NetworkPublicRunner "tcp" "api.example:443" (tt, [])).2.2 = [] ∧
  (originDialer (clOrigin (sample_client RedirectNone 4)) NetworkLocalTarget "tcp" "api.example:443" (tt, [])).2.2
    = [Dialed "v4:443"].
Proof. split; vm_compute; reflexivity. Qed.

(** The largest configurable limit wraps around: every body reads as empty. *)
Example largest_limit_reads_nothing :
  New (sample_policy RedirectNone int64_max) = Ok (sample_client RedirectNone int64_max) ∧
  match (Do (sample_client RedirectNone int64_max) "GET" "/v1" ∅ [] tt).1 with
  | Ok response => rsBody response = []
  | Err _ => False
  end ∧
  match (Do (sample_client RedirectNone 4) "GET" "/v1" ∅ [] tt).1 with
  | Ok response => rsBody response = list_ascii_of_string "body"
  | Err _ => False
  end.
Proof. split_and!; vm_compute; reflexivity. Qed.

Example sample_redirects :
  length (Do (sample_client RedirectSameOrigin 4) "POST" "/v1" ∅ (list_ascii_of_string "{}") (tt, [])).2.2 = 2%nat.
Proof. vm_compute. reflexivity. Qed.

Lemma requests_stay_at_the_origin_witness :
  bounded_exchange (sample_client RedirectSameOrigin 4) (list_ascii_of_string "{}")
    (Do (sample_client RedirectSameOrigin 4) "POST" "/v1" ∅ (list_ascii_of_string "{}") (tt, [])).1
    (Do (sample_client RedirectSameOrigin 4) "POST" "/v1" ∅ (list_ascii_of_string "{}") (tt, [])).2.2.
Proof.
  assert (New (sample_policy RedirectSameOrigin 4) = Ok (sample_client RedirectSameOrigin 4)) as Hn by (vm_compute; reflexivity).
  pose proof (requests_stay_at_the_origin (sample_policy RedirectSameOrigin 4) (sample_client RedirectSameOrigin 4)
    "POST" "/v1" ∅ (list_ascii_of_string "{}") tt Hn) as H.
  assert (forall method target request, NewRequest method target = Ok request ->
    sameOrigin (clOrigin (sample_client RedirectSameOrigin 4)) target = true ->
    sameOrigin (clOrigin (sample_client RedirectSameOrigin 4)) request = true) as Hp.
  { intros method target request [= ->]. exact id. }
  specialize (H Hp).
  destruct (Do (sample_client RedirectSameOrigin 4) "POST" "/v1" ∅ (list_ascii_of_string "{}") (tt, []))
    as [answer [w out]]. exact (proj1 H).
Defined.
