(* ===== verification/RawRegistry.v ===== *)
(** * internal/rawdriver/registry.go: the scenario registry

    Scenarios are registered under their plan digest and identifier, with an
    index by decision.  [Register] clones the body and the headers, but the
    slice [AllowedValues] and the pointer [ExpectedUsage] of the assertion
    stay those of the caller: an [Entry] holds their locations, and a
    scenario is read through the caller's [Heap].  What the registry returns
    is a clone, a [Scenario] by value. *)
From Stdlib Require Import ZArith Ascii String Lia.
From stdpp Require Import base gmap sets list strings.
From S2P Require Import Prelude Schema Results Canonical Documents OracleSchema Normalizer Budget RawJSON RawEvaluate.
Local Open Scope Z_scope.
Local Open Scope string_scope.
Local Open Scope list_scope.

Definition maxScenarioRequestBytes : Z := Z.shiftl 16 20.
Definition maxScenarioResponseBytes : Z := Z.shiftl 64 20.

Class RegistryLibrary := {
  registry_exchange :: ExchangeLibrary;
  (** [url.ParseRequestURI]; [IsAbs] is a nonempty scheme. *)
  ParseRequestURI : string -> result error URL;
  (** [json.Unmarshal] into a [map[string]any]. *)
  unmarshal_map : list ascii -> result error (option object)
}.

(** ** The caller's memory *)
Definition loc := positive.
Record Heap := mkHeap { slices : gmap loc (list string); usages : gmap loc TokenUsage }.

(** A scenario whose assertion shares memory with the caller: the fields
    [asAllowedValues] and [asExpectedUsage] of [enScenario] are not used. *)
Record Entry := mkEntry { enScenario : Scenario; enAllowed : option loc; enUsage : option loc }.

Definition set_assertion (a : AssertionSpec) (s : Scenario) : Scenario :=
  mkScenario (snPlanDigest s) (snID s) (snDriver s) (snProtocol s) (snMethod s) (snPath s) (snHeaders s)
    (snBody s) (snStreaming s) (snExpectedStatus s) (snBudget s) a.
Definition set_request (body : list ascii) (headers : Header) (s : Scenario) : Scenario :=
  mkScenario (snPlanDigest s) (snID s) (snDriver s) (snProtocol s) (snMethod s) (snPath s) headers
    body (snStreaming s) (snExpectedStatus s) (snBudget s) (snAssertion s).

(** The scenario that the entry stands for now; a nil slice is empty. *)
Definition view (heap : Heap) (entry : Entry) : Scenario :=
  let a := snAssertion (enScenario entry) in
  set_assertion
    (mkAssertionSpec (asAssertionID a) (asRequirementID a) (asRole a) (asOracle a) (asEvaluatorDigest a) (asCheck a)
       (default [] (enAllowed entry ≫= fun l => slices heap !! l))
       (enUsage entry ≫= fun l => usages heap !! l))
    (enScenario entry).

(** ** Validation *)
Definition header_chars : string := "!#$%&'*+-.^_`|~".

(** The comparison with [strings.ToUpper] only refuses what the loop
    refuses: the loop admits no letter that has another upper case. *)
Definition validHTTPMethod (method : string) : bool :=
  bool_decide (method ≠ "") &&
  string_all (fun c => is_upper c || is_digit c || is_one_of header_chars c) method.

Definition validHeaderName (name : string) : bool :=
  bool_decide (name ≠ "") && string_all (fun c => is_alnum c || is_one_of header_chars c) name.

Definition controlled_headers : list string :=
  ["host"; "content-length"; "transfer-encoding"; "connection"; "proxy-connection"; "upgrade"].

Definition check_kinds : list CheckKind :=
  [CheckArgumentsString; CheckOutputIndexes; CheckStreamingToolCall; CheckFinishReason; CheckTerminalEvent;
   CheckStableToolCallID; CheckNoUnknownEvent; CheckClosedReasoning; CheckUsageConsistent; CheckValidUTF8;
   CheckRequiredEnvelope; CheckStreamMediaType; CheckNoPostTerminal].
Definition stream_checks : list CheckKind :=
  [CheckOutputIndexes; CheckStreamingToolCall; CheckTerminalEvent; CheckStableToolCallID; CheckNoUnknownEvent;
   CheckClosedReasoning; CheckValidUTF8; CheckStreamMediaType; CheckNoPostTerminal].

(** The loop over [AllowedValues], with the set of the values seen. *)
Definition allowed_check (value : string) : GoM (gset string) error unit :=
  fail_if (TrimSpace value = "") (ErrorNew (Text "allowed finish reasons cannot be empty"));;
  seen ← get;
  fail_if (value ∈ seen) (ErrorNew (Text "allowed finish reasons must be unique"));;
  put ({[value]} ∪ seen).

Definition usage_check (expected : option TokenUsage) : result error unit :=
  match expected with
  | None => Err (ErrorNew (Text "usage assertion requires a nonnegative exact expectation"))
  | Some u =>
      err_if (tuInput u < 0 ∨ tuOutput u < 0 ∨ from_option (fun t => bool_decide (t < 0)) false (tuTotal u) = true)
        (ErrorNew (Text "usage assertion requires a nonnegative exact expectation"));;
      err_if (is_Some (tuTotal u) ∧ tuTotal u ≠ Some (int64_wrap (tuInput u + tuOutput u)))
        (ErrorNew (Text "expected usage total must equal input plus output"))
  end.

Definition validateAssertion (assertion : AssertionSpec) : result error unit :=
  err_if (TrimSpace (asAssertionID assertion) = "") (ErrorNew (Text "assertion ID is required"));;
  err_if (asRole assertion ≠ AssertionNormative ∨ TrimSpace (asRequirementID assertion) = "")
    (ErrorNew (Text "raw-driver assertions must be normative and cite a requirement ID"));;
  wrap (Wrapf (Text "oracle pin: %w")) (ArtifactPin_Validate (asOracle assertion));;
  wrap (Wrapf (Text "evaluator digest: %w")) (Digest_Validate (asEvaluatorDigest assertion));;
  err_if (asCheck assertion ∉ check_kinds)
    (ErrorNew (Sprintf "unsupported assertion check %q" [FStr (asCheck assertion)]));;
  err_if (asCheck assertion = CheckFinishReason ∧ length (asAllowedValues assertion) = 0%nat)
    (ErrorNew (Text "finish-reason assertion requires allowed values"));;
  (for_eachM allowed_check (asAllowedValues assertion) ∅).1;;
  (if decide (asCheck assertion = CheckUsageConsistent) then usage_check (asExpectedUsage assertion) else mret tt).

Definition validateAssertionApplicability (protocol : Protocol) (streaming : bool) (check : CheckKind)
    : result error unit :=
  err_if (check ∈ stream_checks ∧ streaming = false)
    (ErrorNew (Sprintf "assertion check %q requires a streaming scenario" [FStr check]));;
  err_if (check = CheckOutputIndexes ∧ protocol ≠ ProtocolOpenAIResponses)
    (ErrorNew (Text "output-index assertion requires the OpenAI Responses protocol"));;
  err_if (check = CheckClosedReasoning ∧ protocol = ProtocolOpenAIChat)
    (ErrorNew (Text "closed-reasoning assertion is not defined for OpenAI Chat"));;
  err_if (check = CheckRequiredEnvelope ∧ streaming = true)
    (ErrorNew (Text "required-response-envelope assertion requires a non-streaming scenario")).

Definition validateDecision (decision : ScenarioDecision) : result error unit :=
  err_if (Disposition decision ≠ DispositionExecute)
    (ErrorNew (Text "raw driver only estimates executable scenario decisions"));;
  err_if (TrimSpace (ScenarioID decision) = "") (ErrorNew (Text "scenario decision ID is required"));;
  wrap (Wrapf (Text "scenario driver: %w")) (ArtifactPin_Validate (Driver decision)).

(** [path.Clean] of a rooted path. *)
Fixpoint split_slash (s : string) (current : string) : list string :=
  match s with
  | EmptyString => [current]
  | String c s' => if is_byte 47 c then current :: split_slash s' "" else split_slash s' (current +:+ String c "")
  end.
Definition clean_component (stack : list string) (component : string) : list string :=
  if decide (component = "" ∨ component = ".") then stack
  else if decide (component = "..") then tail stack
  else component :: stack.
Definition path_Clean (p : string) : string :=
  "/" +:+ String.concat "/" (rev (foldl clean_component [] (split_slash p ""))).

(** [registryKey] and [decisionKey]; a pin is the tuple of its fields. *)
Abbreviation registryKey := (Digest * string)%type.
Abbreviation decisionKey := (string * (string * string * string * Digest))%type.

Section Registry.
Context {lib : RegistryLibrary} {ro : RangeOrder string (list string)}.

Definition header_check (name : string) (values : list string) : result error unit :=
  err_if (validHeaderName name = false) (ErrorNew (Sprintf "invalid request header name %q" [FStr name]));;
  err_if (ToLower name ∈ controlled_headers)
    (ErrorNew (Sprintf "request header %q is controlled by the origin-bound transport" [FStr name]));;
  for_each (fun value => err_if (string_any (fun c => is_byte 13 c || is_byte 10 c || is_byte 0 c) value = true)
    (ErrorNew (Sprintf "request header %q contains a forbidden control character" [FStr name]))) values.

Definition validateHeaders (headers : Header) : result error unit :=
  for_each (fun '(name, values) => header_check name values) (range headers).

Definition request_path_check (p : string) : result error unit :=
  let refused := ErrorNew (Text "request path must be an origin-free absolute-path reference") in
  parsed ← wrap (fun _ => refused) (ParseRequestURI p);
  err_if (Scheme parsed ≠ "" ∨ Host parsed ≠ "" ∨ HasUser parsed = true ∨ Fragment parsed ≠ "" ∨
          RawQuery parsed ≠ "" ∨ HasPrefix (URLPath parsed) "/" = false) refused;;
  err_if (Contains (URLPath parsed) "\" = true ∨ path_Clean (URLPath parsed) ≠ URLPath parsed)
    (ErrorNew (Text "request path must be canonical")).

(** Whether the request asks for a stream. *)
Definition wire_streaming (request : option object) : result error bool :=
  match request ≫= lookup_entry "stream" with
  | None => mret false
  | Some (JBool b) => mret b
  | Some _ => Err (ErrorNew (Text "request stream field must be boolean"))
  end.

Definition request_body (body : list ascii) (streaming : bool) : result error (list ascii) :=
  canonical ← wrap (Wrapf (Text "request body: %w")) (@CanonicalizeJSON document_json body);
  let refused := ErrorNew (Text "request body must be a JSON object") in
  requestObject ← wrap (fun _ => refused) (unmarshal_map canonical);
  err_if (requestObject = None) refused;;
  wireStreaming ← wire_streaming requestObject;
  err_if (wireStreaming ≠ streaming)
    (ErrorNew (Text "scenario streaming mode does not match its request body"));;
  mret canonical.

Definition default_content_type (headers : Header) : Header :=
  if decide (header_Get headers "Content-Type" = "")
  then <["Content-Type" := ["application/json; charset=utf-8"]]> headers else headers.

(** [validateAndCloneScenario]: the body becomes canonical and a content type
    is set; everything else is as in [input]. *)
Definition validateAndCloneScenario (input : Scenario) : result error Scenario :=
  wrap (Wrapf (Text "plan digest: %w")) (Digest_Validate (snPlanDigest input));;
  err_if (TrimSpace (snID input) = "") (ErrorNew (Text "scenario ID is required"));;
  wrap (Wrapf (Text "driver: %w")) (ArtifactPin_Validate (snDriver input));;
  err_if (snProtocol input ∉ [ProtocolOpenAIChat; ProtocolOpenAIResponses; ProtocolAnthropic])
    (ErrorNew (Sprintf "unsupported protocol %q" [FStr (snProtocol input)]));;
  err_if (validHTTPMethod (snMethod input) = false)
    (ErrorNew (Text "HTTP method must be a canonical uppercase token"));;
  request_path_check (snPath input);;
  canonical ← request_body (snBody input) (snStreaming input);
  let budget := snBudget input in
  err_if (bbRequestBytes budget <= 0 ∨ bbResponseBytes budget <= 0)
    (ErrorNew (Text "positive request and response body budgets are required"));;
  err_if (bbRequestBytes budget > maxScenarioRequestBytes ∨ bbResponseBytes budget > maxScenarioResponseBytes)
    (ErrorNew (Text "scenario body budget exceeds the built-in raw-driver safety ceiling"));;
  err_if (Z.of_nat (length canonical) > bbRequestBytes budget)
    (ErrorNew (Text "canonical request body exceeds the scenario request budget"));;
  err_if (snExpectedStatus input < 100 ∨ snExpectedStatus input > 599)
    (ErrorNew (Text "expected HTTP status must be between 100 and 599"));;
  validateAssertion (snAssertion input);;
  validateAssertionApplicability (snProtocol input) (snStreaming input) (asCheck (snAssertion input));;
  validateHeaders (snHeaders input);;
  mret (set_request canonical (default_content_type (snHeaders input)) input).

Definition estimateFor (scenario : Scenario) : Usage :=
  let envelopeAllowance := Z.shiftl 64 10 in
  let body := Z.of_nat (length (snBody scenario)) in
  mkUsage 1 body (bbResponseBytes (snBudget scenario))
    (int64_wrap (body + 16 * bbResponseBytes (snBudget scenario) + envelopeAllowance)) 0 0
    (match requestedOutputLimit scenario with Some (_, limit) => limit | None => 0 end).

(** ** The registry *)

Definition pin_key (p : ArtifactPin) : string * string * string * Digest :=
  (pinKind p, pinName p, pinVersion p, pinDigest p).
Definition decision_of (s : Scenario) : decisionKey := (snID s, pin_key (snDriver s)).
Definition key_of (s : Scenario) : registryKey := (snPlanDigest s, snID s).

Record MemoryRegistry := mkRegistry {
  byPlan : gmap registryKey Entry;
  byDecision : gmap decisionKey (list registryKey)
}.
Definition empty_registry : MemoryRegistry := mkRegistry ∅ ∅.

(** The caller's memory beside the registry. *)
Record RegistryWorld := mkRegistryWorld { rwHeap : Heap; rwRegistry : MemoryRegistry }.
Definition RegM := GoM RegistryWorld error.

Definition set_registry (r : MemoryRegistry) (w : RegistryWorld) : RegistryWorld := mkRegistryWorld (rwHeap w) r.

(** The body and the headers that validation cloned; the assertion is still
    shared. *)
Definition clone_request (scenario : Scenario) (input : Entry) : Entry :=
  mkEntry (set_request (snBody scenario) (snHeaders scenario) (enScenario input)) (enAllowed input) (enUsage input).

Definition Register (input : Entry) : RegM unit :=
  w ← get;
  scenario ← lift (validateAndCloneScenario (view (rwHeap w) input));
  let key := key_of scenario in
  let decision := decision_of scenario in
  let registry := rwRegistry w in
  fail_if (is_Some (byPlan registry !! key))
    (ErrorNew (Sprintf "scenario %q is already registered for plan %s" [FStr (snID scenario); FStr (snPlanDigest scenario)]));;
  modify (set_registry (mkRegistry (<[key := clone_request scenario input]> (byPlan registry))
    (<[decision := default [] (byDecision registry !! decision) ++ [key]]> (byDecision registry)))).

Definition NewMemoryRegistry (inputs : list Entry) : RegM unit :=
  modify (set_registry empty_registry);;
  for_eachM Register inputs.

Definition Estimate (decision : ScenarioDecision) (w : RegistryWorld) : result error Usage :=
  validateDecision decision;;
  match default [] (byDecision (rwRegistry w) !! (ScenarioID decision, pin_key (Driver decision))) with
  | [] => Err (ErrorNew (Text "scenario decision is absent from the registry"))
  | [key] =>
      match byPlan (rwRegistry w) !! key with
      | Some entry => mret (estimateFor (view (rwHeap w) entry))
      | None => mret (mkUsage 1 0 0 (Z.shiftl 64 10) 0 0 0)
      end
  | _ => Err (ErrorNew (Text "scenario decision is ambiguous across plan digests"))
  end.

Definition Lookup (planDigest : Digest) (decision : ScenarioDecision) (w : RegistryWorld) : result error Scenario :=
  wrap (Wrapf (Text "plan digest: %w")) (Digest_Validate planDigest);;
  validateDecision decision;;
  match byPlan (rwRegistry w) !! (planDigest, ScenarioID decision) with
  | None => Err (ErrorNew (Text "scenario is not registered under the approved plan digest"))
  | Some entry =>
      err_if (snDriver (enScenario entry) ≠ Driver decision)
        (ErrorNew (Text "scenario driver pin does not match the registered request"));;
      mret (view (rwHeap w) entry)
  end.

(** The zeroed bodies and emptied headers are dropped with the entries. *)
Definition Clear : RegM unit := modify (set_registry empty_registry).
End Registry.
