(* ===== verification/RawRegistrySpec.v ===== *)
(** * What the scenario registry guarantees

    The index by decision is exactly the inverse of the primary map, so an
    estimate is about the one scenario that a lookup would return; a
    registered scenario is returned as it was validated as long as the caller
    does not write to the memory that the registry still shares with it. *)
From Stdlib Require Import ZArith Ascii String Lia.
From stdpp Require Import base gmap sets list strings.
From S2P Require Import Prelude Schema Results Canonical Documents OracleSchema Normalizer Budget RawJSON.
From S2P Require Import RawEvaluate RawRegistry.
Local Open Scope Z_scope.
Local Open Scope string_scope.
Local Open Scope list_scope.

Section Spec.
Context {lib : RegistryLibrary} {ro : RangeOrder string (list string)}.

(** ** Histories *)
Inductive RegistryOp :=
| OpRegister (input : Entry)
| OpClear
| OpWriteSlice (l : loc) (values : list string)
| OpWriteUsage (l : loc) (usage : TokenUsage).

Definition set_heap (h : Heap) (w : RegistryWorld) : RegistryWorld := mkRegistryWorld h (rwRegistry w).

Definition registry_step (w : RegistryWorld) (op : RegistryOp) : RegistryWorld :=
  match op with
  | OpRegister input => (Register input w).2
  | OpClear => (Clear w).2
  | OpWriteSlice l values => set_heap (mkHeap (<[l := values]> (slices (rwHeap w))) (usages (rwHeap w))) w
  | OpWriteUsage l usage => set_heap (mkHeap (slices (rwHeap w)) (<[l := usage]> (usages (rwHeap w)))) w
  end.
Definition registry_run (w : RegistryWorld) (ops : list RegistryOp) : RegistryWorld := foldl registry_step w ops.
Definition fresh_world (h : Heap) : RegistryWorld := mkRegistryWorld h empty_registry.

(** ** Registration *)
Lemma view_clone heap input scenario :
  validateAndCloneScenario (view heap input) = Ok scenario ->
  view heap (clone_request scenario input) = scenario.
Proof.
  unfold validateAndCloneScenario. intros H. do 6 apply bind_Ok in H as ([] & _ & H).
  apply bind_Ok in H as (canonical & _ & H). do 7 apply bind_Ok in H as ([] & _ & H).
  by injection H as <-.
Qed.

(** What validation established about the body and the budget. *)
Record admitted (scenario : Scenario) : Prop := {
  adm_plan : Digest_Validate (snPlanDigest scenario) = Ok tt;
  adm_object : exists m, unmarshal_map (snBody scenario) = Ok (Some m);
  adm_body : Z.of_nat (length (snBody scenario)) <= bbRequestBytes (snBudget scenario) <= maxScenarioRequestBytes;
  adm_response : 0 < bbResponseBytes (snBudget scenario) <= maxScenarioResponseBytes
}.

Lemma request_body_ok body streaming canonical : request_body body streaming = Ok canonical ->
  exists m, unmarshal_map canonical = Ok (Some m).
Proof.
  unfold request_body. intros H. apply bind_Ok in H as (c & _ & H). apply bind_Ok in H as (o & Ho%wrap_ok & H).
  apply bind_Ok in H as ([] & Hn%err_if_ok & H). apply bind_Ok in H as (b & _ & H).
  apply bind_Ok in H as ([] & _ & H). injection H as <-. destruct o as [m|]; [by exists m|done].
Qed.

Lemma validated_admitted input scenario : validateAndCloneScenario input = Ok scenario ->
  admitted scenario ∧ key_of scenario = key_of input ∧ decision_of scenario = decision_of input.
Proof.
  unfold validateAndCloneScenario. intros H. apply bind_Ok in H as ([] & H1%wrap_ok & H).
  do 5 apply bind_Ok in H as ([] & _ & H). apply bind_Ok in H as (canonical & H2%request_body_ok & H).
  apply bind_Ok in H as ([] & H3%err_if_ok & H). apply bind_Ok in H as ([] & H4%err_if_ok & H).
  apply bind_Ok in H as ([] & H5%err_if_ok & H). do 4 apply bind_Ok in H as ([] & _ & H). injection H as <-.
  split; [|done]. split; [done|done|cbn; lia|cbn; lia].
Qed.

Lemma validated_budget input scenario : validateAndCloneScenario input = Ok scenario ->
  snBudget scenario = snBudget input.
Proof.
  unfold validateAndCloneScenario. intros H. repeat apply bind_Ok in H as (? & _ & H). by injection H as <-.
Qed.

(** A registered entry reads as an admitted scenario, whatever the caller
    writes. *)
Definition sound_entry (key : registryKey) (e : Entry) : Prop :=
  key_of (enScenario e) = key ∧ forall heap, admitted (view heap e).

Lemma admitted_view heap heap' e : admitted (view heap e) -> admitted (view heap' e).
Proof. intros [H1 H2 H3 H4]. by split. Qed.

Lemma Register_cases input w :
  (exists e, Register input w = (Err e, w)) ∨
  (exists scenario, validateAndCloneScenario (view (rwHeap w) input) = Ok scenario ∧
     byPlan (rwRegistry w) !! key_of scenario = None ∧
     Register input w = (Ok tt, set_registry
       (mkRegistry (<[key_of scenario := clone_request scenario input]> (byPlan (rwRegistry w)))
          (<[decision_of scenario := default [] (byDecision (rwRegistry w) !! decision_of scenario) ++ [key_of scenario]]>
             (byDecision (rwRegistry w)))) w)).
Proof.
  unfold Register, mbind, gom_bind, get, lift. cbn.
  destruct (validateAndCloneScenario (view (rwHeap w) input)) as [scenario|e]; [|by left; exists e].
  unfold fail_if. case_decide as Hs; [left; by eexists|right]. exists scenario.
  split_and!; [done|by apply eq_None_not_Some|done].
Qed.

(** ** The index *)
Definition indexed (r : MemoryRegistry) (d : decisionKey) : list registryKey := default [] (byDecision r !! d).

Record registry_inv (r : MemoryRegistry) : Prop := {
  ri_sound : map_Forall sound_entry (byPlan r);
  ri_index : forall d key, key ∈ indexed r d <-> exists e, byPlan r !! key = Some e ∧ decision_of (enScenario e) = d;
  ri_unique : forall d, NoDup (indexed r d)
}.

Lemma empty_registry_inv : registry_inv empty_registry.
Proof.
  split; [apply map_Forall_empty| |by intros d; constructor].
  intros d key. unfold indexed. cbn. rewrite lookup_empty. split; [by intros H%elem_of_nil|].
  intros (e & H & _). by rewrite lookup_empty in H.
Qed.

Lemma Register_inv input w : registry_inv (rwRegistry w) -> registry_inv (rwRegistry (Register input w).2).
Proof.
  intros I. destruct (Register_cases input w) as [(e & ->)|(scenario & Hv & Hn & ->)]; [done|]. cbn.
  destruct (validated_admitted _ _ Hv) as (Ha & Ek & Ed).
  assert (key_of (enScenario (clone_request scenario input)) = key_of scenario) as Ek' by (rewrite Ek; done).
  assert (decision_of (enScenario (clone_request scenario input)) = decision_of scenario) as Ed' by (rewrite Ed; done).
  destruct I as [I1 I2 I3]. split.
  - cbn. apply map_Forall_insert_2; [|done]. split; [done|]. intros heap.
    apply (admitted_view (rwHeap w)). by rewrite (view_clone _ _ _ Hv).
  - intros d key. unfold indexed. cbn. destruct (decide (d = decision_of scenario)) as [->|Hd].
    + rewrite lookup_insert_eq. cbn [default]. fold (indexed (rwRegistry w) (decision_of scenario)).
      cbn. rewrite elem_of_app, list_elem_of_singleton, I2. split.
      * intros [(e & He & Hde)| ->]; [|exists (clone_request scenario input); by rewrite lookup_insert_eq].
        exists e. rewrite lookup_insert_ne; [done|congruence].
      * intros (e & He & Hde). destruct (decide (key = key_of scenario)) as [->|Hk]; [by right|].
        rewrite lookup_insert_ne in He by done. left. by exists e.
    + rewrite lookup_insert_ne by done. fold (indexed (rwRegistry w) d). rewrite I2. split.
      * intros (e & He & Hde). exists e. rewrite lookup_insert_ne; [done|congruence].
      * intros (e & He & Hde). destruct (decide (key = key_of scenario)) as [->|Hk].
        { rewrite lookup_insert_eq in He. injection He as <-. congruence. }
        rewrite lookup_insert_ne in He by done. by exists e.
  - intros d. unfold indexed. cbn. destruct (decide (d = decision_of scenario)) as [->|Hd].
    + rewrite lookup_insert_eq. cbn. apply NoDup_app. split_and!; [apply I3| |apply NoDup_singleton].
      intros key Hin ->%list_elem_of_singleton. apply I2 in Hin as (e & He & _). congruence.
    + rewrite lookup_insert_ne by done. apply I3.
Qed.

Lemma registry_run_inv ops : forall w, registry_inv (rwRegistry w) -> registry_inv (rwRegistry (registry_run w ops)).
Proof.
  induction ops as [|op ops IH]; intros w I; [done|]. apply IH.
  destruct op; cbn; [by apply Register_inv|apply empty_registry_inv|done|done].
Qed.

(** ** Lookups *)
Lemma pin_key_inj p q : pin_key p = pin_key q -> p = q.
Proof. destruct p, q. by intros [= -> -> -> ->]. Qed.

Lemma Lookup_ok plan decision w scenario : registry_inv (rwRegistry w) ->
  Lookup plan decision w = Ok scenario <->
  validateDecision decision = Ok tt ∧ exists e, byPlan (rwRegistry w) !! (plan, ScenarioID decision) = Some e ∧
    snDriver (enScenario e) = Driver decision ∧ scenario = view (rwHeap w) e.
Proof.
  intros [I1 _ _]. unfold Lookup. split.
  - intros H. apply bind_Ok in H as ([] & _ & H). apply bind_Ok in H as ([] & H2 & H).
    destruct (byPlan _ !! _) as [e|]; [|done]. apply bind_Ok in H as ([] & H3%err_if_ok%dec_stable & H).
    injection H as <-. split; [done|]. by exists e.
  - intros (H1 & e & He & Hd & ->). destruct (I1 _ _ He) as [Hk Ha]. injection Hk as Hp Hid.
    destruct (Ha (rwHeap w)) as [Hdig _ _ _]. cbn in Hdig. rewrite Hp in Hdig.
    rewrite Hdig, H1, He. cbn. unfold err_if. rewrite decide_False; [done|]. intros Hne. by apply Hne.
Qed.

Lemma indexed_driver w decision key : registry_inv (rwRegistry w) ->
  key ∈ indexed (rwRegistry w) (ScenarioID decision, pin_key (Driver decision)) <->
  exists e, byPlan (rwRegistry w) !! key = Some e ∧ key.2 = ScenarioID decision ∧
    snDriver (enScenario e) = Driver decision.
Proof.
  intros [I1 I2 _]. rewrite I2. split; intros (e & He & H); exists e; destruct (I1 _ _ He) as [Hk _]; subst key.
  - assert (snID (enScenario e) = ScenarioID decision ∧ pin_key (snDriver (enScenario e)) = pin_key (Driver decision))
      as [H1 H2%pin_key_inj] by (split; [exact (f_equal fst H)|exact (f_equal snd H)]). by cbn.
  - destruct H as [H1 H2]. cbn in H1. split; [done|]. unfold decision_of. by rewrite H1, H2.
Qed.

Lemma requestedOutputLimit_positive scenario name limit :
  requestedOutputLimit scenario = Some (name, limit) -> limit > 0.
Proof.
  unfold requestedOutputLimit. intros H. cbn zeta in H.
  destruct (decodeObject (snBody scenario)) as [request|e]; [|repeat case_decide; done].
  assert (forall n, match integerValue (field request n) with
    | Some limit => if decide (limit > 0) then Some (n, limit) else None | None => None end = Some (name, limit) ->
    limit > 0) as Hn.
  { intros n Hn. destruct (integerValue (field request n)) as [l|]; [|done]. case_decide; [by simplify_eq|done]. }
  repeat case_decide; eauto. done.
Qed.

Lemma estimate_bounds scenario : admitted scenario -> (forall o, unmarshal_map [] <> Ok o) ->
  Usage_Validate (estimateFor scenario) = Ok tt ∧ Requests (estimateFor scenario) = 1 ∧
  0 < RequestBytes (estimateFor scenario) <= maxScenarioRequestBytes ∧
  0 < ResponseBytes (estimateFor scenario) <= maxScenarioResponseBytes ∧
  0 < ArtifactBytes (estimateFor scenario) ∧ Processes (estimateFor scenario) = 0.
Proof.
  intros [_ [m Hm] H3 H4] Hempty.
  assert (snBody scenario <> []) as Hne by (intros E; rewrite E in Hm; by eapply Hempty).
  assert (0 < Z.of_nat (length (snBody scenario))) as Hpos by (destruct (snBody scenario); [done|cbn; lia]).
  unfold maxScenarioRequestBytes, maxScenarioResponseBytes in *.
  assert (0 <= match requestedOutputLimit scenario with Some (_, limit) => limit | None => 0 end) as Hout.
  { destruct (requestedOutputLimit scenario) as [[name limit]|] eqn:E; [|lia]. apply requestedOutputLimit_positive in E. lia. }
  unfold estimateFor, Usage_Validate, err_if. cbn [Requests RequestBytes ResponseBytes ArtifactBytes Processes InputTokens OutputTokens].
  change (Z.shiftl 64 10) with 65536. change (Z.shiftl 64 20) with 67108864 in *. change (Z.shiftl 16 20) with 16777216 in *.
  rewrite int64_wrap_id by (unfold int64_range, int64_min, int64_max; lia).
  rewrite decide_False by lia. split; [done|]. lia.
Qed.

Lemma Estimate_ok w decision usage : registry_inv (rwRegistry w) ->
  Estimate decision w = Ok usage <->
  exists plan scenario, Lookup plan decision w = Ok scenario ∧ usage = estimateFor scenario ∧
    forall plan' scenario', Lookup plan' decision w = Ok scenario' -> plan' = plan.
Proof.
  intros I. setoid_rewrite (Lookup_ok _ _ _ _ I). unfold Estimate.
  pose proof (fun key => indexed_driver w decision key) as Hi.
  pose proof (ri_unique _ I (ScenarioID decision, pin_key (Driver decision))) as Hu.
  change (default [] (byDecision (rwRegistry w) !! _))
    with (indexed (rwRegistry w) (ScenarioID decision, pin_key (Driver decision))).
  revert Hi Hu. generalize (indexed (rwRegistry w) (ScenarioID decision, pin_key (Driver decision))).
  intros keys Hi Hu. split.
  - intros H. apply bind_Ok in H as ([] & Hd & H).
    destruct keys as [|key [|key2 keys]]; [done| |done].
    destruct (proj1 (Hi key I)) as (e & He & Hid & Hdr); [by left|]. rewrite He in H. injection H as <-.
    exists key.1, (view (rwHeap w) e). destruct key as [plan id]. cbn in Hid. subst id.
    split_and!; [done|by exists e|done|]. intros plan' sc' (_ & e' & He' & Hdr' & _).
    assert ((plan', ScenarioID decision) ∈ [(plan, ScenarioID decision)]) as [= ->]%list_elem_of_singleton; [|done].
    apply Hi; [done|]. by exists e'.
  - intros (plan & sc & (Hd & e & He & Hdr & ->) & -> & Honly). rewrite Hd. cbn.
    assert (forall key, key ∈ keys -> key = (plan, ScenarioID decision)) as Hall.
    { intros [plan' id'] (e' & He' & Hid & Hdr')%Hi; [|done]. cbn in Hid. subst id'. f_equal.
      eapply Honly. split; [done|]. by exists e'. }
    assert ((plan, ScenarioID decision) ∈ keys) as Hin by (apply Hi; [done|by exists e]).
    destruct keys as [|k1 [|k2 keys]]; [by apply elem_of_nil in Hin| |].
    + rewrite (Hall k1), He by (by left). done.
    + apply NoDup_cons in Hu as [Hu _]. destruct Hu. rewrite (Hall k1), (Hall k2) by (by repeat constructor). by left.
Qed.

Lemma Lookup_admitted w plan decision scenario : registry_inv (rwRegistry w) ->
  Lookup plan decision w = Ok scenario -> admitted scenario.
Proof.
  intros I Hl. apply (Lookup_ok _ _ _ _ I) in Hl as (_ & e & He & _ & ->). by apply (ri_sound _ I _ _ He).
Qed.

(** An estimate is about exactly the scenario that would run: after any
    registrations, clearings and writes of the caller, [Estimate] answers for
    a decision exactly when one plan digest has a scenario that [Lookup]
    returns for it, with the usage of that scenario; and such an estimate is
    a valid bounded estimate of a single request. *)
Theorem estimates_are_for_the_one_scenario heap ops decision usage
    (Hempty : forall o, unmarshal_map [] <> Ok o) :
  let w := registry_run (fresh_world heap) ops in
  (Estimate decision w = Ok usage <->
     exists plan scenario, Lookup plan decision w = Ok scenario ∧ usage = estimateFor scenario ∧
       forall plan' scenario', Lookup plan' decision w = Ok scenario' -> plan' = plan) ∧
  (Estimate decision w = Ok usage ->
     Usage_Validate usage = Ok tt ∧ Requests usage = 1 ∧ 0 < RequestBytes usage <= maxScenarioRequestBytes ∧
     0 < ResponseBytes usage <= maxScenarioResponseBytes ∧ 0 < ArtifactBytes usage ∧ Processes usage = 0).
Proof.
  intros w. assert (registry_inv (rwRegistry w)) as I by apply registry_run_inv, empty_registry_inv.
  pose proof (Estimate_ok w decision usage I) as H. split; [exact H|]. intros (plan & sc & Hl & -> & _)%H.
  apply estimate_bounds; [|done]. by eapply Lookup_admitted.
Qed.

(** ** Shared memory *)

(** The part of a scenario that is the registry's own. *)
Definition same_but_shared (a b : Scenario) : Prop :=
  exists values usage, b = set_assertion
    (mkAssertionSpec (asAssertionID (snAssertion a)) (asRequirementID (snAssertion a)) (asRole (snAssertion a))
       (asOracle (snAssertion a)) (asEvaluatorDigest (snAssertion a)) (asCheck (snAssertion a)) values usage) a.

Definition writes (op : RegistryOp) (e : Entry) : Prop :=
  match op with
  | OpWriteSlice l _ => enAllowed e = Some l
  | OpWriteUsage l _ => enUsage e = Some l
  | _ => False
  end.

Lemma registry_step_keeps op w key e : op <> OpClear -> byPlan (rwRegistry w) !! key = Some e ->
  byPlan (rwRegistry (registry_step w op)) !! key = Some e ∧
  (~ writes op e -> view (rwHeap (registry_step w op)) e = view (rwHeap w) e).
Proof.
  intros Hop He. destruct op as [input| |l values|l usage]; [|done| |]; cbn [registry_step].
  - destruct (Register_cases input w) as [(x & ->)|(sc & _ & Hn & ->)]; [done|]. cbn.
    split; [|done]. rewrite lookup_insert_ne; [done|congruence].
  - cbn. split; [done|]. intros Hw. unfold view. cbn. destruct (enAllowed e) as [l'|]; [|done]. cbn.
    rewrite lookup_insert_ne; [done|congruence].
  - cbn. split; [done|]. intros Hw. unfold view. cbn. destruct (enUsage e) as [l'|]; [|done]. cbn.
    rewrite lookup_insert_ne; [done|congruence].
Qed.

Lemma registry_run_keeps ops : forall w key e, OpClear ∉ ops -> byPlan (rwRegistry w) !! key = Some e ->
  byPlan (rwRegistry (registry_run w ops)) !! key = Some e ∧
  ((forall op, op ∈ ops -> ~ writes op e) -> view (rwHeap (registry_run w ops)) e = view (rwHeap w) e).
Proof.
  induction ops as [|op ops IH]; intros w key e Hc He; [done|].
  destruct (registry_step_keeps op w key e) as [H1 H2]; [set_solver|done|].
  destruct (IH (registry_step w op) key e) as [H3 H4]; [set_solver|done|].
  split; [exact H3|]. intros Hw. cbn. change (foldl registry_step (registry_step w op) ops) with (registry_run (registry_step w op) ops).
  rewrite H4 by set_solver. apply H2. set_solver.
Qed.

(** A registered scenario stays registered: once [Register] accepted a
    scenario, every later lookup of its plan, identifier and driver returns
    it, until the registry is cleared, whatever is registered in between.
    All of it is as it was validated, except the allowed values and the
    expected usage of the assertion, which are those that the caller's
    memory holds at the time of the lookup; they are as validated if the
    caller did not write there. *)
Theorem registered_scenarios_are_returned w ops input scenario decision
    (Hinv : registry_inv (rwRegistry w))
    (Hvalid : validateAndCloneScenario (view (rwHeap w) input) = Ok scenario)
    (Hregister : (Register input w).1 = Ok tt)
    (Hclear : OpClear ∉ ops)
    (Hdecision : validateDecision decision = Ok tt)
    (Hid : ScenarioID decision = snID scenario) (Hdriver : Driver decision = snDriver scenario) :
  exists found, Lookup (snPlanDigest scenario) decision (registry_run (Register input w).2 ops) = Ok found ∧
    same_but_shared scenario found ∧
    ((forall op, op ∈ ops -> ~ writes op input) -> found = scenario).
Proof.
  destruct (Register_cases input w) as [(e & E)|(sc & Hv & Hn & E)]; rewrite E in *; [done|]. cbn [snd].
  assert (sc = scenario) as -> by congruence.
  set (w1 := set_registry _ w). pose proof (Register_inv input w Hinv) as I1. rewrite E in I1. fold w1 in I1. cbn [snd] in I1.
  destruct (registry_run_keeps ops w1 (key_of scenario) (clone_request scenario input)) as [H1 H2];
    [done|cbn; by rewrite lookup_insert_eq|].
  pose proof (registry_run_inv ops w1 I1) as I2. pose proof (view_clone _ _ _ Hv) as Hview.
  exists (view (rwHeap (registry_run w1 ops)) (clone_request scenario input)). split_and!.
  - apply (Lookup_ok _ _ _ _ I2). split; [done|]. exists (clone_request scenario input).
    rewrite Hid. split_and!; [done| |done]. rewrite Hdriver. by rewrite <- Hview.
  - rewrite <- Hview. eexists _, _. reflexivity.
  - intros Hw. rewrite H2; [exact Hview|]. intros op Hop. specialize (Hw op Hop). by destruct op.
Qed.
End Spec.

(** ** A concrete registry *)
#[local] Instance sample_json : JSONLibrary := {
  NewDecoder raw := mkDecoder [Delim "{"; Delim "}"] io_EOF false;
  jcs_Transform raw := Ok raw;
  Sum256 data := resize 32 "0"%char data;
  Sum256_length data := length_resize data 32 "0"%char
}.
#[local] Instance sample_documents : DocumentLibrary := {
  document_json := sample_json;
  json_Valid _ := true;
  url_Parse _ := Err (ErrorNew (Text "no URL"))
}.
#[local] Instance sample_native : NativeLibrary := {
  native_documents := sample_documents;
  unmarshal_string s := Ok s;
  decode_number _ := Ok tt
}.
#[local] Instance sample_exchange : ExchangeLibrary := {
  exchange_native := sample_native;
  exchange_any _ := Ok (JObject []);
  exchange_object _ := Ok (Some []);
  ToLower s := s;
  EqualFold s t := bool_decide (s = t);
  ParseMediaType s := Ok s
}.
#[local] Instance sample_registry_library : RegistryLibrary := {
  registry_exchange := sample_exchange;
  ParseRequestURI p := Ok (mkURL "" "" p "" "" false);
  unmarshal_map raw := match raw with [] => Err io_EOF | _ => Ok (Some []) end
}.

Definition sample_digest : Digest :=
  "sha256:0123456789abcdef0123456789abcdef0123456789abcdef0123456789abcdef".
Definition sample_pin : ArtifactPin := mkArtifactPin "Driver" "raw" "1" sample_digest.
Definition sample_assertion : AssertionSpec :=
  mkAssertionSpec "a" "r" AssertionNormative (mkArtifactPin "Oracle" "o" "1" sample_digest)
    sample_digest CheckFinishReason [] None.
Definition sample_entry : Entry :=
  mkEntry (mkScenario sample_digest "chat" sample_pin ProtocolOpenAIChat "POST" "/v1/chat/completions" ∅
             (list_ascii_of_string "{}") false 200 (mkBodyBudget 1024 4096) sample_assertion) (Some 1%positive) None.
Definition sample_heap : Heap := mkHeap {[1%positive := ["stop"]]} ∅.
Definition sample_decision : ScenarioDecision := mkScenarioDecision "chat" DispositionExecute "" sample_pin [].
Definition sample_world : RegistryWorld := registry_run (fresh_world sample_heap) [OpRegister sample_entry].

(** The registry shares the allowed values with the caller: writing to the
    slice after the registration changes what is looked up. *)
Example caller_changes_a_registered_assertion :
  exists sc, Lookup sample_digest sample_decision (registry_step sample_world (OpWriteSlice 1%positive ["length"])) = Ok sc ∧
    asAllowedValues (snAssertion sc) = ["length"].
Proof. eexists. split; [vm_compute; reflexivity|reflexivity]. Qed.

Definition sample_estimate : Usage := mkUsage 1 2 4096 131074 0 0 0.

Lemma estimates_are_for_the_one_scenario_witness :
  Estimate sample_decision sample_world = Ok sample_estimate ∧ Usage_Validate sample_estimate = Ok tt.
Proof.
  assert (Estimate sample_decision sample_world = Ok sample_estimate) as E by (vm_compute; reflexivity).
  assert (forall o, unmarshal_map [] <> Ok o) as He by (intros o H; discriminate H).
  split; [exact E|].
  exact (proj1 (proj2 (estimates_are_for_the_one_scenario sample_heap [OpRegister sample_entry] sample_decision
    sample_estimate He) E)).
Defined.

Lemma registered_scenarios_are_returned_witness :
  exists scenario found,
    validateAndCloneScenario (view sample_heap sample_entry) = Ok scenario ∧
    Lookup sample_digest sample_decision
      (registry_run (Register sample_entry (fresh_world sample_heap)).2 [OpWriteSlice 2%positive []]) = Ok found ∧
    found = scenario.
Proof.
  assert (exists scenario, validateAndCloneScenario (view sample_heap sample_entry) = Ok scenario ∧
    snPlanDigest scenario = sample_digest ∧ snID scenario = "chat" ∧ snDriver scenario = sample_pin) as (sc & Hv & Hp & Hi & Hd)
    by (eexists; split; [vm_compute; reflexivity|done]).
  destruct (registered_scenarios_are_returned (fresh_world sample_heap) [OpWriteSlice 2%positive []] sample_entry sc
              sample_decision empty_registry_inv Hv) as (found & Hf & _ & H).
  - vm_compute. reflexivity.
  - intros H%list_elem_of_singleton. discriminate.
  - vm_compute. reflexivity.
  - rewrite Hi. reflexivity.
  - rewrite Hd. reflexivity.
  - rewrite Hp in Hf. exists sc, found. split; [exact Hv|]. split; [exact Hf|]. apply H.
    intros op ->%list_elem_of_singleton. discriminate.
Defined.
