(* ===== verification/Attribution.v ===== *)
(** * internal/attribution: fault domains from control experiments

    Confidence is a decimal constant of the source, kept in hundredths. *)
From Stdlib Require Import ZArith Ascii String Lia.
From stdpp Require Import base gmap sets list strings.
From S2P Require Import Prelude Schema Results Canonical.
Local Open Scope Z_scope.
Local Open Scope string_scope.
Local Open Scope list_scope.

Definition TaxonomyVersion : string := "fault-taxonomy-v1".
Definition CalibrationVersion : string := "rules-v1".

Definition Domain := string.
Definition DomainTransport : Domain := "TRANSPORT".
Definition DomainAuth : Domain := "AUTH".
Definition DomainRequestMapping : Domain := "REQUEST_MAPPING".
Definition DomainProtocolSerializer : Domain := "PROTOCOL_SERIALIZER".
Definition DomainStreamStateMachine : Domain := "STREAM_STATE_MACHINE".
Definition DomainToolParser : Domain := "TOOL_PARSER".
Definition DomainReasoningParser : Domain := "REASONING_PARSER".
Definition DomainChatTemplate : Domain := "CHAT_TEMPLATE".
Definition DomainModelBehavior : Domain := "MODEL_BEHAVIOR".
Definition DomainSDKParser : Domain := "SDK_PARSER".
Definition DomainAgentOrchestration : Domain := "AGENT_ORCHESTRATION".
Definition DomainGatewayTranslation : Domain := "GATEWAY_TRANSLATION".
Definition DomainRateLimitTransient : Domain := "RATE_LIMIT_OR_TRANSIENT".
Definition DomainHarness : Domain := "HARNESS".
Definition DomainSpecAmbiguity : Domain := "SPEC_AMBIGUITY".
Definition DomainUnknown : Domain := "UNKNOWN_FAULT_DOMAIN".

Definition families : gmap Domain FaultFamily :=
  list_to_map
    [(DomainTransport, FaultTransport); (DomainAuth, FaultTransport);
     (DomainRateLimitTransient, FaultTransport);
     (DomainRequestMapping, FaultWire); (DomainProtocolSerializer, FaultWire);
     (DomainStreamStateMachine, FaultWire); (DomainGatewayTranslation, FaultWire);
     (DomainToolParser, FaultProtocol); (DomainReasoningParser, FaultProtocol);
     (DomainChatTemplate, FaultModel); (DomainModelBehavior, FaultModel);
     (DomainSDKParser, FaultClient); (DomainAgentOrchestration, FaultClient);
     (DomainHarness, FaultHarness);
     (DomainSpecAmbiguity, FaultUnknown); (DomainUnknown, FaultUnknown)].

(** The zero family comes with the error. *)
Definition Family (domain : Domain) : FaultFamily * option error :=
  match families !! domain with
  | None => ("", Some (ErrorNew (Sprintf "unknown fault domain %q" [FStr domain])))
  | Some family => (family, None)
  end.

Definition ValidatePair (domain : Domain) (family : FaultFamily) : result error unit :=
  match Family domain with
  | (_, Some err) => Err err
  | (expected, None) =>
      err_if (expected ≠ family)
        (ErrorNew (Sprintf "fault domain %s belongs to family %s, not %s"
                     [FStr domain; FStr expected; FStr family]))
  end.

(** A [*bool] is an [option bool]; nil is an experiment that was not run. *)
Record Evidence := mkEvidence {
  TransportReached : option bool;
  AuthenticationAccepted : option bool;
  RawWireValid : option bool;
  ReferenceAccepts : option bool;
  SDKAccepts : option bool;
  DirectAccepts : option bool;
  GatewayAccepts : option bool;
  StreamAccepts : option bool;
  NonStreamAccepts : option bool;
  ToolSyntaxValid : option bool;
  ReasoningSyntaxValid : option bool;
  HarnessHealthy : option bool;
  TransientStatus : option bool;
  SpecUnambiguous : option bool
}.

Record Result := mkResult {
  rDomain : Domain;
  rFamily : FaultFamily;
  rConfidence : Z;
  rAlternatives : list Domain;
  rEvidence : list string;
  rTaxonomy : string;
  rCalibration : string
}.

Definition isTrue (value : option bool) : bool := bool_decide (value = Some true).
Definition isFalse (value : option bool) : bool := bool_decide (value = Some false).

(** The switch: domain, confidence, reasons and alternatives. *)
Definition select (input : Evidence) : Domain * Z * list string * list Domain :=
  if isFalse (HarnessHealthy input) then
    (DomainHarness, 100, ["harness health precondition failed"], [])
  else if isFalse (SpecUnambiguous input) then
    (DomainSpecAmbiguity, 99, ["normative source has unresolved ambiguity"], [])
  else if isFalse (TransportReached input) then
    (DomainTransport, 95, ["target transport was not reached"], [])
  else if isTrue (TransportReached input) && isFalse (AuthenticationAccepted input) then
    (DomainAuth, 95, ["transport succeeded and authentication was rejected"], [])
  else if isTrue (TransientStatus input) then
    (DomainRateLimitTransient, 90,
     ["bounded observation reported a rate-limit or transient service status"], [])
  else if isTrue (RawWireValid input) && isFalse (SDKAccepts input) then
    (DomainSDKParser, 90,
     ["the same captured wire is valid to the raw decoder and rejected by the SDK"], [])
  else if isTrue (DirectAccepts input) && isFalse (GatewayAccepts input) then
    (DomainGatewayTranslation, 90,
     ["direct path accepts the same semantic exchange while the gateway path rejects it"], [])
  else if isTrue (NonStreamAccepts input) && isFalse (StreamAccepts input) then
    (DomainStreamStateMachine, 88,
     ["non-stream control passes while stream state-machine control fails"], [])
  else if isFalse (RawWireValid input) && isTrue (ReferenceAccepts input) then
    (DomainProtocolSerializer, 85,
     ["reference control accepts the scenario while captured target wire violates the checked structure"],
     [])
  else if isFalse (ToolSyntaxValid input) then
    (DomainToolParser, 80, ["tool syntax is invalid at the protocol semantic layer"],
     [DomainProtocolSerializer])
  else if isFalse (ReasoningSyntaxValid input) then
    (DomainReasoningParser, 80, ["reasoning syntax is invalid at the protocol semantic layer"],
     [DomainProtocolSerializer])
  else
    (DomainUnknown, 25, ["available evidence does not isolate a product layer"], []).

Definition Classify (input : Evidence) : Result :=
  let '(domain, confidence, reasons, alternatives) := select input in
  let '(family, _) := Family domain in
  mkResult domain family confidence alternatives reasons TaxonomyVersion CalibrationVersion.

(** The projection [Fingerprint] digests; expected and observed are redacted
    summaries of type [A]. *)
Record FingerprintInput (A : Type) := mkFingerprintInput {
  fpVersion : string;
  fpScenarioID : string;
  fpAssertionID : string;
  fpCategory : string;
  fpExpected : A;
  fpObserved : A
}.
Arguments mkFingerprintInput {A}.

Definition Fingerprint {lib : JSONLibrary} {A}
    (json_Marshal : FingerprintInput A -> result error (list ascii))
    (scenarioID assertionID category : string) (expected observed : A) : result error Digest :=
  err_if (TrimSpace scenarioID = "" ∨ TrimSpace assertionID = "" ∨ TrimSpace category = "")
    (ErrorNew (Text "scenario, assertion, and category are required"));;
  CanonicalDigest json_Marshal
    (mkFingerprintInput "failure-fingerprint-v1" scenarioID assertionID category expected observed).

(** ** Claims *)

(** The experiments that isolate a domain. *)
Definition isolates (d : Domain) (e : Evidence) : Prop :=
  (d = DomainHarness ∧ HarnessHealthy e = Some false) ∨
  (d = DomainSpecAmbiguity ∧ SpecUnambiguous e = Some false) ∨
  (d = DomainTransport ∧ TransportReached e = Some false) ∨
  (d = DomainAuth ∧ TransportReached e = Some true ∧ AuthenticationAccepted e = Some false) ∨
  (d = DomainRateLimitTransient ∧ TransientStatus e = Some true) ∨
  (d = DomainSDKParser ∧ RawWireValid e = Some true ∧ SDKAccepts e = Some false) ∨
  (d = DomainGatewayTranslation ∧ DirectAccepts e = Some true ∧ GatewayAccepts e = Some false) ∨
  (d = DomainStreamStateMachine ∧ NonStreamAccepts e = Some true ∧ StreamAccepts e = Some false) ∨
  (d = DomainProtocolSerializer ∧ RawWireValid e = Some false ∧ ReferenceAccepts e = Some true) ∨
  (d = DomainToolParser ∧ ToolSyntaxValid e = Some false) ∨
  (d = DomainReasoningParser ∧ ReasoningSyntaxValid e = Some false).

(** Attribution order: preconditions first. *)
Definition priority : list Domain :=
  [DomainHarness; DomainSpecAmbiguity; DomainTransport; DomainAuth; DomainRateLimitTransient;
   DomainSDKParser; DomainGatewayTranslation; DomainStreamStateMachine; DomainProtocolSerializer;
   DomainToolParser; DomainReasoningParser; DomainUnknown].

Definition rank (d : Domain) : nat :=
  match list_find (eq d) priority with Some (i, _) => i | None => 12 end.

Lemma isTrue_spec v : isTrue v = true <-> v = Some true.
Proof. apply bool_decide_eq_true. Qed.
Lemma isFalse_spec v : isFalse v = true <-> v = Some false.
Proof. apply bool_decide_eq_true. Qed.

(** [e'] ran at least the experiments of [e], with the same answers. *)
Definition more_evidence (e e' : Evidence) : Prop :=
  Forall (fun f : Evidence -> option bool => forall b, f e = Some b -> f e' = Some b)
    [TransportReached; AuthenticationAccepted; RawWireValid; ReferenceAccepts; SDKAccepts;
     DirectAccepts; GatewayAccepts; StreamAccepts; NonStreamAccepts; ToolSyntaxValid;
     ReasoningSyntaxValid; HarnessHealthy; TransientStatus; SpecUnambiguous].

Definition selected (e : Evidence) : Domain := (select e).1.1.1.

Lemma Classify_selected e : rDomain (Classify e) = selected e.
Proof.
  unfold Classify, selected. destruct (select e) as [[[d c] rs] alts]. by destruct (Family d).
Qed.

(** One branch of the switch at a time. *)
Ltac split_select :=
  unfold selected, select;
  repeat match goal with
  | |- context [if ?b then _ else _] => destruct b eqn:?
  end; cbn [fst].

Ltac observed :=
  repeat match goal with
  | H : (_ && _)%bool = true |- _ => apply andb_true_iff in H as [? ?]
  | H : isTrue _ = true |- _ => apply isTrue_spec in H
  | H : isFalse _ = true |- _ => apply isFalse_spec in H
  end.

Lemma selected_isolates e : selected e = DomainUnknown ∨ isolates (selected e) e.
Proof.
  split_select; [..|by left]; right; observed; unfold isolates;
    repeat first [left; repeat split; solve [reflexivity | assumption] | right];
    repeat split; solve [reflexivity | assumption].
Qed.

Lemma selected_first e d : isolates d e -> (rank (selected e) <= rank d)%nat.
Proof.
  intros H. unfold isolates in H.
  repeat match goal with
  | H : _ ∨ _ |- _ => destruct H as [H|H]
  | H : _ ∧ _ |- _ => destruct H as [H ?]
  end; subst d; unfold selected, select;
  repeat match goal with H : _ = Some _ |- _ => rewrite H; clear H end;
  change (isFalse (Some false)) with true; change (isTrue (Some true)) with true;
  change (isFalse (Some true)) with false; change (isTrue (Some false)) with false;
  cbn [andb];
  repeat match goal with |- context [if ?b then _ else _] => destruct b end;
  vm_compute; lia.
Qed.

Lemma selected_last e : (rank (selected e) <= rank DomainUnknown)%nat.
Proof. split_select; vm_compute; lia. Qed.

Lemma Classify_pair e : ValidatePair (rDomain (Classify e)) (rFamily (Classify e)) = Ok tt.
Proof.
  assert (ValidatePair (selected e) (Family (selected e)).1 = Ok tt) as H
    by (split_select; vm_compute; reflexivity).
  unfold Classify, selected in *. destruct (select e) as [[[d c] rs] alts]. simpl in H.
  by destruct (Family d).
Qed.

Lemma isolates_mono d e e' : more_evidence e e' -> isolates d e -> isolates d e'.
Proof.
  unfold more_evidence. rewrite !Forall_cons.
  intros (H1 & H2 & H3 & H4 & H5 & H6 & H7 & H8 & H9 & H10 & H11 & H12 & H13 & H14 & _).
  unfold isolates.
  intros [[? ?]|[[? ?]|[[? ?]|[(? & ? & ?)|[[? ?]|[(? & ? & ?)|[(? & ? & ?)|[(? & ? & ?)
    |[(? & ? & ?)|[[? ?]|[? ?]]]]]]]]]]]; eauto 20.
Qed.

(** Attribution is conservative: the family always matches the domain;
    a domain other than UNKNOWN is named only when the experiments that
    isolate it were run and gave the isolating answers; and no domain that
    comes earlier in the order is isolated.  An experiment that was not run
    never counts as failed. *)
Theorem Classify_is_conservative e :
  let r := Classify e in
  ValidatePair (rDomain r) (rFamily r) = Ok tt ∧
  (rDomain r <> DomainUnknown -> isolates (rDomain r) e) ∧
  (forall d, isolates d e -> (rank (rDomain r) <= rank d)%nat).
Proof.
  intros r. unfold r. split_and!; [apply Classify_pair| |]; rewrite Classify_selected.
  - intros Hu. by destruct (selected_isolates e).
  - apply selected_first.
Qed.

(** More evidence never weakens an attribution: running more
    experiments keeps the domain or moves it earlier in the order, towards
    the preconditions; it never falls back towards UNKNOWN. *)
Theorem more_evidence_never_demotes e e' (H : more_evidence e e') :
  (rank (rDomain (Classify e')) <= rank (rDomain (Classify e)))%nat.
Proof.
  rewrite !Classify_selected. destruct (selected_isolates e) as [->|Hi]; [apply selected_last|].
  by apply selected_first, (isolates_mono _ e).
Qed.

Definition no_evidence : Evidence :=
  mkEvidence None None None None None None None None None None None None None None.
Definition sdk_rejects : Evidence :=
  mkEvidence (Some true) (Some true) (Some true) None (Some false) None None None None None None
    (Some true) None None.

Lemma more_evidence_never_demotes_witness :
  rDomain (Classify no_evidence) = DomainUnknown ∧ rDomain (Classify sdk_rejects) = DomainSDKParser ∧
  (rank (rDomain (Classify sdk_rejects)) <= rank (rDomain (Classify no_evidence)))%nat.
Proof.
  split; [vm_compute; reflexivity|]. split; [vm_compute; reflexivity|].
  apply (more_evidence_never_demotes no_evidence sdk_rejects).
  repeat constructor; intros b Hb; discriminate Hb.
Defined.
