(* ===== verification/RawRunner.v ===== *)
(** * internal/rawdriver/runner.go: one raw HTTP attempt

    [Run] resolves the scenario of an invocation, records the request, sends
    it, records the response, evaluates it and reports an outcome, or a
    typed error with the usage and the evidence so far.  The scenario
    registry is the interface [ScenarioRegistry]; the transport client, the
    clock and the identifier source are [RunnerEnvironment]; evidence goes
    through Recorder.v to the store of CAS.v.  The runner's own fields and
    the context are not nil. *)
From Stdlib Require Import ZArith Ascii String Lia.
From stdpp Require Import base gmap sets list strings.
From S2P Require Import Transport.
From S2P Require Import Prelude Schema Results Statemachine Canonical Documents Budget Executor Attribution.
From S2P Require Import SSE Oracle OracleSchema Normalizer Redaction Evidence CAS Recorder RawJSON RawStream.
From S2P Require Import RawEvaluate RawRegistry.
Local Open Scope Z_scope.
Local Open Scope string_scope.
Local Open Scope list_scope.

Definition maxPersistedSSEEvents : Z := 512.

(** ** The surroundings *)

(** The interface [Registry] of registry.go. *)
Class ScenarioRegistry (W : Type) := {
  registry_Estimate : ScenarioDecision -> GoM W error Usage;
  registry_Lookup : Digest -> ScenarioDecision -> GoM W error Scenario
}.

Class RunnerEnvironment (W : Type) := {
  transport_Do : string -> string -> Header -> list ascii -> GoM W error Response;
  runner_ctxErr : W -> option error * W;
  (** [time.Since(started).Nanoseconds()] *)
  since_started : W -> Z * W;
  runner_Now : W -> Time * W;
  runner_NewID : GoM W error InstanceID
}.

(** The values that the package encodes with [json.Marshal]. *)
Inductive projected :=
| RequestObservation (method path : string) (headers : Header) (body : list ascii)
| ResponseMetadata (status : Z) (headers : Header) (protocol : string) (durationNS : Z)
| OmittedContent (representation reason : string) (byteCount : Z)
| WireSummary (representation reason : string) (wireBytes completeEvents pendingBytes pendingFields : Z)
| EventProjection (representation : string) (wireBytes completeEvents jsonEvents doneEvents omitted omittedBytes : Z)
    (ordered : list string)
| TerminalMarker (marker : string)
| EventData (data : string)
| OutcomeFields (expected observed : option message)
| Fingerprinted (input : FingerprintInput (option message)).

Class RunnerCodec := {
  Marshal_projected : projected -> result error (list ascii);
  (** [Decode] into a struct that holds the two fields, and what a second
      [Decode] answers. *)
  Decode_fields : option message * option message -> list ascii -> result error ((option message * option message) * result error unit)
}.

Record Runner := mkRunner {
  rnStore : Store;
  rnRedactor : Redactor;
  rnProducer : Producer;
  rnMaxObservationBytes : Z
}.

(** ** Errors *)
Definition evidenceRefs (evidence : list Evidence.Evidence) : list ObjectRef := eviObjectRef <$> evidence.

Definition failed_with (r : RunError) (err : error) : RunFailure := TypedError r (Some (PlainError err)).
Definition runError (class : ErrorClass) (err : error) (usage : Usage) (known : bool) : RunFailure :=
  failed_with (mkRunError class usage known [] []) err.
Definition runErrorWithEvidence (class : ErrorClass) (err : error) (usage : Usage) (known : bool)
    (unknownUsage : list string) (evidence : list Evidence.Evidence) : RunFailure :=
  failed_with (mkRunError class usage known unknownUsage (evidenceRefs evidence)) err.

Definition no_usage : Usage := mkUsage 0 0 0 0 0 0 0.
Definition both_unknown : list string := ["input_tokens"; "output_tokens"].

Definition classifyHTTPStatus (status : Z) : option ErrorClass :=
  if decide (status = 401) then Some ErrorAuthentication
  else if decide (status = 403) then Some ErrorPermission
  else if decide (status = 408 ∨ status = 425 ∨ status = 429 ∨ status >= 500) then Some ErrorTransient
  else None.

Definition findingDomain (check : CheckKind) : Domain * FaultFamily :=
  let domain :=
    if decide (check ∈ [CheckArgumentsString; CheckStreamingToolCall; CheckStableToolCallID]) then DomainToolParser
    else if decide (check ∈ [CheckTerminalEvent; CheckOutputIndexes; CheckStreamMediaType; CheckNoPostTerminal])
    then DomainStreamStateMachine
    else if decide (check = CheckClosedReasoning) then DomainReasoningParser
    else DomainProtocolSerializer in
  (domain, (Family domain).1).

Section Runner.
Context {W File : Type} {fs : FileSystem W File} {lib : RegistryLibrary} {codec : EvidenceCodec}.
Context {ro : RangeOrder string string} {hro : RangeOrder string (list string)}.
Context {iro : RangeOrder string Statemachine.itemState} {redaction : RedactionLibrary}.
Context {registry : ScenarioRegistry W} {env : RunnerEnvironment W} {runner_codec : RunnerCodec}.
Context (runner : Runner).

(** [New], of a configuration with nothing nil in it. *)
Definition NewRunner (store : Store) (redactor : Redactor) (producer : Producer) (maxObservationBytes : Z)
    : result error Runner :=
  wrap (Wrapf (Text "producer: %w")) (Producer_Validate producer);;
  mret (mkRunner store redactor producer
    (if decide (maxObservationBytes <= 0) then DefaultMaxObservationBytes else maxObservationBytes)).

(** ** Estimates *)
Definition Runner_Estimate (decision : ScenarioDecision) : GoM W error Usage :=
  usage ← registry_Estimate decision;
  lift (wrap (Wrapf (Text "registry estimate: %w")) (Usage_Validate usage));;
  fail_if (Requests usage ≠ 1 ∨ RequestBytes usage <= 0 ∨ ResponseBytes usage <= 0 ∨ ArtifactBytes usage <= 0 ∨
           Processes usage ≠ 0)
    (ErrorNew (Text "registry estimate is not a bounded single-request raw HTTP estimate"));;
  mret usage.

Definition Finalize (plan : FinalizerPlan) : GoM W RunFailure Usage :=
  fail (runError ErrorDriver (ErrorNew (Sprintf "raw HTTP driver does not own finalizer lease %q" [FStr (LeaseID plan)]))
          no_usage false).

(** ** Payloads *)
Definition canonical_projected (p : projected) : result error (list ascii) :=
  @CanonicalMarshal document_json _ Marshal_projected p.

Definition marshalRequestObservation (scenario : Scenario) : result error (list ascii) :=
  Marshal_projected (RequestObservation (snMethod scenario) (snPath scenario) (snHeaders scenario) (snBody scenario)).
Definition marshalResponseMetadata (response : Response) : result error (list ascii) :=
  Marshal_projected (ResponseMetadata (rsStatusCode response) (rsHeader response) (rsProtocol response) (rsDuration response)).
Definition marshalOmittedContent (reason : string) (byteCount : Z) : result error (list ascii) :=
  canonical_projected (OmittedContent "opaque_content_omitted_v1" reason byteCount).

Definition marshalSSEObservation (event : SSELogicalEvent) : result error (list ascii * string) :=
  if decide (evData event = done_marker) then
    payload ← canonical_projected (TerminalMarker done_marker);
    mret (payload, "sse_logical_event")
  else if json_Valid (evData event) then
    payload ← canonical_projected (EventData (evData event));
    mret (payload, "sse_logical_event")
  else
    payload ← marshalOmittedContent "non_json_sse_data" (len (evData event));
    mret (payload, "sse_non_json_data_omitted").

Definition is_json_event (event : SSELogicalEvent) : bool :=
  negb (bool_decide (evData event = done_marker)) && json_Valid (evData event).
Definition is_other_event (event : SSELogicalEvent) : bool :=
  negb (bool_decide (evData event = done_marker)) && negb (json_Valid (evData event)).

Definition marshalSSEEventLimitFallback (events : list SSELogicalEvent) (wireBytes : Z) : result error (list ascii) :=
  let orderedJSONData := evData <$> filter (fun e => is_json_event e = true) events in
  let omitted := filter (fun e => is_other_event e = true) events in
  let doneEvents := filter (fun e => evData e = done_marker) events in
  canonical_projected (EventProjection "bounded_sse_json_projection_v1" wireBytes (Z.of_nat (length events))
    (Z.of_nat (length orderedJSONData)) (Z.of_nat (length doneEvents)) (Z.of_nat (length omitted))
    (foldr Z.add 0 ((fun e => len (evData e)) <$> omitted)) orderedJSONData).

(** ** Recording *)
Abbreviation CapM := (RecM (W := W)).

Definition elapsedNS : CapM Z := fun '(w, r) =>
  let '(value, w') := since_started w in (Ok (if decide (value < 0) then 0 else value), (w', r)).

(** [capture.Record] of an observation of the direct transport. *)
Definition capture (sequence : Z) (direction : Direction) (kind : string) (eventOffset : option Z)
    (payload : list ascii) : CapM Evidence.Evidence :=
  offset ← elapsedNS;
  Record_ runner_Now (mkObserved sequence LayerUpstreamApplication InstrumentationDirect direction kind offset None
                        eventOffset payload PayloadJSON []).

(** [(evidence, err)]: the evidence is returned with the error too. *)
Definition partial : Type := list Evidence.Evidence * option error.
Definition Captured := W * Recorder -> partial * (W * Recorder).

(** A single record, of a payload that may not encode. *)
Definition capture_one (sequence : Z) (kind : string) (payload : result error (list ascii)) : Captured := fun s =>
  match (payload ← lift payload; capture sequence DirectionTargetToCore kind None payload) s with
  | (Ok evidence, s') => (([evidence], None), s')
  | (Err e, s') => (([], Some e), s')
  end.

Definition recordSSEWireSummaryAtSequence (sequence : Z) (kind reason : string) (wireBytes completeEvents : Z)
    (tail : StreamTail) : Captured :=
  capture_one sequence kind
    (canonical_projected (WireSummary "sse_wire_summary_v1" reason wireBytes completeEvents
       (BufferedBytes tail) (PendingFieldCount tail))).
Definition recordSSEWireSummary : string -> string -> Z -> Z -> StreamTail -> Captured :=
  recordSSEWireSummaryAtSequence 3.
Definition recordSSEEventLimitFallback (events : list SSELogicalEvent) (wireBytes : Z) : Captured :=
  capture_one 3 "sse_event_limit_fallback" (marshalSSEEventLimitFallback events wireBytes).

(** The loop over the events; [result] is what was recorded so far. *)
Fixpoint record_events (events : list SSELogicalEvent) (sequence : Z) (result : list Evidence.Evidence)
    (s : W * Recorder) : (partial * Z) * (W * Recorder) :=
  match events with
  | [] => ((result, None, sequence), s)
  | event :: rest =>
      match ('(payload, kind) ← lift (marshalSSEObservation event);
             capture sequence DirectionTargetToCore kind (Some (EventOffset event)) payload) s with
      | (Ok evidence, s') => record_events rest (uint64_wrap (sequence + 1)) (result ++ [evidence]) s'
      | (Err e, s') => ((result, Some e, sequence), s')
      end
  end.

Definition record_stream (events : list SSELogicalEvent) (tail : StreamTail) (wireBytes : Z) : Captured := fun s =>
  match record_events events 3 [] s with
  | ((result, Some e, _), s') => ((result, Some e), s')
  | ((result, None, sequence), s') =>
      if decide (BufferedBytes tail ≠ 0 ∨ PendingFieldCount tail ≠ 0) then
        match recordSSEWireSummaryAtSequence sequence "sse_incomplete_wire" "incomplete_sse_tail" wireBytes
                (Z.of_nat (length events)) tail s' with
        | ((_, Some e), s2) => ((result, Some e), s2)
        | ((partial_, None), s2) => ((result ++ partial_, None), s2)
        end
      else ((result, None), s')
  end.

Definition no_tail : StreamTail := mkStreamTail 0 0 [].

Definition recordResponseBody (scenario : Scenario) (body : list ascii) : Captured :=
  let wireBytes := Z.of_nat (length body) in
  if negb (snStreaming scenario) then
    if json_Valid (string_of_list_ascii body) then capture_one 3 "http_response_body" (Ok body)
    else capture_one 3 "http_response_body_omitted" (marshalOmittedContent "non_json_http_response_body" wireBytes)
  else
    match Feed (mkReadChunk 1 0 body) (NewSSEAssembler (Z.max (blen body + 1) 1024)) with
    | (Err _, _) => recordSSEWireSummary "sse_invalid_wire" "invalid_sse_wire" wireBytes 0 no_tail
    | (Ok events, assembler) =>
        let tail := SSE.Finish assembler in
        if decide (events = []) then
          recordSSEWireSummary "sse_invalid_wire" "no_complete_sse_events" wireBytes 0 tail
        else if decide (Z.of_nat (length events) > maxPersistedSSEEvents) then
          recordSSEEventLimitFallback events wireBytes
        else record_stream events tail wireBytes
    end.

(** ** The attempt *)

Definition validateInvocation (invocation : Invocation) : result error unit :=
  named_ids [("run", invRunID invocation); ("invocation", invInvocationID invocation);
             ("attempt", invAttemptID invocation)];;
  wrap (Wrapf (Text "plan digest: %w")) (Digest_Validate (invPlanDigest invocation));;
  err_if (invAttemptNumber invocation <= 0) (ErrorNew (Text "attempt number must be positive"));;
  validateDecision (invScenario invocation).

(** The sum over the evidence, [total] so far. *)
Fixpoint artifact_sum (evidence : list Evidence.Evidence) (total : Z) : GoM W error Z :=
  match evidence with
  | [] => mret total
  | item :: rest =>
      match eviPayloadDigest item with
      | None => artifact_sum rest total
      | Some digest =>
          payload ← Get (rnStore runner) digest;
          envelope ← lift (CanonicalMarshal Marshal_Evidence item);
          artifact_sum rest (int64_wrap (int64_wrap (total + Z.of_nat (length payload)) + Z.of_nat (length envelope)))
      end
  end.
Definition artifactBytes (evidence : list Evidence.Evidence) : GoM W error Z := artifact_sum evidence 0.

Definition set_fields (fields : option message * option message) (o : Oracle.Outcome) : Oracle.Outcome :=
  Oracle.mkOutcome (outVerdict o) (outReasonCode o) (outCode o) fields.1 fields.2 (outEvidenceRefs o) (TargetFailure o).

Definition sanitizeOutcome (redactor : Redactor) (outcome : Oracle.Outcome) : result error Oracle.Outcome :=
  let fields := (outExpected outcome, outObserved outcome) in
  raw ← wrap (Wrapf (Text "encode typed outcome fields: %w"))
          (canonical_projected (OutcomeFields (outExpected outcome) (outObserved outcome)));
  '(sanitized, _) ← wrap (Wrapf (Text "redact typed outcome fields: %w")) (RedactJSON redactor raw);
  '(fields, second) ← wrap (Wrapf (Text "decode typed outcome fields: %w")) (Decode_fields fields sanitized);
  let at_EOF := match second with Err e => errors_Is e "EOF" | Ok _ => false end in
  err_if (at_EOF = false) (ErrorNew (Text "sanitized outcome contains trailing JSON"));;
  mret (set_fields fields outcome).

(** [0.9] in IEEE 754 binary64. *)
Definition confidence_09 : float64 := 4606281698874543309.

Definition finding (scenario : Scenario) (assertion : AssertionResult) (outcome : Oracle.Outcome) : GoM W error Finding :=
  id ← runner_NewID;
  let '(domain, family) := findingDomain (asCheck (snAssertion scenario)) in
  fingerprint ← lift (@Fingerprint document_json _ (fun input => Marshal_projected (Fingerprinted input))
                        (snID scenario) (asAssertionID (snAssertion scenario)) (outCode outcome)
                        (outExpected outcome) (outObserved outcome));
  mret (mkFinding id (arAssertionResultID assertion) domain family (outCode outcome) "medium" confidence_09
    CalibrationVersion [] (outEvidenceRefs outcome) [] (asRequirementID (snAssertion scenario)) ""
    "conform the emitted response to the cited requirement and preserve the failing exchange as a regression fixture"
    "" "failure-fingerprint-v1" fingerprint).

(** What ends a call of [Run] early: an error, or a panic ([None]). *)
Abbreviation Halt := (option RunFailure).
Abbreviation AttemptM := (GoM (W * Recorder) Halt).

(** [if err != nil { return runError(ErrorHarness, ...) }]. *)
Definition early {S A} (f : error -> error) (m : GoM S error A) : GoM S Halt A :=
  wrapM (fun e => Some (runError ErrorHarness (f e) no_usage false)) m.
(** [if err != nil { return runErrorWithEvidence(ErrorHarness, ...) }]. *)
Definition late {S A} (usage : Usage) (unknown : list string) (evidence : list Evidence.Evidence)
    (f : error -> error) (m : GoM S error A) : GoM S Halt A :=
  wrapM (fun e => Some (runErrorWithEvidence ErrorHarness (f e) usage true unknown evidence)) m.

Definition runner_ctx : GoM W error unit := fun w =>
  match runner_ctxErr w with (Some e, w') => (Err e, w') | (None, w') => (Ok tt, w') end.

Definition set_ResponseBytes (n : Z) (u : Usage) : Usage :=
  mkUsage (Requests u) (RequestBytes u) n (ArtifactBytes u) (Processes u) (InputTokens u) (OutputTokens u).
Definition set_ArtifactBytes (n : Z) (u : Usage) : Usage :=
  mkUsage (Requests u) (RequestBytes u) (ResponseBytes u) n (Processes u) (InputTokens u) (OutputTokens u).
Definition set_tokens (o : observedUsage) (u : Usage) : Usage :=
  mkUsage (Requests u) (RequestBytes u) (ResponseBytes u) (ArtifactBytes u) (Processes u)
    (default 0 (ouInput o)) (default 0 (ouOutput o)).
Definition unknown_tokens (o : observedUsage) : list string :=
  (if ouInput o then [] else ["input_tokens"]) ++ (if ouOutput o then [] else ["output_tokens"]).

(** The scenario of the invocation, checked again. *)
Definition resolve (invocation : Invocation) : GoM W Halt Scenario :=
  early id runner_ctx;;
  early id (lift (validateInvocation invocation));;
  scenario ← early (Wrapf (Text "resolve exact scenario: %w"))
               (registry_Lookup (invPlanDigest invocation) (invScenario invocation));
  scenario ← early (Wrapf (Text "validate registered scenario: %w")) (lift (validateAndCloneScenario scenario));
  early id (fail_if (snPlanDigest scenario ≠ invPlanDigest invocation ∨
                     snID scenario ≠ ScenarioID (invScenario invocation) ∨
                     snDriver scenario ≠ Driver (invScenario invocation))
    (ErrorNew (Text "registry lookup returned content outside the exact invocation key")));;
  mret scenario.

Definition open_recorder (invocation : Invocation) : GoM W Halt Recorder :=
  early (Wrapf (Text "create recorder: %w"))
    (lift (NewRecorder (mkRecorderConfig (invRunID invocation) (invInvocationID invocation) (invAttemptID invocation)
       (rnProducer runner) LayerUpstreamApplication InstrumentationDirect (rnMaxObservationBytes runner))
       (rnRedactor runner) (rnStore runner))).

Definition record_request (scenario : Scenario) : AttemptM Evidence.Evidence :=
  payload ← early (Wrapf (Text "encode request observation: %w")) (lift (marshalRequestObservation scenario));
  early (Wrapf (Text "record request: %w")) (capture 1 DirectionCoreToTarget "http_request" None payload).

(** [runner.transport.Do] and its errors. *)
Definition send (scenario : Scenario) (usage : Usage) (evidence : list Evidence.Evidence) : GoM W Halt Response :=
  fun w =>
    match transport_Do (snMethod scenario) (snPath scenario) (snHeaders scenario) (snBody scenario) w with
    | (Ok response, w') => (Ok response, w')
    | (Err e, w') =>
        match runner_ctxErr w' with
        | (Some ctxErr, w2) =>
            (Err (Some (runErrorWithEvidence ErrorHarness ctxErr usage true both_unknown evidence)), w2)
        | (None, w2) =>
            let class := if errors_Is e ErrBodyLimit then ErrorHarness else ErrorDriver in
            (Err (Some (runErrorWithEvidence class (Wrapf (Text "raw HTTP transport: %w") e) usage true both_unknown
                          evidence)), w2)
        end
    end.

Definition at_world {E A} (m : GoM W E A) : GoM (W * Recorder) E A := fun '(w, r) =>
  let '(a, w') := m w in (a, (w', r)).

(** An error with [usage.ArtifactBytes, _ = runner.artifactBytes(ctx, evidence)]. *)
Definition measured_error {A} (usage : Usage) (evidence : list Evidence.Evidence) (err : error) : AttemptM A :=
  bytes ← at_world (fun w => let '(measured, w') := artifactBytes evidence w in
                             (Ok (match measured with Ok n => n | Err _ => 0 end), w'));
  fail (Some (runErrorWithEvidence ErrorHarness err (set_ArtifactBytes bytes usage) true both_unknown evidence)).

(** Metadata and body of the response: the evidence with theirs added, and
    the usage with the size of the artifacts. *)
Definition record_response (scenario : Scenario) (response : Response) (usage : Usage)
    (evidence : list Evidence.Evidence) : AttemptM (list Evidence.Evidence * Usage) :=
  payload ← late usage both_unknown evidence (Wrapf (Text "encode response metadata: %w"))
              (lift (marshalResponseMetadata response));
  metadata ← late usage both_unknown evidence (Wrapf (Text "record response metadata: %w"))
               (capture 2 DirectionTargetToCore "http_response_metadata" None payload);
  let evidence := evidence ++ [metadata] in
  (if decide (Z.of_nat (length (rsBody response)) > bbResponseBytes (snBudget scenario)) then
     measured_error usage evidence (ErrorNew (Text "response body exceeds the registered scenario budget"))
   else mret tt);;
  evidence ← (if decide (0 < length (rsBody response))%nat then fun s =>
                let '((body, err), s') := recordResponseBody scenario (rsBody response) s in
                match err with
                | Some e => measured_error usage (evidence ++ body) (Wrapf (Text "record response body: %w") e) s'
                | None => (Ok (evidence ++ body), s')
                end
              else mret evidence);
  bytes ← late (set_ArtifactBytes 0 usage) both_unknown evidence (Wrapf (Text "measure evidence artifacts: %w"))
            (at_world (artifactBytes evidence));
  mret (evidence, set_ArtifactBytes bytes usage).

(** Evaluation of the recorded exchange. *)
Definition judge (scenario : Scenario) (response : Response) (usage : Usage) (evidence : list Evidence.Evidence)
    : GoM W Halt evaluation :=
  match classifyHTTPStatus (rsStatusCode response) with
  | Some class =>
      fail (Some (runErrorWithEvidence class (ErrorNew (Sprintf "HTTP status %d" [FInt (rsStatusCode response)]))
                    usage true both_unknown evidence))
  | None =>
      match evaluate scenario (rsStatusCode response) (rsHeader response) (rsBody response) (evidenceRefs evidence) with
      | None => fail None
      | Some answer =>
          ev ← late usage both_unknown evidence (Wrapf (Text "evaluate response: %w")) (lift answer);
          outcome ← late usage both_unknown evidence (Wrapf (Text "sanitize oracle outcome: %w"))
                      (lift (sanitizeOutcome (rnRedactor runner) (evOutcome ev)));
          mret (mkEvaluation outcome (evUsage ev))
      end
  end.

Definition assertion_result (scenario : Scenario) (assertionID : InstanceID) (outcome : Oracle.Outcome)
    : AssertionResult :=
  let assertion := snAssertion scenario in
  mkAssertionResult assertionID (asAssertionID assertion) (asRequirementID assertion) (asRole assertion)
    (asOracle assertion) (outVerdict outcome) (outReasonCode outcome) (outExpected outcome) (outObserved outcome)
    (outEvidenceRefs outcome) true None (asEvaluatorDigest assertion).

(** The outcome of a judged exchange. *)
Definition report (scenario : Scenario) (usage : Usage) (evidence : list Evidence.Evidence) (ev : evaluation)
    : GoM W Halt Executor.Outcome :=
  let usage := set_tokens (evUsage ev) usage in
  let unknown := unknown_tokens (evUsage ev) in
  let outcome := evOutcome ev in
  late usage unknown evidence id (fail_if (outReasonCode outcome = ReasonHarnessError)
    (ErrorNew (Text "oracle reported a harness precondition failure")));;
  assertionID ← late usage unknown evidence (Wrapf (Text "create assertion result ID: %w")) runner_NewID;
  let assertion := assertion_result scenario assertionID outcome in
  late usage unknown evidence (Wrapf (Text "validate assertion result: %w"))
    (lift (AssertionResult_Validate assertion));;
  findings ← (if TargetFailure outcome then
                f ← late usage unknown evidence (Wrapf (Text "construct finding: %w"))
                      (finding scenario assertion outcome);
                mret [f]
              else mret []);
  mret (Executor.mkOutcome (outVerdict outcome) (outReasonCode outcome) (evidenceRefs evidence) [assertion] findings
          usage unknown).

Definition attempt (scenario : Scenario) : AttemptM Executor.Outcome :=
  request ← record_request scenario;
  let usage := mkUsage 1 (Z.of_nat (length (snBody scenario))) 0 0 0 0 0 in
  response ← at_world (send scenario usage [request]);
  let usage := set_ResponseBytes (Z.of_nat (length (rsBody response))) usage in
  '(evidence, usage) ← record_response scenario response usage [request];
  ev ← at_world (judge scenario response usage evidence);
  at_world (report scenario usage evidence ev).

Definition with_recorder {A} (recorder : Recorder) (m : AttemptM A) : GoM W Halt A := fun w =>
  let '(a, (w', _)) := m (w, recorder) in (a, w').

Definition Run (invocation : Invocation) : GoM W Halt Executor.Outcome :=
  scenario ← resolve invocation;
  recorder ← open_recorder invocation;
  with_recorder recorder (attempt scenario).
End Runner.
