(* ===== verification/RawRunnerSpec.v ===== *)
(** * What one raw HTTP attempt reports (internal/rawdriver/runner.go)

    The executor accepts every report of the runner: an outcome passes its
    validation, and an error is a [RunError] whose usage and evidence it
    keeps.  The evidence is the attempt's own, numbered without gaps and
    bounded in number. *)
From Stdlib Require Import ZArith Ascii String Lia.
From stdpp Require Import base gmap sets list strings pretty.
From S2P Require Import Transport.
From S2P Require Import Prelude Regex Schema Results Statemachine Canonical CanonicalSpec Documents Budget.
From S2P Require Import Executor Attribution SSE Oracle OracleSpec OracleSchema Normalizer Redaction Evidence.
From S2P Require Import CAS Disk CASSpec Recorder RawJSON RawStream RawEvaluate RawEvaluateSpec.
From S2P Require Import RawRegistry RawRegistrySpec RawRunner.
Local Open Scope Z_scope.
Local Open Scope string_scope.
Local Open Scope list_scope.

(** ** Calls with a precondition, an answer and errors *)
Definition answers {S E A} (P : S -> Prop) (m : GoM S E A) (Q : A -> S -> Prop) (X : E -> Prop) : Prop :=
  forall s, P s -> match m s with (Ok a, s') => Q a s' | (Err e, _) => X e end.

Section Answers.
Context {S E : Type}.

Lemma answers_bind {A B} P (m : GoM S E A) (k : A -> GoM S E B) Q R X :
  answers P m Q X -> (forall a, answers (Q a) (k a) R X) -> answers P (m ≫= k) R X.
Proof.
  intros Hm Hk s Hs. specialize (Hm s Hs). unfold mbind, gom_bind. destruct (m s) as [[a|e] s']; [|done].
  by apply Hk.
Qed.
Lemma answers_ret {A} (a : A) (P : S -> Prop) (X : E -> Prop) : answers P (mret a) (fun b s => b = a ∧ P s) X.
Proof. by intros s Hs. Qed.
Lemma answers_lift {A} (r : result E A) (P : S -> Prop) (X : E -> Prop) :
  (forall e, r = Err e -> X e) -> answers P (lift r) (fun a s => r = Ok a ∧ P s) X.
Proof. intros H s Hs. unfold lift. destruct r as [a|e]; [done|by apply H]. Qed.
Lemma answers_fail {A} e (P : S -> Prop) (Q : A -> S -> Prop) (X : E -> Prop) :
  X e -> answers P (fail e) Q X.
Proof. by intros H s Hs. Qed.
Lemma answers_weaken {A} (P P' : S -> Prop) (m : GoM S E A) (Q Q' : A -> S -> Prop) (X X' : E -> Prop) :
  answers P' m Q' X' -> (forall s, P s -> P' s) -> (forall a s, Q' a s -> Q a s) -> (forall e, X' e -> X e) ->
  answers P m Q X.
Proof.
  intros H H1 H2 H3 s Hs. specialize (H s (H1 s Hs)). destruct (m s) as [[a|e] s']; [by apply H2|by apply H3].
Qed.
(** What the precondition says of every state is a fact. *)
Lemma answers_pull {A} (C : Prop) P (m : GoM S E A) Q X : (forall s, P s -> C) -> (C -> answers P m Q X) -> answers P m Q X.
Proof. intros HC H s Hs. by apply (H (HC s Hs)). Qed.
Lemma answers_fail_if (C : Prop) `{Decision C} e (P : S -> Prop) (X : E -> Prop) :
  X e -> answers P (fail_if C e) (fun _ s => ~ C ∧ P s) X.
Proof. intros He s Hs. unfold fail_if. by destruct (decide C). Qed.
End Answers.

Lemma answers_wrapM {S E E' A} (f : E -> E') P (m : GoM S E A) Q (X : E' -> Prop) :
  answers P m Q (fun e => X (f e)) -> answers P (wrapM f m) Q X.
Proof. intros H s Hs. specialize (H s Hs). unfold wrapM. by destruct (m s) as [[a|e] s']. Qed.

Lemma answers_any {S E A} (m : GoM S E A) (P : S -> Prop) : answers P m (fun _ _ => True) (fun _ => True).
Proof. intros s _. by destruct (m s) as [[a|e] s']. Qed.

Section Spec.
Context {W File : Type} {fs : FileSystem W File} {lib : RegistryLibrary} {codec : EvidenceCodec}.
Context {ro : RangeOrder string string} {hro : RangeOrder string (list string)} {iro : RangeOrder string itemState}.
Context {redaction : RedactionLibrary}.
Context {registry : ScenarioRegistry W} {env : RunnerEnvironment W} {runner_codec : RunnerCodec}.
Context (runner : Runner) (invocation : Invocation).

Lemma answers_at_world {E A} (m : GoM W E A) (P : W * Recorder -> Prop) (C : Recorder -> Prop) Q (X : E -> Prop) :
  (forall s, P s -> C s.2) -> answers (fun _ => True) m (fun a _ => Q a) X ->
  answers P (at_world m) (fun a s => Q a ∧ C s.2) X.
Proof.
  intros HC H [w r] Hs. specialize (H w I). unfold at_world. destruct (m w) as [[a|e] w']; [|done].
  split; [done|]. by apply (HC (w, r)).
Qed.

(** ** The evidence of the attempt *)
Definition run_config : RecorderConfig :=
  mkRecorderConfig (invRunID invocation) (invInvocationID invocation) (invAttemptID invocation) (rnProducer runner)
    LayerUpstreamApplication InstrumentationDirect
    (if decide (rnMaxObservationBytes runner <= 0) then DefaultMaxObservationBytes else rnMaxObservationBytes runner).

(** Recorded for this attempt with this runner's redactor and store, and
    numbered 1, 2, ... *)
Definition genuine (evidence : list Evidence.Evidence) : Prop :=
  forall i e, evidence !! i = Some e ->
    (exists o, recorded run_config (rnRedactor runner) (rnStore runner) o e) ∧ eviSequence e = 1 + Z.of_nat i.

Definition at_recorder (evidence : list Evidence.Evidence) (r : Recorder) : Prop :=
  r = mkRecorder run_config (rnRedactor runner) (rnStore runner) (1 + Z.of_nat (length evidence)).
Definition captured (evidence : list Evidence.Evidence) (s : W * Recorder) : Prop :=
  at_recorder evidence s.2 ∧ genuine evidence.

Lemma genuine_snoc evidence e o : genuine evidence ->
  recorded run_config (rnRedactor runner) (rnStore runner) o e -> eviSequence e = 1 + Z.of_nat (length evidence) ->
  genuine (evidence ++ [e]).
Proof.
  intros H He Hs i e' Hi. apply lookup_app_Some in Hi as [Hi|[Hlen Hi]]; [by apply H|].
  apply list_lookup_singleton_Some in Hi as [Hi ->]. split; [by exists o|]. lia.
Qed.

Lemma capture_spec evidence sequence direction kind offset payload :
  (length evidence < 600)%nat ->
  answers (captured evidence) (capture sequence direction kind offset payload)
    (fun e s => captured (evidence ++ [e]) s ∧ eviKind e = kind ∧ eviDirection e = direction) (fun _ => True).
Proof.
  intros Hlen [w r] [Hr Hg]. unfold capture, elapsedNS, mbind, gom_bind. destruct (since_started w) as [n w1].
  destruct (Record_ _ _ (w1, r)) as [[e|err] [w2 r2]] eqn:E; [|done].
  apply Record_ok in E as (E1 & E2 & ->). unfold at_recorder in Hr. cbn in Hr. subst r. cbn [rdConfig rdRedactor rdStore rdNextSequence] in *.
  destruct (rec_point _ _ _ _ _ E2) as (_ & _ & E3 & E4 & E5). split; [split|split; [done|done]].
  - unfold at_recorder. cbn [snd]. rewrite uint64_wrap_id by lia. rewrite length_app. f_equal. cbn. lia.
  - eapply genuine_snoc; [done..|]. congruence.
Qed.

(** What recording a part of the response leaves behind, with an error or
    not. *)
Definition adds (bound : nat) (evidence : list Evidence.Evidence) (m : Captured (W := W)) : Prop :=
  forall s, captured evidence s ->
    let '((more, err), s') := m s in
    genuine (evidence ++ more) ∧ (length more <= bound)%nat ∧ (err = None -> captured (evidence ++ more) s').

Lemma capture_one_spec evidence sequence kind payload : (length evidence < 600)%nat ->
  adds 1 evidence (capture_one sequence kind payload).
Proof.
  intros Hlen s Hs. unfold capture_one. destruct payload as [payload|e].
  - pose proof (capture_spec evidence sequence DirectionTargetToCore kind None payload Hlen s Hs) as H.
    unfold lift, mbind, gom_bind. cbn -[capture]. destruct (capture _ _ _ _ _ s) as [[e|e] s'].
    + destruct H as [H _]. split_and!; [apply H|cbn; lia|done].
    + rewrite app_nil_r. split_and!; [apply Hs|cbn; lia|done].
  - unfold lift, mbind, gom_bind. cbn. rewrite app_nil_r. split_and!; [apply Hs|lia|done].
Qed.

Lemma record_events_spec evidence events : forall sequence before s,
  (length evidence + length before + length events < 600)%nat -> captured (evidence ++ before) s ->
  let '((more, err, _), s') := record_events events sequence before s in
  genuine (evidence ++ more) ∧ (length more <= length before + length events)%nat ∧
  (err = None -> captured (evidence ++ more) s').
Proof.
  induction events as [|event events IH]; intros sequence before s Hlen Hs; cbn [record_events].
  { split_and!; [apply Hs|lia|done]. }
  cbn [length] in *. destruct (marshalSSEObservation event) as [[payload kind]|e].
  - unfold lift, mbind, gom_bind. cbn -[capture record_events].
    pose proof (capture_spec (evidence ++ before) sequence DirectionTargetToCore kind (Some (EventOffset event)) payload)
      as H. specialize (H ltac:(rewrite length_app; lia) s Hs).
    destruct (capture _ _ _ _ _ s) as [[e|e] s'].
    + destruct H as [H _]. rewrite <- app_assoc in H.
      specialize (IH (uint64_wrap (sequence + 1)) (before ++ [e]) s'). rewrite length_app in IH. cbn in IH.
      specialize (IH ltac:(lia) H). destruct (record_events _ _ _ _) as [[[more err] sq] s2].
      destruct IH as (? & ? & ?). split_and!; [done|lia|done].
    + split_and!; [apply Hs|lia|done].
  - unfold lift, mbind, gom_bind. cbn. split_and!; [apply Hs|lia|done].
Qed.

Lemma record_stream_spec evidence events tail wireBytes : (length evidence + length events < 599)%nat ->
  adds (S (length events)) evidence (record_stream events tail wireBytes).
Proof.
  intros Hlen s Hs. unfold record_stream.
  pose proof (record_events_spec evidence events 3 [] s) as H. rewrite app_nil_r in H. cbn in H.
  specialize (H ltac:(lia) Hs). destruct (record_events events 3 [] s) as [[[more err] sequence] s1].
  destruct H as (H1 & H2 & H3). destruct err as [e|]; [by split_and!; [|lia|]|]. specialize (H3 eq_refl).
  case_decide; [|by split_and!; [|lia|]].
  pose proof (capture_one_spec (evidence ++ more) sequence "sse_incomplete_wire"
    (canonical_projected (WireSummary "sse_wire_summary_v1" "incomplete_sse_tail" wireBytes (Z.of_nat (length events))
       (BufferedBytes tail) (PendingFieldCount tail)))) as H4.
  specialize (H4 ltac:(rewrite length_app; lia) s1 H3). unfold recordSSEWireSummaryAtSequence.
  destruct (capture_one _ _ _ s1) as [[last err] s2]. destruct H4 as (H4 & H5 & H6). rewrite <- app_assoc in H4, H6.
  destruct err as [e|]; [by split_and!; [|lia|]|]. rewrite length_app. split_and!; [done|lia|done].
Qed.

Lemma recordResponseBody_spec evidence scenario body : (length evidence <= 2)%nat ->
  adds 513 evidence (recordResponseBody scenario body).
Proof.
  intros Hlen s Hs.
  assert (forall m, adds 1 evidence m -> let '((more, err), s') := m s in
    genuine (evidence ++ more) ∧ (length more <= 513)%nat ∧ (err = None -> captured (evidence ++ more) s')) as Hone.
  { intros m Hm. specialize (Hm s Hs). destruct (m s) as [[more err] s'].
    destruct Hm as (? & ? & ?). split_and!; [done|lia|done]. }
  unfold recordResponseBody. destruct (snStreaming scenario); cbn [negb].
  - destruct (Feed _ _) as [[events|e] assembler]; [|apply Hone, capture_one_spec; lia].
    repeat case_decide; [by apply Hone, capture_one_spec; lia|by apply Hone, capture_one_spec; lia|].
    unfold maxPersistedSSEEvents in *. pose proof (record_stream_spec evidence events (SSE.Finish assembler)
      (Z.of_nat (length body)) ltac:(lia) s Hs) as HS. destruct (record_stream _ _ _ s) as [[more err] s'].
    destruct HS as (? & ? & ?). split_and!; [done|lia|done].
  - destruct (json_Valid _); apply Hone, capture_one_spec; lia.
Qed.

(** ** Reports that the executor accepts *)
Definition classes : list ErrorClass := [ErrorTransient; ErrorAuthentication; ErrorPermission; ErrorDriver; ErrorHarness].

(** The scenario that the registry answered for the invocation. *)
Definition resolved_for (scenario : Scenario) : Prop :=
  (exists input w w', registry_Lookup (invPlanDigest invocation) (invScenario invocation) w = (Ok input, w') ∧
     validateAndCloneScenario input = Ok scenario) ∧
  snPlanDigest scenario = invPlanDigest invocation ∧ snID scenario = ScenarioID (invScenario invocation) ∧
  snDriver scenario = Driver (invScenario invocation).

(** The usage of an attempt whose request was sent. *)
Definition sent (scenario : Scenario) (u : Usage) : Prop :=
  Requests u = 1 ∧ RequestBytes u = Z.of_nat (length (snBody scenario)) ∧ Processes u = 0.

Definition bounded_evidence (evidence : list Evidence.Evidence) : Prop := (1 <= length evidence <= 515)%nat.

(** A failure with the usage and the evidence of a sent request, or with
    none at all. *)
Definition acceptable (h : option RunFailure) : Prop :=
  exists r err, h = Some (failed_with r err) ∧ reClass r ∈ classes ∧
    if reUsageKnown r then
      validateUnknownUsage (reUnknownUsage r) = Ok tt ∧
      exists scenario evidence, resolved_for scenario ∧ sent scenario (reUsage r) ∧ genuine evidence ∧
        bounded_evidence evidence ∧ reEvidenceRefs r = evidenceRefs evidence
    else reUsage r = no_usage ∧ reUnknownUsage r = [] ∧ reEvidenceRefs r = [].

Lemma acceptable_early e : acceptable (Some (runError ErrorHarness e no_usage false)).
Proof. eexists _, _. split_and!; [done|set_solver|]. done. Qed.

Lemma answers_early {S A} f P (m : GoM S error A) Q : answers P m Q (fun _ => True) ->
  answers P (early f m) Q acceptable.
Proof. intros H. apply answers_wrapM. eapply answers_weaken; [done|done|done|]. intros e _. apply acceptable_early. Qed.

Lemma resolve_spec : answers (fun _ => True) (resolve invocation) (fun scenario _ => resolved_for scenario) acceptable.
Proof.
  unfold resolve. eapply answers_bind; [apply answers_early, answers_any|intros ?].
  eapply answers_bind; [apply answers_early, answers_any|intros ?].
  eapply (answers_bind _ _ _ (fun input _ => exists w w',
    registry_Lookup (invPlanDigest invocation) (invScenario invocation) w = (Ok input, w'))).
  { apply answers_early. intros w _.
    destruct (registry_Lookup _ _ w) as [[input|e] w'] eqn:E; [by exists w, w'|done]. }
  intros input. eapply answers_bind; [apply answers_early, (answers_lift _ _ (fun _ => True)); done|intros scenario].
  eapply answers_bind; [apply answers_early, (answers_fail_if _ _ _ (fun _ => True)); done|intros u].
  eapply answers_weaken; [apply answers_ret|intros w Hw; exact Hw| |done].
  intros answer w (-> & H1 & H2 & w1 & w2 & H3). split; [by exists input, w1, w2|].
  split_and!; apply dec_stable; tauto.
Qed.

Lemma open_recorder_spec P : answers P (open_recorder runner invocation)
  (fun r w => P w ∧ captured [] (w, r)) acceptable.
Proof.
  unfold open_recorder. apply answers_early. intros w Hw. unfold lift.
  destruct (NewRecorder _ _ _) as [r|e] eqn:E; [|done]. unfold NewRecorder in E.
  do 4 apply bind_Ok in E as ([] & _ & E). injection E as <-.
  split; [done|]. split; [done|]. intros i e Hi. by rewrite lookup_nil in Hi.
Qed.

Section Attempt.
Context (scenario : Scenario) (Hscenario : resolved_for scenario).

Lemma acceptable_late usage unknown evidence class e : class ∈ classes -> sent scenario usage ->
  validateUnknownUsage unknown = Ok tt -> genuine evidence -> bounded_evidence evidence ->
  acceptable (Some (runErrorWithEvidence class e usage true unknown evidence)).
Proof. intros. eexists _, _. split_and!; [done|done|]. cbn. split; [done|]. by exists scenario, evidence. Qed.

Lemma answers_late {S A} usage unknown evidence f P (m : GoM S error A) Q : sent scenario usage ->
  validateUnknownUsage unknown = Ok tt -> genuine evidence -> bounded_evidence evidence ->
  answers P m Q (fun _ => True) -> answers P (late usage unknown evidence f m) Q acceptable.
Proof.
  intros. apply answers_wrapM. eapply answers_weaken; [done|done|done|]. intros e _.
  apply acceptable_late; [set_solver|done..].
Qed.

Lemma record_request_spec :
  answers (captured []) (record_request scenario) (fun e s => captured [e] s) acceptable.
Proof.
  unfold record_request. eapply answers_bind; [apply answers_early, (answers_lift _ _ (fun _ => True)); done|].
  intros payload. apply answers_early. eapply answers_weaken; [apply (capture_spec []); cbn; lia|by intros s []| |done].
  by intros e s [].
Qed.

Lemma send_spec usage evidence P : sent scenario usage -> genuine evidence -> bounded_evidence evidence ->
  answers P (send scenario usage evidence) (fun _ _ => True) acceptable.
Proof.
  intros. intros w _. unfold send. destruct (transport_Do _ _ _ _ w) as [[response|e] w']; [done|].
  destruct (runner_ctxErr w') as [[ctxErr|] w2]; apply acceptable_late; try done; [set_solver|].
  destruct (errors_Is e ErrBodyLimit); set_solver.
Qed.

Lemma measured_error_spec {A} usage evidence err P (Q : A -> _ -> Prop) : sent scenario usage -> genuine evidence ->
  bounded_evidence evidence -> answers P (measured_error runner usage evidence err) Q acceptable.
Proof.
  intros. unfold measured_error. eapply answers_bind with (Q := fun _ _ => True).
  - intros [w r] _. unfold at_world. destruct (artifactBytes runner evidence w). done.
  - intros bytes. apply answers_fail, acceptable_late; [set_solver|done..].
Qed.

Lemma record_body_spec response usage evidence :
  sent scenario usage -> (1 <= length evidence <= 2)%nat -> genuine evidence ->
  answers (captured evidence)
    (if decide (0 < length (rsBody response))%nat then fun s =>
       let '((body, err), s') := recordResponseBody scenario (rsBody response) s in
       match err with
       | Some e => measured_error runner usage (evidence ++ body) (Wrapf (Text "record response body: %w") e) s'
       | None => (Ok (evidence ++ body), s')
       end
     else mret evidence)
    (fun all _ => genuine all ∧ (length evidence <= length all <= length evidence + 513)%nat) acceptable.
Proof.
  intros Hu Hlen Hg. case_decide.
  - intros s Hs. pose proof (recordResponseBody_spec evidence scenario (rsBody response) ltac:(lia) s Hs) as HB.
    destruct (recordResponseBody scenario (rsBody response) s) as [[body err] s'].
    destruct HB as (H1 & H2 & H3). destruct err as [e|].
    + apply (measured_error_spec usage (evidence ++ body) _ (fun _ => True)); [done|done| |done].
      unfold bounded_evidence. rewrite length_app. lia.
    + rewrite length_app. split; [done|lia].
  - intros s Hs. cbn. split; [done|lia].
Qed.

Lemma record_response_spec response usage request : sent scenario usage ->
  answers (captured [request]) (record_response runner scenario response usage [request])
    (fun '(evidence, u) _ => genuine evidence ∧ (2 <= length evidence <= 515)%nat ∧
       (exists n, u = set_ArtifactBytes n usage) ∧
       Z.of_nat (length (rsBody response)) <= bbResponseBytes (snBudget scenario)) acceptable.
Proof.
  intros Hu. apply (answers_pull (genuine [request])); [by intros s []|intros Hg].
  assert (bounded_evidence [request]) as Hb by (unfold bounded_evidence; cbn; lia). unfold record_response.
  eapply answers_bind; [apply answers_late, (answers_lift _ _ (fun _ => True)); done|intros payload].
  eapply answers_bind.
  { eapply answers_weaken; [apply answers_late; [done..|apply (capture_spec [request]); cbn; lia]|by intros s []| |done].
    intros e s [H1 _]. exact H1. }
  intros metadata. apply (answers_pull (genuine ([request] ++ [metadata]))); [by intros s []|intros Hg2]. cbn zeta.
  eapply (answers_bind _ _ _ (fun _ s => captured ([request] ++ [metadata]) s ∧
    Z.of_nat (length (rsBody response)) <= bbResponseBytes (snBudget scenario))).
  { case_decide; [by apply measured_error_spec; [done|done|unfold bounded_evidence; cbn; lia]|].
    intros s Hs. split; [done|lia]. }
  intros []. apply (answers_pull (Z.of_nat (length (rsBody response)) <= bbResponseBytes (snBudget scenario)));
    [by intros s []|intros Hlen].
  eapply answers_bind; [eapply answers_weaken; [apply record_body_spec; [done| |done]; cbn; lia|by intros s []|done|done]|].
  intros evidence. cbn [length app Nat.add].
  apply (answers_pull (genuine evidence ∧ (2 <= length evidence <= 515)%nat)); [by intros s []|intros [H1 H2]].
  eapply answers_bind; [apply answers_late, answers_any; [done|done|done|unfold bounded_evidence; lia]|intros bytes].
  intros s _. cbn. split_and!; [done|lia|lia|by exists bytes|done].
Qed.

(** ** From the recorded exchange to the outcome *)

(** What evaluation said of the exchange, with the two free fields redacted. *)
Definition judged (response : Response) (evidence : list Evidence.Evidence) (ev : evaluation) : Prop :=
  classifyHTTPStatus (rsStatusCode response) = None ∧
  exists answer fields,
    evaluate scenario (rsStatusCode response) (rsHeader response) (rsBody response) (evidenceRefs evidence)
      = Some (Ok answer) ∧
    ev = mkEvaluation (set_fields fields (evOutcome answer)) (evUsage answer) ∧ regular (evOutcome answer).

Lemma body_in_range response : Z.of_nat (length (rsBody response)) <= bbResponseBytes (snBudget scenario) ->
  blen (rsBody response) <= int64_max.
Proof.
  destruct Hscenario as [(input & w & w' & _ & H) _]. apply validated_admitted in H as [H _].
  pose proof (adm_response _ H) as HB. unfold blen, int64_max. unfold maxScenarioResponseBytes in HB.
  change (Z.shiftl 64 20) with 67108864 in HB. lia.
Qed.

Lemma classify_class status class : classifyHTTPStatus status = Some class -> class ∈ classes.
Proof. unfold classifyHTTPStatus. intros H. repeat case_decide; simplify_eq; set_solver. Qed.

Lemma sanitizeOutcome_fields redactor outcome outcome' : sanitizeOutcome redactor outcome = Ok outcome' ->
  exists fields, outcome' = set_fields fields outcome.
Proof.
  unfold sanitizeOutcome. intros H. apply bind_Ok in H as (raw & _ & H). apply bind_Ok in H as ([sanitized r] & _ & H).
  apply bind_Ok in H as ([fields second] & _ & H). apply bind_Ok in H as ([] & _ & H). injection H as <-. by exists fields.
Qed.

Lemma judge_spec response usage evidence : sent scenario usage -> genuine evidence -> bounded_evidence evidence ->
  Z.of_nat (length (rsBody response)) <= bbResponseBytes (snBudget scenario) ->
  answers (fun _ : W => True) (judge runner scenario response usage evidence) (fun ev _ => judged response evidence ev)
    acceptable.
Proof.
  intros Hu Hg Hb Hlen. unfold judge, judged.
  destruct (classifyHTTPStatus (rsStatusCode response)) as [class|] eqn:Hc.
  { apply answers_fail, acceptable_late; [by eapply classify_class|done..]. }
  destruct (evaluate_regular scenario (rsStatusCode response) (rsHeader response) (rsBody response)
    (evidenceRefs evidence) (body_in_range response Hlen)) as (r & -> & Hr).
  eapply answers_bind; [apply answers_late, (answers_lift _ _ (fun _ => True)); done|intros answer].
  apply (answers_pull (r = Ok answer)); [by intros s []|intros ->].
  eapply answers_bind; [apply answers_late, (answers_lift _ _ (fun _ => True)); done|intros outcome].
  intros s [Ho _]. apply sanitizeOutcome_fields in Ho as [fields ->]. split; [done|].
  exists answer, fields. split_and!; [done|done|by apply Hr].
Qed.

(** ** The outcome *)
Record accounted (response : Response) (evidence : list Evidence.Evidence) (o : Executor.Outcome) : Prop := {
  acc_verdict : exists answer,
    evaluate scenario (rsStatusCode response) (rsHeader response) (rsBody response) (evidenceRefs evidence)
      = Some (Ok answer) ∧
    ocVerdict o = outVerdict (evOutcome answer) ∧ ocReasonCode o = outReasonCode (evOutcome answer) ∧
    ocUnknownUsage o = unknown_tokens (evUsage answer) ∧ ocReasonCode o ≠ ReasonHarnessError;
  acc_three : three_valued (ocVerdict o);
  acc_status : classifyHTTPStatus (rsStatusCode response) = None;
  acc_evidence : ocEvidenceRefs o = evidenceRefs evidence;
  (** one result, of the scenario's assertion; a finding about it exactly
      when the target failed *)
  acc_assertion : exists a, ocAssertionResults o = [a] ∧ AssertionResult_Validate a = Ok tt ∧
    arVerdict a = ocVerdict o ∧ arAssertionID a = asAssertionID (snAssertion scenario) ∧
    if decide (ocVerdict o = VerdictFail) then
      exists f, ocFindings o = [f] ∧ fiAssertionResultID f = arAssertionResultID a ∧
        ValidatePair (fiFaultDomain f) (fiFaultFamily f) = Ok tt
    else ocFindings o = []
}.

Lemma findingDomain_pair check : let '(domain, family) := findingDomain check in ValidatePair domain family = Ok tt.
Proof. unfold findingDomain. repeat case_decide; vm_compute; reflexivity. Qed.

Lemma unknown_tokens_valid o : validateUnknownUsage (unknown_tokens o) = Ok tt.
Proof. destruct o as [[i|] [ou|] r t]; vm_compute; reflexivity. Qed.

Lemma finding_spec (assertion : AssertionResult) (outcome : Oracle.Outcome) (P : W -> Prop) :
  answers P (finding scenario assertion outcome)
    (fun f _ => fiAssertionResultID f = arAssertionResultID assertion ∧
       ValidatePair (fiFaultDomain f) (fiFaultFamily f) = Ok tt) (fun _ => True).
Proof.
  unfold finding. eapply answers_bind; [apply answers_any|intros fid].
  pose proof (findingDomain_pair (asCheck (snAssertion scenario))) as Hp.
  destruct (findingDomain _) as [domain family].
  eapply answers_bind; [apply answers_any|intros fingerprint]. by intros s _.
Qed.

Lemma report_spec response usage evidence ev : sent scenario usage -> genuine evidence -> bounded_evidence evidence ->
  judged response evidence ev ->
  answers (fun _ : W => True) (report scenario usage evidence ev)
    (fun o _ => accounted response evidence o ∧ ocUsage o = set_tokens (evUsage ev) usage) acceptable.
Proof.
  intros Hu Hg Hb (Hc & answer & fields & He & -> & Hr). unfold report. cbn zeta.
  cbn [evUsage evOutcome]. pose proof (unknown_tokens_valid (evUsage answer)) as Hunk.
  eapply answers_bind; [apply answers_late, (answers_fail_if _ _ _ (fun _ => True)); done|intros u].
  apply (answers_pull (outReasonCode (evOutcome answer) ≠ ReasonHarnessError)); [by intros s []|intros Hn].
  eapply answers_bind; [by apply answers_late, answers_any|intros assertionID].
  eapply answers_bind; [apply answers_late, (answers_lift _ _ (fun _ => True)); done|intros []].
  eapply (answers_pull (AssertionResult_Validate _ = Ok tt)); [by intros s []|intros Hv].
  destruct Hr as [Hr1 Hr2].
  assert (TargetFailure (evOutcome answer) = true <-> outVerdict (evOutcome answer) = VerdictFail) as Ht by (split; apply Hr1).
  destruct (TargetFailure (set_fields fields (evOutcome answer))) eqn:Hf; cbn in Hf.
  - eapply (answers_bind _ _ _ (fun fs0 _ => exists f, fs0 = [f] ∧ fiAssertionResultID f = assertionID ∧
      ValidatePair (fiFaultDomain f) (fiFaultFamily f) = Ok tt)).
    { eapply answers_bind; [apply answers_late, finding_spec; done|]. intros f. eapply answers_weaken; [apply answers_ret|intros s Hs; exact Hs| |done].
      intros fs0 s (-> & H1 & H2). by exists f. }
    intros fs0 s (f & -> & Hf1 & Hf2). split; [|done]. split; cbn; [|done|done|done|].
    + exists answer. split_and!; done.
    + eexists. split_and!; [done|done|done|done|]. rewrite decide_True by tauto. eexists. by split_and!.
  - eapply answers_bind; [apply answers_ret|]. intros fs0 s [-> _]. split; [|done]. split; cbn; [|done|done|done|].
    + exists answer. split_and!; done.
    + eexists. split_and!; [done|done|done|done|]. rewrite decide_False; [done|]. rewrite <- Ht. congruence.
Qed.
End Attempt.
(** The answer of an attempt. *)
Definition answered (o : Executor.Outcome) : Prop :=
  exists scenario response evidence,
    resolved_for scenario ∧ genuine evidence ∧ (2 <= length evidence <= 515)%nat ∧
    accounted scenario response evidence o ∧ sent scenario (ocUsage o) ∧
    ResponseBytes (ocUsage o) = Z.of_nat (length (rsBody response)) ∧
    ResponseBytes (ocUsage o) <= bbResponseBytes (snBudget scenario).

Lemma attempt_spec scenario : resolved_for scenario ->
  answers (captured []) (attempt runner scenario) (fun o _ => answered o) acceptable.
Proof.
  intros Hs. unfold attempt. eapply answers_bind; [by apply record_request_spec|intros request]. cbn zeta.
  set (usage := mkUsage 1 _ 0 0 0 0 0). assert (sent scenario usage) as Hu by done.
  apply (answers_pull (genuine [request])); [by intros s []|intros Hg].
  assert (bounded_evidence [request]) as Hb by (unfold bounded_evidence; cbn; lia).
  eapply answers_bind.
  { apply (answers_at_world _ _ (at_recorder [request]) (fun _ => True)); [by intros s []|]. by apply send_spec. }
  intros response. eapply answers_bind.
  { eapply answers_weaken; [apply record_response_spec; [done|by apply Hu]|by intros s [_ Hr]; split|done|done]. }
  intros [evidence u]. eapply (answers_pull (genuine evidence ∧ (2 <= length evidence <= 515)%nat ∧
    (exists n, u = set_ArtifactBytes n (set_ResponseBytes (Z.of_nat (length (rsBody response))) usage)) ∧
    Z.of_nat (length (rsBody response)) <= bbResponseBytes (snBudget scenario))); [by intros s|].
  intros (H1 & H2 & [n ->] & H4). set (u := set_ArtifactBytes _ _).
  assert (sent scenario u) as Hu' by done. assert (bounded_evidence evidence) as Hb' by (unfold bounded_evidence; lia).
  eapply answers_bind.
  { apply (answers_at_world _ _ (fun _ => True) (judged scenario response evidence)); [done|]. by apply judge_spec. }
  intros ev. apply (answers_pull (judged scenario response evidence ev)); [by intros s []|intros Hj].
  eapply answers_weaken.
  { apply (answers_at_world _ (fun _ => True) (fun _ => True)); [done|]. by apply report_spec. }
  - done.
  - intros o s ([Ha Ho] & _). exists scenario, response, evidence. rewrite Ho.
    split_and!; [done|done|lia|lia|exact Ha|done|done|exact H4].
  - done.
Qed.

Lemma Run_spec : answers (fun _ => True) (Run runner invocation) (fun o _ => answered o) acceptable.
Proof.
  unfold Run. eapply answers_bind; [apply resolve_spec|intros scenario].
  apply (answers_pull (resolved_for scenario)); [done|intros Hs].
  eapply answers_bind; [apply open_recorder_spec|intros r].
  intros w [_ Hc]. unfold with_recorder. pose proof (attempt_spec scenario Hs (w, r) Hc) as H.
  by destruct (attempt runner scenario (w, r)) as [[o|e] [w' r']].
Qed.
(** ** The executor's view *)
Lemma recorded_ref config redactor store o e : recorded config redactor store o e ->
  ObjectRef_Validate (eviObjectRef e) = Ok tt.
Proof.
  intros [_ _ _ _ (n & stored & encoded & H & _)]. destruct H as [n ref stored [_ _ [H1 H2] (p & _ & H3) _ _] _].
  unfold CanonicalDigest in H3. apply bind_Ok in H3 as (data & _ & H3). injection H3 as H3.
  unfold ObjectRef_Validate. rewrite H1, H2, <- H3, NewDigest_valid. done.
Qed.

Lemma genuine_refs evidence : genuine evidence -> validateEvidenceRefs (evidenceRefs evidence) = Ok tt.
Proof.
  intros H. apply (enumerate_refs_ok (fun index => Wrapf (Sprintf "evidence ref %d: %w" [FInt index]))).
  unfold evidenceRefs. rewrite Forall_fmap, Forall_lookup. intros i e Hi. destruct (H i e Hi) as [[o Ho] _].
  by eapply recorded_ref.
Qed.

Lemma answered_valid o : answered o -> validateOutcome o = Ok tt.
Proof.
  intros (scenario & response & evidence & _ & Hg & Hlen & [(answer & _ & _ & _ & Hu & _) H3 _ He (a & Ha & Hv & _)] & _).
  unfold validateOutcome. rewrite He, Ha, Hu, (genuine_refs _ Hg), unknown_tokens_valid. cbn. rewrite Hv.
  unfold evidenceRefs. rewrite length_fmap. rewrite !bind_ok, !err_if_ok. split_and!; try done; [|lia].
  unfold three_valued in H3. naive_solver.
Qed.

(** The executor reads the failure as it was written: nothing in it is
    replaced or dropped. *)
Definition read_as_written (f : RunFailure) (r : RunError) : Prop :=
  errors_As f = Some r ∧ frErr (read_failure f) = f ∧ frActual (read_failure f) = reUsage r ∧
  frUsageKnown (read_failure f) = reUsageKnown r ∧ frEvidence (read_failure f) = reEvidenceRefs r.

Lemma acceptable_read h : acceptable h -> exists f r, h = Some f ∧ read_as_written f r ∧ reClass r ∈ classes.
Proof.
  intros (r & err & -> & Hc & H). exists (failed_with r err), r. split_and!; [done| |done].
  unfold read_as_written, read_failure, failed_with. cbn.
  destruct (reUsageKnown r) eqn:Hk.
  - destruct H as (-> & scenario & evidence & _ & _ & Hg & _ & ->). by rewrite (genuine_refs _ Hg).
  - by destruct H as (-> & -> & ->).
Qed.
(** [C9] The runner keeps the executor's contract: whatever the registry, the
    transport, the clock and the file system do, an attempt does not panic;
    its outcome passes the executor's validation, with a verdict that is the
    evaluation's, between 2 and 515 valid pieces of evidence of this very
    attempt numbered from 1, the request and response sizes within the
    scenario's budget, one valid result of the scenario's assertion, and a
    finding about it exactly when the target failed; and its error is a typed
    one of a known class that the executor reads as written, with the usage of
    one request and evidence of this attempt when a request was sent and with
    neither before that. *)
Theorem attempts_are_accounted w :
  match (Run runner invocation w).1 with
  | Ok o => validateOutcome o = Ok tt ∧ answered o
  | Err h => acceptable h ∧ exists f r, h = Some f ∧ read_as_written f r ∧ reClass r ∈ classes
  end.
Proof.
  pose proof (Run_spec w I) as H. destruct (Run runner invocation w) as [[o|h] w']; cbn.
  - split; [by apply answered_valid|done].
  - split; [done|by apply acceptable_read].
Qed.
(** [C10] Runs stay within the registry's estimates: with the memory registry
    behind the runner, every estimate that the registry answers is passed on
    by the runner, and an outcome of the same decision used exactly the one
    request and the zero processes of the estimate, and no more response bytes
    than estimated, whatever the target sent. *)
Theorem runs_stay_within_estimates rw usage w
    (Hinv : registry_inv (rwRegistry rw))
    (Hempty : forall o, unmarshal_map [] <> Ok o)
    (Hestimate : forall decision w, registry_Estimate decision w = (Estimate decision rw, w))
    (Hlookup : forall plan decision w, registry_Lookup plan decision w = (Lookup plan decision rw, w))
    (Husage : Estimate (invScenario invocation) rw = Ok usage) :
  Runner_Estimate (invScenario invocation) w = (Ok usage, w) ∧
  forall o, (Run runner invocation w).1 = Ok o ->
    Requests (ocUsage o) = Requests usage ∧ Processes (ocUsage o) = Processes usage ∧
    RequestBytes (ocUsage o) <= maxScenarioRequestBytes ∧ ResponseBytes (ocUsage o) <= ResponseBytes usage.
Proof.
  destruct (proj1 (Estimate_ok rw _ usage Hinv) Husage) as (plan & sc & Hl & -> & Honly).
  pose proof (Lookup_admitted _ _ _ _ Hinv Hl) as Ha.
  destruct (estimate_bounds sc Ha Hempty) as (B1 & B2 & B3 & B4 & B5 & B6). split.
  - unfold Runner_Estimate, mbind, gom_bind. rewrite Hestimate, Husage, B1. cbn -[estimateFor].
    unfold fail_if. rewrite decide_False by lia. done.
  - intros o Ho. pose proof (Run_spec w I) as H. destruct (Run runner invocation w) as [r w']. cbn in Ho. subst r.
    destruct H as (scenario & response & evidence & [(input & w1 & w2 & Hi & Hv) _] & _ & _ & _ & (U1 & U2 & U3) & _ & U4).
    rewrite Hlookup in Hi. injection Hi as Hi _.
    assert (invPlanDigest invocation = plan) as Hp by by eapply Honly. rewrite Hp, Hl in Hi. injection Hi as <-.
    pose proof (validated_admitted _ _ Hv) as [[_ _ A1 _] _]. apply validated_budget in Hv. rewrite Hv in U4.
    split_and!; [congruence|congruence|lia|exact U4].
Qed.
End Spec.

(** ** An attempt on an ordinary disk *)
#[local] Instance sample_json : JSONLibrary := {
  NewDecoder raw := mkDecoder [Delim "{"; Delim "}"] io_EOF false;
  jcs_Transform raw := Ok raw;
  Sum256 data := resize 32 "0"%char data;
  Sum256_length data := length_resize data 32 "0"%char
}.
#[local] Instance sample_documents : DocumentLibrary := {
  document_json := sample_json;
  json_Valid _ := true;
  url_Parse _ := Err (ErrorNew (Text "no URL"))
}.
#[local] Instance sample_native : NativeLibrary := {
  native_documents := sample_documents;
  unmarshal_string s := Ok s;
  decode_number _ := Ok tt
}.
#[local] Instance sample_exchange : ExchangeLibrary := {
  exchange_native := sample_native;
  exchange_any _ := Ok (JObject []);
  exchange_object _ := Ok (Some []);
  ToLower s := s;
  EqualFold s t := bool_decide (s = t);
  ParseMediaType s := Ok s
}.
#[local] Instance sample_registry_library : RegistryLibrary := {
  registry_exchange := sample_exchange;
  ParseRequestURI p := Ok (mkURL "" "" p "" "" false);
  unmarshal_map raw := match raw with [] => Err io_EOF | _ => Ok (Some []) end
}.
#[local] Instance sample_decoder : AnyDecoder := { any_library := sample_json; decode_any _ := Ok (JObject []) }.
#[local] Instance sample_redaction : RedactionLibrary := {
  redaction_decoder := sample_decoder;
  lower s := s;
  Marshal_any _ := Ok (list_ascii_of_string "{}")
}.

(** The n-th piece of evidence and its encoding. *)
Definition sample_text (n : Z) : list ascii := list_ascii_of_string ("{" +:+ pretty n +:+ "}").
Definition sample_payload : Digest := NewDigest (list_ascii_of_string "{}").
Definition sample_runner : Runner :=
  mkRunner (disk_store 1000) (mkRedactor ∅ []) (mkProducer "doctor" "1" sample_payload) 0.
Definition sample_invocation : Invocation :=
  mkInvocation Recorder.sample_id Recorder.sample_id Recorder.sample_id RawRegistrySpec.sample_digest
    RawRegistrySpec.sample_decision 1.
Definition sample_item (n : Z) (direction : Direction) (kind : string) : Evidence.Evidence :=
  set_meta
    (mkEnvelopeMeta EvidenceSchemaVersion "Evidence" "" (NewDigest (sample_text n))
       (mkObjectRef "Evidence" "" (NewDigest (sample_text n))) (rnProducer sample_runner) 7 ∅)
    (draft (run_config sample_runner sample_invocation)
       (mkObserved n LayerUpstreamApplication InstrumentationDirect direction kind 0 None None [] PayloadJSON [])
       (mkSanitizedPayload (list_ascii_of_string "{}") [] "redacted_json") (mkObjectRef "Payload" "" sample_payload)).
Definition sample_items : list Evidence.Evidence :=
  [sample_item 1 DirectionCoreToTarget "http_request"; sample_item 2 DirectionTargetToCore "http_response_metadata";
   sample_item 3 DirectionTargetToCore "http_response_body"].
#[local] Instance sample_codec : EvidenceCodec := {
  Marshal_Evidence e := Ok (sample_text (eviSequence e));
  Marshal_projection p := Ok (sample_text (epSequence p));
  Decode_Evidence raw :=
    match list_find (fun e => sample_text (eviSequence e) = raw) sample_items with
    | Some (_, e) => Ok (e, Err io_EOF)
    | None => Err io_EOF
    end
}.
#[local] Instance sample_runner_codec : RunnerCodec := {
  Marshal_projected _ := Ok (list_ascii_of_string "{}");
  Decode_fields fields _ := Ok (fields, Err io_EOF)
}.
Definition sample_response : Response :=
  mkResponse 200 {["Content-Type" := ["application/json"]]} (list_ascii_of_string "{}") "HTTP/1.1" 5.
#[local] Instance sample_environment : RunnerEnvironment Disk := {
  transport_Do _ _ _ _ := mret sample_response;
  runner_ctxErr d := (None, d);
  since_started d := (0, d);
  runner_Now d := (7, d);
  runner_NewID := mret Recorder.sample_id
}.
#[local] Instance sample_registry : ScenarioRegistry Disk := {
  registry_Estimate decision := lift (Estimate decision RawRegistrySpec.sample_world);
  registry_Lookup plan decision := lift (Lookup plan decision RawRegistrySpec.sample_world)
}.

(** The finding of an attempt whose response has no finish reason. *)
Example sample_attempt_finds_the_fault :
  match (Run sample_runner sample_invocation empty_disk).1 with
  | Ok o => ocVerdict o = VerdictFail ∧ fiCategory <$> ocFindings o = ["finish_reason_missing"] ∧
      ocEvidenceRefs o = evidenceRefs sample_items ∧ ocUsage o = mkUsage 1 2 2 15 0 0 0
  | Err _ => False
  end.
Proof. vm_compute. split_and!; reflexivity. Qed.

Lemma runs_stay_within_estimates_witness :
  Runner_Estimate RawRegistrySpec.sample_decision empty_disk = (Ok RawRegistrySpec.sample_estimate, empty_disk).
Proof.
  assert (forall o, unmarshal_map [] <> Ok o) as He by (intros o H; discriminate H).
  refine (proj1 (runs_stay_within_estimates sample_runner sample_invocation RawRegistrySpec.sample_world
    RawRegistrySpec.sample_estimate empty_disk _ He _ _ _)).
  - apply registry_run_inv, empty_registry_inv.
  - reflexivity.
  - reflexivity.
  - vm_compute. reflexivity.
Defined.
