(* ===== verification/PackPattern.v ===== *)
(** * pkg/packapi: names, paths, globs, byte sizes and templates

    The patterns of types.go and validate.go as the regular expressions of
    Regex.v, validateSafeRelativePath, globMatches, parseByteSize, and the
    templates of template.go. *)
From Stdlib Require Import ZArith Ascii String Lia.
From stdpp Require Import base gmap sets list strings pretty.
From S2P Require Import Prelude Regex SSE RawJSON.
Local Open Scope Z_scope.
Local Open Scope string_scope.
Local Open Scope list_scope.

(** ** Names and versions *)

(** [MatchString] of a pattern [^...$]. *)
Definition full_match (r : regex) (s : string) : bool :=
  bool_decide (is_Some (rmatch r None (list_ascii_of_string s)
    (fun _ rest => match rest with [] => Some [] | _ => None end))).

(** [r{0,n}]. *)
Fixpoint at_most (n : nat) (r : regex) : regex :=
  match n with O => REmpty | S n => RAlt (RSeq r (at_most n r)) REmpty end.
(** [r?]. *)
Definition optional (r : regex) : regex := RAlt r REmpty.

Definition resourceNamePattern (s : string) : bool :=
  full_match (RSeq (RClass is_lower) (at_most 127 (RClass (fun c => is_lower c || is_digit c || is_one_of "._-" c)))) s.
Definition artifactNamePattern (s : string) : bool :=
  full_match (RSeq (RClass (fun c => is_lower c || is_digit c))
    (at_most 127 (RClass (fun c => is_lower c || is_digit c || is_one_of "._/-" c)))) s.

(** A decimal number without leading zeros. *)
Definition number_pattern : regex :=
  RAlt (rchar "0") (RSeq (RClass (byte_in 49 57)) (RStar (RClass is_digit))).
(** [[0-9A-Za-z.-]+]. *)
Definition identifiers_pattern : regex := at_least 1 (RClass (fun c => is_alnum c || is_one_of ".-" c)).
Definition semverPattern (s : string) : bool :=
  full_match (rseq [number_pattern; rchar "."; number_pattern; rchar "."; number_pattern;
                    optional (RSeq (rchar "-") identifiers_pattern); optional (RSeq (rchar "+") identifiers_pattern)]) s.
Definition calverPattern (s : string) : bool :=
  full_match (rseq [rliteral "20"; RClass is_digit; RClass is_digit; rchar ".";
                    RAlt (RSeq (rchar "0") (RClass (byte_in 49 57))) (RSeq (rchar "1") (RClass (byte_in 48 50)));
                    rchar "."; number_pattern]) s.

(** ** Paths *)

(** [strings.Split(s, "/")]. *)
Fixpoint Split_slash (s : string) : list string :=
  match s with
  | EmptyString => [""]
  | String c s' =>
      match Split_slash s' with
      | first :: rest => if is_byte 47 c then "" :: first :: rest else String c first :: rest
      | [] => []
      end
  end.

(** [path.Clean] of a path that does not start with a slash; [stack] holds the
    kept components, last first. *)
Definition clean_segment (stack : list string) (segment : string) : list string :=
  if decide (segment = "" ∨ segment = ".") then stack
  else if decide (segment = "..") then
    match stack with
    | top :: below => if decide (top = "..") then segment :: stack else below
    | [] => [segment]
    end
  else segment :: stack.
Definition Clean (p : string) : string :=
  match rev (foldl clean_segment [] (Split_slash p)) with
  | [] => "."
  | segments => String.concat "/" segments
  end.

Definition validateSafeRelativePath (value : string) (allowGlob : bool) : result error unit :=
  err_if (value = "" ∨ Contains value (String "000" "") = true ∨ Contains value "\" = true ∨ HasPrefix value "/" = true)
    (ErrorNew (Sprintf "unsafe relative path %q" [FStr value]));;
  err_if (Contains value "://" = true ∨ Contains value "{{" = true ∨ Contains value "}}" = true)
    (ErrorNew (Sprintf "path %q cannot be a URL or template" [FStr value]));;
  for_each (fun segment =>
    err_if (segment = "" ∨ segment = "." ∨ segment = "..") (ErrorNew (Sprintf "unsafe path segment in %q" [FStr value]));;
    err_if (allowGlob = false ∧ string_any (is_one_of "*?[]") segment = true)
      (ErrorNew (Sprintf "fixture path %q cannot contain glob syntax" [FStr value]))) (Split_slash value);;
  err_if (Clean value ≠ value) (ErrorNew (Sprintf "path %q is not canonical" [FStr value])).

(** ** Globs *)

(** The runes of a string, as regexp reads them: U+FFFD for a byte that does
    not start a well-formed sequence. *)
Definition RuneError : N := 65533.
Definition tail6 (b : ascii) : N := (byte b - 128)%N.
Fixpoint runes (s : list ascii) : list N :=
  match s with
  | [] => []
  | a :: s1 =>
      if byte_in 0 127 a then byte a :: runes s1
      else match s1 with
      | [] => [RuneError]
      | b :: s2 =>
          if byte_in 194 223 a && byte_in 128 191 b then ((byte a - 192) * 64 + tail6 b)%N :: runes s2
          else match s2 with
          | [] => RuneError :: runes s1
          | c :: s3 =>
              if byte_in 128 191 c &&
                 (is_byte 224 a && byte_in 160 191 b || is_byte 237 a && byte_in 128 159 b ||
                  (byte_in 225 236 a || byte_in 238 239 a) && byte_in 128 191 b)
              then ((byte a - 224) * 4096 + tail6 b * 64 + tail6 c)%N :: runes s3
              else match s3 with
              | [] => RuneError :: runes s1
              | d :: s4 =>
                  if byte_in 128 191 c && byte_in 128 191 d &&
                     (is_byte 240 a && byte_in 144 191 b || is_byte 244 a && byte_in 128 143 b ||
                      byte_in 241 243 a && byte_in 128 191 b)
                  then ((byte a - 240) * 262144 + tail6 b * 4096 + tail6 c * 64 + tail6 d)%N :: runes s4
                  else RuneError :: runes s1
              end
          end
      end
  end.

(** What globMatches writes into the expression: the quoted rune of one byte
    of the pattern, a rune or any runes but the slash, any runes but newline
    for two stars, and optionally the same with a slash when one follows. *)
Inductive glob :=
| Rune (r : N)
| NotSlash
| NotSlashes
| Anything
| Directories.

Fixpoint glob_expression (pattern : string) : list glob :=
  match pattern with
  | EmptyString => []
  | String "*" (String "*" (String "/" rest)) => Directories :: glob_expression rest
  | String "*" (String "*" rest) => Anything :: glob_expression rest
  | String "*" rest => NotSlashes :: glob_expression rest
  | String "?" rest => NotSlash :: glob_expression rest
  | String c rest => Rune (byte c) :: glob_expression rest
  end.

Definition slash : N := 47.
Definition newline : N := 10.

(** [MatchString]: the whole text is matched. *)
Fixpoint glob_match (g : list glob) : list N -> bool :=
  match g with
  | [] => fun s => match s with [] => true | _ => false end
  | Rune r :: g => fun s => match s with c :: s => N.eqb c r && glob_match g s | [] => false end
  | NotSlash :: g => fun s => match s with c :: s => negb (N.eqb c slash) && glob_match g s | [] => false end
  | NotSlashes :: g => fix go s :=
      glob_match g s || match s with c :: s => negb (N.eqb c slash) && go s | [] => false end
  | Anything :: g => fix go s :=
      glob_match g s || match s with c :: s => negb (N.eqb c newline) && go s | [] => false end
  | Directories :: g => fun s => glob_match g s || (fix go s :=
      match s with
      | c :: s => N.eqb c slash && glob_match g s || negb (N.eqb c newline) && go s
      | [] => false
      end) s
  end.

Definition globMatches (pattern value : string) : bool :=
  glob_match (glob_expression pattern) (runes (list_ascii_of_string value)).

(** ** Byte sizes *)
Definition KiB : Z := Z.shiftl 1 10.
Definition MiB : Z := Z.shiftl 1 20.
Definition GiB : Z := Z.shiftl 1 30.
Definition ByteSize_Validate (size : Z) : result error unit :=
  err_if (size <= 0) (ErrorNew (Text "byte size must be positive")).

Definition units : list (string * Z) := [("GiB", GiB); ("MiB", MiB); ("KiB", KiB); ("B", 1)].
Definition TrimSuffix (s suffix : string) : string :=
  if HasSuffix s suffix then String.substring 0 (String.length s - String.length suffix) s else s.

(** The loop over the units. *)
Fixpoint parse_unit (text : string) (units : list (string * Z)) : result error Z :=
  match units with
  | [] => Err (ErrorNew (Sprintf "byte size %q must use B, KiB, MiB, or GiB" [FStr text]))
  | (suffix, factor) :: rest =>
      if HasSuffix text suffix then
        let number := TrimSuffix text suffix in
        err_if (number = "" ∨ len number > 1 ∧ HasPrefix number "0" = true)
          (ErrorNew (Sprintf "byte size %q is not canonical" [FStr text]));;
        match ParseInt number with
        | Some value =>
            err_if (value <= 0 ∨ value > int64_max / factor) (ErrorNew (Sprintf "invalid byte size %q" [FStr text]));;
            mret (int64_wrap (value * factor))
        | None => Err (ErrorNew (Sprintf "invalid byte size %q" [FStr text]))
        end
      else parse_unit text rest
  end.
Definition parseByteSize (text : string) : result error Z := parse_unit text units.

Definition ByteSize_MarshalJSON (size : Z) : result error (list ascii) :=
  ByteSize_Validate size;;
  mret (list_ascii_of_string (pretty size)).
(** [unmarshal_text] is [json.Unmarshal] into a string; the receiver is not nil. *)
Definition ByteSize_UnmarshalJSON (unmarshal_text : list ascii -> result error string) (raw : list ascii) : result error Z :=
  text ← wrap (fun _ => ErrorNew (Text "byte size must be a quoted canonical binary size such as 16MiB")) (unmarshal_text raw);
  parseByteSize text.

(** ** Templates *)
Definition blank : regex := RStar (RClass (is_one_of (String " " (String "009" "")))).
Definition variable_pattern : regex :=
  RSeq (RClass (fun c => is_upper c || is_lower c)) (RStar (RClass (fun c => is_alnum c || is_one_of "_.-" c))).
Definition templatePattern : regex :=
  rseq [rliteral "{{"; blank; variable_pattern; blank; rliteral "}}"].

(** The submatch of a match: the name after the braces and blanks. *)
Fixpoint drop_while (p : ascii -> bool) (s : list ascii) : list ascii :=
  match s with c :: s' => if p c then drop_while p s' else s | [] => [] end.
Fixpoint take_while (p : ascii -> bool) (s : list ascii) : list ascii :=
  match s with c :: s' => if p c then c :: take_while p s' else [] | [] => [] end.
Definition submatch (w : list ascii) : string :=
  string_of_list_ascii (take_while (fun c => is_alnum c || is_one_of "_.-" c)
    (drop_while (is_one_of (String " " (String "009" ""))) (drop 2 w))).

(** [FindAllStringSubmatchIndex]: the text before each match with the match,
    and the text after the last one.  Each step passes a byte, so the length
    of the text is enough fuel; [before] is collected backwards. *)
Fixpoint find_all (r : regex) (fuel : nat) (prev : option ascii) (before s : list ascii)
    : list (list ascii * list ascii) * list ascii :=
  match fuel, s with
  | S fuel, c :: s' =>
      match match_length r prev s with
      | O => find_all r fuel (Some c) (c :: before) s'
      | n =>
          let w := take n s in
          let '(ms, tail) := find_all r fuel (last w) [] (drop n s) in
          ((rev before, w) :: ms, tail)
      end
  | _, _ => ([], rev before ++ s)
  end.
Definition FindAll (r : regex) (s : string) : list (list ascii * list ascii) * list ascii :=
  find_all r (String.length s) None [] (list_ascii_of_string s).

(** [ReplaceAllString(s, "")]. *)
Definition remainder (found : list (list ascii * list ascii) * list ascii) : string :=
  string_of_list_ascii (concat (fst <$> found.1) ++ found.2).

Definition malformed_template (found : list (list ascii * list ascii) * list ascii) : bool :=
  Contains (remainder found) "{{" || Contains (remainder found) "}}".

Definition MaxExpandedTemplateBytes : Z := Z.shiftl 1 20.
Definition expansion_limit : error :=
  ErrorNew (Sprintf "expanded template exceeds %d bytes" [FInt MaxExpandedTemplateBytes]).

(** The loop over the matches; [expanded] is the builder. *)
Fixpoint expand_matches (values : gmap string string) (found : list (list ascii * list ascii)) (expanded : list ascii)
    : result error (list ascii) :=
  match found with
  | [] => Ok expanded
  | (before, w) :: rest =>
      let variable := submatch w in
      match values !! variable with
      | None => Err (ErrorNew (Sprintf "template variable %q has no resolved value" [FStr variable]))
      | Some value =>
          let expanded := expanded ++ before ++ list_ascii_of_string value in
          err_if (Z.of_nat (length expanded) > MaxExpandedTemplateBytes) expansion_limit;;
          expand_matches values rest expanded
      end
  end.

Definition ExpandTemplateString (template : string) (values : gmap string string) : result error string :=
  let found := FindAll templatePattern template in
  err_if (malformed_template found = true) (ErrorNew (Text "malformed template expression"));;
  expanded ← expand_matches values found.1 [];
  let expanded := expanded ++ found.2 in
  err_if (Z.of_nat (length expanded) > MaxExpandedTemplateBytes) expansion_limit;;
  mret (string_of_list_ascii expanded).

Example sample_expansion :
  ExpandTemplateString "a {{ target.model }}-{{x}}." {["target.model" := "m{{x}}"; "x" := "1"]} = Ok "a m{{x}}-1.".
Proof. vm_compute. reflexivity. Qed.
Example sample_patterns :
  (semverPattern "1.20.0-rc.1+b", semverPattern "01.2.3", calverPattern "2026.07.0", calverPattern "2026.13.0",
   resourceNamePattern "a-b", artifactNamePattern "a/B", validateSafeRelativePath "a/../b" false) =
  (true, false, true, false, true, false, Err (ErrorNew (Sprintf "unsafe path segment in %q" [FStr "a/../b"]))).
Proof. vm_compute. reflexivity. Qed.
Example sample_globs :
  (globMatches "a/**/*.yaml" "a/b/c/d.yaml", globMatches "a/**/*.yaml" "a/d.yaml", globMatches "*.yaml" "a/d.yaml",
   globMatches "**" "a/b", globMatches "?/x" "b/x", parseByteSize "16MiB", is_ok (parseByteSize "016MiB")) =
  (true, true, false, true, true, Ok 16777216, false).
Proof. vm_compute. reflexivity. Qed.
