(* ===== verification/PackPatternSpec.v ===== *)
(** * What paths, globs, sizes and templates of packs mean

    A safe path has only plain segments; a glob selects within directories; a
    byte size is the number that was written; a template is expanded in one
    pass over its own variables. *)
From Stdlib Require Import ZArith Ascii String Lia.
From stdpp Require Import base gmap sets list strings.
From S2P Require Import Prelude Regex SSE RawJSON PackPattern.
Local Open Scope Z_scope.
Local Open Scope string_scope.
Local Open Scope list_scope.

(** ** Paths *)
Definition plain_segment (segment : string) : Prop := segment ≠ "" ∧ segment ≠ "." ∧ segment ≠ "..".

Lemma Split_slash_cons s : exists first rest, Split_slash s = first :: rest.
Proof.
  induction s as [|c s (f & r & IH)]; [by eexists _, _|]. cbn. rewrite IH. destruct (is_byte 47 c); by eexists _, _.
Qed.
Lemma is_byte_47 c : is_byte 47 c = true -> c = "/"%char.
Proof.
  unfold is_byte, byte. rewrite N.eqb_eq. intros H. apply (f_equal ascii_of_N) in H. by rewrite ascii_N_embedding in H.
Qed.
Lemma concat_split s : String.concat "/" (Split_slash s) = s.
Proof.
  induction s as [|c s IH]; [done|]. destruct (Split_slash_cons s) as (f & r & E). cbn. rewrite E in *.
  destruct (is_byte 47 c) eqn:Hc.
  - apply is_byte_47 in Hc as ->. cbn in *. by rewrite IH.
  - rewrite <- IH. by destruct r.
Qed.
Lemma clean_plain segments stack : Forall plain_segment segments ->
  foldl clean_segment stack segments = rev segments ++ stack.
Proof.
  intros H. revert stack. induction H as [|s ss (H1 & H2 & H3) Hs IH]; intros stack; [done|]. cbn. rewrite IH.
  rewrite <- app_assoc. f_equal. cbn. unfold clean_segment. rewrite decide_False by tauto. by rewrite decide_False.
Qed.
Lemma Clean_plain p : Forall plain_segment (Split_slash p) -> Clean p = p.
Proof.
  intros H. unfold Clean. rewrite clean_plain, app_nil_r, rev_involutive by done.
  rewrite <- (concat_split p) at 2. by destruct (Split_slash_cons p) as (f & r & ->).
Qed.

Lemma for_each_Ok {E A} (f : A -> result E unit) xs : for_each f xs = Ok tt <-> Forall (fun x => f x = Ok tt) xs.
Proof.
  induction xs as [|x xs IH]; cbn; [split; [constructor|done]|]. rewrite Forall_cons, <- IH.
  destruct (f x) as [[]|e]; cbn; naive_solver.
Qed.

(** Everything a safe path is. *)
Record safe_path (value : string) (allowGlob : bool) : Prop := {
  sp_characters : Contains value (String "000" "") = false ∧ Contains value "\" = false ∧ HasPrefix value "/" = false;
  sp_plain_text : Contains value "://" = false ∧ Contains value "{{" = false ∧ Contains value "}}" = false;
  sp_segments : Forall plain_segment (Split_slash value);
  sp_glob : allowGlob = false -> Forall (fun s => string_any (is_one_of "*?[]") s = false) (Split_slash value)
}.

(** Paths are judged by their segments: a path of a pack is accepted
    exactly when it is relative, has no NUL, backslash, URL or template in it,
    and splits into segments of which none is empty, a dot or two dots (and,
    unless it is a pattern, none has glob characters); the comparison with
    the cleaned path never refuses what passed the other checks. *)
Theorem safe_paths_have_plain_segments value allowGlob :
  (validateSafeRelativePath value allowGlob = Ok tt <-> safe_path value allowGlob) ∧
  (safe_path value allowGlob -> Clean value = value).
Proof.
  assert (C : safe_path value allowGlob -> Clean value = value) by (intros []; by apply Clean_plain).
  split; [|exact C]. unfold validateSafeRelativePath. split.
  - intros H. apply bind_Ok in H as ([] & H1%err_if_ok & H). apply bind_Ok in H as ([] & H2%err_if_ok & H).
    apply bind_Ok in H as ([] & H3%for_each_Ok & H4%err_if_ok).
    assert (F : Forall (fun s => plain_segment s ∧ (allowGlob = false -> string_any (is_one_of "*?[]") s = false)) (Split_slash value)).
    { eapply Forall_impl; [exact H3|]. intros s Hs. apply bind_Ok in Hs as ([] & Hs1%err_if_ok & Hs2%err_if_ok).
      unfold plain_segment. split; [tauto|]. intros ->. apply not_true_is_false. tauto. }
    apply Forall_and in F as [F1 F2]. split; [..|done|].
    + split_and!; apply not_true_is_false; tauto.
    + split_and!; apply not_true_is_false; tauto.
    + intros ->. eapply Forall_impl; [exact F2|]. cbn. intros s Hs. by apply Hs.
  - intros P. pose proof (C P) as HC. destruct P as [(C1 & C2 & C3) (T1 & T2 & T3) S G].
    apply bind_Ok. exists tt. split.
    { apply err_if_ok. rewrite C1, C2, C3. intros [->|?]; [|naive_solver]. by apply Forall_inv in S as (? & _). }
    apply bind_Ok. exists tt. split; [apply err_if_ok; rewrite T1, T2, T3; naive_solver|].
    apply bind_Ok. exists tt. split; [|apply err_if_ok; tauto]. apply for_each_Ok, Forall_forall. intros s Hs.
    rewrite Forall_forall in S, G. destruct (S s Hs) as (? & ? & ?). apply bind_Ok. exists tt.
    split; [apply err_if_ok; tauto|]. apply err_if_ok. intros [Hg Ha]. specialize (G Hg).
    by rewrite (G s Hs) in Ha.
Qed.

(** ** Globs *)
Inductive glob_denotes : list glob -> list N -> Prop :=
| gd_end : glob_denotes [] []
| gd_rune r g s : glob_denotes g s -> glob_denotes (Rune r :: g) (r :: s)
| gd_not_slash c g s : c ≠ slash -> glob_denotes g s -> glob_denotes (NotSlash :: g) (c :: s)
| gd_not_slashes w g s : slash ∉ w -> glob_denotes g s -> glob_denotes (NotSlashes :: g) (w ++ s)
| gd_anything w g s : newline ∉ w -> glob_denotes g s -> glob_denotes (Anything :: g) (w ++ s)
| gd_here g s : glob_denotes g s -> glob_denotes (Directories :: g) s
| gd_below w g s : newline ∉ w -> glob_denotes g s -> glob_denotes (Directories :: g) (w ++ slash :: s).

(** A run of runes but [x], and what follows. *)
Lemma run_match (x : N) (f : list N -> bool) s :
  (fix go s := f s || match s with c :: s => negb (N.eqb c x) && go s | [] => false end) s = true <->
  exists w t, s = w ++ t ∧ x ∉ w ∧ f t = true.
Proof.
  induction s as [|c s IH].
  - rewrite orb_false_r. split.
    + intros H. exists [], []. split_and!; [done|by apply not_elem_of_nil|done].
    + intros (w & t & E & _ & H). symmetry in E. apply app_eq_nil in E as [-> ->]. done.
  - rewrite orb_true_iff, andb_true_iff, negb_true_iff, N.eqb_neq, IH. split.
    + intros [H|[Hc (w & t & -> & Hw & H)]].
      * exists [], (c :: s). split_and!; [done|by apply not_elem_of_nil|done].
      * exists (c :: w), t. split_and!; [done|by rewrite not_elem_of_cons|done].
    + intros ([|c' w] & t & E & Hw & H); cbn in E; [subst; by left|]. injection E as <- ->.
      apply not_elem_of_cons in Hw as [Hc Hw]. right. split; [done|]. by exists w, t.
Qed.
Lemma below_match (f : list N -> bool) s :
  (fix go s := match s with c :: s => N.eqb c slash && f s || negb (N.eqb c newline) && go s | [] => false end) s = true <->
  exists w t, s = w ++ slash :: t ∧ newline ∉ w ∧ f t = true.
Proof.
  induction s as [|c s IH]; [split; [done|by intros ([|] & ? & ? & _)]|].
  rewrite orb_true_iff, !andb_true_iff, negb_true_iff, N.eqb_neq, N.eqb_eq, IH. split.
  - intros [[-> H]|[Hc (w & t & -> & Hw & H)]].
    + exists [], s. split_and!; [done|by apply not_elem_of_nil|done].
    + exists (c :: w), t. split_and!; [done|by rewrite not_elem_of_cons|done].
  - intros ([|c' w] & t & E & Hw & H); cbn in E; injection E as -> ->; [by left|].
    apply not_elem_of_cons in Hw as [Hc Hw]. right. split; [done|]. by exists w, t.
Qed.

Lemma glob_match_denotes g : forall s, glob_match g s = true <-> glob_denotes g s.
Proof.
  induction g as [|[r| | | |] g IH]; intros s.
  - destruct s; cbn; split; [constructor|done|done|by inversion 1].
  - destruct s as [|c s]; cbn; [split; [done|by inversion 1]|]. rewrite andb_true_iff, N.eqb_eq, IH. split.
    + intros [-> H]. by constructor.
    + by inversion 1.
  - destruct s as [|c s]; cbn; [split; [done|by inversion 1]|]. rewrite andb_true_iff, negb_true_iff, N.eqb_neq, IH. split.
    + intros [Hc H]. by constructor.
    + by inversion 1.
  - cbn [glob_match]. rewrite run_match. split.
    + intros (w & t & -> & Hw & H%IH). by constructor.
    + inversion 1; subst. eexists _, _. split_and!; [done|done|by apply IH].
  - cbn [glob_match]. rewrite run_match. split.
    + intros (w & t & -> & Hw & H%IH). by constructor.
    + inversion 1; subst. eexists _, _. split_and!; [done|done|by apply IH].
  - cbn [glob_match]. rewrite orb_true_iff, below_match, IH. split.
    + intros [H|(w & t & -> & Hw & H%IH)]; by constructor.
    + inversion 1; subst; [by left|]. right. eexists _, _. split_and!; [done|done|by apply IH].
Qed.

(** ** Runes *)
Lemma byte_in_true lo hi c : byte_in lo hi c = true <-> (lo <= byte c <= hi)%N.
Proof. unfold byte_in. rewrite andb_true_iff, !N.leb_le. done. Qed.
Lemma is_byte_true n c : is_byte n c = true <-> byte c = n.
Proof. unfold is_byte. apply N.eqb_eq. Qed.

(** One step of the decoder: an ASCII byte is its own rune, other runes are
    not ASCII and made of other bytes. *)
Definition rune_step (r : N) (w : list ascii) : Prop :=
  (exists a, w = [a] ∧ r = byte a ∧ (byte a < 128)%N) ∨ (128 <= r)%N ∧ w ≠ [] ∧ Forall (fun c => (128 <= byte c)%N) w.

Lemma runes_step s : s ≠ [] -> exists r w rest, s = w ++ rest ∧ runes s = r :: runes rest ∧ rune_step r w.
Proof.
  intros Hs. destruct s as [|a s1]; [done|]. cbn [runes].
  destruct (byte_in 0 127 a) eqn:Ea.
  { exists (byte a), [a], s1. apply byte_in_true in Ea. split_and!; [done|done|]. left. exists a. split_and!; [done|done|lia]. }
  assert (Ha : (128 <= byte a)%N).
  { apply not_true_iff_false in Ea. rewrite byte_in_true in Ea. lia. }
  assert (Herr : exists r w rest, a :: s1 = w ++ rest ∧ RuneError :: runes s1 = r :: runes rest ∧ rune_step r w).
  { exists RuneError, [a], s1. split_and!; [done|done|]. right. split_and!; [done|done|by repeat constructor]. }
  destruct s1 as [|b s2]; [exact Herr|].
  destruct (byte_in 194 223 a && byte_in 128 191 b) eqn:E2.
  { apply andb_true_iff in E2 as [E2%byte_in_true E3%byte_in_true]. eexists _, [a; b], s2. split_and!; [done|done|].
    right. unfold tail6. split_and!; [lia|done|]. repeat constructor; lia. }
  destruct s2 as [|c s3]; [exact Herr|].
  destruct (byte_in 128 191 c && _) eqn:E3.
  { rewrite !andb_true_iff, !orb_true_iff, !andb_true_iff, orb_true_iff, !byte_in_true, !is_byte_true in E3.
    eexists _, [a; b; c], s3. split_and!; [done|done|]. right. unfold tail6. split_and!; [lia|done|]. repeat constructor; lia. }
  destruct s3 as [|d s4]; [exact Herr|].
  destruct (byte_in 128 191 c && byte_in 128 191 d && _) eqn:E4; [|exact Herr].
  rewrite !andb_true_iff, !orb_true_iff, !andb_true_iff, !byte_in_true, !is_byte_true in E4.
  eexists _, [a; b; c; d], s4. split_and!; [done|done|]. right. unfold tail6. split_and!; [lia|done|]. repeat constructor; lia.
Qed.

Lemma runes_induction (P : list ascii -> Prop) : P [] ->
  (forall r w rest, rune_step r w -> runes (w ++ rest) = r :: runes rest -> P rest -> P (w ++ rest)) -> forall s, P s.
Proof.
  intros H0 HS s. remember (length s) as n eqn:E. assert (Hn : (length s <= n)%nat) by lia. clear E. revert s Hn.
  induction n as [|n IH]; intros s Hn; [by destruct s; [|cbn in Hn; lia]|].
  destruct s as [|a s']; [done|]. destruct (runes_step (a :: s') ltac:(done)) as (r & w & rest & E & Hr & Hw).
  rewrite E in *. apply (HS r w rest Hw Hr). apply IH. rewrite length_app in Hn.
  destruct Hw as [(? & -> & _)|(_ & Hw & _)]; [cbn in Hn; lia|]. destruct w; [done|cbn in Hn; lia].
Qed.

Lemma runes_ascii s : Forall (fun r => (r < 128)%N) (runes s) -> runes s = byte <$> s.
Proof.
  induction s as [|r w rest Hw Hr IH] using runes_induction; [done|]. rewrite Hr. intros [H1 H2]%Forall_cons.
  destruct Hw as [(a & -> & -> & _)|(? & _)]; [|lia]. cbn. by rewrite IH.
Qed.

Lemma filter_none {A} (P : A -> Prop) `{!forall x, Decision (P x)} l : Forall (fun x => ~ P x) l -> filter P l = [].
Proof. induction 1 as [|x l Hx _ IH]; [done|]. rewrite filter_cons. by rewrite decide_False. Qed.

Definition slashes (s : list ascii) : nat := length (filter (fun c => byte c = slash) s).
Lemma slashes_runes s : slashes s = length (filter (fun r => r = slash) (runes s)).
Proof.
  induction s as [|r w rest Hw Hr IH] using runes_induction; [done|]. rewrite Hr. unfold slashes in *.
  rewrite filter_app, length_app, IH, filter_cons. destruct Hw as [(a & -> & -> & _)|(H1 & _ & H2)].
  - rewrite filter_cons, filter_nil. by destruct (decide (byte a = slash)).
  - rewrite decide_False by (unfold slash; lia). rewrite filter_none; [done|].
    eapply Forall_impl; [exact H2|]. intros c Hc. cbn in Hc |- *. unfold slash. lia.
Qed.

(** Two stars in a row. *)
Fixpoint double_star (pattern : string) : bool :=
  match pattern with
  | EmptyString => false
  | String "*" (String "*" _) => true
  | String _ rest => double_star rest
  end.
(** A pattern that says what it matches. *)
Definition literal_pattern (pattern : string) : Prop :=
  string_any (is_one_of "*?") pattern = false ∧ Forall (fun c => (byte c < 128)%N) (list_ascii_of_string pattern).

Lemma glob_expression_plain c rest : is_one_of "*?" c = false ->
  glob_expression (String c rest) = Rune (byte c) :: glob_expression rest.
Proof. destruct c as [[] [] [] [] [] [] [] []]; done. Qed.
Lemma literal_expression pattern : string_any (is_one_of "*?") pattern = false ->
  glob_expression pattern = Rune <$> (byte <$> list_ascii_of_string pattern).
Proof.
  induction pattern as [|c s IH]; intros H; [done|]. apply orb_false_iff in H as [Hc Hs].
  rewrite glob_expression_plain by done. cbn. by rewrite IH.
Qed.
Lemma rune_denotes rs s : glob_denotes (Rune <$> rs) s <-> s = rs.
Proof.
  revert s. induction rs as [|r rs IH]; intros s; cbn.
  - split; [by inversion 1|]. intros ->. constructor.
  - split; [inversion 1; subst; f_equal; by apply IH|]. intros ->. constructor. by apply IH.
Qed.
Lemma byte_inj (s t : list ascii) : byte <$> s = byte <$> t -> s = t.
Proof.
  apply list_fmap_eq_inj. intros a b H. unfold byte in H. apply (f_equal ascii_of_N) in H.
  by rewrite !ascii_N_embedding in H.
Qed.

(** Separators written by an expression without double stars. *)
Definition rune_slashes (g : list glob) : nat := length (filter (fun x => x = slash) (omap (fun x => match x with Rune r => Some r | _ => None end) g)).
Lemma rune_slashes_rune r g :
  rune_slashes (Rune r :: g) = ((if decide (r = slash) then 1 else 0) + rune_slashes g)%nat.
Proof.
  unfold rune_slashes. cbn [omap list_omap]. rewrite filter_cons. by destruct (decide (r = slash)).
Qed.
Lemma star_slashes g s : glob_denotes g s -> Anything ∉ g -> Directories ∉ g ->
  length (filter (fun r => r = slash) s) = rune_slashes g.
Proof.
  induction 1 as [|r g s H IH|c g s Hc H IH|w g s Hw H IH|w g s Hw H IH|g s H IH|w g s Hw H IH]; intros HA HD;
    try apply not_elem_of_cons in HA as [HA HA']; try apply not_elem_of_cons in HD as [HD HD']; try done.
  - rewrite rune_slashes_rune, filter_cons. destruct (decide (r = slash)); cbn; by rewrite IH.
  - rewrite filter_cons, decide_False by done. by rewrite IH.
  - rewrite filter_app, length_app, filter_none, IH; [done..|]. apply Forall_forall. intros x Hx ->. done.
Qed.

Lemma single_star_expression pattern : double_star pattern = false ->
  Anything ∉ glob_expression pattern ∧ Directories ∉ glob_expression pattern ∧
  rune_slashes (glob_expression pattern) = slashes (list_ascii_of_string pattern).
Proof.
  induction pattern as [|c s IH]; intros H; [split_and!; [by apply not_elem_of_nil..|done]|].
  destruct (is_one_of "*?" c) eqn:Hc.
  - assert (c = "*"%char ∨ c = "?"%char) as [->| ->] by (destruct c as [[] [] [] [] [] [] [] []]; naive_solver).
    + destruct s as [|c' s'].
      { cbn [glob_expression]. rewrite !not_elem_of_cons. split_and!; [done|apply not_elem_of_nil|done|apply not_elem_of_nil|done]. }
      destruct (decide (c' = "*"%char)) as [->|Hne]; [done|].
      assert (E : glob_expression (String "*" (String c' s')) = NotSlashes :: glob_expression (String c' s')).
      { destruct c' as [[] [] [] [] [] [] [] []]; done. }
      assert (D : double_star (String c' s') = false) by (destruct c' as [[] [] [] [] [] [] [] []]; done).
      destruct (IH D) as (H1 & H2 & H3). rewrite E. rewrite !not_elem_of_cons. split_and!; [done..|].
      etrans; [exact H3|]. unfold slashes. cbn [list_ascii_of_string]. by rewrite (filter_cons _ "*"%char).
    + change (glob_expression (String "?" s)) with (NotSlash :: glob_expression s). destruct (IH H) as (H1 & H2 & H3).
      rewrite !not_elem_of_cons. split_and!; [done..|]. etrans; [exact H3|].
      unfold slashes. cbn [list_ascii_of_string]. by rewrite (filter_cons _ "?"%char).
  - rewrite glob_expression_plain by done.
    assert (D : double_star s = false) by (destruct c as [[] [] [] [] [] [] [] []]; done).
    destruct (IH D) as (H1 & H2 & H3). rewrite !not_elem_of_cons. split_and!; [done..|].
    rewrite rune_slashes_rune, H3. unfold slashes. cbn [list_ascii_of_string]. rewrite filter_cons.
    by destruct (decide (byte c = slash)).
Qed.

(** Globs select paths as they say: a pattern of plain ASCII characters
    matches its own path and nothing else, and a pattern without two stars in a
    row matches only paths with as many separators as it has, so one star
    never reaches into a subdirectory; two stars do. *)
Theorem globs_stay_in_their_directory pattern value :
  (literal_pattern pattern -> globMatches pattern value = true <-> value = pattern) ∧
  (double_star pattern = false -> globMatches pattern value = true ->
     slashes (list_ascii_of_string value) = slashes (list_ascii_of_string pattern)) ∧
  globMatches "a/**/c" "a/b/b/c" = true.
Proof.
  unfold globMatches. split_and!; [| |done].
  - intros [Hs Ha]. rewrite glob_match_denotes, literal_expression, rune_denotes by done.
    assert (Hb : Forall (fun r => (r < 128)%N) (byte <$> list_ascii_of_string pattern)) by (by rewrite Forall_fmap).
    split.
    + intros E. rewrite <- E in Hb. pose proof (runes_ascii _ Hb) as E2. rewrite E in E2. apply byte_inj in E2.
      rewrite <- (string_of_list_ascii_of_string value), <- E2. by rewrite string_of_list_ascii_of_string.
    + intros ->. clear Hs. induction (list_ascii_of_string pattern) as [|c s IH]; [done|].
      apply Forall_cons in Ha as [Hc Ha]. cbn. rewrite (proj2 (byte_in_true 0 127 c)) by lia.
      rewrite IH; [done|done|]. by rewrite Forall_fmap.
  - intros D H%glob_match_denotes. destruct (single_star_expression pattern D) as (H1 & H2 & H3).
    rewrite slashes_runes, <- H3. by apply star_slashes.
Qed.

(** A letter outside ASCII is read as two other letters in a pattern. *)
Example accented_pattern_misses_its_path :
  let name := string_of_list_ascii [ascii_of_nat 195; ascii_of_nat 169] +:+ ".yaml" in
  validateSafeRelativePath name true = Ok tt ∧ globMatches name name = false.
Proof. by vm_compute. Qed.

(** ** Byte sizes *)

(** A size is the written number times its unit, without wrap-around. *)
Lemma parseByteSize_exact text v : parseByteSize text = Ok v ->
  exists suffix factor n, (suffix, factor) ∈ units ∧ HasSuffix text suffix = true ∧
    ParseInt (TrimSuffix text suffix) = Some n ∧ 0 < n ∧ v = n * factor ∧ v <= int64_max.
Proof.
  assert (U : Forall (fun u => 1 <= u.2) units) by (repeat constructor; done). unfold parseByteSize. revert U.
  generalize units at 1 2 3. intros us U.
  assert (G : forall us, Forall (fun u => 1 <= u.2) us -> parse_unit text us = Ok v -> exists suffix factor n,
    (suffix, factor) ∈ us ∧ HasSuffix text suffix = true ∧ ParseInt (TrimSuffix text suffix) = Some n ∧ 0 < n ∧
    v = n * factor ∧ v <= int64_max); [|by apply G].
  clear us U. induction 1 as [|[suffix factor] us Hf _ IH]; [done|]. cbn in Hf |- *.
  destruct (HasSuffix text suffix) eqn:Es.
  - intros H. apply bind_Ok in H as ([] & _ & H). destruct (ParseInt _) as [n|] eqn:En; [|done].
    apply bind_Ok in H as ([] & H1%err_if_ok & H). injection H as <-.
    assert (B : n * factor <= int64_max).
    { etrans; [apply Z.mul_le_mono_nonneg_r; [lia|]|rewrite Z.mul_comm; apply Z.mul_div_le; lia]. lia. }
    rewrite int64_wrap_id by (unfold int64_range, int64_min; split; [nia|done]).
    exists suffix, factor, n. split_and!; [by left|done|done|lia|done|done].
  - intros (s & f & n & Hin & H)%IH. exists s, f, n. split; [by right|done].
Qed.

(** ** Templates *)
Definition pieces (found : list (list ascii * list ascii) * list ascii) : list ascii :=
  concat ((fun m => m.1 ++ m.2) <$> found.1) ++ found.2.

Lemma match_length_word r prev s n : match_length r prev s = S n ->
  exists w rest, s = w ++ rest ∧ take (S n) s = w ∧ drop (S n) s = rest ∧ length w = S n ∧ denotes r prev w (head rest).
Proof.
  unfold match_length, match_at. destruct (rmatch r prev s _) as [rest|] eqn:E; [|done].
  apply rmatch_sound in E as (w & rest' & -> & Hd & [= ->]). rewrite length_app. intros H.
  assert (S n = length w) as -> by lia. exists w, rest. by rewrite take_app_length, drop_app_length.
Qed.

(** The text is divided into matches and what is between them. *)
Lemma find_all_ok r fuel : forall prev before s, (length s <= fuel)%nat ->
  pieces (find_all r fuel prev before s) = rev before ++ s ∧
  Forall (fun m => exists p n, denotes r p m.2 n) (find_all r fuel prev before s).1.
Proof.
  induction fuel as [|fuel IH]; intros prev before s Hl.
  { destruct s; [|cbn in Hl; lia]. cbn. split; [done|constructor]. }
  destruct s as [|c s]; [cbn; split; [done|constructor]|]. cbn [find_all]. destruct (match_length r prev (c :: s)) as [|n] eqn:E.
  - destruct (IH (Some c) (c :: before) s ltac:(cbn in Hl; lia)) as [H1 H2]. split; [|done].
    rewrite H1. cbn. by rewrite <- app_assoc.
  - apply match_length_word in E as (w & rest & Es & -> & -> & Hw & Hd).
    assert (length rest <= fuel)%nat as Hr by (apply (f_equal length) in Es; rewrite length_app in Es; lia).
    destruct (IH (last w) [] rest Hr) as [H1 H2].
    destruct (find_all r fuel (last w) [] rest) as [ms tail] eqn:Ef. cbn. split.
    + unfold pieces in *. cbn in *. by rewrite <- !app_assoc, H1, Es.
    + constructor; [by eexists _, _|done].
Qed.

(** The variables of a template in order. *)
Definition variables (found : list (list ascii * list ascii) * list ascii) : list string := (fun m => submatch m.2) <$> found.1.
Definition substituted (found : list (list ascii * list ascii) * list ascii) (vals : list string) : list ascii :=
  concat (zip_with (fun m v => m.1 ++ list_ascii_of_string v) found.1 vals) ++ found.2.

#[local] Arguments submatch : simpl never.
Lemma expand_matches_Ok values ms : forall acc out,
  expand_matches values ms acc = Ok out -> exists vals, mapM (fun m => values !! submatch m.2) ms = Some vals ∧
    out = acc ++ concat (zip_with (fun m v => m.1 ++ list_ascii_of_string v) ms vals).
Proof.
  induction ms as [|[b w] ms IH]; intros acc out H; cbn in *.
  { injection H as <-. exists []. by rewrite app_nil_r. }
  destruct (values !! submatch w) as [v|]; [|done]. apply bind_Ok in H as ([] & _ & H).
  apply IH in H as (vals & -> & ->). exists (v :: vals). split; [done|]. cbn. by rewrite <- !app_assoc.
Qed.
Lemma expand_matches_fits values ms : forall acc vals, mapM (fun m => values !! submatch m.2) ms = Some vals ->
  Z.of_nat (length (acc ++ concat (zip_with (fun m v => m.1 ++ list_ascii_of_string v) ms vals))) <= MaxExpandedTemplateBytes ->
  expand_matches values ms acc = Ok (acc ++ concat (zip_with (fun m v => m.1 ++ list_ascii_of_string v) ms vals)).
Proof.
  induction ms as [|[b w] ms IH]; intros acc vals H Hl; cbn in *.
  { injection H as <-. cbn. by rewrite app_nil_r. }
  destruct (values !! submatch w) as [v|]; [|done]. cbn in H.
  destruct (mapM _ ms) as [vs|] eqn:Em; [|done]. injection H as <-. cbn in *.
  rewrite !app_assoc in *. rewrite (proj2 (err_if_ok _ _)).
  - cbn. apply IH; [done|]. by rewrite <- !app_assoc in *.
  - rewrite length_app in Hl. lia.
Qed.

(** Templates are expanded in one pass: a template divides into text and
    matches of the pattern, and expansion answers exactly the text with each
    match replaced by the value of its variable, values not searched again,
    when no braces are left outside the matches, every variable has a value
    and the result has at most a mebibyte; otherwise it is an error. *)
Theorem templates_expand_in_one_pass template values out :
  let found := FindAll templatePattern template in
  pieces found = list_ascii_of_string template ∧
  Forall (fun m => exists p n, denotes templatePattern p m.2 n) found.1 ∧
  (ExpandTemplateString template values = Ok out <->
   malformed_template found = false ∧ exists vals, mapM (fun m => values !! submatch m.2) found.1 = Some vals ∧
     out = string_of_list_ascii (substituted found vals) ∧
     Z.of_nat (length (substituted found vals)) <= MaxExpandedTemplateBytes).
Proof.
  intros found. destruct (find_all_ok templatePattern (String.length template) None [] (list_ascii_of_string template)) as [H1 H2].
  { clear found. induction template; cbn; lia. }
  split_and!; [done|done|]. unfold ExpandTemplateString. fold found. unfold substituted. split.
  - intros H. apply bind_Ok in H as ([] & Hm%err_if_ok & H). apply not_true_is_false in Hm. split; [done|].
    apply bind_Ok in H as (expanded & He & H). apply expand_matches_Ok in He as (vals & Hv & ->).
    apply bind_Ok in H as ([] & Hl%err_if_ok & H). injection H as <-. exists vals. split_and!; [done|done|]. cbn in *. lia.
  - intros (Hm & vals & Hv & -> & Hl). rewrite (proj2 (err_if_ok _ _)) by (rewrite Hm; done). cbn [mbind result_bind].
    rewrite (expand_matches_fits _ _ [] vals Hv) by (cbn; rewrite length_app in Hl; lia). cbn.
    by rewrite (proj2 (err_if_ok _ _)) by lia.
Qed.
