(* ===== verification/Yaml.v ===== *)
(** * pkg/packapi/yaml.go: the strict subset of YAML

    [yaml.Node] trees as the parser answers them, the check that a tree is
    plain JSON in YAML syntax, its conversion, and the decoder of authored
    documents.  The YAML parser, the JSON schema and [encoding/json] are
    parameters. *)
From Stdlib Require Import ZArith Ascii String Lia.
From stdpp Require Import base gmap sets list strings pretty.
From S2P Require Import Prelude Regex Canonical SSE OracleSchema PackPattern.
From S2P Require Import CASSpec.
Local Open Scope Z_scope.
Local Open Scope string_scope.
Local Open Scope list_scope.

Definition MaxAuthoredYAMLBytes : Z := Z.shiftl 4 20.
Definition maxYAMLDepth : Z := 128.
Definition maxYAMLNodes : Z := 100000.

(** [-?(0|...)] and the same with a fraction and an exponent. *)
Definition integer_regex : regex := RSeq (optional (rchar "-")) number_pattern.
Definition jsonIntegerPattern (s : string) : bool := full_match integer_regex s.
Definition jsonNumberPattern (s : string) : bool :=
  full_match (rseq [optional (rchar "-"); number_pattern;
                    optional (RSeq (rchar ".") (at_least 1 (RClass is_digit)));
                    optional (rseq [RClass (is_one_of "eE"); optional (RClass (is_one_of "+-"));
                                    at_least 1 (RClass is_digit)])]) s.

Inductive Kind := DocumentNode | SequenceNode | MappingNode | ScalarNode | AliasNode | OtherKind.
#[export] Instance Kind_eq_dec : EqDecision Kind.
Proof. solve_decision. Defined.

(** [aliased] says whether [Alias] is set. *)
Inductive Node := mkNode (kind : Kind) (tag value anchor : string) (aliased : bool) (content : list Node).
Definition ndKind (n : Node) : Kind := let '(mkNode k _ _ _ _ _) := n in k.
Definition ndAnchor (n : Node) : string := let '(mkNode _ _ _ a _ _) := n in a.
Definition ndContent (n : Node) : list Node := let '(mkNode _ _ _ _ _ c) := n in c.

Definition index_path (path : string) (index : Z) : string := path +:+ "[" +:+ pretty index +:+ "]".

Definition validate_scalar (tag value path : string) : result error unit :=
  if decide (tag = "!!str") then mret tt
  else if decide (tag = "!!bool") then
    err_if (value ≠ "true" ∧ value ≠ "false") (ErrorNew (Sprintf "boolean at %s must be true or false" [FStr path]))
  else if decide (tag = "!!int") then
    err_if (jsonIntegerPattern value = false)
      (ErrorNew (Sprintf "integer %q at %s is not canonical JSON syntax" [FStr value; FStr path]))
  else if decide (tag = "!!float") then
    err_if (jsonNumberPattern value = false)
      (ErrorNew (Sprintf "number %q at %s is not finite canonical JSON syntax" [FStr value; FStr path]))
  else if decide (tag = "!!null") then
    err_if (value ≠ "null") (ErrorNew (Sprintf "null at %s must be written as null" [FStr path]))
  else Err (ErrorNew (Sprintf "custom or implicit YAML tag %q is forbidden at %s; quote timestamps and special values"
                        [FStr tag; FStr path])).

(** The state is the counter. *)
Fixpoint validateYAMLNode (node : Node) (path : string) (depth : Z) : GoM Z error unit :=
  modify (fun count => count + 1);;
  count ← get;
  fail_if (count > maxYAMLNodes) (ErrorNew (Sprintf "authored YAML exceeds %d nodes" [FInt maxYAMLNodes]));;
  fail_if (depth > maxYAMLDepth)
    (ErrorNew (Sprintf "authored YAML nesting exceeds %d at %s" [FInt maxYAMLDepth; FStr path]));;
  match node with
  | mkNode kind tag value anchor aliased content =>
      fail_if (anchor ≠ "" ∨ kind = AliasNode ∨ aliased = true)
        (ErrorNew (Sprintf "YAML anchors and aliases are forbidden at %s" [FStr path]));;
      match kind with
      | MappingNode =>
          fail_if (tag ≠ "!!map") (ErrorNew (Sprintf "custom YAML mapping tag %q is forbidden at %s" [FStr tag; FStr path]));;
          fail_if (Nat.odd (length content) = true) (ErrorNew (Sprintf "malformed YAML mapping at %s" [FStr path]));;
          (fix members (seen : gset string) (ns : list Node) : GoM Z error unit :=
             match ns with
             | mkNode kkind ktag kvalue _ _ _ :: child :: rest =>
                 fail_if (kkind ≠ ScalarNode ∨ ktag ≠ "!!str")
                   (ErrorNew (Sprintf "YAML mapping key at %s must be a string" [FStr path]));;
                 fail_if (kvalue = "<<") (ErrorNew (Sprintf "YAML merge keys are forbidden at %s" [FStr path]));;
                 fail_if (kvalue ∈ seen) (ErrorNew (Sprintf "duplicate YAML field %q at %s" [FStr kvalue; FStr path]));;
                 validateYAMLNode child (path +:+ "." +:+ kvalue) (depth + 1);;
                 members ({[kvalue]} ∪ seen) rest
             | _ => mret tt
             end) ∅ content
      | SequenceNode =>
          fail_if (tag ≠ "!!seq") (ErrorNew (Sprintf "custom YAML sequence tag %q is forbidden at %s" [FStr tag; FStr path]));;
          (fix elements (index : Z) (ns : list Node) : GoM Z error unit :=
             match ns with
             | [] => mret tt
             | child :: rest => validateYAMLNode child (index_path path index) (depth + 1);; elements (index + 1) rest
             end) 0 content
      | ScalarNode => lift (validate_scalar tag value path)
      | _ => fail (ErrorNew (Sprintf "unsupported YAML node kind %d at %s" [FStr path]))
      end
  end.

(** [value[key] = child]. *)
Fixpoint set_member (key : string) (child : json) (members : list (string * json)) : list (string * json) :=
  match members with
  | [] => [(key, child)]
  | (k, v) :: rest => if decide (k = key) then (k, child) :: rest else (k, v) :: set_member key child rest
  end.

Section Conversion.
(** Whether [strconv.ParseFloat] answers a finite number. *)
Context (finite_float : string -> bool).

Definition scalar_to_JSON (tag value path : string) : result error json :=
  if decide (tag = "!!str") then mret (JString value)
  else if decide (tag = "!!bool") then mret (JBool (bool_decide (value = "true")))
  else if decide (tag = "!!int") then
    let refused := ErrorNew (Sprintf "integer %q at %s is outside the interoperable JSON range" [FStr value; FStr path]) in
    match ParseInt value with
    | Some integer => err_if (integer > 2 ^ 53 - 1 ∨ integer < - (2 ^ 53 - 1)) refused;; mret (JNumber value)
    | None => Err refused
    end
  else if decide (tag = "!!float") then
    err_if (finite_float value = false) (ErrorNew (Sprintf "invalid finite number %q at %s" [FStr value; FStr path]));;
    mret (JNumber value)
  else if decide (tag = "!!null") then mret JNull
  else Err (ErrorNew (Sprintf "cannot convert YAML node at %s" [FStr path])).

Fixpoint yamlNodeToJSON (node : Node) (path : string) : result error json :=
  match node with
  | mkNode MappingNode _ _ _ _ content =>
      members ← (fix members (acc : list (string * json)) (ns : list Node) : result error (list (string * json)) :=
        match ns with
        | mkNode _ _ key _ _ _ :: child :: rest =>
            child ← yamlNodeToJSON child (path +:+ "." +:+ key);
            members (set_member key child acc) rest
        | _ => mret acc
        end) [] content;
      mret (JObject members)
  | mkNode SequenceNode _ _ _ _ content =>
      elements ← (fix elements (index : Z) (ns : list Node) : result error (list json) :=
        match ns with
        | [] => mret []
        | child :: rest =>
            converted ← yamlNodeToJSON child (index_path path index);
            others ← elements (index + 1) rest;
            mret (converted :: others)
        end) 0 content;
      mret (JArray elements)
  | mkNode ScalarNode tag value _ _ _ => scalar_to_JSON tag value path
  | _ => Err (ErrorNew (Sprintf "cannot convert YAML node at %s" [FStr path]))
  end.

(** ** Authored documents *)
Context {A : Type}.
(** The first document of the stream with what a second [Decode] answers. *)
Context (yaml_Decode : list ascii -> result error (Node * result error unit)).
Context (schema_Validate : json -> result error unit) (Marshal_any : json -> result error (list ascii)).
(** [Decode] into the destination with what a second one answers. *)
Context (Decode_contract : list ascii -> result error (A * result error unit)).

Definition ensureJSONEOF (second : result error unit) : result error unit :=
  match second with
  | Err e => if decide (e = io_EOF) then mret tt else Err (Wrapf (Text "read trailing JSON value: %w") e)
  | Ok _ => Err (ErrorNew (Text "unexpected trailing JSON value"))
  end.

(** The root mapping of a document. *)
Definition document_root (document : Node) : option Node :=
  match document with
  | mkNode DocumentNode _ _ _ _ [root] => if decide (ndKind root = MappingNode) then Some root else None
  | _ => None
  end.

Definition parse_document (raw : list ascii) : result error Node :=
  err_if (length raw = 0%nat) (ErrorNew (Text "authored YAML is empty"));;
  err_if (Z.of_nat (length raw) > MaxAuthoredYAMLBytes)
    (ErrorNew (Sprintf "authored YAML exceeds %d bytes" [FInt MaxAuthoredYAMLBytes]));;
  err_if (utf8_Valid raw = false) (ErrorNew (Text "authored YAML is not valid UTF-8"));;
  '(document, extra) ← wrap (Wrapf (Text "parse authored YAML: %w")) (yaml_Decode raw);
  match extra with
  | Ok _ => Err (ErrorNew (Text "authored YAML must contain exactly one document"))
  | Err e => if decide (e = io_EOF) then mret tt else Err (Wrapf (Text "read trailing YAML document: %w") e)
  end;;
  match document_root document with
  | Some root => mret root
  | None => Err (ErrorNew (Text "authored YAML root must be one mapping document"))
  end.

Definition decodeAuthoredYAML (raw : list ascii) : result error A :=
  root ← parse_document raw;
  (validateYAMLNode root "$" 0 0).1;;
  value ← yamlNodeToJSON root "$";
  wrap (Wrapf (Text "JSON Schema validation: %w")) (schema_Validate value);;
  encoded ← wrap (Wrapf (Text "marshal authored JSON projection: %w")) (Marshal_any value);
  '(destination, second) ← wrap (Wrapf (Text "decode authored contract: %w")) (Decode_contract encoded);
  ensureJSONEOF second;;
  mret destination.
End Conversion.

(** ** Authored YAML is plain JSON (pkg/packapi/yaml.go)

    What the parser's tree must be to pass validateYAMLNode, and the JSON
    value that yamlNodeToJSON reads from it. *)



(** ** Plain trees *)

(** The keys and the values of the content of a mapping. *)
Fixpoint entries (ns : list Node) : list (Node * Node) :=
  match ns with k :: v :: rest => (k, v) :: entries rest | _ => [] end.

(** The values below a node. *)
Definition children (n : Node) : list Node :=
  match ndKind n with
  | MappingNode => snd <$> entries (ndContent n)
  | SequenceNode => ndContent n
  | _ => []
  end.





(** No key of the tree has an anchor. *)
Inductive unanchored_keys : Node -> Prop :=
| unanchored_node n : (ndKind n = MappingNode -> Forall (fun e => ndAnchor e.1 = "") (entries (ndContent n))) ->
    Forall unanchored_keys (children n) -> unanchored_keys n.


Section Loops.
Context (path : string) (depth : Z).
End Loops.











Section Values.
Context (finite_float : string -> bool).



(** The loops of the conversion. *)
Section Loops.
Context (path : string).
End Loops.





End Values.

(** [&a key: true]: the anchor of a key is accepted, although anchors are
    forbidden. *)
Example anchored_keys_pass :
  let tree := mkNode MappingNode "!!map" "" "" false
    [mkNode ScalarNode "!!str" "key" "a" false []; mkNode ScalarNode "!!bool" "true" "" false []] in
  validateYAMLNode tree "$" 0 0 = (Ok tt, 2) ∧ ~ unanchored_keys tree.
Proof.
  split; [by vm_compute|]. inversion 1 as [n H1 H2 E]. specialize (H1 eq_refl). apply Forall_cons in H1 as [[=] _].
Qed.

Example sample_tree :
  let scalar tag text := mkNode ScalarNode tag text "" false [] in
  let tree := mkNode MappingNode "!!map" "" "" false
    [scalar "!!str" "a"; mkNode SequenceNode "!!seq" "" "" false [scalar "!!int" "-3"; scalar "!!bool" "true"]] in
  validateYAMLNode tree "$" 0 0 = (Ok tt, 4) ∧
  yamlNodeToJSON (fun _ => true) tree "$" = Ok (JObject [("a", JArray [JNumber "-3"; JBool true])]) ∧
  is_ok (validateYAMLNode (mkNode MappingNode "!!map" "" "" false
    [scalar "!!str" "a"; scalar "!!null" "null"; scalar "!!str" "a"; scalar "!!null" "null"]) "$" 0 0).1 = false.
Proof. by vm_compute. Qed.
