(* ===== verification/Pack.v ===== *)
(** * pkg/packapi: the pack compiler

    The authored documents of types.go, the validators of validate.go with the
    scenarioValidation they fill, the checks around CEL of cel.go, and the two
    compilers of compile.go.  Validation changes the scenario in place (it
    fills in requirements, canonical values and trimmed expressions), so it
    returns the steps.  cel-go and the YAML decoder are class parameters. *)
From Stdlib Require Import ZArith Ascii String Lia.
From stdpp Require Import base gmap sets list strings sorting pretty.
From S2P Require Import Prelude Schema Canonical Sorting OracleSchema RawJSON PackPattern.
Local Open Scope Z_scope.
Local Open Scope string_scope.
Local Open Scope list_scope.

Definition ScenarioAPIVersion : string := "urn:agentapi-doctor:scenario:v1beta1".
Definition ScenarioKind : string := "Scenario".
Definition PackAPIVersion : string := "urn:agentapi-doctor:pack:v1".
Definition PackKind : string := "ProtocolPack".
Definition CompilerName : string := "agentapi-doctor-pack-compiler".
Definition CompilerSemanticVersion : string := "0.1.0".
Definition DefaultMaxCELCost : Z := 1000.
Definition AbsoluteMaxCELCost : Z := 10000.

(** ** Scenarios *)
Record ScenarioMetadata := mkScenarioMetadata {
  smID : string; smVersion : string; smTitle : string; smLabels : gmap string string
}.
Record ProtocolBinding := mkProtocolBinding { pbFamily : string; pbSnapshot : string; pbDigest : Digest }.

Definition ScenarioClass := string.
Definition ClassNormative : ScenarioClass := "normative".
Definition ClassDeFactoClient : ScenarioClass := "de-facto-client".
Definition ClassConsumerProfile : ScenarioClass := "consumer-profile".
Definition ClassBehavioral : ScenarioClass := "behavioral".
Definition ClassAdvisory : ScenarioClass := "advisory".
Definition scenario_classes : list ScenarioClass :=
  [ClassNormative; ClassDeFactoClient; ClassConsumerProfile; ClassBehavioral; ClassAdvisory].

Definition Stability := string.
Definition StabilityStable : Stability := "stable".
Definition StabilityExperimental : Stability := "experimental".
Definition StabilityIncubating : Stability := "incubating".

Definition SideEffectClass := string.
Definition SideEffectNone : SideEffectClass := "none".
Definition SideEffectReversibleLocal : SideEffectClass := "reversible-local".
Definition SideEffectReversibleRemote : SideEffectClass := "reversible-remote".
Definition SideEffectIrreversible : SideEffectClass := "irreversible".
Definition side_effect_classes : list SideEffectClass :=
  [SideEffectNone; SideEffectReversibleLocal; SideEffectReversibleRemote; SideEffectIrreversible].

Record Classification := mkClassification {
  clType : ScenarioClass; clStability : Stability; clSideEffects : SideEffectClass; clIdempotent : option bool
}.

Definition RequirementLevel := string.
Definition LevelMust : RequirementLevel := "MUST".
Definition LevelShould : RequirementLevel := "SHOULD".
Definition LevelMay : RequirementLevel := "MAY".
Record RequirementRef := mkRequirementRef { rqID : string; rqLevel : RequirementLevel }.

Record CapabilityRequirement := mkCapabilityRequirement {
  cpAll : list string; cpAny : list string; cpNone : list string
}.
Record ScenarioBudget := mkScenarioBudget {
  sbTimeout : Z; sbMaxRequests : Z; sbMaxInputTokens : Z; sbMaxOutputTokens : Z;
  sbMaxResponseBytes : Z; sbMaxArtifactBytes : Z
}.

Definition AssertionRole := string.
Definition RolePrecondition : AssertionRole := "precondition".
Definition RoleNormative : AssertionRole := "normative".
Definition RoleConsumerProfile : AssertionRole := "consumer_profile".
Definition RoleBehavioral : AssertionRole := "behavioral".
Definition RoleAdvisory : AssertionRole := "advisory".

Record Assertion := mkAssertion {
  asUse : string; asExpression : string; asEquals : list ascii; asAssertionRole : AssertionRole;
  asObservedAt : string; asRequirement : string
}.

Record ControlledBackend := mkControlledBackend { cbFixture : string }.
Record InvokeStep := mkInvokeStep {
  ivOperation : string; ivDriver : string; ivControlledBackend : option ControlledBackend;
  ivRequest : option (list (string * json))
}.
Record CaptureStep := mkCaptureStep { cpStream : string; cpAs : string }.
Record RegisterResourceStep := mkRegisterResourceStep { rrResource : string; rrAcquireFrom : string }.
Record ProvideToolResultStep := mkProvideToolResultStep { ptCallIDFrom : string; ptResult : json }.
Record WaitForStep := mkWaitForStep { wfSource : string; wfCondition : string; wfTimeout : Z }.
Definition AssertStep := list Assertion.
Record CancelStep := mkCancelStep { cnInvocation : string; cnReason : string }.
Record ReplayStep := mkReplayStep { rpFixture : string; rpAs : string }.
Record FinalizeStep := mkFinalizeStep { fzFinalize : string }.

Record Step := mkStep {
  stID : string;
  stInvoke : option InvokeStep;
  stCapture : option CaptureStep;
  stRegisterResource : option RegisterResourceStep;
  stProvideToolResult : option ProvideToolResultStep;
  stWaitFor : option WaitForStep;
  stAssert : option AssertStep;
  stCancel : option CancelStep;
  stReplay : option ReplayStep;
  stFinalize : option FinalizeStep
}.

Record RetryPolicy := mkRetryPolicy { rtMaxAttempts : Z }.
Record ResourceFinalizer := mkResourceFinalizer { rfOperation : string; rfIdempotent : option bool; rfRetry : RetryPolicy }.
Record CleanupBudget := mkCleanupBudget { cuRequests : Z; cuDuration : Z }.
Record ResourceLease := mkResourceLease {
  rlID : string; rlAcquireFrom : string; rlSideEffectClass : SideEffectClass; rlFinalizer : ResourceFinalizer;
  rlCleanupBudget : CleanupBudget
}.
Record RepetitionPolicy := mkRepetitionPolicy { rpCount : Z; rpPolicy : string }.
Record PublicationPolicy := mkPublicationPolicy { pbDataClass : string }.

Record ScenarioSpec := mkScenarioSpec {
  spProtocol : ProtocolBinding;
  spClassification : Classification;
  spRequirements : list RequirementRef;
  spRequires : CapabilityRequirement;
  spBudgets : ScenarioBudget;
  spSteps : list Step;
  spResources : list ResourceLease;
  spFinally : list FinalizeStep;
  spRepetition : RepetitionPolicy;
  spPublication : PublicationPolicy
}.
Record Scenario := mkScenario {
  snAPIVersion : string; snKind : string; snMetadata : ScenarioMetadata; snSpec : ScenarioSpec
}.

(** ** Facts and results of a compilation *)
Record RequirementRecord := mkRequirementRecord {
  rcID : string; rcLevel : RequirementLevel; rcSourceDigest : Digest; rcCategory : ScenarioClass
}.
Record CompileOptions := mkCompileOptions {
  coRequirements : gmap string RequirementRecord;
  coFixtures : gmap string Digest;
  coAllowedVariables : option (gset string);
  coMaxCELCost : Z
}.

Definition CompileStage := string.
Definition StageParse : CompileStage := "parse".
Definition StageSchema : CompileStage := "schema".
Definition StageSemantic : CompileStage := "semantic".
Definition StageRequirement : CompileStage := "requirement".
Definition StageFixture : CompileStage := "fixture".
Definition StageCEL : CompileStage := "cel".
Definition StageCanonical : CompileStage := "canonical".

Record CompileError := mkCompileError { ceStage : CompileStage; cePath : string; ceErr : error }.
Definition semanticError (fieldPath : string) (m : message) : CompileError :=
  mkCompileError StageSemantic fieldPath (ErrorNew m).
(** [errors.New(err.Error())]: the text without the identity. *)
Definition as_text (e : error) : message :=
  match e with Sentinel name => Text name | ErrorNew m | Wrapf m _ => m end.

Record CompiledCEL := mkCompiledCEL { ccSource : string; ccEstimatedCost : Z }.
Record CELBinding := mkCELBinding {
  cbStepID : string; cbAssertionIndex : option Z; cbPurpose : string; cbCompiled : CompiledCEL
}.
Record TemplateBinding := mkTemplateBinding { tbPath : string; tbVariables : list string }.

Record scenarioValidation := mkScenarioValidation {
  svRequirements : gmap string RequirementRecord;
  svFixtures : gmap string Digest;
  svCELBindings : list CELBinding;
  svTemplateBindings : list TemplateBinding;
  svOptions : CompileOptions;
  svStepIndexes : gmap string Z;
  svResources : gmap string ResourceLease
}.
Definition ValM := GoM scenarioValidation CompileError.

Definition set_requirement (record : RequirementRecord) (v : scenarioValidation) : scenarioValidation :=
  mkScenarioValidation (<[rcID record := record]> (svRequirements v)) (svFixtures v) (svCELBindings v)
    (svTemplateBindings v) (svOptions v) (svStepIndexes v) (svResources v).
Definition set_fixture (ref : string) (digest : Digest) (v : scenarioValidation) : scenarioValidation :=
  mkScenarioValidation (svRequirements v) (<[ref := digest]> (svFixtures v)) (svCELBindings v)
    (svTemplateBindings v) (svOptions v) (svStepIndexes v) (svResources v).
Definition add_cel (binding : CELBinding) (v : scenarioValidation) : scenarioValidation :=
  mkScenarioValidation (svRequirements v) (svFixtures v) (svCELBindings v ++ [binding])
    (svTemplateBindings v) (svOptions v) (svStepIndexes v) (svResources v).
Definition add_template (binding : TemplateBinding) (v : scenarioValidation) : scenarioValidation :=
  mkScenarioValidation (svRequirements v) (svFixtures v) (svCELBindings v)
    (svTemplateBindings v ++ [binding]) (svOptions v) (svStepIndexes v) (svResources v).
Definition set_step (id : string) (index : Z) (v : scenarioValidation) : scenarioValidation :=
  mkScenarioValidation (svRequirements v) (svFixtures v) (svCELBindings v)
    (svTemplateBindings v) (svOptions v) (<[id := index]> (svStepIndexes v)) (svResources v).
Definition set_resource (resource : ResourceLease) (v : scenarioValidation) : scenarioValidation :=
  mkScenarioValidation (svRequirements v) (svFixtures v) (svCELBindings v)
    (svTemplateBindings v) (svOptions v) (svStepIndexes v) (<[rlID resource := resource]> (svResources v)).
Definition set_templates (bindings : list TemplateBinding) (v : scenarioValidation) : scenarioValidation :=
  mkScenarioValidation (svRequirements v) (svFixtures v) (svCELBindings v)
    bindings (svOptions v) (svStepIndexes v) (svResources v).

(** [fmt.Sprintf("%s[%d]", path, index)]. *)
Definition at_index (path : string) (index : Z) : string := path +:+ "[" +:+ pretty index +:+ "]".

(** Loops over an indexed slice. *)
Fixpoint for_indexed {S E A B} (f : Z -> A -> GoM S E B) (index : Z) (xs : list A) : GoM S E (list B) :=
  match xs with
  | [] => mret []
  | x :: xs => y ← f index x; ys ← for_indexed f (index + 1) xs; mret (y :: ys)
  end.

(** ** CEL *)
Definition maxCELSourceBytes : Z := 8192.
Definition forbiddenCELFunctions : list string :=
  ["exec"; "shell"; "open"; "read_file"; "write_file"; "fetch"; "http_get"; "http_post"; "socket"; "getenv"].

(** A checked expression; a struct has the keys and values of its entries. *)
Inductive Expr :=
| NilExpr
| OtherExpr
| CallExpr (function : string) (target : Expr) (args : list Expr)
| ListExpr (elements : list Expr)
| StructExpr (entries : list (Expr * Expr))
| ComprehensionExpr (iterRange accuInit loopCondition loopStep result : Expr)
| SelectExpr (operand : Expr).

(** The first nonempty answer. *)
Definition or_else (function rest : string) : string := if decide (function ≠ "") then function else rest.

Fixpoint findForbiddenCELFunction (expression : Expr) : string :=
  let each := fix each (es : list Expr) : string :=
    match es with [] => "" | e :: es => or_else (findForbiddenCELFunction e) (each es) end in
  match expression with
  | NilExpr | OtherExpr => ""
  | CallExpr function target args =>
      if decide (function ∈ forbiddenCELFunctions) then function
      else or_else (findForbiddenCELFunction target) (each args)
  | ListExpr elements => each elements
  | StructExpr entries =>
      (fix entry_values (es : list (Expr * Expr)) : string :=
         match es with [] => "" | (_, v) :: es => or_else (findForbiddenCELFunction v) (entry_values es) end) entries
  | ComprehensionExpr a b c d e => each [a; b; c; d; e]
  | SelectExpr operand => findForbiddenCELFunction operand
  end.

(** What the package uses of cel-go, in its restricted environment. *)
Class CELLibrary (Ast : Type) := {
  cel_NewEnv : result error unit;
  cel_Compile : string -> result error Ast;
  cel_OutputType : Ast -> string;
  cel_AstToCheckedExpr : Ast -> result error Expr;
  (** the upper bound, an unsigned number *)
  cel_EstimateCost : Ast -> result error Z;
  cel_Program : Ast -> Z -> result error unit
}.

Definition compileCEL `{CELLibrary Ast} (source : string) (maxCost : Z) : result error CompiledCEL :=
  let source := TrimSpace source in
  err_if (source = "") (ErrorNew (Text "CEL expression is empty"));;
  err_if (len source > maxCELSourceBytes) (ErrorNew (Sprintf "CEL expression exceeds %d bytes" [FInt maxCELSourceBytes]));;
  let maxCost := if decide (maxCost = 0) then DefaultMaxCELCost else maxCost in
  err_if (maxCost > AbsoluteMaxCELCost)
    (ErrorNew (Sprintf "CEL cost limit %d exceeds absolute maximum %d" [FInt maxCost; FInt AbsoluteMaxCELCost]));;
  wrap (Wrapf (Text "create restricted CEL environment: %w")) cel_NewEnv;;
  ast ← wrap (Wrapf (Text "compile restricted CEL: %w")) (cel_Compile source);
  err_if (cel_OutputType ast ≠ "bool")
    (ErrorNew (Sprintf "CEL assertion must return bool, got %s" [FStr (cel_OutputType ast)]));;
  checked ← wrap (Wrapf (Text "convert checked CEL expression: %w")) (cel_AstToCheckedExpr ast);
  err_if (findForbiddenCELFunction checked ≠ "")
    (ErrorNew (Sprintf "CEL function %q is forbidden" [FStr (findForbiddenCELFunction checked)]));;
  cost ← wrap (Wrapf (Text "estimate CEL cost: %w")) (cel_EstimateCost ast);
  err_if (cost > maxCost) (ErrorNew (Sprintf "CEL estimated cost %d exceeds limit %d" [FInt cost; FInt maxCost]));;
  wrap (Wrapf (Text "build cost-limited CEL program: %w")) (cel_Program ast maxCost);;
  mret (mkCompiledCEL source cost).

(** ** Parts of a scenario *)
Definition validateClassification (classification : Classification) : result error unit :=
  err_if (clType classification ∉ scenario_classes)
    (ErrorNew (Sprintf "invalid scenario class %q" [FStr (clType classification)]));;
  err_if (clStability classification ∉ [StabilityStable; StabilityExperimental; StabilityIncubating])
    (ErrorNew (Sprintf "invalid stability %q" [FStr (clStability classification)]));;
  err_if (clSideEffects classification ∉ side_effect_classes)
    (ErrorNew (Sprintf "invalid side effect class %q" [FStr (clSideEffects classification)]));;
  err_if (clIdempotent classification = None) (ErrorNew (Text "idempotent must be explicitly true or false"));;
  err_if (clStability classification = StabilityStable ∧ clSideEffects classification = SideEffectIrreversible)
    (ErrorNew (Text "stable scenarios cannot declare irreversible side effects")).

Definition validateScenarioBudget (budget : ScenarioBudget) : result error unit :=
  Duration_Validate (sbTimeout budget);;
  err_if (sbMaxRequests budget <= 0) (ErrorNew (Text "maxRequests must be positive"));;
  err_if (sbMaxInputTokens budget < 0 ∨ sbMaxOutputTokens budget < 0)
    (ErrorNew (Text "token budgets cannot be negative"));;
  (if decide (sbMaxResponseBytes budget ≠ 0)
   then wrap (Wrapf (Text "maxResponseBytes: %w")) (ByteSize_Validate (sbMaxResponseBytes budget)) else mret tt);;
  ByteSize_Validate (sbMaxArtifactBytes budget).

Definition validateRepetition (repetition : RepetitionPolicy) : result error unit :=
  err_if (rpCount repetition <= 0 ∨ rpCount repetition > 1000)
    (ErrorNew (Text "repetition count must be between 1 and 1000"));;
  err_if (rpPolicy repetition ≠ "all" ∧ rpPolicy repetition ≠ "any")
    (ErrorNew (Text "repetition policy must be all or any")).

(** The three groups as the map literal that is ranged over. *)
Definition capability_groups (requirement : CapabilityRequirement) : gmap string (list string) :=
  {["all" := cpAll requirement; "any" := cpAny requirement; "none" := cpNone requirement]}.

(** One capability of a group; [seen] is the map of the earlier ones. *)
Definition check_capability (group value : string) : GoM (gmap string string) error unit :=
  fail_if (resourceNamePattern value = false) (ErrorNew (Sprintf "invalid %s capability %q" [FStr group; FStr value]));;
  seen ← get;
  match seen !! value with
  | Some previous => fail (ErrorNew (Sprintf "capability %q appears in both %s and %s" [FStr value; FStr previous; FStr group]))
  | None => put (<[value := group]> seen)
  end.
Definition validateCapabilities {ro : RangeOrder string (list string)} (requirement : CapabilityRequirement)
    : result error unit :=
  (for_eachM (fun '(group, values) => for_eachM (check_capability group) values) (range (capability_groups requirement)) ∅).1.

Definition countStepVariants (step : Step) : Z :=
  Z.of_nat (length (filter (fun present => present = true)
    [bool_decide (is_Some (stInvoke step)); bool_decide (is_Some (stCapture step));
     bool_decide (is_Some (stRegisterResource step)); bool_decide (is_Some (stProvideToolResult step));
     bool_decide (is_Some (stWaitFor step)); bool_decide (is_Some (stAssert step));
     bool_decide (is_Some (stCancel step)); bool_decide (is_Some (stReplay step));
     bool_decide (is_Some (stFinalize step))])).

(** [strings.Cut(reference, ".")]. *)
Fixpoint referenceRoot (reference : string) : string :=
  match reference with
  | EmptyString => ""
  | String c rest => if is_byte 46 c then "" else String c (referenceRoot rest)
  end.

(** ** The validation of a scenario *)
Section Scenarios.
Context {jl : JSONLibrary} {Ast : Type} {cel : CELLibrary Ast}.

Definition requirementRecord (options : CompileOptions) (id : string) : result error RequirementRecord :=
  match coRequirements options !! id with
  | None => Err (ErrorNew (Sprintf "requirement %q is absent from the supplied catalog" [FStr id]))
  | Some record =>
      err_if (rcID record ≠ id)
        (ErrorNew (Sprintf "catalog key %q is bound to record %q" [FStr id; FStr (rcID record)]));;
      err_if (rcLevel record ∉ [LevelMust; LevelShould; LevelMay])
        (ErrorNew (Sprintf "requirement %q has invalid level %q" [FStr id; FStr (rcLevel record)]));;
      err_if (rcCategory record ∉ scenario_classes)
        (ErrorNew (Sprintf "requirement %q has invalid category %q" [FStr id; FStr (rcCategory record)]));;
      wrap (Wrapf (Sprintf "requirement %q source digest: %w" [FStr id])) (Digest_Validate (rcSourceDigest record));;
      mret record
  end.

(** One declared requirement; the set of earlier ones is threaded by the loop. *)
Fixpoint validate_refs (index : Z) (declared : gset string) (refs : list RequirementRef) : ValM unit :=
  match refs with
  | [] => mret tt
  | ref :: refs =>
      let failed := mkCompileError StageRequirement (at_index "$.spec.requirements" index) in
      fail_if (rqID ref ∈ declared) (failed (ErrorNew (Sprintf "duplicate requirement %q" [FStr (rqID ref)])));;
      v ← get;
      record ← lift (wrap failed (requirementRecord (svOptions v) (rqID ref)));
      fail_if (rcLevel record ≠ rqLevel ref)
        (failed (ErrorNew (Sprintf "level %s does not match catalog %s" [FStr (rqLevel ref); FStr (rcLevel record)])));;
      modify (set_requirement record);;
      validate_refs (index + 1) ({[rqID ref]} ∪ declared) refs
  end.
Definition validateRequirements (refs : list RequirementRef) : ValM unit :=
  fail_if (length refs = 0%nat)
    (mkCompileError StageRequirement "$.spec.requirements" (ErrorNew (Text "at least one requirement is required")));;
  validate_refs 0 ∅ refs.

Definition index_resource (classification : Classification) (index : Z) (resource : ResourceLease) : ValM unit :=
  let path := at_index "$.spec.resources" index in
  fail_if (resourceNamePattern (rlID resource) = false) (semanticError (path +:+ ".id") (Text "invalid resource ID"));;
  v ← get;
  fail_if (is_Some (svResources v !! rlID resource))
    (semanticError (path +:+ ".id") (Sprintf "duplicate resource %q" [FStr (rlID resource)]));;
  fail_if (rlSideEffectClass resource ∉ side_effect_classes)
    (semanticError (path +:+ ".sideEffectClass") (Text "invalid side effect class"));;
  fail_if (clStability classification = StabilityStable ∧ rlSideEffectClass resource = SideEffectIrreversible)
    (semanticError (path +:+ ".sideEffectClass") (Text "stable scenarios cannot lease irreversible resources"));;
  fail_if (artifactNamePattern (rfOperation (rlFinalizer resource)) = false)
    (semanticError (path +:+ ".finalizer.operation") (Text "invalid finalizer operation"));;
  fail_if (rfIdempotent (rlFinalizer resource) ≠ Some true)
    (semanticError (path +:+ ".finalizer.idempotent") (Text "finalizer must explicitly be idempotent"));;
  fail_if (rtMaxAttempts (rfRetry (rlFinalizer resource)) <= 0 ∨ rtMaxAttempts (rfRetry (rlFinalizer resource)) > 10)
    (semanticError (path +:+ ".finalizer.retry.maxAttempts") (Text "retry count must be between 1 and 10"));;
  fail_if (cuRequests (rlCleanupBudget resource) <= 0)
    (semanticError (path +:+ ".cleanupBudget.requests") (Text "cleanup request budget must be positive"));;
  lift (wrap (fun e => semanticError (path +:+ ".cleanupBudget.duration") (as_text e))
          (Duration_Validate (cuDuration (rlCleanupBudget resource))));;
  modify (set_resource resource).

Definition indexResources (resources : list ResourceLease) (classification : Classification) : ValM unit :=
  for_indexed (index_resource classification) 0 resources;;
  if decide (clSideEffects classification = SideEffectNone) then
    for_eachM (fun resource => fail_if (rlSideEffectClass resource ≠ SideEffectNone)
      (semanticError "$.spec.classification.sideEffects" (Text "none conflicts with a side-effecting resource"))) resources
  else
    fail_if (length resources = 0%nat)
      (semanticError "$.spec.resources" (Text "side-effecting scenarios must declare ResourceLease cleanup")).

(** ** References, fixtures and templates *)
Definition requirePreviousReference (reference : string) (currentIndex : Z) (fieldPath : string) : ValM unit :=
  v ← get;
  fail_if (match svStepIndexes v !! referenceRoot reference with
           | Some index => bool_decide (index < currentIndex)
           | None => false
           end = false)
    (semanticError fieldPath (Sprintf "reference %q must point to an earlier step" [FStr reference])).
Definition requireAnyStepReference (reference fieldPath : string) : ValM unit :=
  v ← get;
  fail_if (svStepIndexes v !! referenceRoot reference = None)
    (semanticError fieldPath (Sprintf "reference %q does not name a step" [FStr reference])).

Definition resolveFixture (ref fieldPath : string) : ValM unit :=
  let failed := mkCompileError StageFixture fieldPath in
  lift (wrap failed (validateSafeRelativePath ref false));;
  v ← get;
  match coFixtures (svOptions v) !! ref with
  | None => fail (failed (ErrorNew (Sprintf "fixture %q is not supplied" [FStr ref])))
  | Some digest =>
      lift (wrap (fun e => failed (Wrapf (Sprintf "fixture %q digest: %w" [FStr ref]) e)) (Digest_Validate digest));;
      modify (set_fixture ref digest)
  end.

Definition allowed_variables (options : CompileOptions) : gset string := default ∅ (coAllowedVariables options).
Definition validateTemplates (value fieldPath : string) : ValM unit :=
  let found := FindAll templatePattern value in
  fail_if (malformed_template found = true) (semanticError fieldPath (Text "malformed template expression"));;
  let variables := (fun m => submatch m.2) <$> found.1 in
  v ← get;
  for_eachM (fun variable => fail_if (variable ∉ allowed_variables (svOptions v))
    (semanticError fieldPath (Sprintf "template variable %q is not declared" [FStr variable]))) variables;;
  if decide (length variables ≠ 0%nat) then modify (add_template (mkTemplateBinding fieldPath variables)) else mret tt.

(** The keys of a map in order, with what is to be done for each. *)
Definition member_le (a b : string * ValM unit) : Prop := string_le a.1 b.1.
#[export] Instance member_le_dec : RelDecision member_le.
Proof. intros a b. unfold member_le. apply _. Defined.

(** The fixture that a member names, before its value is validated. *)
Definition check_fixture (key : string) (child : json) (childPath : string) : ValM unit :=
  if decide (key = "fixture") then
    match child with
    | JString ref => resolveFixture ref childPath
    | _ => fail (mkCompileError StageFixture childPath (ErrorNew (Text "fixture reference must be a string")))
    end
  else mret tt.

Fixpoint validateDynamicValue (value : json) (fieldPath : string) : ValM unit :=
  match value with
  | JNull | JBool _ | JNumber _ => mret tt
  | JString text => validateTemplates text fieldPath
  | JArray elements =>
      (fix each (index : Z) (es : list json) : ValM unit :=
         match es with
         | [] => mret tt
         | e :: es => validateDynamicValue e (at_index fieldPath index);; each (index + 1) es
         end) 0 elements
  | JObject members =>
      let checks := (fix each (ms : list (string * json)) : list (string * ValM unit) :=
         match ms with
         | [] => []
         | (key, child) :: ms =>
             let childPath := fieldPath +:+ "." +:+ key in
             (key, check_fixture key child childPath;; validateDynamicValue child childPath) :: each ms
         end) members in
      for_eachM snd (merge_sort member_le checks)
  end.

(** ** Assertions and steps *)
Definition set_Requirement (requirement : string) (a : Assertion) : Assertion :=
  mkAssertion (asUse a) (asExpression a) (asEquals a) (asAssertionRole a) (asObservedAt a) requirement.
Definition set_Equals (equals : list ascii) (a : Assertion) : Assertion :=
  mkAssertion (asUse a) (asExpression a) equals (asAssertionRole a) (asObservedAt a) (asRequirement a).
Definition set_Expression (expression : string) (a : Assertion) : Assertion :=
  mkAssertion (asUse a) expression (asEquals a) (asAssertionRole a) (asObservedAt a) (asRequirement a).

(** [validation.requirements[id].Category]. *)
Definition linked_category (v : scenarioValidation) (id : string) : ScenarioClass :=
  match svRequirements v !! id with Some record => rcCategory record | None => "" end.

(** The requirement that a normative assertion means when it names none. *)
Definition only_candidate (v : scenarioValidation) (refs : list RequirementRef) : result error string :=
  match filter (fun id => linked_category v id = ClassNormative) (rqID <$> refs) with
  | [candidate] => Ok candidate
  | _ => Err (ErrorNew (Text "normative assertion must name a requirement unless exactly one normative requirement is declared"))
  end.

Definition normative_requirement (v : scenarioValidation) (assertion : Assertion) (refs : list RequirementRef)
    : result error Assertion :=
  requirement ← (if decide (asRequirement assertion = "") then only_candidate v refs else mret (asRequirement assertion));
  err_if (requirement ∉ rqID <$> refs)
    (ErrorNew (Sprintf "normative requirement %q is not declared by the scenario" [FStr requirement]));;
  mret (set_Requirement requirement assertion).

Definition linkAssertionRequirement (assertion : Assertion) (refs : list RequirementRef)
    : GoM scenarioValidation error Assertion :=
  v ← get;
  assertion ← lift (if decide (asAssertionRole assertion = RoleNormative) then normative_requirement v assertion refs
                    else mret assertion);
  fail_if (asAssertionRole assertion = RoleConsumerProfile ∧ asRequirement assertion = "")
    (ErrorNew (Text "consumer_profile assertion requires an explicit consumer requirement"));;
  if decide (asRequirement assertion = "") then mret assertion
  else
    record ← lift (requirementRecord (svOptions v) (asRequirement assertion));
    fail_if (asAssertionRole assertion = RoleNormative ∧ rcCategory record ≠ ClassNormative)
      (ErrorNew (Sprintf "requirement %q is %s, not normative" [FStr (rcID record); FStr (rcCategory record)]));;
    fail_if (asAssertionRole assertion = RoleConsumerProfile ∧ rcCategory record ≠ ClassConsumerProfile ∧
             rcCategory record ≠ ClassDeFactoClient)
      (ErrorNew (Sprintf "requirement %q is not a consumer/client requirement" [FStr (rcID record)]));;
    modify (set_requirement record);;
    mret assertion.

(** A call whose error gets a stage and a path. *)
Definition at_stage {A} (stage : CompileStage) (path : string) (m : GoM scenarioValidation error A) : ValM A := fun v =>
  match m v with (Ok a, v') => (Ok a, v') | (Err e, v') => (Err (mkCompileError stage path e), v') end.

Definition canonical_equals (path : string) (assertion : Assertion) : ValM Assertion :=
  if decide (length (asEquals assertion) ≠ 0%nat) then
    canonical ← lift (wrap (fun e => semanticError (path +:+ ".equals") (as_text e)) (CanonicalizeJSON (asEquals assertion)));
    mret (set_Equals canonical assertion)
  else mret assertion.

Definition bind_expression (stepID : string) (index : Z) (path : string) (assertion : Assertion) : ValM Assertion :=
  if decide (asExpression assertion ≠ "") then
    v ← get;
    compiled ← lift (wrap (mkCompileError StageCEL (path +:+ ".expression"))
                       (compileCEL (asExpression assertion) (coMaxCELCost (svOptions v))));
    modify (add_cel (mkCELBinding stepID (Some index) "assertion" compiled));;
    mret (set_Expression (ccSource compiled) assertion)
  else mret assertion.

Definition validateAssertion (stepID : string) (scenario : ScenarioSpec) (index : Z) (assertion : Assertion)
    : ValM Assertion :=
  v ← get;
  let path := at_index (at_index "$.spec.steps" (default 0 (svStepIndexes v !! stepID)) +:+ ".assert") index in
  fail_if (bool_decide (asUse assertion = "") = bool_decide (asExpression assertion = ""))
    (semanticError path (Text "assertion requires exactly one of use or expression"));;
  fail_if (asUse assertion ≠ "" ∧ artifactNamePattern (asUse assertion) = false)
    (semanticError (path +:+ ".use") (Text "invalid oracle assertion name"));;
  fail_if (asAssertionRole assertion ∉ [RolePrecondition; RoleNormative; RoleConsumerProfile; RoleBehavioral; RoleAdvisory])
    (semanticError (path +:+ ".assertionRole") (Text "invalid assertion role"));;
  fail_if (asAssertionRole assertion = RolePrecondition ∧ asObservedAt assertion = "")
    (semanticError (path +:+ ".observedAt") (Text "precondition requires an explicit observation source"));;
  fail_if (asAssertionRole assertion = RolePrecondition ∧ asRequirement assertion ≠ "")
    (semanticError (path +:+ ".requirement") (Text "precondition cannot claim a target requirement"));;
  fail_if (asAssertionRole assertion = RoleBehavioral ∧ rpCount (spRepetition scenario) < 2)
    (semanticError path (Text "behavioral assertion requires repeated samples"));;
  assertion ← at_stage StageRequirement (path +:+ ".requirement")
                (linkAssertionRequirement assertion (spRequirements scenario));
  assertion ← canonical_equals path assertion;
  bind_expression stepID index path assertion.

Definition set_Assert (assertions : list Assertion) (s : Step) : Step :=
  mkStep (stID s) (stInvoke s) (stCapture s) (stRegisterResource s) (stProvideToolResult s) (stWaitFor s)
    (Some assertions) (stCancel s) (stReplay s) (stFinalize s).

Definition validate_invoke (path : string) (invoke : InvokeStep) : ValM unit :=
  fail_if (artifactNamePattern (ivOperation invoke) = false ∨ artifactNamePattern (ivDriver invoke) = false)
    (semanticError (path +:+ ".invoke") (Text "invoke operation and driver must be safe artifact names"));;
  match ivRequest invoke with
  | None => fail (semanticError (path +:+ ".invoke.request") (Text "request object is required"))
  | Some request =>
      match ivControlledBackend invoke with
      | Some backend => resolveFixture (cbFixture backend) (path +:+ ".invoke.controlledBackend.fixture")
      | None => mret tt
      end;;
      validateDynamicValue (JObject request) (path +:+ ".invoke.request")
  end.

Definition validate_wait (stepID path : string) (index : Z) (scenario : ScenarioSpec) (wait : WaitForStep) : ValM unit :=
  requirePreviousReference (wfSource wait) index (path +:+ ".wait_for.source");;
  lift (wrap (fun e => semanticError (path +:+ ".wait_for.timeout") (as_text e)) (Duration_Validate (wfTimeout wait)));;
  fail_if (wfTimeout wait > sbTimeout (spBudgets scenario))
    (semanticError (path +:+ ".wait_for.timeout") (Text "wait timeout exceeds scenario timeout"));;
  v ← get;
  compiled ← lift (wrap (mkCompileError StageCEL (path +:+ ".wait_for.condition"))
                     (compileCEL (wfCondition wait) (coMaxCELCost (svOptions v))));
  modify (add_cel (mkCELBinding stepID None "wait_for" compiled)).

Definition require_resource (resource fieldPath : string) : ValM unit :=
  v ← get;
  fail_if (svResources v !! resource = None) (semanticError fieldPath (Text "resource is not declared")).

Definition validateStep (step : Step) (index : Z) (stepPath : string) (scenario : ScenarioSpec) : ValM Step :=
  match step with
  | mkStep _ (Some invoke) _ _ _ _ _ _ _ _ => validate_invoke stepPath invoke;; mret step
  | mkStep _ _ (Some capture) _ _ _ _ _ _ _ =>
      requirePreviousReference (cpStream capture) index (stepPath +:+ ".capture.stream");;
      fail_if (resourceNamePattern (cpAs capture) = false)
        (semanticError (stepPath +:+ ".capture.as") (Text "invalid capture name"));;
      mret step
  | mkStep _ _ _ (Some register) _ _ _ _ _ _ =>
      require_resource (rrResource register) (stepPath +:+ ".register_resource.resource");;
      requirePreviousReference (rrAcquireFrom register) index (stepPath +:+ ".register_resource.acquireFrom");;
      mret step
  | mkStep _ _ _ _ (Some provide) _ _ _ _ _ =>
      requirePreviousReference (ptCallIDFrom provide) index (stepPath +:+ ".provide_tool_result.callIdFrom");;
      validateDynamicValue (ptResult provide) (stepPath +:+ ".provide_tool_result.result");;
      mret step
  | mkStep id _ _ _ _ (Some wait) _ _ _ _ => validate_wait id stepPath index scenario wait;; mret step
  | mkStep id _ _ _ _ _ (Some assertions) _ _ _ =>
      fail_if (length assertions = 0%nat)
        (semanticError (stepPath +:+ ".assert") (Text "assert step must contain at least one assertion"));;
      assertions ← for_indexed (validateAssertion id scenario) 0 assertions;
      mret (set_Assert assertions step)
  | mkStep _ _ _ _ _ _ _ (Some cancel) _ _ =>
      requirePreviousReference (cnInvocation cancel) index (stepPath +:+ ".cancel.invocation");;
      fail_if (TrimSpace (cnReason cancel) = "")
        (semanticError (stepPath +:+ ".cancel.reason") (Text "cancel reason is required"));;
      mret step
  | mkStep _ _ _ _ _ _ _ _ (Some replay) _ =>
      resolveFixture (rpFixture replay) (stepPath +:+ ".replay.fixture");;
      fail_if (resourceNamePattern (rpAs replay) = false)
        (semanticError (stepPath +:+ ".replay.as") (Text "invalid replay binding"));;
      mret step
  | mkStep _ _ _ _ _ _ _ _ _ (Some finalize) =>
      require_resource (fzFinalize finalize) (stepPath +:+ ".finalize.finalize");;
      mret step
  | _ => mret step
  end.

Definition validate_indexed_step (scenario : ScenarioSpec) (index : Z) (step : Step) : ValM Step :=
  let stepPath := at_index "$.spec.steps" index in
  fail_if (resourceNamePattern (stID step) = false) (semanticError (stepPath +:+ ".id") (Text "invalid step ID"));;
  v ← get;
  fail_if (is_Some (svStepIndexes v !! stID step))
    (semanticError (stepPath +:+ ".id") (Sprintf "duplicate step %q" [FStr (stID step)]));;
  fail_if (countStepVariants step ≠ 1)
    (semanticError stepPath (Text "step must contain exactly one of the nine supported operations"));;
  modify (set_step (stID step) index);;
  validateStep step index stepPath scenario.

Definition validateSteps (scenario : ScenarioSpec) : ValM (list Step) :=
  fail_if (length (spSteps scenario) = 0%nat) (semanticError "$.spec.steps" (Text "at least one step is required"));;
  for_indexed (validate_indexed_step scenario) 0 (spSteps scenario).

Definition check_finalizer (resources : list ResourceLease) (index : Z) (finalizer : FinalizeStep) : ValM unit :=
  let expected := match rev resources !! Z.to_nat index with Some resource => rlID resource | None => "" end in
  fail_if (fzFinalize finalizer ≠ expected)
    (semanticError (at_index "$.spec.finally" index +:+ ".finalize") (Sprintf "expected %q for LIFO cleanup" [FStr expected])).

Definition validateResourceReferencesAndFinally (scenario : ScenarioSpec) : ValM unit :=
  for_indexed (fun index resource => requireAnyStepReference (rlAcquireFrom resource)
    (at_index "$.spec.resources" index +:+ ".acquireFrom")) 0 (spResources scenario);;
  fail_if (length (spFinally scenario) ≠ length (spResources scenario))
    (semanticError "$.spec.finally" (Text "finally must contain every declared resource exactly once in LIFO order"));;
  for_indexed (check_finalizer (spResources scenario)) 0 (spFinally scenario);;
  mret tt.

(** ** validateScenario *)

(** [slices.SortFunc] by path; it need not be stable. *)
Definition binding_le (a b : TemplateBinding) : Prop := string_le (tbPath a) (tbPath b).
Class SortBindings := {
  sort_bindings : list TemplateBinding -> list TemplateBinding;
  sort_bindings_perm l : sort_bindings l ≡ₚ l;
  sort_bindings_sorted l : Sorted binding_le (sort_bindings l)
}.

Context {ro : RangeOrder string string} {co : RangeOrder string (list string)} {so : SortBindings}.

(** The checks before the scenarioValidation is made. *)
Definition validate_header (scenario : Scenario) : result CompileError unit :=
  let spec := snSpec scenario in
  err_if (snAPIVersion scenario ≠ ScenarioAPIVersion ∨ snKind scenario ≠ ScenarioKind)
    (semanticError "$" (Text "scenario apiVersion/kind mismatch"));;
  err_if (resourceNamePattern (smID (snMetadata scenario)) = false)
    (semanticError "$.metadata.id" (Text "invalid scenario ID"));;
  err_if (semverPattern (smVersion (snMetadata scenario)) = false)
    (semanticError "$.metadata.version" (Text "scenario version must be SemVer"));;
  err_if (TrimSpace (smTitle (snMetadata scenario)) = "") (semanticError "$.metadata.title" (Text "title is required"));;
  for_each (fun key => err_if (resourceNamePattern key = false)
    (semanticError "$.metadata.labels" (Sprintf "invalid label key %q" [FStr key])))
    (sort_Strings (fst <$> range (smLabels (snMetadata scenario))));;
  err_if (artifactNamePattern (pbFamily (spProtocol spec)) = false)
    (semanticError "$.spec.protocol.family" (Text "invalid protocol family"));;
  err_if (TrimSpace (pbSnapshot (spProtocol spec)) = "")
    (semanticError "$.spec.protocol.snapshot" (Text "protocol snapshot is required"));;
  wrap (fun e => semanticError "$.spec.protocol.digest" (as_text e)) (Digest_Validate (pbDigest (spProtocol spec)));;
  wrap (fun e => semanticError "$.spec.classification" (as_text e)) (validateClassification (spClassification spec));;
  wrap (fun e => semanticError "$.spec.budgets" (as_text e)) (validateScenarioBudget (spBudgets spec));;
  wrap (fun e => semanticError "$.spec.repetition" (as_text e)) (validateRepetition (spRepetition spec));;
  err_if (pbDataClass (spPublication spec) ∉ ["synthetic-only"; "metadata-only"; "local-private"])
    (semanticError "$.spec.publication.dataClass" (Text "invalid publication data class")).

(** The options with their defaults. *)
Definition effective_options (options : CompileOptions) : CompileOptions :=
  mkCompileOptions (coRequirements options) (coFixtures options)
    (Some (default {["target.model"]} (coAllowedVariables options)))
    (if decide (coMaxCELCost options = 0) then DefaultMaxCELCost else coMaxCELCost options).
Definition new_validation (options : CompileOptions) : scenarioValidation :=
  mkScenarioValidation ∅ ∅ [] [] (effective_options options) ∅ ∅.

Definition set_Steps (steps : list Step) (scenario : Scenario) : Scenario :=
  let s := snSpec scenario in
  mkScenario (snAPIVersion scenario) (snKind scenario) (snMetadata scenario)
    (mkScenarioSpec (spProtocol s) (spClassification s) (spRequirements s) (spRequires s) (spBudgets s) steps
       (spResources s) (spFinally s) (spRepetition s) (spPublication s)).

(** The checks that fill the scenarioValidation; the scenario comes back with
    its steps changed. *)
Definition validate_body (scenario : Scenario) : ValM Scenario :=
  validateRequirements (spRequirements (snSpec scenario));;
  lift (wrap (fun e => semanticError "$.spec.requires" (as_text e)) (validateCapabilities (spRequires (snSpec scenario))));;
  indexResources (spResources (snSpec scenario)) (spClassification (snSpec scenario));;
  steps ← validateSteps (snSpec scenario);
  validateResourceReferencesAndFinally (snSpec scenario);;
  modify (fun v => set_templates (sort_bindings (svTemplateBindings v)) v);;
  mret (set_Steps steps scenario).

Definition validateScenario (scenario : Scenario) (options : CompileOptions)
    : result CompileError (Scenario * scenarioValidation) :=
  validate_header scenario;;
  err_if (coMaxCELCost (effective_options options) > AbsoluteMaxCELCost)
    (mkCompileError StageCEL "$" (ErrorNew (Sprintf "CEL cost limit exceeds %d" [FInt AbsoluteMaxCELCost])));;
  match validate_body scenario (new_validation options) with
  | (Ok scenario, v) => Ok (scenario, v)
  | (Err e, _) => Err e
  end.
End Scenarios.
