(* ===== verification/PackSpec.v ===== *)
(** * What an accepted scenario is (pkg/packapi/validate.go)

    A scenario that validateScenario accepts is closed: steps refer to earlier
    steps, resources are acquired, used and finalized as declared, fixtures are
    pinned to the supplied digests, templates have the variables they use, and
    normative assertions are about requirements of the catalog. *)
From Stdlib Require Import ZArith Ascii String Lia.
From stdpp Require Import base gmap sets list strings sorting pretty.
From S2P Require Import Prelude Schema Canonical Sorting OracleSchema CASSpec PackPattern PackPatternSpec Pack.
Local Open Scope Z_scope.
Local Open Scope string_scope.
Local Open Scope list_scope.

Section Accepted.
Context {jl : JSONLibrary} {Ast : Type} {cel : CELLibrary Ast}.

(** ** What validation collects *)
Definition pinned_fixture (options : CompileOptions) (ref : string) (digest : Digest) : Prop :=
  coFixtures options !! ref = Some digest ∧ Digest_Validate digest = Ok tt ∧ validateSafeRelativePath ref false = Ok tt.
Definition bounded_cel (options : CompileOptions) (binding : CELBinding) : Prop :=
  ccEstimatedCost (cbCompiled binding) <= coMaxCELCost options.

Record collected (v : scenarioValidation) : Prop := {
  co_requirements : forall id r, svRequirements v !! id = Some r -> requirementRecord (svOptions v) id = Ok r;
  co_fixtures : forall ref digest, svFixtures v !! ref = Some digest -> pinned_fixture (svOptions v) ref digest;
  co_cel : Forall (bounded_cel (svOptions v)) (svCELBindings v);
  co_limit : coMaxCELCost (svOptions v) ≠ 0
}.

(** What a check of a step may change. *)
Record grows (v v' : scenarioValidation) : Prop := {
  gr_options : svOptions v' = svOptions v;
  gr_steps : svStepIndexes v' = svStepIndexes v;
  gr_resources : svResources v' = svResources v;
  gr_requirements : svRequirements v ⊆ svRequirements v';
  gr_fixtures : svFixtures v ⊆ svFixtures v';
  gr_collected : collected v'
}.
Lemma grows_refl v : collected v -> grows v v.
Proof. intros H. by split. Qed.
Lemma grows_trans v1 v2 v3 : grows v1 v2 -> grows v2 v3 -> grows v1 v3.
Proof. intros [] []. split; [congruence..|by etrans|by etrans|done]. Qed.

(** A call that succeeds only with [Q], from a collected state. *)
Definition yields {A} (m : ValM A) (Q : scenarioValidation -> A -> scenarioValidation -> Prop) : Prop :=
  forall v a v', collected v -> m v = (Ok a, v') -> grows v v' ∧ Q v a v'.

Lemma yields_bind {A B} (m : ValM A) (k : A -> ValM B) Q (R : A -> scenarioValidation -> B -> scenarioValidation -> Prop) :
  yields m Q -> (forall a, yields (k a) (R a)) ->
  yields (m ≫= k) (fun v b v'' => exists a v', Q v a v' ∧ R a v' b v'' ∧ grows v v' ∧ grows v' v'').
Proof.
  intros Hm Hk v b v'' Hc H. apply bindM_Ok in H as (a & v' & H1 & H2).
  destruct (Hm _ _ _ Hc H1) as [G1 Q1]. destruct (Hk a _ _ _ (gr_collected _ _ G1) H2) as [G2 Q2].
  split; [by eapply grows_trans|]. by exists a, v'.
Qed.
Lemma yields_weaken {A} (m : ValM A) (Q R : scenarioValidation -> A -> scenarioValidation -> Prop) :
  yields m Q -> (forall v a v', grows v v' -> Q v a v' -> R v a v') -> yields m R.
Proof. intros H HQ v a v' Hc E. destruct (H _ _ _ Hc E) as [G HQ']. split; [done|by apply HQ]. Qed.
(** Calls in sequence of which the later one does not depend on the answer. *)
Lemma yields_then {A B} (m : ValM A) (k : A -> ValM B) (Q : scenarioValidation -> Prop) R :
  yields m (fun _ _ v' => Q v') -> (forall v v', grows v v' -> Q v -> Q v') -> (forall a, yields (k a) R) ->
  yields (m ≫= k) (fun v b v'' => Q v'' ∧ exists v', grows v v' ∧ R v' b v'').
Proof.
  intros Hm HQ Hk. eapply yields_weaken; [by apply yields_bind; [exact Hm|exact Hk]|].
  intros v b v'' _ (a & v' & H1 & H2 & G1 & G2). split; [by eapply HQ|]. by exists v'.
Qed.
Lemma yields_same {A} (m : ValM A) (Q : scenarioValidation -> A -> Prop) :
  (forall v a v', m v = (Ok a, v') -> v' = v ∧ Q v a) -> yields m (fun v a _ => Q v a).
Proof. intros H v a v' Hc E. destruct (H _ _ _ E) as [-> HQ]. split; [by apply grows_refl|done]. Qed.
Lemma yields_ret {A} (a : A) : yields (mret a) (fun _ b _ => b = a).
Proof. apply yields_same. intros v b v' [= <- <-]. done. Qed.
Lemma yields_fail_if (P : Prop) `{Decision P} e : yields (fail_if P e) (fun _ _ _ => ~ P).
Proof. apply (yields_same _ (fun _ _ => ~ P)). intros v a v' [? ->]%fail_if_Ok. done. Qed.
Lemma yields_lift {A} (r : result CompileError A) : yields (lift r) (fun _ a _ => r = Ok a).
Proof. apply (yields_same _ (fun _ a => r = Ok a)). intros v a v' [? ->]%lift_Ok. done. Qed.
Lemma yields_get : yields get (fun v a _ => a = v).
Proof. apply (yields_same _ (fun v a => a = v)). intros v a v' [= <- <-]. done. Qed.
Lemma yields_fail {A} e (Q : scenarioValidation -> A -> scenarioValidation -> Prop) : yields (fail e) Q.
Proof. by intros v a v' _ [=]. Qed.

(** ** Fixtures and templates *)
Lemma yields_resolveFixture ref path : yields (resolveFixture ref path) (fun _ _ v' => is_Some (svFixtures v' !! ref)).
Proof.
  intros v [] v' Hc H. unfold resolveFixture in H. next_call H u s1 H1. apply lift_Ok in H1 as [H1%wrap_ok ->].
  next_call H w s2 H2. injection H2 as <- <-. destruct (coFixtures (svOptions v) !! ref) as [digest|] eqn:E; [|done].
  next_call H u2 s3 H3. apply lift_Ok in H3 as [H3%wrap_ok ->]. injection H as <-. destruct u, u2.
  assert (P : pinned_fixture (svOptions v) ref digest) by done. destruct Hc as [C1 C2 C3 C4].
  split; [|cbn; by rewrite lookup_insert_eq]. split; cbn; try done.
  - apply map_subseteq_spec. intros r d Hr. destruct (decide (ref = r)) as [<-|].
    + destruct (C2 _ _ Hr) as [E' _]. rewrite lookup_insert_eq. congruence.
    + by rewrite lookup_insert_ne.
  - split; cbn; try done. intros r d Hr. apply lookup_insert_Some in Hr as [[<- <-]|[_ Hr]]; [done|by apply C2].
Qed.

Definition good_template (options : CompileOptions) (text : string) : Prop :=
  malformed_template (FindAll templatePattern text) = false ∧
  forall variable, variable ∈ variables (FindAll templatePattern text) -> variable ∈ allowed_variables options.

Lemma for_eachM_elem {S E A} (f : A -> GoM S E unit) xs s s' (P : A -> Prop) :
  (forall x s1 s2, f x s1 = (Ok tt, s2) -> s2 = s1 ∧ P x) -> for_eachM f xs s = (Ok tt, s') -> s' = s ∧ Forall P xs.
Proof.
  intros Hf. revert s. induction xs as [|x xs IH]; intros s H; [injection H as <-; done|].
  apply bindM_Ok in H as ([] & s1 & [-> Hx]%Hf & [-> Hxs]%IH). split; [done|by constructor].
Qed.

Lemma yields_validateTemplates text path : yields (validateTemplates text path) (fun v _ _ => good_template (svOptions v) text).
Proof.
  intros v [] v' Hc H. unfold validateTemplates in H. next_call H u s1 H1. apply fail_if_Ok in H1 as [H1 ->].
  next_call H w s2 H2. injection H2 as <- <-. next_call H u2 s3 H3. destruct u2.
  apply (for_eachM_elem _ _ _ _ (fun x => x ∈ allowed_variables (svOptions v))) in H3 as [-> H3].
  2: { intros x s4 s5 [Hx ->]%fail_if_Ok. split; [done|by apply dec_stable]. }
  assert (G : good_template (svOptions v) text).
  { split; [by apply not_true_is_false|]. intros x Hx. rewrite Forall_forall in H3. by apply H3. }
  case_decide; injection H as <-; (split; [|done]); [|by apply grows_refl]. destruct Hc. by split.
Qed.

(** A value with good templates whose fixtures are pinned. *)
Inductive good_value (options : CompileOptions) (pinned : gmap string Digest) : json -> Prop :=
| gv_null : good_value options pinned JNull
| gv_bool b : good_value options pinned (JBool b)
| gv_number t : good_value options pinned (JNumber t)
| gv_string s : good_template options s -> good_value options pinned (JString s)
| gv_array es : (forall e, e ∈ es -> good_value options pinned e) -> good_value options pinned (JArray es)
| gv_object ms : (forall k c, (k, c) ∈ ms -> good_value options pinned c) ->
    (forall c, ("fixture", c) ∈ ms -> exists ref, c = JString ref ∧ is_Some (pinned !! ref)) ->
    good_value options pinned (JObject ms).

Lemma good_value_mono options p p' j : p ⊆ p' -> good_value options p j -> good_value options p' j.
Proof.
  intros Hp. induction 1 as [| | | |es _ IH|ms _ IH Hf]; constructor; try done.
  intros c Hc. destruct (Hf c Hc) as (ref & -> & [d Hd]). exists ref. split; [done|]. exists d. by eapply lookup_weaken.
Qed.

Lemma yields_check_fixture key child path : yields (check_fixture key child path)
  (fun _ _ v' => key = "fixture" -> exists ref, child = JString ref ∧ is_Some (svFixtures v' !! ref)).
Proof.
  unfold check_fixture. case_decide as E.
  - destruct child as [| |ref| | |]; try apply yields_fail. eapply yields_weaken; [apply yields_resolveFixture|].
    intros v [] v' _ H _. by exists ref.
  - eapply yields_weaken; [apply yields_ret|]. intros; done.
Qed.

(** A loop whose checks establish [P] of each item, which stays true. *)
Lemma yields_for_each {X A} (f : X -> A) (run : A -> ValM unit) (P : X -> scenarioValidation -> Prop) (items : list X) :
  (forall x v v', grows v v' -> P x v -> P x v') ->
  (forall x, x ∈ items -> yields (run (f x)) (fun _ _ v' => P x v')) ->
  yields (for_eachM run (f <$> items)) (fun _ _ v' => forall x, x ∈ items -> P x v').
Proof.
  intros HP. induction items as [|x xs IH]; intros Hx.
  - intros v a v' Hc [= <- <-]. split; [by apply grows_refl|]. intros x Hx'. by apply elem_of_nil in Hx'.
  - intros v a v' Hc H. apply bindM_Ok in H as ([] & v1 & H1 & H2).
    destruct (Hx x ltac:(left) _ _ _ Hc H1) as [G1 P1].
    destruct (IH (fun y Hy => Hx y ltac:(by right)) _ _ _ (gr_collected _ _ G1) H2) as [G2 P2].
    split; [by eapply grows_trans|]. intros y [->|Hy]%elem_of_cons; [by eapply HP|by apply P2].
Qed.

(** ** Dynamic values *)
Definition member_check (path : string) (m : string * json) : string * ValM unit :=
  let childPath := path +:+ "." +:+ m.1 in
  (m.1, check_fixture m.1 m.2 childPath;; validateDynamicValue m.2 childPath).

Lemma validate_object ms path : validateDynamicValue (JObject ms) path =
  for_eachM snd (merge_sort member_le (member_check path <$> ms)).
Proof.
  cbn. f_equal. f_equal. induction ms as [|[k c] ms IH]; [done|]. cbn. by rewrite IH.
Qed.

Definition good_member (v : scenarioValidation) (m : string * json) : Prop :=
  good_value (svOptions v) (svFixtures v) m.2 ∧
  (m.1 = "fixture" -> exists ref, m.2 = JString ref ∧ is_Some (svFixtures v !! ref)).
Lemma good_member_mono m v v' : grows v v' -> good_member v m -> good_member v' m.
Proof.
  intros G [H1 H2]. split.
  - rewrite (gr_options _ _ G). eapply good_value_mono; [apply G|done].
  - intros E. destruct (H2 E) as (ref & -> & [d Hd]). exists ref. split; [done|]. exists d. eapply lookup_weaken; [done|apply G].
Qed.

Definition value_checked (j : json) : Prop := forall path,
  yields (validateDynamicValue j path) (fun _ _ v' => good_value (svOptions v') (svFixtures v') j).

Lemma yields_member path m : value_checked m.2 -> yields (member_check path m).2 (fun _ _ v' => good_member v' m).
Proof.
  intros IH. cbn. eapply yields_weaken; [exact (yields_bind _ _ _ (fun _ => _) (yields_check_fixture _ _ _) (fun _ => IH _))|].
  intros v [] v'' _ ([] & v' & H1 & H2 & G1 & G2). split; [done|]. intros E. destruct (H1 E) as (ref & -> & [d Hd]).
  exists ref. split; [done|]. exists d. eapply lookup_weaken; [done|apply G2].
Qed.

Section Elements.
Context (path : string).
Fixpoint check_elements (index : Z) (es : list json) : ValM unit :=
  match es with
  | [] => mret tt
  | e :: es => validateDynamicValue e (at_index path index);; check_elements (index + 1) es
  end.
Lemma yields_elements es : (forall e, e ∈ es -> value_checked e) -> forall index,
  yields (check_elements index es) (fun _ _ v' => forall e, e ∈ es -> good_value (svOptions v') (svFixtures v') e).
Proof.
  induction es as [|e es IH]; intros HE index.
  - intros v a v' Hc [= <- <-]. split; [by apply grows_refl|]. intros e He. by apply elem_of_nil in He.
  - intros v a v' Hc H. apply bindM_Ok in H as ([] & v1 & H1 & H2).
    destruct (HE e ltac:(left) _ _ _ _ Hc H1) as [G1 P1].
    destruct (IH (fun y Hy => HE y ltac:(by right)) _ _ _ _ (gr_collected _ _ G1) H2) as [G2 P2].
    split; [by eapply grows_trans|]. intros y [->|Hy]%elem_of_cons; [|by apply P2].
    rewrite (gr_options _ _ G2). eapply good_value_mono; [apply G2|done].
Qed.
End Elements.

Lemma yields_validateDynamicValue j : value_checked j.
Proof.
  induction j as [ms IH|es IH|s|t|b|] using json_induction; intros path.
  - rewrite validate_object.
    assert (Hs : merge_sort member_le (member_check path <$> ms) ≡ₚ member_check path <$> ms) by apply merge_sort_Permutation.
    apply Permutation_map_inv in Hs as (ms' & Hs & Hp). rewrite Hs.
    eapply yields_weaken; [apply (yields_for_each (member_check path) snd (fun m v => good_member v m) ms')|].
    + intros m v v'. apply good_member_mono.
    + intros [k c] Hm. apply yields_member. apply (IH k c). by rewrite Hp.
    + intros v [] v' _ H. assert (H' : forall m, m ∈ ms -> good_member v' m) by (intros m Hm; apply H; by rewrite <- Hp).
      constructor; [intros k c Hm; by apply (H' (k, c))|]. intros c Hm. by apply (H' ("fixture", c) Hm).
  - change (validateDynamicValue (JArray es) path) with (check_elements path 0 es).
    eapply yields_weaken; [by apply yields_elements|]. intros v [] v' _ H. by constructor.
  - cbn. eapply yields_weaken; [apply yields_validateTemplates|]. intros v [] v' G H. constructor. by rewrite (gr_options _ _ G).
  - cbn. eapply yields_weaken; [apply yields_ret|]. intros. constructor.
  - cbn. eapply yields_weaken; [apply yields_ret|]. intros. constructor.
  - cbn. eapply yields_weaken; [apply yields_ret|]. intros. constructor.
Qed.

(** ** Assertions *)
Record linked (spec : ScenarioSpec) (v : scenarioValidation) (a : Assertion) : Prop := {
  li_record : asRequirement a ≠ "" -> is_Some (svRequirements v !! asRequirement a);
  li_normative : asAssertionRole a = RoleNormative ->
    asRequirement a ∈ rqID <$> spRequirements spec ∧
    (asRequirement a ≠ "" -> exists r, svRequirements v !! asRequirement a = Some r ∧ rcCategory r = ClassNormative);
  li_consumer : asAssertionRole a = RoleConsumerProfile ->
    exists r, svRequirements v !! asRequirement a = Some r ∧
      (rcCategory r = ClassConsumerProfile ∨ rcCategory r = ClassDeFactoClient)
}.
Lemma linked_mono spec v v' a : svRequirements v ⊆ svRequirements v' -> linked spec v a -> linked spec v' a.
Proof.
  intros S [H1 H2 H3]. split.
  - intros E. destruct (H1 E) as [r Hr]. exists r. by eapply lookup_weaken.
  - intros E. destruct (H2 E) as [? H]. split; [done|]. intros E'. destruct (H E') as (r & Hr & ?). exists r.
    split; [by eapply lookup_weaken|done].
  - intros E. destruct (H3 E) as (r & Hr & ?). exists r. split; [by eapply lookup_weaken|done].
Qed.

Lemma requirementRecord_id options id r : requirementRecord options id = Ok r -> rcID r = id.
Proof.
  unfold requirementRecord. destruct (coRequirements options !! id) as [r'|]; [|done]. intros H.
  apply bind_Ok in H as ([] & H1%err_if_ok & H). do 3 apply bind_Ok in H as ([] & _ & H). injection H as <-. by apply dec_stable.
Qed.
Lemma grows_requirement v id r : collected v -> requirementRecord (svOptions v) id = Ok r -> grows v (set_requirement r v).
Proof.
  intros [C1 C2 C3 C4] Hr. pose proof (requirementRecord_id _ _ _ Hr) as E. subst id. split; cbn; try done.
  - apply map_subseteq_spec. intros k r' Hk. destruct (decide (rcID r = k)) as [<-|]; [|by rewrite lookup_insert_ne].
    rewrite lookup_insert_eq. specialize (C1 _ _ Hk). congruence.
  - split; cbn; try done. intros k r' Hk. apply lookup_insert_Some in Hk as [[<- <-]|[_ Hk]]; [done|by apply C1].
Qed.

Lemma normative_requirement_ok v a refs a' : normative_requirement v a refs = Ok a' ->
  asAssertionRole a' = asAssertionRole a ∧ asRequirement a' ∈ rqID <$> refs.
Proof.
  unfold normative_requirement. intros H. apply bind_Ok in H as (req & _ & H). apply bind_Ok in H as ([] & H1%err_if_ok & H).
  injection H as <-. split; [done|]. cbn. by apply dec_stable.
Qed.

Lemma link_ok spec a v a' v' : collected v -> linkAssertionRequirement a (spRequirements spec) v = (Ok a', v') ->
  grows v v' ∧ linked spec v' a' ∧ asAssertionRole a' = asAssertionRole a.
Proof.
  intros Hc H. unfold linkAssertionRequirement in H. next_call H w s0 H0. injection H0 as <- <-.
  next_call H a1 s1 H1. apply lift_Ok in H1 as [H1 ->].
  assert (R : asAssertionRole a1 = asAssertionRole a ∧ (asAssertionRole a = RoleNormative -> asRequirement a1 ∈ rqID <$> spRequirements spec)).
  { destruct (decide (asAssertionRole a = RoleNormative)); [by apply normative_requirement_ok in H1 as [-> ?]|].
    injection H1 as <-. done. }
  clear H1. destruct R as [R1 R2]. next_call H u2 s2 H2. apply fail_if_Ok in H2 as [H2 ->].
  case_decide as E.
  { injection H as <- <-. split; [by apply grows_refl|]. split; [|done]. split; [done| |tauto].
    intros En. split; [|done]. apply R2. congruence. }
  next_call H r s3 H3. apply lift_Ok in H3 as [H3 ->]. next_call H u4 s4 H4. apply fail_if_Ok in H4 as [H4 ->].
  next_call H u5 s5 H5. apply fail_if_Ok in H5 as [H5 ->]. next_call H u6 s6 H6. injection H6 as _ <-. injection H as <- <-.
  split; [by eapply grows_requirement|]. split; [|done].
  assert (L : svRequirements (set_requirement r v) !! asRequirement a1 = Some r).
  { cbn. rewrite (requirementRecord_id _ _ _ H3). by rewrite lookup_insert_eq. }
  split; [by eexists|..].
  - intros En. split; [apply R2; congruence|]. intros _. exists r. split; [done|]. apply dec_stable. tauto.
  - intros Ec. exists r. split; [done|]. destruct (decide (rcCategory r = ClassConsumerProfile)); [by left|].
    right. apply dec_stable. tauto.
Qed.

Lemma compileCEL_bounded source limit compiled : limit ≠ 0 -> compileCEL source limit = Ok compiled ->
  ccEstimatedCost compiled <= limit.
Proof.
  intros Hl H. unfold compileCEL in H. do 2 apply bind_Ok in H as ([] & _ & H). rewrite decide_False in H by done.
  do 2 apply bind_Ok in H as ([] & _ & H). apply bind_Ok in H as (ast & _ & H). apply bind_Ok in H as ([] & _ & H).
  apply bind_Ok in H as (e & _ & H). apply bind_Ok in H as ([] & _ & H). apply bind_Ok in H as (cost & _ & H).
  apply bind_Ok in H as ([] & H1%err_if_ok & H). apply bind_Ok in H as ([] & _ & H). injection H as <-. cbn. lia.
Qed.
Lemma grows_cel v binding : collected v -> bounded_cel (svOptions v) binding -> grows v (add_cel binding v).
Proof. intros [C1 C2 C3 C4] H. split; cbn; try done. split; cbn; try done. apply Forall_app. split; [done|by constructor]. Qed.

Lemma yields_canonical path a : yields (canonical_equals path a)
  (fun _ a' _ => asRequirement a' = asRequirement a ∧ asAssertionRole a' = asAssertionRole a).
Proof.
  unfold canonical_equals. case_decide; [|eapply yields_weaken; [apply yields_ret|]; by intros v a' v' _ ->].
  intros v a' v' Hc E. next_call E c s1 H1. apply lift_Ok in H1 as [_ ->]. injection E as <- <-. split; [by apply grows_refl|done].
Qed.
Lemma yields_expression stepID index path a : yields (bind_expression stepID index path a)
  (fun _ a' _ => asRequirement a' = asRequirement a ∧ asAssertionRole a' = asAssertionRole a).
Proof.
  unfold bind_expression. case_decide as Hx; [|eapply yields_weaken; [apply yields_ret|]; by intros v a' v' _ ->].
  intros v a' v' Hc H. next_call H w s0 H0. injection H0 as <- <-. next_call H c s1 H1. apply lift_Ok in H1 as [H1%wrap_ok ->].
  next_call H u s2 H2. injection H2 as _ <-. injection H as <- <-. split; [|done].
  apply grows_cel; [done|]. unfold bounded_cel. cbn. eapply compileCEL_bounded; [apply Hc|exact H1].
Qed.

Lemma yields_validateAssertion stepID spec index a : yields (validateAssertion stepID spec index a)
  (fun _ a' v' => linked spec v' a' ∧ asAssertionRole a' = asAssertionRole a).
Proof.
  intros v a' v' Hc H. unfold validateAssertion in H. next_call H w s0 H0. injection H0 as <- <-. cbn zeta in H.
  next_call H u1 s1 H1. apply fail_if_Ok in H1 as [_ ->]. next_call H u2 s2 H2. apply fail_if_Ok in H2 as [_ ->].
  next_call H u3 s3 H3. apply fail_if_Ok in H3 as [_ ->]. next_call H u4 s4 H4. apply fail_if_Ok in H4 as [_ ->].
  next_call H u5 s5 H5. apply fail_if_Ok in H5 as [_ ->]. next_call H u6 s6 H6. apply fail_if_Ok in H6 as [_ ->].
  next_call H a1 s7 H7. unfold at_stage in H7. destruct (linkAssertionRequirement a _ v) as [[a1'|e] s7'] eqn:E; [|done].
  injection H7 as -> ->. apply link_ok in E as (G1 & L & R1); [|done].
  next_call H a2 s8 H8. apply yields_canonical in H8 as (G2 & Q1 & Q2); [|apply G1].
  apply yields_expression in H as (G3 & Q3 & Q4); [|apply G2].
  assert (G : grows s7 v') by (by eapply grows_trans).
  split; [by eapply grows_trans|]. split; [|congruence]. apply (linked_mono _ _ _ _ (gr_requirements _ _ G)) in L as [L1 L2 L3].
  rewrite <- Q1, <- Q3 in L1, L2, L3. rewrite <- Q2, <- Q4 in L2, L3. by split.
Qed.

Lemma yields_indexed {A B} (f : Z -> A -> ValM B) (P : scenarioValidation -> Z -> A -> B -> Prop) xs :
  (forall v v' i x y, grows v v' -> P v i x y -> P v' i x y) ->
  (forall i x, x ∈ xs -> yields (f i x) (fun _ y v' => P v' i x y)) -> forall index,
  yields (for_indexed f index xs) (fun _ ys v' =>
    length ys = length xs ∧ forall k x y, xs !! k = Some x -> ys !! k = Some y -> P v' (index + Z.of_nat k) x y).
Proof.
  intros HP. induction xs as [|x xs IH]; intros HF index.
  - intros v ys v' Hc [= <- <-]. split; [by apply grows_refl|]. split; [done|]. by intros [|k] ? ?.
  - intros v ys v'' Hc H. cbn in H. next_call H y v1 H1. next_call H ys1 v2 H2. injection H as <- <-.
    destruct (HF index x ltac:(left) _ _ _ Hc H1) as [G1 P1].
    destruct (IH (fun i z Hz => HF i z ltac:(by right)) _ _ _ _ (gr_collected _ _ G1) H2) as (G2 & L & P2).
    split; [by eapply grows_trans|]. split; [cbn; by rewrite L|].
    intros [|k] x' y' Hx Hy; cbn in Hx, Hy.
    + injection Hx as <-. injection Hy as <-. rewrite Z.add_0_r. by eapply HP.
    + specialize (P2 k x' y' Hx Hy). by replace (index + Z.of_nat (S k)) with (index + 1 + Z.of_nat k) by lia.
Qed.

(** ** Steps *)
Definition of_option {A B} (f : A -> B) (o : option A) : list B := match o with Some a => [f a] | None => [] end.

(** What the operation of a step names. *)
Definition references (s : Step) : list string :=
  of_option cpStream (stCapture s) ++ of_option rrAcquireFrom (stRegisterResource s) ++
  of_option ptCallIDFrom (stProvideToolResult s) ++ of_option wfSource (stWaitFor s) ++ of_option cnInvocation (stCancel s).
Definition resources_of (s : Step) : list string :=
  of_option rrResource (stRegisterResource s) ++ of_option fzFinalize (stFinalize s).
Definition fixtures_of (s : Step) : list string :=
  (invoke ← of_option ivControlledBackend (stInvoke s); of_option cbFixture invoke) ++ of_option rpFixture (stReplay s).
Definition values_of (s : Step) : list json :=
  (request ← of_option ivRequest (stInvoke s); of_option JObject request) ++ of_option ptResult (stProvideToolResult s).

Record step_closed (spec : ScenarioSpec) (v : scenarioValidation) (index : Z) (s s' : Step) : Prop := {
  sc_references : forall ref, ref ∈ references s -> exists j, svStepIndexes v !! referenceRoot ref = Some j ∧ j < index;
  sc_resources : forall id, id ∈ resources_of s -> is_Some (svResources v !! id);
  sc_fixtures : forall ref, ref ∈ fixtures_of s -> is_Some (svFixtures v !! ref);
  sc_values : forall j, j ∈ values_of s -> good_value (svOptions v) (svFixtures v) j;
  sc_assertions : forall as', stAssert s' = Some as' -> Forall (linked spec v) as';
  sc_same : s' = s ∨ exists as_ as', stAssert s = Some as_ ∧ s' = set_Assert as' s;
  sc_timeout : forall w, stWaitFor s = Some w -> 0 < wfTimeout w <= sbTimeout (spBudgets spec)
}.

(** Exactly one operation. *)
Definition single (s : Step) : Prop :=
  match s with
  | mkStep _ (Some _) None None None None None None None None
  | mkStep _ None (Some _) None None None None None None None
  | mkStep _ None None (Some _) None None None None None None
  | mkStep _ None None None (Some _) None None None None None
  | mkStep _ None None None None (Some _) None None None None
  | mkStep _ None None None None None (Some _) None None None
  | mkStep _ None None None None None None (Some _) None None
  | mkStep _ None None None None None None None (Some _) None
  | mkStep _ None None None None None None None None (Some _) => True
  | _ => False
  end.
Lemma countStepVariants_one s : countStepVariants s = 1 -> single s.
Proof. destruct s as [id [] [] [] [] [] [] [] [] []]; done. Qed.

Lemma yields_reference ref index path : yields (requirePreviousReference ref index path)
  (fun v _ _ => exists j, svStepIndexes v !! referenceRoot ref = Some j ∧ j < index).
Proof.
  intros v [] v' Hc H. unfold requirePreviousReference in H. next_call H w s0 H0. injection H0 as <- <-.
  apply fail_if_Ok in H as [H ->]. split; [by apply grows_refl|].
  destruct (svStepIndexes v !! referenceRoot ref) as [j|]; [|done]. exists j. split; [done|].
  apply not_false_is_true in H. by apply bool_decide_eq_true in H.
Qed.
Lemma yields_resource id path : yields (require_resource id path) (fun v _ _ => is_Some (svResources v !! id)).
Proof.
  intros v [] v' Hc H. unfold require_resource in H. next_call H w s0 H0. injection H0 as <- <-.
  apply fail_if_Ok in H as [H ->]. split; [by apply grows_refl|]. by apply not_eq_None_Some.
Qed.
Lemma yields_invoke path invoke : yields (validate_invoke path invoke) (fun _ _ v' =>
  exists request, ivRequest invoke = Some request ∧ good_value (svOptions v') (svFixtures v') (JObject request) ∧
    forall backend, ivControlledBackend invoke = Some backend -> is_Some (svFixtures v' !! cbFixture backend)).
Proof.
  intros v [] v' Hc H. unfold validate_invoke in H. next_call H u s1 H1. apply fail_if_Ok in H1 as [_ ->].
  destruct (ivRequest invoke) as [request|]; [|done]. next_call H u2 s2 H2.
  assert (B : grows v s2 ∧ forall backend, ivControlledBackend invoke = Some backend -> is_Some (svFixtures s2 !! cbFixture backend)).
  { destruct (ivControlledBackend invoke) as [backend|].
    - apply yields_resolveFixture in H2 as [G F]; [|done]. split; [done|]. by intros b [= <-].
    - injection H2 as _ <-. split; [by apply grows_refl|done]. }
  destruct B as [G1 B]. apply yields_validateDynamicValue in H as [G2 D]; [|apply G1].
  split; [by eapply grows_trans|]. exists request. split_and!; [done|done|]. intros backend Hb.
  destruct (B backend Hb) as [d Hd]. exists d. eapply lookup_weaken; [done|apply G2].
Qed.
Lemma yields_wait id path index spec wait : yields (validate_wait id path index spec wait) (fun v _ _ =>
  (exists j, svStepIndexes v !! referenceRoot (wfSource wait) = Some j ∧ j < index) ∧
  0 < wfTimeout wait <= sbTimeout (spBudgets spec)).
Proof.
  intros v [] v' Hc H. unfold validate_wait in H. next_call H u1 s1 H1. destruct u1.
  pose proof H1 as R. apply yields_reference in R as [_ R]; [|done].
  unfold requirePreviousReference in H1. next_call H1 w s0 H0. injection H0 as <- <-. apply fail_if_Ok in H1 as [_ ->].
  next_call H u2 s2 H2. apply lift_Ok in H2 as [H2%wrap_ok ->]. destruct u2. unfold Duration_Validate in H2. apply err_if_ok in H2.
  next_call H u3 s3 H3. apply fail_if_Ok in H3 as [H3 ->]. next_call H w s4 H4. injection H4 as <- <-.
  next_call H c s5 H5. apply lift_Ok in H5 as [H5%wrap_ok ->]. injection H as <-.
  split; [|split; [done|lia]]. apply grows_cel; [done|]. unfold bounded_cel. cbn. eapply compileCEL_bounded; [apply Hc|exact H5].
Qed.

Lemma yields_assertions id spec assertions :
  yields (for_indexed (validateAssertion id spec) 0 assertions) (fun _ as' v' => Forall (linked spec v') as').
Proof.
  eapply yields_weaken; [apply (yields_indexed _ (fun v _ _ a => linked spec v a))|].
  - intros v v' _ _ a G. apply linked_mono, G.
  - intros i x _. eapply yields_weaken; [apply yields_validateAssertion|]. by intros v a v' _ [? _].
  - intros v as' v' _ [L H]. apply Forall_lookup. intros k a Hk.
    destruct (lookup_lt_is_Some_2 assertions k) as [x Hx]; [rewrite <- L; by eapply lookup_lt_Some|]. by apply (H k x a).
Qed.

(** The parts that an operation has none of. *)
Ltac no_parts := split; cbn; try (intros ? ?%elem_of_nil; done); try (by left); try done.
Ltac one_part := let H := fresh in intros ? H%list_elem_of_singleton; subst.

Lemma yields_validateStep spec index path s : single s ->
  yields (validateStep s index path spec) (fun _ s' v' => step_closed spec v' index s s').
Proof.
  intros HS v s' v' Hc H. destruct s as [id [iv|] [cp|] [rr|] [pt|] [wf|] [as_|] [cn|] [rp|] [fz|]]; try done; clear HS;
    cbn [validateStep] in H.
  - next_call H u s1 H1. apply yields_invoke in H1 as [G (req & E & D & F)]; [|done]. injection H as <- <-. split; [done|].
    no_parts; rewrite ?E; [|by one_part].
    destruct (ivControlledBackend iv) as [backend|]; cbn; [|by intros ? ?%elem_of_nil]. one_part. by apply F.
  - next_call H u s1 H1. apply yields_reference in H1 as [G R]; [|done]. next_call H u2 s2 H2. apply fail_if_Ok in H2 as [_ ->].
    injection H as <- <-. split; [done|]. no_parts. one_part. by rewrite (gr_steps _ _ G).
  - next_call H u s1 H1. apply yields_resource in H1 as [G1 P]; [|done]. next_call H u2 s2 H2.
    apply yields_reference in H2 as [G2 R]; [|apply G1]. injection H as <- <-. split; [by eapply grows_trans|].
    no_parts; one_part; [by rewrite (gr_steps _ _ G2)|]. by rewrite (gr_resources _ _ G2), (gr_resources _ _ G1).
  - next_call H u s1 H1. apply yields_reference in H1 as [G1 R]; [|done]. next_call H u2 s2 H2.
    apply yields_validateDynamicValue in H2 as [G2 D]; [|apply G1]. injection H as <- <-. split; [by eapply grows_trans|].
    no_parts; one_part; [|done]. by rewrite (gr_steps _ _ G2), (gr_steps _ _ G1).
  - next_call H u s1 H1. apply yields_wait in H1 as [G [R T]]; [|done]. injection H as <- <-. split; [done|].
    no_parts; [one_part; by rewrite (gr_steps _ _ G)|]. by intros w [= <-].
  - next_call H u s1 H1. apply fail_if_Ok in H1 as [_ ->]. next_call H as' s2 H2.
    apply yields_assertions in H2 as [G L]; [|done]. injection H as <- <-. split; [done|]. no_parts; [by intros ? [= <-]|]. right. by exists as_, as'.
  - next_call H u s1 H1. apply yields_reference in H1 as [G R]; [|done]. next_call H u2 s2 H2. apply fail_if_Ok in H2 as [_ ->].
    injection H as <- <-. split; [done|]. no_parts. one_part. by rewrite (gr_steps _ _ G).
  - next_call H u s1 H1. apply yields_resolveFixture in H1 as [G F]; [|done]. next_call H u2 s2 H2. apply fail_if_Ok in H2 as [_ ->].
    injection H as <- <-. split; [done|]. no_parts. by one_part.
  - next_call H u s1 H1. apply yields_resource in H1 as [G P]; [|done]. injection H as <- <-. split; [done|]. no_parts. one_part.
    by rewrite (gr_resources _ _ G).
Qed.

(** ** The steps in order *)
Record advances (v v' : scenarioValidation) : Prop := {
  ad_options : svOptions v' = svOptions v;
  ad_resources : svResources v' = svResources v;
  ad_steps : svStepIndexes v ⊆ svStepIndexes v';
  ad_requirements : svRequirements v ⊆ svRequirements v';
  ad_fixtures : svFixtures v ⊆ svFixtures v'
}.
Lemma grows_advances v v' : grows v v' -> advances v v'.
Proof. intros [? E ? ? ? ?]. split; try done. by rewrite E. Qed.
Lemma advances_trans v1 v2 v3 : advances v1 v2 -> advances v2 v3 -> advances v1 v3.
Proof. intros [] []. split; [congruence..|by etrans|by etrans|by etrans]. Qed.

Lemma step_closed_advances spec v v' i s s' : advances v v' -> step_closed spec v i s s' -> step_closed spec v' i s s'.
Proof.
  intros A [H1 H2 H3 H4 H5 H6 H7]. split; [| | | | |done|done].
  - intros ref Hr. destruct (H1 ref Hr) as (j & Hj & ?). exists j. split; [eapply lookup_weaken; [done|apply A]|done].
  - intros id Hi. rewrite (ad_resources _ _ A). by apply H2.
  - intros ref Hr. destruct (H3 ref Hr) as [d Hd]. exists d. eapply lookup_weaken; [done|apply A].
  - intros j Hj. rewrite (ad_options _ _ A). eapply good_value_mono; [apply A|by apply H4].
  - intros as' Ha. eapply Forall_impl; [by apply H5|]. intros a. apply linked_mono, A.
Qed.

Lemma collected_step v id index : collected v -> collected (set_step id index v).
Proof. intros []. by split. Qed.

Record steps_closed (spec : ScenarioSpec) (index : Z) (v v' : scenarioValidation) (steps steps' : list Step) : Prop := {
  ss_advances : advances v v' ∧ collected v';
  ss_indexed : forall k s, steps !! k = Some s ->
    svStepIndexes v !! stID s = None ∧ svStepIndexes v' !! stID s = Some (index + Z.of_nat k);
  ss_only : forall id i, svStepIndexes v' !! id = Some i ->
    svStepIndexes v !! id = Some i ∨ exists k s, steps !! k = Some s ∧ stID s = id ∧ i = index + Z.of_nat k;
  ss_length : length steps' = length steps;
  ss_closed : forall k s s', steps !! k = Some s -> steps' !! k = Some s' ->
    single s ∧ step_closed spec v' (index + Z.of_nat k) s s'
}.

Lemma indexed_step_ok spec index s v s' v' : collected v -> validate_indexed_step spec index s v = (Ok s', v') ->
  single s ∧ svStepIndexes v !! stID s = None ∧ grows (set_step (stID s) index v) v' ∧ step_closed spec v' index s s'.
Proof.
  intros Hc H. unfold validate_indexed_step in H. cbn zeta in H. next_call H u1 s1 H1. apply fail_if_Ok in H1 as [_ ->].
  next_call H w s2 H2. injection H2 as <- <-. next_call H u3 s3 H3. apply fail_if_Ok in H3 as [H3 ->].
  next_call H u4 s4 H4. apply fail_if_Ok in H4 as [H4 ->]. apply dec_stable, countStepVariants_one in H4.
  next_call H u5 s5 H5. injection H5 as _ <-.
  apply yields_validateStep in H as [G C]; [|done|by apply collected_step].
  split_and!; [done|by apply eq_None_not_Some|done|done].
Qed.

Lemma steps_ok spec steps : forall index v steps' v', collected v ->
  for_indexed (validate_indexed_step spec) index steps v = (Ok steps', v') -> steps_closed spec index v v' steps steps'.
Proof.
  induction steps as [|s steps IH]; intros index v steps' v' Hc H.
  { injection H as <- <-. split; [by split; [apply grows_advances, grows_refl|]|by intros [] ?|by left|done|by intros [] ? ?]. }
  cbn in H. next_call H s' v1 H1. next_call H rest v2 H2. injection H as <- <-.
  apply indexed_step_ok in H1 as (HS & HN & G & C); [|done].
  destruct (IH _ _ _ _ (gr_collected _ _ G) H2) as [[A A'] I O L P].
  pose proof (gr_steps _ _ G) as E. cbn in E.
  assert (A0 : advances v v1).
  { destruct G as [G1 _ G3 G4 G5 _]. split; try done. rewrite E. by apply insert_subseteq. }
  split; [by split; [eapply advances_trans|]| | |cbn; by rewrite L|].
  - intros [|k] s0 Hk; cbn in Hk.
    + injection Hk as <-. split; [done|]. rewrite Z.add_0_r. eapply lookup_weaken; [|apply A]. rewrite E. apply lookup_insert_eq.
    + destruct (I k s0 Hk) as [I1 I2]. rewrite E in I1. apply lookup_insert_None in I1 as [I1 _]. split; [done|].
      rewrite I2. f_equal. lia.
  - intros id i Hi. destruct (O id i Hi) as [Ho|(k & s0 & Hk & Hs & ->)].
    + rewrite E in Ho. apply lookup_insert_Some in Ho as [[<- <-]|[_ Ho]]; [|by left]. right. exists 0%nat, s. split_and!; [done|done|lia].
    + right. exists (S k), s0. split_and!; [done|done|lia].
  - intros [|k] s0 s1 H0 H1'; cbn in H0, H1'.
    + injection H0 as <-. injection H1' as <-. rewrite Z.add_0_r. split; [done|]. by eapply step_closed_advances.
    + replace (index + Z.of_nat (S k)) with (index + 1 + Z.of_nat k) by lia. by apply P.
Qed.

(** ** Requirements and resources *)
Lemma validate_refs_ok refs : forall index declared v v', collected v -> validate_refs index declared refs v = (Ok tt, v') ->
  grows v v' ∧ NoDup (rqID <$> refs) ∧ (forall ref, ref ∈ refs -> rqID ref ∉ declared ∧
    exists r, svRequirements v' !! rqID ref = Some r ∧ rcLevel r = rqLevel ref).
Proof.
  induction refs as [|ref refs IH]; intros index declared v v' Hc H.
  { injection H as <-. split_and!; [by apply grows_refl|constructor|]. by intros ref ?%elem_of_nil. }
  cbn in H. next_call H u1 s1 H1. apply fail_if_Ok in H1 as [H1 ->]. next_call H w s2 H2. injection H2 as <- <-.
  next_call H r s3 H3. apply lift_Ok in H3 as [H3%wrap_ok ->]. next_call H u4 s4 H4. apply fail_if_Ok in H4 as [H4%dec_stable ->].
  next_call H u5 s5 H5. injection H5 as _ <-. pose proof (grows_requirement _ _ _ Hc H3) as G.
  apply IH in H as (G2 & N & P); [|apply G]. split_and!.
  - by eapply grows_trans.
  - cbn. constructor; [|done]. intros (ref' & E & Hr)%list_elem_of_fmap. destruct (P ref' Hr) as [Hd _]. apply Hd.
    rewrite <- E. apply elem_of_union_l, elem_of_singleton. done.
  - intros ref' [->|Hr]%elem_of_cons.
    + split; [done|]. exists r. split; [|done]. eapply lookup_weaken; [|apply G2]. cbn.
      rewrite (requirementRecord_id _ _ _ H3). apply lookup_insert_eq.
    + destruct (P ref' Hr) as [Hd ?]. split; [|done]. intros Hin. apply Hd. by apply elem_of_union_r.
Qed.

(** A lease that can be cleaned up. *)
Record cleanable (classification : Classification) (r : ResourceLease) : Prop := {
  cl_finalizer : rfIdempotent (rlFinalizer r) = Some true ∧ 0 < rtMaxAttempts (rfRetry (rlFinalizer r)) <= 10;
  cl_budget : 0 < cuRequests (rlCleanupBudget r) ∧ 0 < cuDuration (rlCleanupBudget r);
  cl_stable : clStability classification = StabilityStable -> rlSideEffectClass r ≠ SideEffectIrreversible
}.

Lemma index_resource_ok classification index r v v' : index_resource classification index r v = (Ok tt, v') ->
  v' = set_resource r v ∧ svResources v !! rlID r = None ∧ cleanable classification r.
Proof.
  intros H. unfold index_resource in H. cbn zeta in H. next_call H u1 s1 H1. apply fail_if_Ok in H1 as [_ ->].
  next_call H w s2 H2. injection H2 as <- <-. next_call H u3 s3 H3. apply fail_if_Ok in H3 as [H3 ->].
  next_call H u4 s4 H4. apply fail_if_Ok in H4 as [_ ->]. next_call H u5 s5 H5. apply fail_if_Ok in H5 as [H5 ->].
  next_call H u6 s6 H6. apply fail_if_Ok in H6 as [_ ->]. next_call H u7 s7 H7. apply fail_if_Ok in H7 as [H7%dec_stable ->].
  next_call H u8 s8 H8. apply fail_if_Ok in H8 as [H8 ->]. next_call H u9 s9 H9. apply fail_if_Ok in H9 as [H9 ->].
  next_call H u10 s10 H10. apply lift_Ok in H10 as [H10%wrap_ok ->]. destruct u10. unfold Duration_Validate in H10. apply err_if_ok in H10.
  injection H as <-. split_and!; [done|by apply eq_None_not_Some|]. split; [split; [done|lia]|lia|tauto].
Qed.

Record resources_indexed (classification : Classification) (resources : list ResourceLease) (v v' : scenarioValidation) : Prop := {
  ri_same : svOptions v' = svOptions v ∧ svStepIndexes v' = svStepIndexes v ∧ svRequirements v' = svRequirements v ∧
    svFixtures v' = svFixtures v ∧ svCELBindings v' = svCELBindings v;
  ri_kept : svResources v ⊆ svResources v';
  ri_distinct : NoDup (rlID <$> resources);
  ri_lookup : forall r, r ∈ resources -> svResources v !! rlID r = None ∧ svResources v' !! rlID r = Some r;
  ri_only : forall id r, svResources v' !! id = Some r -> svResources v !! id = Some r ∨ r ∈ resources ∧ rlID r = id;
  ri_cleanable : Forall (cleanable classification) resources
}.

Lemma resources_ok classification resources : forall index v us v',
  for_indexed (index_resource classification) index resources v = (Ok us, v') -> resources_indexed classification resources v v'.
Proof.
  induction resources as [|r rs IH]; intros index v us v' H.
  { injection H as _ <-. split; [done|done|constructor|by intros r ?%elem_of_nil|by left|constructor]. }
  cbn in H. next_call H u v1 H1. destruct u. apply index_resource_ok in H1 as (-> & HN & HC).
  next_call H rest v2 H2. injection H as _ <-. destruct (IH _ _ _ _ H2) as [S K D L O C]. cbn in S, K, L, O.
  assert (F : rlID r ∉ rlID <$> rs).
  { intros (r' & E & Hr)%list_elem_of_fmap. destruct (L r' Hr) as [L1 _]. rewrite E in L1. by rewrite lookup_insert_eq in L1. }
  split; [done|by etrans; [apply insert_subseteq|]|by constructor| | |by constructor].
  - intros r' [->|Hr]%elem_of_cons.
    + split; [done|]. eapply lookup_weaken; [|exact K]. apply lookup_insert_eq.
    + destruct (L r' Hr) as [L1 L2]. split; [|done]. by apply lookup_insert_None in L1 as [? _].
  - intros id x Hx. destruct (O id x Hx) as [Ho|[Hr E]]; [|right; split; [by right|done]].
    apply lookup_insert_Some in Ho as [[<- <-]|[_ Ho]]; [right; split; [left|done]|by left].
Qed.

(** ** Accepted scenarios *)
Context {ro : RangeOrder string string} {co : RangeOrder string (list string)} {so : SortBindings}.

(** Every reference of a step is to a step before it. *)
Definition refers_back (steps : list Step) : Prop := forall i s ref, steps !! i = Some s -> ref ∈ references s ->
  exists j s', (j < i)%nat ∧ steps !! j = Some s' ∧ stID s' = referenceRoot ref.

Record accepted (options : CompileOptions) (scenario scenario' : Scenario) (v : scenarioValidation) : Prop := {
  ac_options : svOptions v = effective_options options ∧ coMaxCELCost (svOptions v) <= AbsoluteMaxCELCost;
  ac_collected : collected v;
  ac_requirements : NoDup (rqID <$> spRequirements (snSpec scenario)) ∧
    forall ref, ref ∈ spRequirements (snSpec scenario) ->
      exists r, svRequirements v !! rqID ref = Some r ∧ rcLevel r = rqLevel ref;
  ac_resources : NoDup (rlID <$> spResources (snSpec scenario)) ∧
    Forall (cleanable (spClassification (snSpec scenario))) (spResources (snSpec scenario)) ∧
    forall id, is_Some (svResources v !! id) -> id ∈ rlID <$> spResources (snSpec scenario);
  ac_acquired : forall r, r ∈ spResources (snSpec scenario) ->
    referenceRoot (rlAcquireFrom r) ∈ stID <$> spSteps (snSpec scenario);
  ac_finally : fzFinalize <$> spFinally (snSpec scenario) = reverse (rlID <$> spResources (snSpec scenario));
  ac_scenario : exists steps', scenario' = set_Steps steps' scenario ∧ length steps' = length (spSteps (snSpec scenario));
  ac_steps : spSteps (snSpec scenario) ≠ [] ∧ NoDup (stID <$> spSteps (snSpec scenario)) ∧
    Forall single (spSteps (snSpec scenario));
  ac_references : refers_back (spSteps (snSpec scenario));
  ac_closed : forall k s s', spSteps (snSpec scenario) !! k = Some s -> spSteps (snSpec scenario') !! k = Some s' ->
    step_closed (snSpec scenario) v (Z.of_nat k) s s'
}.

Lemma new_validation_collected options : collected (new_validation options).
Proof. split; cbn; try done. by case_decide. Qed.

Lemma indexResources_ok resources classification v v' : collected v ->
  indexResources resources classification v = (Ok tt, v') -> resources_indexed classification resources v v' ∧ collected v'.
Proof.
  intros [C1 C2 C3 C4] H. unfold indexResources in H. next_call H us v1 H1. apply resources_ok in H1 as R.
  assert (v' = v1) as ->.
  { destruct (decide _); [|by apply fail_if_Ok in H as [_ ->]].
    apply (for_eachM_elem _ _ _ _ (fun _ => True)) in H as [-> _]; [done|]. by intros x s1 s2 [_ ->]%fail_if_Ok. }
  split; [done|]. destruct R as [(E1 & E2 & E3 & E4 & E5) _ _ _ _ _]. split; rewrite ?E1, ?E3, ?E4, ?E5; done.
Qed.

Lemma for_indexed_same {A B} (f : Z -> A -> ValM B) (P : Z -> A -> scenarioValidation -> Prop) xs :
  (forall i x v y v', f i x v = (Ok y, v') -> v' = v ∧ P i x v) -> forall index v ys v',
  for_indexed f index xs v = (Ok ys, v') -> v' = v ∧ forall k x, xs !! k = Some x -> P (index + Z.of_nat k) x v.
Proof.
  intros Hf. induction xs as [|x xs IH]; intros index v ys v' H; [injection H as _ <-; by split; [|intros []]|].
  cbn in H. next_call H y v1 H1. apply Hf in H1 as [-> H1]. next_call H rest v2 H2. injection H as _ <-.
  apply IH in H2 as [-> H2]. split; [done|]. intros [|k] z Hz; cbn in Hz.
  - injection Hz as <-. by rewrite Z.add_0_r.
  - replace (index + Z.of_nat (S k)) with (index + 1 + Z.of_nat k) by lia. by apply H2.
Qed.

Lemma finally_ok spec v v' : validateResourceReferencesAndFinally spec v = (Ok tt, v') -> v' = v ∧
  (forall r, r ∈ spResources spec -> is_Some (svStepIndexes v !! referenceRoot (rlAcquireFrom r))) ∧
  fzFinalize <$> spFinally spec = reverse (rlID <$> spResources spec).
Proof.
  intros H. unfold validateResourceReferencesAndFinally in H. next_call H us1 v1 H1.
  apply (for_indexed_same _ (fun _ r v => is_Some (svStepIndexes v !! referenceRoot (rlAcquireFrom r)))) in H1 as [-> H1].
  2: { intros i r v0 [] v2 H0. unfold requireAnyStepReference in H0. next_call H0 w s0 H2. injection H2 as <- <-.
       apply fail_if_Ok in H0 as [H0 ->]. split; [done|]. by apply not_eq_None_Some. }
  next_call H u2 v2 H2. apply fail_if_Ok in H2 as [H2%dec_stable ->]. next_call H us3 v3 H3. injection H as <-.
  apply (for_indexed_same _ (fun i f _ => fzFinalize f =
    match rev (spResources spec) !! Z.to_nat i with Some r => rlID r | None => "" end)) in H3 as [-> H3].
  2: { intros i f v0 [] v4 H0. unfold check_finalizer in H0. apply fail_if_Ok in H0 as [H0%dec_stable ->]. done. }
  split_and!; [done| |].
  - intros r Hr. apply list_elem_of_lookup in Hr as [k Hk]. by eapply H1.
  - assert (ER : rev (spResources spec) = reverse (spResources spec)) by (unfold reverse; apply rev_alt).
    rewrite ER in H3. rewrite <- fmap_reverse. apply list_eq. intros k. rewrite !list_lookup_fmap.
    destruct (spFinally spec !! k) as [f|] eqn:Ef.
    + specialize (H3 k f Ef). cbv beta in H3. rewrite Z.add_0_l, Nat2Z.id in H3. apply lookup_lt_Some in Ef. rewrite H2, <- length_reverse in Ef.
      apply lookup_lt_is_Some_2 in Ef as [r Hr]. rewrite Hr in *. cbn. by rewrite H3.
    + apply lookup_ge_None in Ef. rewrite H2, <- length_reverse in Ef. apply lookup_ge_None in Ef. by rewrite Ef.
Qed.

(** References by position. *)
Lemma refers_back_ok spec v v' steps steps' : svStepIndexes v = ∅ -> steps_closed spec 0 v v' steps steps' -> refers_back steps.
Proof.
  intros E0 [_ I O L C] i s ref Hs Hr. destruct (lookup_lt_is_Some_2 steps' i) as [s' Hs'].
  { rewrite L. by eapply lookup_lt_Some. }
  destruct (C i s s' Hs Hs') as [_ [R _ _ _ _ _ _]]. destruct (R ref Hr) as (j & Hj & Hlt).
  destruct (O _ _ Hj) as [Ho|(k & s0 & Hk & E & ->)]; [by rewrite E0, lookup_empty in Ho|].
  exists k, s0. split_and!; [lia|done|done].
Qed.
Lemma steps_distinct spec v v' steps steps' : steps_closed spec 0 v v' steps steps' -> NoDup (stID <$> steps).
Proof.
  intros [_ I _ _ _]. apply NoDup_alt. intros i j id Hi Hj. rewrite list_lookup_fmap in Hi, Hj.
  destruct (steps !! i) as [s|] eqn:Es; [|done]. destruct (steps !! j) as [t|] eqn:Et; [|done]. cbn in Hi, Hj.
  destruct (I i s Es) as [_ E1]. destruct (I j t Et) as [_ E2].
  assert (stID s = stID t) as E by congruence. rewrite E in E1. rewrite E1 in E2. injection E2. lia.
Qed.
Lemma steps_single spec v v' steps steps' : steps_closed spec 0 v v' steps steps' -> Forall single steps.
Proof.
  intros [_ _ _ L C]. apply Forall_lookup. intros i s Hs. destruct (lookup_lt_is_Some_2 steps' i) as [s' Hs'].
  { rewrite L. by eapply lookup_lt_Some. }
  by apply (C i s s').
Qed.

Lemma validateScenario_ok scenario options scenario' v :
  validateScenario scenario options = Ok (scenario', v) -> accepted options scenario scenario' v.
Proof.
  unfold validateScenario. intros H. apply bind_Ok in H as ([] & _ & H). apply bind_Ok in H as ([] & HL%err_if_ok & H).
  destruct (validate_body scenario (new_validation options)) as [[sc|e] v'] eqn:E; [|done]. injection H as -> ->.
  unfold validate_body in E. next_call E u1 v1 H1. destruct u1.
  unfold validateRequirements in H1. next_call H1 u0 s0 H0. apply fail_if_Ok in H0 as [_ ->].
  apply validate_refs_ok in H1 as (G1 & N1 & P1); [|apply new_validation_collected].
  next_call E u2 s2 H2. apply lift_Ok in H2 as [_ ->]. next_call E u3 v2 H3. destruct u3.
  apply indexResources_ok in H3 as [R C2]; [|apply G1]. next_call E steps' v3 H4. unfold validateSteps in H4.
  next_call H4 u5 s5 H5. apply fail_if_Ok in H5 as [Hne ->]. apply steps_ok in H4 as S; [|done].
  next_call E u6 s6 H6. destruct u6. apply finally_ok in H6 as (-> & A & F). next_call E u7 v4 H7. injection H7 as _ <-.
  injection E as <- <-. destruct R as [(E1 & E2 & E3 & E4 & E5) K D L O C]. destruct (ss_advances _ _ _ _ _ _ S) as [AD C3].
  assert (ES : svStepIndexes v2 = ∅) by (rewrite E2, (gr_steps _ _ G1); done).
  split; cbn.
  - rewrite (ad_options _ _ AD), E1, (gr_options _ _ G1). split; [done|]. cbn in *. lia.
  - destruct C3. by split.
  - split; [done|]. intros ref Hr. destruct (P1 ref Hr) as (_ & r & Hr' & ?). exists r. split; [|done].
    eapply lookup_weaken; [|apply AD]. by rewrite E3.
  - split_and!; [done|done|]. intros id [r Hr]. rewrite (ad_resources _ _ AD) in Hr.
    destruct (O id r Hr) as [Ho|[Hi <-]]; [|by apply list_elem_of_fmap_2].
    rewrite (gr_resources _ _ G1) in Ho. cbn in Ho. by rewrite lookup_empty in Ho.
  - intros r Hr. destruct (A r Hr) as [i Hi]. destruct (ss_only _ _ _ _ _ _ S _ _ Hi) as [Ho|(k & s & Hk & E & _)].
    + by rewrite ES, lookup_empty in Ho.
    + apply list_elem_of_fmap. exists s. split; [done|]. by eapply list_elem_of_lookup_2.
  - done.
  - exists steps'. split; [done|]. by apply S.
  - split_and!; [by destruct (spSteps (snSpec scenario))|by eapply steps_distinct|by eapply steps_single].
  - by eapply refers_back_ok.
  - intros k s s' Hs Hs'. destruct (ss_closed _ _ _ _ _ _ S k s s' Hs Hs') as [_ CL].
    eapply step_closed_advances; [|exact CL]. by split.
Qed.
End Accepted.
