(* ===== verification/PackCompile.v ===== *)
(** * pkg/packapi/compile.go: compiled scenarios and packs

    The intermediate forms with their canonical bytes and digests, the
    validation of a pack manifest and the two compilers over the decoder of
    Yaml.v. *)
From Stdlib Require Import ZArith Ascii String Lia.
From stdpp Require Import base gmap sets list strings sorting pretty.
From S2P Require Import Prelude Schema Canonical Sorting SSE OracleSchema RawJSON PackPattern Yaml Pack.
Local Open Scope Z_scope.
Local Open Scope string_scope.
Local Open Scope list_scope.

Record CompilerIdentity := mkCompilerIdentity {
  ciName : string; ciVersion : string; ciCanonicalization : string; ciCELEnvironment : string
}.
Definition compilerIdentity : CompilerIdentity :=
  mkCompilerIdentity CompilerName CompilerSemanticVersion "RFC8785" "restricted-pure-v1".

Record RequirementLink := mkRequirementLink {
  lkID : string; lkLevel : RequirementLevel; lkCategory : ScenarioClass; lkSourceDigest : Digest
}.
Record FixturePin := mkFixturePin { fpRef : string; fpDigest : Digest }.
Record ScenarioIR := mkScenarioIR {
  irSchemaVersion : string;
  irKind : string;
  irCompiler : CompilerIdentity;
  irScenario : Scenario;
  irRequirementLinks : list RequirementLink;
  irFixturePins : list FixturePin;
  irCELBindings : list CELBinding;
  irTemplateBindings : list TemplateBinding
}.
Record CompiledScenario := mkCompiledScenario {
  cmAuthored : Scenario; cmIR : ScenarioIR; cmCanonicalJSON : list ascii; cmDigest : Digest
}.

(** ** Packs *)
Record PackMetadata := mkPackMetadata { pmName : string; pmVersion : string }.
Record EngineCompatibility := mkEngineCompatibility { egMinVersion : string; egMaxMajor : Z }.
Record ProtocolSnapshotRef := mkProtocolSnapshotRef { psRef : string }.
Record ScenarioSelection := mkScenarioSelection { slInclude : list string }.
Record ConformanceSuite := mkConformanceSuite { csRequirements : list string }.
Record PackBudget := mkPackBudget { pkMaxRequests : Z; pkMaxDuration : Z }.
Record SigningExpectation := mkSigningExpectation { sgDigest : Digest }.
Record PackSpec := mkPackSpec {
  kspEngine : EngineCompatibility;
  kspProtocolSnapshot : ProtocolSnapshotRef;
  kspScenarios : ScenarioSelection;
  kspConformanceSuites : gmap string ConformanceSuite;
  kspDefaultBudget : PackBudget;
  kspSigning : SigningExpectation
}.
Record ProtocolPack := mkProtocolPack {
  pkAPIVersion : string; pkKind : string; pkMetadata : PackMetadata; pkSpec : PackSpec
}.
Record PackCompileOptions := mkPackCompileOptions {
  poProtocolSnapshots : gmap string Digest; poScenarioFiles : gmap string Digest
}.
Record ScenarioPin := mkScenarioPin { spnPath : string; spnDigest : Digest }.
Record PackSpecIR := mkPackSpecIR {
  piEngine : EngineCompatibility;
  piProtocolSnapshot : ProtocolSnapshotRef;
  piScenarios : ScenarioSelection;
  piConformanceSuites : gmap string ConformanceSuite;
  piDefaultBudget : PackBudget
}.
Record PackIR := mkPackIR {
  pirSchemaVersion : string;
  pirKind : string;
  pirCompiler : CompilerIdentity;
  pirMetadata : PackMetadata;
  pirSpec : PackSpecIR;
  pirProtocolSnapshotDigest : Digest;
  pirScenarioPins : list ScenarioPin
}.
Record CompiledPack := mkCompiledPack {
  cpkAuthored : ProtocolPack; cpkIR : PackIR; cpkCanonicalJSON : list ascii; cpkDigest : Digest
}.
Record packValidation := mkPackValidation { pvSnapshotDigest : Digest; pvScenarios : list ScenarioPin }.

(** [strconv.ParseInt(strings.SplitN(v, ".", 2)[0], 10, 64)] with the error
    ignored: a number that is out of range is the nearest one. *)
Definition major_version (version : string) : Z :=
  let digits := referenceRoot version in
  match ParseInt digits with
  | Some major => major
  | None => match parse_digits digits 0 with Some _ => int64_max | None => 0 end
  end.

Section Packs.
Context {jl : JSONLibrary} {ro : RangeOrder string string} {su : RangeOrder string ConformanceSuite}.

Definition fixture_error (path : string) (e : error) : CompileError := mkCompileError StageFixture path e.

(** The candidates of one include pattern: what is selected so far and
    whether the pattern matched. *)
Fixpoint select_candidates (fieldPath pattern : string) (files : gmap string Digest) (candidates : list string)
    (selected : gmap string Digest) (matched : bool) : result CompileError (gmap string Digest * bool) :=
  match candidates with
  | [] => Ok (selected, matched)
  | path :: rest =>
      let digest := match files !! path with Some digest => digest | None => "" end in
      wrap (fun e => fixture_error fieldPath (Wrapf (Sprintf "candidate scenario path %q: %w" [FStr path]) e))
        (validateSafeRelativePath path false);;
      if globMatches pattern path then
        wrap (fun e => fixture_error fieldPath (Wrapf (Sprintf "scenario %q digest: %w" [FStr path]) e))
          (Digest_Validate digest);;
        select_candidates fieldPath pattern files rest (<[path := digest]> selected) true
      else select_candidates fieldPath pattern files rest selected matched
  end.

Fixpoint select_patterns (index : Z) (files : gmap string Digest) (patterns : list string) (seen : gset string)
    (selected : gmap string Digest) : result CompileError (gmap string Digest) :=
  match patterns with
  | [] => Ok selected
  | pattern :: rest =>
      let fieldPath := at_index "$.spec.scenarios.include" index in
      wrap (fixture_error fieldPath) (validateSafeRelativePath pattern true);;
      err_if (pattern ∈ seen) (semanticError fieldPath (Sprintf "duplicate include pattern %q" [FStr pattern]));;
      '(selected, matched) ← select_candidates fieldPath pattern files (sort_Strings (fst <$> range files)) selected false;
      err_if (matched = false)
        (fixture_error fieldPath (ErrorNew (Sprintf "pattern %q matched no supplied scenario" [FStr pattern])));;
      select_patterns (index + 1) files rest ({[pattern]} ∪ seen) selected
  end.

Fixpoint check_selectors (name : string) (seen : gset string) (selectors : list string) : result CompileError unit :=
  match selectors with
  | [] => Ok tt
  | requirement :: rest =>
      let path := "$.spec.conformanceSuites." +:+ name in
      err_if (resourceNamePattern requirement = false)
        (semanticError path (Sprintf "invalid requirement selector %q" [FStr requirement]));;
      err_if (requirement ∈ seen) (semanticError path (Sprintf "duplicate requirement selector %q" [FStr requirement]));;
      check_selectors name ({[requirement]} ∪ seen) rest
  end.
Definition check_suite (suites : gmap string ConformanceSuite) (name : string) : result CompileError unit :=
  let requirements := match suites !! name with Some suite => csRequirements suite | None => [] end in
  err_if (resourceNamePattern name = false ∨ length requirements = 0%nat)
    (semanticError "$.spec.conformanceSuites" (Sprintf "invalid suite %q" [FStr name]));;
  check_selectors name ∅ requirements.

Definition pin_le (a b : ScenarioPin) : Prop := string_le (spnPath a) (spnPath b).
#[export] Instance pin_le_dec : RelDecision pin_le.
Proof. intros a b. unfold pin_le. apply _. Defined.

Definition validatePack (pack : ProtocolPack) (options : PackCompileOptions) : result CompileError packValidation :=
  let spec := pkSpec pack in
  err_if (pkAPIVersion pack ≠ PackAPIVersion ∨ pkKind pack ≠ PackKind)
    (semanticError "$" (Text "pack apiVersion/kind mismatch"));;
  err_if (artifactNamePattern (pmName (pkMetadata pack)) = false) (semanticError "$.metadata.name" (Text "invalid pack name"));;
  err_if (calverPattern (pmVersion (pkMetadata pack)) = false)
    (semanticError "$.metadata.version" (Text "pack version must be YYYY.MM.patch CalVer"));;
  err_if (semverPattern (egMinVersion (kspEngine spec)) = false ∨ egMaxMajor (kspEngine spec) <= 0)
    (semanticError "$.spec.engine" (Text "invalid engine version range"));;
  err_if (major_version (egMinVersion (kspEngine spec)) > egMaxMajor (kspEngine spec))
    (semanticError "$.spec.engine.maxMajor" (Text "maxMajor is below minVersion major"));;
  let refPath := "$.spec.protocolSnapshot.ref" in
  wrap (fixture_error refPath) (validateSafeRelativePath (psRef (kspProtocolSnapshot spec)) false);;
  snapshotDigest ← match poProtocolSnapshots options !! psRef (kspProtocolSnapshot spec) with
                   | Some digest => Ok digest
                   | None => Err (fixture_error refPath (ErrorNew (Text "protocol snapshot is not supplied")))
                   end;
  wrap (fixture_error refPath) (Digest_Validate snapshotDigest);;
  err_if (length (slInclude (kspScenarios spec)) = 0%nat)
    (semanticError "$.spec.scenarios.include" (Text "at least one scenario include is required"));;
  selected ← select_patterns 0 (poScenarioFiles options) (slInclude (kspScenarios spec)) ∅ ∅;
  err_if (size (kspConformanceSuites spec) = 0%nat)
    (semanticError "$.spec.conformanceSuites" (Text "at least one suite is required"));;
  for_each (check_suite (kspConformanceSuites spec)) (sort_Strings (fst <$> range (kspConformanceSuites spec)));;
  err_if (pkMaxRequests (kspDefaultBudget spec) <= 0)
    (semanticError "$.spec.defaultBudget.maxRequests" (Text "must be positive"));;
  wrap (fun e => semanticError "$.spec.defaultBudget.maxDuration" (as_text e))
    (Duration_Validate (pkMaxDuration (kspDefaultBudget spec)));;
  (if decide (sgDigest (kspSigning spec) ≠ "") then
     wrap (fun e => semanticError "$.spec.signing.digest" (as_text e)) (Digest_Validate (sgDigest (kspSigning spec)))
   else mret tt);;
  mret (mkPackValidation snapshotDigest
    (merge_sort pin_le ((fun '(path, digest) => mkScenarioPin path digest) <$> range selected))).
End Packs.

(** ** The compilers *)

(** The YAML parser, the two JSON schemas, [encoding/json] at the types of
    this package, [strconv.ParseFloat] and the text of errors. *)
Class AuthoredLibrary := {
  authored_Decode : list ascii -> result error (Node * result error unit);
  authored_finite : string -> bool;
  authored_Marshal : json -> result error (list ascii);
  scenarioJSONSchema : json -> result error unit;
  packJSONSchema : json -> result error unit;
  Decode_Scenario : list ascii -> result error (Scenario * result error unit);
  Decode_Pack : list ascii -> result error (ProtocolPack * result error unit);
  Marshal_ScenarioIR : ScenarioIR -> result error (list ascii);
  Marshal_PackIR : PackIR -> result error (list ascii);
  (** whether the text has "JSON Schema validation" or "decode authored contract" in it *)
  names_schema : error -> bool
}.

Section Compile.
Context {jl : JSONLibrary} {Ast : Type} {cel : CELLibrary Ast} {al : AuthoredLibrary}.
Context {ro : RangeOrder string string} {co : RangeOrder string (list string)} {so : SortBindings}.
Context {rr : RangeOrder string RequirementRecord} {su : RangeOrder string ConformanceSuite}.

Definition decodeScenarioYAML (raw : list ascii) : result error Scenario :=
  decodeAuthoredYAML authored_finite authored_Decode scenarioJSONSchema authored_Marshal Decode_Scenario raw.
Definition decodePackYAML (raw : list ascii) : result error ProtocolPack :=
  decodeAuthoredYAML authored_finite authored_Decode packJSONSchema authored_Marshal Decode_Pack raw.

Definition classifyDecodeError (e : error) : CompileError :=
  mkCompileError (if names_schema e then StageSchema else StageParse) "$" e.

Definition link_le (a b : RequirementLink) : Prop := string_le (lkID a) (lkID b).
#[local] Instance link_le_dec : RelDecision link_le.
Proof. intros a b. unfold link_le. apply _. Defined.
Definition fixture_le (a b : FixturePin) : Prop := string_le (fpRef a) (fpRef b).
#[local] Instance fixture_le_dec : RelDecision fixture_le.
Proof. intros a b. unfold fixture_le. apply _. Defined.

Definition link_of (r : RequirementRecord) : RequirementLink :=
  mkRequirementLink (rcID r) (rcLevel r) (rcCategory r) (rcSourceDigest r).
Definition requirement_links (v : scenarioValidation) : list RequirementLink :=
  merge_sort link_le ((fun '(_, r) => link_of r) <$> range (svRequirements v)).
Definition fixture_pins (v : scenarioValidation) : list FixturePin :=
  merge_sort fixture_le ((fun '(ref, digest) => mkFixturePin ref digest) <$> range (svFixtures v)).

(** The repetition an author may leave out. *)
Definition default_repetition (scenario : Scenario) : Scenario :=
  let s := snSpec scenario in
  if decide (rpCount (spRepetition s) = 0 ∧ rpPolicy (spRepetition s) = "") then
    mkScenario (snAPIVersion scenario) (snKind scenario) (snMetadata scenario)
      (mkScenarioSpec (spProtocol s) (spClassification s) (spRequirements s) (spRequires s) (spBudgets s) (spSteps s)
         (spResources s) (spFinally s) (mkRepetitionPolicy 1 "all") (spPublication s))
  else scenario.

Definition scenario_IR (scenario : Scenario) (v : scenarioValidation) : ScenarioIR :=
  mkScenarioIR "urn:agentapi-doctor:compiled-scenario:v1" "CompiledScenario" compilerIdentity scenario
    (requirement_links v) (fixture_pins v) (svCELBindings v) (svTemplateBindings v).

Definition CompileScenarioYAML (raw : list ascii) (options : CompileOptions) : result CompileError CompiledScenario :=
  scenario ← wrap classifyDecodeError (decodeScenarioYAML raw);
  '(scenario, v) ← validateScenario (default_repetition scenario) options;
  let ir := scenario_IR scenario v in
  canonical ← wrap (mkCompileError StageCanonical "$") (CanonicalMarshal Marshal_ScenarioIR ir);
  mret (mkCompiledScenario scenario ir canonical (NewDigest canonical)).

Definition pack_IR (pack : ProtocolPack) (resolution : packValidation) : PackIR :=
  let s := pkSpec pack in
  mkPackIR "urn:agentapi-doctor:compiled-pack:v1" "CompiledProtocolPack" compilerIdentity (pkMetadata pack)
    (mkPackSpecIR (kspEngine s) (kspProtocolSnapshot s) (kspScenarios s) (kspConformanceSuites s) (kspDefaultBudget s))
    (pvSnapshotDigest resolution) (pvScenarios resolution).

Definition CompileProtocolPackYAML (raw : list ascii) (options : PackCompileOptions) : result CompileError CompiledPack :=
  pack ← wrap classifyDecodeError (decodePackYAML raw);
  resolution ← validatePack pack options;
  let ir := pack_IR pack resolution in
  canonical ← wrap (mkCompileError StageCanonical "$") (CanonicalMarshal Marshal_PackIR ir);
  let digest := NewDigest canonical in
  let declared := sgDigest (kspSigning (pkSpec pack)) in
  err_if (declared ≠ "" ∧ declared ≠ digest)
    (mkCompileError StageCanonical "$.spec.signing.digest"
       (ErrorNew (Sprintf "declared %s does not match compiled %s" [FStr declared; FStr digest])));;
  mret (mkCompiledPack pack ir canonical digest).
End Compile.
