(* ===== verification/PackCompileSpec.v ===== *)
(** * Compiled scenarios and packs (pkg/packapi/compile.go)

    What a successful compilation guarantees about its result, and that packs
    pin exactly the scenario files they select. *)
From Stdlib Require Import ZArith Ascii String Lia.
From stdpp Require Import base gmap sets list strings sorting pretty.
From S2P Require Import Prelude Schema Canonical Sorting OracleSchema PackPattern PackPatternSpec Yaml Pack PackSpec.
From S2P Require Import PackCompile.
Local Open Scope Z_scope.
Local Open Scope string_scope.
Local Open Scope list_scope.

Section Compiled.
Context {jl : JSONLibrary} {Ast : Type} {cel : CELLibrary Ast} {al : AuthoredLibrary}.
Context {ro : RangeOrder string string} {co : RangeOrder string (list string)} {so : SortBindings}.
Context {rr : RangeOrder string RequirementRecord} {su : RangeOrder string ConformanceSuite}.

Lemma compile_ok raw options compiled : CompileScenarioYAML raw options = Ok compiled ->
  exists scenario v, accepted options scenario (cmAuthored compiled) v ∧ cmIR compiled = scenario_IR (cmAuthored compiled) v ∧
    CanonicalMarshal Marshal_ScenarioIR (cmIR compiled) = Ok (cmCanonicalJSON compiled) ∧
    cmDigest compiled = NewDigest (cmCanonicalJSON compiled).
Proof.
  unfold CompileScenarioYAML. intros H. apply bind_Ok in H as (scenario & _ & H). apply bind_Ok in H as ([sc v] & H1 & H).
  apply bind_Ok in H as (canonical & H2%wrap_ok & H). injection H as <-.
  exists (default_repetition scenario), v. split_and!; [by apply validateScenario_ok|done|done|done].
Qed.

(** ** The authored and the compiled steps *)
Section Steps.
Context (options : CompileOptions) (scenario scenario' : Scenario) (v : scenarioValidation).
Hypothesis HA : accepted options scenario scenario' v.

Lemma compiled_spec : spRequirements (snSpec scenario') = spRequirements (snSpec scenario) ∧
  spResources (snSpec scenario') = spResources (snSpec scenario) ∧ spFinally (snSpec scenario') = spFinally (snSpec scenario) ∧
  spClassification (snSpec scenario') = spClassification (snSpec scenario) ∧
  spBudgets (snSpec scenario') = spBudgets (snSpec scenario).
Proof. destruct (ac_scenario _ _ _ _ HA) as (steps' & -> & _). done. Qed.

Lemma compiled_length : length (spSteps (snSpec scenario')) = length (spSteps (snSpec scenario)).
Proof. by destruct (ac_scenario _ _ _ _ HA) as (steps' & -> & ?). Qed.

(** A compiled step is closed, and names what the authored one names. *)
Lemma compiled_step k s' : spSteps (snSpec scenario') !! k = Some s' ->
  exists s, spSteps (snSpec scenario) !! k = Some s ∧ step_closed (snSpec scenario) v (Z.of_nat k) s s' ∧
    stID s' = stID s ∧ references s' = references s ∧ resources_of s' = resources_of s ∧
    fixtures_of s' = fixtures_of s ∧ values_of s' = values_of s ∧ stWaitFor s' = stWaitFor s ∧ (single s -> single s').
Proof.
  intros Hs'. destruct (lookup_lt_is_Some_2 (spSteps (snSpec scenario)) k) as [s Hs].
  { rewrite <- compiled_length. by eapply lookup_lt_Some. }
  pose proof (ac_closed _ _ _ _ HA k s s' Hs Hs') as C. exists s. split_and!; [done|done|..];
    destruct (sc_same _ _ _ _ _ C) as [->|(as_ & as' & E & ->)]; try done.
  by destruct s as [id [] [] [] [] [] [] [] [] []].
Qed.

Lemma compiled_refers_back : refers_back (spSteps (snSpec scenario')).
Proof.
  intros i s' ref Hs' Hr. destruct (compiled_step i s' Hs') as (s & Hs & _ & _ & E & _). rewrite E in Hr.
  destruct (ac_references _ _ _ _ HA i s ref Hs Hr) as (j & t & Hj & Ht & Et).
  destruct (lookup_lt_is_Some_2 (spSteps (snSpec scenario')) j) as [t' Ht'].
  { rewrite compiled_length. by eapply lookup_lt_Some. }
  destruct (compiled_step j t' Ht') as (t0 & Ht0 & _ & Eid & _). exists j, t'. split_and!; [done|done|congruence].
Qed.
Lemma compiled_ids : stID <$> spSteps (snSpec scenario') = stID <$> spSteps (snSpec scenario).
Proof.
  apply list_eq. intros k. rewrite !list_lookup_fmap. destruct (spSteps (snSpec scenario') !! k) as [s'|] eqn:Hs'.
  - destruct (compiled_step k s' Hs') as (s & -> & _ & E & _). cbn. by rewrite E.
  - apply lookup_ge_None in Hs'. rewrite compiled_length in Hs'. apply lookup_ge_None in Hs'. by rewrite Hs'.
Qed.
Lemma compiled_single : Forall single (spSteps (snSpec scenario')).
Proof.
  apply Forall_lookup. intros k s' Hs'. destruct (compiled_step k s' Hs') as (s & Hs & _ & _ & _ & _ & _ & _ & _ & H).
  apply H. destruct (ac_steps _ _ _ _ HA) as (_ & _ & F). by eapply (Forall_lookup_1 _ _ _ _ F).
Qed.
End Steps.

(** A scenario that can be executed step by step and cleaned up. *)
Record closed_scenario (spec : ScenarioSpec) : Prop := {
  cs_steps : spSteps spec ≠ [] ∧ NoDup (stID <$> spSteps spec) ∧ Forall single (spSteps spec);
  cs_references : refers_back (spSteps spec);
  cs_waits : forall s w, s ∈ spSteps spec -> stWaitFor s = Some w -> 0 < wfTimeout w <= sbTimeout (spBudgets spec);
  cs_resources : NoDup (rlID <$> spResources spec) ∧ Forall (cleanable (spClassification spec)) (spResources spec);
  cs_acquired : forall r, r ∈ spResources spec -> referenceRoot (rlAcquireFrom r) ∈ stID <$> spSteps spec;
  cs_used : forall s id, s ∈ spSteps spec -> id ∈ resources_of s -> id ∈ rlID <$> spResources spec;
  cs_finally : fzFinalize <$> spFinally spec = reverse (rlID <$> spResources spec)
}.

(** [C28] Compiled scenarios are closed: each step has a name of its own and
    exactly one operation; every reference in a step is to an earlier step; no
    wait is longer than the scenario; the resources that steps register or
    finalize are declared, acquired from a step and have an idempotent
    finalizer with a bounded number of attempts and a positive budget; and the
    final steps are exactly the resources in the reverse order.  The digest is
    that of the canonical bytes of the compiled form. *)
Theorem compiled_scenarios_are_closed raw options compiled : CompileScenarioYAML raw options = Ok compiled ->
  closed_scenario (snSpec (cmAuthored compiled)) ∧ irScenario (cmIR compiled) = cmAuthored compiled ∧
  CanonicalMarshal Marshal_ScenarioIR (cmIR compiled) = Ok (cmCanonicalJSON compiled) ∧
  cmDigest compiled = NewDigest (cmCanonicalJSON compiled).
Proof.
  intros (scenario & v & HA & HI & HC & HD)%compile_ok. split_and!; [|by rewrite HI|done|done].
  destruct (compiled_spec _ _ _ _ HA) as (E1 & E2 & E3 & E4 & E5). destruct (ac_steps _ _ _ _ HA) as (S1 & S2 & _).
  destruct (ac_resources _ _ _ _ HA) as (R1 & R2 & R3).
  split; rewrite ?E2, ?E3, ?E4, ?(compiled_ids _ _ _ _ HA); try done.
  - split_and!; [|done|by eapply compiled_single]. intros E. apply S1, length_zero_iff_nil.
    rewrite <- (compiled_length _ _ _ _ HA). by rewrite E.
  - by eapply compiled_refers_back.
  - intros s w [k Hk]%list_elem_of_lookup Hw. destruct (compiled_step _ _ _ _ HA k s Hk) as (s0 & _ & C & _ & _ & _ & _ & _ & Ew & _).
    rewrite E5. apply C. congruence.
  - by apply HA.
  - intros s id [k Hk]%list_elem_of_lookup Hid. destruct (compiled_step _ _ _ _ HA k s Hk) as (s0 & _ & C & _ & _ & Er & _).
    rewrite Er in Hid. by apply R3, C.
  - by apply HA.
Qed.

(** ** What a compiled scenario pins and links *)
Lemma elem_of_sorted_range {A} {rv : RangeOrder string A} {B} (f : string -> A -> B) (R : relation B) `{!RelDecision R} m k a :
  m !! k = Some a -> f k a ∈ merge_sort R ((fun '(k, a) => f k a) <$> range m).
Proof.
  intros H. rewrite merge_sort_Permutation, range_perm. apply list_elem_of_fmap. exists (k, a).
  split; [done|by apply elem_of_map_to_list].
Qed.

(** A value inside another. *)
Inductive inside : json -> json -> Prop :=
| in_here j : inside j j
| in_array j e es : e ∈ es -> inside j e -> inside j (JArray es)
| in_object j k c ms : (k, c) ∈ ms -> inside j c -> inside j (JObject ms).

Lemma good_inside options pinned j v : inside j v -> good_value options pinned v -> good_value options pinned j.
Proof.
  induction 1 as [|j e es He _ IH|j k c ms Hc _ IH]; [done|..]; inversion 1; subst; [by apply IH; auto|].
  apply IH. eauto.
Qed.

Lemma good_template_expands options text values : good_template options text ->
  (forall variable, variable ∈ allowed_variables options -> is_Some (values !! variable)) ->
  (exists out, ExpandTemplateString text values = Ok out) ∨ ExpandTemplateString text values = Err expansion_limit.
Proof.
  intros [Hm Hv] Hall. unfold ExpandTemplateString. rewrite (proj2 (err_if_ok _ _)) by (rewrite Hm; done). cbn [mbind result_bind].
  assert (HE : forall acc, (exists out, expand_matches values (FindAll templatePattern text).1 acc = Ok out) ∨
                 expand_matches values (FindAll templatePattern text).1 acc = Err expansion_limit).
  { unfold variables in Hv. induction (FindAll templatePattern text).1 as [|[b w] ms IH]; intros acc; [left; by eexists|].
    cbn [expand_matches]. destruct (Hall _ (Hv (submatch w) ltac:(left))) as [value ->]. cbn zeta. unfold err_if.
    case_decide; [by right|]. apply IH. intros x Hx. apply Hv. by right. }
  destruct (HE []) as [[out ->]| ->]; [|by right]. cbn. unfold err_if. case_decide; [by right|left; by eexists].
Qed.

(** The pin of a reference: the supplied digest of a safe path. *)
Definition pinned_ref (options : CompileOptions) (pins : list FixturePin) (ref : string) : Prop :=
  exists digest, mkFixturePin ref digest ∈ pins ∧ coFixtures options !! ref = Some digest ∧
    Digest_Validate digest = Ok tt ∧ validateSafeRelativePath ref false = Ok tt.

(** What a compiled scenario uses is pinned: every fixture that a step
    names, also as the member "fixture" anywhere inside a request or a tool
    result, is pinned to its supplied valid digest under a safe path; and
    every text inside these values expands, once the allowed variables have
    values, to text of at most a mebibyte or to the error that it is longer. *)
Theorem compiled_references_are_pinned raw options compiled : CompileScenarioYAML raw options = Ok compiled ->
  let pins := irFixturePins (cmIR compiled) in
  forall s, s ∈ spSteps (snSpec (cmAuthored compiled)) ->
  (forall ref, ref ∈ fixtures_of s -> pinned_ref options pins ref) ∧
  (forall v ms c, v ∈ values_of s -> inside (JObject ms) v -> ("fixture", c) ∈ ms ->
     exists ref, c = JString ref ∧ pinned_ref options pins ref) ∧
  (forall v text values, v ∈ values_of s -> inside (JString text) v ->
     (forall variable, variable ∈ allowed_variables (effective_options options) -> is_Some (values !! variable)) ->
     (exists out, ExpandTemplateString text values = Ok out) ∨ ExpandTemplateString text values = Err expansion_limit).
Proof.
  intros (scenario & v & HA & HI & _ & _)%compile_ok pins s [k Hk]%list_elem_of_lookup.
  destruct (compiled_step _ _ _ _ HA k s Hk) as (s0 & _ & C & _ & _ & _ & EF & EV & _). destruct (ac_options _ _ _ _ HA) as [EO _].
  assert (HP : forall ref, is_Some (svFixtures v !! ref) -> pinned_ref options pins ref).
  { intros ref [digest Hd]. exists digest. destruct (co_fixtures _ (ac_collected _ _ _ _ HA) _ _ Hd) as (? & ? & ?).
    rewrite EO in *. split_and!; [|done..]. subst pins. rewrite HI. by apply (elem_of_sorted_range mkFixturePin). }
  rewrite EF, EV. split_and!.
  - intros ref Hr. by apply HP, C.
  - intros w ms c Hw Hin Hc.
    pose proof (good_inside _ _ _ _ Hin (sc_values _ _ _ _ _ C w Hw)) as G. inversion G as [| | | | |? _ Hf]; subst.
    destruct (Hf c Hc) as (ref & -> & Hs). exists ref. split; [done|by apply HP].
  - intros w text values Hw Hin Hall. pose proof (good_inside _ _ _ _ Hin (sc_values _ _ _ _ _ C w Hw)) as G.
    inversion G as [| | |? Ht| |]; subst. rewrite EO in Ht. by eapply good_template_expands.
Qed.

(** The link of a requirement: its record in the catalog, which is valid. *)
Definition linked_ref (options : CompileOptions) (links : list RequirementLink) (ref : string) (record : RequirementRecord) : Prop :=
  requirementRecord options ref = Ok record ∧ rcID record = ref ∧ link_of record ∈ links.

(** Verdicts of a compiled scenario are about the catalog: each
    requirement that it declares is linked at the declared level, a normative
    assertion has a declared requirement that is normative in the catalog, an
    assertion of a consumer profile one of a consumer or client, and every
    expression that may be evaluated has an estimated cost within the limit. *)
Theorem compiled_assertions_are_catalogued raw options compiled : CompileScenarioYAML raw options = Ok compiled ->
  let spec := snSpec (cmAuthored compiled) in
  let links := irRequirementLinks (cmIR compiled) in
  (forall ref, ref ∈ spRequirements spec ->
     exists r, linked_ref options links (rqID ref) r ∧ rcLevel r = rqLevel ref) ∧
  (forall s as_ a, s ∈ spSteps spec -> stAssert s = Some as_ -> a ∈ as_ ->
     (asAssertionRole a = RoleNormative -> asRequirement a ∈ rqID <$> spRequirements spec ∧
        (asRequirement a ≠ "" -> exists r, linked_ref options links (asRequirement a) r ∧ rcCategory r = ClassNormative)) ∧
     (asAssertionRole a = RoleConsumerProfile -> exists r, linked_ref options links (asRequirement a) r ∧
        (rcCategory r = ClassConsumerProfile ∨ rcCategory r = ClassDeFactoClient))) ∧
  (forall b, b ∈ irCELBindings (cmIR compiled) ->
     ccEstimatedCost (cbCompiled b) <= coMaxCELCost (effective_options options) <= AbsoluteMaxCELCost).
Proof.
  intros (scenario & v & HA & HI & _ & _)%compile_ok spec links. destruct (ac_options _ _ _ _ HA) as [EO EL].
  destruct (compiled_spec _ _ _ _ HA) as (ER & _).
  assert (HL : forall ref r, svRequirements v !! ref = Some r -> linked_ref options links ref r).
  { intros ref r Hr. pose proof (co_requirements _ (ac_collected _ _ _ _ HA) _ _ Hr) as H. rewrite EO in H. split_and!; [done|by eapply requirementRecord_id|].
    subst links. rewrite HI. by apply (elem_of_sorted_range (fun _ r => link_of r) _ _ _ _ Hr). }
  split_and!.
  - subst spec. rewrite ER. intros ref Hr. destruct (ac_requirements _ _ _ _ HA) as [_ H]. destruct (H ref Hr) as (r & Hr' & ?).
    exists r. split; [by apply HL|done].
  - intros s as_ a [k Hk]%list_elem_of_lookup Has Ha. destruct (compiled_step _ _ _ _ HA k s Hk) as (s0 & _ & C & _).
    pose proof (sc_assertions _ _ _ _ _ C _ Has) as F. rewrite Forall_forall in F. destruct (F a Ha) as [_ L2 L3]. subst spec. rewrite ER.
    split.
    + intros E. destruct (L2 E) as [? L]. split; [done|]. intros E'. destruct (L E') as (r & Hr & ?). exists r. split; [by apply HL|done].
    + intros E. destruct (L3 E) as (r & Hr & ?). exists r. split; [by apply HL|done].
  - intros b Hb. rewrite HI in Hb. pose proof (co_cel _ (ac_collected _ _ _ _ HA)) as F. rewrite Forall_forall in F.
    rewrite EO in *. split; [by apply F|done].
Qed.

(** ** Packs *)
Section Selection.
Context (files : gmap string Digest).

(** What the selection holds: the files of which [P] is true, each with a safe
    path and a valid digest. *)
Definition chosen (P : string -> Prop) (selected : gmap string Digest) : Prop :=
  (forall path digest, selected !! path = Some digest <-> files !! path = Some digest ∧ P path) ∧
  (forall path digest, selected !! path = Some digest -> Digest_Validate digest = Ok tt ∧ validateSafeRelativePath path false = Ok tt).

Lemma chosen_insert P (Q : string -> Prop) selected path digest : chosen P selected -> files !! path = Some digest ->
  Digest_Validate digest = Ok tt -> validateSafeRelativePath path false = Ok tt -> (forall p, Q p <-> P p ∨ p = path) ->
  chosen Q (<[path := digest]> selected).
Proof.
  intros [H1 H2] Hf Hd Hs HQ. split.
  - intros p d. rewrite lookup_insert_Some, H1, HQ. split; [intros [[<- <-]|[Hn [? ?]]]|]; [by auto|by auto|].
    intros [Hp [HP| ->]]; [|left; split; congruence]. destruct (decide (path = p)) as [<-|]; [left; split; congruence|by right].
  - intros p d [[<- <-]|[_ Hp]]%lookup_insert_Some; [done|by apply H2].
Qed.
Lemma chosen_iff P Q selected : chosen P selected -> (forall p, Q p <-> P p) -> chosen Q selected.
Proof. intros [H1 H2] HQ. split; [|done]. intros p d. by rewrite H1, HQ. Qed.

Lemma select_candidates_ok fieldPath pattern candidates : (forall path, path ∈ candidates -> is_Some (files !! path)) ->
  forall P selected matched selected' matched', chosen P selected ->
  select_candidates fieldPath pattern files candidates selected matched = Ok (selected', matched') ->
  chosen (fun path => P path ∨ (path ∈ candidates ∧ globMatches pattern path = true)) selected' ∧
  (matched' = true <-> matched = true ∨ exists path, path ∈ candidates ∧ globMatches pattern path = true).
Proof.
  induction candidates as [|path rest IH]; intros Hin P selected matched selected' matched' HP H.
  { injection H as <- <-. split.
    - eapply chosen_iff; [exact HP|]. intros p. split; [|by left]. intros [?|[Hp _]]; [done|by apply elem_of_nil in Hp].
    - split; [by left|]. intros [?|(p & Hp & _)]; [done|by apply elem_of_nil in Hp]. }
  destruct (Hin path ltac:(left)) as [digest Hd]. cbn [select_candidates] in H.
  apply bind_Ok in H as ([] & H1%wrap_ok & H). destruct (globMatches pattern path) eqn:Em.
  - replace (match files !! path with Some digest => digest | None => "" end) with digest in H
      by (match goal with |- _ = match ?x with _ => _ end => change x with (files !! path) end; by rewrite Hd).
    apply bind_Ok in H as ([] & H2%wrap_ok & H).
    apply (IH (fun p Hp => Hin p ltac:(by right)) (fun p => P p ∨ p = path)) in H as [HC HM].
    2: { eapply chosen_insert; [exact HP|done..]. }
    split; [|rewrite HM; split; [|by left]; intros _; right; exists path; split; [left|done]].
    eapply chosen_iff; [exact HC|]. intros p. rewrite elem_of_cons.
    split; [intros [?|[[->|?] ?]]|intros [[?| ->]|[? ?]]]; by auto.
  - apply (IH (fun p Hp => Hin p ltac:(by right)) P) in H as [HC HM]; [|done]. split.
    + eapply chosen_iff; [exact HC|]. intros p. rewrite elem_of_cons.
      split; [intros [?|[[->|?] ?]]|intros [?|[? ?]]]; [by left|congruence|by right|by left|by auto].
    + rewrite HM. split; (intros [?|(p & Hp & ?)]; [by left|]); [right; exists p; split; [by right|done]|].
      apply elem_of_cons in Hp as [->|Hp]; [congruence|]. right. by exists p.
Qed.

Lemma candidates_files path : path ∈ sort_Strings (fst <$> range files) <-> is_Some (files !! path).
Proof.
  rewrite elem_of_sort_Strings, (range_perm files), list_elem_of_fmap. split.
  - intros ([p d] & -> & H%elem_of_map_to_list). by exists d.
  - intros [d H]. exists (path, d). split; [done|by apply elem_of_map_to_list].
Qed.

Lemma select_patterns_ok patterns : forall index seen P selected selected', chosen P selected ->
  select_patterns index files patterns seen selected = Ok selected' ->
  chosen (fun path => P path ∨ (is_Some (files !! path) ∧ exists pattern, pattern ∈ patterns ∧ globMatches pattern path = true)) selected' ∧
  (forall pattern, pattern ∈ patterns -> exists path, is_Some (files !! path) ∧ globMatches pattern path = true) ∧
  NoDup patterns ∧ (forall pattern, pattern ∈ patterns -> pattern ∉ seen ∧ validateSafeRelativePath pattern true = Ok tt).
Proof.
  induction patterns as [|pattern rest IH]; intros index seen P selected selected' HP H.
  { injection H as <-. split_and!; [|by intros ? ?%elem_of_nil|constructor|by intros ? ?%elem_of_nil].
    eapply chosen_iff; [exact HP|]. intros p. split; [|by left]. intros [?|[_ (q & Hq & _)]]; [done|by apply elem_of_nil in Hq]. }
  cbn [select_patterns] in H. apply bind_Ok in H as ([] & H1%wrap_ok & H). apply bind_Ok in H as ([] & H2%err_if_ok & H).
  apply bind_Ok in H as ([sel m] & H3 & H). apply bind_Ok in H as ([] & H4%err_if_ok & H).
  apply (select_candidates_ok _ _ _ (fun p => proj1 (candidates_files p)) P) in H3 as [C3 M3]; [|done].
  assert (C3' : chosen (fun path => P path ∨ (is_Some (files !! path) ∧ globMatches pattern path = true)) sel).
  { eapply chosen_iff; [exact C3|]. intros p. split; (intros [?|[Hx ?]]; [by left|right; split; [by apply candidates_files|done]]). }
  eapply IH in H as (C & M & ND & S); [|exact C3']. apply not_false_is_true, M3 in H4 as [?|(path & Hp & Hg)]; [done|].
  split_and!.
  - eapply chosen_iff; [exact C|]. intros p. split.
    + intros [?|[Hs (q & [->|Hq]%elem_of_cons & ?)]]; [by auto|by auto|right; split; [done|by exists q]].
    + intros [[?|[Hs ?]]|[Hs (q & Hq & ?)]]; [by left|right..]; (split; [done|]); [exists pattern|exists q]; (split; [|done]);
        [left|by right].
  - intros q [->|Hq]%elem_of_cons; [|by apply M]. exists path. split; [by apply candidates_files|done].
  - constructor; [|done]. intros Hq. destruct (S _ Hq) as [Hn _]. set_solver.
  - intros q [->|Hq]%elem_of_cons; [done|]. destruct (S _ Hq) as [Hn ?]. split; [set_solver|done].
Qed.
End Selection.

(** The pins in order: one for each selected file. *)
Lemma sorted_pins (selected : gmap string Digest) :
  let pins := merge_sort pin_le ((fun '(path, digest) => mkScenarioPin path digest) <$> range selected) in
  (forall path digest, mkScenarioPin path digest ∈ pins <-> selected !! path = Some digest) ∧
  StronglySorted string_lt (spnPath <$> pins).
Proof.
  intros pins. assert (Hp : pins ≡ₚ (fun '(path, digest) => mkScenarioPin path digest) <$> range selected) by apply merge_sort_Permutation.
  split.
  - intros path digest. rewrite Hp, range_perm, list_elem_of_fmap. split.
    + intros ([p d] & [= -> ->] & H). by apply elem_of_map_to_list.
    + intros H. exists (path, digest). split; [done|by apply elem_of_map_to_list].
  - assert (Hn : NoDup (spnPath <$> pins)).
    { rewrite Hp, <- list_fmap_compose, range_perm. rewrite (list_fmap_ext _ fst) by (by intros i [p d] _).
      apply NoDup_fst_map_to_list. }
    assert (E : sort_Strings (spnPath <$> pins) = spnPath <$> pins); [|rewrite <- E; by apply sort_Strings_strict].
    apply (Sorted_unique string_le); [apply sort_Strings_sorted| |apply sort_Strings_perm].
    assert (Hs : Sorted pin_le pins) by (apply Sorted_merge_sort; intros a b; apply string_le_total).
    clear -Hs. induction Hs as [|a l _ IH Ha]; constructor; [done|]. destruct Ha; by constructor.
Qed.

Lemma validatePack_ok pack options resolution : validatePack pack options = Ok resolution ->
  poProtocolSnapshots options !! psRef (kspProtocolSnapshot (pkSpec pack)) = Some (pvSnapshotDigest resolution) ∧
  Digest_Validate (pvSnapshotDigest resolution) = Ok tt ∧
  exists selected, select_patterns 0 (poScenarioFiles options) (slInclude (kspScenarios (pkSpec pack))) ∅ ∅ = Ok selected ∧
    pvScenarios resolution = merge_sort pin_le ((fun '(path, digest) => mkScenarioPin path digest) <$> range selected).
Proof.
  unfold validatePack. cbn zeta. intros H. do 6 apply bind_Ok in H as ([] & _ & H). apply bind_Ok in H as (snapshot & Hs & H).
  apply bind_Ok in H as ([] & Hd%wrap_ok & H). apply bind_Ok in H as ([] & _ & H). apply bind_Ok in H as (selected & Hsel & H).
  do 5 apply bind_Ok in H as ([] & _ & H). injection H as <-. cbn. split_and!; [|done|by exists selected].
  destruct (poProtocolSnapshots options !! _) as [d|]; [congruence|done].
Qed.

(** What a compiled pack pins. *)
Record pinned_pack (options : PackCompileOptions) (compiled : CompiledPack) : Prop := {
  pp_files : forall path digest, mkScenarioPin path digest ∈ pirScenarioPins (cpkIR compiled) <->
    poScenarioFiles options !! path = Some digest ∧
    exists pattern, pattern ∈ slInclude (piScenarios (pirSpec (cpkIR compiled))) ∧ globMatches pattern path = true;
  pp_valid : forall pin, pin ∈ pirScenarioPins (cpkIR compiled) ->
    Digest_Validate (spnDigest pin) = Ok tt ∧ validateSafeRelativePath (spnPath pin) false = Ok tt;
  pp_sorted : StronglySorted string_lt (spnPath <$> pirScenarioPins (cpkIR compiled));
  pp_patterns : NoDup (slInclude (piScenarios (pirSpec (cpkIR compiled)))) ∧
    forall pattern, pattern ∈ slInclude (piScenarios (pirSpec (cpkIR compiled))) ->
      exists pin, pin ∈ pirScenarioPins (cpkIR compiled) ∧ globMatches pattern (spnPath pin) = true;
  pp_snapshot : poProtocolSnapshots options !! psRef (piProtocolSnapshot (pirSpec (cpkIR compiled))) =
      Some (pirProtocolSnapshotDigest (cpkIR compiled)) ∧ Digest_Validate (pirProtocolSnapshotDigest (cpkIR compiled)) = Ok tt;
  pp_signing : sgDigest (kspSigning (pkSpec (cpkAuthored compiled))) = "" ∨
    sgDigest (kspSigning (pkSpec (cpkAuthored compiled))) = cpkDigest compiled
}.

(** A compiled pack pins exactly what it selects: its pins are the
    supplied scenario files that some include pattern matches, with their
    supplied and valid digests and safe paths, once each in the order of their
    paths; the patterns differ and each selects a file; the protocol snapshot
    is pinned to its supplied digest; and a digest that the author declares is
    the digest of the canonical bytes of the compiled pack. *)
Theorem packs_pin_what_they_select raw options compiled : CompileProtocolPackYAML raw options = Ok compiled ->
  pinned_pack options compiled ∧ cpkDigest compiled = NewDigest (cpkCanonicalJSON compiled) ∧
  CanonicalMarshal Marshal_PackIR (cpkIR compiled) = Ok (cpkCanonicalJSON compiled).
Proof.
  unfold CompileProtocolPackYAML. intros H. apply bind_Ok in H as (pack & _ & H). apply bind_Ok in H as (resolution & HV & H).
  cbn zeta in H. apply bind_Ok in H as (canonical & HC%wrap_ok & H). apply bind_Ok in H as ([] & HS%err_if_ok & H).
  injection H as <-. cbn [cpkDigest cpkCanonicalJSON cpkIR]. split_and!; [|done|done].
  apply validatePack_ok in HV as (S1 & S2 & selected & HP & E).
  apply (select_patterns_ok _ _ _ _ (fun _ => False)) in HP as ([C1 C2] & M & ND & _);
    [|by split; intros p d; rewrite lookup_empty; naive_solver].
  destruct (sorted_pins selected) as [P1 P2]. split; cbn; rewrite ?E; try done.
  - intros path digest. rewrite P1, C1. split; [intros [Hf [[]|[_ ?]]]; done|]. intros [Hf ?]. split; [done|]. right. by split; [eexists|].
  - intros [path digest] Hp%P1. by apply C2.
  - split; [done|]. intros pattern Hp. destruct (M pattern Hp) as (path & [digest Hd] & Hg). exists (mkScenarioPin path digest).
    split; [|done]. apply P1, C1. split; [done|]. right. split; [by eexists|by exists pattern].
  - destruct (decide (sgDigest (kspSigning (pkSpec pack)) = "")) as [|Hn]; [by left|right]. apply dec_stable. tauto.
Qed.
End Compiled.

(** ** A scenario and a pack *)
#[local] Instance sample_json : JSONLibrary := {
  NewDecoder raw := mkDecoder [Delim "{"; Delim "}"] io_EOF false;
  jcs_Transform raw := Ok raw;
  Sum256 data := resize 32 "0"%char data;
  Sum256_length data := length_resize data 32 "0"%char
}.
(** Expressions are their own trees; each costs its length. *)
#[local] Instance sample_cel : CELLibrary string := {
  cel_NewEnv := Ok tt;
  cel_Compile source := Ok source;
  cel_OutputType _ := "bool";
  cel_AstToCheckedExpr _ := Ok OtherExpr;
  cel_EstimateCost ast := Ok (len ast);
  cel_Program _ _ := Ok tt
}.
#[local] Instance binding_le_dec : RelDecision binding_le.
Proof. intros a b. unfold binding_le. apply _. Defined.
#[local] Instance binding_le_total : Total binding_le.
Proof. intros a b. apply string_le_total. Qed.
#[local] Program Instance sample_sort : SortBindings := { sort_bindings l := merge_sort binding_le l }.
Next Obligation. apply merge_sort_Permutation. Qed.
Next Obligation. apply Sorted_merge_sort, _. Qed.

Definition sample_digest : Digest := NewDigest (list_ascii_of_string "sample").
Definition sample_steps : list Step := [
  mkStep "create" (Some (mkInvokeStep "responses.create" "raw" (Some (mkControlledBackend "fixtures/backend.json"))
    (Some [("model", JString "{{ target.model }}"); ("input", JArray [JObject [("fixture", JString "fixtures/input.json")]])])))
    None None None None None None None None;
  mkStep "lease" None None (Some (mkRegisterResourceStep "response" "create.id")) None None None None None None;
  mkStep "wait" None None None None (Some (mkWaitForStep "create.stream" "done" 30)) None None None None;
  mkStep "check" None None None None None
    (Some [mkAssertion "" " status == 200 " [] RoleNormative "" ""]) None None None].
Definition sample_lease : ResourceLease :=
  mkResourceLease "response" "create.id" SideEffectReversibleRemote (mkResourceFinalizer "responses.delete" (Some true) (mkRetryPolicy 3))
    (mkCleanupBudget 2 10).
Definition sample_scenario : Scenario :=
  mkScenario ScenarioAPIVersion ScenarioKind (mkScenarioMetadata "create-response" "1.0.0" "Create" ∅)
    (mkScenarioSpec (mkProtocolBinding "openai-responses" "2026-07" sample_digest)
       (mkClassification ClassNormative StabilityStable SideEffectReversibleRemote (Some false))
       [mkRequirementRef "responses.create" LevelMust] (mkCapabilityRequirement ["responses"] [] [])
       (mkScenarioBudget 60 10 0 0 0 1024) sample_steps [sample_lease] [mkFinalizeStep "response"]
       (mkRepetitionPolicy 0 "") (mkPublicationPolicy "synthetic-only")).
Definition sample_options : CompileOptions :=
  mkCompileOptions {["responses.create" := mkRequirementRecord "responses.create" LevelMust sample_digest ClassNormative]}
    {["fixtures/backend.json" := sample_digest; "fixtures/input.json" := sample_digest]} None 0.

Definition sample_pack : ProtocolPack :=
  mkProtocolPack PackAPIVersion PackKind (mkPackMetadata "openai/responses" "2026.07.1")
    (mkPackSpec (mkEngineCompatibility "0.1.0" 1) (mkProtocolSnapshotRef "snapshots/responses.json")
       (mkScenarioSelection ["scenarios/**/*.yaml"; "extra/one.yaml"]) {["core" := mkConformanceSuite ["responses.create"]]}
       (mkPackBudget 100 60) (mkSigningExpectation "")).
Definition sample_pack_options : PackCompileOptions :=
  mkPackCompileOptions {["snapshots/responses.json" := sample_digest]}
    {["scenarios/b.yaml" := sample_digest; "scenarios/a/c.yaml" := sample_digest; "extra/one.yaml" := sample_digest;
      "extra/two.yaml" := sample_digest]}.

#[local] Instance sample_authored : AuthoredLibrary := {
  authored_Decode _ := Ok (mkNode DocumentNode "" "" "" false [mkNode MappingNode "!!map" "" "" false []], Err io_EOF);
  authored_finite _ := true;
  authored_Marshal _ := Ok (list_ascii_of_string "{}");
  scenarioJSONSchema _ := Ok tt;
  packJSONSchema _ := Ok tt;
  Decode_Scenario _ := Ok (sample_scenario, Err io_EOF);
  Decode_Pack _ := Ok (sample_pack, Err io_EOF);
  Marshal_ScenarioIR _ := Ok (list_ascii_of_string "{}");
  Marshal_PackIR _ := Ok (list_ascii_of_string "{}");
  names_schema _ := false
}.

Definition sample_source : list ascii := list_ascii_of_string "{}".
Definition sample_compiled : result CompileError CompiledScenario := CompileScenarioYAML sample_source sample_options.
Example sample_compilation :
  match sample_compiled with
  | Ok c => (fpRef <$> irFixturePins (cmIR c), lkID <$> irRequirementLinks (cmIR c), tbVariables <$> irTemplateBindings (cmIR c),
             ccSource ∘ cbCompiled <$> irCELBindings (cmIR c), rpCount (spRepetition (snSpec (cmAuthored c)))) =
            (["fixtures/backend.json"; "fixtures/input.json"], ["responses.create"], [["target.model"]], ["done"; "status == 200"], 1)
  | Err _ => False
  end.
Proof. vm_compute. reflexivity. Qed.
Definition sample_compiled_pack : result CompileError CompiledPack := CompileProtocolPackYAML sample_source sample_pack_options.
Example sample_pack_compilation :
  match sample_compiled_pack with
  | Ok c => spnPath <$> pirScenarioPins (cpkIR c) = ["extra/one.yaml"; "scenarios/a/c.yaml"; "scenarios/b.yaml"]
  | Err _ => False
  end.
Proof. vm_compute. reflexivity. Qed.

Lemma compiled_scenarios_are_closed_witness :
  match sample_compiled with Ok c => closed_scenario (snSpec (cmAuthored c)) | Err _ => False end.
Proof.
  destruct sample_compiled as [c|e] eqn:E; [|vm_compute in E; discriminate].
  exact (proj1 (compiled_scenarios_are_closed sample_source sample_options c E)).
Defined.
Lemma compiled_references_are_pinned_witness :
  match sample_compiled with
  | Ok c => forall s ref, s ∈ spSteps (snSpec (cmAuthored c)) -> ref ∈ fixtures_of s ->
      pinned_ref sample_options (irFixturePins (cmIR c)) ref
  | Err _ => False
  end.
Proof.
  destruct sample_compiled as [c|e] eqn:E; [|vm_compute in E; discriminate].
  intros s ref Hs Hr. exact (proj1 (compiled_references_are_pinned sample_source sample_options c E s Hs) ref Hr).
Defined.
Lemma compiled_assertions_are_catalogued_witness :
  match sample_compiled with
  | Ok c => exists r, linked_ref sample_options (irRequirementLinks (cmIR c)) "responses.create" r ∧ rcLevel r = LevelMust
  | Err _ => False
  end.
Proof.
  destruct sample_compiled as [c|e] eqn:E; [|vm_compute in E; discriminate].
  apply (proj1 (compiled_assertions_are_catalogued sample_source sample_options c E) (mkRequirementRef "responses.create" LevelMust)).
  vm_compute in E. injection E as <-. left.
Defined.
Lemma packs_pin_what_they_select_witness :
  match sample_compiled_pack with Ok c => pinned_pack sample_pack_options c | Err _ => False end.
Proof.
  destruct sample_compiled_pack as [c|e] eqn:E; [|vm_compute in E; discriminate].
  exact (proj1 (packs_pin_what_they_select sample_source sample_pack_options c E)).
Defined.

(** The keys of map literals are not searched for forbidden functions. *)
Example forbidden_function_in_a_key :
  findForbiddenCELFunction (StructExpr [(CallExpr "fetch" NilExpr [], OtherExpr)]) = "" ∧
  findForbiddenCELFunction (StructExpr [(OtherExpr, CallExpr "fetch" NilExpr [])]) = "fetch".
Proof. vm_compute. done. Qed.
