(* ===== verification/RegistryAuth.v ===== *)
(** * internal/registry: principals, scopes and shared checks

    auth.go, errors.go and the helpers of ingest.go, dispute.go and
    ownership.go that several records share. *)
From Stdlib Require Import ZArith Ascii String Lia.
From stdpp Require Import base gmap sets list strings sorting.
From S2P Require Import Prelude Schema.
Local Open Scope Z_scope.
Local Open Scope string_scope.
Local Open Scope list_scope.

(** ** Errors (errors.go) *)
Definition ErrUnauthenticated : error := Sentinel "registry principal is not authenticated".
Definition ErrForbidden : error := Sentinel "registry operation is forbidden".
Definition ErrNotOwner : error := Sentinel "registry object is owned by another principal".
Definition ErrExpired : error := Sentinel "registry object has expired".
Definition ErrDigestMismatch : error :=
  Sentinel "registry digest does not match prepared digest".
Definition ErrInvalidTransition : error := Sentinel "invalid registry state transition".
Definition ErrConflict : error := Sentinel "registry operation conflicts with existing state".

(** ** Scopes and principals (auth.go) *)
Definition Scope := string.
Definition ScopeObservationPrepare : Scope := "observation:prepare".
Definition ScopeObservationCommit : Scope := "observation:commit".
Definition ScopeOwnershipManage : Scope := "ownership:manage".
Definition ScopeDisputeCreate : Scope := "dispute:create".
Definition ScopeRunnerSubmit : Scope := "runner:submit".
Definition ScopeModerationReview : Scope := "moderation:review".
Definition ScopeRegistryAdmin : Scope := "registry:admin".

Definition validScopes : list Scope :=
  [ScopeObservationPrepare; ScopeObservationCommit; ScopeOwnershipManage; ScopeDisputeCreate;
   ScopeRunnerSubmit; ScopeModerationReview; ScopeRegistryAdmin].

Definition PrincipalID := string.

Definition PrincipalID_Validate (id : PrincipalID) : result error unit :=
  err_if (id = "" ∨ id ≠ TrimSpace id ∨ len id > 512)
    (ErrorNew (Text "principal ID must be 1..512 non-whitespace bytes"));;
  err_if (has_control [] (bytes_of id) = true)
    (ErrorNew (Text "principal ID contains a control character")).

Record Principal := mkPrincipal { principal_id : PrincipalID; scopes : gset Scope }.

Fixpoint add_scopes (acc : gset Scope) (l : list Scope) : result error (gset Scope) :=
  match l with
  | [] => Ok acc
  | scope :: l' =>
      err_if (scope ∉ validScopes)
        (ErrorNew (Sprintf "unknown Registry scope %q" [FStr scope]));;
      err_if (scope ∈ acc)
        (ErrorNew (Sprintf "duplicate Registry scope %q" [FStr scope]));;
      add_scopes ({[scope]} ∪ acc) l'
  end.

Definition NewPrincipal (id : PrincipalID) (l : list Scope) : result error Principal :=
  PrincipalID_Validate id;;
  s ← add_scopes ∅ l;
  mret (mkPrincipal id s).

Definition HasScope (principal : Principal) (scope : Scope) : bool :=
  bool_decide (scope ∈ scopes principal).

(** [%v] renders the inner error without wrapping it. *)
Definition RequireScope (principal : Principal) (scope : Scope) : result error unit :=
  wrap (fun _ => Wrapf (Text "%w: %v") ErrUnauthenticated)
    (PrincipalID_Validate (principal_id principal));;
  err_if (scope ∉ validScopes)
    (Wrapf (Sprintf "%w: unknown required scope %q" [FStr scope]) ErrForbidden);;
  err_if (HasScope principal scope = false)
    (Wrapf (Sprintf "%w: scope %s is required" [FStr scope]) ErrForbidden).

Definition authorizeOwned (principal : Principal) (owner : PrincipalID) (scope : Scope)
    : result error unit :=
  RequireScope principal scope;;
  err_if (principal_id principal ≠ owner) ErrNotOwner.

(** ** Shared checks *)
Definition validateReason (value : string) : result error unit :=
  err_if (value = "" ∨ value ≠ TrimSpace value ∨ len value > 4096)
    (ErrorNew (Text "reason must be 1..4096 non-whitespace bytes"));;
  err_if (has_control [10%N; 9%N] (bytes_of value) = true)
    (ErrorNew (Text "reason contains a forbidden control character")).

(** ingest.go. *)
Definition expired (now expiresAt : Time) : Prop := IsZero now ∨ ¬ Before now expiresAt.
#[export] Instance expired_dec now expiresAt : Decision (expired now expiresAt).
Proof. unfold expired. apply _. Defined.

(** ownership.go. *)
Definition SubjectNamespace := string.

Fixpoint Split (sep : ascii) (s : string) : list string :=
  match s with
  | EmptyString => [""]
  | String c s' =>
      if decide (c = sep) then "" :: Split sep s'
      else match Split sep s' with
           | [] => [String c ""]
           | p :: ps => String c p :: ps
           end
  end.

Definition namespacePartPattern (s : string) : bool :=
  match_head_tail is_alnum (fun c => is_alnum c || is_one_of "._-" c)%bool 0 127 s.

Definition SubjectNamespace_Validate (namespace : SubjectNamespace) : result error unit :=
  match Split "/" namespace with
  | [p0; p1] =>
      err_if (namespacePartPattern p0 = false ∨ namespacePartPattern p1 = false)
        (ErrorNew (Sprintf "subject namespace %q must be owner/project" [FStr namespace]));;
      err_if (p0 = "." ∨ p0 = ".." ∨ p1 = "." ∨ p1 = "..")
        (ErrorNew (Sprintf "subject namespace %q contains a path segment" [FStr namespace]))
  | _ => Err (ErrorNew (Sprintf "subject namespace %q must be owner/project" [FStr namespace]))
  end.

(** The methods of the registry records run under the record's mutex and
    return, on every path, the snapshot of the record as the call leaves it
    together with the error. *)
Definition respond {S Snap} (snapshotLocked : S -> Snap) (body : GoM S error unit) (s : S)
    : (Snap * option error) * S :=
  let '(r, s') := body s in
  ((snapshotLocked s', match r with Ok _ => None | Err e => Some e end), s').

Definition succeeded {Snap S} (r : (Snap * option error) * S) : bool :=
  bool_decide (r.1.2 = None).

(** ** Lemmas *)
Lemma RequireScope_ok p s :
  RequireScope p s = Ok tt <->
  PrincipalID_Validate (principal_id p) = Ok tt ∧ s ∈ validScopes ∧ s ∈ scopes p.
Proof.
  unfold RequireScope. rewrite !bind_ok, !err_if_ok, wrap_ok.
  unfold HasScope. rewrite bool_decide_eq_false.
  split; intros (? & ? & ?); split_and!; try done;
    first [by apply dec_stable | intros Hn; by apply Hn].
Qed.

Lemma authorizeOwned_ok p owner s :
  authorizeOwned p owner s = Ok tt <-> RequireScope p s = Ok tt ∧ principal_id p = owner.
Proof.
  unfold authorizeOwned. rewrite bind_ok, err_if_ok. split; intros [? ?]; split; try done;
    first [by apply dec_stable | intros Hn; by apply Hn].
Qed.

Lemma PrincipalID_nonempty p s : RequireScope p s = Ok tt -> principal_id p <> "".
Proof.
  intros [H _]%RequireScope_ok E. rewrite E in H. vm_compute in H. discriminate.
Qed.
