(* ===== verification/RegistryIngest.v ===== *)
(** * internal/registry/ingest.go: two-phase upload sessions *)
From Stdlib Require Import ZArith Ascii String Lia.
From stdpp Require Import base gmap sets list strings.
From S2P Require Import Prelude Schema RegistryAuth.
Local Open Scope Z_scope.
Local Open Scope string_scope.
Local Open Scope list_scope.

Definition IngestStatus := string.
Definition IngestPrepared : IngestStatus := "prepared".
Definition IngestStaged : IngestStatus := "staged".
Definition IngestCommitted : IngestStatus := "committed".
Definition IngestValidating : IngestStatus := "validating".
Definition IngestQuarantined : IngestStatus := "quarantined".
Definition IngestPublished : IngestStatus := "published".

Record IngestSnapshot := mkIngestSnapshot {
  SessionID : InstanceID;
  Owner : PrincipalID;
  ExpectedDigest : Digest;
  StagedDigest : Digest;
  ExpiresAt : Time;
  Status : IngestStatus;
  QuarantineClass : string
}.

Record IngestSession := mkIngestSession {
  sessionID : InstanceID;
  owner : PrincipalID;
  expectedDigest : Digest;
  stagedDigest : Digest;
  expiresAt : Time;
  status : IngestStatus;
  quarantineClass : string
}.

Definition IngestM := GoM IngestSession error unit.

Definition set_status (st : IngestStatus) (s : IngestSession) : IngestSession :=
  mkIngestSession (sessionID s) (owner s) (expectedDigest s) (stagedDigest s) (expiresAt s) st
    (quarantineClass s).
Definition set_stagedDigest (d : Digest) (s : IngestSession) : IngestSession :=
  mkIngestSession (sessionID s) (owner s) (expectedDigest s) d (expiresAt s) (status s)
    (quarantineClass s).
Definition set_quarantineClass (c : string) (s : IngestSession) : IngestSession :=
  mkIngestSession (sessionID s) (owner s) (expectedDigest s) (stagedDigest s) (expiresAt s)
    (status s) c.

Definition transitionError (from to : IngestStatus) : error :=
  Wrapf (Sprintf "%w: %s -> %s" [FStr from; FStr to]) ErrInvalidTransition.

Definition statuses : list IngestStatus :=
  [IngestPrepared; IngestStaged; IngestCommitted; IngestValidating; IngestQuarantined;
   IngestPublished].

Definition RestoreIngest (snapshot : IngestSnapshot) : result error IngestSession :=
  InstanceID_Validate (SessionID snapshot);;
  PrincipalID_Validate (Owner snapshot);;
  Digest_Validate (ExpectedDigest snapshot);;
  err_if (IsZero (ExpiresAt snapshot)) (ErrorNew (Text "ingest expiry is required"));;
  err_if (Status snapshot ∉ statuses)
    (ErrorNew (Sprintf "invalid ingest status %q" [FStr (Status snapshot)]));;
  (if decide (Status snapshot = IngestPrepared) then
     err_if (StagedDigest snapshot ≠ "" ∨ QuarantineClass snapshot ≠ "")
       (ErrorNew (Text "prepared ingest contains later lifecycle fields"))
   else
     wrap (fun _ => ErrorNew (Text "non-prepared ingest requires staged digest"))
       (Digest_Validate (StagedDigest snapshot)));;
  (if decide (Status snapshot = IngestQuarantined) then validateReason (QuarantineClass snapshot)
   else err_if (QuarantineClass snapshot ≠ "")
          (ErrorNew (Text "only quarantined ingest may have a quarantine class")));;
  mret (mkIngestSession (SessionID snapshot) (Owner snapshot) (ExpectedDigest snapshot)
          (StagedDigest snapshot) (UTC (ExpiresAt snapshot)) (Status snapshot)
          (QuarantineClass snapshot)).

Definition PrepareIngest (principal : Principal) (id : InstanceID) (digest : Digest)
    (expires now : Time) : result error IngestSession :=
  RequireScope principal ScopeObservationPrepare;;
  wrap (Wrapf (Text "session ID: %w")) (InstanceID_Validate id);;
  wrap (Wrapf (Text "expected digest: %w")) (Digest_Validate digest);;
  err_if (IsZero now) (ErrorNew (Text "prepare time is required"));;
  err_if (¬ After expires now) (ErrorNew (Text "ingest expiry must be after prepare time"));;
  mret (mkIngestSession id (principal_id principal) digest "" (UTC expires) IngestPrepared "").

Definition snapshotLocked (s : IngestSession) : IngestSnapshot :=
  mkIngestSnapshot (sessionID s) (owner s) (expectedDigest s) (stagedDigest s) (expiresAt s)
    (status s) (quarantineClass s).

Definition Snapshot (s : IngestSession) : IngestSnapshot := snapshotLocked s.

Definition Stage_body (principal : Principal) (digest : Digest) (now : Time) : IngestM :=
  session ← get;
  lift (authorizeOwned principal (owner session) ScopeObservationPrepare);;
  fail_if (digest ≠ expectedDigest session) ErrDigestMismatch;;
  if decide (status session = IngestStaged ∧ stagedDigest session = digest) then mret tt
  else
    fail_if (status session ≠ IngestPrepared) (transitionError (status session) IngestStaged);;
    fail_if (expired now (expiresAt session)) ErrExpired;;
    modify (set_stagedDigest digest);;
    modify (set_status IngestStaged).
Definition Stage principal digest now := respond snapshotLocked (Stage_body principal digest now).

Definition Commit_body (principal : Principal) (digest : Digest) (now : Time) : IngestM :=
  session ← get;
  lift (authorizeOwned principal (owner session) ScopeObservationCommit);;
  fail_if (digest ≠ expectedDigest session ∨
           (stagedDigest session ≠ "" ∧ digest ≠ stagedDigest session)) ErrDigestMismatch;;
  if decide (status session ∈ [IngestCommitted; IngestValidating; IngestQuarantined;
                               IngestPublished]) then mret tt
  else if decide (status session = IngestStaged) then
    fail_if (expired now (expiresAt session)) ErrExpired;;
    modify (set_status IngestCommitted)
  else fail (transitionError (status session) IngestCommitted).
Definition Commit principal digest now := respond snapshotLocked (Commit_body principal digest now).

Definition BeginValidation_body : IngestM :=
  session ← get;
  if decide (status session = IngestCommitted) then modify (set_status IngestValidating)
  else if decide (status session = IngestValidating) then mret tt
  else fail (transitionError (status session) IngestValidating).
Definition BeginValidation := respond snapshotLocked BeginValidation_body.

Definition Publish_body : IngestM :=
  session ← get;
  if decide (status session = IngestValidating) then modify (set_status IngestPublished)
  else if decide (status session = IngestPublished) then mret tt
  else fail (transitionError (status session) IngestPublished).
Definition Publish := respond snapshotLocked Publish_body.

Definition Quarantine_body (reasonClass : string) : IngestM :=
  lift (validateReason reasonClass);;
  session ← get;
  if decide (status session = IngestValidating) then
    modify (set_status IngestQuarantined);;
    modify (set_quarantineClass reasonClass)
  else if decide (status session = IngestQuarantined) then
    if decide (quarantineClass session = reasonClass) then mret tt else fail ErrConflict
  else fail (transitionError (status session) IngestQuarantined).
Definition Quarantine reasonClass := respond snapshotLocked (Quarantine_body reasonClass).

(** ** Sessions over time *)
Inductive Operation :=
| OpStage (p : Principal) (d : Digest) (now : Time)
| OpCommit (p : Principal) (d : Digest) (now : Time)
| OpBeginValidation
| OpPublish
| OpQuarantine (reason : string).

Definition apply (op : Operation) : IngestSession -> (IngestSnapshot * option error) * IngestSession :=
  match op with
  | OpStage p d now => Stage p d now
  | OpCommit p d now => Commit p d now
  | OpBeginValidation => BeginValidation
  | OpPublish => Publish
  | OpQuarantine reason => Quarantine reason
  end.

Definition run (ops : list Operation) (s : IngestSession) : IngestSession :=
  foldl (fun s op => (apply op s).2) s ops.

(** What each status certifies about the operations so far, most recent
    last. *)
Definition staged_by (s0 : IngestSession) (ops : list Operation) : Prop :=
  exists l1 l2 p now, ops = l1 ++ OpStage p (expectedDigest s0) now :: l2 ∧
    authorizeOwned p (owner s0) ScopeObservationPrepare = Ok tt ∧ ~ expired now (expiresAt s0).
Definition committed_by (s0 : IngestSession) (ops : list Operation) : Prop :=
  exists l1 l2 p now, ops = l1 ++ OpCommit p (expectedDigest s0) now :: l2 ∧ staged_by s0 l1 ∧
    authorizeOwned p (owner s0) ScopeObservationCommit = Ok tt ∧ ~ expired now (expiresAt s0).
Definition validated_by (s0 : IngestSession) (ops : list Operation) : Prop :=
  exists l1 l2, ops = l1 ++ OpBeginValidation :: l2 ∧ committed_by s0 l1.
Definition published_by (s0 : IngestSession) (ops : list Operation) : Prop :=
  exists l1 l2, ops = l1 ++ OpPublish :: l2 ∧ validated_by s0 l1.
Definition quarantined_by (s0 : IngestSession) (reason : string) (ops : list Operation) : Prop :=
  exists l1 l2, ops = l1 ++ OpQuarantine reason :: l2 ∧ validated_by s0 l1 ∧
    validateReason reason = Ok tt.

(** A session after [ops], from the prepared session [s0]. *)
Inductive certified (s0 : IngestSession) (ops : list Operation) : IngestSession -> Prop :=
| cert_prepared :
    certified s0 ops s0
| cert_staged : staged_by s0 ops ->
    certified s0 ops (set_status IngestStaged (set_stagedDigest (expectedDigest s0) s0))
| cert_committed : committed_by s0 ops ->
    certified s0 ops (set_status IngestCommitted (set_stagedDigest (expectedDigest s0) s0))
| cert_validating : validated_by s0 ops ->
    certified s0 ops (set_status IngestValidating (set_stagedDigest (expectedDigest s0) s0))
| cert_published : published_by s0 ops ->
    certified s0 ops (set_status IngestPublished (set_stagedDigest (expectedDigest s0) s0))
| cert_quarantined reason : quarantined_by s0 reason ops ->
    certified s0 ops (set_quarantineClass reason
      (set_status IngestQuarantined (set_stagedDigest (expectedDigest s0) s0))).

Definition prepared_session (s0 : IngestSession) : Prop :=
  exists principal id digest expires now, PrepareIngest principal id digest expires now = Ok s0.

Lemma prepared_session_spec s0 :
  prepared_session s0 ->
  InstanceID_Validate (sessionID s0) = Ok tt ∧ PrincipalID_Validate (owner s0) = Ok tt ∧
  Digest_Validate (expectedDigest s0) = Ok tt ∧
  stagedDigest s0 = "" ∧ status s0 = IngestPrepared ∧ quarantineClass s0 = "".
Proof.
  intros (principal & id & digest & expires & now & H). unfold PrepareIngest in H.
  destruct (RequireScope principal ScopeObservationPrepare) as [[]|] eqn:E1; [|done].
  apply RequireScope_ok in E1 as [E1 _].
  unfold wrap in H.
  destruct (InstanceID_Validate id) as [[]|] eqn:E2; [|done].
  destruct (Digest_Validate digest) as [[]|] eqn:E3; [|done]. cbn [mbind result_bind] in H.
  destruct (err_if (IsZero now) _) as [[]|]; [|done]. cbn [mbind result_bind] in H.
  destruct (err_if (¬ After expires now) _) as [[]|]; [|done]. injection H as <-. done.
Qed.

(** Evidence is kept by later operations. *)
Lemma staged_mono s0 ops op : staged_by s0 ops -> staged_by s0 (ops ++ [op]).
Proof.
  intros (l1 & l2 & p & now & -> & H). exists l1, (l2 ++ [op]), p, now. by rewrite <- app_assoc.
Qed.
Lemma committed_mono s0 ops op : committed_by s0 ops -> committed_by s0 (ops ++ [op]).
Proof.
  intros (l1 & l2 & p & now & -> & H). exists l1, (l2 ++ [op]), p, now. by rewrite <- app_assoc.
Qed.
Lemma validated_mono s0 ops op : validated_by s0 ops -> validated_by s0 (ops ++ [op]).
Proof. intros (l1 & l2 & -> & H). exists l1, (l2 ++ [op]). by rewrite <- app_assoc. Qed.
Lemma published_mono s0 ops op : published_by s0 ops -> published_by s0 (ops ++ [op]).
Proof. intros (l1 & l2 & -> & H). exists l1, (l2 ++ [op]). by rewrite <- app_assoc. Qed.
Lemma quarantined_mono s0 r ops op : quarantined_by s0 r ops -> quarantined_by s0 r (ops ++ [op]).
Proof. intros (l1 & l2 & -> & H). exists l1, (l2 ++ [op]). by rewrite <- app_assoc. Qed.

Lemma certified_mono s0 ops op s : certified s0 ops s -> certified s0 (ops ++ [op]) s.
Proof.
  destruct 1; constructor;
    eauto using staged_mono, committed_mono, validated_mono, published_mono, quarantined_mono.
Qed.

(** Each operation leaves the record alone or moves it one stage on. *)
Lemma Stage_effect p d now s :
  (Stage p d now s).2 = s ∨
  (Stage p d now s).2 = set_status IngestStaged (set_stagedDigest d s) ∧
  status s = IngestPrepared ∧ d = expectedDigest s ∧
  authorizeOwned p (owner s) ScopeObservationPrepare = Ok tt ∧ ~ expired now (expiresAt s).
Proof.
  unfold Stage, respond, Stage_body. go_unfold.
  destruct (authorizeOwned p (owner s) ScopeObservationPrepare) as [[]|] eqn:E; [|by left].
  repeat (case_decide; simpl; try by left). right. done.
Qed.

Lemma Commit_effect p d now s :
  (Commit p d now s).2 = s ∨
  (Commit p d now s).2 = set_status IngestCommitted s ∧
  status s = IngestStaged ∧ d = expectedDigest s ∧
  authorizeOwned p (owner s) ScopeObservationCommit = Ok tt ∧ ~ expired now (expiresAt s).
Proof.
  unfold Commit, respond, Commit_body. go_unfold.
  destruct (authorizeOwned p (owner s) ScopeObservationCommit) as [[]|] eqn:E; [|by left].
  destruct (decide (_ ∨ _)) as [|Hd]; simpl; [by left|].
  repeat (case_decide; simpl; try by left). right.
  split_and!; try done. apply dec_stable. tauto.
Qed.

Lemma BeginValidation_effect s :
  (BeginValidation s).2 = s ∨
  (BeginValidation s).2 = set_status IngestValidating s ∧ status s = IngestCommitted.
Proof.
  unfold BeginValidation, respond, BeginValidation_body. go_unfold.
  repeat (case_decide; simpl; try by left). by right.
Qed.

Lemma Publish_effect s :
  (Publish s).2 = s ∨
  (Publish s).2 = set_status IngestPublished s ∧ status s = IngestValidating.
Proof.
  unfold Publish, respond, Publish_body. go_unfold.
  repeat (case_decide; simpl; try by left). by right.
Qed.

Lemma Quarantine_effect r s :
  (Quarantine r s).2 = s ∨
  (Quarantine r s).2 = set_quarantineClass r (set_status IngestQuarantined s) ∧
  status s = IngestValidating ∧ validateReason r = Ok tt.
Proof.
  unfold Quarantine, respond, Quarantine_body. go_unfold.
  destruct (validateReason r) as [[]|] eqn:E; [|by left].
  repeat (case_decide; simpl; try by left). by right.
Qed.

Lemma certified_step s0 ops op s :
  status s0 = IngestPrepared -> certified s0 ops s -> certified s0 (ops ++ [op]) (apply op s).2.
Proof.
  intros Hst Hc. destruct op as [p d now|p d now| | |r]; simpl.
  - destruct (Stage_effect p d now s) as [->|(-> & Hs & Hd & Ha & Hx)]; [by apply certified_mono|].
    destruct Hc; try discriminate. subst d. apply cert_staged.
    exists ops, [], p, now. done.
  - destruct (Commit_effect p d now s) as [->|(-> & Hs & Hd & Ha & Hx)]; [by apply certified_mono|].
    destruct Hc; try discriminate; [by rewrite Hst in Hs|]. subst d. apply (cert_committed s0).
    exists ops, [], p, now. done.
  - destruct (BeginValidation_effect s) as [->|(-> & Hs)]; [by apply certified_mono|].
    destruct Hc; try discriminate; [by rewrite Hst in Hs|]. apply (cert_validating s0). exists ops, []. done.
  - destruct (Publish_effect s) as [->|(-> & Hs)]; [by apply certified_mono|].
    destruct Hc; try discriminate; [by rewrite Hst in Hs|]. apply (cert_published s0). exists ops, []. done.
  - destruct (Quarantine_effect r s) as [->|(-> & Hs & Hr)]; [by apply certified_mono|].
    destruct Hc; try discriminate; [by rewrite Hst in Hs|]. apply (cert_quarantined s0). exists ops, []. done.
Qed.

Lemma ingest_run_snoc ops op s : run (ops ++ [op]) s = (apply op (run ops s)).2.
Proof. unfold run. by rewrite foldl_snoc. Qed.

Lemma run_certified s0 ops : status s0 = IngestPrepared -> certified s0 ops (run ops s0).
Proof.
  intros H. induction ops as [|op ops IH] using rev_ind; [constructor|].
  rewrite ingest_run_snoc. by apply certified_step.
Qed.

(** ** Claims *)

(** Nothing is published that was not staged, committed and validated:
    whatever operations reach a prepared session, if it ends published then
    among them, in this order, its owner staged exactly the prepared digest
    before the expiry, the owner committed it before the expiry, validation
    began, and it was published; owner, digest and expiry never change. *)
Theorem published_only_after_the_whole_path s0 ops
    (H0 : prepared_session s0) (Hp : status (run ops s0) = IngestPublished) :
  published_by s0 ops ∧ stagedDigest (run ops s0) = expectedDigest s0 ∧
  owner (run ops s0) = owner s0 ∧ expectedDigest (run ops s0) = expectedDigest s0 ∧
  expiresAt (run ops s0) = expiresAt s0.
Proof.
  destruct (prepared_session_spec s0 H0) as (_ & _ & _ & _ & Hst & _).
  pose proof (run_certified s0 ops Hst) as Hc.
  destruct Hc; try discriminate; [by rewrite Hst in Hp|]. done.
Qed.

(** Statuses that follow a commit. *)
Definition after_commit (st : IngestStatus) : Prop :=
  st = IngestCommitted ∨ st = IngestValidating ∨ st = IngestQuarantined ∨ st = IngestPublished.

Definition committed_session (d : Digest) (s : IngestSession) : Prop :=
  after_commit (status s) ∧ expectedDigest s = d ∧ (stagedDigest s = "" ∨ stagedDigest s = d).

Lemma committed_stable d op s :
  committed_session d s -> committed_session d (apply op s).2 ∧ owner (apply op s).2 = owner s.
Proof.
  intros (Ha & He & Hs). destruct op as [p d' now|p d' now| | |r]; simpl.
  - destruct (Stage_effect p d' now s) as [->|(_ & E & _)]; [done|].
    rewrite E in Ha. by destruct Ha as [|[|[|]]].
  - destruct (Commit_effect p d' now s) as [->|(_ & E & _)]; [done|].
    rewrite E in Ha. by destruct Ha as [|[|[|]]].
  - destruct (BeginValidation_effect s) as [->|(-> & E)]; [done|].
    split; [|done]. split_and!; [unfold after_commit; simpl; tauto|done|done].
  - destruct (Publish_effect s) as [->|(-> & E)]; [done|].
    split; [|done]. split_and!; [unfold after_commit; simpl; tauto|done|done].
  - destruct (Quarantine_effect r s) as [->|(-> & E & _)]; [done|].
    split; [|done]. split_and!; [unfold after_commit; simpl; tauto|done|done].
Qed.

Lemma committed_run d ops s :
  committed_session d s -> committed_session d (run ops s) ∧ owner (run ops s) = owner s.
Proof.
  intros H. induction ops as [|op ops [IH Ho]] using rev_ind; [done|]. rewrite ingest_run_snoc.
  destruct (committed_stable d op _ IH) as [? ->]. done.
Qed.

(** A commit can be replayed: once an owner's commit has succeeded, the
    same commit succeeds again and changes nothing, whatever happened in
    between, and however late it is repeated. *)
Theorem Commit_replays s p d now ops later
    (Hc : (Commit p d now s).1.2 = None) :
  let s' := run ops (Commit p d now s).2 in
  (Commit p d later s').1.2 = None ∧ (Commit p d later s').2 = s'.
Proof.
  assert (authorizeOwned p (owner s) ScopeObservationCommit = Ok tt ∧
          committed_session d (Commit p d now s).2 ∧
          owner (Commit p d now s).2 = owner s) as (Ha & Hcs & Ho).
  { revert Hc. unfold Commit, respond, Commit_body. go_unfold.
    destruct (authorizeOwned p (owner s) ScopeObservationCommit) as [[]|]; [|done].
    destruct (decide (d <> expectedDigest s ∨ _)) as [|Hd]; simpl; [done|].
    assert (expectedDigest s = d) as He by (symmetry; apply dec_stable; tauto).
    assert (stagedDigest s = "" ∨ stagedDigest s = d) as Hs.
    { destruct (decide (stagedDigest s = "")); [by left|]. right. symmetry. apply dec_stable. tauto. }
    destruct (decide (_ ∈ _)) as [Hin|Hin]; simpl.
    - intros _. split_and!; try done. unfold committed_session, after_commit. split; [|done].
      rewrite !elem_of_cons in Hin. by destruct Hin as [|[|[|[|?%elem_of_nil]]]]; auto.
    - repeat (case_decide; simpl; try done). intros _. split_and!; try done.
      split_and!; [by left|done|done]. }
  intros s'. destruct (committed_run d ops _ Hcs) as [(Hac & He & Hst) Ho'].
  fold s' in Hac, He, Hst, Ho'.
  unfold Commit, respond, Commit_body. go_unfold. rewrite Ho', Ho, Ha.
  rewrite decide_False by (intros [?|[? ?]]; [congruence|destruct Hst; congruence]). simpl.
  rewrite decide_True; [done|]. rewrite !elem_of_cons. unfold after_commit in Hac. tauto.
Qed.

(** Durable state survives a restart: every session reachable from a
    prepared one restores from its own snapshot, unchanged. *)
Theorem ingest_restores s0 ops
    (H0 : prepared_session s0) (Hx : ~ IsZero (expiresAt s0)) :
  RestoreIngest (Snapshot (run ops s0)) = Ok (run ops s0).
Proof.
  destruct (prepared_session_spec s0 H0) as (V1 & V2 & V3 & Hsd & Hst & Hq).
  unfold RestoreIngest, Snapshot, snapshotLocked. go_unfold.
  destruct (run_certified s0 ops Hst) as [| | | | |r (l1 & l2 & _ & _ & Hr)]; simpl;
    rewrite ?V1, ?V2, ?V3, ?Hst, ?Hsd, ?Hq, ?Hr; rewrite decide_False by done;
    try rewrite decide_False by (intros Hn; apply Hn; unfold statuses; rewrite !elem_of_cons; tauto);
    [destruct s0; simpl in *; by subst
    |unfold set_quarantineClass, set_status, set_stagedDigest; simpl; by rewrite ?Hq..].
Qed.

(** ** A concrete session *)
Definition alice : Principal :=
  mkPrincipal "alice" {[ScopeObservationPrepare; ScopeObservationCommit]}.
Definition upload_digest : Digest :=
  "sha256:00000000000000000000000000000000000000000000000000000000000000ff".
Definition sample_session : IngestSession :=
  mkIngestSession "01890000-0000-7000-8000-000000000000" "alice" upload_digest "" 100
    IngestPrepared "".
Definition sample_path : list Operation :=
  [OpPublish; OpStage alice upload_digest 20; OpCommit alice upload_digest 30; OpBeginValidation;
   OpPublish].

Lemma sample_session_prepared : prepared_session sample_session.
Proof.
  exists alice, "01890000-0000-7000-8000-000000000000", upload_digest, 100, 10.
  vm_compute; reflexivity.
Defined.

Lemma published_only_after_the_whole_path_witness :
  published_by sample_session sample_path ∧
  stagedDigest (run sample_path sample_session) = expectedDigest sample_session ∧
  owner (run sample_path sample_session) = owner sample_session ∧
  expectedDigest (run sample_path sample_session) = expectedDigest sample_session ∧
  expiresAt (run sample_path sample_session) = expiresAt sample_session.
Proof.
  apply (published_only_after_the_whole_path sample_session sample_path sample_session_prepared).
  vm_compute; reflexivity.
Defined.

Lemma Commit_replays_witness :
  let s := (Stage alice upload_digest 20 sample_session).2 in
  let s' := run [OpBeginValidation; OpPublish] (Commit alice upload_digest 30 s).2 in
  (Commit alice upload_digest 500 s').1.2 = None ∧ (Commit alice upload_digest 500 s').2 = s'.
Proof.
  apply (Commit_replays (Stage alice upload_digest 20 sample_session).2 alice upload_digest 30).
  vm_compute; reflexivity.
Defined.

Lemma ingest_restores_witness :
  RestoreIngest (Snapshot (run sample_path sample_session)) = Ok (run sample_path sample_session).
Proof.
  apply (ingest_restores sample_session sample_path sample_session_prepared). discriminate.
Defined.
