(* ===== verification/RegistryChallenge.v ===== *)
(** * internal/registry/ownership.go: ownership challenges *)
From Stdlib Require Import ZArith Ascii String Lia.
From stdpp Require Import base gmap sets list strings.
From S2P Require Import Prelude Schema RegistryAuth.
Local Open Scope Z_scope.
Local Open Scope string_scope.
Local Open Scope list_scope.

Definition OwnershipMethod := string.
Definition OwnershipDNS : OwnershipMethod := "dns_txt".
Definition OwnershipGitHubOrg : OwnershipMethod := "github_org".
Definition OwnershipDomain : OwnershipMethod := "controlled_domain".

Definition OwnershipMethod_validate (method : OwnershipMethod) : result error unit :=
  err_if (method ∉ [OwnershipDNS; OwnershipGitHubOrg; OwnershipDomain])
    (ErrorNew (Sprintf "invalid ownership method %q" [FStr method])).

Definition validateNonce (nonce : string) : result error unit :=
  err_if (nonce = "" ∨ nonce ≠ TrimSpace nonce ∨ len nonce > 512 ∨
          string_any (fun c => is_byte 13 c || is_byte 10 c || is_byte 0 c)%bool nonce = true)
    (ErrorNew (Text "ownership nonce must be 1..512 non-control bytes")).

(** ** Challenges *)
Definition ChallengeStatus := string.
Definition ChallengePending : ChallengeStatus := "pending".
Definition ChallengeVerified : ChallengeStatus := "verified".
Definition ChallengeExpired : ChallengeStatus := "expired".

Record OwnershipChallengeSnapshot := mkOwnershipChallengeSnapshot {
  ID : InstanceID;
  Subject : SubjectNamespace;
  Requester : PrincipalID;
  Method : OwnershipMethod;
  Nonce : string;
  ExpiresAt : Time;
  Status : ChallengeStatus;
  VerifiedAt : Time;
  EvidenceDigest : Digest
}.

Record OwnershipChallenge := mkOwnershipChallenge {
  id : InstanceID;
  subject : SubjectNamespace;
  requester : PrincipalID;
  method : OwnershipMethod;
  nonce : string;
  expiresAt : Time;
  status : ChallengeStatus;
  verifiedAt : Time;
  evidenceDigest : Digest
}.

Definition RestoreOwnershipChallenge (s : OwnershipChallengeSnapshot)
    : result error OwnershipChallenge :=
  InstanceID_Validate (ID s);;
  SubjectNamespace_Validate (Subject s);;
  PrincipalID_Validate (Requester s);;
  OwnershipMethod_validate (Method s);;
  validateNonce (Nonce s);;
  err_if (IsZero (ExpiresAt s)) (ErrorNew (Text "challenge expiry is required"));;
  err_if (Status s ≠ ChallengePending ∧ Status s ≠ ChallengeVerified ∧ Status s ≠ ChallengeExpired)
    (ErrorNew (Text "invalid challenge status"));;
  (if decide (Status s = ChallengeVerified) then
     err_if (IsZero (VerifiedAt s)) (ErrorNew (Text "verified challenge requires time"));;
     Digest_Validate (EvidenceDigest s)
   else
     err_if (¬ IsZero (VerifiedAt s) ∨ EvidenceDigest s ≠ "")
       (ErrorNew (Text "unverified challenge contains verification fields")));;
  mret (mkOwnershipChallenge (ID s) (Subject s) (Requester s) (Method s) (Nonce s)
          (UTC (ExpiresAt s)) (Status s) (UTC (VerifiedAt s)) (EvidenceDigest s)).

Definition NewOwnershipChallenge (principal : Principal) (cid : InstanceID)
    (ns : SubjectNamespace) (m : OwnershipMethod) (n : string) (expires now : Time)
    : result error OwnershipChallenge :=
  RequireScope principal ScopeOwnershipManage;;
  wrap (Wrapf (Text "challenge ID: %w")) (InstanceID_Validate cid);;
  SubjectNamespace_Validate ns;;
  OwnershipMethod_validate m;;
  validateNonce n;;
  err_if (IsZero now ∨ ¬ After expires now)
    (ErrorNew (Text "challenge expiry must be after creation time"));;
  mret (mkOwnershipChallenge cid ns (principal_id principal) m n (UTC expires)
          ChallengePending 0 "").

Definition PersistentSnapshot (c : OwnershipChallenge) : OwnershipChallengeSnapshot :=
  mkOwnershipChallengeSnapshot (id c) (subject c) (requester c) (method c) (nonce c) (expiresAt c)
    (status c) (verifiedAt c) (evidenceDigest c).

Definition snapshotLocked (now : Time) (c : OwnershipChallenge) : OwnershipChallengeSnapshot :=
  let st := if decide (status c = ChallengePending ∧ expired now (expiresAt c))
            then ChallengeExpired else status c in
  mkOwnershipChallengeSnapshot (id c) (subject c) (requester c) (method c) (nonce c) (expiresAt c)
    st (verifiedAt c) (evidenceDigest c).

Definition Snapshot (c : OwnershipChallenge) (now : Time) : OwnershipChallengeSnapshot :=
  snapshotLocked now c.

Definition verified (d : Digest) (now : Time) (c : OwnershipChallenge) : OwnershipChallenge :=
  mkOwnershipChallenge (id c) (subject c) (requester c) (method c) (nonce c) (expiresAt c)
    ChallengeVerified (UTC now) d.

Definition Verify_body (d : Digest) (now : Time) : GoM OwnershipChallenge error unit :=
  lift (wrap (Wrapf (Text "ownership evidence digest: %w")) (Digest_Validate d));;
  c ← get;
  fail_if (expired now (expiresAt c)) ErrExpired;;
  if decide (status c = ChallengeVerified) then
    if decide (evidenceDigest c = d) then mret tt else fail ErrConflict
  else
    fail_if (status c ≠ ChallengePending) ErrInvalidTransition;;
    modify (verified d now).
Definition Verify d now := respond (snapshotLocked now) (Verify_body d now).

Definition verify_all (calls : list (Digest * Time)) (c : OwnershipChallenge) : OwnershipChallenge :=
  foldl (fun c '(d, now) => (Verify d now c).2) c calls.

(** What a challenge certifies after some calls to [Verify]: it is untouched,
    or verified by one of the calls, made before the expiry. *)
Definition answered (c0 : OwnershipChallenge) (calls : list (Digest * Time))
    (c : OwnershipChallenge) : Prop :=
  c = c0 ∨ exists d now, (d, now) ∈ calls ∧ c = verified d now c0 ∧
    Digest_Validate d = Ok tt ∧ ~ expired now (expiresAt c0).

Lemma Verify_effect d now c :
  (Verify d now c).2 = c ∨
  (Verify d now c).2 = verified d now c ∧ status c = ChallengePending ∧
  Digest_Validate d = Ok tt ∧ ~ expired now (expiresAt c).
Proof.
  unfold Verify, respond, Verify_body. go_unfold.
  destruct (Digest_Validate d) as [[]|]; [|by left].
  repeat (case_decide; simpl; try by left). by right.
Qed.

Lemma verify_all_answered c0 calls :
  status c0 = ChallengePending -> answered c0 calls (verify_all calls c0).
Proof.
  intros Hp. unfold verify_all. induction calls as [|[d now] calls IH] using rev_ind; [by left|].
  rewrite foldl_snoc. set (c := foldl _ c0 calls) in *.
  destruct (Verify_effect d now c) as [->|(-> & Hs & Hd & Hx)].
  - destruct IH as [->|(d' & t & Hin & ? & ?)]; [by left|]. right. exists d', t.
    split; [apply elem_of_app; by left|done].
  - destruct IH as [->|(d' & t & _ & -> & _)]; [|done]. right. exists d, now.
    split; [apply elem_of_app; right; by left|done].
Qed.
