(* ===== verification/RegistryOwnership.v ===== *)
(** * internal/registry/ownership.go: subject ownership *)
From Stdlib Require Import ZArith Ascii String Lia.
From stdpp Require Import base gmap sets list strings.
From S2P Require Import Prelude Schema RegistryAuth RegistryChallenge.
Local Open Scope Z_scope.
Local Open Scope string_scope.
Local Open Scope list_scope.

Record OwnershipSnapshot := mkOwnershipSnapshot {
  sSubject : SubjectNamespace;
  sOwner : PrincipalID;
  sMethod : OwnershipMethod;
  sEvidence : Digest;
  sVerifiedAt : Time;
  sValidUntil : Time;
  sRevokedAt : Time;
  sReason : string
}.

Record Ownership := mkOwnership {
  oSubject : SubjectNamespace;
  oOwner : PrincipalID;
  oMethod : OwnershipMethod;
  oEvidence : Digest;
  oVerifiedAt : Time;
  oValidUntil : Time;
  oRevokedAt : Time;
  oReason : string
}.

Definition RestoreOwnership (s : OwnershipSnapshot) : result error Ownership :=
  SubjectNamespace_Validate (sSubject s);;
  PrincipalID_Validate (sOwner s);;
  OwnershipMethod_validate (sMethod s);;
  Digest_Validate (sEvidence s);;
  err_if (IsZero (sVerifiedAt s) ∨ ¬ After (sValidUntil s) (sVerifiedAt s))
    (ErrorNew (Text "ownership validity interval is invalid"));;
  err_if (bool_decide (IsZero (sRevokedAt s)) ≠ bool_decide (sReason s = ""))
    (ErrorNew (Text "ownership revocation time and reason must appear together"));;
  (if decide (¬ IsZero (sRevokedAt s)) then validateReason (sReason s) else mret tt);;
  mret (mkOwnership (sSubject s) (sOwner s) (sMethod s) (sEvidence s) (UTC (sVerifiedAt s))
          (UTC (sValidUntil s)) (UTC (sRevokedAt s)) (sReason s)).

(** [None] is a nil challenge. *)
Definition OwnershipFromChallenge (challenge : option OwnershipChallenge) (validUntil now : Time)
    : result error Ownership :=
  match challenge with
  | None => Err (ErrorNew (Text "ownership challenge is required"))
  | Some c =>
      err_if (IsZero now) (ErrorNew (Text "ownership verification time is required"));;
      let s := RegistryChallenge.Snapshot c now in
      err_if (Status s ≠ ChallengeVerified) (ErrorNew (Text "ownership challenge is not verified"));;
      err_if (¬ Before now (ExpiresAt s)) ErrExpired;;
      err_if (¬ After validUntil now)
        (ErrorNew (Text "ownership validity must extend beyond verification"));;
      mret (mkOwnership (Subject s) (Requester s) (Method s) (EvidenceDigest s) (VerifiedAt s)
              (UTC validUntil) 0 "")
  end.

Definition snapshotLocked (o : Ownership) : OwnershipSnapshot :=
  mkOwnershipSnapshot (oSubject o) (oOwner o) (oMethod o) (oEvidence o) (oVerifiedAt o)
    (oValidUntil o) (oRevokedAt o) (oReason o).
Definition Snapshot (o : Ownership) : OwnershipSnapshot := snapshotLocked o.

Definition currentLocked (o : Ownership) (now : Time) : bool :=
  bool_decide (¬ IsZero now ∧ IsZero (oRevokedAt o) ∧ Before now (oValidUntil o)).
Definition Current (o : Ownership) (now : Time) : bool := currentLocked o now.

Definition AuthorizeManage (o : Ownership) (principal : Principal) (now : Time)
    : result error unit :=
  authorizeOwned principal (oOwner o) ScopeOwnershipManage;;
  err_if (currentLocked o now = false) ErrExpired.

Definition revoked (now : Time) (reason : string) (o : Ownership) : Ownership :=
  mkOwnership (oSubject o) (oOwner o) (oMethod o) (oEvidence o) (oVerifiedAt o) (oValidUntil o)
    (UTC now) reason.

Definition Revoke_body (principal : Principal) (reason : string) (now : Time)
    : GoM Ownership error unit :=
  lift (validateReason reason);;
  o ← get;
  (if HasScope principal ScopeModerationReview
   then lift (RequireScope principal ScopeModerationReview)
   else lift (authorizeOwned principal (oOwner o) ScopeOwnershipManage));;
  if decide (¬ IsZero (oRevokedAt o)) then
    if decide (oReason o = reason) then mret tt else fail ErrConflict
  else
    fail_if (IsZero now) (ErrorNew (Text "revocation time is required"));;
    modify (revoked now reason).
Definition Revoke principal reason now := respond snapshotLocked (Revoke_body principal reason now).

Definition Transfer (principal : Principal) (newChallenge : option OwnershipChallenge)
    (newValidUntil now : Time) : GoM Ownership error Ownership :=
  o ← get;
  lift (authorizeOwned principal (oOwner o) ScopeOwnershipManage);;
  fail_if (currentLocked o now = false) ErrExpired;;
  new ← lift (OwnershipFromChallenge newChallenge newValidUntil now);
  fail_if (oSubject new ≠ oSubject o)
    (ErrorNew (Text "ownership transfer challenge names a different subject"));;
  fail_if (oOwner new = oOwner o)
    (ErrorNew (Text "ownership transfer requires a different owner"));;
  modify (revoked now "ownership_transferred");;
  mret new.

(** ** Claims *)
Lemma Current_spec o t :
  Current o t = true <-> ~ IsZero t ∧ IsZero (oRevokedAt o) ∧ Before t (oValidUntil o).
Proof. apply bool_decide_eq_true. Qed.

Lemma not_current_revoked o t : ~ IsZero (oRevokedAt o) -> Current o t = false.
Proof. intros H. apply bool_decide_eq_false. tauto. Qed.

Lemma OwnershipFromChallenge_ok nc vu now o :
  OwnershipFromChallenge nc vu now = Ok o ->
  exists c, nc = Some c ∧ status c = ChallengeVerified ∧ ~ IsZero now ∧
    Before now (expiresAt c) ∧ Before now vu ∧
    o = mkOwnership (subject c) (requester c) (method c) (evidenceDigest c) (verifiedAt c) vu 0 "".
Proof.
  destruct nc as [c|]; [|done]. unfold OwnershipFromChallenge. go_unfold.
  case_decide as H1; [done|]. unfold RegistryChallenge.Snapshot, RegistryChallenge.snapshotLocked; simpl.
  case_decide as H2; [by case_decide|]. case_decide as H3; [done|].
  case_decide as H4; [done|]. case_decide as H5; [done|]. intros [= <-].
  exists c. split_and!; done.
Qed.

(** A transfer moves ownership and never duplicates it: when it
    succeeds, the caller was the current owner with the managing scope, the
    old record is current at no time again, and the new record is current
    now, for the same subject and a different owner, who answered a verified
    challenge; when it fails, the old record is unchanged. *)
Theorem Transfer_moves_ownership principal nc vu now o :
  match Transfer principal nc vu now o with
  | (Ok new, o') =>
      Current o now = true ∧ principal_id principal = oOwner o ∧
      RequireScope principal ScopeOwnershipManage = Ok tt ∧
      (forall t, Current o' t = false) ∧ Current new now = true ∧
      oSubject new = oSubject o ∧ oOwner new <> oOwner o ∧
      exists c, nc = Some c ∧ status c = ChallengeVerified ∧ oOwner new = requester c ∧
        oSubject new = subject c ∧ Before now (expiresAt c)
  | (Err _, o') => o' = o
  end.
Proof.
  unfold Transfer. go_unfold.
  destruct (authorizeOwned principal (oOwner o) ScopeOwnershipManage) as [[]|] eqn:E1; [|done].
  apply authorizeOwned_ok in E1 as [Hs Hid].
  destruct (decide (currentLocked o now = false)) as [|Hc%not_false_is_true]; [done|].
  destruct (OwnershipFromChallenge nc vu now) as [new|] eqn:E2; [|done].
  apply OwnershipFromChallenge_ok in E2 as (c & -> & Hv & Hz & Hx & Hvu & ->). simpl.
  case_decide as H1; [done|]. case_decide as H2; [done|]. simpl.
  split_and!; try done.
  - intros t. by apply not_current_revoked.
  - by apply Current_spec.
  - by exists c.
Qed.

(** Ownership rests on a timely verification: an ownership obtained
    from a challenge, whatever verification results were reported to it,
    belongs to the principal who opened the challenge with the managing
    scope, for that subject, on the evidence of one of those reports, made
    before the challenge expired, and it is current when issued. *)
Theorem ownership_rests_on_timely_verification p cid ns m n expires created c0 calls vu now o
    (Hnew : NewOwnershipChallenge p cid ns m n expires created = Ok c0)
    (Ho : OwnershipFromChallenge (Some (verify_all calls c0)) vu now = Ok o) :
  RequireScope p ScopeOwnershipManage = Ok tt ∧ oOwner o = principal_id p ∧ oSubject o = ns ∧
  (exists t, (oEvidence o, t) ∈ calls ∧ Digest_Validate (oEvidence o) = Ok tt ∧
     oVerifiedAt o = t ∧ ~ expired t expires) ∧
  Before now expires ∧ Current o now = true.
Proof.
  unfold NewOwnershipChallenge in Hnew. unfold wrap in Hnew.
  destruct (RequireScope p ScopeOwnershipManage) as [[]|]; [|done].
  destruct (InstanceID_Validate cid) as [[]|]; [|done].
  destruct (SubjectNamespace_Validate ns) as [[]|]; [|done].
  destruct (OwnershipMethod_validate m) as [[]|]; [|done].
  destruct (validateNonce n) as [[]|]; [|done]. cbn [mbind result_bind] in Hnew.
  destruct (err_if _ _) as [[]|]; [|done]. injection Hnew as <-.
  apply OwnershipFromChallenge_ok in Ho as (c & [= <-] & Hv & Hz & Hx & Hvu & ->).
  destruct (verify_all_answered (mkOwnershipChallenge cid ns (principal_id p) m n (UTC expires)
              ChallengePending 0 "") calls eq_refl) as [E|(d & t & Hin & E & Hd & Ht)];
    rewrite E in *; [done|]. simpl in *.
  split_and!; try done; [by exists t|]. by apply Current_spec.
Qed.

(** The life of an ownership record. *)
Inductive Operation :=
| OpRevoke (p : Principal) (reason : string) (now : Time)
| OpTransfer (p : Principal) (c : option OwnershipChallenge) (validUntil now : Time).

Definition apply (op : Operation) (o : Ownership) : Ownership :=
  match op with
  | OpRevoke p reason now => (Revoke p reason now o).2
  | OpTransfer p c validUntil now => (Transfer p c validUntil now o).2
  end.

Lemma Revoke_effect p reason now o :
  (Revoke p reason now o).2 = o ∨
  (Revoke p reason now o).2 = revoked now reason o ∧ IsZero (oRevokedAt o) ∧ ~ IsZero now ∧
  validateReason reason = Ok tt ∧
  (RequireScope p ScopeModerationReview = Ok tt ∨
   authorizeOwned p (oOwner o) ScopeOwnershipManage = Ok tt).
Proof.
  unfold Revoke, respond, Revoke_body. go_unfold.
  destruct (validateReason reason) as [[]|]; [|by left].
  destruct (HasScope p ScopeModerationReview).
  - destruct (RequireScope p ScopeModerationReview) as [[]|]; [|by left].
    repeat (case_decide; simpl; try by left). right. split_and!; try done. by left.
  - destruct (authorizeOwned p (oOwner o) ScopeOwnershipManage) as [[]|]; [|by left].
    repeat (case_decide; simpl; try by left). right. split_and!; try done. by right.
Qed.

Lemma Transfer_effect p nc vu now o :
  (Transfer p nc vu now o).2 = o ∨
  (Transfer p nc vu now o).2 = revoked now "ownership_transferred" o ∧
  IsZero (oRevokedAt o) ∧ ~ IsZero now ∧
  authorizeOwned p (oOwner o) ScopeOwnershipManage = Ok tt.
Proof.
  unfold Transfer. go_unfold.
  destruct (authorizeOwned p (oOwner o) ScopeOwnershipManage) as [[]|] eqn:E1; [|by left].
  destruct (decide (currentLocked o now = false)) as [|Hc%not_false_is_true]; [by left|].
  apply Current_spec in Hc as (? & ? & _).
  destruct (OwnershipFromChallenge nc vu now) as [new|]; [|by left]. simpl.
  repeat (case_decide; simpl; try by left). by right.
Qed.

(** Losing ownership is final and authorized: over any sequence of
    revocations and transfers, the record changes at most once; it changes
    only through its own current owner or a moderator; and from then on
    nothing changes it again and it is current at no time. *)
Theorem revocation_is_final ops o :
  foldl (fun o op => apply op o) o ops = o ∨
  exists l1 op l2 now reason,
    ops = l1 ++ op :: l2 ∧
    foldl (fun o op => apply op o) o l1 = o ∧
    foldl (fun o op => apply op o) o ops = revoked now reason o ∧
    ~ IsZero now ∧
    (exists p, (RequireScope p ScopeModerationReview = Ok tt ∨
                authorizeOwned p (oOwner o) ScopeOwnershipManage = Ok tt) ∧
       (op = OpRevoke p reason now ∨
        exists c vu, op = OpTransfer p c vu now ∧ reason = "ownership_transferred")) ∧
    (forall t, Current (foldl (fun o op => apply op o) o ops) t = false).
Proof.
  induction ops as [|op ops IH] using rev_ind; [by left|]. rewrite foldl_snoc.
  destruct IH as [E|(l1 & op1 & l2 & now1 & reason1 & -> & E1 & E & Hz1 & Hp1 & Hc)].
  - rewrite E. destruct op as [p reason now|p c vu now]; simpl.
    + destruct (Revoke_effect p reason now o) as [->|(-> & Hz & Hn & Hr & Ha)]; [by left|].
      right. exists ops, (OpRevoke p reason now), [], now, reason.
      split_and!; try done; [exists p; eauto|]. intros t. by apply not_current_revoked.
    + destruct (Transfer_effect p c vu now o) as [->|(-> & Hz & Hn & Ha)]; [by left|].
      right. exists ops, (OpTransfer p c vu now), [], now, "ownership_transferred".
      split_and!; try done; [exists p; eauto 10|]. intros t. by apply not_current_revoked.
  - right. exists l1, op1, (l2 ++ [op]), now1, reason1.
    assert (apply op (foldl (fun o op => apply op o) o (l1 ++ op1 :: l2))
            = foldl (fun o op => apply op o) o (l1 ++ op1 :: l2)) as ->.
    { rewrite E. destruct op as [p reason now|p c vu now]; simpl.
      - by destruct (Revoke_effect p reason now (revoked now1 reason1 o)) as [->|(_ & ? & _)].
      - by destruct (Transfer_effect p c vu now (revoked now1 reason1 o)) as [->|(_ & ? & _)]. }
    split_and!; try done. by rewrite <- app_assoc.
Qed.

(** ** A concrete challenge *)
Definition carol : Principal := mkPrincipal "carol" {[ScopeOwnershipManage]}.
Definition sample_evidence : Digest :=
  "sha256:00000000000000000000000000000000000000000000000000000000000000ee".
Definition sample_challenge : OwnershipChallenge :=
  mkOwnershipChallenge "01890000-0000-7000-8000-000000000000" "carol/api" "carol" OwnershipDNS
    "nonce" 100 ChallengePending 0 "".

Lemma ownership_rests_on_timely_verification_witness :
  exists o,
    OwnershipFromChallenge (Some (verify_all [(sample_evidence, 200); (sample_evidence, 20)]
                                    sample_challenge)) 500 30 = Ok o ∧
    RequireScope carol ScopeOwnershipManage = Ok tt ∧ oOwner o = principal_id carol ∧
    oSubject o = "carol/api" ∧
    (exists t, (oEvidence o, t) ∈ [(sample_evidence, 200); (sample_evidence, 20)] ∧
       Digest_Validate (oEvidence o) = Ok tt ∧ oVerifiedAt o = t ∧ ~ expired t 100) ∧
    Before 30 100 ∧ Current o 30 = true.
Proof.
  eexists. split; [vm_compute; reflexivity|].
  apply (ownership_rests_on_timely_verification carol "01890000-0000-7000-8000-000000000000"
           "carol/api" OwnershipDNS "nonce" 100 10 sample_challenge
           [(sample_evidence, 200); (sample_evidence, 20)] 500 30);
    vm_compute; reflexivity.
Defined.
