(* ===== verification/RegistryDispute.v ===== *)
(** * internal/registry/dispute.go: disputes, supersessions and tombstones *)
From Stdlib Require Import ZArith Ascii String Lia.
From stdpp Require Import base gmap sets list strings sorting.
From S2P Require Import Prelude Schema RegistryAuth RegistryOwnership.
Local Open Scope Z_scope.
Local Open Scope string_scope.
Local Open Scope list_scope.

Definition DisputeStatus := string.
Definition DisputeOpened : DisputeStatus := "opened".
Definition DisputeUnderReview : DisputeStatus := "under_review".
Definition DisputeResolved : DisputeStatus := "resolved".
Definition DisputeSuperseded : DisputeStatus := "superseded".

Definition DisputeEventKind := string.
Definition DisputeEventOpened : DisputeEventKind := "opened".
Definition DisputeEventOwnerResponse : DisputeEventKind := "owner_response".
Definition DisputeEventReviewStarted : DisputeEventKind := "review_started".
Definition DisputeEventResolved : DisputeEventKind := "resolved".
Definition DisputeEventSuperseded : DisputeEventKind := "superseded".

Record DisputeEvent := mkDisputeEvent {
  Sequence : Z;
  Kind : DisputeEventKind;
  Actor : PrincipalID;
  At : Time;
  Statement : string;
  ReplacementID : Digest
}.

Record DisputeSnapshot := mkDisputeSnapshot {
  ID : InstanceID;
  ObservationID : Digest;
  Subject : SubjectNamespace;
  Creator : PrincipalID;
  SubjectOwner : PrincipalID;
  Reviewer : PrincipalID;
  Status : DisputeStatus;
  Events : list DisputeEvent
}.

Record Dispute := mkDispute {
  id : InstanceID;
  observationID : Digest;
  subject : SubjectNamespace;
  creator : PrincipalID;
  subjectOwner : PrincipalID;
  reviewer : PrincipalID;
  status : DisputeStatus;
  events : list DisputeEvent
}.

Definition restore_event (index : Z) (previous : Time) (event : DisputeEvent) : result error unit :=
  err_if (Sequence event ≠ uint64_wrap (index + 1) ∨ IsZero (At event) ∨
          Before (At event) previous)
    (ErrorNew (Text "dispute event sequence or time is invalid"));;
  PrincipalID_Validate (Actor event);;
  validateReason (Statement event);;
  if decide (Kind event ∈ [DisputeEventOpened; DisputeEventOwnerResponse;
                           DisputeEventReviewStarted; DisputeEventResolved]) then
    err_if (ReplacementID event ≠ "") (ErrorNew (Text "unexpected replacement ID"))
  else if decide (Kind event = DisputeEventSuperseded) then
    Digest_Validate (ReplacementID event)
  else Err (ErrorNew (Text "invalid dispute event kind")).

Fixpoint restore_events (index : Z) (previous : Time) (l : list DisputeEvent)
    : result error unit :=
  match l with
  | [] => Ok tt
  | event :: l' => restore_event index previous event;; restore_events (index + 1) (At event) l'
  end.

Definition RestoreDispute (s : DisputeSnapshot) : result error Dispute :=
  InstanceID_Validate (ID s);;
  Digest_Validate (ObservationID s);;
  SubjectNamespace_Validate (Subject s);;
  for_each PrincipalID_Validate [Creator s; SubjectOwner s];;
  err_if (Status s ≠ DisputeOpened ∧ Status s ≠ DisputeUnderReview ∧ Status s ≠ DisputeResolved ∧
          Status s ≠ DisputeSuperseded) (ErrorNew (Text "invalid dispute status"));;
  (if decide (Status s ≠ DisputeOpened) then
     wrap (fun _ => ErrorNew (Text "reviewed dispute requires reviewer"))
       (PrincipalID_Validate (Reviewer s))
   else mret tt);;
  match Events s with
  | [] => Err (ErrorNew (Text "dispute event journal is empty"))
  | first :: _ =>
      restore_events 0 0 (Events s);;
      err_if (Kind first ≠ DisputeEventOpened ∨ Actor first ≠ Creator s)
        (ErrorNew (Text "dispute journal must start with creator open event"));;
      mret (mkDispute (ID s) (ObservationID s) (Subject s) (Creator s) (SubjectOwner s)
              (Reviewer s) (Status s) (Events s))
  end.

Definition set_status (st : DisputeStatus) (d : Dispute) : Dispute :=
  mkDispute (id d) (observationID d) (subject d) (creator d) (subjectOwner d) (reviewer d) st
    (events d).
Definition set_reviewer (r : PrincipalID) (d : Dispute) : Dispute :=
  mkDispute (id d) (observationID d) (subject d) (creator d) (subjectOwner d) r (status d)
    (events d).

Definition appendEventLocked (kind : DisputeEventKind) (actor : PrincipalID) (statement : string)
    (replacementID : Digest) (now : Time) (d : Dispute) : Dispute :=
  mkDispute (id d) (observationID d) (subject d) (creator d) (subjectOwner d) (reviewer d)
    (status d)
    (events d ++ [mkDisputeEvent (uint64_wrap (Z.of_nat (length (events d)) + 1)) kind actor
                    (UTC now) statement replacementID]).

Definition NewDispute (principal : Principal) (did : InstanceID) (obs : Digest)
    (ns : SubjectNamespace) (owner : PrincipalID) (statement : string) (now : Time)
    : result error Dispute :=
  RequireScope principal ScopeDisputeCreate;;
  wrap (Wrapf (Text "dispute ID: %w")) (InstanceID_Validate did);;
  wrap (Wrapf (Text "observation ID: %w")) (Digest_Validate obs);;
  SubjectNamespace_Validate ns;;
  wrap (Wrapf (Text "subject owner: %w")) (PrincipalID_Validate owner);;
  validateReason statement;;
  err_if (IsZero now) (ErrorNew (Text "dispute creation time is required"));;
  mret (appendEventLocked DisputeEventOpened (principal_id principal) statement "" now
          (mkDispute did obs ns (principal_id principal) owner "" DisputeOpened [])).

Definition snapshotLocked (d : Dispute) : DisputeSnapshot :=
  mkDisputeSnapshot (id d) (observationID d) (subject d) (creator d) (subjectOwner d) (reviewer d)
    (status d) (events d).
Definition Snapshot (d : Dispute) : DisputeSnapshot := snapshotLocked d.

Definition DisputeM := GoM Dispute error unit.

Definition AddOwnerResponse_body (principal : Principal) (ownership : RegistryOwnership.Ownership)
    (statement : string) (now : Time) : DisputeM :=
  fail_if (IsZero now) (ErrorNew (Text "owner response time is required"));;
  lift (RequireScope principal ScopeDisputeCreate);;
  lift (RegistryOwnership.AuthorizeManage ownership principal now);;
  d ← get;
  let ownershipSnapshot := RegistryOwnership.Snapshot ownership in
  fail_if (RegistryOwnership.sSubject ownershipSnapshot ≠ subject d ∨
           RegistryOwnership.sOwner ownershipSnapshot ≠ subjectOwner d) ErrNotOwner;;
  lift (validateReason statement);;
  fail_if (status d ≠ DisputeOpened ∧ status d ≠ DisputeUnderReview) ErrInvalidTransition;;
  modify (appendEventLocked DisputeEventOwnerResponse (principal_id principal) statement "" now).
Definition AddOwnerResponse principal ownership statement now :=
  respond snapshotLocked (AddOwnerResponse_body principal ownership statement now).

Definition BeginReview_body (principal : Principal) (now : Time) : DisputeM :=
  lift (RequireScope principal ScopeModerationReview);;
  d ← get;
  fail_if (principal_id principal = creator d ∨ principal_id principal = subjectOwner d)
    (Wrapf (Text "%w: dispute reviewer has a direct conflict of interest") ErrForbidden);;
  if decide (status d = DisputeUnderReview ∧ reviewer d = principal_id principal) then mret tt
  else
    fail_if (status d ≠ DisputeOpened) ErrInvalidTransition;;
    fail_if (IsZero now) (ErrorNew (Text "review time is required"));;
    modify (set_reviewer (principal_id principal));;
    modify (set_status DisputeUnderReview);;
    modify (appendEventLocked DisputeEventReviewStarted (principal_id principal)
              "review_started" "" now).
Definition BeginReview principal now := respond snapshotLocked (BeginReview_body principal now).

Definition authorizeReviewerLocked (principal : Principal) : DisputeM :=
  lift (RequireScope principal ScopeModerationReview);;
  d ← get;
  fail_if (principal_id principal ≠ reviewer d)
    (Wrapf (Text "%w: only the assigned independent reviewer may resolve the dispute")
       ErrForbidden).

Definition Resolve_body (principal : Principal) (resolution : string) (now : Time) : DisputeM :=
  authorizeReviewerLocked principal;;
  lift (validateReason resolution);;
  fail_if (IsZero now) (ErrorNew (Text "resolution time is required"));;
  d ← get;
  fail_if (status d ≠ DisputeUnderReview) ErrInvalidTransition;;
  modify (set_status DisputeResolved);;
  modify (appendEventLocked DisputeEventResolved (principal_id principal) resolution "" now).
Definition Resolve principal resolution now :=
  respond snapshotLocked (Resolve_body principal resolution now).

Definition Supersede_body (principal : Principal) (replacement : Digest) (reason : string)
    (now : Time) : DisputeM :=
  authorizeReviewerLocked principal;;
  lift (wrap (Wrapf (Text "replacement observation: %w")) (Digest_Validate replacement));;
  d ← get;
  fail_if (replacement = observationID d)
    (ErrorNew (Text "replacement observation must differ from original"));;
  lift (validateReason reason);;
  fail_if (IsZero now) (ErrorNew (Text "supersession time is required"));;
  fail_if (status d ≠ DisputeUnderReview) ErrInvalidTransition;;
  modify (set_status DisputeSuperseded);;
  modify (appendEventLocked DisputeEventSuperseded (principal_id principal) reason replacement now).
Definition Supersede principal replacement reason now :=
  respond snapshotLocked (Supersede_body principal replacement reason now).

(** ** Supersessions and tombstones *)
Record Supersession := mkSupersession {
  supOriginalID : Digest;
  supReplacementID : Digest;
  supReason : string;
  supActor : PrincipalID;
  supCreatedAt : Time
}.

Definition NewSupersession (principal : Principal) (originalID replacementID : Digest)
    (reason : string) (now : Time) : result error Supersession :=
  RequireScope principal ScopeModerationReview;;
  wrap (Wrapf (Text "original observation: %w")) (Digest_Validate originalID);;
  wrap (Wrapf (Text "replacement observation: %w")) (Digest_Validate replacementID);;
  err_if (originalID = replacementID)
    (ErrorNew (Text "supersession requires different observations"));;
  validateReason reason;;
  err_if (IsZero now) (ErrorNew (Text "supersession time is required"));;
  mret (mkSupersession originalID replacementID reason (principal_id principal) (UTC now)).

Record Tombstone := mkTombstone {
  tombObservationID : Digest;
  tombReason : string;
  tombActor : PrincipalID;
  tombCreatedAt : Time
}.

Definition NewTombstone (principal : Principal) (obs : Digest) (reason : string) (now : Time)
    : result error Tombstone :=
  RequireScope principal ScopeModerationReview;;
  wrap (Wrapf (Text "observation ID: %w")) (Digest_Validate obs);;
  validateReason reason;;
  err_if (IsZero now) (ErrorNew (Text "tombstone time is required"));;
  mret (mkTombstone obs reason (principal_id principal) (UTC now)).

(** ** Disputes over time *)
Inductive Operation :=
| OpResponse (p : Principal) (o : RegistryOwnership.Ownership) (statement : string) (now : Time)
| OpReview (p : Principal) (now : Time)
| OpResolve (p : Principal) (resolution : string) (now : Time)
| OpSupersede (p : Principal) (replacement : Digest) (reason : string) (now : Time).

Definition apply (op : Operation) : Dispute -> (DisputeSnapshot * option error) * Dispute :=
  match op with
  | OpResponse p o statement now => AddOwnerResponse p o statement now
  | OpReview p now => BeginReview p now
  | OpResolve p resolution now => Resolve p resolution now
  | OpSupersede p replacement reason now => Supersede p replacement reason now
  end.

Definition run (ops : list Operation) (d : Dispute) : Dispute :=
  foldl (fun d op => (apply op d).2) d ops.

(** ** What the journal of a dispute says *)
Definition opening (d : Dispute) (e : DisputeEvent) : Prop :=
  Kind e = DisputeEventOpened ∧ Actor e = creator d.
Definition response (d : Dispute) (e : DisputeEvent) : Prop :=
  Kind e = DisputeEventOwnerResponse ∧ Actor e = subjectOwner d.
Definition review (d : Dispute) (e : DisputeEvent) : Prop :=
  Kind e = DisputeEventReviewStarted ∧ Actor e = reviewer d.
(** The closing event of the assigned reviewer. *)
Definition closing (d : Dispute) (e : DisputeEvent) : Prop :=
  Actor e = reviewer d ∧
  (Kind e = DisputeEventResolved ∧ status d = DisputeResolved ∨
   Kind e = DisputeEventSuperseded ∧ status d = DisputeSuperseded ∧
     ReplacementID e <> observationID d).

Definition independent (d : Dispute) : Prop :=
  reviewer d <> creator d ∧ reviewer d <> subjectOwner d.

Inductive journal_shape (d : Dispute) : Prop :=
| shape_opened e0 rs :
    events d = e0 :: rs -> opening d e0 -> Forall (response d) rs ->
    status d = DisputeOpened -> reviewer d = "" -> journal_shape d
| shape_review e0 rs e1 rs' :
    events d = e0 :: rs ++ e1 :: rs' -> opening d e0 -> Forall (response d) rs -> review d e1 ->
    Forall (response d) rs' -> independent d -> status d = DisputeUnderReview -> journal_shape d
| shape_closed e0 rs e1 rs' e2 :
    events d = e0 :: rs ++ e1 :: rs' ++ [e2] -> opening d e0 -> Forall (response d) rs ->
    review d e1 -> Forall (response d) rs' -> closing d e2 -> independent d -> journal_shape d.

(** The parts of an event every operation validates. *)
Definition event_valid (e : DisputeEvent) : Prop :=
  ~ IsZero (At e) ∧ PrincipalID_Validate (Actor e) = Ok tt ∧ validateReason (Statement e) = Ok tt ∧
  (Kind e ∈ [DisputeEventOpened; DisputeEventOwnerResponse; DisputeEventReviewStarted;
             DisputeEventResolved] ∧ ReplacementID e = "" ∨
   Kind e = DisputeEventSuperseded ∧ Digest_Validate (ReplacementID e) = Ok tt).

Definition numbered (l : list DisputeEvent) : Prop :=
  forall i e, l !! i = Some e -> Sequence e = uint64_wrap (Z.of_nat i + 1).

Record dispute_inv (d : Dispute) : Prop := {
  di_shape : journal_shape d;
  di_events : Forall event_valid (events d);
  di_numbered : numbered (events d);
  di_id : InstanceID_Validate (id d) = Ok tt;
  di_obs : Digest_Validate (observationID d) = Ok tt;
  di_subject : SubjectNamespace_Validate (subject d) = Ok tt;
  di_creator : PrincipalID_Validate (creator d) = Ok tt;
  di_owner : PrincipalID_Validate (subjectOwner d) = Ok tt;
  di_reviewer : status d <> DisputeOpened -> PrincipalID_Validate (reviewer d) = Ok tt;
  di_status : status d = DisputeOpened ∨ status d = DisputeUnderReview ∨
              status d = DisputeResolved ∨ status d = DisputeSuperseded
}.

(** ** Effects *)
Lemma AuthorizeManage_ok o p now :
  RegistryOwnership.AuthorizeManage o p now = Ok tt ->
  RequireScope p ScopeOwnershipManage = Ok tt ∧ principal_id p = RegistryOwnership.oOwner o ∧
  RegistryOwnership.Current o now = true.
Proof.
  unfold RegistryOwnership.AuthorizeManage. rewrite bind_ok, err_if_ok, authorizeOwned_ok.
  intros [[? ?] ?]. split_and!; try done. by apply not_false_is_true.
Qed.

Lemma AddOwnerResponse_effect p o st now d :
  (AddOwnerResponse p o st now d).2 = d ∨
  (AddOwnerResponse p o st now d).2 =
    appendEventLocked DisputeEventOwnerResponse (principal_id p) st "" now d ∧
  principal_id p = subjectOwner d ∧ ~ IsZero now ∧ PrincipalID_Validate (principal_id p) = Ok tt ∧
  validateReason st = Ok tt ∧ (status d = DisputeOpened ∨ status d = DisputeUnderReview).
Proof.
  unfold AddOwnerResponse, respond, AddOwnerResponse_body. go_unfold.
  case_decide as Hz; [by left|].
  destruct (RequireScope p ScopeDisputeCreate) as [[]|] eqn:E1; [|by left].
  destruct (RegistryOwnership.AuthorizeManage o p now) as [[]|] eqn:E2; [|by left].
  apply AuthorizeManage_ok in E2 as (E2 & E3 & _). apply RequireScope_ok in E1 as [E1 _].
  case_decide as Hs; simpl; [by left|].
  destruct (validateReason st) as [[]|] eqn:E4; [|by left].
  case_decide as Hst; simpl; [by left|]. right.
  assert (RegistryOwnership.oOwner o = subjectOwner d) by (apply dec_stable; intros ?; apply Hs; by right).
  split_and!; try done; [congruence|].
  destruct (decide (status d = DisputeOpened)); [by left|right; apply dec_stable; tauto].
Qed.

Lemma BeginReview_effect p now d :
  (BeginReview p now d).2 = d ∨
  (BeginReview p now d).2 =
    appendEventLocked DisputeEventReviewStarted (principal_id p) "review_started" "" now
      (set_status DisputeUnderReview (set_reviewer (principal_id p) d)) ∧
  status d = DisputeOpened ∧ principal_id p <> creator d ∧ principal_id p <> subjectOwner d ∧
  ~ IsZero now ∧ PrincipalID_Validate (principal_id p) = Ok tt.
Proof.
  unfold BeginReview, respond, BeginReview_body. go_unfold.
  destruct (RequireScope p ScopeModerationReview) as [[]|] eqn:E1; [|by left].
  apply RequireScope_ok in E1 as [E1 _].
  destruct (decide (_ ∨ _)) as [|Hc]; simpl; [by left|].
  repeat (case_decide; simpl; try by left). right. split_and!; try done; tauto.
Qed.

Lemma Resolve_effect p res now d :
  (Resolve p res now d).2 = d ∨
  (Resolve p res now d).2 =
    appendEventLocked DisputeEventResolved (principal_id p) res "" now
      (set_status DisputeResolved d) ∧
  status d = DisputeUnderReview ∧ principal_id p = reviewer d ∧ ~ IsZero now ∧
  PrincipalID_Validate (principal_id p) = Ok tt ∧ validateReason res = Ok tt.
Proof.
  unfold Resolve, respond, Resolve_body, authorizeReviewerLocked. go_unfold.
  destruct (RequireScope p ScopeModerationReview) as [[]|] eqn:E1; [|by left].
  apply RequireScope_ok in E1 as [E1 _].
  case_decide; simpl; [by left|].
  destruct (validateReason res) as [[]|] eqn:E4; [|by left].
  repeat (case_decide; simpl; try by left). right. split_and!; done.
Qed.

Lemma Supersede_effect p rep reason now d :
  (Supersede p rep reason now d).2 = d ∨
  (Supersede p rep reason now d).2 =
    appendEventLocked DisputeEventSuperseded (principal_id p) reason rep now
      (set_status DisputeSuperseded d) ∧
  status d = DisputeUnderReview ∧ principal_id p = reviewer d ∧ ~ IsZero now ∧
  PrincipalID_Validate (principal_id p) = Ok tt ∧ validateReason reason = Ok tt ∧
  Digest_Validate rep = Ok tt ∧ rep <> observationID d.
Proof.
  unfold Supersede, respond, Supersede_body, authorizeReviewerLocked. go_unfold.
  destruct (RequireScope p ScopeModerationReview) as [[]|] eqn:E1; [|by left].
  apply RequireScope_ok in E1 as [E1 _].
  case_decide; simpl; [by left|].
  destruct (Digest_Validate rep) as [[]|] eqn:E5; [|by left].
  case_decide; simpl; [by left|].
  destruct (validateReason reason) as [[]|] eqn:E4; [|by left].
  repeat (case_decide; simpl; try by left). right. split_and!; done.
Qed.

(** ** The invariant *)
Lemma numbered_snoc l e :
  numbered l -> Sequence e = uint64_wrap (Z.of_nat (length l) + 1) -> numbered (l ++ [e]).
Proof.
  intros Hl He i x Hx. apply lookup_app_Some in Hx as [Hx|[Hi Hx]]; [by apply Hl|].
  apply list_lookup_singleton_Some in Hx as [Hi' <-]. rewrite He. do 2 f_equal. lia.
Qed.

Lemma append_inv kind actor st rep now d :
  journal_shape (appendEventLocked kind actor st rep now d) ->
  Forall event_valid (events d) -> numbered (events d) ->
  event_valid (mkDisputeEvent 0 kind actor now st rep) ->
  InstanceID_Validate (id d) = Ok tt -> Digest_Validate (observationID d) = Ok tt ->
  SubjectNamespace_Validate (subject d) = Ok tt -> PrincipalID_Validate (creator d) = Ok tt ->
  PrincipalID_Validate (subjectOwner d) = Ok tt ->
  (status d <> DisputeOpened -> PrincipalID_Validate (reviewer d) = Ok tt) ->
  (status d = DisputeOpened ∨ status d = DisputeUnderReview ∨
   status d = DisputeResolved ∨ status d = DisputeSuperseded) ->
  dispute_inv (appendEventLocked kind actor st rep now d).
Proof.
  intros Hs Hv Hn He. split; try done; simpl.
  - apply Forall_app. split; [done|]. by apply Forall_singleton.
  - by apply numbered_snoc.
Qed.

Lemma response_inv p st now d :
  dispute_inv d -> principal_id p = subjectOwner d -> ~ IsZero now ->
  PrincipalID_Validate (principal_id p) = Ok tt -> validateReason st = Ok tt ->
  (status d = DisputeOpened ∨ status d = DisputeUnderReview) ->
  dispute_inv (appendEventLocked DisputeEventOwnerResponse (principal_id p) st "" now d).
Proof.
  intros [Hs ? ? ? ? ? ? ? ? ?] Hp Hz Hv Hr Hst. apply append_inv; try done.
  - destruct Hs as [e0 rs E H0 Hrs S R|e0 rs e1 rs' E H0 Hrs H1 Hrs' I S|e0 rs e1 rs' e2 E H0 Hrs H1 Hrs' H2 I].
    + eapply (shape_opened _ e0 (rs ++ [_])); try done; simpl; [by rewrite E|].
      apply Forall_app. split; [done|]. by apply Forall_singleton.
    + eapply (shape_review _ e0 rs e1 (rs' ++ [_])); try done; simpl.
      * rewrite E. simpl. by rewrite <- app_assoc.
      * apply Forall_app. split; [done|]. by apply Forall_singleton.
    + exfalso. destruct H2 as [_ [[_ S]|(_ & S & _)]]; rewrite S in Hst; by destruct Hst.
  - split_and!; try done. left. split; [|done]. apply elem_of_cons; right. by left.
Qed.

Lemma dispute_step_inv op d : dispute_inv d -> dispute_inv (apply op d).2.
Proof.
  intros Hd. destruct op as [p o st now|p now|p res now|p rep reason now]; simpl.
  - destruct (AddOwnerResponse_effect p o st now d) as [->|(-> & ? & ? & ? & ? & ?)]; [done|].
    by apply response_inv.
  - destruct (BeginReview_effect p now d) as [->|(-> & S & Hc & Ho & Hz & Hv)]; [done|].
    destruct Hd as [Hs ? ? ? ? ? ? ? ? ?]. apply append_inv; try done.
    + destruct Hs as [e0 rs E H0 Hrs _ _|? ? ? ? ? ? ? ? ? ? S'|? ? ? ? ? ? ? ? ? ? [_ S'] ?];
        [|by rewrite S in S'|destruct S' as [[_ S']|(_ & S' & _)]; by rewrite S in S'].
      eapply (shape_review _ e0 rs _ []); try done; [simpl; by rewrite E|by split].
    + split_and!; try done. left. split; [|done].
      do 2 (apply elem_of_cons; right). by left.
    + simpl. tauto.
  - destruct (Resolve_effect p res now d) as [->|(-> & S & Hr & Hz & Hv & Hm)]; [done|].
    destruct Hd as [Hs ? ? ? ? ? ? ? ? ?]. apply append_inv; try done.
    + destruct Hs as [? ? ? ? ? S' ?|e0 rs e1 rs' E H0 Hrs H1 Hrs' I _|? ? ? ? ? ? ? ? ? ? [_ S'] ?];
        [by rewrite S in S'| |destruct S' as [[_ S']|(_ & S' & _)]; by rewrite S in S'].
      eapply (shape_closed _ e0 rs e1 rs' _); try done; simpl.
      * rewrite E. simpl. by rewrite <- app_assoc.
      * split; [done|]. by left.
    + split_and!; try done. left. split; [|done].
      do 3 (apply elem_of_cons; right). by left.
    + intros _. simpl. by rewrite <- Hr.
    + simpl. tauto.
  - destruct (Supersede_effect p rep reason now d) as [->|(-> & S & Hr & Hz & Hv & Hm & Hd' & Hne)]; [done|].
    destruct Hd as [Hs ? ? ? ? ? ? ? ? ?]. apply append_inv; try done.
    + destruct Hs as [? ? ? ? ? S' ?|e0 rs e1 rs' E H0 Hrs H1 Hrs' I _|? ? ? ? ? ? ? ? ? ? [_ S'] ?];
        [by rewrite S in S'| |destruct S' as [[_ S']|(_ & S' & _)]; by rewrite S in S'].
      eapply (shape_closed _ e0 rs e1 rs' _); try done; simpl.
      * rewrite E. simpl. by rewrite <- app_assoc.
      * split; [done|]. by right.
    + split_and!; try done. by right.
    + intros _. simpl. by rewrite <- Hr.
    + simpl. tauto.
Qed.

Definition opened_dispute (d0 : Dispute) : Prop :=
  exists p did obs ns owner st now, NewDispute p did obs ns owner st now = Ok d0.

Lemma opened_inv d0 : opened_dispute d0 -> dispute_inv d0.
Proof.
  intros (p & did & obs & ns & owner & st & now & H). unfold NewDispute, wrap in H.
  destruct (RequireScope p ScopeDisputeCreate) as [[]|] eqn:E1; [|done].
  apply RequireScope_ok in E1 as [E1 _].
  destruct (InstanceID_Validate did) as [[]|] eqn:E2; [|done].
  destruct (Digest_Validate obs) as [[]|] eqn:E3; [|done].
  destruct (SubjectNamespace_Validate ns) as [[]|] eqn:E4; [|done].
  destruct (PrincipalID_Validate owner) as [[]|] eqn:E5; [|done].
  destruct (validateReason st) as [[]|] eqn:E6; [|done]. cbn [mbind result_bind] in H.
  unfold err_if in H. case_decide as Hz; [done|]. injection H as <-.
  apply append_inv; try done.
  - by eapply (shape_opened _ _ []).
  - split_and!; try done. left. split; [by left|done].
  - simpl. tauto.
Qed.

Lemma dispute_run_inv ops d : dispute_inv d -> dispute_inv (run ops d).
Proof.
  intros Hd. unfold run. induction ops as [|op ops IH] using rev_ind; [done|].
  rewrite foldl_snoc. by apply dispute_step_inv.
Qed.

(** ** Restoring *)
Lemma restore_event_ok i prev e :
  event_valid e -> Sequence e = uint64_wrap (i + 1) ->
  (restore_event i prev e = Ok tt <-> prev <= At e).
Proof.
  intros (Hz & Ha & Hs & Hk) Hseq. unfold restore_event. rewrite Ha, Hs.
  rewrite bind_ok, err_if_ok. split.
  - intros [H _]. apply Z.nlt_ge. intros Hlt. apply H. by right; right.
  - intros Hle. split; [intros [?|[?|Hb]]; [done|done|unfold Before in Hb; lia]|].
    destruct Hk as [[Hin Hr]|[Hk Hr]].
    + simpl. rewrite decide_True by done. rewrite err_if_ok. intros Hn. by apply Hn.
    + simpl. rewrite decide_False.
      * by rewrite decide_True.
      * rewrite Hk, !elem_of_cons. intros [?|[?|[?|[?|?%elem_of_nil]]]]; done.
Qed.

Lemma restore_events_ok l : forall i prev,
  Forall event_valid l -> (forall j e, l !! j = Some e -> Sequence e = uint64_wrap (i + Z.of_nat j + 1)) ->
  (restore_events i prev l = Ok tt <-> Sorted Z.le (prev :: (At <$> l))).
Proof.
  induction l as [|e l IH]; intros i prev Hv Hn; cbn [restore_events].
  - split; [intros _; repeat constructor|done].
  - inversion Hv; subst. rewrite bind_ok, restore_event_ok, IH; [|done| |done|].
    + cbn [fmap list_fmap]. split.
      * intros [? ?]. constructor; [done|by constructor].
      * intros Hso. inversion Hso as [|? ? HA HB]; subst. by inversion HB.
    + intros j x Hx. rewrite (Hn (S j) x Hx). do 2 f_equal. lia.
    + rewrite (Hn 0%nat e eq_refl). do 2 f_equal. lia.
Qed.

(** Disputes are journaled and reviewed independently: over any
    sequence of calls on a dispute, its events are numbered from 1 and read:
    opened by the creator, then responses of the subject's owner, then one
    review by a reviewer who is neither the creator nor the subject's owner,
    then more responses, then at most one closing event, by that reviewer,
    that agrees with the status; nothing follows it. *)
Theorem dispute_journal_shape d0 ops (H0 : opened_dispute d0) :
  journal_shape (run ops d0) ∧ numbered (events (run ops d0)).
Proof. destruct (dispute_run_inv ops d0 (opened_inv d0 H0)). done. Qed.

(** A reachable dispute restores from its snapshot, unchanged, exactly
    when the times of its events never decrease (and are not before year 1);
    the operations accept any nonzero time, so this is not guaranteed. *)
Theorem dispute_restores_iff_times_sorted d0 ops (H0 : opened_dispute d0) :
  RestoreDispute (Snapshot (run ops d0)) = Ok (run ops d0) <->
  Sorted Z.le (0 :: (At <$> events (run ops d0))).
Proof.
  pose proof (dispute_run_inv ops d0 (opened_inv d0 H0)) as Hinv.
  set (d := run ops d0) in *. clearbody d. destruct Hinv as [Hs Hv Hn V1 V2 V3 V4 V5 V6 Hst].
  rewrite <- (restore_events_ok (events d) 0 0 Hv) by (intros j e He; rewrite (Hn j e He); done).
  assert (exists e0 rest, events d = e0 :: rest ∧ opening d e0) as (e0 & rest & E & Hk & Ha)
    by (destruct Hs; eauto).
  unfold RestoreDispute, Snapshot, snapshotLocked. cbn [ID ObservationID Subject Creator
    SubjectOwner Reviewer Status Events]. rewrite V1, V2, V3. cbn [for_each]. rewrite V4, V5.
  cbn [mbind result_bind mret result_ret]. unfold err_if.
  destruct (decide (_ ∧ _ ∧ _ ∧ _)) as [(? & ? & ? & ?)|_];
    [exfalso; by destruct Hst as [|[|[|]]]|]. cbn [mbind result_bind].
  assert ((if decide (status d <> DisputeOpened) then
     wrap (fun _ => ErrorNew (Text "reviewed dispute requires reviewer"))
       (PrincipalID_Validate (reviewer d)) else mret tt) = Ok tt) as ->
    by (case_decide; [by rewrite V6|done]).
  cbn [mbind result_bind]. rewrite E at 1.
  destruct (restore_events 0 0 (events d)) as [[]|]; cbn [mbind result_bind]; [|done].
  rewrite decide_False by (intros [?|?]; done). simpl. by destruct d.
Qed.

Definition dana : Principal := mkPrincipal "dana" {[ScopeDisputeCreate]}.
Definition rita : Principal := mkPrincipal "rita" {[ScopeModerationReview]}.
Definition sample_observation : Digest :=
  "sha256:00000000000000000000000000000000000000000000000000000000000000dd".
Definition new_sample : result error Dispute :=
  NewDispute dana "01890000-0000-7000-8000-000000000000" sample_observation "owner/api" "owner"
    "wrong result" 50.
Definition sample_dispute : Dispute :=
  match new_sample with
  | Ok d => d
  | Err _ => mkDispute "" "" "" "" "" "" "" []
  end.

Lemma sample_dispute_opened : opened_dispute sample_dispute.
Proof. do 7 eexists. assert (new_sample = Ok sample_dispute) as H by (vm_compute; reflexivity). exact H. Defined.

Lemma dispute_journal_shape_witness :
  let d := run [OpResolve rita "done" 55; OpReview rita 60; OpResolve rita "fixed" 70] sample_dispute in
  status d = DisputeResolved ∧ journal_shape d ∧ numbered (events d).
Proof.
  intros d. split; [vm_compute; reflexivity|].
  apply (dispute_journal_shape sample_dispute
    [OpResolve rita "done" 55; OpReview rita 60; OpResolve rita "fixed" 70] sample_dispute_opened).
Defined.

Lemma dispute_restores_iff_times_sorted_witness :
  let d := run [OpReview rita 60] sample_dispute in
  RestoreDispute (Snapshot d) = Ok d <-> Sorted Z.le (0 :: (At <$> events d)).
Proof.
  apply (dispute_restores_iff_times_sorted sample_dispute [OpReview rita 60] sample_dispute_opened).
Defined.

(** A dispute that the operations accept can be impossible to restore:
    a review begun with a time earlier than the dispute's opening succeeds,
    and its snapshot is then refused. *)
Theorem accepted_dispute_can_be_unrestorable :
  let r := BeginReview rita 40 sample_dispute in
  r.1.2 = None ∧ Status r.1.1 = DisputeUnderReview ∧
  RestoreDispute (Snapshot r.2) =
    Err (ErrorNew (Text "dispute event sequence or time is invalid")).
Proof. vm_compute. split_and!; reflexivity. Qed.
