(* ===== verification/RegistryPurge.v ===== *)
(** * internal/registry/purge.go: sensitive purge requests *)
From Stdlib Require Import ZArith Ascii String Lia.
From stdpp Require Import base gmap sets list strings.
From S2P Require Import Prelude Schema RegistryAuth.
Local Open Scope Z_scope.
Local Open Scope string_scope.
Local Open Scope list_scope.

(** 24 hours, in nanoseconds. *)
Definition ActiveStorePurgeTarget : Z := 24 * 3600 * 1000000000.

Definition PurgeReason := string.
Definition PurgeSecret : PurgeReason := "secret".
Definition PurgePII : PurgeReason := "pii".
Definition PurgeUnlawful : PurgeReason := "unlawful_content".
Definition PurgeUnauthorized : PurgeReason := "unauthorized_submission".

Definition PurgeReason_validate (reason : PurgeReason) : result error unit :=
  err_if (reason ∉ [PurgeSecret; PurgePII; PurgeUnlawful; PurgeUnauthorized])
    (ErrorNew (Sprintf "invalid sensitive purge reason %q" [FStr reason])).

Definition PurgeTarget := string.
Definition PurgeObjectStore : PurgeTarget := "object_store".
Definition PurgeCDN : PurgeTarget := "cdn".
Definition PurgeSearch : PurgeTarget := "search".
Definition PurgeCache : PurgeTarget := "cache".
Definition PurgePublicPage : PurgeTarget := "public_page".
Definition allPurgeTargets : list PurgeTarget :=
  [PurgeObjectStore; PurgeCDN; PurgeSearch; PurgeCache; PurgePublicPage].

Definition PurgeTargetStatus := string.
Definition PurgeTargetPending : PurgeTargetStatus := "pending".
Definition PurgeTargetPurged : PurgeTargetStatus := "purged".
Definition PurgeTargetNotApplicable : PurgeTargetStatus := "not_applicable".

Definition PurgeStatus := string.
Definition PurgeRequested : PurgeStatus := "requested".
Definition PurgeInProgress : PurgeStatus := "in_progress".
Definition PurgeCompleted : PurgeStatus := "completed".

Record PurgeEvent := mkPurgeEvent {
  Sequence : Z;
  Actor : PrincipalID;
  Action : string;
  Target : PurgeTarget;
  At : Time
}.

Record PurgeSnapshot := mkPurgeSnapshot {
  EventID : InstanceID;
  Reason : PurgeReason;
  Status : PurgeStatus;
  RequestedAt : Time;
  Deadline : Time;
  CompletedAt : Time;
  Targets : gmap PurgeTarget PurgeTargetStatus;
  Events : list PurgeEvent
}.

Record PurgeRequest := mkPurgeRequest {
  eventID : InstanceID;
  reason : PurgeReason;
  status : PurgeStatus;
  requestedAt : Time;
  deadline : Time;
  completedAt : Time;
  targets : gmap PurgeTarget PurgeTargetStatus;
  events : list PurgeEvent
}.

Definition set_status (st : PurgeStatus) (r : PurgeRequest) : PurgeRequest :=
  mkPurgeRequest (eventID r) (reason r) st (requestedAt r) (deadline r) (completedAt r) (targets r)
    (events r).
Definition set_completedAt (t : Time) (r : PurgeRequest) : PurgeRequest :=
  mkPurgeRequest (eventID r) (reason r) (status r) (requestedAt r) (deadline r) t (targets r)
    (events r).
Definition set_target (target : PurgeTarget) (st : PurgeTargetStatus) (r : PurgeRequest)
    : PurgeRequest :=
  mkPurgeRequest (eventID r) (reason r) (status r) (requestedAt r) (deadline r) (completedAt r)
    (<[target := st]> (targets r)) (events r).

Definition appendEventLocked (actor : PrincipalID) (action : string) (target : PurgeTarget)
    (now : Time) (r : PurgeRequest) : PurgeRequest :=
  mkPurgeRequest (eventID r) (reason r) (status r) (requestedAt r) (deadline r) (completedAt r)
    (targets r)
    (events r ++ [mkPurgeEvent (uint64_wrap (Z.of_nat (length (events r)) + 1)) actor action target
                    (UTC now)]).

Definition pending_targets : gmap PurgeTarget PurgeTargetStatus :=
  foldl (fun m target => <[target := PurgeTargetPending]> m) ∅ allPurgeTargets.

Definition NewPurgeRequest (principal : Principal) (eid : InstanceID) (why : PurgeReason)
    (now : Time) : result error PurgeRequest :=
  RequireScope principal ScopeModerationReview;;
  wrap (Wrapf (Text "purge event ID: %w")) (InstanceID_Validate eid);;
  PurgeReason_validate why;;
  err_if (IsZero now) (ErrorNew (Text "purge request time is required"));;
  mret (appendEventLocked (principal_id principal) "requested" "" now
          (mkPurgeRequest eid why PurgeRequested (UTC now)
             (time_Add (UTC now) ActiveStorePurgeTarget) 0 pending_targets [])).

Definition snapshotLocked (r : PurgeRequest) : PurgeSnapshot :=
  mkPurgeSnapshot (eventID r) (reason r) (status r) (requestedAt r) (deadline r) (completedAt r)
    (targets r) (events r).
Definition Snapshot (r : PurgeRequest) : PurgeSnapshot := snapshotLocked r.

Definition PurgeM := GoM PurgeRequest error unit.

Definition Start_body (principal : Principal) (now : Time) : PurgeM :=
  lift (RequireScope principal ScopeModerationReview);;
  r ← get;
  if decide (status r = PurgeInProgress) then mret tt
  else
    fail_if (status r ≠ PurgeRequested) ErrInvalidTransition;;
    fail_if (IsZero now) (ErrorNew (Text "purge start time is required"));;
    modify (set_status PurgeInProgress);;
    modify (appendEventLocked (principal_id principal) "started" "" now).
Definition Start principal now := respond snapshotLocked (Start_body principal now).

(** The loop returns at the first pending target, in whatever order the map
    is ranged over. *)
Definition allTargetsTerminalLocked (r : PurgeRequest) : bool :=
  bool_decide (map_Forall (fun _ st => st <> PurgeTargetPending) (targets r)).

Definition CompleteTarget_body (principal : Principal) (target : PurgeTarget)
    (st : PurgeTargetStatus) (now : Time) : PurgeM :=
  lift (RequireScope principal ScopeModerationReview);;
  r ← get;
  match targets r !! target with
  | None => fail (ErrorNew (Sprintf "unknown purge target %q" [FStr target]))
  | Some current =>
      fail_if (st ≠ PurgeTargetPurged ∧ st ≠ PurgeTargetNotApplicable)
        (ErrorNew (Sprintf "invalid terminal purge target status %q" [FStr st]));;
      if decide (status r = PurgeCompleted ∧ current = st) then mret tt
      else
        fail_if (status r ≠ PurgeInProgress) ErrInvalidTransition;;
        if decide (current = st) then mret tt
        else
          fail_if (current ≠ PurgeTargetPending) ErrConflict;;
          fail_if (IsZero now) (ErrorNew (Text "purge target completion time is required"));;
          modify (set_target target st);;
          modify (appendEventLocked (principal_id principal) st target now);;
          r' ← get;
          if allTargetsTerminalLocked r' then
            modify (set_status PurgeCompleted);;
            modify (set_completedAt (UTC now));;
            modify (appendEventLocked (principal_id principal) "completed" "" now)
          else mret tt
  end.
Definition CompleteTarget principal target st now :=
  respond snapshotLocked (CompleteTarget_body principal target st now).

Definition MissedDeadline (r : PurgeRequest) (now : Time) : bool :=
  bool_decide (status r ≠ PurgeCompleted ∧ ¬ IsZero now ∧ ¬ Before now (deadline r)).

(** ** Requests over time *)
Inductive Operation :=
| OpStart (p : Principal) (now : Time)
| OpComplete (p : Principal) (target : PurgeTarget) (st : PurgeTargetStatus) (now : Time).

Definition apply (op : Operation) : PurgeRequest -> (PurgeSnapshot * option error) * PurgeRequest :=
  match op with
  | OpStart p now => Start p now
  | OpComplete p target st now => CompleteTarget p target st now
  end.

Definition run (ops : list Operation) (r : PurgeRequest) : PurgeRequest :=
  foldl (fun r op => (apply op r).2) r ops.

(** ** The invariant *)
Definition terminal (st : PurgeTargetStatus) : Prop :=
  st = PurgeTargetPurged ∨ st = PurgeTargetNotApplicable.

(** The journal records the decision on a target. *)
Definition journaled (r : PurgeRequest) (target : PurgeTarget) (st : PurgeTargetStatus) : Prop :=
  exists e, e ∈ events r ∧ Target e = target ∧ Action e = st ∧ ~ IsZero (At e).

Record purge_inv (r : PurgeRequest) : Prop := {
  pi_targets : dom (targets r) = list_to_set allPurgeTargets;
  pi_requested : status r = PurgeRequested ->
    forall t st, targets r !! t = Some st -> st = PurgeTargetPending;
  pi_status : forall t st, targets r !! t = Some st ->
    st = PurgeTargetPending ∨ terminal st ∧ journaled r t st;
  pi_completed : status r = PurgeCompleted <->
    forall t st, targets r !! t = Some st -> terminal st;
  pi_when : status r = PurgeCompleted ->
    exists e, last (events r) = Some e ∧ Action e = "completed" ∧ At e = completedAt r ∧
      ~ IsZero (completedAt r);
  pi_deadline : deadline r = requestedAt r + ActiveStorePurgeTarget;
  pi_state : status r = PurgeRequested ∨ status r = PurgeInProgress ∨ status r = PurgeCompleted
}.

Lemma not_pending_terminal st : terminal st -> st <> PurgeTargetPending.
Proof. by intros [->| ->]. Qed.

Lemma journaled_append r t st actor action target now :
  journaled r t st -> journaled (appendEventLocked actor action target now r) t st.
Proof. intros (e & He & H). exists e. split; [simpl; apply elem_of_app; by left|done]. Qed.

(** The five targets are never empty, so a request with no pending target has
    decided ones. *)
Lemma some_target r : dom (targets r) = list_to_set allPurgeTargets -> exists st, targets r !! PurgeCDN = Some st.
Proof.
  intros H. apply elem_of_dom. rewrite H. apply elem_of_list_to_set.
  apply elem_of_cons; right. by left.
Qed.

Lemma Start_effect p now r :
  (Start p now r).2 = r ∨
  (Start p now r).2 = appendEventLocked (principal_id p) "started" "" now
                        (set_status PurgeInProgress r) ∧ status r = PurgeRequested.
Proof.
  unfold Start, respond, Start_body. go_unfold.
  destruct (RequireScope p ScopeModerationReview) as [[]|]; [|by left].
  repeat (case_decide; simpl; try by left). by right.
Qed.

(** A decision on one target, before the completion check. *)
Definition decided (p : Principal) (target : PurgeTarget) (st : PurgeTargetStatus) (now : Time)
    (r : PurgeRequest) : PurgeRequest :=
  appendEventLocked (principal_id p) st target now (set_target target st r).

Definition close_request (p : Principal) (now : Time) (r : PurgeRequest) : PurgeRequest :=
  appendEventLocked (principal_id p) "completed" "" now
    (set_completedAt (UTC now) (set_status PurgeCompleted r)).

Lemma CompleteTarget_effect p target st now r :
  (CompleteTarget p target st now r).2 = r ∨
  targets r !! target = Some PurgeTargetPending ∧ terminal st ∧ status r = PurgeInProgress ∧
  ~ IsZero now ∧
  (CompleteTarget p target st now r).2 =
    (if allTargetsTerminalLocked (decided p target st now r)
     then close_request p now (decided p target st now r) else decided p target st now r).
Proof.
  unfold CompleteTarget, respond, CompleteTarget_body. go_unfold.
  destruct (RequireScope p ScopeModerationReview) as [[]|]; [|by left].
  destruct (targets r !! target) as [current|]; [|by left].
  destruct (decide (_ ∧ _)) as [|Ht]; simpl; [by left|].
  do 3 (case_decide; simpl; [by left|]). case_decide as Hc; simpl; [by left|].
  case_decide as Hz; simpl; [by left|]. right. split_and!; try done.
  - by rewrite Hc.
  - unfold terminal. destruct (decide (st = PurgeTargetPurged)); [by left|].
    right. apply dec_stable. tauto.
  - fold (decided p target st now r). by destruct (allTargetsTerminalLocked (decided p target st now r)).
Qed.

Lemma decided_status p target st now r t s :
  terminal st -> ~ IsZero now ->
  (forall t s, targets r !! t = Some s -> s = PurgeTargetPending ∨ terminal s ∧ journaled r t s) ->
  targets (decided p target st now r) !! t = Some s ->
  s = PurgeTargetPending ∨ terminal s ∧ journaled (decided p target st now r) t s.
Proof.
  intros Ht Hz Hr. simpl. rewrite lookup_insert_Some. intros [[<- <-]|[Hne Hs]].
  - right. split; [done|]. eexists. split; [simpl; apply elem_of_app; right; by left|]. done.
  - destruct (Hr t s Hs) as [?|[? Hj]]; [by left|]. right. split; [done|].
    destruct Hj as (e & He & He2). exists e. split; [simpl; apply elem_of_app; by left|done].
Qed.

Lemma purge_step_inv op r : purge_inv r -> purge_inv (apply op r).2.
Proof.
  intros Hi. destruct op as [p now|p target st now]; simpl.
  - destruct (Start_effect p now r) as [->|(-> & Hs)]; [done|].
    destruct Hi as [Hd Hr Hst Hc Hw Hdl Hp]. split; simpl; try done.
    + intros t s Hts. left. by apply (Hr Hs t).
    + split; [done|]. intros Hall. destruct (some_target r Hd) as [s E].
      pose proof (Hr Hs _ _ E) as ->. by destruct (not_pending_terminal _ (Hall _ _ E)).
    + tauto.
  - destruct (CompleteTarget_effect p target st now r) as [->|(Ht & Hterm & Hs & Hz & ->)]; [done|].
    destruct Hi as [Hd Hr Hst Hc Hw Hdl Hp].
    assert (dom (targets (decided p target st now r)) = list_to_set allPurgeTargets) as Hd'.
    { rewrite <- Hd. apply dom_insert_lookup_L. by eexists. }
    assert (forall t s, targets (decided p target st now r) !! t = Some s ->
      s = PurgeTargetPending ∨ terminal s ∧ journaled (decided p target st now r) t s) as Hst'
      by (intros t s; apply decided_status; done).
    destruct (allTargetsTerminalLocked _) eqn:Hall.
    + apply bool_decide_eq_true in Hall. split; simpl; try done.
      * intros t s Hts. destruct (Hst' t s Hts) as [->|[? Hj]]; [by destruct (Hall t _ Hts)|].
        right. split; [done|]. by apply journaled_append.
      * split; [|done]. intros _ t s Hts. destruct (Hst' t s Hts) as [->|[? ?]]; [|done].
        by destruct (Hall t _ Hts).
      * intros _. eexists. rewrite last_snoc. done.
      * tauto.
    + apply bool_decide_eq_false in Hall. split; try done; simpl.
      * by rewrite Hs.
      * rewrite Hs. split; [done|]. intros Hterm'. destruct Hall. intros t s Hts.
        by apply not_pending_terminal, (Hterm' t).
      * by rewrite Hs.
Qed.

Definition requested (r0 : PurgeRequest) : Prop :=
  exists p eid why now, NewPurgeRequest p eid why now = Ok r0.

Lemma pending_spec t : pending_targets !! t = if decide (t ∈ allPurgeTargets)
  then Some PurgeTargetPending else None.
Proof.
  unfold pending_targets. simpl. case_decide as H.
  - unfold allPurgeTargets in H. rewrite !elem_of_cons in H.
    by destruct H as [->|[->|[->|[->|[->|?%elem_of_nil]]]]].
  - unfold allPurgeTargets in H. rewrite !elem_of_cons in H.
    rewrite !lookup_insert_ne by (intros <-; tauto). done.
Qed.

Lemma requested_inv r0 : requested r0 -> purge_inv r0.
Proof.
  intros (p & eid & why & now & H). unfold NewPurgeRequest, wrap in H.
  destruct (RequireScope p ScopeModerationReview) as [[]|]; [|done].
  destruct (InstanceID_Validate eid) as [[]|]; [|done].
  destruct (PurgeReason_validate why) as [[]|]; [|done]. cbn [mbind result_bind] in H.
  destruct (err_if _ _) as [[]|]; [|done]. injection H as <-.
  assert (forall t st, pending_targets !! t = Some st -> st = PurgeTargetPending) as Hp.
  { intros t st. rewrite pending_spec. case_decide; [by intros [= <-]|done]. }
  split; try done; cbn [targets status appendEventLocked].
  - intros t st Ht. left. by apply (Hp t).
  - split; [done|]. intros Hall. assert (pending_targets !! PurgeCDN = Some PurgeTargetPending) as E by done.
    by destruct (not_pending_terminal _ (Hall _ _ E)).
  - by left.
Qed.

Lemma purge_run_inv ops r : purge_inv r -> purge_inv (run ops r).
Proof.
  intros Hr. unfold run. induction ops as [|op ops IH] using rev_ind; [done|].
  rewrite foldl_snoc. by apply purge_step_inv.
Qed.

(** A purge is complete exactly when it is done: over any sequence of
    calls on a request, the targets are the five active stores; the request
    is completed if and only if every one of them is purged or not
    applicable; each such decision is in the journal; and completion is the
    last entry of the journal, at the recorded time. *)
Theorem purge_completed_iff_every_target_decided r0 ops (H0 : requested r0) :
  let r := run ops r0 in
  dom (targets r) = list_to_set allPurgeTargets ∧
  (status r = PurgeCompleted <-> forall t, t ∈ allPurgeTargets ->
     exists st, targets r !! t = Some st ∧ terminal st ∧ journaled r t st) ∧
  (status r = PurgeCompleted -> exists e, last (events r) = Some e ∧ Action e = "completed" ∧
     At e = completedAt r ∧ ~ IsZero (completedAt r)) ∧
  deadline r = requestedAt r + ActiveStorePurgeTarget.
Proof.
  intros r. destruct (purge_run_inv ops r0 (requested_inv r0 H0)) as [Hd _ Hst Hc Hw Hdl _].
  fold r in Hd, Hst, Hc, Hw, Hdl. split_and!; try done. rewrite Hc. split.
  - intros Hall t Ht. apply (elem_of_list_to_set (C := gset PurgeTarget)) in Ht.
    rewrite <- Hd in Ht. apply elem_of_dom in Ht as [st Ht].
    exists st. split; [done|]. pose proof (Hall t st Ht) as Hterm. split; [done|].
    destruct (Hst t st Ht) as [->|[_ ?]]; [by destruct (not_pending_terminal _ Hterm)|done].
  - intros Hall t st Ht. pose proof (elem_of_dom_2 _ _ _ Ht) as Hin. rewrite Hd in Hin.
    apply elem_of_list_to_set in Hin.
    destruct (Hall t Hin) as (st' & E & ? & _). rewrite Ht in E. by injection E as <-.
Qed.

(** A decision is final: once a target is purged or not applicable no
    later call changes it, and a completed request never changes at all. *)
Theorem purge_decisions_are_final r0 ops ops' t st
    (H0 : requested r0) (Hterm : terminal st) (Ht : targets (run ops r0) !! t = Some st) :
  targets (run ops' (run ops r0)) !! t = Some st ∧
  (status (run ops r0) = PurgeCompleted -> run ops' (run ops r0) = run ops r0).
Proof.
  pose proof (purge_run_inv ops r0 (requested_inv r0 H0)) as Hi.
  revert Hi Ht. generalize (run ops r0). intros r Hi Ht. split.
  - unfold run. induction ops' as [|op ops' IH] using rev_ind; [done|]. rewrite foldl_snoc.
    destruct op as [p now|p target s now]; simpl.
    + destruct (Start_effect p now (foldl (fun r op => (apply op r).2) r ops')) as [->|(-> & _)]; done.
    + destruct (CompleteTarget_effect p target s now (foldl (fun r op => (apply op r).2) r ops'))
        as [->|(Hp & _ & _ & _ & ->)]; [done|].
      assert (target <> t) as Hne.
      { intros ->. rewrite IH in Hp. injection Hp as ->. by apply not_pending_terminal in Hterm. }
      destruct (allTargetsTerminalLocked _); simpl; by rewrite lookup_insert_ne.
  - intros Hs. unfold run. induction ops' as [|op ops' IH] using rev_ind; [done|].
    rewrite foldl_snoc, IH. destruct op as [p now|p target s now]; simpl.
    + by destruct (Start_effect p now r) as [->|(_ & E)]; [|rewrite Hs in E].
    + by destruct (CompleteTarget_effect p target s now r) as [->|(_ & _ & E & _)];
        [|rewrite Hs in E].
Qed.

(** ** A concrete request *)
Definition mod_ : Principal := mkPrincipal "mod" {[ScopeModerationReview]}.
Definition sample_request : PurgeRequest :=
  match NewPurgeRequest mod_ "01890000-0000-7000-8000-000000000000" PurgePII 50 with
  | Ok r => r
  | Err _ => mkPurgeRequest "" "" "" 0 0 0 ∅ []
  end.
Definition purge_ops : list Operation :=
  OpStart mod_ 60 :: ((fun t => OpComplete mod_ t PurgeTargetPurged 70) <$> allPurgeTargets).

Lemma sample_requested : requested sample_request.
Proof.
  exists mod_, "01890000-0000-7000-8000-000000000000", PurgePII, 50. vm_compute. reflexivity.
Defined.

Lemma purge_completed_iff_every_target_decided_witness :
  let r := run purge_ops sample_request in
  status r = PurgeCompleted ∧
  dom (targets r) = list_to_set allPurgeTargets ∧
  (status r = PurgeCompleted <-> forall t, t ∈ allPurgeTargets ->
     exists st, targets r !! t = Some st ∧ terminal st ∧ journaled r t st) ∧
  (status r = PurgeCompleted -> exists e, last (events r) = Some e ∧ Action e = "completed" ∧
     At e = completedAt r ∧ ~ IsZero (completedAt r)) ∧
  deadline r = requestedAt r + ActiveStorePurgeTarget.
Proof.
  intros r. split; [vm_compute; reflexivity|].
  apply (purge_completed_iff_every_target_decided sample_request purge_ops sample_requested).
Defined.

Lemma purge_decisions_are_final_witness :
  let ops := [OpStart mod_ 60; OpComplete mod_ PurgeCDN PurgeTargetPurged 70] in
  let ops' := [OpComplete mod_ PurgeCDN PurgeTargetNotApplicable 80] in
  targets (run ops' (run ops sample_request)) !! PurgeCDN = Some PurgeTargetPurged ∧
  (status (run ops sample_request) = PurgeCompleted ->
   run ops' (run ops sample_request) = run ops sample_request).
Proof.
  apply (purge_decisions_are_final sample_request
    [OpStart mod_ 60; OpComplete mod_ PurgeCDN PurgeTargetPurged 70]
    [OpComplete mod_ PurgeCDN PurgeTargetNotApplicable 80] PurgeCDN PurgeTargetPurged
    sample_requested); [by left|vm_compute; reflexivity].
Defined.
