(* ===== verification/RateLimit.v ===== *)
(** * internal/registry/httpapi/ratelimit.go: the fixed-window limiter *)
From Stdlib Require Import ZArith Ascii String Lia.
From stdpp Require Import base gmap sets list strings.
From S2P Require Import Prelude.
Local Open Scope Z_scope.
Local Open Scope string_scope.
Local Open Scope list_scope.

Record rateWindow := mkRateWindow { started : Time; count : Z }.

Record fixedWindowLimiter := mkLimiter {
  limit : Z;
  window : Z;
  entries : gmap string rateWindow
}.

Definition newFixedWindowLimiter (limit window : Z) : fixedWindowLimiter :=
  mkLimiter limit window ∅.

Definition max_entries : nat := 4096.

(** A missing entry reads as the zero value. *)
Definition entry_of (m : gmap string rateWindow) (key : string) : rateWindow :=
  default (mkRateWindow 0 0) (m !! key).

(** The loop that deletes while ranging over the map visits each entry once,
    so its order does not matter. *)
Definition evict (w : Z) (now : Time) (m : gmap string rateWindow) : gmap string rateWindow :=
  filter (fun kv => ¬ time_Sub now (started kv.2) >= w) m.

Definition bucket (l : fixedWindowLimiter) (key : string) : string :=
  if decide (entries l !! key = None ∧ (max_entries <= size (entries l))%nat)
  then "overflow" else key.

(** The call as the caller sees it: whether to proceed, the remaining budget
    and the time until the window closes. *)
Definition allow (key : string) (now : Time) (l : fixedWindowLimiter)
    : (bool * Z * Z) * fixedWindowLimiter :=
  if decide (limit l <= 0) then ((true, 0, 0), l)
  else
    let key := bucket l key in
    let entry := entry_of (entries l) key in
    let entry :=
      if decide (IsZero (started entry) ∨ time_Sub now (started entry) >= window l ∨
                 Before now (started entry))
      then mkRateWindow now 0 else entry in
    let entry := mkRateWindow (started entry) (int64_wrap (count entry + 1)) in
    let m := <[key := entry]> (entries l) in
    let m := if decide (max_entries < size m)%nat then evict (window l) now m else m in
    let remaining := Z.max (int64_wrap (limit l - count entry)) 0 in
    let retry := time_Sub (time_Add (started entry) (window l)) now in
    ((bool_decide (count entry <= limit l), remaining, retry), mkLimiter (limit l) (window l) m).

(** Serving a sequence of requests, keeping the decisions. *)
Fixpoint serve (calls : list (string * Time)) (l : fixedWindowLimiter)
    : list bool * fixedWindowLimiter :=
  match calls with
  | [] => ([], l)
  | (key, now) :: calls' =>
      let '((ok, _, _), l1) := allow key now l in
      let '(oks, l2) := serve calls' l1 in
      (ok :: oks, l2)
  end.

(** ** Bounded memory *)
Lemma size_delete_insert (m : gmap string rateWindow) k e :
  (size (delete "overflow" (<[k := e]> m)) <=
   size (delete "overflow" m) + (if decide (k = "overflow" ∨ is_Some (m !! k)) then 0 else 1))%nat.
Proof.
  destruct (decide (k = "overflow")) as [->|Hk].
  - rewrite delete_insert_eq, decide_True by auto. lia.
  - rewrite delete_insert_ne by done. destruct (m !! k) eqn:E.
    + rewrite decide_True by (right; by eexists). rewrite map_size_insert_Some; [lia|].
      rewrite lookup_delete_ne by done. by eexists.
    + rewrite decide_False by (intros [?|[? ?]]; done).
      rewrite map_size_insert_None; [lia|]. by rewrite lookup_delete_ne.
Qed.

Definition bounded (l : fixedWindowLimiter) : Prop :=
  (size (delete "overflow" (entries l)) <= max_entries)%nat.

Lemma bounded_size l : bounded l -> (size (entries l) <= S max_entries)%nat.
Proof.
  unfold bounded. destruct (entries l !! "overflow") eqn:E.
  - rewrite map_size_delete_Some by (by eexists). lia.
  - rewrite delete_id by done. lia.
Qed.

Lemma evict_subseteq w now m : evict w now m ⊆ m.
Proof. apply map_filter_subseteq. Qed.

Lemma allow_bounded key now l : bounded l -> bounded (allow key now l).2.
Proof.
  unfold allow, bounded. case_decide; [done|]. cbn [snd entries]. intros Hb.
  set (k := bucket l key). set (e := mkRateWindow _ _).
  assert (size (delete "overflow" (<[k := e]> (entries l))) <= max_entries)%nat as Hi.
  { pose proof (size_delete_insert (entries l) k e) as Hs. case_decide as D; [lia|].
    unfold k, bucket in D. case_decide as B; [exfalso; tauto|].
    assert (entries l !! key = None) as E by (destruct (entries l !! key); [exfalso; eauto|done]).
    assert (size (entries l) < max_entries)%nat by (apply Nat.nle_gt; tauto).
    assert (size (delete "overflow" (entries l)) <= size (entries l))%nat
      by (apply map_subseteq_size, delete_subseteq).
    lia. }
  case_decide; [|done]. etrans; [|exact Hi]. apply map_subseteq_size.
  apply map_subseteq_spec. intros i x. rewrite !lookup_delete_Some. intros [? Hx].
  split; [done|]. eapply lookup_weaken; [exact Hx|apply evict_subseteq].
Qed.

Lemma serve_bounded calls l : bounded l -> bounded (serve calls l).2.
Proof.
  revert l. induction calls as [|[key now] calls IH]; intros l Hb; cbn [serve]; [done|].
  pose proof (allow_bounded key now l Hb) as H.
  destruct (allow key now l) as [[[ok rem] retry] l1]. specialize (IH l1 H).
  by destruct (serve calls l1).
Qed.

(** The limiter's memory is bounded whatever the clients send: after
    any sequence of requests, from any keys at any times, it holds at most
    4096 client windows and the shared overflow window. *)
Theorem limiter_memory_is_bounded lim w calls :
  (size (entries (serve calls (newFixedWindowLimiter lim w)).2) <= 4097)%nat.
Proof.
  apply (bounded_size _), serve_bounded. unfold bounded, newFixedWindowLimiter. cbn [entries].
  rewrite delete_empty, map_size_empty. unfold max_entries. lia.
Qed.

(** ** One window *)

(** The decisions on the requests of one key. *)
Definition decisions (key : string) (calls : list (string * Time)) (oks : list bool) : list bool :=
  snd <$> filter (fun x => x.1.1 = key) (zip calls oks).
Definition allowed (oks : list bool) : Z := Z.of_nat (length (filter (fun b => b = true) oks)).

(** The key has a window open since [t0] with [c] requests counted. *)
Definition open_since (key : string) (t0 : Time) (c : Z) (l : fixedWindowLimiter) : Prop :=
  entries l !! key = Some (mkRateWindow t0 c).

Definition inside (t0 w t : Z) : Prop := t0 <= t ∧ t - t0 < w.

Lemma inside_sub t0 w t :
  inside t0 w t -> 0 < w <= int64_max -> ~ time_Sub t t0 >= w ∧ ~ Before t t0.
Proof. unfold inside, time_Sub, Before, int64_min. intros [? ?] ?. lia. Qed.

Lemma kept_by_eviction (m : gmap string rateWindow) key t0 c w t :
  m !! key = Some (mkRateWindow t0 c) -> ~ time_Sub t t0 >= w ->
  (if decide (max_entries < size m)%nat then evict w t m else m) !! key = Some (mkRateWindow t0 c).
Proof.
  intros Hm Ht. case_decide; [|done]. unfold evict. by apply map_lookup_filter_Some.
Qed.

Lemma allow_same key t0 c t l :
  open_since key t0 c l -> inside t0 (window l) t -> 0 < limit l -> 0 < window l <= int64_max ->
  ~ IsZero t0 -> 0 <= c < int64_max ->
  (allow key t l).1.1.1 = bool_decide (c + 1 <= limit l) ∧
  open_since key t0 (c + 1) (allow key t l).2 ∧
  limit (allow key t l).2 = limit l ∧ window (allow key t l).2 = window l.
Proof.
  intros Ho Hin Hl Hw Hz Hc. destruct (inside_sub _ _ _ Hin Hw) as [Hs Hb].
  unfold allow. rewrite decide_False by lia. cbn zeta.
  assert (bucket l key = key) as ->.
  { unfold bucket. rewrite decide_False; [done|]. rewrite Ho. by intros [? _]. }
  unfold entry_of. rewrite Ho. cbn [default id started count].
  rewrite decide_False by (intros [?|[?|?]]; done). cbn [id started count].
  rewrite (int64_wrap_id (c + 1)) by (unfold int64_range, int64_min, int64_max in *; lia).
  cbn [fst snd limit window]. split_and!; try done.
  unfold open_since. cbn [entries]. apply kept_by_eviction; [apply lookup_insert_eq|done].
Qed.

Lemma allow_other key key' t0 c t l :
  open_since key t0 c l -> inside t0 (window l) t -> 0 < window l <= int64_max ->
  key' <> key -> key <> "overflow" ->
  open_since key t0 c (allow key' t l).2 ∧
  limit (allow key' t l).2 = limit l ∧ window (allow key' t l).2 = window l.
Proof.
  intros Ho Hin Hw Hk Hov. destruct (inside_sub _ _ _ Hin Hw) as [Hs Hb].
  unfold allow. case_decide; [done|]. cbn [fst snd limit window]. split_and!; try done.
  unfold open_since. cbn [entries]. apply kept_by_eviction; [|done].
  rewrite lookup_insert_ne; [exact Ho|]. unfold bucket. case_decide; congruence.
Qed.

Lemma serve_window key t0 calls : forall c l,
  open_since key t0 c l -> Forall (fun x => inside t0 (window l) x.2) calls ->
  0 < limit l -> 0 < window l <= int64_max -> ~ IsZero t0 -> key <> "overflow" ->
  0 <= c -> c + Z.of_nat (length calls) < int64_max ->
  let ds := decisions key calls (serve calls l).1 in
  allowed ds = Z.min (Z.of_nat (length ds)) (Z.max 0 (limit l - c)).
Proof.
  induction calls as [|[k t] calls IH]; intros c l Ho Hin Hl Hw Hz Hov Hc Hlen.
  { unfold decisions, allowed. simpl. lia. }
  apply Forall_cons in Hin as [Ht Hin]. simpl in Ht, Hlen. cbn [serve].
  destruct (decide (k = key)) as [->|Hk].
  - destruct (allow_same key t0 c t l Ho Ht Hl Hw Hz ltac:(lia)) as (E1 & Ho' & E2 & E3).
    destruct (allow key t l) as [[[ok rem] retry] l1]. simpl in E1, Ho', E2, E3. subst ok.
    assert (Forall (fun x => inside t0 (window l1) x.2) calls) as Hin1 by (by rewrite E3).
    assert (0 < window l1 <= int64_max) as Hw1 by (by rewrite E3).
    specialize (IH (c + 1) l1 Ho' Hin1 ltac:(lia) Hw1 Hz Hov ltac:(lia) ltac:(lia)).
    rewrite E2 in IH. destruct (serve calls l1) as [oks l2]. simpl in *.
    unfold decisions, allowed in *. simpl. rewrite filter_cons_True by done. cbn [fmap list_fmap snd].
    rewrite filter_cons. cbn [length].
    case_bool_decide; simpl; lia.
  - destruct (allow_other key k t0 c t l Ho Ht Hw Hk Hov) as (Ho' & E2 & E3).
    destruct (allow k t l) as [[[ok rem] retry] l1]. simpl in Ho', E2, E3.
    assert (Forall (fun x => inside t0 (window l1) x.2) calls) as Hin1 by (by rewrite E3).
    assert (0 < window l1 <= int64_max) as Hw1 by (by rewrite E3).
    specialize (IH c l1 Ho' Hin1 ltac:(lia) Hw1 Hz Hov Hc ltac:(lia)).
    rewrite E2 in IH. destruct (serve calls l1) as [oks l2]. simpl in *.
    unfold decisions in *. simpl. by rewrite filter_cons_False.
Qed.


(** The first request of a key opens a window. *)
Definition opens (key : string) (t0 : Time) (l : fixedWindowLimiter) : Prop :=
  bucket l key = key ∧
  match entries l !! key with
  | None => True
  | Some e => IsZero (started e) ∨ time_Sub t0 (started e) >= window l ∨ Before t0 (started e)
  end.

Lemma allow_opens key t0 l :
  opens key t0 l -> 0 < limit l -> 0 < window l <= int64_max ->
  (allow key t0 l).1.1.1 = bool_decide (1 <= limit l) ∧
  open_since key t0 1 (allow key t0 l).2 ∧
  limit (allow key t0 l).2 = limit l ∧ window (allow key t0 l).2 = window l.
Proof.
  intros [Hb Hm] Hl Hw. unfold allow. rewrite decide_False by lia. rewrite Hb. cbn zeta.
  rewrite decide_True.
  - cbn [started count fst snd limit window]. change (int64_wrap (0 + 1)) with 1.
    split_and!; try done. unfold open_since. cbn [entries].
    apply kept_by_eviction; [apply lookup_insert_eq|]. unfold time_Sub, int64_min. lia.
  - unfold entry_of. destruct (entries l !! key); [done|]. by left.
Qed.

(** A window admits the limit and no more: from the request of a key
    that opens its window, over all requests that any clients make before the
    window ends, in any order, exactly the first [limit] requests of that
    key are allowed. *)
Theorem window_admits_exactly_the_limit key t0 calls l
    (Hopen : opens key t0 l) (Hlim : 0 < limit l) (Hwin : 0 < window l <= int64_max)
    (Ht0 : ~ IsZero t0) (Hkey : key <> "overflow")
    (Hin : Forall (fun x => inside t0 (window l) x.2) calls)
    (Hlen : Z.of_nat (length calls) + 1 < int64_max) :
  let all := (key, t0) :: calls in
  let ds := decisions key all (serve all l).1 in
  allowed ds = Z.min (Z.of_nat (length ds)) (limit l).
Proof.
  destruct (allow_opens key t0 l Hopen Hlim Hwin) as (E1 & Ho & E2 & E3). cbn zeta. cbn [serve].
  destruct (allow key t0 l) as [[[ok rem] retry] l1]. simpl in E1, Ho, E2, E3. subst ok.
  assert (Forall (fun x => inside t0 (window l1) x.2) calls) as Hin1 by (by rewrite E3).
  assert (0 < window l1 <= int64_max) as Hw1 by (by rewrite E3).
  pose proof (serve_window key t0 calls 1 l1 Ho Hin1 ltac:(lia) Hw1 Ht0 Hkey ltac:(lia) ltac:(lia))
    as H. rewrite E2 in H. destruct (serve calls l1) as [oks l2]. simpl in H |- *.
  unfold decisions, allowed in *. simpl. rewrite filter_cons_True by done.
  cbn [fmap list_fmap snd]. rewrite filter_cons. cbn [length].
  rewrite bool_decide_eq_true_2 by lia. simpl. lia.
Qed.

Lemma window_admits_exactly_the_limit_witness :
  let l := newFixedWindowLimiter 2 100 in
  let all := [("a", 10); ("a", 20); ("b", 30); ("a", 40)] in
  let ds := decisions "a" all (serve all l).1 in
  ds = [true; true; false] ∧ allowed ds = Z.min (Z.of_nat (length ds)) (limit l).
Proof.
  intros l all ds. split; [vm_compute; reflexivity|].
  apply (window_admits_exactly_the_limit "a" 10 [("a", 20); ("b", 30); ("a", 40)] l).
  - split; [vm_compute; reflexivity|]. exact I.
  - reflexivity.
  - split; vm_compute; [reflexivity|discriminate].
  - discriminate.
  - discriminate.
  - repeat constructor; vm_compute; congruence.
  - vm_compute. reflexivity.
Defined.
