(* ===== verification/Observation.v ===== *)
(** * registry/api/observation.go: content-addressed observations

    [encoding/json] at the types of this file is the class
    [ObservationCodec].  A slice is cloned where it crosses the API, so no
    two observations share one; lists are values here. *)
From Stdlib Require Import ZArith Ascii String Lia.
From stdpp Require Import base gmap sets list strings.
From S2P Require Import Prelude Schema Canonical CanonicalSpec Documents DocumentsSpec.
Local Open Scope Z_scope.
Local Open Scope string_scope.
Local Open Scope list_scope.

Definition ObservationSchemaV1 : string := "urn:agentapi-doctor:observation:v1".

(** ** Canonical objects *)
Record CanonicalObject := mkCanonicalObject { canonical : list ascii }.
#[export] Instance CanonicalObject_eq_dec : EqDecision CanonicalObject.
Proof. solve_decision. Defined.

Definition CanonicalObject_IsZero (object : CanonicalObject) : bool :=
  bool_decide (length (canonical object) = 0%nat).

Definition CanonicalObject_Equal (object other : CanonicalObject) : bool :=
  bool_decide (canonical object = canonical other).

Definition CanonicalObject_MarshalJSON (object : CanonicalObject) : result error (list ascii) :=
  err_if (CanonicalObject_IsZero object = true)
    (ErrorNew (Text "canonical JSON object is required"));;
  mret (canonical object).

Record ObservationProjection := mkObservationProjection {
  opSchemaVersion : string;
  opSubject : CanonicalObject;
  opTest : CanonicalObject;
  opEnvironment : CanonicalObject;
  opResult : CanonicalObject;
  opManifestDigest : Digest
}.

Record AttestationReference := mkAttestationReference {
  attDigest : Digest;
  attURI : string
}.

Definition Freshness := string.
Definition FreshnessUnknown : Freshness := "unknown".
Definition FreshnessFresh : Freshness := "fresh".
Definition FreshnessStale : Freshness := "stale".

Record RegistryDerived := mkRegistryDerived {
  TrustLabels : list string;
  Freshness_ : Freshness;
  PublishedAt : option Time;
  DisputeIDs : list string;
  SupersededBy : Digest;
  Tombstoned : bool
}.

Record Observation := mkObservation {
  obID : Digest;
  obClassID : Digest;
  obProjection : ObservationProjection;
  obAttestations : list AttestationReference;
  obDerived : RegistryDerived
}.

Record observationWire := mkObservationWire {
  wSchemaVersion : string;
  wObservationID : Digest;
  wObservationClassID : Digest;
  wSubject : CanonicalObject;
  wTest : CanonicalObject;
  wEnvironment : CanonicalObject;
  wResult : CanonicalObject;
  wManifestDigest : Digest;
  wProvenance : list AttestationReference;
  wRegistryDerived : RegistryDerived
}.

Class ObservationCodec := {
  observation_json :: JSONLibrary;
  marshal_projection : ObservationProjection -> result error (list ascii);
  marshal_wire : observationWire -> result error (list ascii);
  unmarshal_wire : list ascii -> result error observationWire
}.

(** ** Validation *)

(** [strings.ContainsAny(s, "\r\n\x00")]. *)
Definition has_line_control (s : string) : bool :=
  string_any (fun c => (is_byte 13 c || is_byte 10 c || is_byte 0 c)%bool) s.

Definition AttestationReference_validate (reference : AttestationReference) : result error unit :=
  wrap (Wrapf (Text "attestation digest: %w")) (Digest_Validate (attDigest reference));;
  err_if (has_line_control (attURI reference) = true)
    (ErrorNew (Text "attestation URI contains a control character")).

Definition unique_check (kind value : string) : GoM (gset string) error unit :=
  fail_if (TrimSpace value = "") (ErrorNew (Sprintf "%s cannot be empty" [FStr kind]));;
  seen ← get;
  fail_if (value ∈ seen) (ErrorNew (Sprintf "duplicate %s %q" [FStr kind; FStr value]));;
  put ({[value]} ∪ seen).

Definition validateUniqueNonempty (kind : string) (values : list string) : result error unit :=
  (for_eachM (unique_check kind) values ∅).1.

Definition RegistryDerived_validate (derived : RegistryDerived) : result error unit :=
  err_if (Freshness_ derived ∉ [""; FreshnessUnknown; FreshnessFresh; FreshnessStale])
    (ErrorNew (Sprintf "invalid freshness %q" [FStr (Freshness_ derived)]));;
  match PublishedAt derived with
  | Some t => err_if (IsZero t) (ErrorNew (Text "published_at cannot be zero"))
  | None => mret tt
  end;;
  (if decide (SupersededBy derived ≠ "")
   then wrap (Wrapf (Text "superseded_by: %w")) (Digest_Validate (SupersededBy derived))
   else mret tt);;
  validateUniqueNonempty "trust label" (TrustLabels derived);;
  validateUniqueNonempty "dispute ID" (DisputeIDs derived).

Definition attestation_check (reference : AttestationReference) : GoM (gset Digest) error unit :=
  lift (AttestationReference_validate reference);;
  seen ← get;
  fail_if (attDigest reference ∈ seen)
    (ErrorNew (Sprintf "duplicate attestation %s" [FStr (attDigest reference)]));;
  put ({[attDigest reference]} ∪ seen).

Section Observation.
Context {codec : ObservationCodec} {ro : RangeOrder string CanonicalObject}.

Definition ParseCanonicalObject (raw : list ascii) : result error CanonicalObject :=
  c ← CanonicalizeJSON raw;
  err_if (head c ≠ Some "{"%char) (ErrorNew (Text "observation section must be a JSON object"));;
  mret (mkCanonicalObject c).

(** The receiver is not nil. *)
Definition CanonicalObject_UnmarshalJSON (raw : list ascii) : GoM CanonicalObject error unit :=
  parsed ← lift (ParseCanonicalObject raw);
  put parsed.

Definition ObservationProjection_Validate (projection : ObservationProjection) : result error unit :=
  err_if (opSchemaVersion projection ≠ ObservationSchemaV1)
    (ErrorNew (Sprintf "unsupported observation schema %q" [FStr (opSchemaVersion projection)]));;
  for_each (fun '(name, object) =>
    err_if (CanonicalObject_IsZero object = true) (ErrorNew (Sprintf "%s is required" [FStr name])))
    (range (list_to_map [("subject", opSubject projection); ("test", opTest projection);
              ("environment", opEnvironment projection); ("result", opResult projection)]
              : gmap string CanonicalObject));;
  wrap (Wrapf (Text "manifest digest: %w")) (Digest_Validate (opManifestDigest projection)).

Definition ObservationProjection_Digest (projection : ObservationProjection) : result error Digest :=
  ObservationProjection_Validate projection;;
  CanonicalDigest marshal_projection projection.

Definition Observation_Validate (observation : Observation) : result error unit :=
  wrap (Wrapf (Text "observation class ID: %w")) (Digest_Validate (obClassID observation));;
  want ← ObservationProjection_Digest (obProjection observation);
  err_if (obID observation ≠ want)
    (ErrorNew (Sprintf "observation ID mismatch: got %s, want %s" [FStr (obID observation); FStr want]));;
  (for_eachM attestation_check (obAttestations observation) ∅).1;;
  RegistryDerived_validate (obDerived observation).

Definition NewObservation (projection : ObservationProjection) (classID : Digest)
    (attestations : list AttestationReference) (derived : RegistryDerived) : result error Observation :=
  id ← ObservationProjection_Digest projection;
  let observation := mkObservation id classID projection attestations derived in
  Observation_Validate observation;;
  mret observation.

Definition WithAttestation (observation : Observation) (reference : AttestationReference)
    : result error Observation :=
  NewObservation (obProjection observation) (obClassID observation)
    (obAttestations observation ++ [reference]) (obDerived observation).

Definition WithRegistryDerived (observation : Observation) (derived : RegistryDerived)
    : result error Observation :=
  NewObservation (obProjection observation) (obClassID observation) (obAttestations observation)
    derived.

(** ** JSON *)
Definition wire_of (o : Observation) : observationWire :=
  let p := obProjection o in
  mkObservationWire (opSchemaVersion p) (obID o) (obClassID o) (opSubject p) (opTest p)
    (opEnvironment p) (opResult p) (opManifestDigest p) (obAttestations o) (obDerived o).

Definition Observation_MarshalJSON (observation : Observation) : result error (list ascii) :=
  Observation_Validate observation;;
  marshal_wire (wire_of observation).

(** The receiver is not nil. *)
Definition Observation_UnmarshalJSON (raw : list ascii) : GoM Observation error unit :=
  c ← lift (wrap (Wrapf (Text "validate observation JSON: %w")) (CanonicalizeJSON raw));
  wire ← lift (unmarshal_wire c);
  parsed ← lift (NewObservation
    (mkObservationProjection (wSchemaVersion wire) (wSubject wire) (wTest wire) (wEnvironment wire)
       (wResult wire) (wManifestDigest wire))
    (wObservationClassID wire) (wProvenance wire) (wRegistryDerived wire));
  fail_if (wObservationID wire ≠ obID parsed)
    (ErrorNew (Sprintf "observation ID mismatch: got %s, want %s"
                 [FStr (wObservationID wire); FStr (obID parsed)]));;
  put parsed.

(** ** What an observation guarantees *)
Lemma NewObservation_ok p c a d o :
  NewObservation p c a d = Ok o <->
  Observation_Validate o = Ok tt ∧ ObservationProjection_Digest p = Ok (obID o) ∧
  obProjection o = p ∧ obClassID o = c ∧ obAttestations o = a ∧ obDerived o = d.
Proof.
  unfold NewObservation. rewrite bind_Ok. split.
  - intros (id & Hd & H). apply bind_Ok in H as ([] & Hv & H). unfold mret, result_ret in H.
    simplify_eq. by split_and!.
  - intros (Hv & Hd & <- & <- & <- & <-). exists (obID o). split; [done|].
    apply bind_Ok. exists tt. by destruct o.
Qed.

Lemma Observation_Validate_digest o :
  Observation_Validate o = Ok tt -> ObservationProjection_Digest (obProjection o) = Ok (obID o).
Proof.
  unfold Observation_Validate. intros ([] & _ & H)%bind_Ok.
  apply bind_Ok in H as (want & Hw & H). apply bind_Ok in H as ([] & He & _).
  apply err_if_ok, dec_stable in He. by rewrite He.
Qed.

Lemma ObservationProjection_Digest_valid p d :
  ObservationProjection_Digest p = Ok d -> Digest_Validate d = Ok tt.
Proof.
  unfold ObservationProjection_Digest. intros ([] & _ & H)%bind_Ok.
  unfold CanonicalDigest in H. apply bind_Ok in H as (c & _ & H). unfold mret, result_ret in H.
  assert (d = NewDigest c) as -> by congruence. apply NewDigest_valid.
Qed.

(** The identity of an observation is the digest of its projection and
    nothing else: attestations and derived metadata may be added, but a
    successful [WithAttestation] or [WithRegistryDerived] keeps the
    identifier, the class and the projection, loses no attestation, and
    gives an observation that validates; and an observation decoded from
    JSON carries the digest of what it contains. *)
Theorem observation_identity_is_content o reference derived raw
    (Ho : Observation_Validate o = Ok tt) :
  (forall o', WithAttestation o reference = Ok o' ->
     Observation_Validate o' = Ok tt ∧ obID o' = obID o ∧ obProjection o' = obProjection o ∧
     obClassID o' = obClassID o ∧ obAttestations o' = obAttestations o ++ [reference] ∧
     obDerived o' = obDerived o) ∧
  (forall o', WithRegistryDerived o derived = Ok o' ->
     Observation_Validate o' = Ok tt ∧ obID o' = obID o ∧ obProjection o' = obProjection o ∧
     obClassID o' = obClassID o ∧ obAttestations o' = obAttestations o ∧ obDerived o' = derived) ∧
  (forall o', Observation_UnmarshalJSON raw o = (Ok tt, o') ->
     Observation_Validate o' = Ok tt ∧
     ObservationProjection_Digest (obProjection o') = Ok (obID o')) ∧
  (forall e o', Observation_UnmarshalJSON raw o = (Err e, o') -> o' = o).
Proof.
  pose proof (Observation_Validate_digest o Ho) as Hid. split_and!.
  - intros o' (Hv & Hd & Hp & Hc & Ha & Hr)%NewObservation_ok.
    assert (obID o' = obID o) as -> by congruence. by split_and!.
  - intros o' (Hv & Hd & Hp & Hc & Ha & Hr)%NewObservation_ok.
    assert (obID o' = obID o) as -> by congruence. by split_and!.
  - intros o' H. unfold Observation_UnmarshalJSON in H. go_unfold.
    go_cases. match goal with E : NewObservation _ _ _ _ = Ok _ |- _ =>
      apply NewObservation_ok in E as (? & ? & ? & _) end.
    split; [done|]. by apply Observation_Validate_digest.
  - intros e o' H. unfold Observation_UnmarshalJSON in H. go_unfold. go_cases.
Qed.

(** Observations survive their JSON: when encoding/json and the
    canonical form reproduce the wire document of an observation, decoding
    what [MarshalJSON] wrote gives back the very same observation, whatever
    the receiver held. *)
Theorem observation_json_roundtrip o raw c receiver
    (Hmarshal : Observation_MarshalJSON o = Ok raw)
    (Hcanonical : CanonicalizeJSON raw = Ok c)
    (Hdecode : unmarshal_wire c = Ok (wire_of o)) :
  Observation_UnmarshalJSON raw receiver = (Ok tt, o).
Proof.
  unfold Observation_MarshalJSON in Hmarshal. apply bind_Ok in Hmarshal as ([] & Hv & _).
  unfold Observation_UnmarshalJSON. go_unfold. rewrite Hcanonical, Hdecode.
  assert (NewObservation (obProjection o) (obClassID o) (obAttestations o) (obDerived o) = Ok o) as Hn
    by (apply NewObservation_ok; split_and!; try done; by apply Observation_Validate_digest).
  destruct o as [id cid [sv su te en re md] at_ de]. cbn in Hn |- *. rewrite Hn.
  cbn. by case_decide.
Qed.
End Observation.

(** ** A concrete observation *)
#[local] Instance sample_json : JSONLibrary := {
  NewDecoder raw := mkDecoder [Scalar SNull] io_EOF false;
  jcs_Transform raw := Ok raw;
  Sum256 data := resize 32 "0"%char data;
  Sum256_length data := length_resize data 32 "0"%char
}.
Definition sample_digest : Digest :=
  "sha256:0123456789abcdef0123456789abcdef0123456789abcdef0123456789abcdef".
Definition sample_section (s : string) : CanonicalObject := mkCanonicalObject (list_ascii_of_string s).
Definition sample_derived : RegistryDerived := mkRegistryDerived ["verified"] FreshnessFresh None [] "" false.
Definition sample_wire : observationWire :=
  mkObservationWire ObservationSchemaV1 (NewDigest (list_ascii_of_string "{s}")) sample_digest
    (sample_section "{s}") (sample_section "{t}") (sample_section "{e}") (sample_section "{r}")
    sample_digest [mkAttestationReference sample_digest "https://example.test"] sample_derived.
#[local] Instance sample_codec : ObservationCodec := {
  marshal_projection p := Ok (canonical (opSubject p));
  marshal_wire w := Ok (list_ascii_of_string "wire");
  unmarshal_wire _ := Ok sample_wire
}.
Definition sample_observation : Observation :=
  mkObservation (wObservationID sample_wire) sample_digest
    (mkObservationProjection ObservationSchemaV1 (wSubject sample_wire) (wTest sample_wire)
       (wEnvironment sample_wire) (wResult sample_wire) sample_digest)
    (wProvenance sample_wire) sample_derived.

Lemma observation_identity_is_content_witness :
  exists o', WithAttestation sample_observation
      (mkAttestationReference (NewDigest []) "") = Ok o' ∧ obID o' = obID sample_observation.
Proof.
  destruct (observation_identity_is_content sample_observation
    (mkAttestationReference (NewDigest []) "") sample_derived []) as [H _];
    [vm_compute; reflexivity|].
  destruct (WithAttestation sample_observation (mkAttestationReference (NewDigest []) ""))
    as [o'|e] eqn:E; [|vm_compute in E; discriminate].
  exists o'. split; [reflexivity|]. apply (H o' eq_refl).
Defined.

Lemma observation_json_roundtrip_witness :
  Observation_UnmarshalJSON (list_ascii_of_string "wire")
    (mkObservation "" "" (obProjection sample_observation) [] sample_derived) =
  (Ok tt, sample_observation).
Proof.
  apply (observation_json_roundtrip sample_observation _ (list_ascii_of_string "wire")).
  - vm_compute. reflexivity.
  - vm_compute. reflexivity.
  - vm_compute. reflexivity.
Defined.
