(* ===== verification/Base64.v ===== *)
(** * encoding/base64: RawURLEncoding and StdEncoding

    Encoding groups the bits of the input six at a time.  [DecodeString]
    skips CR and LF and rejects other bytes outside the alphabet.  Without
    padding a last group of one digit is rejected and left-over bits are
    ignored; the strict padded encoding wants whole groups of four, padding
    only at the end, and left-over bits that are zero. *)
From Stdlib Require Import ZArith Ascii String Lia.
From stdpp Require Import base list strings.
From S2P Require Import Prelude.
Local Open Scope string_scope.
Local Open Scope list_scope.

Definition letters : string := "ABCDEFGHIJKLMNOPQRSTUVWXYZabcdefghijklmnopqrstuvwxyz0123456789".
Definition urlAlphabet : list ascii := list_ascii_of_string (letters +:+ "-_").
Definition stdAlphabet : list ascii := list_ascii_of_string (letters +:+ "+/").
Definition pad : ascii := "=".

(** A digit, most significant bit first. *)
Definition sextet : Type := bool * bool * bool * bool * bool * bool.
Definition sextet_value (s : sextet) : nat :=
  let '(a, b, c, d, e, f) := s in
  let bit (x : bool) := if x then 1%nat else 0%nat in
  (32 * bit a + 16 * bit b + 8 * bit c + 4 * bit d + 2 * bit e + bit f)%nat.
Definition encode_digit (al : list ascii) (s : sextet) : ascii := nth (sextet_value s) al "A"%char.

Definition bools : list bool := [false; true].
Definition sextets : list sextet :=
  a ← bools; b ← bools; c ← bools; d ← bools; e ← bools; f ← bools; mret (a, b, c, d, e, f).
(** [decodeMap]. *)
Definition decode_digit (al : list ascii) (c : ascii) : option sextet :=
  snd <$> list_find (fun s => encode_digit al s = c) sextets.

(** The digits of a byte sequence. *)
Fixpoint digits_of (l : list ascii) : list sextet :=
  match l with
  | [] => []
  | [Ascii a0 a1 a2 a3 a4 a5 a6 a7] => [(a7, a6, a5, a4, a3, a2); (a1, a0, false, false, false, false)]
  | [Ascii a0 a1 a2 a3 a4 a5 a6 a7; Ascii b0 b1 b2 b3 b4 b5 b6 b7] =>
      [(a7, a6, a5, a4, a3, a2); (a1, a0, b7, b6, b5, b4); (b3, b2, b1, b0, false, false)]
  | Ascii a0 a1 a2 a3 a4 a5 a6 a7 :: Ascii b0 b1 b2 b3 b4 b5 b6 b7 ::
      Ascii c0 c1 c2 c3 c4 c5 c6 c7 :: rest =>
      (a7, a6, a5, a4, a3, a2) :: (a1, a0, b7, b6, b5, b4) ::
      (b3, b2, b1, b0, c7, c6) :: (c5, c4, c3, c2, c1, c0) :: digits_of rest
  end.

Definition corrupt : error := ErrorNew (Text "illegal base64 data at input byte").
Definition skip_newlines (l : list ascii) : list ascii :=
  filter (fun c => is_byte 10 c = false ∧ is_byte 13 c = false) l.

(** ** RawURLEncoding *)
Definition EncodeToString (l : list ascii) : list ascii := encode_digit urlAlphabet <$> digits_of l.

Fixpoint decode_quanta (l : list sextet) : result error (list ascii) :=
  match l with
  | [] => Ok []
  | [_] => Err corrupt
  | [(a7, a6, a5, a4, a3, a2); (a1, a0, _, _, _, _)] => Ok [Ascii a0 a1 a2 a3 a4 a5 a6 a7]
  | [(a7, a6, a5, a4, a3, a2); (a1, a0, b7, b6, b5, b4); (b3, b2, b1, b0, _, _)] =>
      Ok [Ascii a0 a1 a2 a3 a4 a5 a6 a7; Ascii b0 b1 b2 b3 b4 b5 b6 b7]
  | (a7, a6, a5, a4, a3, a2) :: (a1, a0, b7, b6, b5, b4) :: (b3, b2, b1, b0, c7, c6) ::
      (c5, c4, c3, c2, c1, c0) :: rest =>
      tail ← decode_quanta rest;
      mret (Ascii a0 a1 a2 a3 a4 a5 a6 a7 :: Ascii b0 b1 b2 b3 b4 b5 b6 b7 ::
            Ascii c0 c1 c2 c3 c4 c5 c6 c7 :: tail)
  end.

Definition DecodeString (l : list ascii) : result error (list ascii) :=
  match mapM (decode_digit urlAlphabet) (skip_newlines l) with
  | Some digits => decode_quanta digits
  | None => Err corrupt
  end.

(** ** StdEncoding, and StdEncoding.Strict() *)
Definition padding (l : list ascii) : list ascii :=
  match (length l `mod` 3)%nat with
  | 1%nat => [pad; pad]
  | 2%nat => [pad]
  | _ => []
  end.
Definition Std_EncodeToString (l : list ascii) : list ascii :=
  (encode_digit stdAlphabet <$> digits_of l) ++ padding l.

Fixpoint strict_quanta (l : list ascii) : result error (list ascii) :=
  match l with
  | [] => Ok []
  | w :: x :: y :: z :: rest =>
      match decode_digit stdAlphabet w, decode_digit stdAlphabet x,
            decode_digit stdAlphabet y, decode_digit stdAlphabet z with
      | Some a, Some b, Some c, Some d =>
          head ← decode_quanta [a; b; c; d];
          tail ← strict_quanta rest;
          mret (head ++ tail)
      | Some a, Some b, Some c, None =>
          if decide (z = pad ∧ rest = [] ∧ c.1.2 = false ∧ c.2 = false)
          then decode_quanta [a; b; c] else Err corrupt
      | Some a, Some b, None, _ =>
          if decide (y = pad ∧ z = pad ∧ rest = [] ∧
                     b.1.1.1.2 = false ∧ b.1.1.2 = false ∧ b.1.2 = false ∧ b.2 = false)
          then decode_quanta [a; b] else Err corrupt
      | _, _, _, _ => Err corrupt
      end
  | _ => Err corrupt
  end.

Definition Strict_DecodeString (l : list ascii) : result error (list ascii) :=
  strict_quanta (skip_newlines l).

(** ** Round trips *)

(** Induction on groups of three bytes. *)
Lemma triples_ind (P : list ascii -> Prop) :
  P [] -> (forall a, P [a]) -> (forall a b, P [a; b]) ->
  (forall a b c l, P l -> P (a :: b :: c :: l)) -> forall l, P l.
Proof.
  intros H0 H1 H2 H3. fix IH 1. intros [|a [|b [|c l]]]; [done|apply H1|apply H2|apply H3, IH].
Qed.

Definition plain (c : ascii) : Prop := is_byte 10 c = false ∧ is_byte 13 c = false.

Lemma url_digit s :
  decode_digit urlAlphabet (encode_digit urlAlphabet s) = Some s ∧ plain (encode_digit urlAlphabet s).
Proof. destruct s as [[[[[[] []] []] []] []] []]; vm_compute; repeat split; reflexivity. Qed.
Lemma std_digit s :
  decode_digit stdAlphabet (encode_digit stdAlphabet s) = Some s ∧ plain (encode_digit stdAlphabet s).
Proof. destruct s as [[[[[[] []] []] []] []] []]; vm_compute; repeat split; reflexivity. Qed.

Lemma skip_newlines_plain l : Forall plain l -> skip_newlines l = l.
Proof.
  induction 1 as [|c l Hc _ IH]; [done|]. unfold skip_newlines. rewrite filter_cons_True by done.
  by fold (skip_newlines l); rewrite IH.
Qed.

Lemma decode_digits_of l : decode_quanta (digits_of l) = Ok l.
Proof.
  induction l as [|[]|[] []|[] [] [] l IH] using triples_ind; try done.
  cbn [digits_of decode_quanta]. rewrite IH. done.
Qed.

Lemma base64_roundtrip l : DecodeString (EncodeToString l) = Ok l.
Proof.
  unfold DecodeString, EncodeToString. rewrite skip_newlines_plain.
  - replace (mapM _ _) with (Some (digits_of l)); [apply decode_digits_of|].
    induction (digits_of l) as [|d ds IH]; [done|]. cbn [fmap list_fmap mapM].
    rewrite (proj1 (url_digit d)), <- IH. done.
  - apply Forall_fmap, Forall_true. intros d. apply url_digit.
Qed.

Lemma EncodeToString_nil l : EncodeToString l = [] -> l = [].
Proof. destruct l as [|[] [|[] [|[]]]]; done. Qed.

Lemma padding_triple a b c l : padding (a :: b :: c :: l) = padding l.
Proof.
  unfold padding. replace (length (a :: b :: c :: l)) with (length l + 1 * 3)%nat by (simpl; lia).
  by rewrite Nat.Div0.mod_add.
Qed.

Lemma strict_quanta_encoded l : strict_quanta (Std_EncodeToString l) = Ok l.
Proof.
  unfold Std_EncodeToString.
  assert (decode_digit stdAlphabet pad = None) as Hpad by (vm_compute; reflexivity).
  induction l as [|[]|[] []|[] [] [] l IH] using triples_ind; [done|..].
  - cbn [digits_of fmap list_fmap padding length app strict_quanta].
    change (padding _) with [pad; pad]. cbn [app].
    rewrite !(proj1 (std_digit _)), Hpad. by rewrite decide_True.
  - cbn [digits_of fmap list_fmap length app strict_quanta].
    change (padding _) with [pad]. cbn [app].
    rewrite !(proj1 (std_digit _)), Hpad. by rewrite decide_True.
  - rewrite padding_triple. cbn [digits_of fmap list_fmap app strict_quanta].
    rewrite !(proj1 (std_digit _)). fold (fmap (M := list) (encode_digit stdAlphabet)).
    rewrite IH. done.
Qed.

Lemma padding_plain l : Forall plain (padding l).
Proof. unfold padding. repeat case_match; repeat constructor. Qed.

Lemma std_base64_roundtrip l : Strict_DecodeString (Std_EncodeToString l) = Ok l.
Proof.
  unfold Strict_DecodeString. rewrite skip_newlines_plain; [apply strict_quanta_encoded|].
  unfold Std_EncodeToString. apply Forall_app. split; [|apply padding_plain].
  apply Forall_fmap, Forall_true. intros d. apply std_digit.
Qed.

Lemma Std_EncodeToString_nil l : Std_EncodeToString l = [] -> l = [].
Proof. destruct l as [|[] [|[] [|[]]]]; done. Qed.
