(* ===== verification/Envelope.v ===== *)
(** * internal/provenance/envelope.go: signed statements

    crypto/ed25519 is the class [Ed25519], with the documented lengths and
    the law that a signature made with a key verifies under its public key.
    Unforgeability is not assumed: what [Verify] accepts is stated in terms
    of [ed25519.Verify]. *)
From Stdlib Require Import ZArith Ascii String Lia.
From stdpp Require Import base gmap sets list strings pretty.
From S2P Require Import Prelude Schema Canonical CanonicalSpec Documents DocumentsSpec Base64.
Local Open Scope Z_scope.
Local Open Scope string_scope.
Local Open Scope list_scope.

Definition EnvelopeVersion : string := "dsse-envelope-v1".

Record Signature := mkSignature { sigKeyID : string; Sig : list ascii }.

Record Envelope := mkEnvelope {
  envVersion : string;
  PayloadType : string;
  envPayload : list ascii;
  Signatures : list Signature
}.

Definition PublicKeySize : nat := 32.
Definition PrivateKeySize : nat := 64.
Definition SignatureSize : nat := 64.

Class Ed25519 := {
  Public : list ascii -> list ascii;
  ed25519_Sign : list ascii -> list ascii -> list ascii;
  ed25519_Verify : list ascii -> list ascii -> list ascii -> bool;
  Public_length sk : length (Public sk) = PublicKeySize;
  Sign_length sk m : length (ed25519_Sign sk m) = SignatureSize;
  Sign_verifies sk m : length sk = PrivateKeySize ->
    ed25519_Verify (Public sk) m (ed25519_Sign sk m) = true
}.

(** [strconv.Itoa] of a length. *)
Definition Itoa (n : nat) : list ascii := list_ascii_of_string (pretty (N.of_nat n)).

Definition pae (payloadType : string) (payload : list ascii) : list ascii :=
  list_ascii_of_string "DSSEv1 " ++ Itoa (String.length payloadType) ++ list_ascii_of_string " " ++
  list_ascii_of_string payloadType ++ list_ascii_of_string " " ++ Itoa (length payload) ++
  list_ascii_of_string " " ++ payload.

Section Envelope.
Context {lib : JSONLibrary} {ed : Ed25519}.

Definition KeyID (publicKey : list ascii) : string := NewDigest publicKey.

Definition Sign (payloadType : string) (statement privateKey : list ascii) : result error Envelope :=
  err_if (payloadType = "") (ErrorNew (Text "payload type is required"));;
  err_if (length privateKey ≠ PrivateKeySize) (ErrorNew (Text "invalid Ed25519 private key"));;
  canonical ← wrap (Wrapf (Text "canonicalize statement: %w")) (CanonicalizeJSON statement);
  let signature := ed25519_Sign privateKey (pae payloadType canonical) in
  mret (mkEnvelope EnvelopeVersion payloadType (Std_EncodeToString canonical)
          [mkSignature (KeyID (Public privateKey)) (Std_EncodeToString signature)]).

Definition decodeEnvelope (envelope : Envelope) : result error (list ascii) :=
  err_if (envVersion envelope ≠ EnvelopeVersion ∨ PayloadType envelope = "" ∨
          envPayload envelope = [] ∨ length (Signatures envelope) = 0%nat)
    (ErrorNew (Text "incomplete or unsupported provenance envelope"));;
  statement ← wrap (fun _ => ErrorNew (Text "payload is not strict base64"))
                (Strict_DecodeString (envPayload envelope));
  canonical ← wrap (Wrapf (Text "invalid JSON statement: %w")) (CanonicalizeJSON statement);
  err_if (statement ≠ canonical)
    (ErrorNew (Text "signed statement is not canonical RFC8785 JSON"));;
  mret statement.

Definition AddSignature (envelope : Envelope) (privateKey : list ascii) : result error Envelope :=
  statement ← decodeEnvelope envelope;
  err_if (length privateKey ≠ PrivateKeySize) (ErrorNew (Text "invalid Ed25519 private key"));;
  let keyID := KeyID (Public privateKey) in
  for_each (fun signature => err_if (sigKeyID signature = keyID)
                               (ErrorNew (Text "signer already present"))) (Signatures envelope);;
  let signed := ed25519_Sign privateKey (pae (PayloadType envelope) statement) in
  mret (mkEnvelope (envVersion envelope) (PayloadType envelope) (envPayload envelope)
          (Signatures envelope ++ [mkSignature keyID (Std_EncodeToString signed)])).

(** One iteration; the state is [seen] and [valid]. *)
Definition verify_step (envelope : Envelope) (statement : list ascii)
    (trusted : gmap string (list ascii)) (signature : Signature)
    : GoM (gset string * Z) error unit :=
  '(seen, valid) ← get;
  fail_if (sigKeyID signature ∈ seen)
    (ErrorNew (Sprintf "duplicate signature for key %s" [FStr (sigKeyID signature)]));;
  put ({[sigKeyID signature]} ∪ seen, valid);;
  decoded ← lift (wrap (fun _ => ErrorNew (Sprintf "malformed signature for key %s"
                                 [FStr (sigKeyID signature)])) (Strict_DecodeString (Sig signature)));
  fail_if (length decoded ≠ SignatureSize)
    (ErrorNew (Sprintf "malformed signature for key %s" [FStr (sigKeyID signature)]));;
  match trusted !! sigKeyID signature with
  | None => mret tt
  | Some publicKey =>
      fail_if (length publicKey ≠ PublicKeySize ∨ KeyID publicKey ≠ sigKeyID signature)
        (ErrorNew (Sprintf "trusted key binding mismatch for %s" [FStr (sigKeyID signature)]));;
      fail_if (ed25519_Verify publicKey (pae (PayloadType envelope) statement) decoded = false)
        (ErrorNew (Sprintf "invalid signature for trusted key %s" [FStr (sigKeyID signature)]));;
      put ({[sigKeyID signature]} ∪ seen, valid + 1)
  end.

Definition Verify (envelope : Envelope) (trusted : gmap string (list ascii)) (threshold : Z)
    : result error (list ascii) :=
  err_if (threshold < 1) (ErrorNew (Text "signature threshold must be positive"));;
  statement ← decodeEnvelope envelope;
  match for_eachM (verify_step envelope statement trusted) (Signatures envelope) (∅, 0) with
  | (Err e, _) => Err e
  | (Ok _, (_, valid)) =>
      err_if (valid < threshold)
        (ErrorNew (Sprintf "signature threshold not met: got %d, require %d"
                     [FInt valid; FInt threshold]));;
      mret statement
  end.
End Envelope.

(** ** internal/provenance/envelope.go: what a verified envelope means *)

(** ** Pre-authentication encoding *)
Definition not_space (c : ascii) : Prop := c <> " "%char.

Lemma pretty_digit_not_space n : not_space (pretty_N_char n).
Proof. unfold not_space, pretty_N_char. repeat case_match; done. Qed.

Lemma pretty_go_not_space n : forall s,
  Forall not_space (list_ascii_of_string s) ->
  Forall not_space (list_ascii_of_string (pretty_N_go n s)).
Proof.
  induction (N.lt_wf_0 n) as [n _ IH]. intros s Hs. destruct (decide (0 < n)%N) as [L|L].
  - rewrite pretty_N_go_step by done. apply IH; [by apply N.div_lt|].
    constructor; [apply pretty_digit_not_space|done].
  - replace n with 0%N by lia. by rewrite pretty_N_go_0.
Qed.

Lemma Itoa_not_space n : Forall not_space (Itoa n).
Proof.
  unfold Itoa, pretty, pretty_N. case_decide; [by repeat constructor|].
  apply pretty_go_not_space. constructor.
Qed.

Lemma list_ascii_inj s t : list_ascii_of_string s = list_ascii_of_string t -> s = t.
Proof. intros H. rewrite <- (string_of_list_ascii_of_string s), H. apply string_of_list_ascii_of_string. Qed.

Lemma Itoa_inj n m : Itoa n = Itoa m -> n = m.
Proof. intros H%list_ascii_inj%(inj pretty). lia. Qed.

(** The text before the first space is determined. *)
Lemma space_split a b r s :
  Forall not_space a -> Forall not_space b -> a ++ " "%char :: r = b ++ " "%char :: s -> a = b ∧ r = s.
Proof.
  revert b. induction a as [|x a IH]; intros [|y b] Ha Hb; simpl; intros H; simplify_eq.
  - done.
  - by inversion Hb.
  - by inversion Ha.
  - inversion Ha; inversion Hb; subst. destruct (IH b) as [-> ->]; done.
Qed.

Lemma length_list_ascii s : length (list_ascii_of_string s) = String.length s.
Proof. induction s as [|c s IH]; simpl; [done|by rewrite IH]. Qed.

(** The bytes that are signed determine what was signed: two pairs of a
    payload type and a payload with the same pre-authentication encoding are
    equal, whatever bytes they contain, so a signature for one statement is
    never one for another type or payload. *)
Theorem pae_injective t1 p1 t2 p2 : pae t1 p1 = pae t2 p2 -> t1 = t2 ∧ p1 = p2.
Proof.
  unfold pae. intros H%app_inv_head. cbn [list_ascii_of_string app] in H.
  apply space_split in H as [Hn H]; [|apply Itoa_not_space..].
  apply Itoa_inj in Hn. apply app_inj_1 in H as [Ht H]; [|by rewrite !length_list_ascii].
  injection H as H. apply space_split in H as [_ H]; [|apply Itoa_not_space..].
  split; [by apply list_ascii_inj|done].
Qed.

Lemma pae_injective_witness : "t" = "t" ∧ ["x"%char] = ["x"%char].
Proof. apply pae_injective. reflexivity. Defined.

Section Verify.
Context {lib : JSONLibrary} {ed : Ed25519}.

(** A signature entry that [Verify] goes past. *)
Definition sig_ok (e : Envelope) (statement : list ascii) (trusted : gmap string (list ascii))
    (s : Signature) : Prop :=
  exists d, Strict_DecodeString (Sig s) = Ok d ∧ length d = SignatureSize ∧
    forall pk, trusted !! sigKeyID s = Some pk ->
      length pk = PublicKeySize ∧ KeyID pk = sigKeyID s ∧
      ed25519_Verify pk (pae (PayloadType e) statement) d = true.

Definition counted (trusted : gmap string (list ascii)) (sigs : list Signature) : list Signature :=
  filter (fun s => is_Some (trusted !! sigKeyID s)) sigs.

Lemma verify_step_ok e st trusted s seen v res :
  verify_step e st trusted s (seen, v) = (Ok tt, res) <->
  sigKeyID s ∉ seen ∧ sig_ok e st trusted s ∧
  res = ({[sigKeyID s]} ∪ seen, v + Z.of_nat (length (counted trusted [s]))).
Proof.
  unfold verify_step, sig_ok, counted. rewrite filter_cons. go_unfold.
  destruct (decide (sigKeyID s ∈ seen)) as [Hs|Hs]; [naive_solver|].
  destruct (Strict_DecodeString (Sig s)) as [d|]; [|naive_solver].
  destruct (decide (length d <> SignatureSize)) as [Hl|Hl]; [naive_solver|]. apply dec_stable in Hl.
  destruct (trusted !! sigKeyID s) as [pk|] eqn:E.
  - destruct (decide (_ ∨ _)) as [Hb|Hb]; [naive_solver|].
    destruct (decide (ed25519_Verify _ _ _ = false)) as [Hv|Hv]; [naive_solver congruence|].
    apply not_false_is_true in Hv. rewrite decide_True by (by exists pk). simpl.
    assert (length pk = PublicKeySize ∧ KeyID pk = sigKeyID s) as [H1 H2]
      by (split; apply dec_stable; tauto).
    naive_solver.
  - rewrite decide_False by (intros [? ?]; done). simpl. rewrite Z.add_0_r. naive_solver.
Qed.

Lemma verify_loop_ok e st trusted sigs : forall seen v res,
  for_eachM (verify_step e st trusted) sigs (seen, v) = (Ok tt, res) <->
  Forall (sig_ok e st trusted) sigs ∧ NoDup (sigKeyID <$> sigs) ∧
  (forall s, s ∈ sigs -> sigKeyID s ∉ seen) ∧
  res = (list_to_set (sigKeyID <$> sigs) ∪ seen, v + Z.of_nat (length (counted trusted sigs))).
Proof.
  induction sigs as [|s sigs IH]; intros seen v res; cbn [for_eachM].
  - unfold mret, gom_ret. simpl. rewrite Z.add_0_r, (left_id_L ∅ (∪)). split.
    + intros [= <-]. split_and!; [constructor..|set_solver|done].
    + naive_solver.
  - unfold mbind at 1, gom_bind at 1. rewrite Forall_cons, fmap_cons, NoDup_cons.
    destruct (verify_step e st trusted s (seen, v)) as [[[]|err] [seen1 v1]] eqn:E.
    + apply verify_step_ok in E as (H1 & H2 & [= -> ->]). rewrite IH.
      assert (length (counted trusted (s :: sigs)) =
        (length (counted trusted [s]) + length (counted trusted sigs))%nat) as ->.
      { unfold counted. rewrite !filter_cons. case_decide; simpl; lia. }
      rewrite Nat2Z.inj_add, Z.add_assoc. cbn [list_to_set foldr fmap list_fmap].
      replace ({[sigKeyID s]} ∪ list_to_set (sigKeyID <$> sigs) ∪ seen)
        with (list_to_set (sigKeyID <$> sigs) ∪ ({[sigKeyID s]} ∪ seen) : gset string) by set_solver.
      setoid_rewrite elem_of_cons. rewrite list_elem_of_fmap. split.
      * intros (A & B & C & D). split_and!; try done; [|naive_solver set_solver].
        intros (s' & Hs' & Hin). specialize (C s' Hin). set_solver.
      * intros ((_ & A) & (B & B') & C & D). split_and!; try done.
        intros s' Hs'. apply not_elem_of_union. split; [|by apply C; right].
        rewrite elem_of_singleton. intros Heq. apply B. by exists s'.
    + split; [done|]. intros ((A & _) & _ & C & _).
      assert (verify_step e st trusted s (seen, v) = (Ok tt,
        ({[sigKeyID s]} ∪ seen, v + Z.of_nat (length (counted trusted [s]))))) as E'.
      { apply verify_step_ok. split_and!; [apply C; by left|done|done]. }
      by rewrite E' in E.
Qed.

Lemma Verify_ok e trusted n st :
  Verify e trusted n = Ok st <->
  1 <= n ∧ decodeEnvelope e = Ok st ∧ Forall (sig_ok e st trusted) (Signatures e) ∧
  NoDup (sigKeyID <$> Signatures e) ∧ n <= Z.of_nat (length (counted trusted (Signatures e))).
Proof.
  unfold Verify. rewrite bind_Ok. split.
  - intros ([] & Hn & H). apply err_if_ok in Hn. apply bind_Ok in H as (st' & Hd & H).
    destruct (for_eachM _ _ _) as [[[]|] [seen v]] eqn:E; [|done].
    apply verify_loop_ok in E as (A & B & _ & [= -> ->]). apply bind_Ok in H as ([] & Hv & H).
    apply err_if_ok in Hv. unfold mret, result_ret in H. simplify_eq.
    split_and!; [lia|done..|lia].
  - intros (Hn & Hd & A & B & C). exists tt. split; [apply err_if_ok; lia|].
    apply bind_Ok. exists st. split; [done|].
    destruct (for_eachM _ _ _) as [r [seen v]] eqn:E.
    assert (for_eachM (verify_step e st trusted) (Signatures e) (∅, 0) = (Ok tt,
      (list_to_set (sigKeyID <$> Signatures e) ∪ ∅,
       0 + Z.of_nat (length (counted trusted (Signatures e)))))) as E'.
    { apply verify_loop_ok. split_and!; [done..|set_solver|done]. }
    rewrite E' in E. injection E as <- <- <-. apply bind_Ok. exists tt.
    split; [apply err_if_ok; lia|done].
Qed.

Lemma decodeEnvelope_ok e st :
  decodeEnvelope e = Ok st ->
  CanonicalizeJSON st = Ok st ∧ Strict_DecodeString (envPayload e) = Ok st.
Proof.
  unfold decodeEnvelope. intros ([] & _ & H)%bind_Ok. apply bind_Ok in H as (s & Hs & H).
  apply wrap_ok in Hs. apply bind_Ok in H as (c & Hc & H). apply wrap_ok in Hc.
  apply bind_Ok in H as ([] & He & H). apply err_if_ok, dec_stable in He.
  unfold mret, result_ret in H. simplify_eq. done.
Qed.

(** A verified envelope was signed by enough different trusted keys:
    when [Verify] accepts with a threshold, the statement it returns is its
    own canonical form, and there are at least that many different public
    keys, each trusted under its own identifier, each with a signature in
    the envelope that verifies for this statement and this payload type. *)
Theorem verified_by_distinct_trusted_keys e trusted n st
    (Hverify : Verify e trusted n = Ok st) :
  CanonicalizeJSON st = Ok st ∧ 1 <= n ∧
  exists keys, NoDup keys ∧ n <= Z.of_nat (length keys) ∧
    forall pk, pk ∈ keys -> trusted !! KeyID pk = Some pk ∧
      exists s d, s ∈ Signatures e ∧ sigKeyID s = KeyID pk ∧
        Strict_DecodeString (Sig s) = Ok d ∧
        ed25519_Verify pk (pae (PayloadType e) st) d = true.
Proof.
  apply Verify_ok in Hverify as (Hn & Hd & Hok & Hnd & Hlen). apply decodeEnvelope_ok in Hd as [Hc _].
  split_and!; [done..|].
  exists (omap (fun s => trusted !! sigKeyID s) (Signatures e)).
  rewrite Forall_forall in Hok.
  assert (forall s pk, s ∈ Signatures e -> trusted !! sigKeyID s = Some pk -> KeyID pk = sigKeyID s) as Hid.
  { intros s pk Hs Hpk. destruct (Hok s Hs) as (d & _ & _ & H). by apply H. }
  split_and!.
  - clear Hok Hlen. induction (Signatures e) as [|s sigs IH]; [constructor|].
    rewrite fmap_cons, NoDup_cons in Hnd. destruct Hnd as [Hni Hnd]. cbn [omap list_omap].
    assert (NoDup (omap (fun s => trusted !! sigKeyID s) sigs)) as IH'
      by (apply IH; [done|intros; apply Hid; [by right|done]]).
    destruct (trusted !! sigKeyID s) as [pk|] eqn:E; [|done]. apply NoDup_cons. split; [|done].
    intros (s' & Hs' & E')%list_elem_of_omap. apply Hni. apply list_elem_of_fmap. exists s'. split; [|done].
    rewrite <- (Hid s pk), <- (Hid s' pk); [done|by right|done|by left|done].
  - etrans; [exact Hlen|]. apply Nat2Z.inj_le. clear. unfold counted.
    induction (Signatures e) as [|s sigs IH]; [done|]. rewrite filter_cons. cbn [omap list_omap].
    destruct (trusted !! sigKeyID s) as [pk|] eqn:E.
    + rewrite decide_True by (by exists pk). simpl. lia.
    + rewrite decide_False by (intros [? ?]; done). done.
  - intros pk (s & Hs & E)%list_elem_of_omap. rewrite (Hid s pk) by done. split; [done|].
    destruct (Hok s Hs) as (d & Hdec & _ & H). exists s, d. split_and!; try done. by apply H.
Qed.

(** ** Signing *)

(** Sign with the first key, then add the others. *)
Fixpoint add_all (e : Envelope) (keys : list (list ascii)) : result error Envelope :=
  match keys with
  | [] => Ok e
  | sk :: keys' => e' ← AddSignature e sk; add_all e' keys'
  end.

Definition signature_of (t : string) (c sk : list ascii) : Signature :=
  mkSignature (KeyID (Public sk)) (Std_EncodeToString (ed25519_Sign sk (pae t c))).
Definition envelope_of (t : string) (c : list ascii) (keys : list (list ascii)) : Envelope :=
  mkEnvelope EnvelopeVersion t (Std_EncodeToString c) (signature_of t c <$> keys).

Lemma decode_envelope_of t c keys :
  t <> "" -> c <> [] -> keys <> [] -> CanonicalizeJSON c = Ok c ->
  decodeEnvelope (envelope_of t c keys) = Ok c.
Proof.
  intros Ht Hc Hk Hcanon. unfold decodeEnvelope, envelope_of. cbn [envVersion PayloadType envPayload Signatures].
  apply bind_Ok. exists tt. split.
  - apply err_if_ok. intros [?|[?|[H|H]]]; [done|done|by apply Std_EncodeToString_nil in H|].
    by destruct keys.
  - rewrite std_base64_roundtrip. cbn [wrap]. unfold mbind, result_bind. rewrite Hcanon. cbn [wrap].
    unfold err_if. by rewrite decide_False by tauto.
Qed.

Lemma add_all_ok t c keys : forall done_,
  t <> "" -> c <> [] -> done_ <> [] -> CanonicalizeJSON c = Ok c ->
  Forall (fun sk => length sk = PrivateKeySize) keys ->
  NoDup ((fun sk => KeyID (Public sk)) <$> (done_ ++ keys)) ->
  add_all (envelope_of t c done_) keys = Ok (envelope_of t c (done_ ++ keys)).
Proof.
  induction keys as [|sk keys IH]; intros done_ Ht Hc Hd Hcanon Hlen Hnd; cbn [add_all].
  - by rewrite app_nil_r.
  - inversion Hlen; subst. apply bind_Ok. exists (envelope_of t c (done_ ++ [sk])). split.
    + unfold AddSignature. rewrite decode_envelope_of by done. unfold mbind at 1, result_bind at 1.
      apply bind_Ok. exists tt. split; [apply err_if_ok; tauto|]. apply bind_Ok. exists tt. split.
      * apply for_each_ok, Forall_forall. intros s Hs. cbn [Signatures envelope_of] in Hs.
        apply list_elem_of_fmap in Hs as (sk' & -> & Hin). apply err_if_ok. simpl. intros E.
        rewrite fmap_app, NoDup_app in Hnd. destruct Hnd as (_ & Hnd & _).
        apply (Hnd (KeyID (Public sk'))); [apply list_elem_of_fmap; by exists sk'|].
        rewrite E, fmap_cons. by left.
      * unfold envelope_of. cbn [envVersion PayloadType envPayload Signatures].
        by rewrite fmap_app.
    + rewrite IH; try done; [by rewrite <- app_assoc|by destruct done_|by rewrite <- app_assoc].
Qed.

(** What was signed verifies: when a statement has a canonical form
    that is its own canonical form, signing it with one key and adding the
    signatures of other keys with different identifiers succeeds, and the
    envelope verifies, with the canonical statement as its answer, for every
    threshold up to the number of signers whose keys are trusted, as long as
    the trust store binds the signers' identifiers to the signers' keys. *)
Theorem signed_envelopes_verify t statement c sk keys trusted n
    (Ht : t <> "") (Hc : c <> [])
    (Hcanonical : CanonicalizeJSON statement = Ok c) (Hidempotent : CanonicalizeJSON c = Ok c)
    (Hlen : Forall (fun sk => length sk = PrivateKeySize) (sk :: keys))
    (Hdistinct : NoDup ((fun sk => KeyID (Public sk)) <$> sk :: keys))
    (Hbound : forall sk', sk' ∈ sk :: keys -> forall pk,
       trusted !! KeyID (Public sk') = Some pk -> pk = Public sk')
    (Hn : 1 <= n <= Z.of_nat (length (filter (fun sk' =>
            is_Some (trusted !! KeyID (Public sk'))) (sk :: keys)))) :
  exists e, (e0 ← Sign t statement sk; add_all e0 keys) = Ok e ∧ Verify e trusted n = Ok c.
Proof.
  exists (envelope_of t c (sk :: keys)). inversion Hlen; subst. split.
  - apply bind_Ok. exists (envelope_of t c [sk]). split; [|by apply (add_all_ok t c keys [sk])].
    unfold Sign. apply bind_Ok. exists tt. split; [by apply err_if_ok|].
    apply bind_Ok. exists tt. split; [apply err_if_ok; tauto|]. apply bind_Ok. exists c.
    by rewrite Hcanonical.
  - apply Verify_ok. cbn [Signatures envelope_of]. split_and!; [lia|by apply decode_envelope_of|..].
    + apply Forall_fmap, Forall_forall. intros sk' Hin. exists (ed25519_Sign sk' (pae t c)).
      cbn [signature_of Sig sigKeyID PayloadType envelope_of].
      split_and!; [apply std_base64_roundtrip|apply Sign_length|]. intros pk Hpk.
      rewrite (Hbound sk' Hin pk Hpk). split_and!; [apply Public_length|done|].
      apply Sign_verifies. rewrite Forall_forall in Hlen. by apply Hlen.
    + by rewrite <- list_fmap_compose.
    + unfold counted. destruct Hn as [_ Hn]. etrans; [exact Hn|]. apply Nat2Z.inj_le.
      generalize (sk :: keys) as l. clear. induction l as [|x l IH]; [done|].
      rewrite fmap_cons, !filter_cons. cbn [signature_of sigKeyID].
      repeat case_decide; simpl in *; try done; lia.
Qed.
End Verify.

(** ** A concrete signature scheme *)
#[local] Instance sample_library : JSONLibrary := {
  NewDecoder raw := mkDecoder [Scalar SNull] io_EOF false;
  jcs_Transform raw := Ok raw;
  Sum256 data := resize 32 "0"%char data;
  Sum256_length data := length_resize data 32 "0"%char
}.
#[local] Program Instance sample_ed25519 : Ed25519 := {
  Public sk := resize 32 "0"%char sk;
  ed25519_Sign sk m := resize 64 "0"%char (resize 32 "0"%char sk ++ m);
  ed25519_Verify pk m s := bool_decide (s = resize 64 "0"%char (pk ++ m))
}.
Next Obligation. intros sk. apply length_resize. Qed.
Next Obligation. intros sk m. apply length_resize. Qed.
Next Obligation. intros sk m _. by apply bool_decide_eq_true. Qed.

Definition sample_key (c : ascii) : list ascii := repeat c 64.
Definition sample_trust : gmap string (list ascii) :=
  <[KeyID (Public (sample_key "a")) := Public (sample_key "a")]>
    (<[KeyID (Public (sample_key "b")) := Public (sample_key "b")]> ∅).
Definition sample_statement : list ascii := list_ascii_of_string "{}".
Definition sample_envelope : Envelope :=
  envelope_of "application/test" sample_statement [sample_key "a"; sample_key "c"; sample_key "b"].

(** Three signers, two of them trusted. *)
Lemma verified_by_distinct_trusted_keys_witness : CanonicalizeJSON sample_statement = Ok sample_statement.
Proof.
  apply (verified_by_distinct_trusted_keys sample_envelope sample_trust 2 sample_statement).
  vm_compute. reflexivity.
Defined.

Lemma signed_envelopes_verify_witness :
  exists e, (e0 ← Sign "application/test" sample_statement (sample_key "a");
             add_all e0 [sample_key "c"; sample_key "b"]) = Ok e ∧
    Verify e sample_trust 2 = Ok sample_statement.
Proof.
  apply (signed_envelopes_verify "application/test" sample_statement sample_statement (sample_key "a")
    [sample_key "c"; sample_key "b"] sample_trust 2).
  - discriminate.
  - discriminate.
  - vm_compute. reflexivity.
  - vm_compute. reflexivity.
  - repeat constructor.
  - apply (bool_decide_unpack _). vm_compute. exact I.
  - assert (Forall (fun sk' => forall pk, sample_trust !! KeyID (Public sk') = Some pk -> pk = Public sk')
      [sample_key "a"; sample_key "c"; sample_key "b"]) as F.
    { repeat constructor; intros pk H; vm_compute in H; simplify_eq; vm_compute; reflexivity. }
    intros sk' Hin. exact (proj1 (Forall_forall _ _) F sk' Hin).
  - vm_compute. split; discriminate.
Defined.
