(* ===== verification/StoreMemory.v ===== *)
(** * internal/registry/store: the in-memory store of the registry

    store.go and memory.go.  Sessions, challenges, ownerships and disputes
    are pointers, which the store shares with its callers: they are indices
    into a [Heap] that the callers may change between two calls; the store
    itself reads only immutable identifiers of them and [Current].  Every
    method that changes the store holds the write lock around the whole
    change, so a concurrent use is a sequence of operations. *)
From Stdlib Require Import ZArith Ascii String Lia.
From stdpp Require Import base gmap sets list strings sorting.
From S2P Require Import RegistryIngest RegistryChallenge RegistryOwnership RegistryDispute.
From S2P Require Import Prelude Sorting Schema Canonical CanonicalSpec Documents DocumentsSpec.
From S2P Require Import RegistryAuth Observation Base64.
Local Open Scope Z_scope.
Local Open Scope string_scope.
Local Open Scope list_scope.

(** ** store.go *)
Definition ErrNotFound : error := Sentinel "registry store object not found".
Definition ErrAlreadyExists : error := Sentinel "registry store object already exists".
Definition ErrTokenExpired : error := Sentinel "registry bearer token expired".
Definition ErrInvalidCursor : error := Sentinel "registry list cursor is invalid".
Definition ErrNotImplemented : error :=
  Sentinel "registry persistent hosted capability is not implemented".

Record Capabilities := mkCapabilities {
  DurablePersistence : bool;
  HostedVerification : bool;
  OwnershipVerification : bool
}.

(** A pointer to a session, a challenge, an ownership or a dispute. *)
Definition pointer := nat.

Record IngestRecord := mkIngestRecord {
  irSession : option pointer;
  DeclaredBytes : Z;
  UploadDigest : Digest;
  ChallengeHash : list ascii
}.

Record ObservationFilter := mkObservationFilter {
  fSubject : string; fVersion : string; fPack : string;
  fProfile : string; fTrust : string; fFresh : string
}.

Record ObservationPage := mkObservationPage {
  Items : list Observation;
  NextCursor : list ascii
}.

Record ObservationIndex := mkObservationIndex {
  ixSubject : string;
  ixVersion : string;
  ixPack : string;
  ixPackVersion : string;
  ixProfile : string;
  ixTrustLabels : list string;
  ixFreshness : string
}.

Definition ArtifactKind := string.
Definition ArtifactPack : ArtifactKind := "pack".
Definition ArtifactProfile : ArtifactKind := "profile".

Record Artifact := mkArtifact {
  aKind : ArtifactKind;
  aName : string;
  aVersion : string;
  aDigest : Digest;
  aDocument : list ascii
}.

(** ** memory.go *)
Record tokenRecord := mkTokenRecord { tokPrincipal : Principal; tokExpiresAt : Time }.

(** The objects behind the pointers. *)
Record Heap := mkHeap {
  session_at : pointer -> RegistryIngest.IngestSession;
  challenge_at : pointer -> RegistryChallenge.OwnershipChallenge;
  ownership_at : pointer -> RegistryOwnership.Ownership;
  dispute_at : pointer -> RegistryDispute.Dispute
}.

Record Memory := mkMemory {
  tokens : gmap (list ascii) tokenRecord;
  ingests : gmap InstanceID IngestRecord;
  staged : gmap InstanceID Observation;
  observed : gmap Digest Observation;
  ownerships : gmap SubjectNamespace pointer;
  challenges : gmap InstanceID pointer;
  disputes : gmap InstanceID pointer;
  artifacts : gmap string Artifact
}.
Definition NewMemory : Memory := mkMemory ∅ ∅ ∅ ∅ ∅ ∅ ∅ ∅.

Definition set_tokens v m := mkMemory v (ingests m) (staged m) (observed m) (ownerships m) (challenges m) (disputes m) (artifacts m).
Definition set_ingests v m := mkMemory (tokens m) v (staged m) (observed m) (ownerships m) (challenges m) (disputes m) (artifacts m).
Definition set_staged v m := mkMemory (tokens m) (ingests m) v (observed m) (ownerships m) (challenges m) (disputes m) (artifacts m).
Definition set_observed v m := mkMemory (tokens m) (ingests m) (staged m) v (ownerships m) (challenges m) (disputes m) (artifacts m).
Definition set_ownerships v m := mkMemory (tokens m) (ingests m) (staged m) (observed m) v (challenges m) (disputes m) (artifacts m).
Definition set_challenges v m := mkMemory (tokens m) (ingests m) (staged m) (observed m) (ownerships m) v (disputes m) (artifacts m).
Definition set_disputes v m := mkMemory (tokens m) (ingests m) (staged m) (observed m) (ownerships m) (challenges m) v (artifacts m).
Definition set_artifacts v m := mkMemory (tokens m) (ingests m) (staged m) (observed m) (ownerships m) (challenges m) (disputes m) v.

Class StoreCodec := {
  store_observations :: ObservationCodec;
  (** [json.Unmarshal] into the structs of [IndexObservation]. *)
  unmarshal_subject : list ascii -> result error (string * string);
  unmarshal_test : list ascii -> result error (string * string * string)
}.

(** Whether ranging over the runes of a string meets white space. *)
Fixpoint has_space (s : list N) : bool :=
  match s with
  | [] => false
  | _ :: s' => (match space_head s with Some _ => true | None => false end || has_space s')%bool
  end.

Definition validateBearerCredential (token : string) (principal : Principal) (expiresAt : Time)
    : result error unit :=
  err_if (len token < 16 ∨ len token > 4096 ∨ TrimSpace token ≠ token)
    (ErrorNew (Text "bearer token must be 16..4096 non-whitespace bytes"));;
  err_if (has_control [] (bytes_of token) = true ∨ has_space (bytes_of token) = true)
    (ErrorNew (Text "bearer token contains whitespace or control characters"));;
  err_if (IsZero expiresAt) (ErrorNew (Text "bearer token expiry is required"));;
  PrincipalID_Validate (principal_id principal).

Definition artifactKey (kind : ArtifactKind) (name version : string) : string :=
  kind +:+ String "000" (name +:+ String "000" version).

Definition matches (filter : ObservationFilter) (index : ObservationIndex) : bool :=
  if decide (fSubject filter ≠ "" ∧ fSubject filter ≠ ixSubject index) then false
  else if decide (fVersion filter ≠ "" ∧ fVersion filter ≠ ixVersion index) then false
  else if decide (fPack filter ≠ "" ∧ fPack filter ≠ ixPack index) then false
  else if decide (fProfile filter ≠ "" ∧ fProfile filter ≠ ixProfile index) then false
  else if decide (fTrust filter ≠ "" ∧ fTrust filter ∉ ixTrustLabels index) then false
  else if decide (fFresh filter ≠ "" ∧ fFresh filter ≠ ixFreshness index) then false
  else true.

Section Store.
Context {codec : StoreCodec} {ro : RangeOrder string CanonicalObject}.
Context {ro' : RangeOrder string Observation}.

Definition HashBearerToken (token : string) : list ascii := Sum256 (list_ascii_of_string token).

Definition Memory_Capabilities : Capabilities := mkCapabilities false false false.

Definition AddBearerToken (token : string) (principal : Principal) (expiresAt : Time)
    : GoM Memory error unit :=
  lift (validateBearerCredential token principal expiresAt);;
  m ← get;
  fail_if (is_Some (tokens m !! HashBearerToken token)) ErrAlreadyExists;;
  put (set_tokens (<[HashBearerToken token := mkTokenRecord principal (UTC expiresAt)]> (tokens m)) m).

Definition SetBearerToken (token : string) (principal : Principal) (expiresAt : Time)
    : GoM Memory error unit :=
  lift (validateBearerCredential token principal expiresAt);;
  m ← get;
  put (set_tokens (<[HashBearerToken token := mkTokenRecord principal (UTC expiresAt)]> (tokens m)) m).

Definition LookupBearerToken (m : Memory) (hash : list ascii) (now : Time) : result error Principal :=
  match tokens m !! hash with
  | None => Err ErrNotFound
  | Some record =>
      err_if (IsZero now ∨ ¬ Before now (tokExpiresAt record)) ErrTokenExpired;;
      mret (tokPrincipal record)
  end.

(** ** Ingest sessions *)
Definition session_key (h : Heap) (p : pointer) : InstanceID :=
  RegistryIngest.SessionID (RegistryIngest.Snapshot (session_at h p)).

Definition CreateIngest (h : Heap) (record : IngestRecord) : GoM Memory error unit :=
  match irSession record with
  | None => fail (ErrorNew (Text "ingest session is required"))
  | Some p =>
      fail_if (DeclaredBytes record < 1)
        (ErrorNew (Text "declared upload size must be positive"));;
      lift (wrap (Wrapf (Text "upload digest: %w")) (Digest_Validate (UploadDigest record)));;
      m ← get;
      fail_if (is_Some (ingests m !! session_key h p)) ErrAlreadyExists;;
      put (set_ingests (<[session_key h p := record]> (ingests m)) m)
  end.

Definition found {A} (o : option A) : result error A :=
  match o with Some a => Ok a | None => Err ErrNotFound end.

Definition GetIngest (m : Memory) (id : InstanceID) : result error IngestRecord :=
  found (ingests m !! id).

Definition UpdateIngest (h : Heap) (record : IngestRecord) : GoM Memory error unit :=
  match irSession record with
  | None => fail (ErrorNew (Text "ingest session is required"))
  | Some p =>
      m ← get;
      fail_if (ingests m !! session_key h p = None) ErrNotFound;;
      put (set_ingests (<[session_key h p := record]> (ingests m)) m)
  end.

Definition PutStagedObservation (id : InstanceID) (observation : Observation) : GoM Memory error unit :=
  lift (Observation_Validate observation);;
  m ← get;
  match staged m !! id with
  | Some existing =>
      if decide (obID existing = obID observation) then mret tt else fail ErrAlreadyExists
  | None => put (set_staged (<[id := observation]> (staged m)) m)
  end.

Definition GetStagedObservation (m : Memory) (id : InstanceID) : result error Observation :=
  found (staged m !! id).

Definition EnqueueVerification (id : InstanceID) : GoM Memory error unit := fail ErrNotImplemented.

(** ** Published observations *)
Definition IndexObservation (observation : Observation) : result error ObservationIndex :=
  let projection := obProjection observation in
  '(project, version) ← wrap (Wrapf (Text "index observation subject: %w"))
    (unmarshal_subject (canonical (opSubject projection)));
  '(pack, packVersion, profile) ← wrap (Wrapf (Text "index observation test: %w"))
    (unmarshal_test (canonical (opTest projection)));
  err_if (project = "" ∨ version = "" ∨ pack = "" ∨ packVersion = "" ∨ profile = "")
    (ErrorNew (Text "observation lacks subject/test fields required by Registry indexes"));;
  let derived := obDerived observation in
  mret (mkObservationIndex project version pack packVersion profile (TrustLabels derived)
          (Freshness_ derived)).

Definition PutPublishedObservation (observation : Observation) : GoM Memory error unit :=
  lift (Observation_Validate observation);;
  lift (IndexObservation observation);;
  m ← get;
  fail_if (is_Some (observed m !! obID observation)) ErrAlreadyExists;;
  put (set_observed (<[obID observation := observation]> (observed m)) m).

Definition GetObservation (m : Memory) (id : Digest) : result error Observation :=
  found (observed m !! id).

Definition by_id (a b : Observation) : Prop := string_le (obID a) (obID b).
#[export] Instance by_id_dec : RelDecision by_id.
Proof. intros a b. unfold by_id. apply _. Defined.

(** The loop over the sorted items; [filtered] is the slice so far. *)
Fixpoint scan (f : ObservationFilter) (after : Digest) (limit : Z) (items filtered : list Observation)
    : result error (list Observation) :=
  match items with
  | [] => Ok filtered
  | observation :: items' =>
      if decide (after ≠ "" ∧ string_le (obID observation) after) then scan f after limit items' filtered
      else
        index ← IndexObservation observation;
        if matches f index then
          let filtered := filtered ++ [observation] in
          if decide (Z.of_nat (length filtered) = limit + 1) then Ok filtered
          else scan f after limit items' filtered
        else scan f after limit items' filtered
  end.

Definition decode_cursor (cursor : list ascii) : result error Digest :=
  match cursor with
  | [] => Ok ""
  | _ =>
      decoded ← wrap (fun _ => ErrInvalidCursor) (DecodeString cursor);
      wrap (fun _ => ErrInvalidCursor) (ParseDigest (string_of_list_ascii decoded))
  end.

(** [last] is only read when the page is not empty. *)
Definition make_page (limit : Z) (filtered : list Observation) : ObservationPage :=
  if decide (Z.of_nat (length filtered) > limit) then
    let items := take (Z.to_nat limit) filtered in
    mkObservationPage items
      (match last items with
       | Some o => EncodeToString (list_ascii_of_string (obID o))
       | None => []
       end)
  else mkObservationPage filtered [].

Definition ListObservations (m : Memory) (f : ObservationFilter) (cursor : list ascii) (limit : Z)
    : result error ObservationPage :=
  err_if (limit < 1 ∨ limit > 100) (ErrorNew (Text "limit must be between 1 and 100"));;
  after ← decode_cursor cursor;
  filtered ← scan f after limit (merge_sort by_id (snd <$> range (observed m))) [];
  mret (make_page limit filtered).

(** ** Ownership, disputes, artifacts *)
Definition PutOwnershipChallenge (h : Heap) (challenge : option pointer) : GoM Memory error unit :=
  match challenge with
  | None => fail (ErrorNew (Text "ownership challenge is required"))
  | Some p =>
      let id := RegistryChallenge.ID (RegistryChallenge.Snapshot (challenge_at h p) 0) in
      m ← get;
      fail_if (is_Some (challenges m !! id)) ErrAlreadyExists;;
      put (set_challenges (<[id := p]> (challenges m)) m)
  end.

Definition PutOwnership (h : Heap) (ownership : option pointer) : GoM Memory error unit :=
  match ownership with
  | None => fail (ErrorNew (Text "ownership is required"))
  | Some p =>
      let subject := RegistryOwnership.sSubject (RegistryOwnership.Snapshot (ownership_at h p)) in
      m ← get;
      put (set_ownerships (<[subject := p]> (ownerships m)) m)
  end.

Definition CurrentOwnership (h : Heap) (m : Memory) (subject : SubjectNamespace) (now : Time)
    : result error pointer :=
  p ← found (ownerships m !! subject);
  err_if (RegistryOwnership.Current (ownership_at h p) now = false) ErrNotFound;;
  mret p.

Definition PutDispute (h : Heap) (dispute : option pointer) : GoM Memory error unit :=
  match dispute with
  | None => fail (ErrorNew (Text "dispute is required"))
  | Some p =>
      let id := RegistryDispute.ID (RegistryDispute.Snapshot (dispute_at h p)) in
      m ← get;
      fail_if (is_Some (disputes m !! id)) ErrAlreadyExists;;
      put (set_disputes (<[id := p]> (disputes m)) m)
  end.

Definition GetDispute (m : Memory) (id : InstanceID) : result error pointer := found (disputes m !! id).

Definition PutArtifact (artifact : Artifact) : GoM Memory error unit :=
  fail_if (aKind artifact ≠ ArtifactPack ∧ aKind artifact ≠ ArtifactProfile)
    (ErrorNew (Sprintf "invalid artifact kind %q" [FStr (aKind artifact)]));;
  fail_if (aName artifact = "" ∨ aVersion artifact = "")
    (ErrorNew (Text "artifact name and version are required"));;
  lift (Digest_Validate (aDigest artifact));;
  c ← lift (CanonicalizeJSON (aDocument artifact));
  fail_if (NewDigest c ≠ aDigest artifact) (ErrorNew (Text "artifact document digest mismatch"));;
  let artifact := mkArtifact (aKind artifact) (aName artifact) (aVersion artifact) (aDigest artifact) c in
  let key := artifactKey (aKind artifact) (aName artifact) (aVersion artifact) in
  m ← get;
  fail_if (is_Some (artifacts m !! key)) ErrAlreadyExists;;
  put (set_artifacts (<[key := artifact]> (artifacts m)) m).

Definition GetArtifact (m : Memory) (kind : ArtifactKind) (name version : string) : result error Artifact :=
  found (artifacts m !! artifactKey kind name version).
End Store.
