(* ===== verification/StoreSpec.v ===== *)
(** * internal/registry/store: what the in-memory store guarantees

    The store's invariant and its append-only maps under every sequence of
    operations, and pagination by cursor while others publish. *)
From Stdlib Require Import ZArith Ascii String Lia.
From stdpp Require Import base gmap sets list strings sorting.
From S2P Require Import RegistryIngest RegistryChallenge RegistryOwnership RegistryDispute.
From S2P Require Import Prelude Sorting Schema Canonical CanonicalSpec Documents DocumentsSpec.
From S2P Require Import RegistryAuth Observation Base64 StoreMemory.
Local Open Scope Z_scope.
Local Open Scope string_scope.
Local Open Scope list_scope.

Section Spec.
Context {codec : StoreCodec} {ro : RangeOrder string CanonicalObject}.
Context {ro' : RangeOrder string Observation}.

(** ** Sequences of operations *)

(** Every method that changes the store; the heap is the one at the time of
    the call. *)
Inductive Operation :=
| OpAddToken (token : string) (principal : Principal) (expiresAt : Time)
| OpSetToken (token : string) (principal : Principal) (expiresAt : Time)
| OpCreateIngest (h : Heap) (record : IngestRecord)
| OpUpdateIngest (h : Heap) (record : IngestRecord)
| OpPutStaged (id : InstanceID) (observation : Observation)
| OpEnqueue (id : InstanceID)
| OpPutPublished (observation : Observation)
| OpPutChallenge (h : Heap) (p : option pointer)
| OpPutOwnership (h : Heap) (p : option pointer)
| OpPutDispute (h : Heap) (p : option pointer)
| OpPutArtifact (artifact : Artifact).

Definition apply (op : Operation) : GoM Memory error unit :=
  match op with
  | OpAddToken t p e => AddBearerToken t p e
  | OpSetToken t p e => SetBearerToken t p e
  | OpCreateIngest h r => CreateIngest h r
  | OpUpdateIngest h r => UpdateIngest h r
  | OpPutStaged id o => PutStagedObservation id o
  | OpEnqueue id => EnqueueVerification id
  | OpPutPublished o => PutPublishedObservation o
  | OpPutChallenge h p => PutOwnershipChallenge h p
  | OpPutOwnership h p => PutOwnership h p
  | OpPutDispute h p => PutDispute h p
  | OpPutArtifact a => PutArtifact a
  end.

Definition run (ops : list Operation) (m : Memory) : Memory := foldl (fun m op => (apply op m).2) m ops.

(** ** The invariant *)
Record store_inv (m : Memory) : Prop := {
  inv_observed k o : observed m !! k = Some o ->
    k = obID o ∧ Observation_Validate o = Ok tt ∧ exists index, IndexObservation o = Ok index;
  inv_staged k o : staged m !! k = Some o -> Observation_Validate o = Ok tt;
  inv_artifacts k a : artifacts m !! k = Some a ->
    k = artifactKey (aKind a) (aName a) (aVersion a) ∧ aKind a ∈ [ArtifactPack; ArtifactProfile] ∧
    NewDigest (aDocument a) = aDigest a
}.

(** What later operations never take away. *)
Record extends (m m' : Memory) : Prop := {
  ext_observed : observed m ⊆ observed m';
  ext_staged : staged m ⊆ staged m';
  ext_artifacts : artifacts m ⊆ artifacts m';
  ext_challenges : challenges m ⊆ challenges m';
  ext_disputes : disputes m ⊆ disputes m'
}.
#[export] Instance extends_po : PreOrder extends.
Proof.
  split; [by split|]. intros m1 m2 m3 [] []. split; by etrans.
Qed.

Ltac op_unfold :=
  unfold AddBearerToken, SetBearerToken, CreateIngest, UpdateIngest, PutStagedObservation,
    EnqueueVerification, PutPublishedObservation, PutOwnershipChallenge, PutOwnership, PutDispute,
    PutArtifact; go_unfold.

Lemma insert_fresh {A} (m : gmap string A) k v : ~ is_Some (m !! k) -> m ⊆ <[k := v]> m.
Proof. intros H. apply insert_subseteq. by apply eq_None_not_Some. Qed.

Lemma apply_extends op m : extends m (apply op m).2.
Proof.
  destruct op; simpl; op_unfold; repeat case_match; simplify_eq/=; try done;
    split; simpl; try done; try by apply insert_fresh.
  by apply insert_subseteq.
Qed.

Lemma apply_inv op m : store_inv m -> store_inv (apply op m).2.
Proof.
  intros I. destruct op; simpl; op_unfold; repeat case_match; simplify_eq/=; try done;
    split; simpl; try apply I; intros k x; rewrite lookup_insert_Some;
    intros [[<- <-]|[_ ?]]; try (by eapply I).
  all: repeat match goal with u : unit |- _ => destruct u end; try done.
  - by eapply inv_staged.
  - split_and!; [done..|eauto].
  - split_and!; [done| |by apply dec_stable]. rewrite !elem_of_cons. simpl.
    destruct (decide (aKind artifact = ArtifactPack)); [by left|].
    destruct (decide (aKind artifact = ArtifactProfile)); [by right; left|].
    match goal with H : ~ (_ ∧ _) |- _ => by destruct H end.
Qed.

Lemma store_run_inv ops : forall m, store_inv m -> store_inv (run ops m).
Proof. induction ops as [|op ops IH]; intros m I; [done|]. apply IH, apply_inv, I. Qed.

Lemma run_extends ops : forall m, extends m (run ops m).
Proof.
  induction ops as [|op ops IH]; intros m; [done|]. transitivity (apply op m).2; [apply apply_extends|apply IH].
Qed.

Lemma NewMemory_inv : store_inv NewMemory.
Proof. split; intros k x; simpl; by rewrite lookup_empty. Qed.

(** ** The listing *)
Definition id_lt (a b : Observation) : Prop := string_lt (obID a) (obID b).

Definition selected (f : ObservationFilter) (o : Observation) : bool :=
  match IndexObservation o with Ok index => matches f index | Err _ => false end.

(** The observations of the store in the order of their identifiers. *)
Definition all (m : Memory) : list Observation := merge_sort by_id (snd <$> range (observed m)).

#[local] Instance by_id_total : Total by_id.
Proof. intros a b. apply string_le_total. Qed.
#[local] Instance by_id_trans : Transitive by_id.
Proof. intros a b c. unfold by_id. apply transitivity. Qed.
#[local] Instance id_lt_trans : Transitive id_lt.
Proof. intros a b c. unfold id_lt. apply transitivity. Qed.
#[local] Instance id_lt_irrefl : Irreflexive id_lt.
Proof. intros a. unfold id_lt, complement. apply string_lt_irrefl. Qed.

Lemma elem_of_all m o : store_inv m -> o ∈ all m <-> observed m !! obID o = Some o.
Proof.
  intros I. unfold all. rewrite merge_sort_Permutation, list_elem_of_fmap. split.
  - intros ([k o'] & -> & H%elem_of_range). simpl. by destruct (inv_observed m I _ _ H) as [<- _].
  - intros H. exists (obID o, o). split; [done|]. by apply elem_of_range.
Qed.

(** A sorted list without two equal keys is strictly sorted. *)
Lemma all_strict m : store_inv m -> StronglySorted id_lt (all m).
Proof.
  intros I. assert (NoDup (obID <$> all m)) as Hn.
  { unfold all. rewrite merge_sort_Permutation, range_perm, <- list_fmap_compose.
    rewrite (list_fmap_ext _ fst).
    - apply NoDup_fst_map_to_list.
    - intros i [k o] H%list_elem_of_lookup_2%elem_of_map_to_list. simpl.
      by destruct (inv_observed m I _ _ H) as [-> _]. }
  assert (Sorted by_id (all m)) as Hs by (apply Sorted_merge_sort, _).
  apply Sorted_StronglySorted in Hs; [|apply _]. revert Hs Hn. generalize (all m) as l.
  induction 1 as [|o l Hs IH Hall]; intros Hn; [constructor|].
  rewrite fmap_cons, NoDup_cons in Hn. destruct Hn as [Hni Hn]. constructor; [by apply IH|].
  rewrite Forall_forall in *. intros o' Ho. unfold id_lt.
  destruct (proj1 (string_le_lt _ _) (Hall o' Ho)) as [E|]; [|done].
  destruct Hni. rewrite E. by apply list_elem_of_fmap_2.
Qed.

(** What remains to be listed after [after]. *)
Definition remaining (f : ObservationFilter) (after : Digest) (o : Observation) : Prop :=
  (after = "" ∨ string_lt after (obID o)) ∧ selected f o = true.
#[local] Instance remaining_dec f after o : Decision (remaining f after o).
Proof. unfold remaining. apply _. Defined.
Definition pending (m : Memory) (f : ObservationFilter) (after : Digest) : list Observation :=
  filter (remaining f after) (all m).

Lemma listing_scan_ok f after limit items : forall filtered,
  Forall (fun o => exists index, IndexObservation o = Ok index) items ->
  Z.of_nat (length filtered) <= limit ->
  scan f after limit items filtered =
    Ok (take (Z.to_nat (limit + 1)) (filtered ++ filter (remaining f after) items)).
Proof.
  induction items as [|o items IH]; intros filtered Hix Hlen; cbn [scan].
  - rewrite app_nil_r, take_ge by lia. done.
  - inversion Hix as [|? ? [index Hi] Hix']; subst. rewrite filter_cons.
    case_decide as A; rewrite string_le_not_lt in A.
    + rewrite decide_False by (unfold remaining; naive_solver). by apply IH.
    + rewrite Hi. unfold mbind at 1, result_bind. destruct (matches f index) eqn:Em.
      * rewrite (@decide_True _ (remaining f after o)) by (split; [destruct (decide (after = "")); [by left|right];
          apply dec_stable; tauto|unfold selected; by rewrite Hi, Em]).
        replace (filtered ++ o :: filter (remaining f after) items)
          with ((filtered ++ [o]) ++ filter (remaining f after) items) by (by rewrite <- app_assoc).
        case_decide as L.
        -- replace (Z.to_nat (limit + 1)) with (length (filtered ++ [o])) by lia.
           by rewrite take_app_length.
        -- apply IH; [done|]. rewrite length_app in *. simpl in *. lia.
      * rewrite decide_False by (intros [_ E]; unfold selected in E; by rewrite Hi, Em in E).
        by apply IH.
Qed.

(** ** Pages *)
Lemma cursor_roundtrip o :
  Observation_Validate o = Ok tt ->
  decode_cursor (EncodeToString (list_ascii_of_string (obID o))) = Ok (obID o) ∧
  EncodeToString (list_ascii_of_string (obID o)) <> [] ∧ obID o <> "".
Proof.
  intros Hv%Observation_Validate_digest%ObservationProjection_Digest_valid.
  assert (decode_cursor (EncodeToString (list_ascii_of_string (obID o))) = Ok (obID o)) as E.
  { unfold decode_cursor. destruct (EncodeToString _) as [|c cs] eqn:E.
    - apply EncodeToString_nil in E. destruct (obID o); [done|discriminate].
    - rewrite <- E, base64_roundtrip. unfold wrap, mbind, result_bind, ParseDigest.
      rewrite string_of_list_ascii_of_string.
      apply Digest_Validate_ok in Hv. by rewrite Hv. }
  assert (obID o <> "") as Hne by (intros E'; by rewrite E' in Hv).
  split_and!; [done| |done]. intros E'. rewrite E' in E. simpl in E. congruence.
Qed.

Lemma pending_inv m f after : store_inv m ->
  StronglySorted id_lt (pending m f after) ∧
  forall o, o ∈ pending m f after <-> remaining f after o ∧ observed m !! obID o = Some o.
Proof.
  intros I. split.
  - unfold pending. pose proof (all_strict m I) as S. induction S as [|o l S IH F]; [constructor|].
    rewrite filter_cons. case_decide; [|done]. constructor; [done|].
    apply Forall_forall. intros x [_ Hx]%list_elem_of_filter. by apply (proj1 (Forall_forall _ _) F).
  - intros o. unfold pending. by rewrite list_elem_of_filter, elem_of_all.
Qed.

(** One page. *)
Lemma ListObservations_ok m f cursor after limit :
  store_inv m -> 1 <= limit <= 100 -> decode_cursor cursor = Ok after ->
  exists page, ListObservations m f cursor limit = Ok page ∧
    Items page = take (Z.to_nat limit) (pending m f after) ∧
    (NextCursor page = [] -> (length (pending m f after) <= Z.to_nat limit)%nat) ∧
    (NextCursor page <> [] -> exists o, last (Items page) = Some o ∧
       (Z.to_nat limit < length (pending m f after))%nat ∧
       decode_cursor (NextCursor page) = Ok (obID o) ∧ obID o <> "").
Proof.
  intros I Hl Hc. unfold ListObservations. go_unfold. rewrite decide_False by lia. rewrite Hc.
  fold (all m). rewrite listing_scan_ok; [|apply Forall_forall; intros o Ho|simpl; lia].
  2: { apply elem_of_all in Ho; [|done]. by destruct (inv_observed m I _ _ Ho) as (_ & _ & ?). }
  simpl. fold (pending m f after). set (p := pending m f after).
  eexists. split; [done|]. unfold make_page. rewrite length_take. case_decide as L; simpl.
  - rewrite take_take. replace (Z.to_nat limit `min` Z.to_nat (limit + 1))%nat with (Z.to_nat limit) by lia.
    assert (length (take (Z.to_nat limit) p) = Z.to_nat limit) as Hlen by (rewrite length_take; lia).
    destruct (last (take (Z.to_nat limit) p)) as [o|] eqn:E.
    2: { apply last_None in E. rewrite E in Hlen. simpl in Hlen. lia. }
    assert (observed m !! obID o = Some o) as Ho.
    { apply last_Some_elem_of, elem_of_take in E as (i & Hi & _).
      apply (pending_inv m f after I). by eapply list_elem_of_lookup_2. }
    destruct (cursor_roundtrip o) as (C1 & C2 & C3); [by eapply inv_observed|].
    split_and!; [done|done|]. intros _. exists o. split_and!; [done|lia|done..].
  - split_and!; [|lia|done]. rewrite !take_ge by lia. done.
Qed.

(** ** Following cursors *)

(** A client that follows the cursors while other operations run between
    two pages, one batch after each page; the flag says whether the last
    page was reached. *)
Fixpoint browse (f : ObservationFilter) (limit : Z) (m : Memory) (cursor : list ascii)
    (batches : list (list Operation)) : result error (list Observation * bool) :=
  page ← ListObservations m f cursor limit;
  if decide (NextCursor page = []) then mret (Items page, true)
  else match batches with
  | [] => mret (Items page, false)
  | ops :: batches' =>
      '(items, finished) ← browse f limit (run ops m) (NextCursor page) batches';
      mret (Items page ++ items, finished)
  end.

(** What is left after a full page, in a store with at least as much. *)
Lemma pending_after m f after n o :
  store_inv m -> obID o <> "" -> last (take n (pending m f after)) = Some o ->
  (forall o', o' ∈ take n (pending m f after) -> o' = o ∨ id_lt o' o) ∧
  (after = "" ∨ string_lt after (obID o)) ∧
  drop n (pending m f after) = pending m f (obID o).
Proof.
  intros I Hne Hlast. destruct (pending_inv m f after I) as [S P].
  rewrite <- (take_drop n (pending m f after)) in S.
  destruct (sorted_split id_lt _ _ _ S Hlast) as (H1 & H2 & H3). rewrite take_drop in S, H3.
  assert (o ∈ pending m f after) as Ho.
  { rewrite <- (take_drop n). apply elem_of_app. left. by apply last_Some_elem_of. }
  apply P in Ho as [[Ha _] _]. split_and!; [done|done|].
  destruct (pending_inv m f (obID o) I) as [S' P'].
  apply (strictly_sorted_unique id_lt); [|done|].
  - rewrite <- (take_drop n) in S. by apply StronglySorted_app_1_r in S.
  - intros x. rewrite H3, P, P'. unfold remaining, id_lt. split.
    + intros [[[_ ?] ?] ?]. auto.
    + intros [[[?|Hlt] ?] ?]; [done|]. split_and!; try done.
      destruct Ha as [->|Ha]; [by left|right]. by etrans.
Qed.

(** What [browse] has established when it returns. *)
Record browsed (f : ObservationFilter) (limit : Z) (m : Memory) (after : Digest)
    (batches : list (list Operation)) (items : list Observation) (finished : bool) : Prop := {
  br_sorted : StronglySorted id_lt items;
  br_sound o : o ∈ items ->
    remaining f after o ∧ observed (run (concat batches) m) !! obID o = Some o;
  br_complete : finished = true -> forall o,
    observed m !! obID o = Some o -> remaining f after o -> o ∈ items;
  br_ends :
    (length (pending (run (concat batches) m) f after) <= Z.to_nat limit * S (length batches))%nat -> finished = true
}.

Lemma observed_run ops m k o : observed m !! k = Some o -> observed (run ops m) !! k = Some o.
Proof. intros H. eapply lookup_weaken; [done|]. apply run_extends. Qed.

Lemma take_elem_of {A} n (l : list A) x : x ∈ take n l -> x ∈ l.
Proof. intros (i & Hi & _)%elem_of_take. by eapply list_elem_of_lookup_2. Qed.

Lemma browsed_last f limit m after batches :
  store_inv m -> browsed f limit m after batches (pending m f after) true.
Proof.
  intros I. destruct (pending_inv m f after I) as [S P]. split; try done.
  - intros o [H1 H2]%P. split; [done|]. by apply observed_run.
  - intros _ o H1 H2. by apply P.
Qed.

Lemma browsed_cut f limit m after :
  store_inv m -> (Z.to_nat limit < length (pending m f after))%nat ->
  browsed f limit m after [] (take (Z.to_nat limit) (pending m f after)) false.
Proof.
  intros I Hlen. destruct (pending_inv m f after I) as [S P]. split; try done.
  - rewrite <- (take_drop (Z.to_nat limit)) in S. by apply StronglySorted_app_1_l in S.
  - intros o Ho. apply P. by eapply take_elem_of.
  - simpl. lia.
Qed.

Lemma run_app ops1 ops2 m : run (ops1 ++ ops2) m = run ops2 (run ops1 m).
Proof. unfold run. by rewrite foldl_app. Qed.

(** In a store that has grown since, a page that was full and what follows
    its last item are different parts of what was left before it. *)
Lemma page_and_rest f limit m m' after o :
  store_inv m -> store_inv m' -> obID o <> "" -> last (take (Z.to_nat limit) (pending m f after)) = Some o ->
  (forall k x, observed m !! k = Some x -> observed m' !! k = Some x) ->
  (length (take (Z.to_nat limit) (pending m f after)) + length (pending m' f (obID o)) <= length (pending m' f after))%nat.
Proof.
  intros I I' Hne Hlast Hgrow. destruct (pending_inv m f after I) as [S P], (pending_inv m' f after I') as [S1 P1],
    (pending_inv m' f (obID o) I') as [S2 P2]. destruct (pending_after m f after _ o I Hne Hlast) as (A1 & A2 & _).
  rewrite <- length_app. apply submseteq_length, NoDup_submseteq.
  - apply NoDup_app. split_and!.
    + rewrite <- (take_drop (Z.to_nat limit)) in S. apply StronglySorted_app_1_l in S. by apply (strictly_sorted_NoDup id_lt).
    + intros x Hx [[[?|Hlt] _] _]%P2; [done|]. destruct (A1 x Hx) as [->|Hx']; [by apply (irreflexivity string_lt (obID o))|].
      unfold id_lt in Hx'. by apply (irreflexivity string_lt (obID o)); etrans.
    + by apply (strictly_sorted_NoDup id_lt).
  - intros x [Hx|Hx]%elem_of_app.
    + apply take_elem_of in Hx. apply P in Hx as [H1 H2]. apply P1. split; [done|]. by apply Hgrow.
    + apply P2 in Hx as [[[?|Hx] Hs] Ho]; [done|]. apply P1. split; [|done]. split; [|done].
      destruct A2 as [->|A2]; [by left|right]. by etrans.
Qed.

Lemma browsed_step f limit m after ops batches o items finished :
  store_inv m -> obID o <> "" -> last (take (Z.to_nat limit) (pending m f after)) = Some o ->
  (Z.to_nat limit < length (pending m f after))%nat ->
  browsed f limit (run ops m) (obID o) batches items finished ->
  browsed f limit m after (ops :: batches) (take (Z.to_nat limit) (pending m f after) ++ items) finished.
Proof.
  intros I Hne Hlast Hfull [B1 B2 B3 B4]. destruct (pending_inv m f after I) as [S P].
  destruct (pending_after m f after _ o I Hne Hlast) as (A1 & A2 & A3). split.
  - apply StronglySorted_app. split_and!; [|rewrite <- (take_drop (Z.to_nat limit)) in S;
      by apply StronglySorted_app_1_l in S|done].
    intros x y Hx [[[?|Hy] _] _]%B2; [done|]. destruct (A1 x Hx) as [->|Hlt]; [done|].
    unfold id_lt in *. by etrans.
  - intros x [Hx|Hx]%elem_of_app.
    + apply take_elem_of in Hx. apply P in Hx as [H1 H2]. split; [done|]. by apply observed_run.
    + apply B2 in Hx as [[[?|Hx] Hs] Ho]; [done|]. simpl. split.
      * split; [|done]. destruct A2 as [->|A2]; [by left|right]. by etrans.
      * unfold run in *. by rewrite foldl_app.
  - intros Hf x Hx Hr. apply elem_of_app. assert (x ∈ pending m f after) as Hp by by apply P.
    rewrite <- (take_drop (Z.to_nat limit)) in Hp. apply elem_of_app in Hp as [Hp|Hp]; [by left|right].
    rewrite A3 in Hp. apply (pending_inv m f (obID o) I) in Hp as [Hr' _].
    apply B3; [done| |done]. by apply observed_run.
  - intros Hlen. apply B4. cbn [concat] in Hlen. rewrite run_app in Hlen.
    pose proof (page_and_rest f limit m (run (concat batches) (run ops m)) after o I
      ltac:(by apply store_run_inv, store_run_inv) Hne Hlast ltac:(intros k x Hx; by apply observed_run, observed_run)) as L.
    assert (length (take (Z.to_nat limit) (pending m f after)) = Z.to_nat limit) as Hp by (rewrite length_take; lia).
    simpl in Hlen. lia.
Qed.

Lemma browse_ok f limit batches : forall m cursor after,
  store_inv m -> 1 <= limit <= 100 -> decode_cursor cursor = Ok after ->
  exists items finished, browse f limit m cursor batches = Ok (items, finished) ∧
    browsed f limit m after batches items finished.
Proof.
  induction batches as [|ops batches IH]; intros m cursor after I Hl Hc; cbn [browse];
    destruct (ListObservations_ok m f cursor after limit I Hl Hc) as (page & E & Hi & Hend & Hmore);
    rewrite E; unfold mbind at 1, result_bind at 1; case_decide as Hn.
  1, 3: exists (Items page), true; split; [done|]; rewrite Hi, take_ge by auto; by apply browsed_last.
  - destruct (Hmore Hn) as (o & _ & Hlen & _). exists (Items page), false. split; [done|].
    rewrite Hi. by apply browsed_cut.
  - destruct (Hmore Hn) as (o & Hlast & Hfull & Hdec & Hne).
    destruct (IH (run ops m) (NextCursor page) (obID o)) as (items & fin & E' & B);
      [by apply store_run_inv|done|done|].
    exists (Items page ++ items), fin. rewrite E'. split; [done|]. rewrite Hi in *.
    by apply browsed_step with o.
Qed.

(** [C39] Cursors list every observation once, even while others publish: on
    a store reached by any operations, a client that follows the cursors
    with a limit from 1 to 100, with any operations of others between two
    pages, is never refused; what it receives is strictly ordered by
    identifier, hence without duplicates, matches its filter and is in the
    store; when it has reached the last page it has every matching
    observation that was there when it began (of those published meanwhile,
    the ones behind its cursor are missed); and the last page comes after at
    most one page per [limit] observations that are there in the end. *)
Theorem cursors_list_everything_once ops0 f limit batches
    (Hlimit : 1 <= limit <= 100) :
  let m := run ops0 NewMemory in
  exists items finished, browse f limit m [] batches = Ok (items, finished) ∧
    StronglySorted id_lt items ∧
    (forall o, o ∈ items -> selected f o = true ∧
       observed (run (concat batches) m) !! obID o = Some o) ∧
    (finished = true -> forall o, observed m !! obID o = Some o -> selected f o = true -> o ∈ items) ∧
    (Z.of_nat (size (observed (run (concat batches) m))) <= limit * (Z.of_nat (length batches) + 1) -> finished = true).
Proof.
  intros m. assert (store_inv m) as I by apply store_run_inv, NewMemory_inv.
  destruct (browse_ok f limit batches m [] "" I Hlimit eq_refl) as (items & fin & E & [B1 B2 B3 B4]).
  exists items, fin. split_and!; [done..| | |].
  - intros o Ho. destruct (B2 o Ho) as [[_ Hs] Hin]. done.
  - intros Hf o Ho Hs. apply B3; [done..|]. by split; [left|].
  - intros Hsize. apply B4. set (m' := run (concat batches) m) in *.
    assert (length (pending m' f "") <= size (observed m'))%nat; [|lia].
    unfold pending, all. etrans; [apply length_filter|]. rewrite merge_sort_Permutation, length_fmap.
    by rewrite range_perm, length_map_to_list.
Qed.

(** Published content is content-addressed and permanent: on a store
    reached by any operations, what [GetObservation] answers for an
    identifier is a valid observation of that very identifier, and no later
    operation changes the answer; nor does one change a staged observation,
    or an artifact, whose document is the one its digest names. *)
Theorem published_content_is_permanent ops0 ops :
  let m := run ops0 NewMemory in
  let m' := run ops m in
  (forall id o, GetObservation m id = Ok o ->
     obID o = id ∧ Observation_Validate o = Ok tt ∧ GetObservation m' id = Ok o) ∧
  (forall id o, GetStagedObservation m id = Ok o ->
     Observation_Validate o = Ok tt ∧ GetStagedObservation m' id = Ok o) ∧
  (forall kind name version a, GetArtifact m kind name version = Ok a ->
     NewDigest (aDocument a) = aDigest a ∧ GetArtifact m' kind name version = Ok a).
Proof.
  intros m m'. assert (store_inv m) as I by apply store_run_inv, NewMemory_inv.
  pose proof (run_extends ops m) as [X1 X2 X3 _ _]. fold m' in X1, X2, X3.
  assert (forall A (o : option A) a, found o = Ok a <-> o = Some a) as F.
  { intros A [b|] a; simpl; naive_solver. }
  unfold GetObservation, GetStagedObservation, GetArtifact. setoid_rewrite F. split_and!.
  - intros id o H. destruct (inv_observed m I _ _ H) as (-> & Hv & _).
    split_and!; [done|done|]. by eapply lookup_weaken.
  - intros id o H. split; [by eapply inv_staged|by eapply lookup_weaken].
  - intros kind name version a H. split; [by eapply (inv_artifacts m I)|by eapply lookup_weaken].
Qed.

(** ** Credentials *)

(** The last operation that stored a credential under [hash]. *)
Definition granted (ops : list Operation) (hash : list ascii) (r : tokenRecord) : Prop :=
  exists before after token op m, ops = before ++ op :: after ∧
    (op = OpAddToken token (tokPrincipal r) (tokExpiresAt r) ∨
     op = OpSetToken token (tokPrincipal r) (tokExpiresAt r)) ∧
    hash = HashBearerToken token ∧ m = run before NewMemory ∧ (apply op m).1 = Ok tt ∧
    validateBearerCredential token (tokPrincipal r) (tokExpiresAt r) = Ok tt.

Lemma granted_snoc ops op hash r : granted ops hash r -> granted (ops ++ [op]) hash r.
Proof.
  intros (b & a & t & o & m & -> & H). exists b, (a ++ [op]), t, o, m. by rewrite <- app_assoc.
Qed.

Lemma apply_tokens op m hash r :
  tokens (apply op m).2 !! hash = Some r -> tokens m !! hash = Some r ∨
  exists token, (op = OpAddToken token (tokPrincipal r) (tokExpiresAt r) ∨
     op = OpSetToken token (tokPrincipal r) (tokExpiresAt r)) ∧
    hash = HashBearerToken token ∧ (apply op m).1 = Ok tt ∧
    validateBearerCredential token (tokPrincipal r) (tokExpiresAt r) = Ok tt.
Proof.
  destruct op; simpl; op_unfold; repeat case_match; simplify_eq/=; try tauto;
    rewrite lookup_insert_Some; (intros [[<- <-]|[_ ?]]; [|by left]); right; exists token;
    repeat match goal with u : unit |- _ => destruct u end; simpl; auto.
Qed.

Lemma tokens_granted ops hash r :
  tokens (run ops NewMemory) !! hash = Some r -> granted ops hash r.
Proof.
  induction ops as [|op ops IH] using rev_ind; [done|]. unfold run. rewrite foldl_app. simpl.
  intros [H|(token & Hop & Hh & Hok & Hv)]%apply_tokens; [by apply granted_snoc, IH|].
  exists ops, [], token, op, (run ops NewMemory). by split_and!.
Qed.

(** No credential, no principal: a bearer token hash is accepted at a
    time only if an operation that succeeded stored exactly that principal
    under a token of that hash, with an expiry after that time, and the
    stored credential was well formed. *)
Theorem bearer_tokens_are_granted ops hash now principal
    (Hlookup : LookupBearerToken (run ops NewMemory) hash now = Ok principal) :
  exists expiresAt, granted ops hash (mkTokenRecord principal expiresAt) ∧ now <> 0 ∧ now < expiresAt.
Proof.
  unfold LookupBearerToken in Hlookup. destruct (tokens _ !! hash) as [r|] eqn:E; [|done].
  apply bind_Ok in Hlookup as ([] & Hn & Hp). apply err_if_ok in Hn. unfold mret, result_ret in Hp.
  injection Hp as <-. exists (tokExpiresAt r). apply tokens_granted in E. unfold IsZero, Before in Hn.
  split_and!; [by destruct r|lia..].
Qed.
End Spec.

(** ** A concrete store *)
#[local] Instance sample_json : JSONLibrary := {
  NewDecoder raw := mkDecoder [Scalar SNull] io_EOF false;
  jcs_Transform raw := Ok raw;
  Sum256 data := resize 32 "0"%char data;
  Sum256_length data := length_resize data 32 "0"%char
}.
#[local] Instance sample_observations : ObservationCodec := {
  marshal_projection p := Ok (canonical (opSubject p));
  marshal_wire w := Ok (list_ascii_of_string (wObservationID w));
  unmarshal_wire _ := Err (ErrorNew (Text "no wire"))
}.
#[local] Instance sample_store : StoreCodec := {
  unmarshal_subject raw := Ok (string_of_list_ascii raw, "1");
  unmarshal_test _ := Ok ("pack", "1", "profile")
}.
Definition sample_class : Digest :=
  "sha256:0123456789abcdef0123456789abcdef0123456789abcdef0123456789abcdef".
Definition sample_derived : RegistryDerived := mkRegistryDerived ["verified"] "fresh" None [] "" false.
Definition sample_object (s : string) : CanonicalObject := mkCanonicalObject (list_ascii_of_string s).
Definition sample_projection (s : string) : ObservationProjection :=
  mkObservationProjection ObservationSchemaV1 (sample_object s) (sample_object "t") (sample_object "e")
    (sample_object "r") sample_class.
Definition sample_published (s : string) : Observation :=
  match NewObservation (sample_projection s) sample_class [] sample_derived with
  | Ok o => o
  | Err _ => mkObservation "" "" (sample_projection s) [] sample_derived
  end.
Definition sample_filter : ObservationFilter := mkObservationFilter "" "" "" "" "verified" "".
Definition sample_ops : list Operation :=
  [OpPutPublished (sample_published "c"); OpPutPublished (sample_published "a");
   OpPutPublished (sample_published "a"); OpPutPublished (sample_published "e")].

(** Two pages; "d" is published in between and listed, "b" too late. *)
Example sample_browse :
  browse sample_filter 2 (run sample_ops NewMemory) []
    [[OpPutPublished (sample_published "d"); OpPutPublished (sample_published "b")]] =
  Ok ([sample_published "a"; sample_published "c"; sample_published "d"; sample_published "e"], true).
Proof. vm_compute. reflexivity. Qed.

Lemma cursors_list_everything_once_witness :
  exists items, browse sample_filter 2 (run sample_ops NewMemory) []
      [[OpPutPublished (sample_published "d"); OpPutPublished (sample_published "b")]; []] = Ok (items, true) ∧
    StronglySorted id_lt items.
Proof.
  destruct (cursors_list_everything_once sample_ops sample_filter 2
    [[OpPutPublished (sample_published "d"); OpPutPublished (sample_published "b")]; []] ltac:(lia))
    as (items & finished & E & S & _ & _ & T).
  exists items. rewrite T in E; [exact (conj E S)|]. vm_compute. discriminate.
Defined.

Lemma bearer_tokens_are_granted_witness :
  exists expiresAt, granted [OpAddToken "0123456789abcdef" alice 9]
    (HashBearerToken "0123456789abcdef") (mkTokenRecord alice expiresAt).
Proof.
  destruct (bearer_tokens_are_granted [OpAddToken "0123456789abcdef" alice 9]
    (HashBearerToken "0123456789abcdef") 5 alice) as (expiresAt & H & _).
  - vm_compute. reflexivity.
  - exact (ex_intro _ expiresAt H).
Defined.

(** The key of an artifact does not separate a name from a version that
    contains a NUL byte. *)
Example artifact_keys_collide :
  artifactKey ArtifactPack (String "a" (String "000" "b")) "c" =
  artifactKey ArtifactPack "a" (String "b" (String "000" "c")).
Proof. reflexivity. Qed.
