(* ===== verification/Httpapi.v ===== *)
(** * internal/registry/httpapi: the HTTP interface of the registry

    server.go, handlers.go, transport.go and errors.go over the in-memory
    store of StoreMemory.v and the limiter of RateLimit.v.  A handler ends
    with a [Reply]; an early return is the error of the monad, so the state at
    that point is kept.  Header writes are in their order, a later one of the
    same name replaces an earlier one.  Sessions, challenges and disputes are
    pointers that the store shares with the handlers, so a session that a
    handler stages or commits is the one in the store.  What the handlers use
    of net/http, mime and encoding/json is the class [HTTPLibrary]. *)
From Stdlib Require Import ZArith Ascii String Lia.
From stdpp Require Import base gmap sets list strings pretty.
From S2P Require Import RegistryIngest RegistryChallenge RegistryOwnership RegistryDispute.
From S2P Require Import Prelude Sorting Regex Schema Canonical SSE Documents RawJSON RawRegistry PackPattern Base64.
From S2P Require Import RegistryAuth Observation StoreMemory RateLimit.
Local Open Scope Z_scope.
Local Open Scope string_scope.
Local Open Scope list_scope.

(** ** Requests and replies *)

(** [rqQuery] is what [URL.Query] answers; header names are canonical.  A body
    is its bytes and what follows them, [None] for the end; no body is nil or
    [http.NoBody]. *)
Record Request := mkRequest {
  rqMethod : string;
  rqPath : string;
  rqRawQuery : string;
  rqQuery : gmap string (list string);
  rqHeader : gmap string (list string);
  rqRemoteAddr : string;
  rqBody : option (list ascii * option error)
}.
Definition Header_Values (request : Request) (name : string) : list string := default [] (rqHeader request !! name).
Definition Header_Get (request : Request) (name : string) : string := default "" (head (Header_Values request name)).
Definition Query_Get (request : Request) (name : string) : string :=
  default "" (head (default [] (rqQuery request !! name))).

Inductive Body :=
| NoContent
| ErrorBody (code message : string)
| Bytes (raw : list ascii).
Record Reply := mkReply { rpStatus : Z; rpHeaders : list (string * string); rpBody : Body }.
Definition with_header (name value : string) (reply : Reply) : Reply :=
  mkReply (rpStatus reply) ((name, value) :: rpHeaders reply) (rpBody reply).

(** How a handler stops: with a reply, or with a nil dereference. *)
Inductive Stop := Replied (reply : Reply) | Panicked.

Definition StatusOK : Z := 200.
Definition StatusCreated : Z := 201.
Definition StatusAccepted : Z := 202.
Definition StatusNoContent : Z := 204.
Definition StatusNotModified : Z := 304.
Definition StatusPermanentRedirect : Z := 308.
Definition StatusBadRequest : Z := 400.
Definition StatusUnauthorized : Z := 401.
Definition StatusForbidden : Z := 403.
Definition StatusNotFound : Z := 404.
Definition StatusMethodNotAllowed : Z := 405.
Definition StatusConflict : Z := 409.
Definition StatusGone : Z := 410.
Definition StatusRequestEntityTooLarge : Z := 413.
Definition StatusUnsupportedMediaType : Z := 415.
Definition StatusUnprocessableEntity : Z := 422.
Definition StatusTooManyRequests : Z := 429.
Definition StatusInternalServerError : Z := 500.
Definition StatusNotImplemented : Z := 501.

Definition json_content : string := "application/json; charset=utf-8".
Definition writeError (status : Z) (code message : string) : Reply :=
  mkReply status [("Content-Type", json_content); ("Cache-Control", "no-store")] (ErrorBody code message).

Definition quoted (s : string) : string := String (ascii_of_nat 34) (s +:+ String (ascii_of_nat 34) "").
Definition bearer_realm (reply : Reply) : Reply :=
  with_header "WWW-Authenticate" ("Bearer realm=" +:+ quoted "agentapi-doctor-registry") reply.

(** [errors.Is] against a sentinel. *)
Definition is_sentinel (e target : error) : bool :=
  match target with Sentinel name => errors_Is e name | _ => false end.

Definition writeDomainError (e : error) : Reply :=
  if (is_sentinel e ErrUnauthenticated || is_sentinel e ErrTokenExpired)%bool then
    bearer_realm (writeError StatusUnauthorized "invalid_token" "a valid Bearer token is required")
  else if (is_sentinel e ErrForbidden || is_sentinel e ErrNotOwner)%bool then
    writeError StatusForbidden "forbidden" "the authenticated principal is not authorized"
  else if is_sentinel e ErrNotFound then
    writeError StatusNotFound "not_found" "the requested Registry object was not found"
  else if is_sentinel e ErrInvalidCursor then
    writeError StatusBadRequest "invalid_cursor" "the pagination cursor is invalid"
  else if is_sentinel e ErrExpired then writeError StatusGone "expired" "the Registry object has expired"
  else if is_sentinel e ErrDigestMismatch then
    writeError StatusConflict "digest_mismatch" "the submitted digest does not match the prepared digest"
  else if is_sentinel e ErrInvalidTransition then
    writeError StatusConflict "invalid_state" "the Registry object is not in a valid state for this operation"
  else if (is_sentinel e ErrConflict || is_sentinel e ErrAlreadyExists)%bool then
    writeError StatusConflict "conflict" "the operation conflicts with existing Registry state"
  else if is_sentinel e ErrNotImplemented then
    writeError StatusNotImplemented "not_implemented" "this persistent hosted capability is not implemented"
  else writeError StatusUnprocessableEntity "invalid_request" "the request did not satisfy the Registry contract".

(** The error is not written. *)
Definition internalError (e : error) : Reply :=
  writeError StatusInternalServerError "internal_error" "the Registry could not complete the request".

(** ** Contracts *)
Record prepareRequest := mkPrepareRequest { prObservationDigest : Digest; prUploadDigest : Digest; prSizeBytes : Z }.
Record prepareResponse := mkPrepareResponse {
  psSessionID : InstanceID; psObservationID : Digest; psUploadDigest : Digest; psUploadURL : string;
  psUploadChallenge : string; psChallengeHeader : string; psMaxBytes : Z; psExpiresAt : Time; psEphemeral : bool;
  psCapabilities : Capabilities
}.
Record commitRequest := mkCommitRequest { cqSessionID : InstanceID; cqObservationDigest : Digest; cqUploadDigest : Digest }.
Record commitResponse := mkCommitResponse {
  csSessionID : InstanceID; csObservationDigest : Digest; csStatus : IngestStatus; csVerificationStatus : string;
  csEphemeral : bool; csCapabilities : Capabilities
}.
Record ownershipChallengeRequest := mkOwnershipChallengeRequest { oqSubject : string; oqMethod : OwnershipMethod }.
Record createDisputeRequest := mkCreateDisputeRequest { dqObservationID : Digest; dqStatement : string }.
Record registryObservation := mkRegistryObservation { roObservation : Observation; roRawBytes : Z; roUploadDigest : Digest }.
Record disputeEventResponse := mkDisputeEventResponse {
  deSequence : Z; deKind : DisputeEventKind; deActor : PrincipalID; deAt : Time; deStatement : string; deReplacementID : Digest
}.
Record disputeView := mkDisputeView {
  dvID : InstanceID; dvObservationID : Digest; dvSubject : SubjectNamespace; dvStatus : DisputeStatus;
  dvEvents : list disputeEventResponse
}.
Record challengeView := mkChallengeView {
  cvID : InstanceID; cvSubject : SubjectNamespace; cvMethod : OwnershipMethod; cvNonce : string; cvExpiresAt : Time;
  cvStatus : ChallengeStatus; cvVerificationAvailable : bool
}.

(** What is encoded into a reply. *)
Inductive View :=
| PrepareView (v : prepareResponse)
| CommitView (v : commitResponse)
| ObservationView (o : Observation)
| ListView (items : list Observation) (nextCursor : list ascii)
| SubjectView (subject : string) (items : list Observation) (nextCursor : list ascii)
| ArtifactView (a : Artifact)
| ChallengeView (v : challengeView)
| DisputeView (v : disputeView).

Definition disputeResponse (snapshot : DisputeSnapshot) : disputeView :=
  mkDisputeView (RegistryDispute.ID snapshot) (RegistryDispute.ObservationID snapshot) (RegistryDispute.Subject snapshot)
    (RegistryDispute.Status snapshot)
    ((fun e => mkDisputeEventResponse (RegistryDispute.Sequence e) (RegistryDispute.Kind e) (RegistryDispute.Actor e)
                 (RegistryDispute.At e) (RegistryDispute.Statement e) (RegistryDispute.ReplacementID e))
       <$> RegistryDispute.Events snapshot).

Class HTTPLibrary := {
  http_store :: StoreCodec;
  http_EqualFold : string -> string -> bool;
  (** [mime.ParseMediaType] with its parameters *)
  http_ParseMediaType : string -> result error (string * gmap string string);
  http_SplitHostPort : string -> result error (string * string);
  (** a strict [Decode] with what a second one answers *)
  Decode_prepareRequest : list ascii -> result error (prepareRequest * result error unit);
  Decode_commitRequest : list ascii -> result error (commitRequest * result error unit);
  Decode_ownershipChallengeRequest : list ascii -> result error (ownershipChallengeRequest * result error unit);
  Decode_createDisputeRequest : list ascii -> result error (createDisputeRequest * result error unit);
  (** the names of [json.Unmarshal] into a map of raw values *)
  Unmarshal_members : list ascii -> result error (list string);
  Marshal_View : View -> result error (list ascii);
  (** the static pages, and [http.Redirect] *)
  matrix_ServeHTTP : Request -> Reply;
  http_Redirect : Request -> string -> Z -> Reply
}.

(** ** Helpers of transport.go *)
Definition strictQuery (request : Request) (allowed : list string) : bool :=
  bool_decide (map_Forall (fun name values => name ∈ allowed ∧ length values = 1%nat) (rqQuery request)).
Definition Query_Has (request : Request) (name : string) : bool := bool_decide (is_Some (rqQuery request !! name)).

Definition validURLValue (value : string) (maxBytes : Z) : bool :=
  if decide (len value > maxBytes ∨ has_line_control value = true) then false else true.

(** [strings.Fields]: [current] holds the field so far, backwards.  Each step
    passes a byte, so the length is enough fuel. *)
Fixpoint fields (fuel : nat) (s current : list N) : list (list N) :=
  let flush rest := match current with [] => rest | _ => rev current :: rest end in
  match fuel, s with
  | S fuel, c :: s' =>
      match space_head s with
      | Some n => flush (fields fuel (drop n s) [])
      | None => fields fuel s' (c :: current)
      end
  | _, _ => flush []
  end.
Definition Fields (s : string) : list string := string_of_bytes <$> fields (String.length s) (bytes_of s) [].

(** [html.EscapeString]. *)
Definition escape_char (c : ascii) : string :=
  if is_byte 38 c then "&amp;" else if is_byte 39 c then "&#39;" else if is_byte 60 c then "&lt;"
  else if is_byte 62 c then "&gt;" else if is_byte 34 c then "&#34;" else String c "".
Fixpoint EscapeString (s : string) : string :=
  match s with EmptyString => "" | String c s => escape_char c +:+ EscapeString s end.

Definition etagMatches (header etag : string) : bool :=
  existsb (fun candidate => bool_decide (TrimSpace candidate = "*" ∨ TrimSpace candidate = etag)) (Split "," header).

Definition parseLimit (raw : string) : option Z :=
  if decide (raw = "") then Some 25
  else match ParseInt raw with
       | Some value => if decide (1 <= value <= 100) then Some value else None
       | None => None
       end.

Definition safePath (value : string) : bool :=
  if decide (value = "" ∨ HasPrefix value "/" = false ∨ path_Clean value ≠ value ∨ Contains value "\" = true) then false
  else negb (has_control [] (bytes_of value)).

Definition Second : Z := 1000000000.
Definition retryAfterSeconds (duration : Z) : string :=
  let seconds := Z.quot duration Second in
  let seconds := if decide (Z.rem duration Second ≠ 0) then seconds + 1 else seconds in
  pretty (Z.max seconds 1).

Definition verifierUnavailableMessage (capabilities : Capabilities) : string :=
  "the exact commit was recorded " +:+ (if DurablePersistence capabilities then "in durable local storage" else "in memory") +:+
  ", but hosted verification and publication are not configured".

(** ** The server *)
Record Server := mkServer { svMaxJSONBytes : Z; svMaxUploadBytes : Z; svSessionTTL : Z; svChallengeTTL : Z }.
Record Config := mkConfig {
  cfMaxJSONBytes : Z; cfMaxUploadBytes : Z; cfSessionTTL : Z; cfChallengeTTL : Z; cfRateLimit : Z; cfRateWindow : Z
}.
Definition Minute : Z := 60 * Second.
Definition defaultJSONBytes : Z := Z.shiftl 2 20.
Definition defaultUploadBytes : Z := Z.shiftl 8 20.
Definition or_default (value fallback : Z) : Z := if decide (value = 0) then fallback else value.

(** The server with its limiter; the store is given. *)
Definition New (config : Config) : result error (Server * fixedWindowLimiter) :=
  let json := or_default (cfMaxJSONBytes config) defaultJSONBytes in
  let upload := or_default (cfMaxUploadBytes config) defaultUploadBytes in
  let session := or_default (cfSessionTTL config) (15 * Minute) in
  let challenge := or_default (cfChallengeTTL config) (15 * Minute) in
  let window := or_default (cfRateWindow config) Minute in
  err_if (json < 1 ∨ upload < 1 ∨ session <= 0 ∨ challenge <= 0 ∨ cfRateLimit config < 0 ∨ window <= 0)
    (ErrorNew (Text "registry HTTP limits and TTLs must be positive"));;
  mret (mkServer json upload session challenge, newFixedWindowLimiter (cfRateLimit config) window).

Section Handlers.
Context {lib : HTTPLibrary} {ro : RangeOrder string CanonicalObject} {ro' : RangeOrder string Observation}.
(** The source of random bytes. *)
Context {R : Type} (random_ReadFull : nat -> R -> result error (list ascii) * R).
Context (server : Server).

Record World := mkWorld {
  wdMemory : Memory; wdHeap : Heap; wdNext : pointer; wdRandom : R; wdLimiter : fixedWindowLimiter
}.
Definition Handler := GoM World Stop.

Definition set_memory (m : Memory) (w : World) : World := mkWorld m (wdHeap w) (wdNext w) (wdRandom w) (wdLimiter w).
Definition set_heap (h : Heap) (w : World) : World := mkWorld (wdMemory w) h (wdNext w) (wdRandom w) (wdLimiter w).
Definition set_random (r : R) (w : World) : World := mkWorld (wdMemory w) (wdHeap w) (wdNext w) r (wdLimiter w).
Definition set_limiter (l : fixedWindowLimiter) (w : World) : World :=
  mkWorld (wdMemory w) (wdHeap w) (wdNext w) (wdRandom w) l.

(** An early return. *)
Definition reply {A} (r : Reply) : Handler A := fail (Replied r).
Definition reply_if (P : Prop) `{Decision P} (r : Reply) : Handler unit := fail_if P (Replied r).
(** [if err != nil { answer(err); return }]. *)
Definition answering {A} (answer : error -> Reply) (r : result error A) : Handler A :=
  lift (wrap (fun e => Replied (answer e)) r).
Definition on_memory {A} (answer : error -> Reply) (m : GoM Memory error A) : Handler A := fun w =>
  match m (wdMemory w) with
  | (Ok a, m') => (Ok a, set_memory m' w)
  | (Err e, m') => (Err (Replied (answer e)), set_memory m' w)
  end.
Definition read_random (n : nat) : Handler (result error (list ascii)) := fun w =>
  let '(r, s) := random_ReadFull n (wdRandom w) in (Ok r, set_random s w).

(** New objects on the heap. *)
Definition override {A} (p : pointer) (a : A) (f : pointer -> A) : pointer -> A := fun q => if decide (q = p) then a else f q.
Definition set_session (p : pointer) (s : RegistryIngest.IngestSession) (h : Heap) : Heap :=
  mkHeap (override p s (session_at h)) (challenge_at h) (ownership_at h) (dispute_at h).
Definition set_challenge (p : pointer) (c : RegistryChallenge.OwnershipChallenge) (h : Heap) : Heap :=
  mkHeap (session_at h) (override p c (challenge_at h)) (ownership_at h) (dispute_at h).
Definition set_dispute (p : pointer) (d : RegistryDispute.Dispute) (h : Heap) : Heap :=
  mkHeap (session_at h) (challenge_at h) (ownership_at h) (override p d (dispute_at h)).
Definition alloc (write : pointer -> Heap -> Heap) : Handler pointer := fun w =>
  (Ok (wdNext w), mkWorld (wdMemory w) (write (wdNext w) (wdHeap w)) (S (wdNext w)) (wdRandom w) (wdLimiter w)).

(** ** Authentication and bodies *)
Definition invalid_token (message : string) : Reply := bearer_realm (writeError StatusUnauthorized "invalid_token" message).

Definition authenticate (request : Request) (scope : Scope) (now : Time) : Handler Principal :=
  reply_if (Query_Has request "token" = true ∨ Query_Has request "access_token" = true)
    (writeError StatusBadRequest "query_token_forbidden" "Bearer tokens are not accepted in the query string");;
  header ← match Header_Values request "Authorization" with
           | [header] => mret header
           | _ => reply (invalid_token "a single Bearer token is required")
           end;
  token ← match Fields header with
          | [scheme; token] =>
              reply_if (http_EqualFold scheme "Bearer" = false ∨ len token < 16 ∨ len token > 4096)
                (invalid_token "a valid Bearer token is required");;
              mret token
          | _ => reply (invalid_token "a valid Bearer token is required")
          end;
  w ← get;
  principal ← answering writeDomainError (LookupBearerToken (wdMemory w) (HashBearerToken token) now);
  answering writeDomainError (RequireScope principal scope);;
  mret principal.

Definition strictJSONContentType (request : Request) : bool :=
  match Header_Values request "Content-Type" with
  | [value] =>
      if decide (Header_Get request "Content-Encoding" ≠ "") then false
      else match http_ParseMediaType value with
           | Ok (mediaType, parameters) =>
               bool_decide (mediaType = "application/json" ∧
                 map_Forall (fun name value => http_EqualFold name "charset" = true ∧ http_EqualFold value "utf-8" = true) parameters)
           | Err _ => false
           end
  | _ => false
  end.

(** [io.ReadAll] of the body behind [http.MaxBytesReader]. *)
Definition read_body (request : Request) (limit : Z) (too_large unreadable : Reply) : result Reply (list ascii) :=
  match rqBody request with
  | None => Ok []
  | Some (bytes, tail) =>
      if decide (Z.of_nat (length bytes) > limit) then Err too_large
      else match tail with Some _ => Err unreadable | None => Ok bytes end
  end.

Definition unsupported_media_type : Reply :=
  writeError StatusUnsupportedMediaType "unsupported_media_type" "Content-Type must be application/json".
Definition unknown_query : Reply :=
  writeError StatusBadRequest "unknown_query" "this endpoint does not accept query parameters".

Definition readJSON {A} (request : Request) (limit : Z) (decode : list ascii -> result error (A * result error unit))
    : result Reply A :=
  let bad code message := writeError StatusBadRequest code message in
  err_if (strictJSONContentType request = false) unsupported_media_type;;
  raw ← read_body request limit
          (writeError StatusRequestEntityTooLarge "body_too_large" "the request body exceeds the configured byte limit")
          (bad "invalid_body" "the request body could not be read");
  err_if (length raw = 0%nat) (bad "empty_body" "a JSON request body is required");;
  canonical ← wrap (fun _ => bad "invalid_json" "the request body is not strict unambiguous JSON") (CanonicalizeJSON raw);
  '(target, second) ← wrap (fun _ => bad "invalid_json_contract" "the JSON body has unknown, missing, or invalid fields")
    (decode canonical);
  err_if (second ≠ Err io_EOF) (bad "invalid_json" "the request body must contain exactly one JSON value");;
  mret target.

Definition observation_members : list string :=
  ["schema_version"; "observation_id"; "observation_class_id"; "subject"; "test"; "environment"; "result";
   "manifest_digest"; "provenance"; "registry_derived"].
Definition empty_object : CanonicalObject := mkCanonicalObject [].
Definition zero_observation : Observation :=
  mkObservation "" "" (mkObservationProjection "" empty_object empty_object empty_object empty_object "") []
    (mkRegistryDerived [] "" None [] "" false).

Definition readObservationUpload (request : Request) (limit : Z) : result Reply registryObservation :=
  let bad code message := writeError StatusBadRequest code message in
  err_if (strictJSONContentType request = false) unsupported_media_type;;
  raw ← read_body request limit
          (writeError StatusRequestEntityTooLarge "body_too_large" "the uploaded observation exceeds its prepared byte limit")
          (bad "invalid_body" "the observation upload could not be read");
  canonical ← wrap (fun _ => bad "invalid_json" "the observation is not strict unambiguous JSON") (CanonicalizeJSON raw);
  members ← wrap (fun _ => bad "invalid_json" "the observation must be a JSON object") (Unmarshal_members canonical);
  err_if (~ Forall (fun name => name ∈ observation_members) members)
    (bad "unknown_field" "the observation contains an unknown top-level field");;
  match Observation_UnmarshalJSON canonical zero_observation with
  | (Ok _, observation) => mret (mkRegistryObservation observation (Z.of_nat (length raw)) (NewDigest raw))
  | (Err _, _) => Err (writeError StatusUnprocessableEntity "invalid_observation" "the observation ID or immutable projection is invalid")
  end.

Definition replying {A} (r : result Reply A) : Handler A := lift (wrap Replied r).

Definition newline_byte : ascii := ascii_of_nat 10.
Definition encoding_failure : Reply :=
  writeError StatusInternalServerError "encoding_failure" "the Registry response could not be encoded".
Definition writeJSON (status : Z) (value : View) : Reply :=
  match Marshal_View value with
  | Ok raw => mkReply status [("Content-Type", json_content); ("Cache-Control", "no-store")] (Bytes (raw ++ [newline_byte]))
  | Err _ => encoding_failure
  end.
Definition writePublicBytes (request : Request) (contentType : string) (raw : list ascii) : Reply :=
  let etag := quoted (NewDigest raw) in
  let headers := [("ETag", etag); ("Cache-Control", "public, max-age=60"); ("Content-Type", contentType)] in
  if etagMatches (Header_Get request "If-None-Match") etag then mkReply StatusNotModified headers NoContent
  else mkReply StatusOK headers (Bytes raw).
Definition writePublicJSON (request : Request) (value : View) : Reply :=
  match Marshal_View value with
  | Ok raw => writePublicBytes request json_content (raw ++ [newline_byte])
  | Err _ => encoding_failure
  end.

Definition requireNoRequestBody (request : Request) : Handler unit :=
  reply_if (is_Some (rqBody request))
    (writeError StatusBadRequest "unexpected_body" "this endpoint does not accept a request body").

(** [schema.NewInstanceID] reads sixteen bytes when the time is in range. *)
Definition new_id (now : Time) : Handler (result error InstanceID) :=
  if decide (UnixMilli now < 0 ∨ UnixMilli now >= Z.shiftl 1 48) then mret (NewInstanceID now (Ok []))
  else random ← read_random 16; mret (NewInstanceID now random).
Definition randomToken (bytesCount : nat) : Handler (result error string) :=
  raw ← read_random bytesCount;
  mret (raw ← raw; mret (string_of_list_ascii (EncodeToString raw))).

Definition challengeMatches (expected : list ascii) (supplied : string) : bool :=
  if decide (len supplied < 16 ∨ len supplied > 4096) then false
  else bool_decide (expected = HashBearerToken supplied).

(** ** Ingest *)
Definition prepare (request : Request) (now : Time) : Handler Reply :=
  principal ← authenticate request ScopeObservationPrepare now;
  reply_if (strictQuery request [] = false) unknown_query;;
  input ← replying (readJSON request (svMaxJSONBytes server) Decode_prepareRequest);
  reply_if (is_ok (Digest_Validate (prObservationDigest input)) = false ∨ is_ok (Digest_Validate (prUploadDigest input)) = false ∨
            prSizeBytes input < 1 ∨ prSizeBytes input > svMaxUploadBytes server)
    (writeError StatusUnprocessableEntity "invalid_prepare"
       "observation_digest, upload_digest, and an allowed positive size_bytes are required");;
  sessionID ← new_id now;
  sessionID ← answering internalError sessionID;
  challenge ← randomToken 32;
  challenge ← answering internalError challenge;
  let expiresAt := time_Add now (svSessionTTL server) in
  session ← answering writeDomainError (PrepareIngest principal sessionID (prObservationDigest input) expiresAt now);
  p ← alloc (fun p => set_session p session);
  w ← get;
  on_memory writeDomainError (CreateIngest (wdHeap w)
    (mkIngestRecord (Some p) (prSizeBytes input) (prUploadDigest input) (HashBearerToken challenge)));;
  let capabilities := Memory_Capabilities in
  mret (writeJSON StatusCreated (PrepareView (mkPrepareResponse sessionID (prObservationDigest input) (prUploadDigest input)
    ("/v1/uploads/" +:+ sessionID) challenge "X-Upload-Challenge" (prSizeBytes input) (UTC expiresAt)
    (negb (DurablePersistence capabilities)) capabilities))).

(** A method of the session behind a pointer. *)
Definition on_session (p : pointer) (call : RegistryIngest.IngestSession -> (IngestSnapshot * option error) * RegistryIngest.IngestSession)
    : Handler IngestSnapshot := fun w =>
  let '((snapshot, e), s) := call (session_at (wdHeap w) p) in
  let w := set_heap (set_session p s (wdHeap w)) w in
  match e with None => (Ok snapshot, w) | Some e => (Err (Replied (writeDomainError e)), w) end.
Definition session_of (record : IngestRecord) : Handler pointer :=
  match irSession record with Some p => mret p | None => fail Panicked end.
Definition snapshot_of (p : pointer) : Handler IngestSnapshot :=
  w ← get; mret (RegistryIngest.Snapshot (session_at (wdHeap w) p)).

Definition derived_fields (derived : RegistryDerived) : bool :=
  bool_decide (length (TrustLabels derived) ≠ 0%nat ∨ Freshness_ derived ≠ "" ∨ is_Some (PublishedAt derived) ∨
    length (DisputeIDs derived) ≠ 0%nat ∨ SupersededBy derived ≠ "" ∨ Tombstoned derived = true).

Definition stageUpload (request : Request) (rawID : string) (now : Time) : Handler Reply :=
  principal ← authenticate request ScopeObservationPrepare now;
  reply_if (strictQuery request [] = false) unknown_query;;
  sessionID ← answering (fun _ => writeError StatusBadRequest "invalid_session_id" "session_id must be a canonical UUIDv7")
                (ParseInstanceID rawID);
  w ← get;
  record ← answering writeDomainError (GetIngest (wdMemory w) sessionID);
  p ← session_of record;
  snapshot ← snapshot_of p;
  reply_if (RegistryIngest.Owner snapshot ≠ principal_id principal) (writeDomainError ErrNotOwner);;
  reply_if (match Header_Values request "X-Upload-Challenge" with
            | [supplied] => challengeMatches (ChallengeHash record) supplied
            | _ => false
            end = false)
    (writeError StatusForbidden "invalid_upload_challenge" "the upload challenge is invalid");;
  upload ← replying (readObservationUpload request (Z.min (DeclaredBytes record) (svMaxUploadBytes server)));
  reply_if (roRawBytes upload ≠ DeclaredBytes record)
    (writeError StatusConflict "size_mismatch" "the uploaded byte count does not match the prepared size");;
  reply_if (roUploadDigest upload ≠ UploadDigest record) (writeDomainError ErrDigestMismatch);;
  let observation := roObservation upload in
  reply_if (derived_fields (obDerived observation) = true)
    (writeError StatusUnprocessableEntity "derived_fields_forbidden" "submitters cannot set Registry-derived observation fields");;
  snapshot ← snapshot_of p;
  reply_if (obID observation ≠ RegistryIngest.ExpectedDigest snapshot) (writeDomainError ErrDigestMismatch);;
  on_session p (RegistryIngest.Stage principal (obID observation) now);;
  w ← get;
  on_memory internalError (UpdateIngest (wdHeap w) record);;
  on_memory writeDomainError (PutStagedObservation sessionID observation);;
  mret (mkReply StatusNoContent [("Cache-Control", "no-store")] NoContent).

Definition commit (request : Request) (now : Time) : Handler Reply :=
  principal ← authenticate request ScopeObservationCommit now;
  reply_if (strictQuery request [] = false) unknown_query;;
  input ← replying (readJSON request (svMaxJSONBytes server) Decode_commitRequest);
  answering (fun _ => writeError StatusBadRequest "invalid_session_id" "session_id must be a canonical UUIDv7")
    (InstanceID_Validate (cqSessionID input));;
  answering (fun _ => writeError StatusBadRequest "invalid_digest" "observation_digest must be a canonical sha256 digest")
    (Digest_Validate (cqObservationDigest input));;
  answering (fun _ => writeError StatusBadRequest "invalid_digest" "upload_digest must be a canonical sha256 digest")
    (Digest_Validate (cqUploadDigest input));;
  w ← get;
  record ← answering writeDomainError (GetIngest (wdMemory w) (cqSessionID input));
  p ← session_of record;
  snapshot ← snapshot_of p;
  reply_if (RegistryIngest.Owner snapshot ≠ principal_id principal) (writeDomainError ErrNotOwner);;
  reply_if (cqUploadDigest input ≠ UploadDigest record) (writeDomainError ErrDigestMismatch);;
  observation ← answering (fun e =>
      if is_sentinel e ErrNotFound then
        writeError StatusConflict "upload_not_staged" "the prepared observation has not been staged"
      else writeDomainError e) (GetStagedObservation (wdMemory w) (cqSessionID input));
  reply_if (obID observation ≠ cqObservationDigest input) (writeDomainError ErrDigestMismatch);;
  snapshot ← on_session p (RegistryIngest.Commit principal (cqObservationDigest input) now);
  w ← get;
  on_memory internalError (UpdateIngest (wdHeap w) record);;
  let capabilities := Memory_Capabilities in
  on_memory (fun e =>
      if is_sentinel e ErrNotImplemented then
        writeError StatusNotImplemented "hosted_verifier_unavailable" (verifierUnavailableMessage capabilities)
      else writeDomainError e) (EnqueueVerification (cqSessionID input));;
  mret (writeJSON StatusAccepted (CommitView (mkCommitResponse (cqSessionID input) (cqObservationDigest input)
    (RegistryIngest.Status snapshot) "queued" (negb (DurablePersistence capabilities)) capabilities))).

(** ** Public reading *)
Definition getObservation (request : Request) (rawDigest : string) : Handler Reply :=
  requireNoRequestBody request;;
  reply_if (strictQuery request [] = false) unknown_query;;
  digest ← answering (fun _ => writeError StatusBadRequest "invalid_digest" "the observation digest is invalid")
             (ParseDigest rawDigest);
  w ← get;
  observation ← answering writeDomainError (GetObservation (wdMemory w) digest);
  mret (writePublicJSON request (ObservationView observation)).

Definition invalid_limit : Reply := writeError StatusBadRequest "invalid_limit" "limit must be an integer between 1 and 100".
Definition limit_of (request : Request) : Handler Z :=
  match parseLimit (Query_Get request "limit") with Some limit => mret limit | None => reply invalid_limit end.
Definition list_page (filter : ObservationFilter) (cursor : string) (limit : Z) : Handler ObservationPage :=
  w ← get;
  answering writeDomainError (ListObservations (wdMemory w) filter (list_ascii_of_string cursor) limit).

Definition listObservations (request : Request) : Handler Reply :=
  requireNoRequestBody request;;
  reply_if (strictQuery request ["subject"; "version"; "pack"; "profile"; "trust"; "fresh"; "cursor"; "limit"] = false)
    (writeError StatusBadRequest "unknown_query" "the observation query contains unknown or repeated parameters");;
  limit ← limit_of request;
  let filter := mkObservationFilter (Query_Get request "subject") (Query_Get request "version") (Query_Get request "pack")
                  (Query_Get request "profile") (Query_Get request "trust") (Query_Get request "fresh") in
  for_eachM (fun value => reply_if (validURLValue value 1024 = false)
      (writeError StatusBadRequest "invalid_query" "a query value is invalid"))
    [fSubject filter; fVersion filter; fPack filter; fProfile filter; fTrust filter; fFresh filter; Query_Get request "cursor"];;
  page ← list_page filter (Query_Get request "cursor") limit;
  mret (writePublicJSON request (ListView (Items page) (NextCursor page))).

Definition getSubject (request : Request) (owner project : string) : Handler Reply :=
  requireNoRequestBody request;;
  reply_if (strictQuery request ["cursor"; "limit"] = false)
    (writeError StatusBadRequest "unknown_query" "the subject query contains unknown or repeated parameters");;
  let subject := owner +:+ "/" +:+ project in
  answering (fun _ => writeError StatusBadRequest "invalid_subject" "the subject namespace is invalid")
    (SubjectNamespace_Validate subject);;
  limit ← limit_of request;
  page ← list_page (mkObservationFilter subject "" "" "" "" "") (Query_Get request "cursor") limit;
  mret (writePublicJSON request (SubjectView subject (Items page) (NextCursor page))).

Definition getArtifact (request : Request) (kind : ArtifactKind) (name version : string) : Handler Reply :=
  requireNoRequestBody request;;
  reply_if (strictQuery request [] = false) unknown_query;;
  reply_if (validURLValue name 256 = false ∨ validURLValue version 128 = false ∨ name = "" ∨ version = "")
    (writeError StatusBadRequest "invalid_artifact" "artifact name and version are invalid");;
  w ← get;
  artifact ← answering writeDomainError (GetArtifact (wdMemory w) kind name version);
  mret (writePublicJSON request (ArtifactView artifact)).

(** ** Ownership and disputes *)
Definition createOwnershipChallenge (request : Request) (now : Time) : Handler Reply :=
  principal ← authenticate request ScopeOwnershipManage now;
  reply_if (strictQuery request [] = false) unknown_query;;
  input ← replying (readJSON request (svMaxJSONBytes server) Decode_ownershipChallengeRequest);
  answering (fun _ => writeError StatusUnprocessableEntity "invalid_subject" "subject must be an exact owner/project namespace")
    (SubjectNamespace_Validate (oqSubject input));;
  challengeID ← new_id now;
  challengeID ← answering internalError challengeID;
  nonce ← randomToken 32;
  nonce ← answering internalError nonce;
  challenge ← answering writeDomainError
    (NewOwnershipChallenge principal challengeID (oqSubject input) (oqMethod input) nonce (time_Add now (svChallengeTTL server)) now);
  p ← alloc (fun p => set_challenge p challenge);
  w ← get;
  on_memory writeDomainError (PutOwnershipChallenge (wdHeap w) (Some p));;
  w ← get;
  let snapshot := RegistryChallenge.Snapshot (challenge_at (wdHeap w) p) now in
  mret (writeJSON StatusCreated (ChallengeView (mkChallengeView (RegistryChallenge.ID snapshot)
    (RegistryChallenge.Subject snapshot) (RegistryChallenge.Method snapshot) (RegistryChallenge.Nonce snapshot)
    (RegistryChallenge.ExpiresAt snapshot) (RegistryChallenge.Status snapshot) (OwnershipVerification Memory_Capabilities)))).

Definition createDispute (request : Request) (now : Time) : Handler Reply :=
  principal ← authenticate request ScopeDisputeCreate now;
  reply_if (strictQuery request [] = false) unknown_query;;
  input ← replying (readJSON request (svMaxJSONBytes server) Decode_createDisputeRequest);
  answering (fun _ => writeError StatusUnprocessableEntity "invalid_observation" "observation_id must be a canonical sha256 digest")
    (Digest_Validate (dqObservationID input));;
  w ← get;
  observation ← answering writeDomainError (GetObservation (wdMemory w) (dqObservationID input));
  index ← answering internalError (IndexObservation observation);
  let subject := ixSubject index in
  ownership ← answering (fun e =>
      if is_sentinel e ErrNotFound then
        writeError StatusConflict "ownership_required" "a current verified subject owner is required before this dispute can be recorded"
      else writeDomainError e) (CurrentOwnership (wdHeap w) (wdMemory w) subject now);
  disputeID ← new_id now;
  disputeID ← answering internalError disputeID;
  w ← get;
  dispute ← answering writeDomainError (NewDispute principal disputeID (dqObservationID input) subject
    (RegistryOwnership.sOwner (RegistryOwnership.Snapshot (ownership_at (wdHeap w) ownership))) (dqStatement input) now);
  p ← alloc (fun p => set_dispute p dispute);
  w ← get;
  on_memory writeDomainError (PutDispute (wdHeap w) (Some p));;
  w ← get;
  mret (writeJSON StatusCreated (DisputeView (disputeResponse (RegistryDispute.Snapshot (dispute_at (wdHeap w) p))))).

Definition getDispute (request : Request) (rawID : string) : Handler Reply :=
  requireNoRequestBody request;;
  reply_if (strictQuery request [] = false) unknown_query;;
  disputeID ← answering (fun _ => writeError StatusBadRequest "invalid_dispute_id" "the dispute ID must be a canonical UUIDv7")
                (ParseInstanceID rawID);
  w ← get;
  p ← answering writeDomainError (GetDispute (wdMemory w) disputeID);
  mret (writePublicJSON request (DisputeView (disputeResponse (RegistryDispute.Snapshot (dispute_at (wdHeap w) p))))).

(** ** Badges *)
Definition badge_label (profile : string) (index : ObservationIndex) (observation : Observation) : string :=
  let trust := if decide (length (ixTrustLabels index) ≠ 0%nat) then Join (ixTrustLabels index) "," else "self-reported" in
  let freshness := if decide (ixFreshness index = "") then "unknown" else ixFreshness index in
  profile +:+ " / " +:+ ixPack index +:+ " " +:+ ixPackVersion index +:+ " / " +:+ freshness +:+ " / " +:+ trust +:+ " / " +:+
  obID observation.
Definition attribute (name value : string) : string := name +:+ "=" +:+ quoted value.
Definition svg_head : string :=
  "<svg " +:+ attribute "xmlns" "http://www.w3.org/2000/svg" +:+ " " +:+ attribute "width" "1200" +:+ " " +:+
  attribute "height" "28" +:+ " " +:+ attribute "role" "img" +:+ " aria-label=" +:+ String (ascii_of_nat 34) "".
Definition svg_middle : string :=
  String (ascii_of_nat 34) "><rect " +:+ attribute "width" "1200" +:+ " " +:+ attribute "height" "28" +:+ " " +:+
  attribute "fill" "#24292f" +:+ "/><text " +:+ attribute "x" "10" +:+ " " +:+ attribute "y" "19" +:+ " " +:+
  attribute "fill" "#fff" +:+ " " +:+ attribute "font-family" "Verdana,Arial,sans-serif" +:+ " " +:+
  attribute "font-size" "12" +:+ ">".
Definition svg_of (label : string) : string :=
  svg_head +:+ EscapeString label +:+ svg_middle +:+ EscapeString label +:+ "</text></svg>".

Definition getBadge (request : Request) (owner project profile : string) : Handler Reply :=
  requireNoRequestBody request;;
  reply_if (strictQuery request [] = false)
    (writeError StatusBadRequest "unknown_query" "the badge endpoint does not accept query parameters");;
  let subject := owner +:+ "/" +:+ project in
  reply_if (is_ok (SubjectNamespace_Validate subject) = false ∨ profile = "" ∨ validURLValue profile 256 = false)
    (writeError StatusBadRequest "invalid_badge" "the badge subject or profile is invalid");;
  page ← list_page (mkObservationFilter subject "" "" profile "" "") "" 1;
  match Items page with
  | [] => reply (writeDomainError ErrNotFound)
  | observation :: _ =>
      index ← answering internalError (IndexObservation observation);
      mret (with_header "Cross-Origin-Resource-Policy" "cross-origin"
        (writePublicBytes request "image/svg+xml; charset=utf-8" (list_ascii_of_string (svg_of (badge_label profile index observation)))))
  end.

(** ** Routing *)
Definition requireMethod (request : Request) (method : string) (next : Handler Reply) : Handler Reply :=
  if decide (rqMethod request ≠ method) then
    reply (with_header "Allow" method
      (writeError StatusMethodNotAllowed "method_not_allowed" "the HTTP method is not allowed for this route"))
  else next.

Definition TrimPrefix (s prefix : string) : string :=
  if HasPrefix s prefix then String.substring (String.length prefix) (String.length s - String.length prefix) s else s.

Definition route (request : Request) (now : Time) : Handler Reply :=
  let path := rqPath request in
  let not_found := reply (writeError StatusNotFound "not_found" "the requested Registry route was not found") in
  if decide (path ∈ ["/"; "/matrix"; "/matrix/"; "/matrix/app.js"; "/matrix/style.css"]) then mret (matrix_ServeHTTP request)
  else if decide (path = "/v1/observations:prepare") then requireMethod request "POST" (prepare request now)
  else if decide (path = "/v1/observations:commit") then requireMethod request "POST" (commit request now)
  else if decide (path = "/v1/observations") then requireMethod request "GET" (listObservations request)
  else if decide (path = "/v1/ownership/challenges") then requireMethod request "POST" (createOwnershipChallenge request now)
  else if decide (path = "/v1/disputes") then requireMethod request "POST" (createDispute request now)
  else match Split "/" (TrimPrefix path "/") with
  | [version; kind; name] =>
      if decide (version = "v1" ∧ kind = "uploads") then requireMethod request "PUT" (stageUpload request name now)
      else if decide (version = "v1" ∧ kind = "observations") then requireMethod request "GET" (getObservation request name)
      else if decide (version = "v1" ∧ kind = "disputes") then requireMethod request "GET" (getDispute request name)
      else not_found
  | [version; kind; first; second] =>
      if decide (version = "v1" ∧ kind = "subjects") then requireMethod request "GET" (getSubject request first second)
      else if decide (version = "v1" ∧ kind = "packs") then requireMethod request "GET" (getArtifact request ArtifactPack first second)
      else if decide (version = "v1" ∧ kind = "profiles") then
        requireMethod request "GET" (getArtifact request ArtifactProfile first second)
      else not_found
  | [version; kind; owner; project; badge] =>
      if decide (version = "v1" ∧ kind = "badges" ∧ HasSuffix badge ".svg" = true) then
        requireMethod request "GET" (getBadge request owner project (TrimSuffix badge ".svg"))
      else not_found
  | _ => not_found
  end.

Definition remoteRateKey (request : Request) : string :=
  match http_SplitHostPort (rqRemoteAddr request) with
  | Ok (host, _) => if decide (host ≠ "") then host else if decide (rqRemoteAddr request = "") then "unknown" else rqRemoteAddr request
  | Err _ => if decide (rqRemoteAddr request = "") then "unknown" else rqRemoteAddr request
  end.

Definition security_headers : list (string * string) :=
  [("Content-Security-Policy", "default-src 'none'; base-uri 'none'; frame-ancestors 'none'; form-action 'none'");
   ("Permissions-Policy", "camera=(), microphone=(), geolocation=(), payment=(), usb=()");
   ("Referrer-Policy", "no-referrer"); ("X-Content-Type-Options", "nosniff"); ("X-Frame-Options", "DENY");
   ("Cross-Origin-Resource-Policy", "same-origin")].
Definition ephemeral_header : list (string * string) :=
  if DurablePersistence Memory_Capabilities then [] else [("X-AgentAPI-Registry-Mode", "ephemeral")].
Definition rate_headers (limit remaining : Z) : list (string * string) :=
  if decide (limit <= 0) then [] else [("X-RateLimit-Limit", pretty limit); ("X-RateLimit-Remaining", pretty remaining)].

(** The limiter is asked first, and remembers the call. *)
Definition ask_limiter (key : string) (now : Time) : Handler (bool * Z * Z) := fun w =>
  let '(answer, l) := allow key now (wdLimiter w) in (Ok answer, set_limiter l w).

Definition serve_request (request : Request) (now : Time) (retry : Z) (allowed : bool) : Handler Reply :=
  reply_if (allowed = false) (with_header "Retry-After" (retryAfterSeconds retry)
    (writeError StatusTooManyRequests "rate_limited" "the Registry request rate limit was exceeded"));;
  if decide (rqPath request = "/matrix/" ∧ rqRawQuery request = "") then
    mret (http_Redirect request "/matrix" StatusPermanentRedirect)
  else
    reply_if (safePath (rqPath request) = false)
      (writeError StatusBadRequest "invalid_path" "the request path is not canonical");;
    route request now.

(** The whole reply, with the headers that were set before; [None] is a
    panic, which net/http recovers. *)
Definition ServeHTTP (request : Request) (now : Time) (w : World) : option Reply * World :=
  let now := UTC now in
  match ask_limiter (remoteRateKey request) now w with
  | (Ok (allowed, remaining, retry), w) =>
      let base := security_headers ++ ephemeral_header ++ rate_headers (limit (wdLimiter w)) remaining in
      let complete r := mkReply (rpStatus r) (base ++ rpHeaders r) (rpBody r) in
      match serve_request request now retry allowed w with
      | (Ok r, w) | (Err (Replied r), w) => (Some (complete r), w)
      | (Err Panicked, w) => (None, w)
      end
  | (Err _, w) => (None, w)
  end.
End Handlers.
