(* ===== verification/HttpapiSpec.v ===== *)
(** * What a request may do to the registry (internal/registry/httpapi)

    Every request leaves the registry unchanged unless it carries a bearer
    token with the scope of one of the five writing routes; uploads and commits
    move only sessions of their owner, forward; and what is staged under a
    session is an observation with the digest the session was prepared for. *)
From Stdlib Require Import ZArith Ascii String Lia.
From stdpp Require Import base gmap sets list strings pretty.
From S2P Require Import RegistryIngest RegistryChallenge RegistryOwnership RegistryDispute.
From S2P Require Import Prelude Sorting Regex Schema Canonical SSE Documents RawJSON RawRegistry PackPattern Base64.
From S2P Require Import RegistryAuth Observation StoreMemory RateLimit Httpapi.
Local Open Scope Z_scope.
Local Open Scope string_scope.
Local Open Scope list_scope.

Section Spec.
Context {lib : HTTPLibrary} {ro : RangeOrder string CanonicalObject} {ro' : RangeOrder string Observation}.
Context {R : Type} (random_ReadFull : nat -> R -> result error (list ascii) * R).
Context (server : Server).
Notation World := (@World R).
Notation Handler := (@Handler R).

(** ** The invariant *)
Definition lifecycle (s : RegistryIngest.IngestSession) : Prop :=
  (RegistryIngest.status s = IngestPrepared ∧ stagedDigest s = "") ∨
  (RegistryIngest.status s ∈ [IngestStaged; IngestCommitted] ∧ stagedDigest s = expectedDigest s).

(** The session of a record in the store. *)
Definition session_in (w : World) (id : string) (record : IngestRecord) (p : pointer) (s : RegistryIngest.IngestSession) : Prop :=
  ingests (wdMemory w) !! id = Some record ∧ irSession record = Some p ∧ s = session_at (wdHeap w) p.

Record registry_inv (w : World) : Prop := {
  ri_ingests : forall id record, ingests (wdMemory w) !! id = Some record ->
    exists p s, session_in w id record p s ∧ (p < wdNext w)%nat ∧ sessionID s = id ∧ lifecycle s;
  ri_staged : forall id o, staged (wdMemory w) !! id = Some o ->
    Observation_Validate o = Ok tt ∧ derived_fields (obDerived o) = false ∧
    exists record p s, session_in w id record p s ∧ expectedDigest s = obID o ∧ RegistryIngest.status s ≠ IngestPrepared;
  ri_committed : forall id record p s, session_in w id record p s -> RegistryIngest.status s = IngestCommitted ->
    is_Some (staged (wdMemory w) !! id)
}.

(** A session later on: forward, with what it was prepared for. *)
Definition advanced (s s' : RegistryIngest.IngestSession) : Prop :=
  sessionID s' = sessionID s ∧ RegistryIngest.owner s' = RegistryIngest.owner s ∧ expectedDigest s' = expectedDigest s ∧
  RegistryIngest.expiresAt s' = RegistryIngest.expiresAt s ∧
  (RegistryIngest.status s' = RegistryIngest.status s ∨
   (RegistryIngest.status s = IngestPrepared ∧ RegistryIngest.status s' ∈ [IngestStaged; IngestCommitted]) ∨
   (RegistryIngest.status s = IngestStaged ∧ RegistryIngest.status s' = IngestCommitted)).

(** What a principal's request may change. *)
Record progress (who : Principal) (w w' : World) : Prop := {
  pg_next : (wdNext w <= wdNext w')%nat;
  pg_ingests : ingests (wdMemory w) ⊆ ingests (wdMemory w');
  pg_staged : staged (wdMemory w) ⊆ staged (wdMemory w');
  pg_challenges : challenges (wdMemory w) ⊆ challenges (wdMemory w');
  pg_disputes : disputes (wdMemory w) ⊆ disputes (wdMemory w');
  pg_public : observed (wdMemory w') = observed (wdMemory w) ∧ artifacts (wdMemory w') = artifacts (wdMemory w) ∧
    tokens (wdMemory w') = tokens (wdMemory w) ∧ ownerships (wdMemory w') = ownerships (wdMemory w);
  pg_sessions : forall p, (p < wdNext w)%nat -> session_at (wdHeap w') p = session_at (wdHeap w) p ∨
    (RegistryIngest.owner (session_at (wdHeap w) p) = principal_id who ∧
     advanced (session_at (wdHeap w) p) (session_at (wdHeap w') p));
  pg_others : forall p, (p < wdNext w)%nat -> challenge_at (wdHeap w') p = challenge_at (wdHeap w) p ∧
    dispute_at (wdHeap w') p = dispute_at (wdHeap w) p ∧ ownership_at (wdHeap w') p = ownership_at (wdHeap w) p
}.

(** ** Calls at a state *)
Definition error_status (r : Reply) : Prop := 400 <= rpStatus r.

(** From [w], the call answers with [Q], or it stops with an error reply in a
    good state; it does not panic. *)
Definition runs {A} (good : World -> Prop) (w : World) (m : Handler A) (Q : A -> World -> Prop) : Prop :=
  match m w with
  | (Ok a, w') => Q a w'
  | (Err (Replied r), w') => error_status r ∧ good w'
  | (Err Panicked, _) => False
  end.

Section Runs.
Context (good : World -> Prop).
Implicit Types w : World.

Lemma runs_ret {A} w (a : A) (Q : A -> World -> Prop) : Q a w -> runs good w (mret a) Q.
Proof. done. Qed.
Lemma runs_bind {A B} w (m : Handler A) (k : A -> Handler B) Q :
  runs good w m (fun a w' => runs good w' (k a) Q) -> runs good w (m ≫= k) Q.
Proof. unfold runs, mbind, gom_bind. by destruct (m w) as [[a|[r|]] w']. Qed.
Lemma runs_weaken {A} w (m : Handler A) (Q Q' : A -> World -> Prop) :
  runs good w m Q -> (forall a w', Q a w' -> Q' a w') -> runs good w m Q'.
Proof. unfold runs. destruct (m w) as [[a|[r|]] w']; auto. Qed.
Lemma runs_get w (Q : World -> World -> Prop) : Q w w -> runs good w get Q.
Proof. done. Qed.
Lemma runs_reply_if w (P : Prop) `{Decision P} r (Q : unit -> World -> Prop) :
  good w -> error_status r -> (~ P -> Q tt w) -> runs good w (reply_if P r) Q.
Proof. intros G S HQ. unfold runs, reply_if, fail_if. case_decide; [done|]. by apply HQ. Qed.
Lemma runs_answering {A} w answer (r : result error A) (Q : A -> World -> Prop) :
  good w -> (forall e, error_status (answer e)) -> (forall a, r = Ok a -> Q a w) -> runs good w (answering answer r) Q.
Proof. intros G S HQ. destruct r as [a|e]; cbn; [by apply HQ|done]. Qed.
Lemma runs_replying {A} w (r : result Reply A) (Q : A -> World -> Prop) :
  good w -> (forall e, r = Err e -> error_status e) -> (forall a, r = Ok a -> Q a w) -> runs good w (replying r) Q.
Proof. intros G S HQ. destruct r as [a|e]; cbn; [by apply HQ|]. split; [by apply S|done]. Qed.
Lemma runs_memory {A} w answer (m : GoM Memory error A) (Q : A -> World -> Prop) :
  (forall e, error_status (answer e)) ->
  (forall e m', m (wdMemory w) = (Err e, m') -> good (set_memory m' w)) ->
  (forall a m', m (wdMemory w) = (Ok a, m') -> Q a (set_memory m' w)) ->
  runs good w (on_memory answer m) Q.
Proof.
  intros S HE HO. unfold runs, on_memory. destruct (m (wdMemory w)) as [[a|e] m']; [by apply HO|].
  split; [done|by eapply HE].
Qed.
Lemma runs_reply {A} w r (Q : A -> World -> Prop) : good w -> error_status r -> runs good w (reply r) Q.
Proof. done. Qed.
End Runs.

(** ** Errors *)
Lemma writeError_status status code message : 400 <= status -> error_status (writeError status code message).
Proof. done. Qed.
Lemma bearer_status r : error_status r -> error_status (bearer_realm r).
Proof. done. Qed.
Lemma writeDomainError_status e : error_status (writeDomainError e).
Proof. unfold writeDomainError. repeat case_match; by vm_compute. Qed.

(** Results whose errors are error replies. *)
Definition refuses {A} (r : result Reply A) : Prop := forall e, r = Err e -> error_status e.
Lemma refuses_bind {A B} (r : result Reply A) (k : A -> result Reply B) :
  refuses r -> (forall a, refuses (k a)) -> refuses (r ≫= k).
Proof. intros H Hk e. destruct r as [a|e']; cbn; [apply Hk|]. intros [= <-]. by apply H. Qed.
Lemma refuses_err_if (P : Prop) `{Decision P} r : error_status r -> refuses (err_if P r).
Proof. intros S e. unfold err_if. case_decide; [|done]. by intros [= <-]. Qed.
Lemma refuses_wrap {A} (f : error -> Reply) (r : result error A) : (forall e, error_status (f e)) -> refuses (wrap f r).
Proof. intros S e. destruct r; [done|]. by intros [= <-]. Qed.
Lemma refuses_ok {A} (a : A) : refuses (mret a).
Proof. done. Qed.
Lemma refuses_body request limit too_large unreadable : error_status too_large -> error_status unreadable ->
  refuses (read_body request limit too_large unreadable).
Proof. intros S1 S2 e. unfold read_body. repeat case_match; intros [= <-]; done. Qed.

Ltac refuse := repeat first
  [ apply refuses_bind; [|intros ?] | apply refuses_err_if; by vm_compute | apply refuses_wrap; intros ?; by vm_compute
  | apply refuses_body; by vm_compute | apply refuses_ok | case_match ].
Lemma refuses_readJSON {A} request limit (decode : list ascii -> result error (A * result error unit)) :
  refuses (readJSON request limit decode).
Proof. unfold readJSON. refuse. Qed.
Lemma refuses_readObservationUpload request limit : refuses (readObservationUpload request limit).
Proof.
  unfold readObservationUpload. refuse. by intros ? [= <-].
Qed.

(** ** Authentication *)

(** The request presents one bearer token of the store that has not expired
    and whose principal has the scope. *)
Record bearer (request : Request) (now : Time) (w : World) (scope : Scope) (who : Principal) : Prop := {
  br_query : rqQuery request !! "token" = None ∧ rqQuery request !! "access_token" = None;
  br_header : exists header scheme token record, Header_Values request "Authorization" = [header] ∧
    Fields header = [scheme; token] ∧ http_EqualFold scheme "Bearer" = true ∧ 16 <= len token <= 4096 ∧
    tokens (wdMemory w) !! HashBearerToken token = Some record ∧ tokPrincipal record = who ∧
    ~ IsZero now ∧ Before now (tokExpiresAt record);
  br_scope : HasScope who scope = true
}.

Lemma runs_authenticate (good : World -> Prop) (w : World) request scope now (Q : Principal -> World -> Prop) : good w ->
  (forall who, bearer request now w scope who -> Q who w) -> runs good w (authenticate request scope now) Q.
Proof.
  intros G Hk. unfold authenticate. apply runs_bind, runs_reply_if; [done|by vm_compute|]. intros Hq.
  destruct (Header_Values request "Authorization") as [|header []] eqn:Eh;
    try (apply runs_bind, runs_reply; [done|by vm_compute]).
  apply runs_bind, runs_ret.
  destruct (Fields header) as [|scheme [|token []]] eqn:Ef; try (apply runs_bind, runs_reply; [done|by vm_compute]).
  apply runs_bind, runs_bind, runs_reply_if; [done|by vm_compute|]. intros Ht. apply runs_ret, runs_bind, runs_get.
  apply runs_bind, runs_answering; [done|apply writeDomainError_status|]. intros who Hl.
  apply runs_bind, runs_answering; [done|apply writeDomainError_status|]. intros [] Hs. apply runs_ret, Hk.
  unfold LookupBearerToken in Hl. destruct (tokens (wdMemory w) !! HashBearerToken token) as [record|] eqn:Er; [|done].
  apply bind_Ok in Hl as ([] & He%err_if_ok & Hl). injection Hl as <-. apply RequireScope_ok in Hs as (_ & _ & Hs).
  split; [| |by apply bool_decide_eq_true].
  - unfold Query_Has in Hq. rewrite !bool_decide_eq_true in Hq.
    destruct (rqQuery request !! "token") eqn:E1; [destruct Hq; left; by eexists|].
    destruct (rqQuery request !! "access_token") eqn:E2; [destruct Hq; right; by eexists|done].
  - exists header, scheme, token, record. split_and!; try done; try lia.
    + apply not_false_is_true. tauto.
    + tauto.
    + apply dec_stable. tauto.
Qed.

(** ** Changes of the state *)
Definition unchanged (w w' : World) : Prop :=
  wdMemory w' = wdMemory w ∧ wdHeap w' = wdHeap w ∧ wdNext w' = wdNext w.
Lemma unchanged_trans (w1 w2 w3 : World) : unchanged w1 w2 -> unchanged w2 w3 -> unchanged w1 w3.
Proof. intros (? & ? & ?) (? & ? & ?). split_and!; congruence. Qed.

(** Objects are allocated, what was there stays. *)
Record allocated (w w' : World) : Prop := {
  al_memory : wdMemory w' = wdMemory w;
  al_next : (wdNext w <= wdNext w')%nat;
  al_sessions : forall p, (p < wdNext w)%nat -> session_at (wdHeap w') p = session_at (wdHeap w) p;
  al_others : forall p, (p < wdNext w)%nat -> challenge_at (wdHeap w') p = challenge_at (wdHeap w) p ∧
    dispute_at (wdHeap w') p = dispute_at (wdHeap w) p ∧ ownership_at (wdHeap w') p = ownership_at (wdHeap w) p
}.
Lemma unchanged_allocated (w w' : World) : unchanged w w' -> allocated w w'.
Proof. intros (E1 & E2 & E3). split; rewrite ?E1, ?E2, ?E3; done. Qed.

Lemma session_in_allocated (w w' : World) id record p s : allocated w w' -> registry_inv w ->
  session_in w' id record p s <-> session_in w id record p s.
Proof.
  intros A I. unfold session_in. rewrite (al_memory _ _ A). split; intros (H1 & H2 & ->); split_and!; try done;
    destruct (ri_ingests _ I _ _ H1) as (q & s & (_ & Eq & _) & Hq & _); assert (q = p) as -> by congruence;
    by rewrite (al_sessions _ _ A).
Qed.
Lemma inv_allocated (w w' : World) : allocated w w' -> registry_inv w -> registry_inv w'.
Proof.
  intros A I. split; rewrite (al_memory _ _ A).
  - intros id record H. destruct (ri_ingests _ I _ _ H) as (p & s & Hs & Hp & ?). exists p, s.
    rewrite (session_in_allocated w w') by done. split_and!; [done| |naive_solver..]. pose proof (al_next _ _ A). lia.
  - intros id o H. destruct (ri_staged _ I _ _ H) as (? & ? & record & p & s & Hs & ?). split_and!; [done..|].
    exists record, p, s. by rewrite (session_in_allocated w w').
  - intros id record p s Hs. rewrite (session_in_allocated w w') in Hs by done. by apply (ri_committed _ I _ _ _ _ Hs).
Qed.
Lemma progress_allocated who (w w' : World) : allocated w w' -> progress who w w'.
Proof.
  intros [E1 E2 E3 E4]. split; rewrite ?E1; try done. intros p Hp. left. by apply E3.
Qed.

(** A session of the store is replaced by what a call made of it. *)
Lemma inv_session (w : World) id record p s s' : registry_inv w -> session_in w id record p s ->
  advanced s s' -> lifecycle s' ->
  (RegistryIngest.status s' = IngestCommitted -> is_Some (staged (wdMemory w) !! id)) ->
  registry_inv (set_heap (set_session p s' (wdHeap w)) w).
Proof.
  intros I Hs (A1 & A2 & A3 & A4 & A5) L HC. destruct Hs as (H1 & H2 & ->).
  assert (Key : forall id', (exists record', ingests (wdMemory w) !! id' = Some record' ∧ irSession record' = Some p) -> id' = id).
  { intros id' (record' & H1' & H2'). destruct (ri_ingests _ I _ _ H1) as (q & ? & (_ & Eq & ->) & _ & E & _).
    destruct (ri_ingests _ I _ _ H1') as (q' & ? & (_ & Eq' & ->) & _ & E' & _). congruence. }
  split; cbn.
  - intros id' record' H. destruct (ri_ingests _ I _ _ H) as (q & t & (_ & Hq & ->) & Hlt & E & L').
    exists q, (override p s' (session_at (wdHeap w)) q). split_and!; [by split_and!|done|..]; unfold override; case_decide as Ep;
      subst; try done; congruence.
  - intros id' o H. destruct (ri_staged _ I _ _ H) as (? & ? & record' & q & t & (H1' & Hq & ->) & E & St). split_and!; [done..|].
    exists record', q, (override p s' (session_at (wdHeap w)) q). split_and!; [by split_and!|..]; unfold override;
      case_decide as Ep; subst; try done; [congruence|].
    destruct A5 as [->|[[? ?]|[? ->]]]; done.
  - intros id' record' q t (H1' & Hq & ->). cbn. unfold override. case_decide as Ep.
    + subst. intros E. rewrite (Key id'); [by apply HC|]. by exists record'.
    + intros E. by apply (ri_committed _ I id' record' q (session_at (wdHeap w) q)).
Qed.
Lemma progress_session who (w : World) p s' : RegistryIngest.owner (session_at (wdHeap w) p) = principal_id who ->
  advanced (session_at (wdHeap w) p) s' -> progress who w (set_heap (set_session p s' (wdHeap w)) w).
Proof.
  intros Ho A. split; cbn; try done. intros q Hq. unfold override. case_decide as E; [subst; right; done|by left].
Qed.

Lemma progress_trans who (w1 w2 w3 : World) : progress who w1 w2 -> progress who w2 w3 -> progress who w1 w3.
Proof.
  intros [N1 I1 S1 C1 D1 (P1 & P2 & P3 & P4) X1 Y1] [N2 I2 S2 C2 D2 (Q1 & Q2 & Q3 & Q4) X2 Y2].
  split; [lia|by etrans..|split_and!; congruence| |].
  - intros p Hp. destruct (X1 p Hp) as [E1|[O1 A1]], (X2 p ltac:(lia)) as [E2|[O2 A2]]; rewrite ?E2, ?E1 in *; auto.
    right. split; [done|]. destruct A1 as (B1 & B2 & B3 & B4 & B5), A2 as (F1 & F2 & F3 & F4 & F5).
    split_and!; try congruence. rewrite !elem_of_cons, elem_of_nil in *.
    destruct B5 as [B5|[[? [B5|[B5|[]]]]|[? B5]]], F5 as [F5|[[F6 [F5|[F5|[]]]]|[F6 F5]]]; rewrite B5 in *; rewrite ?F5; first [tauto|done].
  - intros p Hp. destruct (Y1 p Hp) as (? & ? & ?), (Y2 p ltac:(lia)) as (? & ? & ?). split_and!; congruence.
Qed.

(** ** The calls on sessions *)
Lemma advanced_refl s : advanced s s.
Proof. split_and!; auto. Qed.

Lemma Stage_moves who digest now s : lifecycle s -> let '((_, e), s') := RegistryIngest.Stage who digest now s in
  lifecycle s' ∧ advanced s s' ∧ (s' = s ∨ RegistryIngest.owner s = principal_id who) ∧
  (RegistryIngest.status s' = IngestCommitted -> s' = s) ∧
  (e = None -> expectedDigest s' = digest ∧ RegistryIngest.status s' ≠ IngestPrepared).
Proof.
  intros L. unfold RegistryIngest.Stage, respond, Stage_body, mbind, gom_bind, get, lift, fail_if, modify, mret, gom_ret.
  destruct (authorizeOwned who (RegistryIngest.owner s) ScopeObservationPrepare) as [[]|e] eqn:E.
  2: { split_and!; auto using advanced_refl; done. }
  apply authorizeOwned_ok in E as [_ E]. case_decide as Hd; [split_and!; auto using advanced_refl; done|].
  try apply dec_stable in Hd. case_decide as Hs.
  { destruct Hs as [Hs Hg]. split_and!; auto using advanced_refl. intros _. split; [done|]. by rewrite Hs. }
  case_decide as Hp; [split_and!; auto using advanced_refl; done|]. try apply dec_stable in Hp.
  case_decide as He; [split_and!; auto using advanced_refl; done|]. cbn. subst digest. split_and!; try done; auto.
  - right. split; [|done]. rewrite elem_of_cons. by left.
  - split_and!; cbn; auto. right. left. split; [done|]. rewrite elem_of_cons. by left.
Qed.
Lemma Commit_moves who digest now s : lifecycle s -> let '((_, e), s') := RegistryIngest.Commit who digest now s in
  lifecycle s' ∧ advanced s s' ∧ (s' = s ∨ RegistryIngest.owner s = principal_id who).
Proof.
  intros L. unfold RegistryIngest.Commit, respond, Commit_body, mbind, gom_bind, get, lift, fail_if, modify, mret, gom_ret.
  destruct (authorizeOwned who (RegistryIngest.owner s) ScopeObservationCommit) as [[]|e] eqn:E.
  2: { split_and!; auto using advanced_refl. }
  apply authorizeOwned_ok in E as [_ E]. case_decide as Hd; [split_and!; auto using advanced_refl|].
  case_decide as Hs; [split_and!; auto using advanced_refl|].
  case_decide as Hp; [|split_and!; auto using advanced_refl].
  case_decide as He; [split_and!; auto using advanced_refl|]. cbn. split_and!; auto.
  - right. cbn. destruct L as [[L _]|[_ L]]; [rewrite L in Hp; done|]. split; [|done]. rewrite !elem_of_cons. auto.
  - split_and!; cbn; auto.
Qed.

(** ** The store calls of the handlers *)
Lemma set_memory_same (w : World) : set_memory (wdMemory w) w = w.
Proof. by destruct w. Qed.
Lemma set_ingests_same m id record : ingests m !! id = Some record -> set_ingests (<[id := record]> (ingests m)) m = m.
Proof. intros H. destruct m. unfold set_ingests. cbn in *. f_equal. by apply insert_id. Qed.

Lemma UpdateIngest_same (w : World) id record p s r m' : registry_inv w -> session_in w id record p s ->
  UpdateIngest (wdHeap w) record (wdMemory w) = (r, m') -> m' = wdMemory w.
Proof.
  intros I (H1 & H2 & ->). unfold UpdateIngest. rewrite H2. unfold mbind, gom_bind, get, fail_if, put.
  case_decide; [by intros [= _ <-]|]. intros [= _ <-].
  destruct (ri_ingests _ I _ _ H1) as (q & t & (_ & Eq & ->) & _ & E & _). assert (q = p) as -> by congruence.
  apply set_ingests_same. unfold session_key, RegistryIngest.Snapshot, snapshotLocked. cbn. by rewrite E.
Qed.

Lemma PutStaged_effect id o m r m' : PutStagedObservation id o m = (r, m') ->
  m' = m ∨ (staged m !! id = None ∧ Observation_Validate o = Ok tt ∧ m' = set_staged (<[id := o]> (staged m)) m).
Proof.
  unfold PutStagedObservation, mbind, gom_bind, lift, get, put. destruct (Observation_Validate o) as [[]|e]; [|intros [= _ <-]; by left].
  destruct (staged m !! id) as [existing|] eqn:E; [|intros [= _ <-]; by right].
  case_decide; intros [= _ <-]; by left.
Qed.

Lemma inv_staged_put (w : World) id record p s o : registry_inv w -> session_in w id record p s ->
  staged (wdMemory w) !! id = None -> Observation_Validate o = Ok tt -> derived_fields (obDerived o) = false ->
  expectedDigest s = obID o -> RegistryIngest.status s ≠ IngestPrepared ->
  registry_inv (set_memory (set_staged (<[id := o]> (staged (wdMemory w))) (wdMemory w)) w).
Proof.
  intros I Hs Hn Hv Hd He Hp. split; cbn.
  - intros id' record' H. by destruct (ri_ingests _ I _ _ H) as (q & t & Hq & ?); exists q, t.
  - intros id' o'. rewrite lookup_insert_Some. intros [[<- <-]|[_ H]].
    + split_and!; [done..|]. by exists record, p, s.
    + destruct (ri_staged _ I _ _ H) as (? & ? & record' & q & t & ? & ?). split_and!; [done..|]. by exists record', q, t.
  - intros id' record' q t Ht E. destruct (ri_committed _ I id' record' q t Ht E) as [x Hx]. exists x.
    rewrite lookup_insert_ne; [done|]. intros ->. congruence.
Qed.

Lemma CreateIngest_effect h record m r m' : CreateIngest h record m = (r, m') ->
  m' = m ∨ exists p, irSession record = Some p ∧ ingests m !! session_key h p = None ∧
    m' = set_ingests (<[session_key h p := record]> (ingests m)) m.
Proof.
  unfold CreateIngest. destruct (irSession record) as [p|]; [|intros [= _ <-]; by left].
  unfold mbind, gom_bind, lift, get, put, fail_if, mret, gom_ret, fail. case_decide; [intros [= _ <-]; by left|].
  destruct (wrap _ _) as [[]|e]; [|intros [= _ <-]; by left]. case_decide as Hn; [intros [= _ <-]; by left|].
  intros [= _ <-]. right. exists p. split_and!; [done| |done]. by apply eq_None_not_Some.
Qed.
Lemma inv_created (w : World) p record : registry_inv w -> (p < wdNext w)%nat -> irSession record = Some p ->
  let s := session_at (wdHeap w) p in let id := session_key (wdHeap w) p in
  ingests (wdMemory w) !! id = None -> RegistryIngest.status s = IngestPrepared -> stagedDigest s = "" ->
  registry_inv (set_memory (set_ingests (<[id := record]> (ingests (wdMemory w))) (wdMemory w)) w).
Proof.
  intros I Hp Hr s id Hn Hs Hd. assert (Hk : sessionID s = id) by done. clearbody id. split; cbn.
  - intros id' record'. rewrite lookup_insert_Some. intros [[<- <-]|[Hne H]].
    + exists p, s. split_and!; [|done|done|by left]. split_and!; [cbn; by rewrite lookup_insert_eq|done|done].
    + destruct (ri_ingests _ I _ _ H) as (q & t & (Hq & ? & ?) & ?). exists q, t. split; [|done].
      split_and!; [cbn; by rewrite lookup_insert_ne|done|done].
  - intros id' o H. destruct (ri_staged _ I _ _ H) as (? & ? & record' & q & t & (Hq & ? & ?) & ?). split_and!; [done..|].
    exists record', q, t. split; [|done]. split_and!; [|done|done]. cbn. rewrite lookup_insert_ne; [done|]. intros <-.
    by pose proof (eq_trans (eq_sym Hn) Hq).
  - intros id' record' q t (Hq & Eq & ->) E. cbn in Hq. apply lookup_insert_Some in Hq as [[<- <-]|[Hne Hq]].
    + assert (q = p) as -> by congruence. cbn in E. subst s. rewrite Hs in E. done.
    + by apply (ri_committed _ I id' record' q (session_at (wdHeap w) q)).
Qed.

Lemma progress_created who (w : World) p record : ingests (wdMemory w) !! session_key (wdHeap w) p = None ->
  progress who w (set_memory (set_ingests (<[session_key (wdHeap w) p := record]> (ingests (wdMemory w))) (wdMemory w)) w).
Proof. intros Hn. split; cbn; try done; [by apply insert_subseteq|by left]. Qed.

Lemma progress_staged who (w : World) id o : staged (wdMemory w) !! id = None ->
  progress who w (set_memory (set_staged (<[id := o]> (staged (wdMemory w))) (wdMemory w)) w).
Proof. intros Hn. split; cbn; try done; [by apply insert_subseteq|by left]. Qed.
Lemma progress_same_session who (w : World) p :
  progress who w (set_heap (set_session p (session_at (wdHeap w) p) (wdHeap w)) w).
Proof. split; cbn; try done. intros q Hq. left. unfold override. by case_decide; subst. Qed.

(** ** Requests *)
Definition write_route (request : Request) (scope : Scope) : Prop :=
  (rqMethod request = "POST" ∧ rqPath request = "/v1/observations:prepare" ∧ scope = ScopeObservationPrepare) ∨
  (rqMethod request = "PUT" ∧ (exists session, Split "/" (TrimPrefix (rqPath request) "/") = ["v1"; "uploads"; session]) ∧
   scope = ScopeObservationPrepare) ∨
  (rqMethod request = "POST" ∧ rqPath request = "/v1/observations:commit" ∧ scope = ScopeObservationCommit) ∨
  (rqMethod request = "POST" ∧ rqPath request = "/v1/ownership/challenges" ∧ scope = ScopeOwnershipManage) ∨
  (rqMethod request = "POST" ∧ rqPath request = "/v1/disputes" ∧ scope = ScopeDisputeCreate).

(** An error reply, by its status. *)
Ltac error_reply := first [apply writeDomainError_status | by vm_compute
  | intros ?; first [apply writeDomainError_status | by vm_compute | case_match; [by vm_compute|apply writeDomainError_status]]].

Section Requests.
Context (request : Request) (now : Time) (w0 : World).

Definition authorized (w : World) : Prop :=
  exists scope who, write_route request scope ∧ bearer request now w0 scope who ∧ progress who w0 w.
Definition served (w : World) : Prop := registry_inv w ∧ (unchanged w0 w ∨ authorized w).
(** Nothing happened so far. *)
Definition reading (w : World) : Prop := registry_inv w ∧ unchanged w0 w.
Lemma reading_served w : reading w -> served w.
Proof. intros [I U]. split; [done|by left]. Qed.
Hint Resolve reading_served : core.

Lemma reading_moves w w' : reading w -> unchanged w w' -> reading w'.
Proof.
  intros [I U] U'. split; [eapply inv_allocated; [by apply unchanged_allocated|done]|by eapply unchanged_trans].
Qed.
Lemma reading_bearer w scope who : reading w -> bearer request now w scope who -> bearer request now w0 scope who.
Proof. intros [_ (E & _)] [H1 H2 H3]. split; [done| |done]. by rewrite <- E. Qed.

(** After authentication: a state that the principal may reach from here. *)
Lemma served_progress w w' scope who : reading w -> write_route request scope -> bearer request now w scope who ->
  registry_inv w' -> progress who w w' -> served w'.
Proof.
  intros Rd Hr Hb I P. split; [done|]. right. exists scope, who. split_and!; [done|by eapply reading_bearer|].
  destruct Rd as [_ U]. eapply progress_trans; [apply progress_allocated, unchanged_allocated, U|done].
Qed.

Lemma runs_read_random w n (Q : result error (list ascii) -> World -> Prop) :
  (forall r w', unchanged w w' -> Q r w') -> runs served w (read_random random_ReadFull n) Q.
Proof. intros H. unfold runs, read_random. destruct (random_ReadFull n (wdRandom w)) as [r s]. by apply H. Qed.
Lemma runs_new_id w (Q : result error InstanceID -> World -> Prop) :
  (forall r w', unchanged w w' -> Q r w') -> runs served w (new_id random_ReadFull now) Q.
Proof.
  intros H. unfold new_id. case_decide; [by apply runs_ret, H|]. apply runs_bind, runs_read_random. intros r w' U. by apply H.
Qed.
Lemma runs_randomToken w n (Q : result error string -> World -> Prop) :
  (forall r w', unchanged w w' -> Q r w') -> runs served w (randomToken random_ReadFull n) Q.
Proof. intros H. unfold randomToken. apply runs_bind, runs_read_random. intros r w' U. by apply H. Qed.

(** The steps that only read. *)
Ltac read_step := lazymatch goal with
  | |- runs _ _ (_ ≫= _) _ => apply runs_bind
  | |- runs _ _ (mret _) _ => apply runs_ret
  | |- runs _ _ get _ => apply runs_get
  | |- runs _ _ (reply_if _ _) _ => apply runs_reply_if; [by eauto|error_reply|intros ?]
  | |- runs _ _ (reply _) _ => apply runs_reply; [by eauto|error_reply]
  | |- runs _ _ (answering _ _) _ => apply runs_answering; [by eauto|error_reply|intros ? ?]
  | |- runs _ _ (replying (readJSON _ _ _)) _ => apply runs_replying; [by eauto|apply refuses_readJSON|intros ? ?]
  | |- runs _ _ (requireNoRequestBody _) _ => unfold requireNoRequestBody
  | |- runs _ _ (limit_of _) _ => unfold limit_of
  | |- runs _ _ (list_page _ _ _) _ => unfold list_page
  | |- runs _ _ (match ?x with _ => _ end) _ => destruct x
  end.
Ltac read := repeat read_step.

Definition serves (m : Handler Reply) : Prop := forall w, reading w -> runs served w m (fun _ w' => served w').

Lemma serves_getObservation raw : serves (getObservation request raw).
Proof. intros w Rd. unfold getObservation. read. by auto. Qed.
Lemma serves_getSubject owner project : serves (getSubject request owner project).
Proof. intros w Rd. unfold getSubject. read. by auto. Qed.
Lemma serves_getArtifact kind name version : serves (getArtifact request kind name version).
Proof. intros w Rd. unfold getArtifact. read. by auto. Qed.
Lemma serves_getDispute raw : serves (getDispute request raw).
Proof. intros w Rd. unfold getDispute. read. by auto. Qed.
Lemma serves_getBadge owner project profile : serves (getBadge request owner project profile).
Proof. intros w Rd. unfold getBadge. read; by auto. Qed.
Lemma runs_check_values values w (Q : unit -> World -> Prop) : reading w -> Q tt w ->
  runs served w (for_eachM (fun value => reply_if (validURLValue value 1024 = false)
    (writeError StatusBadRequest "invalid_query" "a query value is invalid")) values) Q.
Proof. intros Rd HQ. induction values as [|v vs IH]; [by apply runs_ret|]. cbn [for_eachM]. read. exact IH. Qed.
Lemma serves_listObservations : serves (listObservations request).
Proof.
  intros w Rd. unfold listObservations. read. apply runs_check_values; [done|]. read. by auto.
Qed.

(** *** Writing *)
Lemma alloc_allocated w (write : pointer -> Heap -> Heap) :
  (forall p, (p < wdNext w)%nat -> session_at (write (wdNext w) (wdHeap w)) p = session_at (wdHeap w) p) ->
  (forall p, (p < wdNext w)%nat -> challenge_at (write (wdNext w) (wdHeap w)) p = challenge_at (wdHeap w) p ∧
    dispute_at (write (wdNext w) (wdHeap w)) p = dispute_at (wdHeap w) p ∧
    ownership_at (write (wdNext w) (wdHeap w)) p = ownership_at (wdHeap w) p) ->
  allocated w (mkWorld (wdMemory w) (write (wdNext w) (wdHeap w)) (S (wdNext w)) (wdRandom w) (wdLimiter w)).
Proof. intros H1 H2. split; cbn; [done|lia|done|done]. Qed.
Lemma override_below {A} p q (a : A) f : (q < p)%nat -> override p a f q = f q.
Proof. intros H. unfold override. rewrite decide_False; [done|lia]. Qed.
Lemma override_at {A} p (a : A) f : override p a f p = a.
Proof. unfold override. by rewrite decide_True. Qed.

Definition authority (w : World) (who : Principal) : Prop :=
  reading w ∧ exists scope, write_route request scope ∧ bearer request now w scope who.
Lemma authority_moves w w' who : authority w who -> unchanged w w' -> authority w' who.
Proof.
  intros [Rd (scope & Hr & [B1 B2 B3])] U. split; [by eapply reading_moves|]. exists scope. split; [done|].
  split; [done| |done]. destruct U as (E & _). by rewrite E.
Qed.
Lemma authority_served w w' who : authority w who -> registry_inv w' -> progress who w w' -> served w'.
Proof. intros [Rd (scope & Hr & Hb)] I P. by eapply served_progress. Qed.
Lemma authority_reading w who : authority w who -> reading w.
Proof. by intros [? _]. Qed.
Hint Resolve authority_reading : core.

Lemma prepared_fields who id digest expires t s : PrepareIngest who id digest expires t = Ok s ->
  RegistryIngest.status s = IngestPrepared ∧ stagedDigest s = "".
Proof. intros H. unfold PrepareIngest in H. do 5 apply bind_Ok in H as ([] & _ & H). by injection H as <-. Qed.

Lemma serves_prepare : write_route request ScopeObservationPrepare -> serves (prepare random_ReadFull server request now).
Proof.
  intros Hr w Rd. unfold prepare. apply runs_bind, runs_authenticate; [by auto|]. intros who Hb.
  assert (A : authority w who) by (split; [done|by eexists]). read.
  apply runs_new_id. intros rid w1 U1. pose proof (authority_moves _ _ _ A U1) as A1. read.
  apply runs_randomToken. intros rtoken w2 U2. pose proof (authority_moves _ _ _ A1 U2) as A2. read.
  match goal with H : PrepareIngest _ _ _ _ _ = Ok ?s |- _ => apply prepared_fields in H as [Hs Hd]; rename s into session end.
  match goal with H : rtoken = Ok ?s |- _ => rename s into challenge end.
  pose proof (alloc_allocated w2 (fun p => set_session p session)) as AL. set (w3 := mkWorld _ _ (S _) _ _) in AL.
  assert (AL' : allocated w2 w3) by (apply AL; [intros p Hp; by apply override_below|done]). clear AL.
  assert (I3 : registry_inv w3) by (eapply inv_allocated; [done|by destruct A2 as [[]]]).
  assert (HC : forall r m', CreateIngest (wdHeap w3) (mkIngestRecord (Some (wdNext w2)) (prSizeBytes a) (prUploadDigest a)
    (HashBearerToken challenge)) (wdMemory w3) = (r, m') -> served (set_memory m' w3)).
  { intros r m' [->|(p & [= <-] & Hn & ->)]%CreateIngest_effect.
    - rewrite set_memory_same. eapply authority_served; [done..|by apply progress_allocated].
    - eapply authority_served; [done| |].
      + apply (inv_created w3 (wdNext w2)); [done|cbn; lia|done|done|cbn; by rewrite override_at..].
      + eapply progress_trans; [by apply progress_allocated|]. by apply progress_created. }
  unfold runs at 1. unfold alloc. fold w3. read. apply runs_memory; [error_reply|intros ? ?; apply HC|].
  intros ? ? E. read. by eapply HC.
Qed.

(** The record of a session, as the handlers find it. *)
Lemma GetIngest_ok m id record : GetIngest m id = Ok record -> ingests m !! id = Some record.
Proof. unfold GetIngest, StoreMemory.found. destruct (ingests m !! id); [|done]. by intros [= ->]. Qed.
Lemma runs_session_of w id record (Q : pointer -> World -> Prop) : registry_inv w -> ingests (wdMemory w) !! id = Some record ->
  (forall p s, session_in w id record p s -> lifecycle s -> Q p w) -> runs served w (session_of record) Q.
Proof.
  intros I H HQ. destruct (ri_ingests _ I _ _ H) as (p & s & Hs & _ & _ & L). pose proof Hs as (_ & E & _).
  unfold session_of. rewrite E. apply runs_ret. by eapply HQ.
Qed.

(** A call that changes the session of a record and then the store. *)
Lemma runs_on_session w p call (Q : IngestSnapshot -> World -> Prop) :
  (forall snapshot e s', call (session_at (wdHeap w) p) = ((snapshot, e), s') ->
     let w' := set_heap (set_session p s' (wdHeap w)) w in
     served w' ∧ (e = None -> Q snapshot w')) ->
  runs served w (on_session p call) Q.
Proof.
  intros H. unfold runs, on_session. destruct (call (session_at (wdHeap w) p)) as [[snapshot e] s'].
  destruct (H snapshot e s' eq_refl) as [G HQ]. destruct e; [split; [apply writeDomainError_status|done]|by apply HQ].
Qed.

Lemma authority_session w who id record p s s' : authority w who -> session_in w id record p s ->
  lifecycle s' -> advanced s s' -> (s' = s ∨ RegistryIngest.owner s = principal_id who) ->
  (RegistryIngest.status s' = IngestCommitted -> is_Some (staged (wdMemory w) !! id)) ->
  let w' := set_heap (set_session p s' (wdHeap w)) w in
  registry_inv w' ∧ progress who w w' ∧ session_in w' id record p s'.
Proof.
  intros [[I U] _] Hs L A Ho HC w'. destruct Hs as (H1 & H2 & ->). split_and!.
  - by eapply inv_session.
  - destruct Ho as [->|Ho]; [|by apply progress_session]. apply progress_same_session.
  - split_and!; [done|done|]. cbn. by rewrite override_at.
Qed.

Lemma serves_stageUpload rawID : write_route request ScopeObservationPrepare -> serves (stageUpload server request rawID now).
Proof.
  intros Hr w Rd. unfold stageUpload. apply runs_bind, runs_authenticate; [by auto|]. intros who Hb.
  assert (A : authority w who) by (split; [done|by eexists]). read.
  match goal with H : GetIngest _ ?i = Ok ?r |- _ => apply GetIngest_ok in H; rename r into record; rename i into id; rename H into Hrec end.
  apply (runs_session_of w id record); [by apply Rd|done|]. intros p s Hs L. unfold snapshot_of. read.
  apply runs_replying; [by eauto|apply refuses_readObservationUpload|]. intros upload Hup. read.
  pose proof Hs as (Hi & Hp & Es). apply runs_on_session. intros snapshot e s' Ec. rewrite <- Es in Ec.
  pose proof (Stage_moves who (obID (roObservation upload)) now s L) as HE. rewrite Ec in HE.
  destruct HE as (L' & AD & Ow & Cm & Ok').
  destruct (authority_session w who id record p s s' A Hs L' AD Ow) as (I2 & P2 & S2).
  { intros Hc. rewrite (Cm Hc) in Hc. eapply (ri_committed w); [apply Rd|done|done]. }
  set (w2 := set_heap (set_session p s' (wdHeap w)) w) in *. cbn zeta. fold w2.
  assert (G2 : served w2) by (by eapply authority_served). split; [done|]. intros ->. destruct (Ok' eq_refl) as [Ed Hst]. read.
  apply runs_memory; [error_reply|..].
  { intros e m' ->%(UpdateIngest_same w2 id record p s'); [|done|done]. by rewrite set_memory_same. }
  intros u m' ->%(UpdateIngest_same w2 id record p s'); [|done|done]. rewrite set_memory_same. read.
  assert (HC : forall r m', PutStagedObservation id (roObservation upload) (wdMemory w2) = (r, m') -> served (set_memory m' w2)).
  { intros r m' [->|(Hn & Hv & ->)]%PutStaged_effect; [by rewrite set_memory_same|].
    eapply authority_served; [done| |].
    - eapply inv_staged_put; [done|done|done|done| |done|done]. by apply not_true_is_false.
    - eapply progress_trans; [done|]. by apply progress_staged. }
  apply runs_memory; [error_reply|intros ? ?; apply HC|]. intros ? ? E. read. by eapply HC.
Qed.

(** Without a verifier a commit is recorded but never answered as accepted. *)
Lemma commit_refused : write_route request ScopeObservationCommit -> forall w, reading w ->
  runs served w (commit server request now) (fun _ _ => False).
Proof.
  intros Hr w Rd. unfold commit. apply runs_bind, runs_authenticate; [by auto|]. intros who Hb.
  assert (A : authority w who) by (split; [done|by eexists]). read.
  match goal with H : GetIngest _ ?i = Ok ?r |- _ => apply GetIngest_ok in H; rename r into record; rename H into Hrec; set (id := i) in * end.
  eapply (runs_session_of w id record); [by apply Rd|done|]. intros p s Hs L. unfold snapshot_of. read.
  match goal with H : GetStagedObservation _ ?i = Ok ?o |- _ =>
    assert (Hst : is_Some (staged (wdMemory w) !! i)) by (unfold GetStagedObservation, StoreMemory.found in H; destruct (staged (wdMemory w) !! i); [by eexists|done]) end.
  pose proof Hs as (Hi & Hp & Es). apply runs_on_session. intros snapshot e s' Ec. rewrite <- Es in Ec.
  match type of Ec with RegistryIngest.Commit _ ?d _ _ = _ => pose proof (Commit_moves who d now s L) as HE end.
  rewrite Ec in HE. destruct HE as (L' & AD & Ow).
  destruct (authority_session w who id record p s s' A Hs L' AD Ow (fun _ => Hst)) as (I2 & P2 & S2).
  set (w2 := set_heap (set_session p s' (wdHeap w)) w) in *. cbn zeta. fold w2.
  assert (G2 : served w2) by (by eapply authority_served). split; [done|]. intros _. read.
  apply runs_memory; [error_reply|..].
  { intros e' m' ->%(UpdateIngest_same w2 id record p s'); [|done|done]. by rewrite set_memory_same. }
  intros u m' ->%(UpdateIngest_same w2 id record p s'); [|done|done]. rewrite set_memory_same. read.
  apply runs_memory; [error_reply| |by intros ? ? [=]]. intros e' m' [= _ <-]. exact G2.
Qed.

Lemma PutChallenge_effect h p m r m' : PutOwnershipChallenge h p m = (r, m') ->
  m' = m ∨ exists id q, challenges m !! id = None ∧ m' = set_challenges (<[id := q]> (challenges m)) m.
Proof.
  unfold PutOwnershipChallenge. destruct p as [p|]; [|intros [= _ <-]; by left].
  unfold mbind, gom_bind, get, put, fail_if, mret, gom_ret, fail. case_decide as Hn; intros [= _ <-]; [by left|right].
  eexists _, p. split; [|done]. by apply eq_None_not_Some.
Qed.
Lemma PutDispute_effect h p m r m' : PutDispute h p m = (r, m') ->
  m' = m ∨ exists id q, disputes m !! id = None ∧ m' = set_disputes (<[id := q]> (disputes m)) m.
Proof.
  unfold PutDispute. destruct p as [p|]; [|intros [= _ <-]; by left].
  unfold mbind, gom_bind, get, put, fail_if, mret, gom_ret, fail. case_decide as Hn; intros [= _ <-]; [by left|right].
  eexists _, p. split; [|done]. by apply eq_None_not_Some.
Qed.

(** Objects outside the ingest path. *)
Lemma inv_other w m' : registry_inv w -> ingests m' = ingests (wdMemory w) -> staged m' = staged (wdMemory w) ->
  registry_inv (set_memory m' w).
Proof.
  intros [I1 I2 I3] E1 E2. split; cbn; unfold session_in; cbn; rewrite ?E1, ?E2; done.
Qed.

Lemma serves_createOwnershipChallenge : write_route request ScopeOwnershipManage ->
  serves (createOwnershipChallenge random_ReadFull server request now).
Proof.
  intros Hr w Rd. unfold createOwnershipChallenge. apply runs_bind, runs_authenticate; [by auto|]. intros who Hb.
  assert (A : authority w who) by (split; [done|by eexists]). read.
  apply runs_new_id. intros rid w1 U1. pose proof (authority_moves _ _ _ A U1) as A1. read.
  apply runs_randomToken. intros rtoken w2 U2. pose proof (authority_moves _ _ _ A1 U2) as A2. read.
  match goal with H : NewOwnershipChallenge _ _ _ _ _ _ _ = Ok ?s |- _ => rename s into challenge end.
  pose proof (alloc_allocated w2 (fun p => set_challenge p challenge)) as AL. set (w3 := mkWorld _ _ (S _) _ _) in AL.
  assert (AL' : allocated w2 w3) by (apply AL; [done|intros p Hp; split_and!; [by apply override_below|done..]]). clear AL.
  assert (I3 : registry_inv w3) by (eapply inv_allocated; [done|by destruct A2 as [[]]]).
  assert (HC : forall r m', PutOwnershipChallenge (wdHeap w3) (Some (wdNext w2)) (wdMemory w3) = (r, m') -> served (set_memory m' w3)).
  { intros r m' [->|(id & q & Hn & ->)]%PutChallenge_effect.
    - rewrite set_memory_same. eapply authority_served; [done..|by apply progress_allocated].
    - eapply authority_served; [done|by apply inv_other|]. eapply progress_trans; [by apply progress_allocated|].
      split; cbn; try done; [by apply insert_subseteq|by left]. }
  unfold runs at 1. unfold alloc. fold w3. read. apply runs_memory; [error_reply|intros ? ?; apply HC|].
  intros ? ? E. read. by eapply HC.
Qed.

Lemma serves_createDispute : write_route request ScopeDisputeCreate -> serves (createDispute random_ReadFull server request now).
Proof.
  intros Hr w Rd. unfold createDispute. apply runs_bind, runs_authenticate; [by auto|]. intros who Hb.
  assert (A : authority w who) by (split; [done|by eexists]). read.
  apply runs_new_id. intros rid w2 U2. pose proof (authority_moves _ _ _ A U2) as A2. read.
  match goal with H : NewDispute _ _ _ _ _ _ _ = Ok ?s |- _ => rename s into dispute end.
  pose proof (alloc_allocated w2 (fun p => set_dispute p dispute)) as AL. set (w3 := mkWorld _ _ (S _) _ _) in AL.
  assert (AL' : allocated w2 w3) by (apply AL; [done|intros p Hp; split_and!; [done|by apply override_below|done]]). clear AL.
  assert (I3 : registry_inv w3) by (eapply inv_allocated; [done|by destruct A2 as [[]]]).
  assert (HC : forall r m', PutDispute (wdHeap w3) (Some (wdNext w2)) (wdMemory w3) = (r, m') -> served (set_memory m' w3)).
  { intros r m' [->|(id & q & Hn & ->)]%PutDispute_effect.
    - rewrite set_memory_same. eapply authority_served; [done..|by apply progress_allocated].
    - eapply authority_served; [done|by apply inv_other|]. eapply progress_trans; [by apply progress_allocated|].
      split; cbn; try done; [by apply insert_subseteq|by left]. }
  unfold runs at 1. unfold alloc. fold w3. read. apply runs_memory; [error_reply|intros ? ?; apply HC|].
  intros ? ? E. read. by eapply HC.
Qed.

(** *** The routes *)
Lemma serves_method method next : (rqMethod request = method -> serves next) -> serves (requireMethod request method next).
Proof. intros H w Rd. unfold requireMethod. case_decide as E; [by read|]. by apply H. Qed.
Lemma serves_reply r : error_status r -> serves (reply r).
Proof. intros S w Rd. apply runs_reply; [by auto|done]. Qed.

Lemma serves_route : serves (route random_ReadFull server request now).
Proof.
  unfold route. case_decide; [intros w Rd; by apply runs_ret, reading_served|].
  case_decide as E1; [apply serves_method; intros Em; apply serves_prepare; by left|].
  case_decide as E2.
  { apply serves_method. intros Em w Rd. eapply runs_weaken; [apply commit_refused; [|done]|done]. by right; right; left. }
  case_decide; [apply serves_method; intros _; apply serves_listObservations|].
  case_decide; [apply serves_method; intros Em; apply serves_createOwnershipChallenge; by right; right; right; left|].
  case_decide; [apply serves_method; intros Em; apply serves_createDispute; by do 4 right|].
  destruct (Split "/" (TrimPrefix (rqPath request) "/")) as [|version [|kind [|first rest]]] eqn:Es;
    try (apply serves_reply; by vm_compute).
  destruct rest as [|second [|third [|]]]; try (apply serves_reply; by vm_compute).
  - case_decide as Ek.
    { apply serves_method. intros Em. apply serves_stageUpload. destruct Ek as [-> ->]. right. left. split_and!; [done| |done]. by exists first. }
    repeat case_decide; try (apply serves_reply; by vm_compute);
      apply serves_method; intros _; [apply serves_getObservation|apply serves_getDispute].
  - repeat case_decide; try (apply serves_reply; by vm_compute);
      apply serves_method; intros _; [apply serves_getSubject|apply serves_getArtifact..].
  - case_decide; [|apply serves_reply; by vm_compute]. apply serves_method. intros _. apply serves_getBadge.
Qed.

Lemma commit_path_refused retry allowed w : rqPath request = "/v1/observations:commit" -> reading w ->
  runs served w (serve_request random_ReadFull server request now retry allowed) (fun _ _ => False).
Proof.
  intros E Rd. unfold serve_request. apply runs_bind, runs_reply_if; [by auto|by vm_compute|]. intros _.
  rewrite decide_False by (intros [E' _]; congruence).
  apply runs_bind, runs_reply_if; [by auto|by vm_compute|]. intros _. unfold route. rewrite E. cbn [decide].
  rewrite decide_False by (rewrite !elem_of_cons, elem_of_nil; naive_solver). rewrite decide_False by done.
  rewrite decide_True by done. unfold requireMethod. case_decide as Em; [by read|].
  apply commit_refused; [|done]. by right; right; left.
Qed.

Lemma serves_serve_request retry allowed : serves (serve_request random_ReadFull server request now retry allowed).
Proof.
  intros w Rd. unfold serve_request. apply runs_bind, runs_reply_if; [by auto|by vm_compute|]. intros _.
  case_decide; [by apply runs_ret, reading_served|].
  apply runs_bind, runs_reply_if; [by auto|by vm_compute|]. intros _. by apply serves_route.
Qed.
End Requests.

(** [C21] What a request may do: whatever it carries, the server answers and
    keeps its invariant; and the registry is unchanged unless the request is
    for one of the five writing routes, with one bearer token (in the header,
    never in the query) that the store holds, that has not expired and whose
    principal has the scope of the route.  Then at most records are added, and
    sessions of that principal move forward; nothing is published, no token,
    artifact or ownership changes.  A request over the rate limit changes
    nothing, and a commit is never answered as accepted, because this store
    has no verifier to accept it. *)
Theorem registry_writes_are_authorized request now (w : World) : registry_inv w ->
  let '(answer, w') := ServeHTTP random_ReadFull server request now w in
  (exists r, answer = Some r ∧ (rqPath request = "/v1/observations:commit" -> error_status r) ∧
     ((allow (remoteRateKey request) now (wdLimiter w)).1.1.1 = false -> rpStatus r = StatusTooManyRequests ∧ unchanged w w')) ∧
  registry_inv w' ∧ (unchanged w w' ∨ authorized request now w w').
Proof.
  intros I. unfold ServeHTTP, ask_limiter. change (UTC now) with now.
  destruct (allow (remoteRateKey request) now (wdLimiter w)) as [[[allowed remaining] retry] l]. cbn [fst].
  set (w1 := set_limiter l w). assert (U : unchanged w w1) by done.
  assert (Rd : reading w w1) by (split; [eapply inv_allocated; [by apply unchanged_allocated|done]|done]).
  pose proof (serves_serve_request request now w retry allowed w1 Rd) as H. unfold runs in H.
  assert (HC : rqPath request = "/v1/observations:commit" ->
    match (serve_request random_ReadFull server request now retry allowed w1).1 with
    | Err (Replied r) => error_status r | _ => False end).
  { intros E. pose proof (commit_path_refused request now w retry allowed w1 E Rd) as HR. unfold runs in HR.
    destruct (serve_request _ _ _ _ _ _ w1) as [[r|[r|]] w2]; cbn; naive_solver. }
  assert (HL : allowed = false -> exists r, serve_request random_ReadFull server request now retry allowed w1 = (Err (Replied r), w1) ∧
    rpStatus r = StatusTooManyRequests).
  { intros ->. by eexists. }
  destruct (serve_request _ _ _ _ _ _ w1) as [[r|[r|]] w2]; [| |done].
  - split; [|done]. eexists. split_and!; [done|intros E; by destruct (HC E)|]. intros Ea. by destruct (HL Ea) as (? & [=] & _).
  - destruct H as [S H]. split; [|done]. eexists. split_and!; [done|done|]. intros Ea.
    destruct (HL Ea) as (? & [= -> ->] & ?). done.
Qed.

(** ** Many requests *)
Fixpoint serve_all (requests : list (Request * Time)) (w : World) : list (option Reply) * World :=
  match requests with
  | [] => ([], w)
  | (request, now) :: rest =>
      let '(answer, w) := ServeHTTP random_ReadFull server request now w in
      let '(answers, w) := serve_all rest w in (answer :: answers, w)
  end.

Lemma ServeHTTP_keeps request now (w : World) : registry_inv w ->
  let '(answer, w') := ServeHTTP random_ReadFull server request now w in
  is_Some answer ∧ registry_inv w' ∧ observed (wdMemory w') = observed (wdMemory w).
Proof.
  intros I. unfold ServeHTTP, ask_limiter. change (UTC now) with now.
  destruct (allow (remoteRateKey request) now (wdLimiter w)) as [[[allowed remaining] retry] l].
  assert (Rd : reading w (set_limiter l w)) by (split; [eapply (inv_allocated w); [by apply unchanged_allocated|done]|done]).
  pose proof (serves_serve_request request now w retry allowed _ Rd) as H. unfold runs in H.
  assert (HP : forall w', served request now w w' -> registry_inv w' ∧ observed (wdMemory w') = observed (wdMemory w)).
  { intros w' [I' [(E & _)|(scope & who & _ & _ & P)]]; split; [done|by rewrite E|done|]. by destruct (pg_public _ _ _ P). }
  destruct (serve_request _ _ _ _ _ _ _) as [[r|[r|]] w2]; [| |done].
  - split; [by eexists|by apply HP].
  - destruct H as [_ H]. split; [by eexists|by apply HP].
Qed.
Lemma serve_all_keeps requests : forall w : World, registry_inv w ->
  let '(answers, w') := serve_all requests w in
  Forall is_Some answers ∧ registry_inv w' ∧ observed (wdMemory w') = observed (wdMemory w).
Proof.
  induction requests as [|[request now] rest IH]; intros w I; [done|]. cbn [serve_all].
  pose proof (ServeHTTP_keeps request now w I) as H. destruct (ServeHTTP _ _ request now w) as [answer w1].
  destruct H as (Ha & I1 & E1). specialize (IH w1 I1). destruct (serve_all rest w1) as [answers w2].
  destruct IH as (Hs & I2 & E2). split_and!; [by constructor|done|congruence].
Qed.

(** [C22] Uploads match their sessions: after any sequence of requests to a
    registry that started without sessions, none of which panics, every staged
    observation is valid, carries no field that only the registry may set, and
    belongs to a session that was prepared for exactly its digest and has been
    staged with it; every committed session has its observation; and nothing
    was published by a request. *)
Theorem staged_uploads_match_their_sessions requests m h next r l :
  let '(answers, w) := serve_all requests (mkWorld (set_staged ∅ (set_ingests ∅ m)) h next r l) in
  Forall is_Some answers ∧
  (forall id o, staged (wdMemory w) !! id = Some o -> Observation_Validate o = Ok tt ∧ derived_fields (obDerived o) = false ∧
     exists record p s, session_in w id record p s ∧ sessionID s = id ∧ expectedDigest s = obID o ∧ stagedDigest s = obID o ∧
       RegistryIngest.status s ∈ [IngestStaged; IngestCommitted]) ∧
  (forall id record p s, session_in w id record p s -> RegistryIngest.status s = IngestCommitted ->
     exists o, staged (wdMemory w) !! id = Some o ∧ obID o = expectedDigest s) ∧
  observed (wdMemory w) = observed m.
Proof.
  assert (I : registry_inv (mkWorld (set_staged ∅ (set_ingests ∅ m)) h next r l)).
  { split; cbn; [by intros id x ?%lookup_empty_Some..|]. intros id record p s (Hi & _). cbn in Hi. by apply lookup_empty_Some in Hi. }
  pose proof (serve_all_keeps requests _ I) as H. destruct (serve_all requests _) as [answers w]. destruct H as (Hs & Iw & E).
  assert (Same : forall id record p s record' p' s', session_in w id record p s -> session_in w id record' p' s' -> s = s').
  { intros id record p s record' p' s' (H1 & H2 & ->) (H1' & H2' & ->). congruence. }
  split_and!; [done| | |done].
  - intros id o Ho. destruct (ri_staged _ Iw _ _ Ho) as (? & ? & record & p & s & Hin & Ed & Hst). split_and!; [done..|].
    exists record, p, s. pose proof Hin as (Hi & _). destruct (ri_ingests _ Iw _ _ Hi) as (p' & s' & Hin' & _ & Hid & L).
    rewrite <- (Same _ _ _ _ _ _ _ Hin Hin') in Hid, L. destruct L as [[? _]|[? L]]; [done|]. split_and!; [done..|congruence|done].
  - intros id record p s Hin Hc. destruct (ri_committed _ Iw _ _ _ _ Hin Hc) as [o Ho]. exists o. split; [done|].
    destruct (ri_staged _ Iw _ _ Ho) as (_ & _ & record' & p' & s' & Hin' & Ed & _). by rewrite (Same _ _ _ _ _ _ _ Hin Hin').
Qed.

(** ** Badges *)
Definition is_markup (c : ascii) : Prop := is_byte 60 c = true ∨ is_byte 62 c = true ∨ is_byte 34 c = true ∨ is_byte 39 c = true.
#[local] Instance is_markup_dec c : Decision (is_markup c).
Proof. unfold is_markup. apply _. Defined.
Definition markup (s : list ascii) : list ascii := filter is_markup s.

Lemma markup_app (s t : string) : markup (list_ascii_of_string (s +:+ t)) = markup (list_ascii_of_string s) ++ markup (list_ascii_of_string t).
Proof. unfold markup. by rewrite list_ascii_of_append, filter_app. Qed.
Lemma escaped_no_markup label : markup (list_ascii_of_string (EscapeString label)) = [].
Proof.
  induction label as [|c s IH]; [done|]. cbn [EscapeString]. rewrite markup_app, IH, app_nil_r.
  unfold escape_char. repeat case_match; try by vm_compute. unfold markup. cbn [list_ascii_of_string].
  rewrite filter_cons_False; [done|]. unfold is_markup. naive_solver congruence.
Qed.
Lemma svg_markup label : markup (list_ascii_of_string (svg_of label)) = markup (list_ascii_of_string (svg_of "")).
Proof. unfold svg_of. by rewrite !markup_app, !escaped_no_markup. Qed.

Lemma scan_finds f after limit items : forall filtered found o, scan f after limit items filtered = Ok found -> o ∈ found ->
  o ∈ filtered ∨ (o ∈ items ∧ exists ix, IndexObservation o = Ok ix ∧ matches f ix = true).
Proof.
  induction items as [|x items IH]; intros filtered found o; cbn [scan]; [intros [= ->]; by left|].
  assert (Hx : forall filtered', scan f after limit items filtered' = Ok found -> o ∈ found ->
    (o ∈ filtered' -> o ∈ filtered ∨ (o = x ∧ exists ix, IndexObservation o = Ok ix ∧ matches f ix = true)) ->
    o ∈ filtered ∨ (o ∈ x :: items ∧ exists ix, IndexObservation o = Ok ix ∧ matches f ix = true)).
  { intros filtered' E Ho K. destruct (IH _ _ _ E Ho) as [?|[? ?]]; set_solver. }
  case_decide; [intros E Ho; by eapply Hx; eauto|]. go_unfold. destruct (IndexObservation x) as [ix|] eqn:Ei; [|done].
  destruct (matches f ix) eqn:Em; [|intros E Ho; by eapply Hx; eauto].
  assert (K : o ∈ filtered ++ [x] -> o ∈ filtered ∨ (o = x ∧ exists ix, IndexObservation o = Ok ix ∧ matches f ix = true)).
  { rewrite elem_of_app, list_elem_of_singleton. intros [?| ->]; [by left|right; eauto]. }
  case_decide; [|intros E Ho; by eapply Hx; eauto]. intros [= <-] Ho. destruct (K Ho) as [?|[-> ?]]; [by left|right].
  split; [by left|done].
Qed.
Lemma ListObservations_finds m f cursor limit page o : ListObservations m f cursor limit = Ok page -> o ∈ Items page ->
  (exists id, observed m !! id = Some o) ∧ exists ix, IndexObservation o = Ok ix ∧ matches f ix = true.
Proof.
  unfold ListObservations. go_unfold. case_decide; [done|]. destruct (decode_cursor cursor) as [after|]; [|done].
  destruct (scan _ _ _ _ _) as [found|] eqn:E; [|done]. intros [= <-] Ho.
  assert (Ho' : o ∈ found).
  { unfold make_page in Ho. case_decide; cbn in Ho; [by eapply subseteq_take|done]. }
  destruct (scan_finds _ _ _ _ _ _ _ E Ho') as [?%elem_of_nil|[Hi ?]]; [done|]. split; [|done].
  rewrite sorting.merge_sort_Permutation, range_perm, list_elem_of_fmap in Hi. destruct Hi as ([id o'] & -> & Hi).
  exists id. by apply elem_of_map_to_list.
Qed.

Lemma matches_exact f ix : matches f ix = true ->
  (fSubject f ≠ "" -> ixSubject ix = fSubject f) ∧ (fProfile f ≠ "" -> ixProfile ix = fProfile f).
Proof.
  unfold matches. repeat case_decide; try done. intros _. split; intros ?.
  - destruct (decide (fSubject f = ixSubject ix)); [done|tauto].
  - destruct (decide (fProfile f = ixProfile ix)); [done|tauto].
Qed.

(** A badge that was served: its text is the label of a published observation
    of the subject and profile that the path names. *)
Definition badge_of (w : World) (subject profile : string) (raw : list ascii) : Prop :=
  exists id o ix, observed (wdMemory w) !! id = Some o ∧ IndexObservation o = Ok ix ∧
    ixSubject ix = subject ∧ ixProfile ix = profile ∧ raw = list_ascii_of_string (svg_of (badge_label profile ix o)).

(** [C23] Badges are inert images of published observations: a badge request
    changes nothing and is answered with an error, with a reply without a body,
    or with an image whose text is the label of a published observation of
    exactly the subject and profile of the path.  Whatever an observation puts
    into that label, the angle brackets and quotes of the image, in order, are
    those of the image of the empty label: no element, attribute or script can
    be injected. *)
Theorem badges_are_inert request owner project profile (w : World) :
  let '(answer, w') := getBadge request owner project profile w in
  w' = w ∧
  match answer with
  | Err (Replied r) => error_status r
  | Err Panicked => False
  | Ok r => rpBody r = NoContent ∨
      exists raw, rpBody r = Bytes raw ∧ badge_of w (owner +:+ "/" +:+ project) profile raw ∧
        markup raw = markup (list_ascii_of_string (svg_of ""))
  end.
Proof.
  enough (H : runs (eq w) w (getBadge request owner project profile) (fun r w' => w = w' ∧ (rpBody r = NoContent ∨
      exists raw, rpBody r = Bytes raw ∧ badge_of w (owner +:+ "/" +:+ project) profile raw ∧
        markup raw = markup (list_ascii_of_string (svg_of ""))))).
  { unfold runs in H. destruct (getBadge _ _ _ _ w) as [[r|[r|]] w']; naive_solver. }
  unfold getBadge, requireNoRequestBody. apply runs_bind, runs_reply_if; [done|error_reply|]. intros _.
  apply runs_bind, runs_reply_if; [done|error_reply|]. intros _. apply runs_bind, runs_reply_if; [done|error_reply|]. intros Hs.
  unfold list_page. apply runs_bind, runs_bind, runs_get, runs_answering; [done|error_reply|]. intros page Hp.
  destruct (Items page) as [|o items] eqn:Ei; [by apply runs_reply; [|error_reply]|].
  destruct (ListObservations_finds _ _ _ _ _ o Hp) as ((id & Ho) & ix & Hx & Hm); [rewrite Ei; by left|].
  apply runs_bind, runs_answering; [done|error_reply|]. intros ix' Hx'. replace ix' with ix by congruence. apply runs_ret.
  split; [done|]. unfold writePublicBytes. destruct (etagMatches _ _); [by left|right]. eexists. split; [done|].
  split; [|apply svg_markup]. apply matches_exact in Hm as [Hm1 Hm2]. exists id, o, ix.
  split_and!; [done|done|apply Hm1; by destruct owner|apply Hm2; tauto|done].
Qed.
End Spec.

(** ** A concrete registry *)
#[local] Instance sample_json : JSONLibrary := {
  NewDecoder raw := mkDecoder [Scalar SNull] io_EOF false;
  jcs_Transform raw := Ok raw;
  Sum256 data := resize 32 "0"%char data;
  Sum256_length data := length_resize data 32 "0"%char
}.
Definition sample_text (s : string) : CanonicalObject := mkCanonicalObject (list_ascii_of_string s).
Definition sample_manifest : Digest := "sha256:0123456789abcdef0123456789abcdef0123456789abcdef0123456789abcdef".
Definition sample_upload : list ascii := list_ascii_of_string "upload".
#[local] Instance sample_observations : ObservationCodec := {
  marshal_projection p := Ok (canonical (opSubject p));
  marshal_wire w := Ok (list_ascii_of_string (wObservationID w));
  unmarshal_wire _ := Ok (mkObservationWire ObservationSchemaV1 (NewDigest (list_ascii_of_string "s")) sample_manifest
    (sample_text "s") (sample_text "t") (sample_text "e") (sample_text "r") sample_manifest []
    (mkRegistryDerived [] "" None [] "" false))
}.
#[local] Instance sample_store : StoreCodec := {
  unmarshal_subject raw := Ok (string_of_list_ascii raw, "1");
  unmarshal_test _ := Ok ("pack", "1", "profile")
}.
Definition sample_random (n : nat) (r : unit) : result error bytes * unit := (Ok (repeat "0"%char n), r).
Definition sample_now : Time := unix_epoch + 100 * Second.
Definition sample_id : InstanceID :=
  match NewInstanceID sample_now (Ok (repeat "0"%char 16)) with Ok id => id | Err _ => "" end.
#[local] Instance sample_http : HTTPLibrary := {
  http_EqualFold a b := bool_decide (a = b);
  http_ParseMediaType value := Ok (value, ∅);
  http_SplitHostPort address := Ok (address, "1");
  Decode_prepareRequest _ := Ok (mkPrepareRequest (NewDigest (list_ascii_of_string "s")) (NewDigest sample_upload) 6, Err io_EOF);
  Decode_commitRequest _ := Ok (mkCommitRequest sample_id (NewDigest (list_ascii_of_string "s")) (NewDigest sample_upload), Err io_EOF);
  Decode_ownershipChallengeRequest _ := Err io_EOF;
  Decode_createDisputeRequest _ := Err io_EOF;
  Unmarshal_members _ := Ok ["subject"];
  Marshal_View _ := Ok [];
  matrix_ServeHTTP _ := mkReply StatusOK [] NoContent;
  http_Redirect _ _ status := mkReply status [] NoContent
}.
Definition sample_server : Server := mkServer defaultJSONBytes defaultUploadBytes (15 * Minute) (15 * Minute).
Definition sample_heap : Heap :=
  mkHeap (fun _ => mkIngestSession "" "" "" "" 0 IngestPrepared "")
    (fun _ => RegistryChallenge.mkOwnershipChallenge "" "" "" "" "" 0 "" 0 "")
    (fun _ => RegistryOwnership.mkOwnership "" "" "" "" 0 0 0 "")
    (fun _ => RegistryDispute.mkDispute "" "" "" "" "" "" "" []).
Definition sample_token : string := "0123456789abcdef".
Definition sample_world : World (R := unit) :=
  mkWorld (set_tokens {[HashBearerToken sample_token := mkTokenRecord alice (sample_now + Second)]} NewMemory) sample_heap 0%nat tt
    (newFixedWindowLimiter 10 Minute).
Definition sample_challenge : string := string_of_list_ascii (EncodeToString (repeat "0"%char 32)).
Definition sample_request (method path token : string) (headers : gmap string (list string)) (body : list ascii) : Request :=
  mkRequest method path "" ∅
    (<["Authorization" := ["Bearer " +:+ token]]> (<["Content-Type" := ["application/json"]]> headers)) "192.0.2.1:1" (Some (body, None)).
Definition sample_prepare : Request := sample_request "POST" "/v1/observations:prepare" sample_token ∅ ["{"; "}"]%char.
Definition sample_put : Request :=
  sample_request "PUT" ("/v1/uploads/" +:+ sample_id) sample_token {["X-Upload-Challenge" := [sample_challenge]]} sample_upload.
Definition sample_commit : Request := sample_request "POST" "/v1/observations:commit" sample_token ∅ ["{"; "}"]%char.
Definition statuses (answers : list (option Reply)) : list Z := omap (fmap rpStatus) answers.

(** An upload before its session is prepared is refused; then a session is
    prepared, staged, staged again the same and committed, and the commit is answered with
    [501] because nothing verifies it. *)
Example sample_flow :
  let '(answers, w) := serve_all sample_random sample_server
    ((fun r => (r, sample_now)) <$> [sample_put; sample_prepare; sample_put; sample_put; sample_commit]) sample_world in
  statuses answers = [StatusNotFound; StatusCreated; StatusNoContent; StatusNoContent; StatusNotImplemented] ∧
  (exists o, staged (wdMemory w) !! sample_id = Some o).
Proof. vm_compute. eauto. Qed.

(** A well-formed bearer token that the registry does not know is answered
    like a missing object, not like the other invalid tokens. *)
Example unknown_token_is_not_found :
  statuses [(ServeHTTP sample_random sample_server
    (sample_request "POST" "/v1/observations:prepare" "fedcba9876543210" ∅ ["{"; "}"]%char) sample_now sample_world).1] = [StatusNotFound] ∧
  statuses [(ServeHTTP sample_random sample_server
    (sample_request "POST" "/v1/observations:prepare" "short" ∅ ["{"; "}"]%char) sample_now sample_world).1] = [StatusUnauthorized].
Proof. vm_compute. auto. Qed.

Lemma sample_inv : registry_inv sample_world.
Proof.
  split; cbn; [by intros id x ?%lookup_empty_Some..|]. intros id record p s (Hi & _). cbn in Hi. by apply lookup_empty_Some in Hi.
Qed.

(** A prepared session: the registry changed, so the token was checked. *)
Lemma registry_writes_are_authorized_witness :
  let '(answer, w') := ServeHTTP sample_random sample_server sample_prepare sample_now sample_world in
  registry_inv w' ∧ authorized sample_prepare sample_now sample_world w'.
Proof.
  pose proof (registry_writes_are_authorized sample_random sample_server sample_prepare sample_now sample_world sample_inv) as H.
  assert (N : wdNext (ServeHTTP sample_random sample_server sample_prepare sample_now sample_world).2 = 1%nat) by (vm_compute; reflexivity).
  destruct (ServeHTTP _ _ _ _ _) as [answer w']. destruct H as (_ & I & [(_ & _ & E)|A]); [|exact (conj I A)].
  cbn [snd] in N. rewrite N in E. discriminate E.
Defined.
