(* ===== verification/Config.v ===== *)
(** * internal/config: targets and secret references

    config.go in full and load.go over a file system.  [encoding] of YAML is
    a class parameter; a map of targets is visited in any order. *)
From Stdlib Require Import ZArith Ascii String Lia.
From stdpp Require Import base gmap sets list strings.
From S2P Require Import Prelude Sorting Schema Canonical Documents CAS RunStore.
Local Open Scope Z_scope.
Local Open Scope string_scope.
Local Open Scope list_scope.

Definition APIVersion : string := "urn:agentapi-doctor:config:v1beta2".
Definition legacyAPIVersion : string := "urn:agentapi-doctor:config:v1beta1".

(** ** Types *)
Record SecretReference := mkSecretReference { srRef : string }.
Record Auth := mkAuth { auType : string; auToken : SecretReference; auHeader : string }.
Record Target := mkTarget {
  tgBaseURL : string;
  tgProtocol : string;
  tgModel : string;
  tgAuth : option Auth;
  tgMetadata : gmap string string
}.
Record Config := mkConfig { cgAPIVersion : string; cgTargets : gmap string Target }.

#[export] Instance SecretReference_eq_dec : EqDecision SecretReference.
Proof. solve_decision. Defined.
#[export] Instance Auth_eq_dec : EqDecision Auth.
Proof. solve_decision. Defined.
#[export] Instance Target_eq_dec : EqDecision Target.
Proof. solve_decision. Defined.

(** ** Secret references *)
Definition SecretScheme := string.
Definition SecretEnv : SecretScheme := "env".
Definition SecretKeyring : SecretScheme := "keyring".
Definition SecretFile : SecretScheme := "file".
Definition SecretExec : SecretScheme := "exec".
Record ParsedSecretReference := mkParsedSecretReference { psScheme : SecretScheme; psValue : string }.

(** [s[:n]] and [s[n:]]. *)
Definition slice_to (n : nat) (s : string) : string := String.substring 0 n s.
Definition slice_from (n : nat) (s : string) : string := String.substring n (String.length s - n) s.

Definition ParseSecretReference (reference : string) : result error ParsedSecretReference :=
  let malformed := ErrorNew (Text "secret ref must use env://, keyring://, file://, or exec://") in
  match String.index 0 "://" reference with
  | None => Err malformed
  | Some index =>
      err_if (index = 0%nat ∨ (String.length reference <= index + 3)%nat) malformed;;
      let scheme := slice_to index reference in
      let value := slice_from (index + 3) reference in
      err_if (scheme ∉ [SecretEnv; SecretKeyring; SecretFile; SecretExec])
        (ErrorNew (Sprintf "unsupported secret ref scheme %q" [FStr scheme]));;
      err_if (string_any (is_one_of (String "000" (String "013" (String "010" "")))) value = true)
        (ErrorNew (Text "secret ref contains forbidden control characters"));;
      err_if (scheme = SecretEnv ∧ string_any (is_one_of "/\") value = true)
        (ErrorNew (Text "env secret ref must name one variable"));;
      mret (mkParsedSecretReference scheme value)
  end.

Definition Auth_Validate (auth : Auth) : result error unit :=
  err_if (auType auth ∉ ["bearer"; "header"]) (ErrorNew (Sprintf "unsupported auth type %q" [FStr (auType auth)]));;
  err_if (auType auth = "header" ∧ auHeader auth = "") (ErrorNew (Text "header auth requires a header name"));;
  ParseSecretReference (srRef (auToken auth));;
  mret tt.

(** [TargetNamePattern]. *)
Definition name_start (c : ascii) : bool := is_lower c || is_digit c.
Definition targetNamePattern (name : string) : bool :=
  match name with
  | EmptyString => false
  | String c rest => name_start c && string_all (fun c => name_start c || is_one_of "._-" c) rest && (len rest <=? 127)%Z
  end.

Definition legacyMigrationError : error :=
  ErrorNew (Sprintf "config apiVersion %q is no longer supported; remove the top-level defaults field and change apiVersion to %q"
              [FStr legacyAPIVersion; FStr APIVersion]).

Section Validate.
Context {lib : DocumentLibrary}.

Definition Target_Validate (target : Target) : result error unit :=
  let bad := ErrorNew (Sprintf "baseURL %q must be an absolute HTTP(S) URL without credentials, query, or fragment"
                         [FStr (tgBaseURL target)]) in
  parsed ← wrap (fun _ => bad) (url_Parse (tgBaseURL target));
  err_if (Scheme parsed = "" ∨ Host parsed = "" ∨ HasUser parsed = true ∨ RawQuery parsed ≠ "" ∨ Fragment parsed ≠ "") bad;;
  err_if (Scheme parsed ≠ "http" ∧ Scheme parsed ≠ "https") (ErrorNew (Text "baseURL scheme must be http or https"));;
  err_if (tgProtocol target = "" ∨ tgModel target = "") (ErrorNew (Text "protocol and model are required"));;
  match tgAuth target with
  | Some auth => Auth_Validate auth
  | None => mret tt
  end.

Context {ro : RangeOrder string Target}.
Definition Config_Validate (config : Config) : result error unit :=
  err_if (cgAPIVersion config = legacyAPIVersion) legacyMigrationError;;
  err_if (cgAPIVersion config ≠ APIVersion)
    (ErrorNew (Sprintf "unsupported config apiVersion %q" [FStr (cgAPIVersion config)]));;
  err_if (size (cgTargets config) = 0%nat) (ErrorNew (Text "config requires at least one target"));;
  for_each (fun '(name, target) =>
    err_if (targetNamePattern name = false) (ErrorNew (Sprintf "invalid target name %q" [FStr name]));;
    wrap (Wrapf (Sprintf "target %s: %w" [FStr name])) (Target_Validate target)) (range (cgTargets config)).
End Validate.

Definition Default : Config :=
  mkConfig APIVersion {["local-reference" := mkTarget "http://127.0.0.1:8090/v1" "openai-responses" "synthetic-model" None ∅]}.

(** ** Files (load.go) *)
Definition MaxConfigBytes : Z := Z.shiftl 1 20.

Class ConfigLibrary := {
  (** [yaml.Unmarshal] into the header *)
  yaml_header : list ascii -> result error string;
  (** a [Decode] that knows its fields, and what the second one answers *)
  yaml_Decode : list ascii -> result error (Config * result error unit);
  yaml_Marshal : Config -> result error (list ascii)
}.

(** The directory of the file is the root of the file system. *)
Class ConfigFiles (W File : Type) := {
  config_files :: RunFileSystem W File;
  fs_ReadFile : Path -> GoM W error (list ascii)
}.

Section Files.
Context {W File : Type} {fs : ConfigFiles W File} {lib : DocumentLibrary} {yaml : ConfigLibrary}.
Context {ro : RangeOrder string Target}.

Definition size_error : error := ErrorNew (Sprintf "config size must be between 1 and %d bytes" [FInt MaxConfigBytes]).
Definition Decode (raw : list ascii) : result error Config :=
  err_if (length raw = 0%nat ∨ Z.of_nat (length raw) > MaxConfigBytes) size_error;;
  err_if (yaml_header raw = Ok legacyAPIVersion) legacyMigrationError;;
  '(config, trailing) ← wrap (Wrapf (Text "decode config: %w")) (yaml_Decode raw);
  match trailing with
  | Ok _ => Err (ErrorNew (Text "config must contain exactly one YAML document"))
  | Err e => err_if (e ≠ io_EOF) (Wrapf (Text "decode trailing config document: %w") e)
  end;;
  Config_Validate config;;
  mret config.

(** The file [name] of the directory. *)
Definition LoadFile (name : string) : GoM W error Config :=
  info ← wrapM (Wrapf (Text "stat config: %w")) (fs_Lstat [name]);
  fail_if (fiSymlink info = true ∨ fiIsRegular info = false) (ErrorNew (Text "config must be a regular non-symlink file"));;
  fail_if (fiSize info <= 0 ∨ fiSize info > MaxConfigBytes) size_error;;
  raw ← wrapM (Wrapf (Text "read config: %w")) (fs_ReadFile [name]);
  lift (Decode raw).

(** What is left to do when the temporary file exists: the deferred removal
    runs on every error, whatever it answers. *)
Definition removing (temporary : Path) {A} (m : GoM W error A) : GoM W error A := fun w =>
  match m w with
  | (Err e, w) => (Err e, (fs_Remove temporary w).2)
  | (Ok a, w) => (Ok a, w)
  end.
Definition closing (file : File) {A} (m : GoM W error A) : GoM W error A := fun w =>
  match m w with
  | (Err e, w) => (Err e, (file_Close file w).2)
  | (Ok a, w) => (Ok a, w)
  end.
Definition SaveFile (name : string) (config : Config) (overwrite : bool) : GoM W error unit :=
  lift (Config_Validate config);;
  encoded ← lift (wrap (Wrapf (Text "encode config: %w")) (yaml_Marshal config));
  wrapM (Wrapf (Text "create config directory: %w")) fs_MkdirAll;;
  prior ← try (fs_Lstat [name]);
  (match prior with
   | Ok info =>
       fail_if (fiSymlink info = true ∨ fiIsRegular info = false)
         (ErrorNew (Text "existing config must be a regular non-symlink file"));;
       fail_if (overwrite = false) (Sentinel ErrExist)
   | Err e => fail_if (errors_Is e ErrNotExist = false) (Wrapf (Text "stat config destination: %w") e)
   end);;
  '(temporary, file) ← wrapM (Wrapf (Text "create config temporary file: %w")) (fs_CreateTemp []);
  removing temporary (
    closing file (file_Chmod file);;
    closing file (file_Write file encoded);;
    closing file (file_Sync file);;
    file_Close file;;
    if overwrite then wrapM (Wrapf (Text "replace config: %w")) (fs_Rename temporary [name])
    else
      wrapM (Wrapf (Text "create config without overwrite: %w")) (fs_Link temporary [name]);;
      fs_Remove temporary).
End Files.
