(* ===== verification/ProductPlan.v ===== *)
(** * internal/productrun: plans of product runs

    path.go, definitions.go, resolver.go, plan.go and persisted_plan.go: the
    route of a target, the built-in scenarios with the artifacts that are
    derived from them, the intent and resolved plan that [Build] makes of them,
    and the projection of a plan that is stored.  [encoding/json] at the types
    that are hashed or stored is a class parameter. *)
From Stdlib Require Import ZArith Ascii String Lia.
From stdpp Require Import base gmap sets list strings pretty.
From S2P Require Import Prelude Sorting Schema Results Canonical Documents Planner.
From S2P Require Import OracleSchema Normalizer RawJSON RawRegistry PackPattern CAS Config.
Local Open Scope Z_scope.
Local Open Scope string_scope.
Local Open Scope list_scope.

(** ** The built-in scenarios (definitions.go) *)
Definition builtinVersion : string := "0.1.0-candidate.3".
Definition structuralTokenCap : Z := 64.
Definition terminalTokenCap : Z := 512.
Definition catalogStatus : string := "candidate".
Definition catalogReviewState : string := "pending_review".

Record ScenarioDescriptor := mkScenarioDescriptor {
  sdID : string;
  sdRequirementID : string;
  sdRequirementInterpretation : string;
  sdCatalogStatus : string;
  sdCatalogReviewStatus : string;
  sdProtocol : Protocol;
  sdStreaming : bool;
  sdCheck : CheckKind;
  sdAllowedValues : list string;
  sdRequestedOutputTokens : Z
}.

(** An entry of [descriptors], after [init]. *)
Definition descriptor (id requirement interpretation : string) (protocol : Protocol) (streaming : bool) (check : CheckKind)
    (allowed : list string) (tokens : Z) : ScenarioDescriptor :=
  mkScenarioDescriptor id requirement ("Candidate interpretation pending independent source review: " +:+ interpretation)
    catalogStatus catalogReviewState protocol streaming check allowed tokens.

Definition chat_descriptors : list ScenarioDescriptor :=
  [descriptor "openai-chat-002-terminal-status" "OAI-CHAT-REQ-002"
     "OpenAI Chat Completions HTTP/SSE maps documented terminal, truncated, refused, and filtered states distinctly."
     ProtocolOpenAIChat false CheckFinishReason ["stop"] terminalTokenCap;
   descriptor "openai-chat-015-post-terminal-data" "OAI-CHAT-REQ-015"
     "OpenAI Chat Completions HTTP/SSE rejects semantic data emitted after the terminal marker."
     ProtocolOpenAIChat true CheckNoPostTerminal [] structuralTokenCap;
   descriptor "openai-chat-024-stream-media-type" "OAI-CHAT-REQ-024"
     "OpenAI Chat Completions HTTP/SSE validates the documented streaming media type before event parsing."
     ProtocolOpenAIChat true CheckStreamMediaType [] structuralTokenCap;
   descriptor "openai-chat-030-required-response-envelope" "OAI-CHAT-REQ-030"
     "OpenAI Chat Completions HTTP/SSE requires the documented response envelope before evaluating model content."
     ProtocolOpenAIChat false CheckRequiredEnvelope [] structuralTokenCap].
Definition responses_descriptors : list ScenarioDescriptor :=
  [descriptor "openai-responses-http-008-stream-media-type" "OAI-RESP-REQ-008"
     "OpenAI Responses HTTP/SSE validates the documented streaming media type before event parsing."
     ProtocolOpenAIResponses true CheckStreamMediaType [] structuralTokenCap;
   descriptor "openai-responses-http-014-required-response-envelope" "OAI-RESP-REQ-014"
     "OpenAI Responses HTTP/SSE requires the documented response envelope before evaluating model content."
     ProtocolOpenAIResponses false CheckRequiredEnvelope [] structuralTokenCap;
   descriptor "openai-responses-http-030-terminal-exactly-once" "OAI-RESP-REQ-030"
     "OpenAI Responses HTTP/SSE accepts exactly one documented terminal condition."
     ProtocolOpenAIResponses true CheckTerminalEvent [] structuralTokenCap;
   descriptor "openai-responses-http-039-terminal-status" "OAI-RESP-REQ-039"
     "OpenAI Responses HTTP/SSE maps documented terminal, truncated, refused, and filtered states distinctly."
     ProtocolOpenAIResponses false CheckFinishReason ["completed"] terminalTokenCap].
Definition anthropic_descriptors : list ScenarioDescriptor :=
  [descriptor "anthropic-messages-008-post-terminal-data" "ANTH-MSG-REQ-008"
     "Anthropic Messages HTTP/SSE rejects semantic data emitted after the terminal marker."
     ProtocolAnthropic true CheckNoPostTerminal [] structuralTokenCap;
   descriptor "anthropic-messages-017-stream-media-type" "ANTH-MSG-REQ-017"
     "Anthropic Messages HTTP/SSE validates the documented streaming media type before event parsing."
     ProtocolAnthropic true CheckStreamMediaType [] structuralTokenCap;
   descriptor "anthropic-messages-023-required-response-envelope" "ANTH-MSG-REQ-023"
     "Anthropic Messages HTTP/SSE requires the documented response envelope before evaluating model content."
     ProtocolAnthropic false CheckRequiredEnvelope [] structuralTokenCap;
   descriptor "anthropic-messages-039-terminal-exactly-once" "ANTH-MSG-REQ-039"
     "Anthropic Messages HTTP/SSE accepts exactly one documented terminal condition."
     ProtocolAnthropic true CheckTerminalEvent [] structuralTokenCap].

Definition unsupported_protocol (protocol : string) : error :=
  ErrorNew (Sprintf "unsupported target protocol %q" [FStr protocol]).
Definition BuiltinScenarios (protocol : string) : result error (list ScenarioDescriptor) :=
  if decide (protocol = ProtocolOpenAIChat) then Ok chat_descriptors
  else if decide (protocol = ProtocolOpenAIResponses) then Ok responses_descriptors
  else if decide (protocol = ProtocolAnthropic) then Ok anthropic_descriptors
  else Err (unsupported_protocol protocol).

Record scenarioMaterial := mkScenarioMaterial {
  smDescriptor : ScenarioDescriptor;
  smMethod : string;
  smPath : string;
  smHeaders : Header;
  smBody : list ascii;
  smExpectedStatus : Z;
  smBudget : BodyBudget;
  smDriver : ArtifactPin;
  smOracle : ArtifactPin;
  smEvaluator : Digest
}.

Record artifacts := mkArtifacts {
  arDriver : ArtifactPin;
  arOracle : ArtifactPin;
  arResolver : ArtifactPin;
  arPack : ArtifactPin;
  arProfile : ArtifactPin;
  arEvaluator : Digest;
  arSupport : Digest;
  arProducer : Producer;
  arMaterials : list scenarioMaterial
}.

(** ** What is stored of a plan (persisted_plan.go) *)
Definition PersistedPlanSchema : string := "urn:agentapi-doctor:local-plan-snapshot:v1alpha1".
Record PersistedAuth := mkPersistedAuth { paType : string; paHeader : string; paCredentialConfigured : bool }.
Record PersistedTarget := mkPersistedTarget {
  ptBaseURL : string; ptProtocol : string; ptModel : string; ptAuth : option PersistedAuth
}.
Record PersistedPlan := mkPersistedPlan {
  ppSchemaVersion : string;
  ppTargetName : string;
  ppTarget : PersistedTarget;
  ppIntent : IntentPlan;
  ppResolved : ResolvedRunPlan
}.

Record PlannedRun := mkPlannedRun {
  plTargetName : string;
  plTarget : Target;
  plExecutionConfigDigest : Digest;
  plIntent : IntentPlan;
  plResolved : ResolvedRunPlan
}.

(** The anonymous structs that are hashed. *)
Inductive manifest :=
| EvaluatorManifest (schemaVersion name version semantics : string)
| DriverManifest (schemaVersion name version contract : string)
| PackManifest (schemaVersion name version status reviewStatus : string) (scenarios : list scenarioMaterial)
| ProfileManifest (schemaVersion name version : string) (pack : Digest) (claim : string)
| ResolverManifest (schemaVersion name version : string) (driver : Digest)
| SupportManifest (schemaVersion status claim : string)
| ProducerManifest (schemaVersion name version : string)
| PersistedConfig (targetName : string) (target : PersistedTarget)
| ExecutionConfig (targetName : string) (target : Target).

Class ProductLibrary := {
  product_registry :: RegistryLibrary;
  (** [RawPath] and [EscapedPath()] of a parsed URL *)
  url_RawPath : string -> string;
  url_EscapedPath : string -> string;
  (** [String()] of a URL that has a scheme and a host only *)
  origin_String : string -> string -> string;
  Marshal_manifest : manifest -> result error (list ascii);
  Marshal_request : json -> result error (list ascii);
  Marshal_strings : list string -> result error (list ascii);
  Marshal_intent : intentProjection -> result error (list ascii);
  Marshal_resolved : resolvedProjection -> result error (list ascii);
  Marshal_IntentPlan : IntentPlan -> result error (list ascii);
  Marshal_ResolvedRunPlan : ResolvedRunPlan -> result error (list ascii);
  Marshal_PersistedPlan : PersistedPlan -> result error (list ascii);
  Marshal_PlannedRun : PlannedRun -> result error (list ascii);
  Unmarshal_PlannedRun : list ascii -> result error PlannedRun;
  (** a strict [Decode], and what a second one answers *)
  Decode_PersistedPlan : list ascii -> result error (PersistedPlan * result error unit)
}.

(** ** Headers *)

(** [http.CanonicalHeaderKey]: a name with a byte that no token has is left
    as it is. *)
Definition upper_byte (c : ascii) : ascii := if is_lower c then ascii_of_N (byte c - 32) else c.
Fixpoint canonical_key (upper : bool) (name : string) : string :=
  match name with
  | EmptyString => ""
  | String c rest => String (if upper then upper_byte c else ascii_lower c) (canonical_key (is_byte 45 c) rest)
  end.
Definition CanonicalHeaderKey (name : string) : string :=
  if string_all (fun c => is_alnum c || is_one_of header_chars c) name then canonical_key true name else name.
Definition Header_Set (name value : string) (headers : Header) : Header := <[CanonicalHeaderKey name := [value]]> headers.

(** ** Authentication (execute.go) *)
Definition protected_headers : list string :=
  ["host"; "content-length"; "transfer-encoding"; "connection"; "proxy-connection"; "upgrade"; "content-type"; "accept";
   "anthropic-version"].
(** [strings.ToLower] of an ASCII string. *)
Definition to_lower (s : string) : string := string_of_list_ascii (ascii_lower <$> list_ascii_of_string s).
Definition authHeaderName (target : Target) : result error string :=
  let name := match tgAuth target with
              | Some auth => if decide (auType auth = "header") then auHeader auth else "Authorization"
              | None => "Authorization"
              end in
  err_if (name = "") (ErrorNew (Text "authentication header name is required"));;
  err_if (string_all (fun c => is_alnum c || is_one_of header_chars c) name = false)
    (ErrorNew (Sprintf "authentication header %q is not a valid HTTP field name" [FStr name]));;
  err_if (to_lower name ∈ protected_headers)
    (ErrorNew (Sprintf "authentication header %q conflicts with a transport or protocol-controlled header" [FStr name]));;
  mret name.
Definition validateAuthConfig (target : Target) : result error unit :=
  match tgAuth target with
  | None => mret tt
  | Some _ => authHeaderName target;; mret tt
  end.

(** The clock and the identifiers of a request, or their defaults. *)
Class PlanEnvironment (W : Type) := { plan_Now : W -> Time * W; plan_NewID : GoM W error InstanceID }.

#[export] Instance HardBudget_eq_dec : EqDecision HardBudget.
Proof. solve_decision. Defined.
#[export] Instance TokenBudget_eq_dec : EqDecision TokenBudget.
Proof. solve_decision. Defined.
#[export] Instance BudgetPolicy_eq_dec : EqDecision BudgetPolicy.
Proof. solve_decision. Defined.
#[export] Instance Producer_eq_dec : EqDecision Producer.
Proof. solve_decision. Defined.

(** pkg/schema/plan.go *)
Definition NetworkOffline : NetworkPolicy := "offline".
Definition NetworkTargetOnly : NetworkPolicy := "target_only".
Definition SideEffectsNone : SideEffectPolicy := "none".

Section Plan.
Context {lib : ProductLibrary} {ro : RangeOrder string string}.

(** ** Routes (path.go) *)
Record targetRoute := mkTargetRoute { trOrigin : string; trEndpointPath : string }.

Definition canonicalBasePath (base : string) (parsed : URL) : result error string :=
  err_if (url_RawPath base ≠ "" ∨ Contains (url_EscapedPath base) "%" = true ∨ Contains (URLPath parsed) "\" = true)
    (ErrorNew (Text "base URL path cannot contain escapes or backslashes"));;
  let value := URLPath parsed in
  if decide (value = "" ∨ value = "/") then mret "/"
  else
    let withoutTrailing := TrimSuffix value "/" in
    err_if (withoutTrailing = "" ∨ HasPrefix withoutTrailing "/" = false ∨ path_Clean withoutTrailing ≠ withoutTrailing ∨
            Contains withoutTrailing "//" = true)
      (ErrorNew (Text "base URL path must be canonical and may only have one trailing slash"));;
    mret withoutTrailing.

Definition endpoint_suffix (protocol : string) : result error string :=
  if decide (protocol = ProtocolOpenAIChat) then Ok "chat/completions"
  else if decide (protocol = ProtocolOpenAIResponses) then Ok "responses"
  else if decide (protocol = ProtocolAnthropic) then Ok "messages"
  else Err (unsupported_protocol protocol).

Definition routeTarget (target : Target) : result error targetRoute :=
  Target_Validate target;;
  parsed ← url_Parse (tgBaseURL target);
  basePath ← canonicalBasePath (tgBaseURL target) parsed;
  suffix ← endpoint_suffix (tgProtocol target);
  let prefix := if decide (basePath = "/") then "/v1" else basePath in
  let endpoint := path_Clean (prefix +:+ "/" +:+ suffix) in
  err_if (HasPrefix endpoint "/" = false ∨ path_Clean endpoint ≠ endpoint ∨ Contains endpoint "\" = true)
    (ErrorNew (Text "derived endpoint path is not canonical"));;
  mret (mkTargetRoute (origin_String (Scheme parsed) (Host parsed)) endpoint).

(** ** Artifacts (definitions.go) *)
Definition pin (kind name version : string) (material : manifest) : result error ArtifactPin :=
  digest ← CanonicalDigest Marshal_manifest material;
  let p := mkArtifactPin kind name version digest in
  ArtifactPin_Validate p;;
  mret p.

Definition synthetic_prompt : string := "Return a concise synthetic response.".
Definition user_message : json := JArray [JObject [("role", JString "user"); ("content", JString synthetic_prompt)]].
Definition requestBody (protocol model : string) (streaming : bool) (requestedOutputTokens : Z) : result error (list ascii) :=
  err_if (model = "") (ErrorNew (Text "target model is required"));;
  err_if (requestedOutputTokens <= 0) (ErrorNew (Text "requested output tokens must be positive"));;
  let common := [("model", JString model); ("stream", JBool streaming)] in
  let tokens := JNumber (pretty requestedOutputTokens) in
  value ←
    (if decide (protocol = ProtocolOpenAIChat) then
       Ok (JObject (common ++ [("max_completion_tokens", tokens); ("messages", user_message)]))
     else if decide (protocol = ProtocolOpenAIResponses) then
       Ok (JObject (common ++ [("max_output_tokens", tokens); ("input", JString synthetic_prompt)]))
     else if decide (protocol = ProtocolAnthropic) then
       Ok (JObject (common ++ [("max_tokens", tokens); ("messages", user_message)]))
     else Err (unsupported_protocol protocol));
  CanonicalMarshal Marshal_request value.

Definition request_headers (protocol : string) (streaming : bool) : Header :=
  let headers := Header_Set "Content-Type" "application/json; charset=utf-8" ∅ in
  let headers := Header_Set "Accept" (if streaming then "text/event-stream" else "application/json") headers in
  if decide (protocol = ProtocolAnthropic) then Header_Set "anthropic-version" "2023-06-01" headers else headers.

(** The loop over the entries. *)
Fixpoint materials_of (protocol model endpointPath : string) (driver oracle : ArtifactPin) (evaluator : Digest)
    (entries : list ScenarioDescriptor) : result error (list scenarioMaterial) :=
  match entries with
  | [] => mret []
  | entry :: rest =>
      body ← requestBody protocol model (sdStreaming entry) (sdRequestedOutputTokens entry);
      materials ← materials_of protocol model endpointPath driver oracle evaluator rest;
      mret (mkScenarioMaterial entry "POST" endpointPath (request_headers protocol (sdStreaming entry)) body 200
              (mkBodyBudget (Z.shiftl 64 10) (Z.shiftl 512 10)) driver oracle evaluator :: materials)
  end.

Definition evaluatorManifest : manifest :=
  EvaluatorManifest "urn:agentapi-doctor:builtin-evaluator:v1" "raw-http-candidate-evaluator" builtinVersion
    "strict content type, required envelope, terminal lifecycle, and post-terminal checks; provider output-limit support and non-truncated completion are explicit inconclusive prerequisites".
Definition driverManifest : manifest :=
  DriverManifest "urn:agentapi-doctor:builtin-driver:v1" "builtin-raw-http" builtinVersion
    "one exact-origin bounded HTTP request per scenario; no subprocess or tool side effect".
Definition supportManifest : manifest :=
  SupportManifest "urn:agentapi-doctor:builtin-support-state:v1" "candidate-unresolved"
    "selected checks do not satisfy or assert a support tier".
Definition producerName : string := "agentapi-doctor-productrun".

Definition deriveArtifacts (protocol model endpointPath : string) : result error artifacts :=
  entries ← BuiltinScenarios protocol;
  evaluator ← CanonicalDigest Marshal_manifest evaluatorManifest;
  oracle ← pin "Oracle" "builtin-raw-http-oracle" builtinVersion evaluatorManifest;
  driver ← pin "Driver" "builtin-raw-http" builtinVersion driverManifest;
  materials ← materials_of protocol model endpointPath driver oracle evaluator entries;
  let packName := "builtin-" +:+ protocol +:+ "-candidate-slice" in
  pack ← pin "ProtocolPack" packName builtinVersion
           (PackManifest "urn:agentapi-doctor:builtin-pack:v1" packName builtinVersion catalogStatus catalogReviewState materials);
  let profileName := "builtin-" +:+ protocol +:+ "-raw-candidate" in
  profile ← pin "ConsumerCompatibilityProfile" profileName builtinVersion
              (ProfileManifest "urn:agentapi-doctor:builtin-profile:v1" profileName builtinVersion (pinDigest pack)
                 "candidate exact-origin raw-wire slice; no Tier or vendor compatibility claim");
  resolver ← pin "Resolver" "builtin-exact-runner-resolver" builtinVersion
               (ResolverManifest "urn:agentapi-doctor:builtin-resolver:v1" "builtin-exact-runner-resolver" builtinVersion
                  (pinDigest driver));
  support ← CanonicalDigest Marshal_manifest supportManifest;
  producerDigest ← CanonicalDigest Marshal_manifest
                     (ProducerManifest "urn:agentapi-doctor:productrun:v1" producerName builtinVersion);
  mret (mkArtifacts driver oracle resolver pack profile evaluator support
          (mkProducer producerName builtinVersion producerDigest) materials).

(** ** Plans (plan.go) *)
Definition Second : Z := 1000000000.
Definition DefaultBudget (scenarioCount : Z) : BudgetPolicy :=
  let count := if decide (scenarioCount < 1) then 1 else scenarioCount in
  mkBudgetPolicy
    (mkHardBudget count (int64_wrap (count * Z.shiftl 64 10)) (int64_wrap (count * Z.shiftl 512 10))
       (int64_wrap (count * Z.shiftl 9 20)) 1 (60 * Second))
    (mkTokenBudget 0 (int64_wrap (count * terminalTokenCap)))
    (mkHardBudget 1 1 1 1 1 Second).
Definition defaultBudgetFor (materials : list scenarioMaterial) : BudgetPolicy :=
  let policy := DefaultBudget (Z.of_nat (length materials)) in
  let requested := foldl (fun sum m => int64_wrap (sum + sdRequestedOutputTokens (smDescriptor m))) 0 materials in
  mkBudgetPolicy (Hard policy) (mkTokenBudget (MaxInputTokens (Reservation_ policy)) requested) (Cleanup policy).

Definition persistedTarget (target : Target) : PersistedTarget :=
  mkPersistedTarget (tgBaseURL target) (tgProtocol target) (tgModel target)
    ((fun auth => mkPersistedAuth (auType auth) (auHeader auth) true) <$> tgAuth target).
Definition persistedConfigDigest (targetName : string) (target : PersistedTarget) : result error Digest :=
  CanonicalDigest Marshal_manifest (PersistedConfig targetName target).

Definition redacted_content : CaptureMode := "redacted_content".
Definition candidates_of (derived : artifacts) : list ScenarioCandidate :=
  (fun m => mkScenarioCandidate (sdID (smDescriptor m)) [] (arDriver derived) []) <$> arMaterials derived.
Definition intent_request (targetName protocol origin : string) (derived : artifacts) (configDigest : Digest)
    (budget : BudgetPolicy) (producer : Producer) (author : string) (intentID : InstanceID) (createdAt : Time) : IntentRequest :=
  mkIntentRequest intentID createdAt producer configDigest
    (mkTargetIntent targetName protocol "configured-unverified" origin)
    [mkArtifactSelector (pinKind (arPack derived)) (pinName (arPack derived)) ("=" +:+ pinVersion (arPack derived))
       [pinDigest (arPack derived)]]
    (arSupport derived)
    (mkProbePolicy [] (mkHardBudget 1 1 1 1 1 Second) NetworkOffline)
    (candidates_of derived) budget
    (mkEvidencePolicy redacted_content "builtin-required-v1" "local-only")
    (mkSafetyPolicy NetworkTargetOnly "none" SideEffectsNone ["network:exact-origin"])
    author ["candidate-interpretations-pending-independent-review"].
Definition resolution_request (model : string) (derived : artifacts) (configDigest : Digest) (budget : BudgetPolicy)
    (producer : Producer) (resolvedID : InstanceID) (createdAt : Time) : ResolutionRequest :=
  mkResolutionRequest resolvedID createdAt producer (arResolver derived) [] (arSupport derived)
    [arPack derived; arDriver derived; arOracle derived; arProfile derived]
    (mkTargetResolution "configured-unverified" configDigest "" configDigest model "")
    (candidates_of derived)
    (mkRuntimePolicy 1 0 (MaxDuration (Hard budget)) redacted_content "in-process-no-tools" NetworkTargetOnly)
    [].

Definition buildExact (targetName : string) (target : Target) (budget : BudgetPolicy) (producer : Producer) (author : string)
    (intentID resolvedID : InstanceID) (createdAt : Time) : result error PlannedRun :=
  Target_Validate target;;
  validateAuthConfig target;;
  route ← routeTarget target;
  derived ← deriveArtifacts (tgProtocol target) (tgModel target) (trEndpointPath route);
  configDigest ← persistedConfigDigest targetName (persistedTarget target);
  executionConfigDigest ← CanonicalDigest Marshal_manifest (ExecutionConfig targetName target);
  intent ← wrap (Wrapf (Text "build IntentPlan: %w"))
    (BuildIntent Marshal_strings Marshal_intent
       (intent_request targetName (tgProtocol target) (trOrigin route) derived configDigest budget producer author intentID createdAt));
  resolved ← wrap (Wrapf (Text "build ResolvedRunPlan: %w"))
    (Planner.Resolve Marshal_strings Marshal_resolved intent
       (resolution_request (tgModel target) derived configDigest budget producer resolvedID createdAt));
  mret (mkPlannedRun targetName target executionConfigDigest intent resolved).

Record PlanRequest := mkPlanRequest {
  pqTargetName : string;
  pqTarget : Target;
  pqBudget : BudgetPolicy;
  pqProducer : Producer;
  pqAuthor : string
}.
Definition zero_hard : HardBudget := mkHardBudget 0 0 0 0 0 0.
Definition zero_budget : BudgetPolicy := mkBudgetPolicy zero_hard (mkTokenBudget 0 0) zero_hard.
Definition zero_producer : Producer := mkProducer "" "" "".

Context {W : Type} {env : PlanEnvironment W}.

Definition Build (request : PlanRequest) : GoM W error PlannedRun :=
  let targetName := if decide (pqTargetName request = "") then "default" else pqTargetName request in
  let target := pqTarget request in
  lift (wrap (Wrapf (Text "target: %w")) (Target_Validate target));;
  lift (wrap (Wrapf (Text "target authentication: %w")) (validateAuthConfig target));;
  route ← lift (wrap (Wrapf (Text "target route: %w")) (routeTarget target));
  derived ← lift (deriveArtifacts (tgProtocol target) (tgModel target) (trEndpointPath route));
  let budget := if decide (pqBudget request = zero_budget) then defaultBudgetFor (arMaterials derived) else pqBudget request in
  lift (wrap (Wrapf (Text "budget: %w")) (BudgetPolicy_Validate budget));;
  let producer := if decide (pqProducer request = zero_producer) then arProducer derived else pqProducer request in
  lift (wrap (Wrapf (Text "producer: %w")) (Producer_Validate producer));;
  let author := if decide (pqAuthor request = "") then "local-user" else pqAuthor request in
  instant ← (fun w => let '(t, w) := plan_Now w in (Ok t, w));
  intentID ← wrapM (Wrapf (Text "intent plan ID: %w")) plan_NewID;
  resolvedID ← wrapM (Wrapf (Text "resolved plan ID: %w")) plan_NewID;
  fail_if (intentID = resolvedID) (ErrorNew (Text "intent and resolved plan IDs must be distinct"));;
  lift (buildExact targetName target budget producer author intentID resolvedID (UTC instant)).

Definition validatePlanned (input : PlannedRun) : result error (artifacts * targetRoute) :=
  let intent := plIntent input in
  let resolved := plResolved input in
  wrap (Wrapf (Text "intent plan: %w")) (IntentPlan_Validate intent);;
  wrap (Wrapf (Text "resolved plan: %w")) (ResolvedRunPlan_Validate resolved);;
  err_if (rpIntentPlanRef resolved ≠ emObjectRef (ipMeta intent))
    (ErrorNew (Text "resolved plan is bound to a different IntentPlan"));;
  wrap (Wrapf (Text "execution config digest: %w")) (Digest_Validate (plExecutionConfigDigest input));;
  expected ← wrap (Wrapf (Text "rebuild exact plan: %w"))
    (buildExact (plTargetName input) (plTarget input) (ipBudget intent) (emProducer (ipMeta intent)) (ipAuthor intent)
       (ipIntentPlanID intent) (rpResolvedPlanID resolved) (emCreatedAt (ipMeta intent)));
  actualIntent ← CanonicalMarshal Marshal_IntentPlan intent;
  expectedIntent ← CanonicalMarshal Marshal_IntentPlan (plIntent expected);
  actualResolved ← CanonicalMarshal Marshal_ResolvedRunPlan resolved;
  expectedResolved ← CanonicalMarshal Marshal_ResolvedRunPlan (plResolved expected);
  err_if (plExecutionConfigDigest input ≠ plExecutionConfigDigest expected ∨ actualIntent ≠ expectedIntent ∨
          actualResolved ≠ expectedResolved)
    (ErrorNew (Text "planned run differs from the exact built-in resolution"));;
  route ← routeTarget (plTarget input);
  derived ← deriveArtifacts (tgProtocol (plTarget input)) (tgModel (plTarget input)) (trEndpointPath route);
  mret (derived, route).

(** ** Stored plans (persisted_plan.go) *)
Definition verifyIntentEnvelope (plan : IntentPlan) : result error unit :=
  let meta := ipMeta plan in
  IntentPlan_Validate plan;;
  err_if (size (emExtensions meta) ≠ 0%nat) (ErrorNew (Text "built-in IntentPlan does not permit unbound extensions"));;
  digest ← CanonicalDigest Marshal_intent
    (mkIntentProjection (emSchemaVersion meta) (emKind meta) (ipIntentPlanID plan) (ipConfigDigest plan) (ipTarget plan)
       (ipSelectors plan) (ipSupportManifestDigest plan) (ipCandidateDenominatorDigest plan) (ipProbe plan)
       (ipConditionalBranches plan) (ipBudget plan) (ipEvidence plan) (ipSafety plan) (ipAuthor plan)
       (ipApprovalRequirements plan) (emProducer meta) (emCreatedAt meta));
  err_if (digest ≠ emContentDigest meta)
    (ErrorNew (Text "IntentPlan immutable projection digest does not match its envelope")).

Definition verifyResolvedEnvelope (plan : ResolvedRunPlan) : result error unit :=
  let meta := rpMeta plan in
  ResolvedRunPlan_Validate plan;;
  err_if (size (emExtensions meta) ≠ 0%nat) (ErrorNew (Text "built-in ResolvedRunPlan does not permit unbound extensions"));;
  digest ← CanonicalDigest Marshal_resolved
    (mkResolvedProjection (emSchemaVersion meta) (emKind meta) (rpResolvedPlanID plan) (rpIntentPlanRef plan) (rpResolver plan)
       (rpCapabilityObservationRefs plan) (rpSupportLockDigest plan) (rpArtifacts plan) (rpTarget plan) (rpScenarios plan)
       (rpDenominatorDigest plan) (rpBudget plan) (rpRuntime plan) (rpFinalizers plan) (emProducer meta) (emCreatedAt meta));
  err_if (digest ≠ emContentDigest meta)
    (ErrorNew (Text "ResolvedRunPlan immutable projection digest does not match its envelope")).

Definition newPersistedPlan (planned : PlannedRun) : PersistedPlan :=
  mkPersistedPlan PersistedPlanSchema (plTargetName planned) (persistedTarget (plTarget planned)) (plIntent planned)
    (plResolved planned).

Definition public_target (plan : PersistedPlan) (auth : option Auth) : Target :=
  mkTarget (ptBaseURL (ppTarget plan)) (ptProtocol (ppTarget plan)) (ptModel (ppTarget plan)) auth ∅.
Definition persisted_auth_check (plan : PersistedPlan) : result error unit :=
  match ptAuth (ppTarget plan) with
  | None => mret tt
  | Some auth =>
      err_if (paCredentialConfigured auth = false)
        (ErrorNew (Text "persisted auth must explicitly record that a credential was configured"));;
      let authTarget := public_target plan (Some (mkAuth (paType auth) (mkSecretReference "env://REDACTED") (paHeader auth))) in
      wrap (Wrapf (Text "persisted auth metadata: %w")) (Target_Validate authTarget);;
      wrap (Wrapf (Text "persisted auth metadata: %w")) (validateAuthConfig authTarget)
  end.

Definition PersistedPlan_Validate (plan : PersistedPlan) : result error unit :=
  let intent := ppIntent plan in
  let resolved := ppResolved plan in
  err_if (ppSchemaVersion plan ≠ PersistedPlanSchema)
    (ErrorNew (Sprintf "unsupported persisted plan schema %q" [FStr (ppSchemaVersion plan)]));;
  err_if (ppTargetName plan = "" ∨ is_latest (ppTargetName plan) = true)
    (ErrorNew (Text "persisted plan requires a non-reserved target name"));;
  let publicTarget := public_target plan None in
  wrap (Wrapf (Text "persisted target: %w")) (Target_Validate publicTarget);;
  persisted_auth_check plan;;
  wrap (Wrapf (Text "intent plan: %w")) (verifyIntentEnvelope intent);;
  wrap (Wrapf (Text "resolved plan: %w")) (verifyResolvedEnvelope resolved);;
  err_if (rpIntentPlanRef resolved ≠ emObjectRef (ipMeta intent))
    (ErrorNew (Text "resolved plan is bound to a different IntentPlan"));;
  parsed ← url_Parse (tgBaseURL publicTarget);
  let origin := origin_String (Scheme parsed) (Host parsed) in
  err_if (LogicalRef (ipTarget intent) ≠ ppTargetName plan ∨ ProtocolFamily (ipTarget intent) ≠ ptProtocol (ppTarget plan) ∨
          AllowedOrigin (ipTarget intent) ≠ origin)
    (ErrorNew (Text "persisted target does not match the IntentPlan target binding"));;
  err_if (trModel (rpTarget resolved) ≠ ptModel (ppTarget plan))
    (ErrorNew (Text "persisted target model does not match the ResolvedRunPlan"));;
  err_if (ipConfigDigest intent ≠ ObservedFingerprint (rpTarget resolved) ∨
          ipConfigDigest intent ≠ ConfigurationDigest (rpTarget resolved))
    (ErrorNew (Text "plan configuration digests do not match"));;
  configDigest ← wrap (Wrapf (Text "digest persisted target projection: %w"))
                   (persistedConfigDigest (ppTargetName plan) (ppTarget plan));
  err_if (configDigest ≠ ipConfigDigest intent)
    (ErrorNew (Text "persisted target projection does not match the plan configuration digest"));;
  err_if (ipSupportManifestDigest intent ≠ rpSupportLockDigest resolved)
    (ErrorNew (Text "resolved support lock does not match the IntentPlan support manifest")).

Definition PlanJSON (planned : PlannedRun) : result error (list ascii) :=
  validatePlanned planned;;
  let snapshot := newPersistedPlan planned in
  wrap (Wrapf (Text "validate persisted plan snapshot: %w")) (PersistedPlan_Validate snapshot);;
  CanonicalMarshal Marshal_PersistedPlan snapshot.

Definition frozenPlanJSON (planned : PlannedRun) : result error (list ascii) :=
  validatePlanned planned;;
  CanonicalMarshal Marshal_PlannedRun planned.

Definition DecodePlanJSON (raw : list ascii) : result error PersistedPlan :=
  '(plan, second) ← wrap (Wrapf (Text "decode persisted plan: %w")) (Decode_PersistedPlan raw);
  err_if (second ≠ Err io_EOF) (ErrorNew (Text "persisted plan must contain exactly one JSON document"));;
  PersistedPlan_Validate plan;;
  canonical ← CanonicalMarshal Marshal_PersistedPlan plan;
  err_if (raw ≠ canonical) (ErrorNew (Text "persisted plan must be RFC8785 canonical JSON"));;
  mret plan.
End Plan.
