(* ===== verification/ProductPlanSpec.v ===== *)
(** * Plans of product runs

    What [Build] makes can be executed and stored; the stored form is a
    function of the public part of the target, so that neither a secret
    reference nor metadata can be told from it; stored plans are read back. *)
From Stdlib Require Import ZArith Ascii String Lia.
From stdpp Require Import base gmap sets list strings pretty.
From S2P Require Import Prelude Sorting Schema Results Canonical CanonicalSpec Documents DocumentsSpec Planner PlannerSpec.
From S2P Require Import OracleSchema Normalizer RawJSON RawRegistry PackPattern CAS Config ProductPlan.
Local Open Scope Z_scope.
Local Open Scope string_scope.
Local Open Scope list_scope.

(** ** Targets that look the same in public *)

(** Two targets that differ at most in the secret references of their
    authentication and in their metadata. *)
Definition same_header (a b : Auth) : Prop := auType a = auType b ∧ auHeader a = auHeader b.
#[export] Instance public_equiv : Equiv Target := fun t u =>
  tgBaseURL t = tgBaseURL u ∧ tgProtocol t = tgProtocol u ∧ tgModel t = tgModel u ∧
  option_Forall2 same_header (tgAuth t) (tgAuth u).
#[export] Instance public_equivalence : Equivalence (≡@{Target}).
Proof.
  split; unfold equiv, public_equiv.
  - intros t. split_and!; [done..|]. destruct (tgAuth t); by constructor.
  - intros t u (-> & -> & -> & H). split_and!; [done..|]. destruct H as [a b [? ?]|]; by constructor.
  - intros t u v (-> & -> & -> & H) (-> & -> & -> & H'). split_and!; [done..|].
    destruct H as [a b [E1 E2]|]; inversion H' as [? c [E3 E4]|]; constructor. split; congruence.
Qed.

(** The stored projection does not look at what such targets differ in. *)
Lemma persistedTarget_public t u : t ≡ u -> persistedTarget t = persistedTarget u.
Proof.
  unfold equiv, public_equiv, persistedTarget. intros (-> & -> & -> & H). f_equal.
  destruct H as [a b [E1 E2]|]; [|done]. cbn. by rewrite E1, E2.
Qed.

Section Spec.
Context {lib : ProductLibrary} {ro : RangeOrder string string}.

(** *** What documents are built of *)
Lemma SealMeta_is {A} (json_Marshal : A -> result error (list ascii)) version kind id producer createdAt projection meta :
  SealMeta json_Marshal version kind id producer createdAt projection = Ok meta ->
  exists digest, CanonicalDigest json_Marshal projection = Ok digest ∧
    meta = mkEnvelopeMeta version kind id digest (mkObjectRef kind id digest) producer createdAt ∅.
Proof.
  unfold SealMeta. do 5 (intros ([] & _ & H)%bind_Ok; revert H). intros (d & Hd%wrap_ok & H)%bind_Ok.
  injection H as <-. by exists d.
Qed.
Lemma BuildIntent_is request plan : BuildIntent Marshal_strings Marshal_intent request = Ok plan ->
  exists digest denominator branches,
    plan = mkIntentPlan (mkEnvelopeMeta IntentSchema "IntentPlan" (irID request) digest
                           (mkObjectRef "IntentPlan" (irID request) digest) (irProducer request) (irCreatedAt request) ∅)
      (irID request) (irConfigDigest request) (irTarget request) (irSelectors request) (irSupportManifestDigest request)
      denominator (irProbe request) branches (irBudget request) (irEvidence request) (irSafety request) (irAuthor request)
      (irApprovalRequirements request) ∧
    IntentPlan_Validate plan = Ok tt ∧ verifyIntentEnvelope plan = Ok tt.
Proof.
  unfold BuildIntent. intros ([] & _ & H)%bind_Ok. destruct (for_eachM _ _ _) as [[[]|] st]; [|done].
  apply bind_Ok in H as (den & _ & H). apply bind_Ok in H as (meta & Hm & H). apply bind_Ok in H as ([] & Hv & H).
  injection H as <-. apply SealMeta_is in Hm as (d & Hd & ->). eexists d, den, _. split_and!; [done|done|].
  unfold verifyIntentEnvelope. apply bind_ok; split; [exact Hv|]. apply bind_ok; split; [by apply err_if_ok; intros []|].
  apply bind_Ok. exists d. split; [exact Hd|]. apply err_if_ok. by intros [].
Qed.
Lemma Resolve_is intent request plan : Planner.Resolve Marshal_strings Marshal_resolved intent request = Ok plan ->
  exists digest refs denominator decisions allowed facts, let ref := emObjectRef (ipMeta intent) in
    plan = mkResolvedRunPlan (mkEnvelopeMeta ResolvedSchema "ResolvedRunPlan" (rrID request) digest
                                (mkObjectRef "ResolvedRunPlan" (rrID request) digest) (rrProducer request) (rrCreatedAt request) ∅)
      (rrID request) ref (rrResolver request) refs (rrSupportLockDigest request) (rrArtifacts request) (rrTarget request)
      decisions denominator (ipBudget intent) (rrRuntime request) (rrFinalizers request) ∧
    ResolvedRunPlan_Validate plan = Ok tt ∧ verifyResolvedEnvelope plan = Ok tt ∧
    decide_candidates allowed facts (rrScenarios request) = Ok decisions.
Proof.
  unfold Planner.Resolve. intros ([] & _ & H)%bind_Ok. apply bind_Ok in H as ([facts refs] & _ & H).
  apply bind_Ok in H as (ds & Hds & H). apply bind_Ok in H as (den & _ & H). apply bind_Ok in H as (meta & Hm & H).
  apply bind_Ok in H as ([] & Hv & H). injection H as <-. apply SealMeta_is in Hm as (d & Hd & ->).
  eexists d, refs, den, ds, _, facts. split_and!; [done|done| |exact Hds].
  unfold verifyResolvedEnvelope. apply bind_ok; split; [exact Hv|]. apply bind_ok; split; [by apply err_if_ok; intros []|].
  apply bind_Ok. exists d. split; [exact Hd|]. apply err_if_ok. by intros [].
Qed.

(** *** Building *)
Record built (name : string) (target : Target) (budget : BudgetPolicy) (producer : Producer) (author : string)
    (intentID resolvedID : InstanceID) (createdAt : Time) (p : PlannedRun) : Prop := {
  bt_target : Target_Validate target = Ok tt;
  bt_auth : validateAuthConfig target = Ok tt;
  bt_name : plTargetName p = name;
  bt_same : plTarget p = target;
  bt_route : exists route derived, routeTarget target = Ok route ∧
    deriveArtifacts (tgProtocol target) (tgModel target) (trEndpointPath route) = Ok derived ∧
    ipTarget (plIntent p) = mkTargetIntent name (tgProtocol target) "configured-unverified" (trOrigin route) ∧
    ipSupportManifestDigest (plIntent p) = arSupport derived ∧ rpSupportLockDigest (plResolved p) = arSupport derived ∧
    rpScenarios (plResolved p) = ((fun m => mkScenarioDecision (sdID (smDescriptor m)) DispositionExecute "" (arDriver derived) []) <$>
      arMaterials derived);
  bt_config : exists digest, persistedConfigDigest name (persistedTarget target) = Ok digest ∧
    ipConfigDigest (plIntent p) = digest ∧ ObservedFingerprint (rpTarget (plResolved p)) = digest ∧
    ConfigurationDigest (rpTarget (plResolved p)) = digest ∧ trModel (rpTarget (plResolved p)) = tgModel target;
  bt_execution : Digest_Validate (plExecutionConfigDigest p) = Ok tt;
  bt_intent : IntentPlan_Validate (plIntent p) = Ok tt ∧ verifyIntentEnvelope (plIntent p) = Ok tt;
  bt_resolved : ResolvedRunPlan_Validate (plResolved p) = Ok tt ∧ verifyResolvedEnvelope (plResolved p) = Ok tt ∧
    rpIntentPlanRef (plResolved p) = emObjectRef (ipMeta (plIntent p)) ∧ rpBudget (plResolved p) = budget;
  bt_inputs : ipBudget (plIntent p) = budget ∧ emProducer (ipMeta (plIntent p)) = producer ∧ ipAuthor (plIntent p) = author ∧
    ipIntentPlanID (plIntent p) = intentID ∧ rpResolvedPlanID (plResolved p) = resolvedID ∧
    emCreatedAt (ipMeta (plIntent p)) = createdAt
}.

Arguments bt_target {_ _ _ _ _ _ _ _ _}.
Arguments bt_auth {_ _ _ _ _ _ _ _ _}.
Arguments bt_name {_ _ _ _ _ _ _ _ _}.
Arguments bt_same {_ _ _ _ _ _ _ _ _}.
Arguments bt_route {_ _ _ _ _ _ _ _ _}.
Arguments bt_config {_ _ _ _ _ _ _ _ _}.
Arguments bt_execution {_ _ _ _ _ _ _ _ _}.
Arguments bt_intent {_ _ _ _ _ _ _ _ _}.
Arguments bt_resolved {_ _ _ _ _ _ _ _ _}.
Arguments bt_inputs {_ _ _ _ _ _ _ _ _}.

Lemma CanonicalDigest_valid {A} (marshal : A -> result error (list ascii)) a d :
  CanonicalDigest marshal a = Ok d -> Digest_Validate d = Ok tt.
Proof. unfold CanonicalDigest. intros (c & _ & [= <-])%bind_Ok. apply NewDigest_valid. Qed.

(** Candidates without capabilities are executed. *)
Lemma decide_plain allowed facts derived ds : decide_candidates allowed facts (candidates_of derived) = Ok ds ->
  ds = (fun m => mkScenarioDecision (sdID (smDescriptor m)) DispositionExecute "" (arDriver derived) []) <$> arMaterials derived.
Proof.
  unfold candidates_of. generalize (arMaterials derived) as ms. intros ms. revert ds. induction ms as [|m ms IH]; intros ds; cbn; [by intros [= <-]|].
  go_unfold. destruct (decide_candidates _ _ _) as [ds'|] eqn:E; [|done]. intros [= <-]. by rewrite (IH _ eq_refl).
Qed.

Lemma buildExact_built name target budget producer author intentID resolvedID createdAt p :
  buildExact name target budget producer author intentID resolvedID createdAt = Ok p ->
  built name target budget producer author intentID resolvedID createdAt p.
Proof.
  unfold buildExact. intros ([] & Ht & H)%bind_Ok. apply bind_Ok in H as ([] & Ha & H).
  apply bind_Ok in H as (route & Hr & H). apply bind_Ok in H as (derived & Hd & H). apply bind_Ok in H as (config & Hc & H).
  apply bind_Ok in H as (execution & He & H). apply bind_Ok in H as (intent & Hi%wrap_ok & H).
  apply bind_Ok in H as (resolved & Hs%wrap_ok & H). injection H as <-.
  apply BuildIntent_is in Hi as (di & den & bs & -> & Vi & Ei). apply Resolve_is in Hs as (dr & refs & den' & ds & allowed & facts & -> & Vr & Er & Hds).
  split; cbn in *; try done.
  - exists route, derived. split_and!; [done..|]. apply decide_plain in Hds. by rewrite Hds.
  - by exists config.
  - by eapply CanonicalDigest_valid.
Qed.

Lemma buildExact_again name target budget producer author intentID resolvedID createdAt p :
  buildExact name target budget producer author intentID resolvedID createdAt = Ok p ->
  let intent := plIntent p in
  buildExact (plTargetName p) (plTarget p) (ipBudget intent) (emProducer (ipMeta intent)) (ipAuthor intent)
    (ipIntentPlanID intent) (rpResolvedPlanID (plResolved p)) (emCreatedAt (ipMeta intent)) = Ok p.
Proof.
  intros H. cbv zeta. pose proof (buildExact_built _ _ _ _ _ _ _ _ _ H) as B. destruct (bt_inputs B) as (-> & -> & -> & -> & -> & ->).
  by rewrite (bt_name B), (bt_same B).
Qed.

(** A built plan is validated up to its encoding. *)
Lemma validatePlanned_built name target budget producer author intentID resolvedID createdAt p :
  buildExact name target budget producer author intentID resolvedID createdAt = Ok p ->
  exists derived route, routeTarget target = Ok route ∧
    deriveArtifacts (tgProtocol target) (tgModel target) (trEndpointPath route) = Ok derived ∧
    validatePlanned p = (CanonicalMarshal Marshal_IntentPlan (plIntent p);;
                         CanonicalMarshal Marshal_ResolvedRunPlan (plResolved p);; mret (derived, route)).
Proof.
  intros H. pose proof (buildExact_built _ _ _ _ _ _ _ _ _ H) as B. destruct (bt_route B) as (route & derived & Hr & Hd & _).
  exists derived, route. split_and!; [done|done|]. unfold validatePlanned.
  destruct (bt_intent B) as [-> _], (bt_resolved B) as (-> & _ & -> & _).
  rewrite (bt_execution B), (buildExact_again _ _ _ _ _ _ _ _ _ H). rewrite (bt_same B).
  go_unfold. rewrite decide_False by naive_solver. destruct (CanonicalMarshal Marshal_IntentPlan _); [|done].
  destruct (CanonicalMarshal Marshal_ResolvedRunPlan _); [|done]. rewrite decide_False by naive_solver. by rewrite Hr, Hd.
Qed.

(** *** The public part of a target *)
Lemma Target_Validate_base t u : Target_Validate t = Ok tt -> tgBaseURL u = tgBaseURL t -> tgProtocol u = tgProtocol t ->
  tgModel u = tgModel t -> from_option Auth_Validate (Ok tt) (tgAuth u) = Ok tt -> Target_Validate u = Ok tt.
Proof.
  unfold Target_Validate. intros H -> -> -> Ha. go_unfold. by go_cases.
Qed.
Lemma Target_Validate_auth t auth : Target_Validate t = Ok tt -> tgAuth t = Some auth -> Auth_Validate auth = Ok tt.
Proof. unfold Target_Validate. intros H E. rewrite E in H. go_unfold. by go_cases. Qed.

Lemma public_fields t u : t ≡ u -> tgBaseURL t = tgBaseURL u ∧ tgProtocol t = tgProtocol u ∧ tgModel t = tgModel u.
Proof. by intros (? & ? & ? & _). Qed.

Lemma routeTarget_public t u : t ≡ u -> Target_Validate t = Ok tt -> Target_Validate u = Ok tt -> routeTarget t = routeTarget u.
Proof. intros (E1 & E2 & E3)%public_fields Ht Hu. unfold routeTarget. by rewrite Ht, Hu, E1, E2. Qed.

Lemma buildExact_public name t u budget producer author intentID resolvedID createdAt p q : t ≡ u ->
  buildExact name t budget producer author intentID resolvedID createdAt = Ok p ->
  buildExact name u budget producer author intentID resolvedID createdAt = Ok q ->
  plIntent p = plIntent q ∧ plResolved p = plResolved q ∧ newPersistedPlan p = newPersistedPlan q.
Proof.
  intros E Hp Hq. pose proof (public_fields _ _ E) as (E1 & E2 & E3).
  pose proof (bt_target (buildExact_built _ _ _ _ _ _ _ _ _ Hp)) as Vt.
  pose proof (bt_target (buildExact_built _ _ _ _ _ _ _ _ _ Hq)) as Vu.
  unfold buildExact in Hp, Hq. rewrite Vt in Hp. rewrite Vu in Hq. rewrite (routeTarget_public _ _ E Vt Vu), E2, E3, (persistedTarget_public _ _ E) in Hp.
  go_unfold. repeat (case_match; simplify_eq/=). split_and!; [done..|]. unfold newPersistedPlan. cbn. by rewrite (persistedTarget_public _ _ E).
Qed.

(** *** Stored plans *)
Lemma public_auth_valid t auth : Target_Validate t = Ok tt -> validateAuthConfig t = Ok tt -> tgAuth t = Some auth ->
  let u := mkTarget (tgBaseURL t) (tgProtocol t) (tgModel t) (Some (mkAuth (auType auth) (mkSecretReference "env://REDACTED") (auHeader auth))) ∅ in
  Target_Validate u = Ok tt ∧ validateAuthConfig u = Ok tt.
Proof.
  intros Ht Hv E u. split.
  - eapply Target_Validate_base; [exact Ht|done..|]. cbn. apply Target_Validate_auth with (1 := Ht) in E. revert E.
    unfold Auth_Validate. cbn. rewrite !bind_ok. intros (? & ? & _). split_and!; [done..|]. by vm_compute.
  - revert Hv. unfold validateAuthConfig, authHeaderName. rewrite E. done.
Qed.

Lemma persisted_valid name target budget producer author intentID resolvedID createdAt p :
  buildExact name target budget producer author intentID resolvedID createdAt = Ok p -> name <> "" ->
  PersistedPlan_Validate (newPersistedPlan p) = Ok tt <-> is_latest name = false.
Proof.
  intros H Hne. pose proof (buildExact_built _ _ _ _ _ _ _ _ _ H) as B. unfold PersistedPlan_Validate, newPersistedPlan. cbn.
  rewrite (bt_name B), (bt_same B). rewrite !bind_ok, !err_if_ok.
  destruct (bt_route B) as (route & derived & Hr & Hd & Et & Es & Es' & _), (bt_config B) as (digest & Hc & Ec & Eo & Ef & Em).
  destruct (bt_intent B) as [_ ->], (bt_resolved B) as (_ & -> & -> & _).
  assert (Target_Validate (public_target (newPersistedPlan p) None) = Ok tt) as Hp.
  { eapply Target_Validate_base; [exact (bt_target B)|cbn; by rewrite (bt_same B)..|done]. }
  split; [intros (_ & Hn & _); by destruct (is_latest name) eqn:E; [destruct Hn; right|]|intros Hl].
  split_and!; [by intros []|intros [?|?]; congruence| | |done|done|by intros []|].
  - apply wrap_ok. eapply Target_Validate_base; [exact (bt_target B)|done..].
  - unfold persisted_auth_check. cbn. destruct (tgAuth target) as [auth|] eqn:Ea; [cbn|done].
    destruct (public_auth_valid _ _ (bt_target B) (bt_auth B) Ea) as [V1 V2].
    apply bind_ok; split; [by apply err_if_ok|]. apply bind_ok; split; apply wrap_ok; [exact V1|exact V2].
  - unfold routeTarget in Hr. apply bind_Ok in Hr as ([] & _ & Hr). apply bind_Ok in Hr as (parsed & Hu & Hr).
    apply bind_Ok in Hr as (base & _ & Hr). apply bind_Ok in Hr as (suffix & _ & Hr). apply bind_Ok in Hr as ([] & _ & Hr).
    injection Hr as <-. go_unfold. cbn. rewrite Hu, Et, Ec, Eo, Ef, Em, Es, Es', Hc. cbn.
    by rewrite !decide_False by naive_solver.
Qed.

(** *** Routes *)
Lemma split_slash_app a : forall cur b, split_slash (a +:+ String "/" b) cur = split_slash a cur ++ split_slash b "".
Proof.
  induction a as [|c a IH]; intros cur b; [done|].
  change (split_slash (String c (a +:+ String "/" b)) cur = split_slash (String c a) cur ++ split_slash b "").
  cbn [split_slash]. destruct (is_byte 47 c); cbn; by rewrite IH.
Qed.
Lemma concat_app (l l' : list string) : l <> [] -> l' <> [] ->
  String.concat "/" (l ++ l') = String.concat "/" l +:+ "/" +:+ String.concat "/" l'.
Proof.
  induction l as [|x l IH]; [done|]. intros _ Hl'. destruct l as [|y l].
  - cbn. destruct l' as [|z l']; [done|]. done.
  - change (x +:+ "/" +:+ String.concat "/" ((y :: l) ++ l') = (x +:+ "/" +:+ String.concat "/" (y :: l)) +:+ "/" +:+ String.concat "/" l').
    rewrite IH by done. by rewrite !string_app_assoc.
Qed.
Lemma clean_under prefix suffix comps : path_Clean prefix = prefix -> prefix <> "/" ->
  (forall st, foldl clean_component st (split_slash suffix "") = rev comps ++ st) -> comps <> [] -> String.concat "/" comps = suffix ->
  path_Clean (prefix +:+ "/" +:+ suffix) = prefix +:+ "/" +:+ suffix.
Proof.
  intros Hp Hne Hs Hc Ecat. change ("/" +:+ suffix) with (String "/" suffix). unfold path_Clean in *.
  rewrite split_slash_app, foldl_app, Hs, rev_app_distr, rev_involutive. revert Hp.
  set (st := rev (foldl _ _ (split_slash prefix ""))). intros Hp. destruct (decide (st = [])) as [E|E]; [by rewrite E in Hp|].
  rewrite concat_app, Ecat by done. clearbody st. by rewrite <- Hp.
Qed.

Lemma string_length_app a b : String.length (a +:+ b) = (String.length a + String.length b)%nat.
Proof. induction a as [|c a IH]; [done|]. exact (f_equal S IH). Qed.
Lemma substring_app a b : String.substring 0 (String.length (a +:+ b) - String.length b) (a +:+ b) = a.
Proof.
  replace (String.length (a +:+ b) - String.length b)%nat with (String.length a) by (rewrite string_length_app; lia).
  induction a as [|c a IH]; [by destruct b|]. exact (f_equal (String c) IH).
Qed.
Lemma prefix_slash c t : String.prefix "/" (String c t) = true -> c = "/"%char.
Proof. unfold String.prefix. destruct (ascii_dec "/" c); [done|discriminate]. Qed.
Lemma HasSuffix_slash s : HasSuffix s "/" = true -> s = String.substring 0 (String.length s - 1) s +:+ "/".
Proof.
  intros H. assert (exists a, s = a +:+ "/") as [a ->].
  { unfold HasSuffix, string_rev in H. rewrite <- (string_of_list_ascii_of_string s). rewrite <- (rev_involutive (list_ascii_of_string s)).
    destruct (rev (list_ascii_of_string s)) as [|c l]; [discriminate|]. apply prefix_slash in H as ->.
    exists (string_of_list_ascii (rev l)). cbn [rev]. by rewrite string_of_app. }
  pose proof (substring_app a "/") as E. cbn [String.length] in E. by rewrite E.
Qed.
Definition suffixes : list (string * list string) :=
  [("chat/completions", ["chat"; "completions"]); ("responses", ["responses"]); ("messages", ["messages"])].
Lemma endpoint_suffix_is protocol suffix : endpoint_suffix protocol = Ok suffix -> exists comps, (suffix, comps) ∈ suffixes.
Proof. unfold endpoint_suffix. repeat case_decide; intros [= <-]; eexists; unfold suffixes; rewrite !elem_of_cons; eauto. Qed.
Lemma endpoint_clean prefix protocol suffix : endpoint_suffix protocol = Ok suffix -> path_Clean prefix = prefix -> prefix <> "/" ->
  path_Clean (prefix +:+ "/" +:+ suffix) = prefix +:+ "/" +:+ suffix.
Proof.
  intros [comps H]%endpoint_suffix_is Hp Hne. apply (clean_under _ _ comps Hp Hne); unfold suffixes in H;
    repeat (apply elem_of_cons in H as [[= -> ->]|H]); try done; by apply elem_of_nil in H.
Qed.

(** Endpoints extend the base path: the path that the scenarios of an
    accepted target are sent to is the base path of its URL (or [/v1] for an
    URL without one) followed by the suffix of the protocol, with nothing
    dropped, doubled or resolved; it is canonical; and the origin is the
    scheme and host of the URL. *)
Theorem endpoints_extend_the_base_path target route (H : routeTarget target = Ok route) :
  exists parsed base suffix, url_Parse (tgBaseURL target) = Ok parsed ∧ endpoint_suffix (tgProtocol target) = Ok suffix ∧
    (URLPath parsed ∈ [""; "/"; "//"] ∧ base = "/v1" ∨ URLPath parsed ∈ [base; base +:+ "/"] ∧ base <> "/") ∧
    trEndpointPath route = base +:+ "/" +:+ suffix ∧ path_Clean (trEndpointPath route) = trEndpointPath route ∧
    Contains (URLPath parsed) "\" = false ∧ trOrigin route = origin_String (Scheme parsed) (Host parsed).
Proof.
  unfold routeTarget in H. apply bind_Ok in H as ([] & _ & H). apply bind_Ok in H as (parsed & Hu & H).
  apply bind_Ok in H as (base & Hb & H). apply bind_Ok in H as (suffix & Hs & H). apply bind_Ok in H as ([] & Hc%err_if_ok & H).
  injection H as <-. exists parsed, (if decide (base = "/") then "/v1" else base), suffix.
  unfold canonicalBasePath in Hb. apply bind_Ok in Hb as ([] & He%err_if_ok & Hb). cbn [trEndpointPath trOrigin].
  assert (Hp : path_Clean base = base ∧ (base = "/" ∧ URLPath parsed ∈ [""; "/"; "//"] ∨ URLPath parsed ∈ [base; base +:+ "/"])).
  { destruct (decide (URLPath parsed = "" ∨ URLPath parsed = "/")) as [Ev|Ev]; [injection Hb as <-; split; [done|left; split; [done|rewrite !elem_of_cons; tauto]]|].
    apply bind_Ok in Hb as ([] & Ht%err_if_ok & Hb). injection Hb as <-. split; [apply dec_stable; tauto|right].
    rewrite !elem_of_cons. unfold TrimSuffix. destruct (HasSuffix (URLPath parsed) "/") eqn:Hx; [|by left].
    right; left. by apply HasSuffix_slash. }
  destruct Hp as [Hclean Hp]. split_and!; [done..| | | | |done].
  - case_decide as Eb; [left|right].
    + destruct Hp as [[_ ?]|Hp]; [done|]. subst base. split; [|done]. rewrite !elem_of_cons in *. change ("/" +:+ "/") with "//" in Hp. tauto.
    + destruct Hp as [[? _]|Hp]; [done|]. by split.
  - eapply endpoint_clean; [done| |]; case_decide; done.
  - apply dec_stable. tauto.
  - destruct (Contains (URLPath parsed) "\"); [|done]. tauto.
Qed.

Section Build.
Context {W : Type} {env : PlanEnvironment W}.

(** The inputs that a request leaves to [Build]. *)
Definition name_of (request : PlanRequest) : string := if decide (pqTargetName request = "") then "default" else pqTargetName request.
Definition budget_of (request : PlanRequest) (derived : artifacts) : BudgetPolicy :=
  if decide (pqBudget request = zero_budget) then defaultBudgetFor (arMaterials derived) else pqBudget request.

Lemma Build_is request (w w' : W) p : Build request w = (Ok p, w') ->
  exists route derived instant intentID resolvedID w1 w2,
    Target_Validate (pqTarget request) = Ok tt ∧ routeTarget (pqTarget request) = Ok route ∧
    deriveArtifacts (tgProtocol (pqTarget request)) (tgModel (pqTarget request)) (trEndpointPath route) = Ok derived ∧
    plan_Now w = (instant, w1) ∧ plan_NewID w1 = (Ok intentID, w2) ∧ plan_NewID w2 = (Ok resolvedID, w') ∧ intentID <> resolvedID ∧
    buildExact (name_of request) (pqTarget request) (budget_of request derived)
      (if decide (pqProducer request = zero_producer) then arProducer derived else pqProducer request)
      (if decide (pqAuthor request = "") then "local-user" else pqAuthor request) intentID resolvedID instant = Ok p.
Proof.
  unfold Build, wrapM. fold (name_of request). cbv zeta. go_unfold.
  destruct (Target_Validate _) as [[]|] eqn:Ht; [|done]. destruct (validateAuthConfig _) as [[]|] eqn:Ha; [|done].
  destruct (routeTarget _) as [route|] eqn:Hr; [|done]. destruct (deriveArtifacts _ _ _) as [derived|] eqn:Hd; [|done].
  fold (budget_of request derived). destruct (BudgetPolicy_Validate _) as [[]|]; [|done].
  destruct (Producer_Validate _) as [[]|]; [|done]. destruct (plan_Now w) as [instant w1] eqn:Hn.
  destruct (plan_NewID w1) as [[intentID|] w2] eqn:H1; [|done]. destruct (plan_NewID w2) as [[resolvedID|] w3] eqn:H2; [|done].
  case_decide as Hne; [done|]. intros [= Hb <-]. exists route, derived, instant, intentID, resolvedID, w1, w2. by split_and!.
Qed.

(** [C11] Stored plans reveal only the public part of a target: two requests
    that differ at most in the secret reference and the metadata of their
    targets make the same intent plan and resolved plan, with the same
    digests, and the same bytes to store; so none of these tells a credential
    reference or a metadata value. *)
Theorem plans_reveal_only_the_public_target r1 r2 (w w1 w2 : W) p q
    (Hname : pqTargetName r1 = pqTargetName r2) (Hbudget : pqBudget r1 = pqBudget r2)
    (Hproducer : pqProducer r1 = pqProducer r2) (Hauthor : pqAuthor r1 = pqAuthor r2)
    (Htarget : pqTarget r1 ≡ pqTarget r2)
    (H1 : Build r1 w = (Ok p, w1)) (H2 : Build r2 w = (Ok q, w2)) :
  w1 = w2 ∧ plIntent p = plIntent q ∧ plResolved p = plResolved q ∧ PlanJSON p = PlanJSON q.
Proof.
  apply Build_is in H1 as (route & derived & instant & i & r & v & v' & Vt & Hr & Hd & En & E1 & E2 & _ & Hp).
  apply Build_is in H2 as (route' & derived' & instant' & i' & r' & u & u' & Vu & Hr' & Hd' & En' & E1' & E2' & _ & Hq).
  rewrite (routeTarget_public _ _ Htarget Vt Vu) in Hr. pose proof (public_fields _ _ Htarget) as (_ & Ep & Em).
  rewrite Ep, Em in Hd. unfold name_of, budget_of in *. rewrite Hname, Hbudget, Hproducer, Hauthor in Hp.
  rewrite Hr in Hr'. injection Hr' as <-. rewrite Hd in Hd'. injection Hd' as <-. rewrite En in En'. injection En' as <- <-.
  rewrite E1 in E1'. injection E1' as <- <-. rewrite E2 in E2'. injection E2' as <- <-.
  pose proof (buildExact_public _ _ _ _ _ _ _ _ _ _ _ Htarget Hp Hq) as (Ei & Er & Es). split_and!; [done..|].
  destruct (validatePlanned_built _ _ _ _ _ _ _ _ _ Hp) as (d1 & o1 & _ & _ & V1).
  destruct (validatePlanned_built _ _ _ _ _ _ _ _ _ Hq) as (d2 & o2 & _ & _ & V2).
  unfold PlanJSON. rewrite V1, V2, Es, Ei, Er. clear. go_unfold.
  destruct (CanonicalMarshal Marshal_IntentPlan _); [|done]. by destruct (CanonicalMarshal Marshal_ResolvedRunPlan _).
Qed.

Lemma materials_is protocol model path driver oracle evaluator entries : forall ms,
  materials_of protocol model path driver oracle evaluator entries = Ok ms ->
  smDescriptor <$> ms = entries ∧ Forall (fun m => smPath m = path ∧ smBudget m = mkBodyBudget (Z.shiftl 64 10) (Z.shiftl 512 10)) ms.
Proof.
  induction entries as [|e es IH]; intros ms; cbn; [by intros [= <-]|]. go_unfold.
  destruct (requestBody _ _ _ _) as [body|]; [|done]. destruct (materials_of _ _ _ _ _ _ es) as [ms'|] eqn:E; [|done].
  intros [= <-]. destruct (IH _ eq_refl) as [<- F]. by split; [|constructor].
Qed.
Lemma derived_is protocol model path derived : deriveArtifacts protocol model path = Ok derived ->
  BuiltinScenarios protocol = Ok (smDescriptor <$> arMaterials derived) ∧
  Forall (fun m => smPath m = path ∧ smBudget m = mkBodyBudget (Z.shiftl 64 10) (Z.shiftl 512 10)) (arMaterials derived).
Proof.
  unfold deriveArtifacts. destruct (BuiltinScenarios protocol) as [entries|] eqn:Eb; [|done].
  intros (? & [= ->] & H)%bind_Ok. do 3 apply bind_Ok in H as (? & _ & H). apply bind_Ok in H as (ms & Hm & H).
  do 5 apply bind_Ok in H as (? & _ & H). injection H as <-. cbn. apply materials_is in Hm as [-> ?]. done.
Qed.
Lemma builtin_four protocol entries : BuiltinScenarios protocol = Ok entries -> length entries = 4%nat ∧
  NoDup (sdID <$> entries) ∧ Forall (fun e => sdProtocol e = protocol ∧ 0 < sdRequestedOutputTokens e <= terminalTokenCap) entries.
Proof.
  unfold BuiltinScenarios. repeat case_decide; intros [= <-]; subst;
    (split; [done|split; [apply (bool_decide_unpack _); by vm_compute|apply (bool_decide_unpack _); by vm_compute]]).
Qed.

(** What the scenarios of a plan ask for in total. *)
Definition total (f : scenarioMaterial -> Z) (ms : list scenarioMaterial) : Z := foldr Z.add 0 (f <$> ms).
Definition fits (budget : BudgetPolicy) (ms : list scenarioMaterial) : Prop :=
  MaxRequests (Hard budget) = Z.of_nat (length ms) ∧
  MaxRequestBytes (Hard budget) = total (bbRequestBytes ∘ smBudget) ms ∧
  MaxResponseBytes (Hard budget) = total (bbResponseBytes ∘ smBudget) ms ∧
  MaxOutputTokens (Reservation_ budget) = total (sdRequestedOutputTokens ∘ smDescriptor) ms.

Lemma default_fits protocol model path derived : deriveArtifacts protocol model path = Ok derived ->
  fits (defaultBudgetFor (arMaterials derived)) (arMaterials derived).
Proof.
  intros [Hb F]%derived_is. pose proof (builtin_four _ _ Hb) as (L & _ & _). rewrite length_fmap in L.
  revert Hb F L. generalize (arMaterials derived) as ms. clear. intros ms Hb F L.
  do 4 (destruct ms as [|[[] ? ? ? ? ? ? ? ? ?] ms]; [done|]). destruct ms; [|done].
  repeat (apply Forall_cons in F as [[_ ?] F]). cbn in *. subst. unfold BuiltinScenarios in Hb.
  repeat case_decide; try done; injection Hb; intros; subst; by vm_compute.
Qed.

(** [C13] What is planned can be run and stored: a plan that [Build] makes
    passes the check before execution whenever its documents can be encoded;
    it executes exactly the four built-in scenarios of the protocol, each with
    the derived driver, at the origin and the path of the target's route; the
    default budget is exactly what these scenarios ask for; and its snapshot
    is valid exactly when the target is not named like the reserved reference
    to the latest run. *)
Theorem built_plans_are_executable request (w w' : W) p
    (H : Build request w = (Ok p, w'))
    (Hi : is_ok (CanonicalMarshal Marshal_IntentPlan (plIntent p)) = true)
    (Hr : is_ok (CanonicalMarshal Marshal_ResolvedRunPlan (plResolved p)) = true) :
  exists derived route, validatePlanned p = Ok (derived, route) ∧ AllowedOrigin (ipTarget (plIntent p)) = trOrigin route ∧
    BuiltinScenarios (tgProtocol (pqTarget request)) = Ok (smDescriptor <$> arMaterials derived) ∧
    Forall (fun m => smPath m = trEndpointPath route) (arMaterials derived) ∧ length (arMaterials derived) = 4%nat ∧
    rpScenarios (plResolved p) = ((fun m => mkScenarioDecision (sdID (smDescriptor m)) DispositionExecute "" (arDriver derived) []) <$>
      arMaterials derived) ∧
    rpBudget (plResolved p) = budget_of request derived ∧
    (pqBudget request = zero_budget -> fits (rpBudget (plResolved p)) (arMaterials derived)) ∧
    (PersistedPlan_Validate (newPersistedPlan p) = Ok tt <-> is_latest (name_of request) = false).
Proof.
  apply Build_is in H as (route & derived & instant & i & r & v & v' & Vt & Ht & Hd & _ & _ & _ & _ & Hp).
  destruct (validatePlanned_built _ _ _ _ _ _ _ _ _ Hp) as (d & o & Ho & Hd' & V).
  rewrite Ht in Ho. injection Ho as <-. rewrite Hd in Hd'. injection Hd' as <-. exists derived, route.
  pose proof (buildExact_built _ _ _ _ _ _ _ _ _ Hp) as B. destruct (bt_route B) as (o & d & Ho & Hd' & Et & _ & _ & Es).
  rewrite Ht in Ho. injection Ho as <-. rewrite Hd in Hd'. injection Hd' as <-.
  destruct (bt_resolved B) as (_ & _ & _ & Eb). pose proof (derived_is _ _ _ _ Hd) as [Hb F]. pose proof (builtin_four _ _ Hb) as (L & _ & _).
  rewrite length_fmap in L. split_and!; [|by rewrite Et|done|by eapply Forall_impl; [exact F|by intros ? []]|done..| |].
  - rewrite V. destruct (CanonicalMarshal Marshal_IntentPlan _); [|done]. by destruct (CanonicalMarshal Marshal_ResolvedRunPlan _).
  - intros Ez. rewrite Eb. unfold budget_of. rewrite decide_True by done. by eapply default_fits.
  - eapply persisted_valid; [exact Hp|]. unfold name_of. destruct (decide (pqTargetName request = "")); [discriminate|done].
Qed.


End Build.
End Spec.

(** ** A concrete plan *)
#[local] Instance sample_json : JSONLibrary := {
  NewDecoder raw := mkDecoder [Scalar SNull] io_EOF false;
  jcs_Transform raw := Ok raw;
  Sum256 data := resize 32 "0"%char data;
  Sum256_length data := length_resize data 32 "0"%char
}.
#[local] Instance sample_documents : DocumentLibrary := {
  document_json := sample_json;
  json_Valid _ := true;
  url_Parse s := Ok (mkURL "https" "example.test" (if bool_decide (s = "https://example.test") then "" else "/api/v3") "" "" false)
}.
#[local] Instance sample_native : NativeLibrary := {
  native_documents := sample_documents;
  unmarshal_string s := Ok s;
  decode_number _ := Ok tt
}.
#[local] Instance sample_exchange : ExchangeLibrary := {
  exchange_native := sample_native;
  exchange_any _ := Ok (JObject []);
  exchange_object _ := Ok (Some []);
  ToLower s := s;
  EqualFold s t := bool_decide (s = t);
  ParseMediaType s := Ok s
}.
#[local] Instance sample_registry_library : RegistryLibrary := {
  registry_exchange := sample_exchange;
  ParseRequestURI p := Ok (mkURL "" "" p "" "" false);
  unmarshal_map raw := Ok (Some [])
}.
Definition sample_target (ref : string) : Target :=
  mkTarget "https://example.test/api/v3" "openai-responses" "model" (Some (mkAuth "bearer" (mkSecretReference ref) "")) {["owner" := ref]}.
Definition empty_meta : EnvelopeMeta := mkEnvelopeMeta "" "" "" "" (mkObjectRef "" "" "") zero_producer 0 ∅.
Definition empty_planned : PlannedRun :=
  mkPlannedRun "" (sample_target "") ""
    (mkIntentPlan empty_meta "" "" (mkTargetIntent "" "" "" "") [] "" "" (mkProbePolicy [] zero_hard "") [] zero_budget
       (mkEvidencePolicy "" "" "") (mkSafetyPolicy "" "" "" []) "" [])
    (mkResolvedRunPlan empty_meta "" (mkObjectRef "" "" "") (mkArtifactPin "" "" "" "") [] "" [] (mkTargetResolution "" "" "" "" "" "")
       [] "" zero_budget (mkRuntimePolicy 0 0 0 "" "" "") []).
#[local] Instance sample_environment : PlanEnvironment bool := {
  plan_Now w := (7, w);
  plan_NewID w := (Ok (if w then "01890000-0000-7000-8000-000000000000" else "01890000-0000-7000-8000-000000000001"), negb w)
}.
(** The digest of the execution input tells the secret reference. *)
Definition sample_manifest (m : manifest) : list ascii :=
  match m with ExecutionConfig _ target => list_ascii_of_string (from_option (fun a => srRef (auToken a)) "" (tgAuth target)) | _ => [] end.
Section Sample.
Context (stored : PersistedPlan).
#[local] Instance sample_product : ProductLibrary := {
  product_registry := sample_registry_library;
  url_RawPath _ := "";
  url_EscapedPath _ := "";
  origin_String scheme host := scheme +:+ "://" +:+ host;
  Marshal_manifest m := Ok (sample_manifest m);
  Marshal_request _ := Ok [];
  Marshal_strings _ := Ok [];
  Marshal_intent _ := Ok [];
  Marshal_resolved _ := Ok [];
  Marshal_IntentPlan _ := Ok [];
  Marshal_ResolvedRunPlan _ := Ok [];
  Marshal_PersistedPlan _ := Ok (list_ascii_of_string "plan");
  Marshal_PlannedRun _ := Ok [];
  Unmarshal_PlannedRun _ := Err io_EOF;
  Decode_PersistedPlan _ := Ok (stored, Err io_EOF)
}.
Definition sample_request (ref : string) : PlanRequest := mkPlanRequest "staging" (sample_target ref) zero_budget zero_producer "".
Definition sample_planned (ref : string) : PlannedRun :=
  match (Build (sample_request ref) true).1 with Ok p => p | Err _ => empty_planned end.
End Sample.

Lemma plans_reveal_only_the_public_target_witness :
  let lib := sample_product (newPersistedPlan empty_planned) in
  let planned := sample_planned (newPersistedPlan empty_planned) in
  PlanJSON (planned "env://A") = PlanJSON (planned "env://B") ∧ is_ok (PlanJSON (planned "env://A")) = true ∧
  plExecutionConfigDigest (planned "env://A") <> plExecutionConfigDigest (planned "env://B").
Proof.
  split; [|split; [vm_compute; reflexivity|vm_compute; discriminate]].
  refine (proj2 (proj2 (proj2 (plans_reveal_only_the_public_target (lib := sample_product (newPersistedPlan empty_planned))
    (sample_request "env://A") (sample_request "env://B") true true true _ _ eq_refl eq_refl eq_refl eq_refl _ _ _))));
    [split_and!; [reflexivity..|]; constructor; split; reflexivity|vm_compute; reflexivity|vm_compute; reflexivity].
Defined.
Lemma built_plans_are_executable_witness :
  let lib := sample_product (newPersistedPlan empty_planned) in
  exists derived route, validatePlanned (sample_planned (newPersistedPlan empty_planned) "env://A") = Ok (derived, route) ∧
    length (arMaterials derived) = 4%nat.
Proof.
  destruct (built_plans_are_executable (lib := sample_product (newPersistedPlan empty_planned)) (sample_request "env://A") true true
    (sample_planned (newPersistedPlan empty_planned) "env://A")) as (derived & route & V & _ & _ & _ & L & _).
  - vm_compute. reflexivity.
  - vm_compute. reflexivity.
  - vm_compute. reflexivity.
  - exact (ex_intro _ derived (ex_intro _ route (conj V L))).
Defined.
Example sample_plan_is_read_back :
  let planned := sample_planned (newPersistedPlan empty_planned) "env://A" in
  DecodePlanJSON (lib := sample_product (newPersistedPlan planned)) (list_ascii_of_string "plan") = Ok (newPersistedPlan planned).
Proof. vm_compute. reflexivity. Qed.
Lemma endpoints_extend_the_base_path_witness :
  let lib := sample_product (newPersistedPlan empty_planned) in
  exists base suffix, "/api/v3/responses" = base +:+ "/" +:+ suffix.
Proof.
  destruct (endpoints_extend_the_base_path (lib := sample_product (newPersistedPlan empty_planned)) (sample_target "env://A")
    (mkTargetRoute "https://example.test" "/api/v3/responses")) as (parsed & base & suffix & _ & _ & _ & E & _).
  - vm_compute. reflexivity.
  - exact (ex_intro _ base (ex_intro _ suffix E)).
Defined.

(** A target may be named like the reference to the latest run: it is
    planned, and the plan cannot be stored. *)
Example latest_is_planned_but_not_stored :
  let lib := sample_product (newPersistedPlan empty_planned) in
  targetNamePattern "latest" = true ∧
  match (Build (lib := lib) (mkPlanRequest "latest" (sample_target "env://A") zero_budget zero_producer "") true).1 with
  | Ok p => is_ok (validatePlanned (lib := lib) p) = true ∧ is_ok (PlanJSON (lib := lib) p) = false
  | Err _ => False
  end.
Proof. vm_compute. auto. Qed.
(** A base path of two slashes counts as one trailing slash. *)
Example two_slashes_are_one :
  canonicalBasePath (lib := sample_product (newPersistedPlan empty_planned)) "" (mkURL "https" "example.test" "//" "" "" false) = Ok "/".
Proof. vm_compute. reflexivity. Qed.
