(* ===== verification/Secret.v ===== *)
(** * internal/secret: resolving secret references

    resolver.go with the permission check of permissions_unix.go: references
    to environment variables, files and approved helper programs.  The
    environment, the files and the processes are a class parameter that may
    answer anything; overwriting a buffer ([Wipe]) has no counterpart here. *)
From Stdlib Require Import ZArith Ascii String Lia.
From stdpp Require Import base gmap sets list strings.
From S2P Require Import Prelude Schema Canonical Documents RawJSON RawRegistry CAS Config.
Local Open Scope Z_scope.
Local Open Scope string_scope.
Local Open Scope list_scope.

Definition MaxSecretBytes : Z := Z.shiftl 64 10.
Definition ErrNotFound : string := "secret not found".
Definition ErrExecDisabled : string := "exec secret resolver is disabled".
Definition ErrKeyring : string := "keyring resolver is not available in this build".

Record Resolver := mkResolver {
  rvExecEnabled : bool;
  rvExecDigests : gmap string Digest;
  rvExecTimeout : Z;
  rvExecEnvironment : list string;
  rvExecDirectory : string;
  rvExecArguments : gmap string (list string)
}.

(** What [os.Lstat] tells, with the permission bits. *)
Record Stat := mkStat { stSymlink : bool; stDir : bool; stRegular : bool; stSize : Z; stPerm : Z }.
Record Command := mkCommand {
  cmPath : string; cmArguments : list string; cmEnvironment : list string; cmDirectory : string; cmTimeout : Z
}.

Class SecretSystem (W : Type) := {
  sys_LookupEnv : string -> W -> option string * W;
  sys_Lstat : string -> GoM W error Stat;
  sys_ReadFile : string -> GoM W error (list ascii);
  (** [os.Open] and [io.Copy] to the hash *)
  sys_HashFile : string -> GoM W error (list ascii);
  (** [command.Run], with the chunks written to its output *)
  sys_Run : Command -> GoM W error (list (list ascii))
}.

(** ** The output buffer *)
Record boundedBuffer := mkBuffer { bbData : list ascii; bbLimit : nat; bbOverflow : bool }.
Definition Buffer_Write (value : list ascii) (buffer : boundedBuffer) : boundedBuffer :=
  let remaining := (bbLimit buffer - length (bbData buffer))%nat in
  if decide ((bbLimit buffer <= length (bbData buffer))%nat) then mkBuffer (bbData buffer) (bbLimit buffer) true
  else if decide ((remaining < length value)%nat) then mkBuffer (bbData buffer ++ take remaining value) (bbLimit buffer) true
  else mkBuffer (bbData buffer ++ value) (bbLimit buffer) (bbOverflow buffer).

Definition validateSecret (value : list ascii) : result error (list ascii) :=
  err_if (length value = 0%nat) (ErrorNew (Text "secret is empty"));;
  err_if (Z.of_nat (length value) > MaxSecretBytes) (ErrorNew (Text "secret exceeds size limit"));;
  err_if ("000"%char ∈ value) (ErrorNew (Text "secret contains a NUL byte"));;
  mret value.

Definition IsAbs (path : string) : bool := HasPrefix path "/".
Definition contains_nul (s : string) : bool := string_any (is_byte 0) s.

Section Resolve.
Context {W : Type} {sys : SecretSystem W} {lib : JSONLibrary}.
Context (resolver : Resolver).

Definition validatePrivateFilePermissions (perm : Z) : result error unit :=
  err_if (Z.land perm 63 ≠ 0)
    (ErrorNew (Sprintf "secret file permissions %04o expose group or other bits" [FInt perm])).

Definition resolveFile (path : string) : GoM W error (list ascii) :=
  fail_if (IsAbs path = false) (ErrorNew (Text "file secret path must be absolute"));;
  let clean := path_Clean path in
  info ← wrapM (fun e => if errors_Is e ErrNotExist then Sentinel ErrNotFound else Wrapf (Text "stat secret file: %w") e)
           (sys_Lstat clean);
  fail_if (stSymlink info = true ∨ stRegular info = false) (ErrorNew (Text "secret file must be a regular non-symlink file"));;
  lift (validatePrivateFilePermissions (stPerm info));;
  fail_if (stSize info <= 0 ∨ stSize info > MaxSecretBytes)
    (ErrorNew (Sprintf "secret file size must be between 1 and %d bytes" [FInt MaxSecretBytes]));;
  value ← wrapM (Wrapf (Text "read secret file: %w")) (sys_ReadFile clean);
  lift (validateSecret value).

Definition fileDigest (path : string) : GoM W error Digest :=
  info ← wrapM (Wrapf (Text "stat exec secret helper: %w")) (sys_Lstat path);
  fail_if (stSymlink info = true ∨ stRegular info = false)
    (ErrorNew (Text "exec secret helper must be a regular non-symlink file"));;
  fail_if (Z.land (stPerm info) 18 ≠ 0 ∨ Z.land (stPerm info) 64 = 0)
    (ErrorNew (Text "exec secret helper must be owner-executable and not group/other writable"));;
  contents ← sys_HashFile path;
  mret (NewDigest contents).

Definition exec_timeout : Z :=
  if decide (rvExecTimeout resolver <= 0 ∨ rvExecTimeout resolver > 30000000000) then 5000000000 else rvExecTimeout resolver.

Definition resolveExec (path : string) : GoM W error (list ascii) :=
  fail_if (rvExecEnabled resolver = false) (Sentinel ErrExecDisabled);;
  fail_if (IsAbs path = false) (ErrorNew (Text "exec secret helper path must be absolute"));;
  let clean := path_Clean path in
  fail_if (rvExecDirectory resolver = "" ∨ IsAbs (rvExecDirectory resolver) = false)
    (ErrorNew (Text "exec secret resolver requires an absolute working directory"));;
  let bad_directory := ErrorNew (Text "exec secret resolver working directory must be a non-symlink directory") in
  directory ← wrapM (fun _ => bad_directory) (sys_Lstat (path_Clean (rvExecDirectory resolver)));
  fail_if (stSymlink directory = true ∨ stDir directory = false) bad_directory;;
  expected ← match rvExecDigests resolver !! clean with
             | Some expected => mret expected
             | None => fail (ErrorNew (Text "exec secret helper has no approved digest"))
             end;
  actual ← fileDigest clean;
  fail_if (actual ≠ expected) (ErrorNew (Text "exec secret helper digest mismatch"));;
  let arguments := default [] (rvExecArguments resolver !! clean) in
  lift (for_each (fun argument => err_if (contains_nul argument = true)
    (ErrorNew (Text "exec secret helper argument contains NUL"))) arguments);;
  chunks ← wrapM (Wrapf (Text "exec secret helper failed: %w"))
    (sys_Run (mkCommand clean arguments (rvExecEnvironment resolver) (rvExecDirectory resolver) exec_timeout));
  let stdout := foldl (fun buffer chunk => Buffer_Write chunk buffer) (mkBuffer [] (Z.to_nat MaxSecretBytes) false) chunks in
  fail_if (bbOverflow stdout = true) (ErrorNew (Text "exec secret helper output exceeded limit"));;
  lift (validateSecret (bbData stdout)).

Definition Resolve (reference : string) : GoM W error (list ascii) :=
  parsed ← lift (ParseSecretReference reference);
  let scheme := psScheme parsed in
  if decide (scheme = SecretEnv) then
    value ← (fun w => let '(v, w) := sys_LookupEnv (psValue parsed) w in (Ok v, w));
    match value with
    | None => fail (Sentinel ErrNotFound)
    | Some value => lift (validateSecret (list_ascii_of_string value))
    end
  else if decide (scheme = SecretFile) then resolveFile (psValue parsed)
  else if decide (scheme = SecretKeyring) then fail (Sentinel ErrKeyring)
  else if decide (scheme = SecretExec) then resolveExec (psValue parsed)
  else fail (ErrorNew (Text "unsupported secret reference")).

(** ** What is resolved *)
Definition filled (chunks : list (list ascii)) (buffer : boundedBuffer) : boundedBuffer :=
  foldl (fun buffer chunk => Buffer_Write chunk buffer) buffer chunks.
Lemma Buffer_stays_full chunks : forall buffer, bbOverflow buffer = true -> bbOverflow (filled chunks buffer) = true.
Proof.
  induction chunks as [|chunk chunks IH]; intros buffer H; cbn; [done|]. apply IH. unfold Buffer_Write. by repeat case_decide.
Qed.
Lemma Buffer_keeps_all chunks : forall buffer, (length (bbData buffer) <= bbLimit buffer)%nat ->
  let after := filled chunks buffer in
  (length (bbData after) <= bbLimit after)%nat ∧ bbLimit after = bbLimit buffer ∧
  (bbOverflow after = false -> bbData after = bbData buffer ++ concat chunks).
Proof.
  induction chunks as [|chunk chunks IH]; intros buffer H; cbn; [by rewrite app_nil_r|].
  unfold filled in *. cbn. assert (Hb : (length (bbData (Buffer_Write chunk buffer)) <= bbLimit (Buffer_Write chunk buffer))%nat ∧
    bbLimit (Buffer_Write chunk buffer) = bbLimit buffer).
  { unfold Buffer_Write. repeat case_decide; cbn; [done|..]; rewrite length_app, ?length_take; split; lia. }
  destruct Hb as [Hb El]. destruct (IH _ Hb) as (H1 & H2 & H3). split_and!; [done|congruence|]. intros Ho. rewrite H3 by done.
  assert (bbOverflow (Buffer_Write chunk buffer) = false) as Hf.
  { destruct (bbOverflow (Buffer_Write chunk buffer)) eqn:E; [|done]. apply (Buffer_stays_full chunks) in E. unfold filled in E. congruence. }
  unfold Buffer_Write in Hf |- *. repeat case_decide; cbn in *; try done. by rewrite (assoc_L (++)).
Qed.

Lemma validateSecret_ok value v : validateSecret value = Ok v ->
  v = value ∧ value <> [] ∧ Z.of_nat (length value) <= MaxSecretBytes ∧ "000"%char ∉ value.
Proof.
  unfold validateSecret. go_unfold. repeat case_decide; intros [= <-]. split_and!; [done|by destruct value|lia|done].
Qed.

(** Where a value may come from. *)
Definition from_env (name : string) (value : list ascii) (w w' : W) : Prop :=
  exists text, sys_LookupEnv name w = (Some text, w') ∧ value = list_ascii_of_string text.
Definition from_file (path : string) (value : list ascii) (w w' : W) : Prop :=
  exists info w1, IsAbs path = true ∧ sys_Lstat (path_Clean path) w = (Ok info, w1) ∧
    stSymlink info = false ∧ stRegular info = true ∧ Z.land (stPerm info) 63 = 0 ∧ sys_ReadFile (path_Clean path) w1 = (Ok value, w').
Definition from_helper (path : string) (value : list ascii) (w w' : W) : Prop :=
  let clean := path_Clean path in
  exists directory helper contents chunks w1 w2 w3, rvExecEnabled resolver = true ∧ IsAbs path = true ∧
    sys_Lstat (path_Clean (rvExecDirectory resolver)) w = (Ok directory, w1) ∧ stDir directory = true ∧
    sys_Lstat clean w1 = (Ok helper, w2) ∧ stSymlink helper = false ∧ stRegular helper = true ∧ Z.land (stPerm helper) 18 = 0 ∧
    sys_HashFile clean w2 = (Ok contents, w3) ∧ rvExecDigests resolver !! clean = Some (NewDigest contents) ∧
    sys_Run (mkCommand clean (default [] (rvExecArguments resolver !! clean)) (rvExecEnvironment resolver)
               (rvExecDirectory resolver) exec_timeout) w3 = (Ok chunks, w') ∧
    0 < exec_timeout <= 30000000000 ∧ value = concat chunks.

Lemma resolveFile_from path value w w' : resolveFile path w = (Ok value, w') ->
  from_file path value w w' ∧ value <> [] ∧ Z.of_nat (length value) <= MaxSecretBytes ∧ "000"%char ∉ value.
Proof.
  unfold resolveFile, validatePrivateFilePermissions, wrapM. go_unfold. case_decide; [done|].
  destruct (sys_Lstat _ w) as [[info|] w1] eqn:El; [|done]. repeat (case_decide; [done|]).
  destruct (sys_ReadFile _ w1) as [[raw|] w2] eqn:Er; [|done]. destruct (validateSecret raw) as [v|] eqn:Ev; [|done].
  intros [= <- <-]. apply validateSecret_ok in Ev as (-> & ? & ? & ?). split; [|done]. exists info, w1.
  split_and!; try done; try (apply not_false_is_true; tauto); try (apply not_true_is_false; tauto).
Qed.
Lemma resolveExec_from path value w w' : resolveExec path w = (Ok value, w') ->
  from_helper path value w w' ∧ value <> [] ∧ Z.of_nat (length value) <= MaxSecretBytes ∧ "000"%char ∉ value.
Proof.
  unfold resolveExec, fileDigest, wrapM. cbv zeta. go_unfold. do 3 (case_decide; [done|]).
  destruct (sys_Lstat _ w) as [[directory|] w1] eqn:El; [|done]. case_decide; [done|].
  destruct (rvExecDigests resolver !! _) as [expected|] eqn:Ed; [|done].
  destruct (sys_Lstat _ w1) as [[helper|] w2] eqn:Eh; [|done]. do 2 (case_decide; [done|]).
  destruct (sys_HashFile _ w2) as [[contents|] w3] eqn:Ec; [|done]. case_decide as Ee; [done|].
  destruct (for_each _ _) as [[]|]; [|done]. destruct (sys_Run _ w3) as [[chunks|] w4] eqn:Er; [|done].
  case_decide as Eo; [done|]. destruct (validateSecret _) as [v|] eqn:Ev; [|done]. intros [= <- <-].
  apply validateSecret_ok in Ev as (-> & ? & ? & ?). split; [|done]. fold (filled chunks (mkBuffer [] (Z.to_nat MaxSecretBytes) false)) in *.
  destruct (Buffer_keeps_all chunks (mkBuffer [] (Z.to_nat MaxSecretBytes) false)) as (_ & _ & Hk); [cbn; lia|].
  exists directory, helper, contents, chunks, w1, w2, w3. rewrite Hk by (by destruct (bbOverflow _)). subst expected. unfold exec_timeout.
  split_and!; try done; try (apply not_false_is_true; tauto); try (apply not_true_is_false; tauto); try lia.
  all: case_decide; lia.
Qed.

(** [C12] Secrets come from where their reference says and nowhere else: a
    resolved value is not empty, at most 64 KiB long and free of NUL; it is
    the named environment variable, the content of an absolute, regular file
    that only its owner can reach, or the whole output of an absolute helper
    program, which runs only when helpers are enabled, not writable by others
    and with exactly the approved digest, with the configured arguments,
    environment, directory and a bounded time. *)
Theorem secrets_are_approved reference value (w w' : W) (H : Resolve reference w = (Ok value, w')) :
  value <> [] ∧ Z.of_nat (length value) <= MaxSecretBytes ∧ "000"%char ∉ value ∧
  exists parsed, ParseSecretReference reference = Ok parsed ∧
    (psScheme parsed = SecretEnv ∧ from_env (psValue parsed) value w w' ∨
     psScheme parsed = SecretFile ∧ from_file (psValue parsed) value w w' ∨
     psScheme parsed = SecretExec ∧ from_helper (psValue parsed) value w w').
Proof.
  unfold Resolve in H. unfold mbind, gom_bind, lift in H. destruct (ParseSecretReference reference) as [parsed|] eqn:Ep; [|done].
  cbv zeta in H. case_decide as E1.
  - destruct (sys_LookupEnv _ w) as [[text|] w1] eqn:El; [|done]. destruct (validateSecret _) as [v|] eqn:Ev; [|done].
    injection H as <- <-. apply validateSecret_ok in Ev as (-> & ? & ? & ?). split_and!; [done..|]. exists parsed. split; [done|].
    left. split; [done|by exists text].
  - case_decide as E2; [apply resolveFile_from in H as (? & ? & ? & ?); naive_solver|]. case_decide as E3; [done|].
    case_decide as E4; [|done]. apply resolveExec_from in H as (? & ? & ? & ?). naive_solver.
Qed.
End Resolve.

(** ** An approved helper *)
#[local] Instance sample_json : JSONLibrary := {
  NewDecoder raw := mkDecoder [Scalar SNull] io_EOF false;
  jcs_Transform raw := Ok raw;
  Sum256 data := resize 32 "0"%char data;
  Sum256_length data := length_resize data 32 "0"%char
}.
#[local] Instance sample_system : SecretSystem unit := {
  sys_LookupEnv name w := (None, w);
  sys_Lstat path w := (Ok (mkStat false (bool_decide (path = "/run")) (bool_decide (path <> "/run")) 1 493), w);
  sys_ReadFile path w := (Ok [], w);
  sys_HashFile path w := (Ok (list_ascii_of_string "helper"), w);
  sys_Run command w := (Ok [list_ascii_of_string "tok"; list_ascii_of_string "en"], w)
}.
Definition sample_resolver : Resolver :=
  mkResolver true {["/bin/helper" := NewDigest (list_ascii_of_string "helper")]} 0 [] "/run" ∅.
Lemma secrets_are_approved_witness :
  exists parsed, ParseSecretReference "exec:///bin/helper" = Ok parsed ∧
    from_helper sample_resolver (psValue parsed) (list_ascii_of_string "token") tt tt.
Proof.
  destruct (secrets_are_approved sample_resolver "exec:///bin/helper" (list_ascii_of_string "token") tt tt)
    as (_ & _ & _ & parsed & Hp & H).
  - vm_compute. reflexivity.
  - exists parsed. split; [exact Hp|]. injection Hp as <-. destruct H as [[H _]|[[H _]|[_ H]]]; [discriminate H..|exact H].
Defined.
