(* ===== verification/ProductRun.v ===== *)
(** * internal/productrun/execute.go: running a plan

    [Execute] checks a plan against the built-in resolution, resolves the
    credential, and puts the parts together: the scenarios go into the registry
    of RawRegistry.v, requests through the client of Transport.v, evidence into
    the store of CAS.v, attempts through the runner of RawRunner.v and the
    executor of Executor.v, and the report with the plan into the store of
    RunStore.v.  The world outside has the two directories, the network, the
    clock, the identifiers and the secrets; beside it a run has the memory of
    its registry and the error classes of its scenarios. *)
From Stdlib Require Import ZArith Ascii String Lia.
From stdpp Require Import base gmap sets list strings.
From S2P Require Import Transport.
From S2P Require Import Prelude Sorting Schema Results Canonical Documents Planner Budget Executor Report.
From S2P Require Import OracleSchema Normalizer Redaction Evidence CAS RunStore RawJSON RawRegistry RawRunner.
From S2P Require Import Config ProductPlan.
Local Open Scope Z_scope.
Local Open Scope string_scope.
Local Open Scope list_scope.

(** ** Outcomes *)
Definition class_is_permission (class : ErrorClass) : Prop := class = ErrorAuthentication ∨ class = ErrorPermission.
#[export] Instance class_is_permission_dec class : Decision (class_is_permission class).
Proof. unfold class_is_permission. apply _. Defined.

(** The flags of [aggregate]. *)
Record flags := mkFlags {
  hasFailure : bool; hasWarning : bool; hasIncomplete : bool; hasInfrastructure : bool; hasPermission : bool; hasCancelled : bool
}.
Definition mark_case (f : flags) (item : CaseResult) : flags :=
  let cancelled := hasCancelled f || bool_decide (crExecutionStatus item = ExecutionCancelled) in
  let infrastructure := hasInfrastructure f || bool_decide (crExecutionStatus item = ExecutionErrored) in
  let incomplete := hasIncomplete f || bool_decide (crReasonCode item = ReasonBudgetExhausted) in
  if decide (crPlanDisposition item ≠ DispositionExecute ∨ crExecutionStatus item = ExecutionSkipped ∨ crVerdict item = None) then
    mkFlags (hasFailure f) (hasWarning f) true infrastructure (hasPermission f) cancelled
  else
    let verdict_is v := bool_decide (crVerdict item = Some v) in
    mkFlags (hasFailure f || verdict_is VerdictFail) (hasWarning f || verdict_is VerdictWarn)
      (incomplete || verdict_is VerdictInconclusive) infrastructure (hasPermission f) cancelled.

Definition aggregate (cases : list CaseResult) (classes : gmap string ErrorClass) (executionErr : option error)
    (budgetExhausted : bool) : ProfileOutcome * DimensionOutcome * Z :=
  let permission := bool_decide (~ map_Forall (fun _ class => ~ class_is_permission class) classes) in
  let f := foldl mark_case (mkFlags false false budgetExhausted false permission false) cases in
  let inconclusive code := (ProfileInconclusive, DimensionInconclusive, code) in
  let canceled := match executionErr with Some e => errors_Is e Canceled | None => false end in
  if hasCancelled f && canceled then inconclusive 130
  else if hasPermission f then inconclusive 5
  else if hasInfrastructure f then inconclusive 3
  else if hasCancelled f || hasIncomplete f then inconclusive 4
  else if hasFailure f then (ProfileIncompatible, DimensionFail, 1)
  else if hasWarning f then (ProfileDegraded, DimensionDegraded, 0)
  else (ProfileCompatible, DimensionPass, 0).

(** ** Reports *)
Definition candidate_condition : Condition :=
  mkCondition "candidate_interpretations_pending_review"
    "This client-side raw-wire slice uses candidate Requirement Catalog interpretations pending independent review; it does not establish a support tier or vendor certification.".
Definition usage_condition (unknown : list string) : list Condition :=
  if decide (length unknown = 0%nat) then []
  else [mkCondition "provider_usage_unknown"
          ("Token usage was unavailable for one or more attempts (fields: " +:+ String.concat ", " unknown +:+
           "). Known estimates were used for enforcement where available; these values are not observed zeroes.")].
Definition budget_condition (exhausted : bool) (cases : list CaseResult) : list Condition :=
  if exhausted || existsb (fun item => bool_decide (crReasonCode item = ReasonBudgetExhausted)) cases then
    [mkCondition "run_budget_exhausted"
       "The bounded run exceeded or could not reserve its approved budget; the profile result is incomplete unless a higher-priority lifecycle or infrastructure outcome applies."]
  else [].
Definition lifecycle_condition (executionErr : option error) : list Condition :=
  match executionErr with
  | None => []
  | Some e =>
      if errors_Is e DeadlineExceeded then
        [mkCondition "run_deadline_exceeded"
           "The bounded run deadline expired; remaining checks are inconclusive rather than target failures."]
      else if errors_Is e Canceled then
        [mkCondition "run_cancelled" "The caller cancelled the run; remaining checks are inconclusive."]
      else []
  end.
Definition class_message (class : ErrorClass) : string * string :=
  if decide (class = ErrorAuthentication) then
    ("authentication_failed", "The target rejected authentication; no protocol verdict was produced.")
  else if decide (class = ErrorPermission) then
    ("permission_failed", "The target denied permission; no protocol verdict was produced.")
  else if decide (class = ErrorTransient) then
    ("transient_error", "The target returned a transient status; no protocol verdict was produced.")
  else if decide (class = ErrorDriver) then
    ("driver_error", "The raw transport failed before a target verdict was produced.")
  else if decide (class = ErrorHarness) then
    ("harness_error", "The local harness failed before a target verdict was produced.")
  else ("execution_error", "The scenario ended before a target verdict.").
Definition class_conditions (classes : gmap string ErrorClass) : list Condition :=
  (fun scenarioID =>
     let '(code, text) := class_message (default "" (classes !! scenarioID)) in
     mkCondition code ("Scenario " +:+ scenarioID +:+ ": " +:+ text)) <$> sort_Strings (elements (dom classes)).

(** [TakeSnapshot] always answers, so the budget of a result is there. *)
Definition budget_exhausted (r : ExecutionResult) : bool := from_option snapExhausted false (exBudget r).
Definition budget_unknown (r : ExecutionResult) : list string := from_option snapUnknown [] (exBudget r).

Section Report.
Context {lib : ProductLibrary} {ro : RangeOrder string string}.

Definition members (member : CaseResult -> bool) (cases : list CaseResult) : list string :=
  sort_Strings (crScenarioID <$> filter (fun item => member item = true) cases).
Definition buildReport (planned : PlannedRun) (derived : artifacts) (r : ExecutionResult) (classes : gmap string ErrorClass)
    (executionErr : option error) : result error Bundle :=
  let candidateIDs := members crCandidateMember (exCases r) in
  let applicableIDs := members crApplicableMember (exCases r) in
  let executedIDs := members crExecutedMember (exCases r) in
  candidateDigest ← CanonicalDigest Marshal_strings candidateIDs;
  applicableDigest ← CanonicalDigest Marshal_strings applicableIDs;
  executedDigest ← CanonicalDigest Marshal_strings executedIDs;
  err_if (candidateDigest ≠ ipCandidateDenominatorDigest (plIntent planned) ∨
          applicableDigest ≠ rpDenominatorDigest (plResolved planned))
    (ErrorNew (Text "executor denominator membership differs from the resolved plan"));;
  let '(outcome, dimension, exitCode) := aggregate (exCases r) classes executionErr (budget_exhausted r) in
  let conditions := [candidate_condition] ++ usage_condition (budget_unknown r) ++
    budget_condition (budget_exhausted r) (exCases r) ++ lifecycle_condition executionErr ++ class_conditions classes in
  let count (ids : list string) := Z.of_nat (length ids) in
  let bundle := mkBundle SchemaVersion (exRunID r) (emObjectRef (ipMeta (plIntent planned)))
    (emObjectRef (rpMeta (plResolved planned))) (arProfile derived) (rpArtifacts (plResolved planned))
    (rpSupportLockDigest (plResolved planned))
    (mkDenominatorSummary candidateDigest (count candidateIDs) applicableDigest (count applicableIDs)
       executedDigest (count executedIDs))
    outcome {["protocol" := dimension]} (exCases r) conditions exitCode in
  Bundle_Validate bundle;;
  mret bundle.
End Report.

(** ** Scenarios *)

(** The allowed values are cloned: each scenario has memory of its own. *)
Definition allowed_loc (index : nat) (m : scenarioMaterial) : option loc :=
  match sdAllowedValues (smDescriptor m) with [] => None | _ => Some (Pos.of_succ_nat index) end.
Definition materialize (derived : artifacts) (planDigest : Digest) (auth : Header) (index : nat) (m : scenarioMaterial) : Entry :=
  let d := smDescriptor m in
  mkEntry (mkScenario planDigest (sdID d) (arDriver derived) (sdProtocol d) (smMethod m) (smPath m) (auth ∪ smHeaders m) (smBody m)
             (sdStreaming d) (smExpectedStatus m) (smBudget m)
             (mkAssertionSpec ("builtin." +:+ sdID d) (sdRequirementID d) AssertionNormative (arOracle derived) (arEvaluator derived)
                (sdCheck d) [] None))
    (allowed_loc index m) None.
Definition materializeScenarios (derived : artifacts) (planDigest : Digest) (auth : Header) : list Entry :=
  imap (materialize derived planDigest auth) (arMaterials derived).
Definition scenario_heap (derived : artifacts) : RawRegistry.Heap :=
  RawRegistry.mkHeap (list_to_map (concat (imap (fun index m => match allowed_loc index m with
    | Some l => [(l, sdAllowedValues (smDescriptor m))] | None => [] end) (arMaterials derived)))) ∅.

Definition maxMaterialResponse (materials : list scenarioMaterial) : Z :=
  foldl (fun best m => if decide (bbResponseBytes (smBudget m) > best) then bbResponseBytes (smBudget m) else best) 0 materials.

(** ** The world of a run *)
Class RunEnvironment (O : Type) := {
  run_Now : O -> Time * O;
  run_NewID : GoM O error InstanceID;
  (** the context of the run, with its timeout *)
  run_ctxErr : O -> option error * O;
  run_since : O -> Z * O;
  (** the secret resolver and the cleanup, if there are any *)
  run_Secrets : option (string -> GoM O error (list ascii));
  run_BeforePersist : option (GoM O error unit);
  (** package os at the data root *)
  root_MkdirAll : string -> GoM O error unit;
  root_Lstat : string -> GoM O error (FileInfo * Z);
  root_Chmod : string -> GoM O error unit;
  Marshal_Bundle : Bundle -> result error (list ascii)
}.

(** What is outside, the memory of the registry, and the [classes] of the
    classifying runner. *)
Record RunWorld (O : Type) := mkRunWorld { outside : O; registry_memory : RegistryWorld; error_classes : gmap string ErrorClass }.
Arguments mkRunWorld {O}.
Arguments outside {O}.
Arguments registry_memory {O}.
Arguments error_classes {O}.
Definition set_classes {O} (classes : gmap string ErrorClass) (w : RunWorld O) : RunWorld O :=
  mkRunWorld (outside w) (registry_memory w) classes.
Definition go_out {O A} (f : O -> A * O) (w : RunWorld O) : A * RunWorld O :=
  let '(a, o) := f (outside w) in (a, mkRunWorld o (registry_memory w) (error_classes w)).

#[export] Instance run_filesystem {O File} (fs : FileSystem O File) : FileSystem (RunWorld O) File := {
  fs_ctxErr := go_out fs_ctxErr;
  fs_MkdirAll := go_out fs_MkdirAll;
  fs_Lstat p := go_out (fs_Lstat p);
  fs_Mkdir p := go_out (fs_Mkdir p);
  fs_Open p := go_out (fs_Open p);
  fs_CreateTemp p := go_out (fs_CreateTemp p);
  fs_Link p q := go_out (fs_Link p q);
  fs_Remove p := go_out (fs_Remove p);
  file_Stat f := go_out (file_Stat f);
  file_Chmod f := go_out (file_Chmod f);
  file_Write f data := go_out (file_Write f data);
  file_Sync f := go_out (file_Sync f);
  file_Close f := go_out (file_Close f);
  file_ReadAll f n := go_out (file_ReadAll f n)
}.
#[export] Instance run_registry {lib : RegistryLibrary} {O} : ScenarioRegistry (RunWorld O) := {
  registry_Estimate decision w := (RawRegistry.Estimate decision (registry_memory w), w);
  registry_Lookup plan decision w := (RawRegistry.Lookup plan decision (registry_memory w), w)
}.

Section Run.
Context {O EvidenceFile RunFile Conn Body : Type} {env : RunEnvironment O}.
Context {evidence_fs : FileSystem O EvidenceFile} {runs_fs : RunFileSystem O RunFile} {net : Network O Conn Body}.
Context {lib : ProductLibrary} {addresses : AddressLibrary} {codec : EvidenceCodec} {runner_codec : RunnerCodec}.
Context {run_codec : RunCodec} {redaction : RedactionLibrary}.
Context {ro : RangeOrder string string} {hro : RangeOrder string (list string)} {iro : RangeOrder string Statemachine.itemState}.

Definition run_environment (client : Client) : RunnerEnvironment (RunWorld O) := {|
  transport_Do method path headers body := go_out (Transport.Do client method path headers body);
  runner_ctxErr := go_out run_ctxErr;
  since_started := go_out run_since;
  runner_Now := go_out run_Now;
  runner_NewID := go_out run_NewID
|}.

(** *** The classifying runner *)
Definition context_done : GoM (RunWorld O) RunFailure bool := fun w =>
  match go_out run_ctxErr w with
  | (Some e, w) => if errors_Is e Canceled then (Ok true, w) else
      match go_out run_ctxErr w with
      | (Some e, w) => (Ok (errors_Is e DeadlineExceeded), w)
      | (None, w) => (Ok false, w)
      end
  | (None, w) =>
      match go_out run_ctxErr w with
      | (Some e, w) => (Ok (errors_Is e DeadlineExceeded), w)
      | (None, w) => (Ok false, w)
      end
  end.
Definition panicked : RunFailure := PlainError (ErrorNew (Text "panic")).

(** A panic of the inner runner would end the program; [Run] has none. *)
Definition classifying_Run (client : Client) (runner : Runner) (invocation : Invocation)
    : GoM (RunWorld O) RunFailure Executor.Outcome := fun w =>
  let '(outcome, w) := RawRunner.Run (env := run_environment client) runner invocation w in
  let outcome := match outcome with Ok o => Ok o | Err (Some f) => Err f | Err None => Err panicked end in
  let id := ScenarioID (invScenario invocation) in
  match context_done w with
  | (Ok true, w) => (outcome, set_classes (delete id (error_classes w)) w)
  | (_, w) =>
      match outcome with
      | Err f => match errors_As f with
                 | Some classified => (outcome, set_classes (<[id := reClass classified]> (error_classes w)) w)
                 | None => (outcome, w)
                 end
      | Ok _ => (outcome, w)
      end
  end.

(** *** The resolver (resolver.go) *)
Definition NewExactResolver (pin : ArtifactPin) : result error ArtifactPin := ArtifactPin_Validate pin;; mret pin.
Definition ExactResolver_Resolve (resolver pin : ArtifactPin) : result error unit :=
  err_if (pin ≠ resolver) (ErrorNew (Text "runner pin does not exactly match the resolved driver artifact")).

Fixpoint failure_error (f : RunFailure) : error :=
  match f with
  | PlainError e => e
  | WrappedError m inner => Wrapf m (failure_error inner)
  | TypedError _ (Some inner) => failure_error inner
  | TypedError _ None => ErrorNew (Text "")
  end.

(** What the executor is configured with; the resolver resolves no
    finalizers. *)
Definition executor_environment (client : Client) (runner : Runner) (resolver : ArtifactPin) : Environment (RunWorld O) unit := {|
  env_NewID := go_out run_NewID;
  env_Now := go_out run_Now;
  env_ctxErr := go_out run_ctxErr;
  env_Resolve pin := lift (ExactResolver_Resolve resolver pin);
  env_ResolveFinalizer := None;
  env_Estimate _ decision := Runner_Estimate decision;
  env_Run _ invocation := classifying_Run client runner invocation;
  env_Finalize _ plan := wrapM failure_error (RawRunner.Finalize plan)
|}.

(** *** Credentials and directories *)
Definition resolveAuth (target : Target) : GoM O error (Header * list ascii * list string) :=
  match tgAuth target with
  | None => mret (∅, [], [])
  | Some auth =>
      match run_Secrets with
      | None => fail (ErrorNew (Text "target authentication requires an explicit secret resolver"))
      | Some resolve =>
          value ← wrapM (Wrapf (Text "resolve target credential: %w")) (resolve (srRef (auToken auth)));
          fail_if (length value = 0%nat) (ErrorNew (Text "resolved credential is empty"));;
          headerName ← lift (authHeaderName target);
          let headerValue := if decide (auType auth = "header") then string_of_list_ascii value
                             else "Bearer " +:+ string_of_list_ascii value in
          mret (Header_Set headerName headerValue ∅, value, [headerName])
      end
  end.

Definition ensureDataRoot (root : string) : GoM O error unit :=
  fail_if (root = "" ∨ HasPrefix root "/" = false) (ErrorNew (Text "data root must be an absolute path"));;
  let clean := path_Clean root in
  wrapM (Wrapf (Text "create data root: %w")) (root_MkdirAll clean);;
  '(info, perm) ← root_Lstat clean;
  fail_if (fiSymlink info = true ∨ fiIsDir info = false) (ErrorNew (Text "data root must be a non-symlink directory"));;
  if decide (Z.land perm 63 ≠ 0) then root_Chmod clean else mret tt.

(** *** Execution *)
Record ExecuteRequest := mkExecuteRequest { xqPlanned : PlannedRun; xqDataRoot : string; xqNetworkMode : NetworkMode }.
Record Execution := mkExecution {
  xnExecutorResult : ExecutionResult; xnReport : Bundle; xnReportJSON : list ascii; xnRecordDigest : Digest
}.
(** What is known before anything is sent. *)
Record prepared := mkPrepared {
  ppdPlanned : PlannedRun; ppdDerived : artifacts; ppdPlanJSON : list ascii; ppdRedactor : Redactor; ppdRegistry : RegistryWorld;
  ppdStore : Store; ppdClient : Client; ppdRunner : Runner; ppdResolver : ArtifactPin
}.

Definition credential_canaries (value : list ascii) : result error (list (list ascii)) :=
  if decide (length value = 0%nat) then Ok []
  else err_if ((length value < 8)%nat)
         (ErrorNew (Text "resolved credential must contain at least 8 bytes for exact redaction-canary enforcement"));;
       mret [value].

Definition freeze (planned : PlannedRun) : result error PlannedRun :=
  frozenJSON ← wrap (Wrapf (Text "freeze run plan: %w")) (frozenPlanJSON planned);
  wrap (Wrapf (Text "decode frozen run plan: %w")) (Unmarshal_PlannedRun frozenJSON).

(** The origin was parsed when the intent plan was validated. *)
Definition plain_http (origin : string) : bool :=
  match url_Parse origin with Ok parsed => bool_decide (Scheme parsed = "http") | Err _ => false end.

Definition prepare (request : ExecuteRequest) : GoM O error prepared :=
  planned ← lift (freeze (xqPlanned request));
  '(derived, route) ← lift (validatePlanned planned);
  planJSON ← lift (wrap (Wrapf (Text "build persistence-safe plan snapshot: %w")) (PlanJSON planned));
  ensureDataRoot (xqDataRoot request);;
  let mode := if decide (xqNetworkMode request = "") then NetworkLocalTarget else xqNetworkMode request in
  '(headers, secretValue, sensitiveNames) ← resolveAuth (plTarget planned);
  canaries ← lift (credential_canaries secretValue);
  redactor ← lift (wrap (Wrapf (Text "configure redaction: %w")) (NewRedactor sensitiveNames canaries));
  lift (wrap (fun _ => ErrorNew (Text "run plan failed the credential-canary persistence invariant"))
          (AssertNoCanary redactor planJSON));;
  let resolved := plResolved planned in
  let hard := Hard (rpBudget resolved) in
  let digest := emContentDigest (rpMeta resolved) in
  let '(registered, registry) := NewMemoryRegistry (materializeScenarios derived digest headers)
                                   (mkRegistryWorld (scenario_heap derived) empty_registry) in
  lift (wrap (Wrapf (Text "register exact scenarios: %w")) registered);;
  store ← wrapM (Wrapf (Text "open evidence store: %w"))
            (CAS.Open (path_Clean (xqDataRoot request +:+ "/evidence"))
               (Z.max (Z.shiftl 2 20) (int64_wrap (Schema.MaxResponseBytes hard + Z.shiftl 1 20))));
  let responseLimit := Z.min (maxMaterialResponse (arMaterials derived)) (Schema.MaxResponseBytes hard) in
  client ← lift (wrap (Wrapf (Text "create origin-bound transport: %w"))
    (Transport.New (mkPolicy (trOrigin route) mode RedirectNone 0 (plain_http (trOrigin route)) (Schema.MaxRequestBytes hard)
       responseLimit (Documents.Timeout (rpRuntime resolved)) None)));
  runner ← lift (wrap (Wrapf (Text "create raw driver: %w"))
             (NewRunner store redactor (emProducer (ipMeta (plIntent planned))) 0));
  resolver ← lift (NewExactResolver (arDriver derived));
  mret (mkPrepared planned derived planJSON redactor registry store client runner resolver).

Definition report_JSON (bundle : Bundle) : result error (list ascii) :=
  Bundle_Validate bundle;;
  CanonicalMarshal Marshal_Bundle bundle.

(** The executor's part: the result, the error of the run and the classes. *)
Definition perform (p : prepared) : GoM O error (ExecutionResult * option error * gmap string ErrorClass) := fun o =>
  let resolved := plResolved (ppdPlanned p) in
  let '(r, (w, _)) := Executor.Execute (env := executor_environment (ppdClient p) (ppdRunner p) (ppdResolver p))
    resolved (emContentDigest (rpMeta resolved)) true (mkRunWorld o (ppdRegistry p) ∅) in
  match r with
  | Err e => (Err e, outside w)
  | Ok (result, executionErr) =>
      if decide (exRunID result = "") then
        (Err (default (ErrorNew (Text "executor returned no run identity")) executionErr), outside w)
      else (Ok (result, executionErr, error_classes w), outside w)
  end.

(** The report that may be stored. *)
Definition checked_report (p : prepared) (r : ExecutionResult) (executionErr : option error) (classes : gmap string ErrorClass)
    : result error (Bundle * list ascii) :=
  let planned := ppdPlanned p in
  bundle ← wrap (Wrapf (Text "build report: %w")) (buildReport planned (ppdDerived p) r classes executionErr);
  err_if (buIntentPlanRef bundle ≠ emObjectRef (ipMeta (plIntent planned)) ∨
          buResolvedPlanRef bundle ≠ emObjectRef (rpMeta (plResolved planned)))
    (ErrorNew (Text "report plan references differ from the frozen persisted plan"));;
  encoded ← wrap (Wrapf (Text "encode report: %w")) (report_JSON bundle);
  wrap (fun _ => ErrorNew (Text "report failed the credential-canary persistence invariant"))
    (AssertNoCanary (ppdRedactor p) encoded);;
  '(redacted, _) ← wrap (Wrapf (Text "verify report redaction invariant: %w")) (RedactJSON (ppdRedactor p) encoded);
  err_if (encoded ≠ redacted) (ErrorNew (Text "report contains material that was not redacted before serialization"));;
  mret (bundle, encoded).

Definition persist (request : ExecuteRequest) (p : prepared) (runID : InstanceID) (encoded : list ascii) : GoM O error Digest :=
  match run_BeforePersist with
  | Some cleanup => wrapM (Wrapf (Text "complete task cleanup before run persistence: %w")) cleanup
  | None => mret tt
  end;;
  runs ← wrapM (Wrapf (Text "open run store: %w")) (RunStore.Open (path_Clean (xqDataRoot request +:+ "/runs")) DefaultMaxRecordBytes);
  wrapM (Wrapf (Text "persist run record: %w")) (RunStore.Put runs runID (mkPayload encoded (ppdPlanJSON p))).

(** The registry is cleared and the buffer of the secret overwritten on
    every return: neither is reachable afterwards. *)
Definition Execute (request : ExecuteRequest) : GoM O error (Execution * option error) :=
  p ← prepare request;
  '(result, executionErr, classes) ← perform p;
  '(bundle, encoded) ← lift (checked_report p result executionErr classes);
  recordDigest ← persist request p (exRunID result) encoded;
  mret (mkExecution result bundle encoded recordDigest, executionErr).
End Run.
