(* ===== verification/ProductRunSpec.v ===== *)
(** * What a product run reports and stores

    The exit code and the outcome of a run say what its cases say; the cases
    are those of the plan; and what is stored is a canonical report and plan
    without the credential. *)
From Stdlib Require Import ZArith Ascii String Lia.
From stdpp Require Import base gmap sets list strings pretty.
From S2P Require Import Transport.
From S2P Require Import Prelude Sorting Schema Results Canonical Documents Planner Budget Executor Report.
From S2P Require Import SSESpec ExecutorLog ExecutorRun.
From S2P Require Import OracleSchema Normalizer Redaction Evidence CAS RunStore RawJSON RawRegistry RawRunner.
From S2P Require Import CASSpec RedactionSpec Disk RunDisk Config ProductPlan ProductPlanSpec ProductRun.
Local Open Scope Z_scope.
Local Open Scope string_scope.
Local Open Scope list_scope.

(** ** Outcomes *)
Definition unfinished (c : CaseResult) : Prop :=
  crPlanDisposition c ≠ DispositionExecute ∨ crExecutionStatus c = ExecutionSkipped ∨ crVerdict c = None.
#[export] Instance unfinished_dec c : Decision (unfinished c).
Proof. unfold unfinished. apply _. Defined.
(** A case that decides something. *)
Definition conclusive (c : CaseResult) : Prop :=
  ~ unfinished c ∧ crExecutionStatus c ≠ ExecutionErrored ∧ crExecutionStatus c ≠ ExecutionCancelled ∧
  crReasonCode c ≠ ReasonBudgetExhausted ∧ crVerdict c ≠ Some VerdictInconclusive.
Definition no_permission_error (classes : gmap string ErrorClass) : Prop :=
  map_Forall (fun _ class => ~ class_is_permission class) classes.

Lemma no_permission_stable classes : ~ ~ no_permission_error classes <-> no_permission_error classes.
Proof. split; [apply dec_stable|tauto]. Qed.

Lemma mark_cases cases : forall f,
  let g := foldl mark_case f cases in
  (hasFailure g = false <-> hasFailure f = false ∧ Forall (fun c => unfinished c ∨ crVerdict c ≠ Some VerdictFail) cases) ∧
  (hasWarning g = false <-> hasWarning f = false ∧ Forall (fun c => unfinished c ∨ crVerdict c ≠ Some VerdictWarn) cases) ∧
  (hasIncomplete g = false <-> hasIncomplete f = false ∧
     Forall (fun c => ~ unfinished c ∧ crReasonCode c ≠ ReasonBudgetExhausted ∧ crVerdict c ≠ Some VerdictInconclusive) cases) ∧
  (hasInfrastructure g = false <-> hasInfrastructure f = false ∧ Forall (fun c => crExecutionStatus c ≠ ExecutionErrored) cases) ∧
  (hasCancelled g = false <-> hasCancelled f = false ∧ Forall (fun c => crExecutionStatus c ≠ ExecutionCancelled) cases) ∧
  hasPermission g = hasPermission f.
Proof.
  induction cases as [|c cases IH]; intros f; cbn [foldl]; [naive_solver|].
  destruct (IH (mark_case f c)) as (H1 & H2 & H3 & H4 & H5 & H6). cbv zeta. rewrite H1, H2, H3, H4, H5, H6, !Forall_cons.
  clear. unfold mark_case. fold (unfinished c). case_decide as U; cbn; rewrite ?orb_false_iff, ?bool_decide_eq_false; naive_solver.
Qed.

(** The caller cancelled the run while a case was under way. *)
Definition interrupted (cases : list CaseResult) (executionErr : option error) : Prop :=
  Exists (fun c => crExecutionStatus c = ExecutionCancelled) cases ∧
  exists e, executionErr = Some e ∧ errors_Is e Canceled = true.
(** A case that did not get as far as the target. *)
Definition broken (cases : list CaseResult) : Prop := Exists (fun c => crExecutionStatus c = ExecutionErrored) cases.
Definition failed (cases : list CaseResult) : Prop := Exists (fun c => crVerdict c = Some VerdictFail) cases.
Definition warned (cases : list CaseResult) : Prop := Exists (fun c => crVerdict c = Some VerdictWarn) cases.
(** Nothing was left open. *)
Definition decided (cases : list CaseResult) (classes : gmap string ErrorClass) (exhausted : bool) : Prop :=
  exhausted = false ∧ no_permission_error classes ∧ Forall conclusive cases.

(** What an outcome, the outcome of its one dimension and an exit code stand
    for: each code for exactly one situation, in the order of precedence. *)
Record judged (cases : list CaseResult) (classes : gmap string ErrorClass) (executionErr : option error) (exhausted : bool)
    (outcome : ProfileOutcome) (dimension : DimensionOutcome) (code : Z) : Prop := {
  jd_codes : code ∈ [0; 1; 3; 4; 5; 130];
  jd_interrupted : code = 130 <-> interrupted cases executionErr;
  jd_denied : code = 5 <-> ~ interrupted cases executionErr ∧ ~ no_permission_error classes;
  jd_broken : code = 3 <-> ~ interrupted cases executionErr ∧ no_permission_error classes ∧ broken cases;
  jd_open : code = 4 <-> ~ interrupted cases executionErr ∧ no_permission_error classes ∧ ~ broken cases ∧
    ~ decided cases classes exhausted;
  jd_failed : code = 1 <-> decided cases classes exhausted ∧ failed cases;
  jd_passed : code = 0 <-> decided cases classes exhausted ∧ ~ failed cases;
  jd_incompatible : outcome = ProfileIncompatible <-> code = 1;
  jd_degraded : outcome = ProfileDegraded <-> code = 0 ∧ warned cases;
  jd_compatible : outcome = ProfileCompatible <-> code = 0 ∧ ~ warned cases;
  jd_dimension : (outcome, dimension) ∈ [(ProfileCompatible, DimensionPass); (ProfileDegraded, DimensionDegraded);
    (ProfileIncompatible, DimensionFail); (ProfileInconclusive, DimensionInconclusive)]
}.

Lemma conclusive_cases (cases : list CaseResult) :
  Forall conclusive cases <->
  Forall (fun c => ~ unfinished c ∧ crReasonCode c ≠ ReasonBudgetExhausted ∧ crVerdict c ≠ Some VerdictInconclusive) cases ∧
  Forall (fun c => crExecutionStatus c ≠ ExecutionErrored) cases ∧ Forall (fun c => crExecutionStatus c ≠ ExecutionCancelled) cases.
Proof. rewrite <- !Forall_and. apply Forall_iff. unfold conclusive. intros c. tauto. Qed.
Lemma conclusive_verdict v (cases : list CaseResult) :
  Forall conclusive cases ->
  Forall (fun c => unfinished c ∨ crVerdict c ≠ Some v) cases <-> Forall (fun c => crVerdict c ≠ Some v) cases.
Proof. rewrite !Forall_forall. intros H. split; intros G c Hc; specialize (H c Hc); specialize (G c Hc); [destruct H; tauto|tauto]. Qed.

Lemma Exists_as_not_Forall (P : CaseResult -> Prop) `{forall c, Decision (P c)} cases :
  Exists P cases <-> ~ Forall (fun c => ~ P c) cases.
Proof.
  split.
  - intros E F. rewrite Exists_exists in E. destruct E as (c & Hc & E). rewrite Forall_forall in F. by apply (F c).
  - intros N. apply not_Forall_Exists in N; [|apply _]. eapply Exists_impl; [exact N|]. intros c. apply dec_stable.
Qed.

(** The six flags [aggregate] decides on. *)
Lemma flags_of cases classes exhausted :
  let g := foldl mark_case (mkFlags false false exhausted false (bool_decide (~ no_permission_error classes)) false) cases in
  (hasCancelled g = true <-> Exists (fun c => crExecutionStatus c = ExecutionCancelled) cases) ∧
  (hasPermission g = true <-> ~ no_permission_error classes) ∧
  (hasInfrastructure g = true <-> broken cases) ∧
  (hasPermission g || hasInfrastructure g || (hasCancelled g || hasIncomplete g) = false <-> decided cases classes exhausted) ∧
  (Forall conclusive cases -> (hasFailure g = true <-> failed cases) ∧ (hasWarning g = true <-> warned cases)).
Proof.
  cbv zeta. destruct (mark_cases cases (mkFlags false false exhausted false (bool_decide (~ no_permission_error classes)) false))
    as (F & W & I & E & C & P). set (g := foldl _ _ _) in *. clearbody g. cbn in *.
  unfold broken, failed, warned, decided. rewrite !Exists_as_not_Forall by apply _. rewrite <- !not_false_iff_true.
  split_and!; [rewrite C; tauto|rewrite P, bool_decide_eq_false; by rewrite no_permission_stable|rewrite E; tauto| |].
  - rewrite !orb_false_iff, I, E, C, P, bool_decide_eq_false, conclusive_cases, no_permission_stable. tauto.
  - intros H. rewrite F, W, !conclusive_verdict by done. tauto.
Qed.

Lemma decided_facts cases classes executionErr exhausted : decided cases classes exhausted ->
  no_permission_error classes ∧ Forall conclusive cases ∧ ~ interrupted cases executionErr ∧ ~ broken cases.
Proof.
  intros (_ & N & C). split_and!; [done|done|intros [X _]|intros X]; apply Exists_as_not_Forall in X; try apply _; apply X;
    (eapply Forall_impl; [exact C|]); unfold conclusive; tauto.
Qed.

Lemma inconclusive_judged cases classes executionErr exhausted code :
  ~ decided cases classes exhausted -> code = 3 ∨ code = 4 ∨ code = 5 ∨ code = 130 ->
  (code = 130 <-> interrupted cases executionErr) ->
  (code = 5 <-> ~ interrupted cases executionErr ∧ ~ no_permission_error classes) ->
  (code = 3 <-> ~ interrupted cases executionErr ∧ no_permission_error classes ∧ broken cases) ->
  (code = 4 <-> ~ interrupted cases executionErr ∧ no_permission_error classes ∧ ~ broken cases) ->
  judged cases classes executionErr exhausted ProfileInconclusive DimensionInconclusive code.
Proof.
  intros N Hc A B C D. assert (code ≠ 0 ∧ code ≠ 1 ∧ code ∈ [0; 1; 3; 4; 5; 130]) as (Z0 & Z1 & Hin).
  { clear - Hc. rewrite !elem_of_cons. split_and!; [lia|lia|tauto]. }
  split; [exact Hin|exact A|exact B|exact C| | | | | | |].
  - rewrite D. clear - N. tauto.
  - split; [done|by intros []].
  - split; [done|by intros []].
  - by split.
  - split; [done|by intros []].
  - split; [done|by intros []].
  - rewrite !elem_of_cons. auto.
Qed.
Lemma decided_judged cases classes executionErr exhausted outcome dimension code : decided cases classes exhausted ->
  (code = 1 ∧ failed cases ∧ (outcome, dimension) = (ProfileIncompatible, DimensionFail) ∨
   code = 0 ∧ ~ failed cases ∧ warned cases ∧ (outcome, dimension) = (ProfileDegraded, DimensionDegraded) ∨
   code = 0 ∧ ~ failed cases ∧ ~ warned cases ∧ (outcome, dimension) = (ProfileCompatible, DimensionPass)) ->
  judged cases classes executionErr exhausted outcome dimension code.
Proof.
  intros D H. destruct (decided_facts _ _ executionErr _ D) as (N & _ & I & B).
  destruct H as [(-> & H & [= -> ->])|[(-> & H & G & [= -> ->])|(-> & H & G & [= -> ->])]].
  all: split; rewrite ?elem_of_cons; try tauto; try (split; [discriminate|tauto]).
  all: split; [discriminate|first [done|by intros [? _]]].
Qed.

Lemma aggregate_judged cases classes executionErr exhausted outcome dimension code :
  aggregate cases classes executionErr exhausted = (outcome, dimension, code) ->
  judged cases classes executionErr exhausted outcome dimension code.
Proof.
  unfold aggregate. fold (no_permission_error classes). destruct (flags_of cases classes exhausted) as (Hc & Hp & Hi & D & V).
  set (g := foldl _ _ _) in *. clearbody g.
  set (canceled := match executionErr with Some e => errors_Is e Canceled | None => false end).
  assert (hasCancelled g && canceled = true <-> interrupted cases executionErr) as Hx.
  { rewrite andb_true_iff, Hc. unfold interrupted, canceled. destruct executionErr as [e|]; [|naive_solver]. naive_solver. }
  destruct (hasPermission g || hasInfrastructure g || (hasCancelled g || hasIncomplete g)) eqn:Hg.
  - assert (~ decided cases classes exhausted) as ND by naive_solver.
    assert (no_permission_error classes ∨ ~ no_permission_error classes) as NP by (destruct (decide (no_permission_error classes)); tauto).
    destruct (hasCancelled g && canceled) eqn:Ex; [|destruct (hasPermission g) eqn:Ep; [|destruct (hasInfrastructure g) eqn:Ei; [|
      destruct (hasCancelled g || hasIncomplete g) eqn:Eo; [|done]]]]; intros [= <- <- <-];
      (apply inconclusive_judged; [done|lia|..]); (split; [intros ?; try done|intros ?; try done]); naive_solver.
  - pose proof (proj1 D eq_refl) as Dec. rewrite !orb_false_iff in Hg. destruct Hg as ((-> & ->) & -> & ->). cbn.
    destruct (V (proj2 (proj2 Dec))) as [Vf Vw]. intros H. apply decided_judged; [done|].
    destruct (hasFailure g), (hasWarning g); injection H as <- <- <-; naive_solver.
Qed.

Section Spec.
Context {O EvidenceFile RunFile Conn Body : Type} {env : RunEnvironment O}.
Context {evidence_fs : FileSystem O EvidenceFile} {runs_fs : RunFileSystem O RunFile} {net : Network O Conn Body}.
Context {lib : ProductLibrary} {addresses : AddressLibrary} {codec : EvidenceCodec} {runner_codec : RunnerCodec}.
Context {run_codec : RunCodec} {redaction : RedactionLibrary}.
Context {ro : RangeOrder string string} {hro : RangeOrder string (list string)} {iro : RangeOrder string Statemachine.itemState}.

(** The verdict of a report on the result of the executor. *)
Definition judged_report (r : ExecutionResult) (classes : gmap string ErrorClass) (executionErr : option error) (bundle : Bundle) : Prop :=
  exists dimension, buDimensions bundle = {["protocol" := dimension]} ∧
    judged (exCases r) classes executionErr (budget_exhausted r) (buOutcome bundle) dimension (buPrimaryExitCode bundle).

(** ** Before anything is sent *)
Definition absent (value raw : list ascii) : Prop := forall a b, raw ≠ a ++ value ++ b.

(** A plan that was checked, a credential for its target, and a redactor that
    knows the credential. *)
Record readied (request : ExecuteRequest) (p : prepared) (value : list ascii) : Prop := {
  rd_frozen : freeze (xqPlanned request) = Ok (ppdPlanned p);
  rd_valid : exists route, validatePlanned (ppdPlanned p) = Ok (ppdDerived p, route);
  rd_plan : PlanJSON (ppdPlanned p) = Ok (ppdPlanJSON p);
  rd_secret : exists o1 o2 headers names, resolveAuth (plTarget (ppdPlanned p)) o1 = (Ok (headers, value, names), o2);
  rd_long : tgAuth (plTarget (ppdPlanned p)) = None ∧ value = [] ∨ (8 <= length value)%nat;
  rd_canary : value ≠ [] -> value ∈ canaries (ppdRedactor p);
  rd_clean : canary_free (ppdRedactor p) (ppdPlanJSON p)
}.

Lemma resolveAuth_value target o headers value names o' :
  resolveAuth target o = (Ok (headers, value, names), o') -> tgAuth target = None ∧ value = [] ∨ value ≠ [].
Proof.
  unfold resolveAuth. destruct (tgAuth target) as [auth|]; [|intros [= <- <- <- <-]; by left].
  destruct run_Secrets as [resolve|]; [|done]. intros (v & s & _ & H)%bindM_Ok.
  apply bindM_Ok in H as ([] & s1 & [Hv _]%fail_if_Ok & H). apply bindM_Ok in H as (name & s2 & _ & [= _ <- _ _]).
  right. by intros ->.
Qed.
Lemma credential_canaries_ok value secrets : credential_canaries value = Ok secrets ->
  (value = [] ∨ (8 <= length value)%nat) ∧ (value ≠ [] -> value ∈ secrets).
Proof.
  unfold credential_canaries. case_decide as D; [intros [= <-]; apply nil_length_inv in D; naive_solver|].
  intros ([] & H%err_if_ok & [= <-])%bind_Ok. split; [right; lia|]. intros _. by apply list_elem_of_singleton.
Qed.
Lemma prepare_readies request o p o' : prepare request o = (Ok p, o') -> exists value, readied request p value.
Proof.
  unfold prepare. intros (planned & o1 & [Hf _]%lift_Ok & H)%bindM_Ok.
  apply bindM_Ok in H as ([derived route] & o2 & [Hv _]%lift_Ok & H).
  apply bindM_Ok in H as (planJSON & o3 & [Hp%wrap_ok _]%lift_Ok & H).
  apply bindM_Ok in H as ([] & o4 & _ & H). apply bindM_Ok in H as ([[headers value] names] & o5 & Hs & H).
  apply bindM_Ok in H as (secrets & o6 & [Hc _]%lift_Ok & H).
  apply bindM_Ok in H as (redactor & o7 & [Hr%wrap_ok _]%lift_Ok & H).
  apply bindM_Ok in H as ([] & o8 & [Hn%wrap_ok%AssertNoCanary_spec _]%lift_Ok & H). cbv zeta in H.
  destruct (NewMemoryRegistry _ _) as [registered registry]. apply bindM_Ok in H as ([] & o9 & _ & H).
  apply bindM_Ok in H as (store & o10 & _ & H). apply bindM_Ok in H as (client & o11 & _ & H).
  apply bindM_Ok in H as (runner & o12 & _ & H). apply bindM_Ok in H as (resolver & o13 & _ & [= <- _]).
  exists value. pose proof (resolveAuth_value _ _ _ _ _ _ Hs) as Hauth. apply credential_canaries_ok in Hc as [Hl Hc].
  split; cbn; [done|by exists route|done|by eauto 6|naive_solver| |done].
  intros Hne. unfold NewRedactor in Hr. apply bind_Ok in Hr as ([] & _ & Hr). apply bind_Ok in Hr as ([] & _ & [= <-]). by apply Hc.
Qed.

(** ** The report *)
Record written (p : prepared) (r : ExecutionResult) (classes : gmap string ErrorClass) (executionErr : option error) (bundle : Bundle) (encoded : list ascii)
    : Prop := {
  wr_refs : buIntentPlanRef bundle = emObjectRef (ipMeta (plIntent (ppdPlanned p))) ∧
            buResolvedPlanRef bundle = emObjectRef (rpMeta (plResolved (ppdPlanned p)));
  wr_run : buRunID bundle = exRunID r ∧ buCases bundle = exCases r;
  wr_valid : Bundle_Validate bundle = Ok tt ∧ CanonicalMarshal Marshal_Bundle bundle = Ok encoded;
  wr_clean : canary_free (ppdRedactor p) encoded ∧ exists report, RedactJSON (ppdRedactor p) encoded = Ok (encoded, report);
  wr_judged : judged_report r classes executionErr bundle
}.

Lemma buildReport_written p r classes executionErr bundle :
  buildReport (ppdPlanned p) (ppdDerived p) r classes executionErr = Ok bundle ->
  (buRunID bundle = exRunID r ∧ buCases bundle = exCases r) ∧ judged_report r classes executionErr bundle.
Proof.
  unfold buildReport. cbv zeta. intros (d1 & _ & H)%bind_Ok. apply bind_Ok in H as (d2 & _ & H). apply bind_Ok in H as (d3 & _ & H).
  apply bind_Ok in H as ([] & _ & H). destruct (aggregate _ _ _ _) as [[outcome dimension] code] eqn:A.
  apply bind_Ok in H as ([] & _ & [= <-]). cbn. split; [done|]. exists dimension. split; [done|]. by eapply aggregate_judged.
Qed.
Lemma checked_report_written p r executionErr classes bundle encoded :
  checked_report p r executionErr classes = Ok (bundle, encoded) -> written p r classes executionErr bundle encoded.
Proof.
  unfold checked_report. cbv zeta. intros (b & Hb%wrap_ok%buildReport_written & H)%bind_Ok.
  apply bind_Ok in H as ([] & Hrefs%err_if_ok & H). apply bind_Ok in H as (raw & He%wrap_ok & H).
  apply bind_Ok in H as ([] & Hn%wrap_ok%AssertNoCanary_spec & H). apply bind_Ok in H as ([redacted report] & Hj%wrap_ok & H).
  apply bind_Ok in H as ([] & Heq%err_if_ok & [= <- <-]). apply dec_stable in Heq as <-.
  unfold report_JSON in He. apply bind_Ok in He as ([] & Hv & He). destruct Hb as [Hr Hb].
  split; try done; [|by split; [|exists report]].
  split; apply dec_stable; tauto.
Qed.


Lemma canary_absent redactor value raw : value ∈ canaries redactor -> canary_free redactor raw -> absent value raw.
Proof. intros Hin Hf a b ->. by apply (Hf value a b Hin). Qed.

Lemma Execute_inv request o x executionErr o' : Execute request o = (Ok (x, executionErr), o') ->
  exists p o1 o2 classes, prepare request o = (Ok p, o1) ∧
    perform p o1 = (Ok (xnExecutorResult x, executionErr, classes), o2) ∧
    written p (xnExecutorResult x) classes executionErr (xnReport x) (xnReportJSON x) ∧
    persist request p (exRunID (xnExecutorResult x)) (xnReportJSON x) o2 = (Ok (xnRecordDigest x), o').
Proof.
  unfold Execute. intros (p & o1 & Hp & H)%bindM_Ok. apply bindM_Ok in H as ([[r e] classes] & o2 & Hr & H).
  apply bindM_Ok in H as ([bundle encoded] & o3 & [Hc ->]%lift_Ok & H). apply bindM_Ok in H as (digest & o4 & Hs & H).
  injection H as <- <- <-. cbn. exists p, o1, o2, classes. split_and!; [done|done|by eapply checked_report_written|done].
Qed.


(** [C4] What a run leaves behind is clean: a run that ends in an execution has
    stored, as its last act and under the digest it returns, one record of its
    report and its plan.  The plan was checked against the built-in
    resolution; the report names it and is the canonical encoding of a valid
    bundle, which redaction leaves as it is; and the credential, which has at
    least eight bytes, occurs in neither. *)
Theorem stored_runs_are_clean request o x executionErr o' :
  Execute request o = (Ok (x, executionErr), o') ->
  exists p value runs o1, readied request p value ∧
    RunStore.Put runs (buRunID (xnReport x)) (mkPayload (xnReportJSON x) (ppdPlanJSON p)) o1 = (Ok (xnRecordDigest x), o') ∧
    (tgAuth (plTarget (ppdPlanned p)) ≠ None ->
     (8 <= length value)%nat ∧ absent value (xnReportJSON x) ∧ absent value (ppdPlanJSON p)) ∧
    Bundle_Validate (xnReport x) = Ok tt ∧ CanonicalMarshal Marshal_Bundle (xnReport x) = Ok (xnReportJSON x) ∧
    (exists report, RedactJSON (ppdRedactor p) (xnReportJSON x) = Ok (xnReportJSON x, report)) ∧
    buIntentPlanRef (xnReport x) = emObjectRef (ipMeta (plIntent (ppdPlanned p))) ∧
    buResolvedPlanRef (xnReport x) = emObjectRef (rpMeta (plResolved (ppdPlanned p))).
Proof.
  intros (p & o1 & o2 & classes & Hp & _ & [[R1 R2] [W _] [V1 V2] [N S] _] & H)%Execute_inv.
  apply prepare_readies in Hp as [value R]. apply bindM_Ok in H as ([] & o3 & _ & H). apply bindM_Ok in H as (runs & o4 & _ & H%wrapM_Ok).
  exists p, value, runs, o4. rewrite W. split_and!; try done.
  intros Ha. destruct (rd_long _ _ _ R) as [[? _]|L]; [done|].
  assert (value ∈ canaries (ppdRedactor p)) as C by (apply (rd_canary _ _ _ R); intros ->; cbn in L; lia).
  split_and!; [done| |]; eapply canary_absent; [done|done|done|apply R].
Qed.
End Spec.

(** ** A concrete run *)
Definition sample_response : object :=
  [("id", JString "r"); ("object", JString "response"); ("created_at", JNumber "7"); ("status", JString "completed");
   ("model", JString "model"); ("output", JArray [])].
#[local] Instance sample_exchange : ExchangeLibrary := {
  exchange_native := ProductPlanSpec.sample_native;
  exchange_any _ := Ok (JObject sample_response);
  exchange_object raw := Ok (Some (sample_response ++
    [("type", JString (if decide (raw = list_ascii_of_string "{1}") then "response.created" else "response.completed"));
     ("response", JObject sample_response)]));
  ToLower s := s;
  EqualFold s t := bool_decide (s = t);
  ParseMediaType s := Ok s
}.
#[local] Instance sample_registry_library : RegistryLibrary := {
  registry_exchange := sample_exchange;
  ParseRequestURI p := Ok (mkURL "" "" p "" "" false);
  unmarshal_map raw := Ok (Some [("stream", JBool (bool_decide (raw = list_ascii_of_string "streaming")))])
}.
Section Sample.
Context (ready : PlannedRun).
#[local] Instance sample_product : ProductLibrary := {
  product_registry := sample_registry_library;
  url_RawPath _ := "";
  url_EscapedPath _ := "";
  origin_String scheme host := scheme +:+ "://" +:+ host;
  Marshal_manifest _ := Ok [];
  Marshal_request v :=
    Ok (match v with
        | JObject ms => match lookup_entry "stream" ms with Some (JBool true) => list_ascii_of_string "streaming" | _ => list_ascii_of_string "plain" end
        | _ => []
        end);
  Marshal_strings _ := Ok [];
  Marshal_intent _ := Ok [];
  Marshal_resolved _ := Ok [];
  Marshal_IntentPlan _ := Ok [];
  Marshal_ResolvedRunPlan _ := Ok [];
  Marshal_PersistedPlan _ := Ok (list_ascii_of_string "plan");
  Marshal_PlannedRun _ := Ok [];
  Unmarshal_PlannedRun _ := Ok ready;
  Decode_PersistedPlan _ := Ok (newPersistedPlan ready, Err io_EOF)
}.
Definition sample_plan : PlannedRun :=
  match (Build (env := ProductPlanSpec.sample_environment) (ProductPlanSpec.sample_request "env://A") true).1 with
  | Ok p => p | Err _ => ProductPlanSpec.empty_planned end.
End Sample.
Definition sample_ready : PlannedRun := Eval vm_compute in sample_plan ProductPlanSpec.empty_planned.
#[local] Instance run_product : ProductLibrary := sample_product sample_ready.
#[local] Instance sample_decoder : AnyDecoder := {
  any_library := ProductPlanSpec.sample_json; decode_any raw := Ok (JString (string_of_list_ascii raw))
}.
#[local] Instance sample_redaction : RedactionLibrary := {
  redaction_decoder := sample_decoder;
  lower s := s;
  Marshal_any v := match v with JString s => Ok (list_ascii_of_string s) | _ => Err io_EOF end
}.
Record Site := mkSite { evidence_disk : Disk; runs_disk : Disk }.
Definition at_evidence {A} (f : Disk -> A * Disk) (s : Site) : A * Site :=
  let '(a, d) := f (evidence_disk s) in (a, mkSite d (runs_disk s)).
Definition at_runs {A} (f : Disk -> A * Disk) (s : Site) : A * Site :=
  let '(a, d) := f (runs_disk s) in (a, mkSite (evidence_disk s) d).
#[local] Instance site_evidence : FileSystem Site Z := {
  fs_ctxErr := mret tt;
  fs_MkdirAll := at_evidence fs_MkdirAll;
  fs_Lstat p := at_evidence (fs_Lstat p);
  fs_Mkdir p := at_evidence (fs_Mkdir p);
  fs_Open p := at_evidence (fs_Open p);
  fs_CreateTemp p := at_evidence (fs_CreateTemp p);
  fs_Link p q := at_evidence (fs_Link p q);
  fs_Remove p := at_evidence (fs_Remove p);
  file_Stat f := at_evidence (file_Stat f);
  file_Chmod f := at_evidence (file_Chmod f);
  file_Write f data := at_evidence (file_Write f data);
  file_Sync f := at_evidence (file_Sync f);
  file_Close f := at_evidence (file_Close f);
  file_ReadAll f n := at_evidence (file_ReadAll f n)
}.
#[local] Instance site_run_files : FileSystem Site Z := {
  fs_ctxErr := mret tt;
  fs_MkdirAll := at_runs fs_MkdirAll;
  fs_Lstat p := at_runs (fs_Lstat p);
  fs_Mkdir p := at_runs (fs_Mkdir p);
  fs_Open p := at_runs (fs_Open p);
  fs_CreateTemp p := at_runs (fs_CreateTemp p);
  fs_Link p q := at_runs (fs_Link p q);
  fs_Remove p := at_runs (fs_Remove p);
  file_Stat f := at_runs (file_Stat f);
  file_Chmod f := at_runs (file_Chmod f);
  file_Write f data := at_runs (file_Write f data);
  file_Sync f := at_runs (file_Sync f);
  file_Close f := at_runs (file_Close f);
  file_ReadAll f n := at_runs (file_ReadAll f n)
}.
#[local] Instance site_runs : RunFileSystem Site Z := {
  run_files := site_run_files;
  fs_MkdirTemp := at_runs fs_MkdirTemp;
  fs_RemoveAll p := at_runs (fs_RemoveAll p);
  fs_Rename p q := at_runs (fs_Rename p q);
  fs_ReadDir := at_runs fs_ReadDir;
  fs_OpenExclusive p := at_runs (fs_OpenExclusive p);
  fs_ChmodRoot := mret tt;
  info_Perm _ := 448
}.
Definition sample_secret : list ascii := list_ascii_of_string "sk-secret-value".
#[local] Instance sample_run_environment : RunEnvironment Site := {
  run_Now s := (7, s);
  run_NewID := mret ExecutorRun.sample_id;
  run_ctxErr s := (None, s);
  run_since s := (0, s);
  run_Secrets := Some (fun _ => mret sample_secret);
  run_BeforePersist := None;
  root_MkdirAll _ := mret tt;
  root_Lstat _ := mret (mkFileInfo false true false 0 1, 448);
  root_Chmod _ := mret tt;
  Marshal_Bundle _ := Ok (list_ascii_of_string "report")
}.
#[local] Instance sample_addresses : AddressLibrary := {
  parse_url s :=
    if decide (s = "https://example.test") then Ok (mkURL "https" "example.test" "" "" "" false)
    else Ok (mkURL "" "" s "" "" false);
  url_Hostname u := Host u;
  url_Port _ := "";
  resolve_path _ reference := URLPath reference;
  NewRequest _ target := Ok target;
  SplitHostPort s := Err (ErrorNew (Text "address"));
  ParseAddr _ := Err (ErrorNew (Text "not a literal"));
  Addr_String a := "v4";
  redirect_headers headers _ _ := headers;
  host_lower s := s;
  fold_equal a b := bool_decide (a = b)
}.
Definition sample_stream : string :=
  "event: response.created" +:+ nl +:+ "data: {1}" +:+ nl +:+ nl +:+ "event: response.completed" +:+ nl +:+ "data: {2}" +:+ nl +:+ nl.
#[local] Instance sample_network : Network Site unit (list ascii) := {
  net_ctxErr := mret tt;
  LookupNetIP _ := mret [];
  DialContext _ _ := mret tt;
  RoundTrip _ _ headers _ :=
    let accept := default [] (headers !! "Accept") in
    mret (mkAnswer 200 {["Content-Type" := accept]} "HTTP/1.1" None
            (list_ascii_of_string (if decide (accept = ["text/event-stream"]) then sample_stream else "{}")));
  ReadLimited body n := mret (take (Z.to_nat n) body);
  net_elapsed w := (5, w)
}.

(** The evidence of the attempts; each has an encoding of its own. *)
Definition sample_records : list (Z * string * Direction * option Z) :=
  [(1, "http_request", DirectionCoreToTarget, None); (2, "http_response_metadata", DirectionTargetToCore, None);
   (3, "http_response_body", DirectionTargetToCore, None); (3, "sse_logical_event", DirectionTargetToCore, Some 1);
   (4, "sse_logical_event", DirectionTargetToCore, Some 2)].
Definition evidence_text (n : Z) (kind : string) : list ascii := list_ascii_of_string (kind +:+ pretty n).
Definition sample_item (n : Z) (kind : string) (direction : Direction) (event : option Z) : Evidence.Evidence :=
  let digest := NewDigest (evidence_text n kind) in
  let payload := mkObjectRef "Payload" "" (NewDigest (list_ascii_of_string "{}")) in
  mkEvidence (mkEnvelopeMeta EvidenceSchemaVersion "Evidence" "" digest (mkObjectRef "Evidence" "" digest)
                (emProducer (ipMeta (plIntent sample_ready))) 7 ∅)
    digest ExecutorRun.sample_id ExecutorRun.sample_id ExecutorRun.sample_id n LayerUpstreamApplication InstrumentationDirect direction kind
    0 None event (Some payload) (Some (refContentDigest payload)) "" [] [].
#[local] Instance sample_codec : EvidenceCodec := {
  Marshal_Evidence e := Ok (evidence_text (eviSequence e) (eviKind e));
  Marshal_projection p := Ok (evidence_text (epSequence p) (epEvidenceKind p));
  Decode_Evidence raw :=
    match list_find (fun '(n, kind, _, _) => evidence_text n kind = raw) sample_records with
    | Some (_, (n, kind, direction, event)) => Ok (sample_item n kind direction event, Err io_EOF)
    | None => Err io_EOF
    end
}.
#[local] Instance sample_runner_codec : RunnerCodec := {
  Marshal_projected _ := Ok (list_ascii_of_string "{}");
  Decode_fields fields _ := Ok (fields, Err io_EOF)
}.
Definition sample_record (runID : InstanceID) : RunRecord := record_of runID (mkPayload (list_ascii_of_string "report") (list_ascii_of_string "plan")).
#[local] Instance sample_run_codec : RunCodec := {
  Marshal_recordV2 record := Ok (list_ascii_of_string "record");
  Marshal_pointer pointer := Ok (list_ascii_of_string "pointer");
  Unmarshal_header _ := Ok RecordSchema;
  Decode_recordV2 raw := Ok (sample_record ExecutorRun.sample_id, Err (Sentinel "EOF"));
  Decode_recordV1 _ := Err (ErrorNew (Text "no legacy record"));
  Decode_pointer raw :=
    Ok (mkLatestPointer (RecordSchema +:+ ":latest") ExecutorRun.sample_id (NewDigest (list_ascii_of_string "record")), Err (Sentinel "EOF"))
}.
Definition sample_execute : ExecuteRequest := mkExecuteRequest sample_ready "/data" "".
Definition sample_site : Site := mkSite empty_disk empty_disk.
Definition sample_result : result error (Execution * option error) * Site := Execute sample_execute sample_site.

(** The exit code of the report, the verdicts, and the number of stored
    runs. *)
Definition summary (r : result error (Execution * option error) * Site) : option (Z * list (option Verdict) * nat) :=
  match r with
  | (Ok (x, None), site) =>
      Some (buPrimaryExitCode (xnReport x), crVerdict <$> buCases (xnReport x),
            match (RunStore.List (disk_run_store 100) (runs_disk site)).1 with Ok runs => length runs | Err _ => 0%nat end)
  | _ => None
  end.
(** The four scenarios are sent, recorded, judged and stored. *)
Example sample_run_passes : summary sample_result = Some (0, replicate 4 (Some VerdictPass), 1%nat).
Proof. vm_compute. reflexivity. Qed.

Lemma stored_runs_are_clean_witness :
  exists x o' p value, Execute sample_execute sample_site = (Ok (x, None), o') ∧ readied sample_execute p value ∧
    (tgAuth (plTarget (ppdPlanned p)) ≠ None -> absent value (xnReportJSON x)).
Proof.
  pose proof sample_run_passes as S. unfold sample_result in S.
  destruct (Execute sample_execute sample_site) as [[[x [e|]]|e] o'] eqn:E; [discriminate S| |discriminate S].
  destruct (stored_runs_are_clean sample_execute sample_site x None o' E) as (p & value & runs & o1 & R & _ & H & _).
  exists x, o', p, value. split; [reflexivity|]. split; [exact R|]. intros Ha. exact (proj1 (proj2 (H Ha))).
Defined.
