(* ===== verification/Render.v ===== *)
(** * internal/report: rendering (render.go, har.go, and Decode of report.go)

    A Go string is its bytes; [runes] and [of_runes] are the conversions from
    and to []rune.  Of package unicode, the ASCII range, the control characters
    and the category Cf (Unicode 15) are written out; the rest, the encoders
    of encoding/json, encoding/xml and html/template, and [fmt.Sprint] of an
    untyped value are [RenderLibrary]. *)
From Stdlib Require Import ZArith Ascii String Lia.
From stdpp Require Import base gmap sets list strings pretty.
From S2P Require Import Prelude Sorting Schema Results Canonical Documents Report OracleSchema Redaction.
Local Open Scope Z_scope.
Local Open Scope string_scope.
Local Open Scope list_scope.

(** ** Runes *)
Definition RuneError : Z := 65533.
Definition scalar_value (r : Z) : bool :=
  bool_decide (0 <= r <= 1114111) && negb (bool_decide (55296 <= r <= 57343)).

Definition zbyte (c : ascii) : Z := Z.of_N (byte c).
Definition byte_z (z : Z) : ascii := ascii_of_N (Z.to_N z).
Definition continuation (c : ascii) : bool := bool_decide (128 <= zbyte c <= 191).

(** [utf8.AppendRune]. *)
Definition encode_rune (r : Z) : list ascii :=
  let r := if scalar_value r then r else RuneError in
  if decide (r < 128) then [byte_z r]
  else if decide (r < 2048) then [byte_z (192 + r / 64); byte_z (128 + r mod 64)]
  else if decide (r < 65536) then [byte_z (224 + r / 4096); byte_z (128 + r / 64 mod 64); byte_z (128 + r mod 64)]
  else [byte_z (240 + r / 262144); byte_z (128 + r / 4096 mod 64); byte_z (128 + r / 64 mod 64); byte_z (128 + r mod 64)].
Definition of_runes (rs : list Z) : string := string_of_list_ascii (concat (encode_rune <$> rs)).

(** The value of two, three or four bytes; [None] is an encoding error, also
    when the encoding is longer than needed or the value is no scalar. *)
Definition two_bytes (a b : ascii) : option Z :=
  let r := (zbyte a - 192) * 64 + (zbyte b - 128) in
  if decide (192 <= zbyte a < 224 ∧ continuation b = true ∧ 128 <= r) then Some r else None.
Definition three_bytes (a b c : ascii) : option Z :=
  let r := (zbyte a - 224) * 4096 + (zbyte b - 128) * 64 + (zbyte c - 128) in
  if decide (224 <= zbyte a < 240 ∧ continuation b = true ∧ continuation c = true ∧ 2048 <= r ∧ scalar_value r = true)
  then Some r else None.
Definition four_bytes (a b c d : ascii) : option Z :=
  let r := (zbyte a - 240) * 262144 + (zbyte b - 128) * 4096 + (zbyte c - 128) * 64 + (zbyte d - 128) in
  if decide (240 <= zbyte a < 248 ∧ continuation b = true ∧ continuation c = true ∧ continuation d = true ∧
             65536 <= r <= 1114111)
  then Some r else None.

(** A byte that starts no encoding is an error of width 1. *)
Fixpoint decode_runes (s : list ascii) : list Z :=
  match s with
  | [] => []
  | a :: s1 =>
      if decide (zbyte a < 128) then zbyte a :: decode_runes s1 else
      match s1 with
      | [] => RuneError :: decode_runes s1
      | b :: s2 =>
          match two_bytes a b with
          | Some r => r :: decode_runes s2
          | None =>
              match s2 with
              | [] => RuneError :: decode_runes s1
              | c :: s3 =>
                  match three_bytes a b c with
                  | Some r => r :: decode_runes s3
                  | None =>
                      match s3 with
                      | [] => RuneError :: decode_runes s1
                      | d :: s4 => match four_bytes a b c d with
                                   | Some r => r :: decode_runes s4
                                   | None => RuneError :: decode_runes s1
                                   end
                      end
                  end
              end
          end
      end
  end.
Definition runes (s : string) : list Z := decode_runes (list_ascii_of_string s).

(** [unicode.IsControl] and the table [unicode.Cf]. *)
Definition IsControl (r : Z) : bool := bool_decide (0 <= r <= 31 ∨ 127 <= r <= 159).
Definition Cf_ranges : list (Z * Z) :=
  [(173, 173); (1536, 1541); (1564, 1564); (1757, 1757); (1807, 1807); (2192, 2193); (2274, 2274); (6158, 6158);
   (8203, 8207); (8234, 8238); (8288, 8292); (8294, 8303); (65279, 65279); (65529, 65531); (69821, 69821);
   (69837, 69837); (78896, 78911); (113824, 113827); (119155, 119162); (917505, 917505); (917536, 917631)].
Definition Is_Cf (r : Z) : bool := existsb (fun '(lo, hi) => bool_decide (lo <= r <= hi)) Cf_ranges.

Section Render.
Context {lib : DocumentLibrary} {ro : RangeOrder string string}.

(** What is outside: package unicode from U+0080 on, and the encoders. *)
Record junitMessage := mkJunitMessage { jmMessage : string; jmText : string }.
Record junitCase := mkJunitCase {
  jcName : string; jcClassname : string; jcFailure : option junitMessage; jcError : option junitMessage;
  jcSkipped : option junitMessage
}.
Record junitSuite := mkJunitSuite {
  jsName : string; jsTests : Z; jsFailures : Z; jsErrors : Z; jsSkipped : Z; jsCases : list junitCase
}.
Record junitSuites := mkJunitSuites {
  jtName : string; jtTests : Z; jtFailures : Z; jtErrors : Z; jtSkipped : Z; jtSuites : list junitSuite
}.

Record sarifRule := mkSarifRule { srID : string; srName : string; srShortDescription : string }.
(** The members of [Properties]. *)
Record sarifProperties := mkSarifProperties {
  spScenarioID : string; spFaultDomain : string; spFaultFamily : FaultFamily; spConfidence : float64; spFingerprint : string;
  spNotSourceCode : bool
}.
Record sarifResult := mkSarifResult { saRuleID : string; saLevel : string; saMessage : string; saProperties : sarifProperties }.
Record sarifLog := mkSarifLog {
  slVersion : string; slSchema : string; slName : string; slInformationURI : string; slSemanticVersion : string;
  slRules : list sarifRule; slResults : list sarifResult
}.

Record assertionPresentation := mkAssertionPresentation { apID : string; apExpected : string; apObserved : string }.
Record findingPresentation := mkFindingPresentation { fpCategory : string; fpFaultDomain : string; fpRemediation : string }.
Record casePresentation := mkCasePresentation {
  cpScenarioID : string;
  cpScenarioName : string;
  cpPlanDisposition : PlanDisposition;
  cpExecutionStatus : ExecutionStatus;
  cpLabel : string;
  cpReason : string;
  cpDetailed : bool;
  cpCategory : string;
  cpFaultDomain : string;
  cpNextAction : string;
  cpAssertions : list assertionPresentation;
  cpFindings : list findingPresentation
}.
Record htmlReportView := mkHtmlReportView {
  hvBundle : Bundle; hvCheckResult : string; hvPresentedConditions : list Condition; hvCases : list casePresentation
}.

(** A HAR entry without its fixed members; times are in microseconds, which
    the encoder divides by 1000. *)
Record harEntry := mkHarEntry {
  heStarted : Time; heMicroseconds : Z; heMethod : string; heURL : string; heRequest : list ascii; heStatus : Z;
  heResponse : list ascii; heComment : string
}.
Record harLog := mkHarLog { hlVersion : string; hlCreator : string; hlCreatorVersion : string; hlEntries : list harEntry }.

Class RenderLibrary := {
  unicode_ToUpper : Z -> Z;
  unicode_ToLower : Z -> Z;
  unicode_IsLetter : Z -> bool;
  unicode_IsDigit : Z -> bool;
  unicode_IsSpace : Z -> bool;
  Marshal_value : message -> result error (list ascii);
  fmt_Sprint : message -> string;
  xml_MarshalIndent : junitSuites -> result error (list ascii);
  xml_Header : list ascii;
  sarif_MarshalIndent : sarifLog -> result error (list ascii);
  template_Execute : htmlReportView -> result error (list ascii);
  har_MarshalIndent : harLog -> result error (list ascii);
  build_Version : string;
  (** a strict [Decode] of a bundle, and what a second one answers *)
  Decode_Bundle : list ascii -> result error (Bundle * result error unit)
}.
Context {rl : RenderLibrary}.

Definition rune_upper (r : Z) : Z :=
  if decide (97 <= r <= 122) then r - 32 else if decide (r < 128) then r else unicode_ToUpper r.
Definition rune_lower (r : Z) : Z :=
  if decide (65 <= r <= 90) then r + 32 else if decide (r < 128) then r else unicode_ToLower r.
Definition IsDigit (r : Z) : bool := if decide (r < 128) then bool_decide (48 <= r <= 57) else unicode_IsDigit r.
Definition IsLetter (r : Z) : bool :=
  if decide (r < 128) then bool_decide (65 <= r <= 90 ∨ 97 <= r <= 122) else unicode_IsLetter r.
Definition IsSpace (r : Z) : bool := if decide (r < 128) then bool_decide (9 <= r <= 13 ∨ r = 32) else unicode_IsSpace r.
Definition strings_ToUpper (s : string) : string := of_runes (rune_upper <$> runes s).
Definition strings_ToLower (s : string) : string := of_runes (rune_lower <$> runes s).

(** ** Text that is safe to print *)
Definition ESC : Z := 27.
Definition BEL : Z := 7.

(** What is left after the sequence; the argument is what follows ESC. *)
Fixpoint after_csi (rs : list Z) : list Z :=
  match rs with
  | [] => []
  | r :: rest => if decide (64 <= r <= 126) then rest else after_csi rest
  end.
Fixpoint after_osc (rs : list Z) : list Z :=
  match rs with
  | [] => []
  | r :: rest =>
      if decide (r = BEL) then rest
      else match rest with
           | next :: rest' => if decide (r = ESC ∧ next = 92) then rest' else after_osc rest
           | [] => after_osc rest
           end
  end.
Definition skipEscapeSequence (rs : list Z) : list Z :=
  match rs with
  | [] => []
  | 91 :: rest => after_csi rest
  | 93 :: rest => after_osc rest
  | _ :: rest => rest
  end.

(** Every turn consumes a rune: their number is enough fuel. *)
Fixpoint safe_runes (fuel : nat) (rs : list Z) : list Z :=
  match fuel, rs with
  | S fuel, r :: rest =>
      if decide (r = ESC) then safe_runes fuel (skipEscapeSequence rest)
      else (if IsControl r || Is_Cf r then 32 else r) :: safe_runes fuel rest
  | _, _ => []
  end.
Definition safeLine (value : string) : string :=
  let rs := runes value in of_runes (safe_runes (length rs) rs).

(** [strings.NewReplacer] of single bytes replaces byte by byte. *)
Definition backslash : ascii := ascii_of_N 92.
Definition quote : ascii := ascii_of_N 34.
Definition backslashed (c : ascii) : list ascii := [backslash; c].
Definition inline_byte (c : ascii) : list ascii :=
  if is_one_of "\`*_[]" c then backslashed c
  else if decide (c = "<"%char) then list_ascii_of_string "&lt;"
  else if decide (c = ">"%char) then list_ascii_of_string "&gt;"
  else if decide (c = "&"%char) then list_ascii_of_string "&amp;"
  else [c].
Definition replace_bytes (f : ascii -> list ascii) (s : string) : string :=
  string_of_list_ascii (concat (f <$> list_ascii_of_string s)).
Definition markdownInline (value : string) : string := replace_bytes inline_byte (safeLine value).
Definition cell_byte (c : ascii) : list ascii := if decide (c = "|"%char) then backslashed c else [c].
Definition markdownCell (value : string) : string := replace_bytes cell_byte (markdownInline value).

(** ** Presentation *)
Definition humanCheckResult (outcome : ProfileOutcome) : string :=
  if decide (outcome = ProfileCompatible) then "checks passed"
  else if decide (outcome = ProfileDegraded) then "checks passed with warnings"
  else if decide (outcome = ProfileIncompatible) then "checks failed"
  else "checks inconclusive".

(** [strings.TrimSpace] of a valid string. *)
Fixpoint trim_left (rs : list Z) : list Z :=
  match rs with
  | [] => []
  | r :: rest => if IsSpace r then trim_left rest else rs
  end.
Definition trim_runes (rs : list Z) : list Z := rev (trim_left (rev (trim_left rs))).
Definition safeFallback (value fallback : string) : string :=
  let value := of_runes (trim_runes (runes (safeLine value))) in
  if decide (value = "") then fallback else value.

Definition two_quotes : string := String quote (String quote "").
Definition displayValue (value : option message) : string :=
  match value with
  | None => "not recorded"
  | Some (Text text) => if decide (text = "") then two_quotes else safeLine text
  | Some value =>
      match CanonicalMarshal (lib := document_json) Marshal_value value with
      | Err _ => safeLine (fmt_Sprint value)
      | Ok encoded => safeLine (string_of_list_ascii encoded)
      end
  end.

(** [strings.FieldsFunc]: the maximal runs of runes that are not separators. *)
Fixpoint fields_func (separator : Z -> bool) (field rs : list Z) : list (list Z) :=
  let closed := match field with [] => [] | _ => [field] end in
  match rs with
  | [] => closed
  | r :: rest => if separator r then closed ++ fields_func separator [] rest else fields_func separator (field ++ [r]) rest
  end.
Definition allDigits (value : list Z) : bool := match value with [] => false | _ => forallb IsDigit value end.

(** What follows the first number that is not the last part. *)
Fixpoint after_number (parts : list (list Z)) : option (list (list Z)) :=
  match parts with
  | part :: rest => if allDigits part && negb (bool_decide (rest = [])) then Some rest else after_number rest
  | [] => None
  end.
Definition known_words : list (string * string) :=
  [("openai", "OpenAI"); ("api", "API"); ("http", "HTTP"); ("https", "HTTPS"); ("sse", "SSE"); ("id", "ID"); ("json", "JSON")].
Definition word_of (part : list Z) : string :=
  let lowered := rune_lower <$> part in
  match lookup_entry (of_runes lowered) known_words with
  | Some word => word
  | None => of_runes (match lowered with r :: rest => rune_upper r :: rest | [] => [] end)
  end.
Definition humanScenarioName (identifier : string) : string :=
  let parts := fields_func (fun r => negb (IsLetter r) && negb (IsDigit r)) [] (runes (safeLine identifier)) in
  let parts := default parts (after_number parts) in
  match word_of <$> filter (fun part => allDigits part = false) parts with
  | [] => "Unnamed scenario"
  | words => String.concat " " words
  end.

Definition presentFinding (finding : Finding) : findingPresentation :=
  mkFindingPresentation (safeFallback (fiCategory finding) "not recorded") (safeFallback (fiFaultDomain finding) "not attributed")
    (safeLine (fiRemediationHint finding)).
Definition presentAssertion (a : AssertionResult) : assertionPresentation :=
  mkAssertionPresentation (safeFallback (arAssertionID a) "unnamed") (displayValue (arExpected a)) (displayValue (arObserved a)).
Definition next_action : string :=
  "Review the expected and observed prerequisite with the saved evidence; no fault domain was attributed.".
Definition detailed (r : CaseResult) : bool :=
  match crVerdict r with
  | Some v => bool_decide (v = VerdictFail ∨ v = VerdictWarn ∨ v = VerdictInconclusive)
  | None => false
  end.
Definition presentCase (r : CaseResult) : casePresentation :=
  let label := strings_ToUpper (match crVerdict r with Some v => v | None => crExecutionStatus r end) in
  let reason := safeLine (crReasonCode r) in
  let category := if decide (reason ≠ "") then reason else "not recorded" in
  let findings := presentFinding <$> crFindings r in
  let '(category, domain) := match findings with
                             | first :: _ => (fpCategory first, fpFaultDomain first)
                             | [] => (category, "not attributed")
                             end in
  mkCasePresentation (safeLine (crScenarioID r)) (humanScenarioName (crScenarioID r)) (crPlanDisposition r) (crExecutionStatus r)
    (safeLine label) reason (detailed r) category domain
    (if detailed r && bool_decide (findings = []) then next_action else "")
    (presentAssertion <$> filter (fun a => arVerdict a ≠ VerdictPass) (crAssertionResults r)) findings.

Definition parenthesizedReason (reason : string) : string :=
  if decide (reason = "") then "" else " (" +:+ reason +:+ ")".

(** [sortedCases] of report.go: a stable sort. *)
Fixpoint insert_case (r : CaseResult) (l : list CaseResult) : list CaseResult :=
  match l with
  | [] => [r]
  | x :: rest => if decide (string_lt (crScenarioID x) (crScenarioID r)) then x :: insert_case r rest else r :: l
  end.
Definition sortedCases (bundle : Bundle) : list CaseResult := foldr insert_case [] (buCases bundle).

(** ** Terminal *)
Definition newline : string := String (ascii_of_N 10) "".
(** [%d]. *)
Definition digits (n : Z) : string := pretty n.
(** [%-14s]: the width counts runes. *)
Fixpoint spaces (n : nat) : string := match n with O => "" | S n' => " " +:+ spaces n' end.
Definition padded (s : string) : string := s +:+ spaces (14 - length (runes s)).
Definition join (pieces : list string) : string := foldr String.append "" pieces.
Definition line (pieces : list string) : string := join pieces +:+ newline.

Definition terminal_finding (many : bool) (index : nat) (f : findingPresentation) : string :=
  let prefix := if many then "Finding " +:+ digits (Z.of_nat index + 1) else "Finding" in
  line ["  "; prefix; " category: "; fpCategory f] +:+ line ["  "; prefix; " fault domain: "; fpFaultDomain f] +:+
  (if decide (fpRemediation f ≠ "") then line ["  Remediation: "; fpRemediation f] else "").
Definition terminal_assertion (a : assertionPresentation) : string :=
  line ["  Assertion "; apID a] +:+ line ["    Expected: "; apExpected a] +:+ line ["    Observed: "; apObserved a].
Definition many_findings (item : casePresentation) : bool := bool_decide ((1 < length (cpFindings item))%nat).
Definition terminal_case (item : casePresentation) : string :=
  if cpDetailed item then
    line [padded (cpLabel item); " "; cpScenarioName item; " ["; cpScenarioID item; "]"] +:+
    (if decide (cpReason item ≠ "") then line ["  Reason: "; cpReason item] else "") +:+
    (if decide (length (cpFindings item) = 0%nat) then
       line ["  Finding category: "; cpCategory item] +:+ line ["  Fault domain: "; cpFaultDomain item] +:+
       line ["  Next action: "; cpNextAction item]
     else "") +:+
    join (imap (terminal_finding (many_findings item)) (cpFindings item)) +:+
    join (terminal_assertion <$> cpAssertions item)
  else line [padded (cpLabel item); " "; cpScenarioID item; parenthesizedReason (cpReason item)].
Definition terminal_condition (condition : Condition) : string :=
  line ["  ["; safeLine (cdCode condition); "] "; safeLine (cdMessage condition)].

Definition Terminal (bundle : Bundle) : result error (list ascii) :=
  Bundle_Validate bundle;;
  let counts := Count bundle in
  let d := buDenominators bundle in
  mret (list_ascii_of_string (
    line ["Run: "; buRunID bundle] +:+ line ["Result: "; strings_ToUpper (humanCheckResult (buOutcome bundle))] +:+
    line ["Cases: "; digits (CandidateCount d); " candidate / "; digits (ApplicableCount d); " applicable / ";
          digits (ExecutedCount d); " executed"] +:+
    line ["Verdicts: PASS "; digits (cPass counts); " | FAIL "; digits (cFail counts); " | WARN "; digits (cWarn counts);
          " | INCONCLUSIVE "; digits (cInconclusive counts); " | SKIPPED "; digits (cSkipped counts); " | ERRORED ";
          digits (cErrored counts)] +:+
    (if decide ((0 < length (buConditions bundle))%nat) then
       newline +:+ line ["Important conditions:"] +:+ join (terminal_condition <$> buConditions bundle) +:+ newline
     else "") +:+
    join (terminal_case ∘ presentCase <$> sortedCases bundle) +:+
    newline +:+ line ["Next: export a shareable report with:"] +:+
    line ["  doctor report markdown "; buRunID bundle; " --output doctor-report.md"])).

(** ** JUnit *)
Definition findingText (r : CaseResult) : string :=
  match crFindings r with
  | [] => "failure recorded without a derived finding"
  | finding :: _ => safeLine (fiRemediationHint finding)
  end.
(** One turn of the loop: the failures, errors and skipped so far, and the
    cases. *)
Definition junit_case (profile : string) (r : CaseResult) (suite : junitSuite) : junitSuite :=
  let '(mkJunitSuite name tests failures errors skipped cases) := suite in
  let item := mkJunitCase (crScenarioID r) profile in
  let add failures errors skipped item := mkJunitSuite name tests failures errors skipped (cases ++ [item]) in
  if decide (crExecutionStatus r = ExecutionErrored ∨ crExecutionStatus r = ExecutionCancelled) then
    add failures (errors + 1) skipped
      (item None (Some (mkJunitMessage (crReasonCode r) "harness or driver did not produce a target verdict")) None)
  else if decide (crPlanDisposition r ≠ DispositionExecute ∨ crExecutionStatus r = ExecutionSkipped) then
    add failures errors (skipped + 1) (item None None (Some (mkJunitMessage (crReasonCode r) "")))
  else match crVerdict r with
  | Some v =>
      if decide (v = VerdictFail) then
        add (failures + 1) errors skipped (item (Some (mkJunitMessage "target assertion failed" (findingText r))) None None)
      else if decide (v = VerdictInconclusive ∨ v = VerdictWarn) then
        add failures errors (skipped + 1) (item None None (Some (mkJunitMessage v "no conformance failure was asserted")))
      else add failures errors skipped (item None None None)
  | None => add failures errors skipped (item None None None)
  end.
Definition junit_suite (bundle : Bundle) : junitSuite :=
  let profile := pinName (buProfile bundle) in
  foldl (fun suite r => junit_case profile r suite)
    (mkJunitSuite profile (Z.of_nat (length (buCases bundle))) 0 0 0 []) (sortedCases bundle).
Definition JUnit (bundle : Bundle) : result error (list ascii) :=
  Bundle_Validate bundle;;
  let suite := junit_suite bundle in
  encoded ← xml_MarshalIndent (mkJunitSuites "agentapi-doctor" (jsTests suite) (jsFailures suite) (jsErrors suite) (jsSkipped suite) [suite]);
  mret (xml_Header ++ encoded).

(** ** SARIF *)
Definition sarifLevel (severity : string) : string :=
  let level := strings_ToLower severity in
  if decide (level ∈ ["error"; "critical"; "high"; "must"]) then "error"
  else if decide (level ∈ ["warning"; "medium"; "should"]) then "warning"
  else "note".
Definition rule_id (finding : Finding) : string :=
  if decide (fiRequirementID finding ≠ "") then fiRequirementID finding
  else if decide (fiCategory finding ≠ "") then fiCategory finding
  else "agentapi-doctor.finding".
Definition rule_of (finding : Finding) : sarifRule :=
  mkSarifRule (rule_id finding) (fiCategory finding) "Agent API compatibility finding".
Definition result_of (r : CaseResult) (finding : Finding) : sarifResult :=
  mkSarifResult (rule_id finding) (sarifLevel (fiSeverity finding)) (safeLine (fiRemediationHint finding))
    (mkSarifProperties (crScenarioID r) (fiFaultDomain finding) (fiFaultFamily finding) (fiConfidence finding)
       (fiFingerprint finding) true).
(** The findings in the order of the two loops. *)
Definition sarif_findings (bundle : Bundle) : list (CaseResult * Finding) :=
  concat ((fun r => (fun finding => (r, finding)) <$> crFindings r) <$> sortedCases bundle).
Definition sarif_rules (findings : list (CaseResult * Finding)) : gmap string sarifRule :=
  foldl (fun rules '(_, finding) => <[rule_id finding := rule_of finding]> rules) ∅ findings.

(** The inner loop: the smallest of the rest moves to the front by swaps. *)
Fixpoint exchange (x : sarifRule) (rest : list sarifRule) : sarifRule * list sarifRule :=
  match rest with
  | [] => (x, [])
  | y :: rest =>
      if decide (string_lt (srID y) (srID x)) then let '(least, rest) := exchange y rest in (least, x :: rest)
      else let '(least, rest) := exchange x rest in (least, y :: rest)
  end.
Fixpoint exchange_sort (n : nat) (rules : list sarifRule) : list sarifRule :=
  match n, rules with
  | S n, x :: rest => let '(least, rest) := exchange x rest in least :: exchange_sort n rest
  | _, _ => []
  end.
Context {rro : RangeOrder string sarifRule}.
Definition sarif_log (bundle : Bundle) : sarifLog :=
  let findings := sarif_findings bundle in
  let rules := (range (sarif_rules findings)).*2 in
  mkSarifLog "2.1.0" "https://json.schemastore.org/sarif-2.1.0.json" "agentapi-doctor" "https://github.com/whyiug/agentapi-doctor"
    build_Version (exchange_sort (length rules) rules) ((fun '(r, finding) => result_of r finding) <$> findings).
Definition SARIF (bundle : Bundle) : result error (list ascii) :=
  Bundle_Validate bundle;;
  sarif_MarshalIndent (sarif_log bundle).

(** ** Markdown *)
Definition markdown_condition (condition : Condition) : string :=
  line ["- **"; markdownInline (cdCode condition); "**: "; markdownInline (cdMessage condition)].
Definition markdown_row (r : CaseResult) : string :=
  let item := presentCase r in
  let scenario := if cpDetailed item then cpScenarioName item +:+ " (" +:+ cpScenarioID item +:+ ")" else cpScenarioID item in
  join ["| "; markdownCell scenario; " | "; crPlanDisposition r; " | "; crExecutionStatus r; " | ";
        markdownCell (cpLabel item); " | "; markdownCell (cpReason item); " |"].
Definition markdown_assertion (a : assertionPresentation) : string :=
  line ["- Assertion `"; markdownInline (apID a); "`"] +:+ line ["  - Expected: "; markdownInline (apExpected a)] +:+
  line ["  - Observed: "; markdownInline (apObserved a)].
Definition markdown_finding (many : bool) (index : nat) (f : findingPresentation) : string :=
  (if many then line ["- Finding "; digits (Z.of_nat index + 1); ": category "; markdownInline (fpCategory f); "; fault domain ";
                      markdownInline (fpFaultDomain f)] else "") +:+
  (if decide (fpRemediation f ≠ "") then line ["- Remediation: "; markdownInline (fpRemediation f)] else "").
Definition markdown_details (item : casePresentation) : string :=
  if cpDetailed item then
    newline +:+ line ["## "; markdownInline (cpLabel item); " — "; markdownInline (cpScenarioName item)] +:+ newline +:+
    line ["- Scenario ID: `"; markdownInline (cpScenarioID item); "`"] +:+
    line ["- Finding category: "; markdownInline (cpCategory item)] +:+
    line ["- Fault domain: "; markdownInline (cpFaultDomain item)] +:+
    (if decide (cpReason item ≠ "") then line ["- Reason: "; markdownInline (cpReason item)] else "") +:+
    join (markdown_assertion <$> cpAssertions item) +:+
    join (imap (markdown_finding (many_findings item)) (cpFindings item)) +:+
    (if decide (cpNextAction item ≠ "" ∧ length (cpFindings item) = 0%nat)
     then line ["- Next action: "; markdownInline (cpNextAction item)] else "")
  else "".

Definition Markdown (bundle : Bundle) : result error (list ascii) :=
  Bundle_Validate bundle;;
  let counts := Count bundle in
  mret (list_ascii_of_string (
    line ["# AgentAPI Doctor report"] +:+ newline +:+ line ["- Run: `"; buRunID bundle; "`"] +:+
    line ["- Profile: `"; markdownInline (pinName (buProfile bundle)); "@"; markdownInline (pinVersion (buProfile bundle)); "`"] +:+
    line ["- Result: **"; humanCheckResult (buOutcome bundle); "**"] +:+
    line ["- Exit code: `"; digits (buPrimaryExitCode bundle); "`"] +:+ newline +:+
    (if decide ((0 < length (buConditions bundle))%nat) then
       line ["## Important conditions"] +:+ newline +:+ join (markdown_condition <$> buConditions bundle) +:+ newline
     else "") +:+
    line ["| Pass | Fail | Warn | Inconclusive | Skipped | Errored |"] +:+ line ["|---:|---:|---:|---:|---:|---:|"] +:+
    line ["| "; digits (cPass counts); " | "; digits (cFail counts); " | "; digits (cWarn counts); " | ";
          digits (cInconclusive counts); " | "; digits (cSkipped counts); " | "; digits (cErrored counts); " |"] +:+ newline +:+
    line ["| Scenario | Disposition | Execution | Verdict | Reason |"] +:+ line ["|---|---|---|---|---|"] +:+
    join ((fun r => line [markdown_row r]) <$> sortedCases bundle) +:+
    join (markdown_details ∘ presentCase <$> sortedCases bundle))).

(** ** HTML and HAR *)
Definition html_view (bundle : Bundle) : htmlReportView :=
  mkHtmlReportView bundle (humanCheckResult (buOutcome bundle))
    ((fun condition => mkCondition (safeLine (cdCode condition)) (safeLine (cdMessage condition))) <$> buConditions bundle)
    (presentCase <$> sortedCases bundle).
Definition HTML (bundle : Bundle) : result error (list ascii) :=
  Bundle_Validate bundle;;
  template_Execute (html_view bundle).

Record HTTPExchange := mkHTTPExchange {
  hxStarted : Time; hxDuration : Z; hxMethod : string; hxStatus : Z; hxRequest : SanitizedPayload; hxResponse : SanitizedPayload
}.
Definition NewHTTPExchange (started : Time) (duration : Z) (method : string) (status : Z) (request response : SanitizedPayload)
    : result error HTTPExchange :=
  err_if (started = 0 ∨ duration < 0 ∨ method = "" ∨ status < 100 ∨ status > 599 ∨ Size request = 0 ∨ Size response = 0)
    (ErrorNew (Text "HAR exchange requires time, method, valid status, and sanitized payloads"));;
  mret (mkHTTPExchange started duration method status request response).
Definition har_entry (exchange : HTTPExchange) : harEntry :=
  mkHarEntry (hxStarted exchange) (Z.quot (hxDuration exchange) 1000) (hxMethod exchange) "urn:agentapi-doctor:redacted-target"
    (spData (hxRequest exchange)) (hxStatus exchange) (spData (hxResponse exchange))
    "URL and headers omitted by the privacy boundary".
Definition HAR (exchanges : list HTTPExchange) : result error (list ascii) :=
  har_MarshalIndent (mkHarLog "1.2" "agentapi-doctor" build_Version (har_entry <$> exchanges)).

(** ** Decode (report.go) *)
Definition Decode (raw : list ascii) : result error Bundle :=
  '(bundle, trailing) ← wrap (Wrapf (Text "decode report: %w")) (Decode_Bundle raw);
  match trailing with
  | Ok _ => Err (ErrorNew (Text "report contains a trailing JSON value"))
  | Err e => err_if (errors_Is e "EOF" = false) (Wrapf (Text "decode trailing report data: %w") e)
  end;;
  Bundle_Validate bundle;;
  mret bundle.
End Render.
