(* ===== verification/RenderSpec.v ===== *)
(** * What rendered reports can contain

    Text of the target reaches a terminal or a Markdown file only without
    control and format characters, and cannot add lines, columns or markup;
    the totals of the JUnit suite are those of the bundle; the SARIF rules are
    those of the results. *)
From Stdlib Require Import ZArith Ascii String Lia.
From stdpp Require Import base gmap sets list strings pretty sorting.
From S2P Require Import Prelude Sorting Schema Results Canonical Documents Report OracleSchema Redaction Render.
Local Open Scope Z_scope.
Local Open Scope string_scope.
Local Open Scope list_scope.

#[local] Arguments Is_Cf : simpl never.
#[local] Arguments IsControl : simpl never.

(** ** UTF-8 *)
Lemma zbyte_byte_z z : 0 <= z < 256 -> zbyte (byte_z z) = z.
Proof. intros H. unfold zbyte, byte_z, byte. rewrite N_ascii_embedding by lia. lia. Qed.
Lemma zbyte_bounds c : 0 <= zbyte c < 256.
Proof. unfold zbyte, byte. pose proof (N_ascii_bounded c). lia. Qed.
Lemma scalar_value_iff r : scalar_value r = true <-> 0 <= r <= 1114111 ∧ ~ 55296 <= r <= 57343.
Proof. unfold scalar_value. rewrite andb_true_iff, negb_true_iff, bool_decide_eq_true, bool_decide_eq_false. done. Qed.
Lemma continuation_byte z : 0 <= z < 64 -> continuation (byte_z (128 + z)) = true.
Proof. intros H. unfold continuation. rewrite zbyte_byte_z by lia. apply bool_decide_eq_true. lia. Qed.

(** [lia] with the equations of quotients and remainders. *)
Ltac div_lia := Z.to_euclidean_division_equations; lia.

Lemma decode_two r s : 128 <= r < 2048 ->
  decode_runes (byte_z (192 + r / 64) :: byte_z (128 + r mod 64) :: s) = r :: decode_runes s.
Proof.
  intros H. cbn -[two_bytes]. rewrite zbyte_byte_z by div_lia. rewrite decide_False by div_lia. unfold two_bytes.
  rewrite continuation_byte, !zbyte_byte_z by div_lia. rewrite decide_True by (split_and!; [..|done|]; div_lia).
  f_equal. div_lia.
Qed.
Lemma not_two a b : 224 <= zbyte a -> two_bytes a b = None.
Proof. intros H. unfold two_bytes. by rewrite decide_False by lia. Qed.
Lemma not_three a b c : 240 <= zbyte a -> three_bytes a b c = None.
Proof. intros H. unfold three_bytes. by rewrite decide_False by lia. Qed.
Lemma decode_three r s : 2048 <= r < 65536 -> scalar_value r = true ->
  decode_runes (byte_z (224 + r / 4096) :: byte_z (128 + r / 64 mod 64) :: byte_z (128 + r mod 64) :: s) = r :: decode_runes s.
Proof.
  intros H Hr. cbn -[two_bytes three_bytes]. rewrite zbyte_byte_z by div_lia. rewrite decide_False by div_lia.
  rewrite not_two by (rewrite zbyte_byte_z; div_lia). unfold three_bytes.
  rewrite !continuation_byte, !zbyte_byte_z by div_lia.
  replace ((224 + r / 4096 - 224) * 4096 + (128 + r / 64 mod 64 - 128) * 64 + (128 + r mod 64 - 128)) with r by div_lia.
  by rewrite decide_True by (split_and!; try done; div_lia).
Qed.
Lemma decode_four r s : 65536 <= r <= 1114111 ->
  decode_runes (byte_z (240 + r / 262144) :: byte_z (128 + r / 4096 mod 64) :: byte_z (128 + r / 64 mod 64) ::
                byte_z (128 + r mod 64) :: s) = r :: decode_runes s.
Proof.
  intros H. cbn -[two_bytes three_bytes four_bytes]. rewrite zbyte_byte_z by div_lia. rewrite decide_False by div_lia.
  rewrite not_two, not_three by (rewrite zbyte_byte_z; div_lia). unfold four_bytes.
  rewrite !continuation_byte, !zbyte_byte_z by div_lia.
  replace ((240 + r / 262144 - 240) * 262144 + (128 + r / 4096 mod 64 - 128) * 4096 + (128 + r / 64 mod 64 - 128) * 64 +
           (128 + r mod 64 - 128)) with r by div_lia.
  by rewrite decide_True by (split_and!; try done; div_lia).
Qed.
Lemma decode_encode r s : scalar_value r = true -> decode_runes (encode_rune r ++ s) = r :: decode_runes s.
Proof.
  intros Hr. pose proof Hr as H%scalar_value_iff. unfold encode_rune. rewrite Hr.
  case_decide as C1; [cbn; rewrite zbyte_byte_z, decide_True by lia; done|].
  case_decide as C2; [apply decode_two; lia|]. case_decide as C3; [by apply decode_three; [lia|]|]. apply decode_four. lia.
Qed.
Definition scalars (rs : list Z) : Prop := Forall (fun r => scalar_value r = true) rs.
Lemma runes_of_runes rs : scalars rs -> runes (of_runes rs) = rs.
Proof.
  intros H. unfold runes, of_runes. rewrite list_ascii_of_string_of_list_ascii.
  induction H as [|r rs Hr _ IH]; [done|]. cbn [fmap list_fmap concat]. by rewrite decode_encode, IH.
Qed.
Lemma two_scalar a b r : two_bytes a b = Some r -> scalar_value r = true.
Proof.
  unfold two_bytes, continuation. case_decide as D; [|done]. intros [= <-]. rewrite bool_decide_eq_true in D.
  apply scalar_value_iff. lia.
Qed.
Lemma three_scalar a b c r : three_bytes a b c = Some r -> scalar_value r = true.
Proof. unfold three_bytes. case_decide as D; [|done]. intros [= <-]. apply D. Qed.
Lemma four_scalar a b c d r : four_bytes a b c d = Some r -> scalar_value r = true.
Proof. unfold four_bytes. case_decide as D; [|done]. intros [= <-]. apply scalar_value_iff. lia. Qed.
Lemma decode_scalars s : scalars (decode_runes s).
Proof.
  unfold scalars. remember (length s) as n eqn:E. assert (length s <= n)%nat as L by lia. clear E. revert s L.
  induction n as [|n IH]; intros [|a s1] L; cbn [length] in L; [constructor|lia|constructor|].
  assert (forall r rest, scalar_value r = true -> (length rest <= n)%nat -> Forall (fun r => scalar_value r = true) (r :: decode_runes rest))
    as K by (intros; constructor; auto).
  assert (scalar_value RuneError = true) as HE by done. cbn [decode_runes].
  case_decide as C; [apply K; [apply scalar_value_iff; pose proof (zbyte_bounds a)|]; lia|].
  destruct s1 as [|b s2]; [apply K; [done|cbn; lia]|].
  destruct (two_bytes a b) eqn:E2; [apply K; [by eapply two_scalar|cbn in *; lia]|].
  destruct s2 as [|c s3]; [apply K; [done|cbn in *; lia]|].
  destruct (three_bytes a b c) eqn:E3; [apply K; [by eapply three_scalar|cbn in *; lia]|].
  destruct s3 as [|d s4]; [apply K; [done|cbn in *; lia]|].
  destruct (four_bytes a b c d) eqn:E4; [apply K; [by eapply four_scalar|cbn in *; lia]|apply K; [done|cbn in *; lia]].
Qed.

(** ** Text made of certain runes *)
Definition made_of (P : Z -> Prop) (s : string) : Prop :=
  exists rs, s = of_runes rs ∧ Forall (fun r => scalar_value r = true ∧ P r) rs.
Lemma made_of_runes P s : made_of P s -> Forall P (runes s).
Proof.
  intros (rs & -> & H). rewrite runes_of_runes; [by eapply Forall_impl; [exact H|]; intros r []|].
  eapply Forall_impl; [exact H|]. by intros r [].
Qed.
Lemma of_runes_app rs rs' : of_runes (rs ++ rs') = of_runes rs +:+ of_runes rs'.
Proof. unfold of_runes. rewrite fmap_app, concat_app. apply string_of_app. Qed.
Lemma made_of_app P s t : made_of P s -> made_of P t -> made_of P (s +:+ t).
Proof. intros (rs & -> & H) (rs' & -> & H'). exists (rs ++ rs'). split; [by rewrite of_runes_app|]. by apply Forall_app. Qed.
Lemma made_of_empty P : made_of P "".
Proof. by exists []. Qed.
Lemma made_of_join P pieces : Forall (made_of P) pieces -> made_of P (join pieces).
Proof. induction 1; [apply made_of_empty|by apply made_of_app]. Qed.
Lemma made_of_weaken (P Q : Z -> Prop) s : (forall r, P r -> Q r) -> made_of P s -> made_of Q s.
Proof. intros HPQ (rs & -> & H). exists rs. split; [done|]. eapply Forall_impl; [exact H|]. naive_solver. Qed.

(** A given text is checked by evaluation. *)
Definition checked_text (p : Z -> bool) (s : string) : bool := bool_decide (of_runes (runes s) = s) && forallb p (runes s).
Lemma made_of_checked (P : Z -> Prop) (p : Z -> bool) s : (forall r, p r = true -> P r) -> checked_text p s = true -> made_of P s.
Proof.
  intros HP [H1%bool_decide_eq_true H2]%andb_true_iff. exists (runes s). split; [done|].
  rewrite Forall_forall. intros r Hr. split.
  - pose proof (decode_scalars (list_ascii_of_string s)) as D. unfold scalars in D. rewrite Forall_forall in D. by apply D.
  - apply HP. rewrite forallb_forall in H2. apply H2. by apply list_elem_of_In.
Qed.

(** ** Visible text *)
Definition visible (r : Z) : Prop := IsControl r = false ∧ Is_Cf r = false.
Definition visibleb (r : Z) : bool := negb (IsControl r) && negb (Is_Cf r).
Lemma visibleb_iff r : visibleb r = true <-> visible r.
Proof. unfold visibleb, visible. by rewrite andb_true_iff, !negb_true_iff. Qed.
Lemma visibleb_visible r : visibleb r = true -> visible r.
Proof. apply visibleb_iff. Qed.

Lemma after_csi_suffix rs : after_csi rs `suffix_of` rs.
Proof.
  induction rs as [|r rs IH]; [done|]. cbn. case_decide; [by apply suffix_cons_r|]. by apply suffix_cons_r.
Qed.
Lemma after_osc_suffix rs : after_osc rs `suffix_of` rs.
Proof.
  induction rs as [|r rs IH]; [done|]. cbn. case_decide; [by apply suffix_cons_r|].
  destruct rs as [|next rs]; [by apply suffix_cons_r|]. case_decide; [by do 2 apply suffix_cons_r|]. by apply suffix_cons_r.
Qed.
Lemma skipEscapeSequence_suffix rs : skipEscapeSequence rs `suffix_of` rs.
Proof.
  unfold skipEscapeSequence. destruct rs as [|r rs]; [done|].
  repeat case_match; subst; apply suffix_cons_r; first [apply after_csi_suffix|apply after_osc_suffix|reflexivity].
Qed.
Lemma scalars_suffix rs rs' : rs' `suffix_of` rs -> scalars rs -> scalars rs'.
Proof. intros [pre ->] H. unfold scalars in *. by apply Forall_app in H as [_ ?]. Qed.

Lemma space_visible : scalar_value 32 = true ∧ visible 32.
Proof. repeat split. Qed.
Lemma safe_runes_visible fuel : forall rs, scalars rs -> Forall (fun r => scalar_value r = true ∧ visible r) (safe_runes fuel rs).
Proof.
  induction fuel as [|fuel IH]; intros [|r rs] H; cbn; try constructor.
  apply Forall_cons in H as [Hr H]. case_decide as E; [apply IH; by eapply scalars_suffix; [apply skipEscapeSequence_suffix|]|].
  constructor; [|by apply IH]. destruct (IsControl r || Is_Cf r) eqn:B; [exact space_visible|]. apply orb_false_iff in B. exact (conj Hr B).
Qed.
Lemma made_of_safeLine value : made_of visible (safeLine value).
Proof. eexists. split; [reflexivity|]. apply safe_runes_visible. apply decode_scalars. Qed.

(** The fuel is enough: what is left after a sequence is safe text again. *)
Lemma safe_runes_fuel fuel fuel' : forall rs, (length rs <= fuel)%nat -> (length rs <= fuel')%nat -> safe_runes fuel rs = safe_runes fuel' rs.
Proof.
  revert fuel'. induction fuel as [|fuel IH]; intros fuel' [|r rs] H H'; [by destruct fuel'|cbn in H; lia|by destruct fuel'|].
  destruct fuel' as [|fuel']; [cbn in H'; lia|]. cbn in *. pose proof (suffix_length _ _ (skipEscapeSequence_suffix rs)).
  case_decide; [apply IH; lia|]. f_equal. apply IH; lia.
Qed.

(** ** Lines *)

(** [n] lines of text made of [P], each with its end. *)
Definition lines (P : Z -> Prop) (n : nat) (text : string) : Prop :=
  exists ls, text = join ((fun l => l +:+ newline) <$> ls) ∧ length ls = n ∧ Forall (made_of P) ls.
Lemma join_cons x a : join (x :: a) = x +:+ join a.
Proof. done. Qed.
Lemma join_app a b : join (a ++ b) = join a +:+ join b.
Proof. induction a as [|x a IH]; [done|]. cbn [app]. rewrite !join_cons, IH. apply string_app_assoc. Qed.
Lemma lines_app P n m s t : lines P n s -> lines P m t -> lines P (n + m) (s +:+ t).
Proof.
  intros (ls & -> & <- & H) (ls' & -> & <- & H'). exists (ls ++ ls').
  rewrite fmap_app, join_app, length_app. split_and!; [done..|]. by apply Forall_app.
Qed.
Lemma string_app_empty s : s +:+ "" = s.
Proof. induction s as [|c s IH]; [done|]. exact (f_equal (String c) IH). Qed.
Lemma lines_line P pieces : Forall (made_of P) pieces -> lines P 1 (line pieces).
Proof. intros H. exists [join pieces]. cbn. split_and!; [by rewrite string_app_empty|done|]. repeat constructor. by apply made_of_join. Qed.
Lemma lines_newline P : lines P 1 newline.
Proof. exists [""]. split_and!; [done|done|]. repeat constructor. apply made_of_empty. Qed.
Lemma lines_none P : lines P 0 "".
Proof. by exists []. Qed.
Lemma lines_imap {A} P (f : nat -> A -> string) (n : A -> nat) (Q : A -> Prop) l : Forall Q l ->
  (forall i x, Q x -> lines P (n x) (f i x)) -> lines P (sum_list (n <$> l)) (join (imap f l)).
Proof.
  intros HQ. revert f. induction HQ as [|x l Hx _ IH]; intros f H; [apply lines_none|].
  apply (lines_app P (n x)); [by apply H|]. apply IH. intros i y. apply H.
Qed.
Lemma lines_join {A} P (f : A -> string) (n : A -> nat) (Q : A -> Prop) l : Forall Q l ->
  (forall x, Q x -> lines P (n x) (f x)) -> lines P (sum_list (n <$> l)) (join (f <$> l)).
Proof. intros HQ H. rewrite <- (imap_const f l). apply (lines_imap P _ n Q); auto. Qed.

(** One line for each. *)
Lemma lines_each {A} P (f : A -> string) (Q : A -> Prop) l : Forall Q l -> (forall x, Q x -> lines P 1 (f x)) ->
  lines P (length l) (join (f <$> l)).
Proof. intros HQ H. induction HQ as [|x l Hx _ IH]; [apply lines_none|]. apply (lines_app P 1); auto. Qed.
Lemma inert_lines P (Q : string -> Prop) n text : (forall l, made_of P l -> Q l) -> lines P n text ->
  exists ls, list_ascii_of_string text = list_ascii_of_string (join ((fun l => l +:+ newline) <$> ls)) ∧ length ls = n ∧ Forall Q ls.
Proof. intros H (ls & -> & L & F). exists ls. split_and!; [done..|]. by eapply Forall_impl. Qed.

(** ** Kinds of runes *)

(** Visible, and no angle bracket. *)
Definition plain (r : Z) : Prop := visible r ∧ r ≠ 60 ∧ r ≠ 62.
Class Checked (P : Z -> Prop) := { check : Z -> bool; check_ok r : check r = true -> P r }.
#[local] Instance visible_checked : Checked visible := {| check := visibleb; check_ok := visibleb_visible |}.
#[local] Program Instance plain_checked : Checked plain :=
  {| check r := visibleb r && negb (bool_decide (r = 60)) && negb (bool_decide (r = 62)) |}.
Next Obligation.
  intros r. cbn beta. rewrite !andb_true_iff, !negb_true_iff, !bool_decide_eq_false. intros [[?%visibleb_visible ?] ?]. done.
Qed.
Ltac constant :=
  lazymatch goal with
  | |- made_of ?P _ => apply (made_of_checked P (@check P _)); [exact (@check_ok P _)|vm_compute; reflexivity]
  end.

Lemma byte_z_zbyte c : byte_z (zbyte c) = c.
Proof. unfold byte_z, zbyte, byte. rewrite N2Z.id. apply ascii_N_embedding. Qed.
Lemma of_ascii s : Forall (fun c => zbyte c < 128) (list_ascii_of_string s) -> of_runes (zbyte <$> list_ascii_of_string s) = s.
Proof.
  induction s as [|c s IH]; [done|]. cbn [list_ascii_of_string]. intros [Hc Hs]%Forall_cons. specialize (IH Hs).
  unfold of_runes in *. cbn [fmap list_fmap concat]. pose proof (zbyte_bounds c).
  unfold encode_rune at 1. rewrite (proj2 (scalar_value_iff _)) by lia. rewrite decide_True by done. cbn.
  by rewrite byte_z_zbyte, IH.
Qed.
Lemma made_of_ascii P s : Forall (fun c => zbyte c < 128 ∧ P (zbyte c)) (list_ascii_of_string s) -> made_of P s.
Proof.
  intros H. exists (zbyte <$> list_ascii_of_string s). split.
  - symmetry. apply of_ascii. eapply Forall_impl; [exact H|]. by intros c [].
  - apply Forall_fmap. eapply Forall_impl; [exact H|]. intros c [Hc Hp]. split; [|done].
    apply scalar_value_iff. pose proof (zbyte_bounds c). lia.
Qed.

(** The bytes of numbers and identifiers. *)
Definition token_byte (c : ascii) : bool := is_lower_hex c || bool_decide (c = "-"%char).
Lemma token_byte_plain c : token_byte c = true -> zbyte c < 128 ∧ plain (zbyte c).
Proof. destruct c as [[] [] [] [] [] [] [] []]; vm_compute; intros H; try discriminate H; repeat split; discriminate. Qed.
Lemma made_of_token s : Forall (fun c => token_byte c = true) (list_ascii_of_string s) -> made_of plain s.
Proof. intros H. apply made_of_ascii. eapply Forall_impl; [exact H|]. apply token_byte_plain. Qed.

Lemma pretty_go_token n : forall s, Forall (fun c => token_byte c = true) (list_ascii_of_string s) ->
  Forall (fun c => token_byte c = true) (list_ascii_of_string (pretty_N_go n s)).
Proof.
  induction (N.lt_wf_0 n) as [n _ IH]. intros s Hs. destruct (decide (n = 0)%N) as [->|]; [by rewrite pretty_N_go_0|].
  rewrite pretty_N_go_step by lia. apply IH; [apply N.div_lt; lia|]. constructor; [|done].
  unfold pretty_N_char. by repeat case_match.
Qed.
Lemma pretty_N_token (n : N) : Forall (fun c => token_byte c = true) (list_ascii_of_string (pretty n)).
Proof. unfold pretty, pretty_N. case_decide; [by repeat constructor|]. apply pretty_go_token. constructor. Qed.
Lemma made_of_digits n : made_of plain (digits n).
Proof.
  apply made_of_token. unfold digits, pretty, pretty_Z. destruct n as [|n|n]; [by repeat constructor|apply (pretty_N_token (N.pos n))|].
  constructor; [done|]. apply (pretty_N_token (N.pos n)).
Qed.
Lemma match_classes_token classes : Forall (fun class => forall c, class c = true -> token_byte c = true) classes ->
  forall s, match_classes classes s = true -> Forall (fun c => token_byte c = true) (list_ascii_of_string s).
Proof.
  induction 1 as [|class classes Hc _ IH]; intros [|c s]; try done. cbn [match_classes]. intros [H1 H2]%andb_true_iff.
  constructor; [by apply Hc|by apply IH].
Qed.
Lemma made_of_InstanceID id : InstanceID_Validate id = Ok tt -> made_of plain id.
Proof.
  intros [H _]%InstanceID_Validate_ok. apply made_of_token. revert H. apply match_classes_token.
  assert (forall n, Forall (fun class => forall c, class c = true -> token_byte c = true) (repeat is_lower_hex n)) as R.
  { induction n; constructor; [|done]. intros c H. unfold token_byte. by rewrite H. }
  rewrite !Forall_app. split_and!; try apply R; cbn;
    repeat (constructor; [intros [[] [] [] [] [] [] [] []]; vm_compute; congruence|]); constructor.
Qed.

(** Case mappings do not make control or format characters of others. *)
Class UnicodeLaws {rl : RenderLibrary} : Prop := {
  ToUpper_visible r : scalar_value r = true ∧ visible r -> scalar_value (unicode_ToUpper r) = true ∧ visible (unicode_ToUpper r);
  ToLower_visible r : scalar_value r = true ∧ visible r -> scalar_value (unicode_ToLower r) = true ∧ visible (unicode_ToLower r)
}.

Section Spec.
Context {lib : DocumentLibrary} {ro : RangeOrder string string} {rl : RenderLibrary} {laws : UnicodeLaws}.
Definition printable (r : Z) : Prop := scalar_value r = true ∧ visible r.
Lemma ascii_printable r : 32 <= r <= 126 -> printable r.
Proof.
  intros H. split; [apply scalar_value_iff; lia|]. split; [apply bool_decide_eq_false; lia|].
  unfold Is_Cf, Cf_ranges. cbn [existsb]. rewrite !orb_false_iff. split_and!; try done; apply bool_decide_eq_false; lia.
Qed.
Lemma upper_printable r : printable r -> printable (rune_upper r).
Proof. intros H. unfold rune_upper. case_decide; [apply ascii_printable; lia|]. case_decide; [done|]. by apply ToUpper_visible. Qed.
Lemma lower_printable r : printable r -> printable (rune_lower r).
Proof. intros H. unfold rune_lower. case_decide; [apply ascii_printable; lia|]. case_decide; [done|]. by apply ToLower_visible. Qed.
Lemma safe_printable value : Forall printable (runes (safeLine value)).
Proof.
  destruct (made_of_safeLine value) as (rs & E & H). rewrite E, runes_of_runes; [exact H|].
  eapply Forall_impl; [exact H|]. by intros r [].
Qed.
Lemma made_of_printable rs : Forall printable rs -> made_of visible (of_runes rs).
Proof. intros H. by exists rs. Qed.

(** ** What is presented of a case *)
Lemma trim_left_Forall Q rs : Forall Q rs -> Forall Q (trim_left rs).
Proof. induction 1; cbn; [constructor|]. destruct (IsSpace x); [done|by constructor]. Qed.
Lemma made_of_safeFallback value fallback : made_of visible fallback -> made_of visible (safeFallback value fallback).
Proof.
  intros H. unfold safeFallback. case_decide; [done|]. apply made_of_printable. unfold trim_runes.
  apply Forall_rev, trim_left_Forall, Forall_rev, trim_left_Forall, safe_printable.
Qed.
Lemma made_of_displayValue value : made_of visible (displayValue value).
Proof.
  unfold displayValue. destruct value as [[text|format args]|]; [|destruct (CanonicalMarshal _ _)|constant]; try apply made_of_safeLine.
  case_decide; [constant|apply made_of_safeLine].
Qed.
Lemma fields_func_Forall Q separator rs : forall field, Forall Q field -> Forall Q rs -> Forall (Forall Q) (fields_func separator field rs).
Proof.
  assert (forall field, Forall Q field -> Forall (Forall Q) (match field with [] => [] | _ => [field] end)) as C
    by (intros [|x field] ?; [by constructor|by apply Forall_singleton]).
  induction rs as [|r rs IH]; intros field Hf H; cbn [fields_func]; [by apply C|]. apply Forall_cons in H as [Hr H].
  destruct (separator r); [apply Forall_app; split; [by apply C|by apply IH]|]. apply IH; [|done]. apply Forall_app. by repeat constructor.
Qed.
Lemma after_number_Forall {Q} parts rest : Forall Q parts -> after_number parts = Some rest -> Forall Q rest.
Proof. induction 1; cbn; [done|]. destruct (_ && _); [by intros [= <-]|done]. Qed.
Lemma made_of_word part : Forall printable part -> made_of visible (word_of part).
Proof.
  intros H. unfold word_of. assert (Forall printable (rune_lower <$> part)) as L.
  { apply Forall_fmap. eapply Forall_impl; [exact H|]. apply lower_printable. }
  destruct (lookup_entry _ _) as [word|] eqn:E.
  - unfold lookup_entry in E. destruct (list_find _ _) as [[i [k v]]|] eqn:F; [|done]. injection E as ->.
    apply list_find_Some in F as (F & _). unfold known_words in F.
    repeat (destruct i as [|i]; [injection F as <- <-; constant|]). done.
  - apply made_of_printable. destruct (rune_lower <$> part) as [|r rest]; [done|].
    apply Forall_cons in L as [? ?]. constructor; [by apply upper_printable|done].
Qed.
Lemma made_of_concat P separator words : made_of P separator -> Forall (made_of P) words -> made_of P (String.concat separator words).
Proof.
  intros Hs. induction 1 as [|w words Hw _ IH]; [apply made_of_empty|]. cbn [String.concat].
  destruct words; [done|]. by apply made_of_app; [|apply made_of_app].
Qed.
Lemma made_of_humanScenarioName identifier : made_of visible (humanScenarioName identifier).
Proof.
  unfold humanScenarioName. set (parts := fields_func _ _ _). cbv zeta.
  assert (Forall (Forall printable) parts) as H by (apply fields_func_Forall; [constructor|apply safe_printable]).
  assert (Forall (Forall printable) (default parts (after_number parts))) as H'
    by (destruct (after_number parts) eqn:E; [by eapply after_number_Forall|done]).
  destruct (word_of <$> _) as [|w words] eqn:E; [constant|]. rewrite <- E. apply made_of_concat; [constant|].
  apply Forall_fmap, Forall_forall. intros part [_ Hp]%list_elem_of_filter. rewrite Forall_forall in H'. by apply made_of_word, H'.
Qed.
Lemma made_of_humanCheckResult P `{Checked P} outcome :
  Forall (fun s => checked_text check s = true)
    ["checks passed"; "checks passed with warnings"; "checks failed"; "checks inconclusive"] -> made_of P (humanCheckResult outcome).
Proof.
  intros F. assert (forall s, checked_text check s = true -> made_of P s) as K by (intros s; apply made_of_checked, check_ok).
  rewrite !Forall_cons in F. unfold humanCheckResult. repeat case_decide; apply K; tauto.
Qed.
Lemma made_of_result outcome : made_of visible (strings_ToUpper (humanCheckResult outcome)).
Proof. unfold humanCheckResult. repeat case_decide; constant. Qed.

(** Every text of a presentation is visible. *)
Record presentable (item : casePresentation) : Prop := {
  pr_id : made_of visible (cpScenarioID item);
  pr_name : made_of visible (cpScenarioName item);
  pr_label : made_of visible (cpLabel item);
  pr_reason : made_of visible (cpReason item);
  pr_category : made_of visible (cpCategory item);
  pr_domain : made_of visible (cpFaultDomain item);
  pr_action : made_of visible (cpNextAction item);
  pr_assertions : Forall (fun a => made_of visible (apID a) ∧ made_of visible (apExpected a) ∧ made_of visible (apObserved a))
                    (cpAssertions item);
  pr_findings : Forall (fun f => made_of visible (fpCategory f) ∧ made_of visible (fpFaultDomain f) ∧ made_of visible (fpRemediation f))
                  (cpFindings item)
}.
Lemma finding_presentable f : let p := presentFinding f in
  made_of visible (fpCategory p) ∧ made_of visible (fpFaultDomain p) ∧ made_of visible (fpRemediation p).
Proof. cbn. split_and!; [apply made_of_safeFallback; constant..|apply made_of_safeLine]. Qed.
Lemma assertion_presentable a : let p := presentAssertion a in
  made_of visible (apID p) ∧ made_of visible (apExpected p) ∧ made_of visible (apObserved p).
Proof. cbn. split_and!; [apply made_of_safeFallback; constant|apply made_of_displayValue..]. Qed.
Lemma presentCase_presentable r : presentable (presentCase r).
Proof.
  unfold presentCase. cbv zeta. assert (made_of visible (if decide (safeLine (crReasonCode r) ≠ "") then safeLine (crReasonCode r) else "not recorded")) as HC
    by (case_decide; [apply made_of_safeLine|constant]).
  destruct (presentFinding <$> crFindings r) as [|first rest] eqn:E.
  - split; cbn; try apply made_of_safeLine; [apply made_of_humanScenarioName|done|constant| |apply Forall_fmap, Forall_true, assertion_presentable|constructor].
    destruct (detailed r && _); [constant|apply made_of_empty].
  - assert (Forall (fun f => made_of visible (fpCategory f) ∧ made_of visible (fpFaultDomain f) ∧ made_of visible (fpRemediation f)) (first :: rest)) as F
      by (rewrite <- E; apply Forall_fmap, Forall_true, finding_presentable).
    pose proof F as [(F1 & F2 & _) _]%Forall_cons.
    split; cbn; try apply made_of_safeLine; [apply made_of_humanScenarioName|done|done| |apply Forall_fmap, Forall_true, assertion_presentable|done].
    destruct (detailed r && _); [constant|apply made_of_empty].
Qed.

(** ** Terminal *)
Lemma made_of_padded s : made_of visible s -> made_of visible (padded s).
Proof. intros H. apply made_of_app; [done|]. induction (14 - _)%nat as [|n IH]; [apply made_of_empty|]. by apply made_of_app; [constant|]. Qed.
Lemma plain_visible s : made_of plain s -> made_of visible s.
Proof. apply made_of_weaken. by intros r []. Qed.

(** Pieces of lines: given texts and what is known to be visible. *)
Ltac piece := lazymatch goal with |- made_of _ (String _ _) => constant | _ => try assumption end.
Ltac pieces := repeat apply Forall_cons_2; [..|apply Forall_nil_2]; piece.
Ltac one_line := apply lines_line; pieces.

Definition finding_lines (f : findingPresentation) : nat := if decide (fpRemediation f ≠ "") then 3 else 2.
(** The lines of a case: they depend on what there is to say, not on what it
    says. *)
Definition case_lines (item : casePresentation) : nat :=
  if cpDetailed item then
    (1 + ((if decide (cpReason item ≠ "") then 1 else 0) +
     ((if decide (length (cpFindings item) = 0) then 3 else 0) +
      (sum_list (finding_lines <$> cpFindings item) + sum_list ((fun _ => 3) <$> cpAssertions item)))))%nat
  else 1%nat.
Lemma terminal_finding_lines many i f :
  made_of visible (fpCategory f) ∧ made_of visible (fpFaultDomain f) ∧ made_of visible (fpRemediation f) ->
  lines visible (finding_lines f) (terminal_finding many i f).
Proof.
  intros (H1 & H2 & H3). unfold terminal_finding, finding_lines. set (prefix := if many then _ else _). cbv zeta.
  assert (made_of visible prefix) as Hp.
  { unfold prefix. destruct many; [apply made_of_app; [constant|apply plain_visible, made_of_digits]|constant]. }
  case_decide; [apply (lines_app _ 1 2)|apply (lines_app _ 1 1)]; [one_line| |one_line|].
  - apply (lines_app _ 1 1); one_line.
  - apply (lines_app _ 1 0); [one_line|apply lines_none].
Qed.
Lemma terminal_assertion_lines a :
  made_of visible (apID a) ∧ made_of visible (apExpected a) ∧ made_of visible (apObserved a) -> lines visible 3 (terminal_assertion a).
Proof. intros (H1 & H2 & H3). apply (lines_app _ 1 2); [one_line|]. apply (lines_app _ 1 1); one_line. Qed.
Lemma terminal_case_lines item : presentable item -> lines visible (case_lines item) (terminal_case item).
Proof.
  intros [H1 H2 H3 H4 H5 H6 H7 H8 H9]. unfold terminal_case, case_lines. pose proof (made_of_padded _ H3).
  destruct (cpDetailed item).
  - apply lines_app; [one_line|]. apply lines_app; [case_decide; [one_line|apply lines_none]|].
    apply lines_app; [case_decide; [|apply lines_none]; apply (lines_app _ 1 2); [one_line|]; apply (lines_app _ 1 1); one_line|].
    apply lines_app; [by eapply lines_imap; [exact H9|intros; apply terminal_finding_lines]|].
    by eapply lines_join; [exact H8|apply terminal_assertion_lines].
  - one_line. unfold parenthesizedReason. case_decide; [apply made_of_empty|].
    apply made_of_app; [constant|]. by apply made_of_app; [|constant].
Qed.
Lemma terminal_condition_lines condition : lines visible 1 (terminal_condition condition).
Proof. one_line; apply made_of_safeLine. Qed.

Definition terminal_lines (bundle : Bundle) : nat :=
  (4 + ((if decide (0 < length (buConditions bundle)) then length (buConditions bundle) + 3 else 0) +
   (sum_list (case_lines ∘ presentCase <$> sortedCases bundle) + 3)))%nat.

Lemma validated_run bundle : Bundle_Validate bundle = Ok tt -> made_of plain (buRunID bundle).
Proof.
  unfold Bundle_Validate. intros H. apply bind_ok in H as [_ H]. apply bind_ok in H as [H%wrap_ok _]. by apply made_of_InstanceID.
Qed.

Lemma answered {E A} (a b : A) : mret a = (Ok b : result E A) -> a = b.
Proof. by intros [= ->]. Qed.

(** [C24] What a terminal shows of a report is inert: the text consists of lines
    whose number is decided by what the report has (conditions, cases,
    findings, assertions) and not by the texts in it, and the runes of every
    line are neither control nor format characters.  So no text that came
    from a target moves the cursor, sets colours, reorders the line or forges
    a verdict line. *)
Theorem terminal_text_is_inert bundle output :
  Terminal bundle = Ok output ->
  exists ls, output = list_ascii_of_string (join ((fun l => l +:+ newline) <$> ls)) ∧
    length ls = terminal_lines bundle ∧ Forall (fun l => Forall visible (runes l)) ls.
Proof.
  intros ([] & V & <-%answered)%bind_Ok. apply validated_run, plain_visible in V.
  pose proof (made_of_result (buOutcome bundle)). pose proof (fun n => plain_visible _ (made_of_digits n)) as D.
  apply (inert_lines visible); [intros l; apply made_of_runes|].
  unfold terminal_lines. apply (lines_app _ 1 (3 + _)); [one_line|]. apply (lines_app _ 1 (2 + _)); [one_line|].
  apply (lines_app _ 1 (1 + _)); [one_line; apply D|]. apply (lines_app _ 1); [one_line; apply D|]. apply lines_app.
  - case_decide; [|apply lines_none]. rewrite Nat.add_comm. apply (lines_app _ 1 (2 + _)); [apply lines_newline|].
    apply (lines_app _ 1 (1 + _)); [one_line|]. rewrite Nat.add_comm. apply lines_app; [|apply lines_newline].
    apply (lines_each _ _ (fun _ => True)); [by apply Forall_true|]. intros condition _. apply terminal_condition_lines.
  - apply lines_app.
    + apply (lines_join _ _ _ (fun _ => True)); [by apply Forall_true|]. intros r _. apply terminal_case_lines, presentCase_presentable.
    + apply (lines_app _ 1 2); [apply lines_newline|]. apply (lines_app _ 1 1); one_line.
Qed.

(** ** Markdown *)

(** The occurrences of a byte that are not escaped by a backslash. *)
Fixpoint bare (c : ascii) (l : list ascii) : nat :=
  match l with
  | [] => 0
  | x :: rest =>
      if decide (x = backslash) then match rest with [] => 0 | _ :: rest' => bare c rest' end
      else ((if decide (x = c) then 1 else 0) + bare c rest)%nat
  end.
Definition escaped (bad : ascii -> bool) (u : list ascii) : Prop :=
  (exists x, u = [x] ∧ x ≠ backslash ∧ bad x = false) ∨ (exists x, u = [backslash; x]).
Definition escaped_text (bad : ascii -> bool) (l : list ascii) : Prop := exists units, l = concat units ∧ Forall (escaped bad) units.
Lemma bare_escaped bad c l rest : escaped_text bad l -> bad c = true -> bare c (l ++ rest) = bare c rest.
Proof.
  intros (units & -> & H) Hc. induction H as [|u units [(x & -> & Hx & Hb)|(x & ->)] _ IH]; [done|..]; cbn [concat app bare].
  - rewrite decide_False, decide_False by congruence. exact IH.
  - rewrite decide_True by done. exact IH.
Qed.
Definition marked (c : ascii) : bool := is_one_of "`*_[]<>" c.
Definition marked_cell (c : ascii) : bool := is_one_of "`*_[]<>|" c.
Fixpoint escapedb (bad : ascii -> bool) (l : list ascii) : bool :=
  match l with
  | [] => true
  | x :: rest => if decide (x = backslash) then match rest with [] => false | _ :: rest' => escapedb bad rest' end
                 else negb (bad x) && escapedb bad rest
  end.
Lemma escapedb_text bad l : escapedb bad l = true -> escaped_text bad l.
Proof.
  remember (length l) as n eqn:E. assert (length l <= n)%nat as L by lia. clear E. revert l L.
  induction n as [|n IH]; intros [|x l] L H; cbn [length] in L; try lia; [by exists []|by exists []|]. cbn [escapedb] in H.
  case_decide as B.
  - destruct l as [|y l]; [done|]. destruct (IH l) as (units & -> & F); [cbn in L; lia|done|]. subst x.
    exists ([backslash; y] :: units). split; [done|]. constructor; [right; by exists y|done].
  - apply andb_true_iff in H as [Hx%negb_true_iff H]. destruct (IH l) as (units & -> & F); [lia|done|].
    exists ([x] :: units). split; [done|]. constructor; [left; by exists x|done].
Qed.
Lemma escaped_text_concat {A} bad (f : A -> list ascii) l : (forall x, escaped_text bad (f x)) -> escaped_text bad (concat (f <$> l)).
Proof.
  intros H. induction l as [|x l (units' & IH & F')]; [by exists []|]. destruct (H x) as (units & E & F).
  exists (units ++ units'). cbn. rewrite concat_app, E, IH. split; [done|]. by apply Forall_app.
Qed.

(** What the replacement of one byte is, for each of the 256 bytes. *)
Definition ascii_plain (x : ascii) : bool := bool_decide (zbyte x < 128) && check (P := plain) (zbyte x).
Definition inline_facts (c : ascii) : bool :=
  escapedb marked (inline_byte c) && escapedb marked_cell (concat (cell_byte <$> inline_byte c)) &&
  if decide (zbyte c < 128)
  then implb (visibleb (zbyte c)) (forallb ascii_plain (inline_byte c) && forallb ascii_plain (concat (cell_byte <$> inline_byte c)))
  else bool_decide (inline_byte c = [c]) && bool_decide (cell_byte c = [c]).
Lemma inline_facts_hold c : inline_facts c = true.
Proof. destruct c as [[] [] [] [] [] [] [] []]; vm_compute; reflexivity. Qed.
Lemma inline_escaped value : escaped_text marked (list_ascii_of_string (markdownInline value)).
Proof.
  unfold markdownInline, replace_bytes. rewrite list_ascii_of_string_of_list_ascii. apply escaped_text_concat. intros c.
  pose proof (inline_facts_hold c) as H. by apply andb_true_iff in H as [[? ?]%andb_true_iff _]; apply escapedb_text.
Qed.
Lemma concat_fmap_concat {A B C} (f : B -> list C) (g : A -> list B) l :
  concat (f <$> concat (g <$> l)) = concat ((fun x => concat (f <$> g x)) <$> l).
Proof. induction l as [|x l IH]; [done|]. cbn. rewrite fmap_app, concat_app. f_equal. exact IH. Qed.
Lemma markdownCell_bytes value :
  list_ascii_of_string (markdownCell value) = concat ((fun c => concat (cell_byte <$> inline_byte c)) <$> list_ascii_of_string (safeLine value)).
Proof.
  unfold markdownCell, markdownInline, replace_bytes. rewrite !list_ascii_of_string_of_list_ascii. apply concat_fmap_concat.
Qed.
Lemma cell_escaped value : escaped_text marked_cell (list_ascii_of_string (markdownCell value)).
Proof.
  rewrite markdownCell_bytes. apply escaped_text_concat. intros c.
  pose proof (inline_facts_hold c) as H. by apply andb_true_iff in H as [[? ?]%andb_true_iff _]; apply escapedb_text.
Qed.

(** Replacing the ASCII bytes of visible text. *)
Lemma encode_high r c : scalar_value r = true -> 128 <= r -> c ∈ encode_rune r -> 128 <= zbyte c.
Proof.
  intros Hr H. unfold encode_rune. rewrite Hr. rewrite decide_False by lia. apply scalar_value_iff in Hr.
  repeat case_decide; rewrite !elem_of_cons, elem_of_nil; intros Hc; destruct_or! Hc; subst; try done; rewrite zbyte_byte_z; div_lia.
Qed.
Lemma made_of_replace (f : ascii -> list ascii) s :
  (forall c, zbyte c < 128 -> visibleb (zbyte c) = true -> forallb ascii_plain (f c) = true) ->
  (forall c, 128 <= zbyte c -> f c = [c]) -> made_of visible s -> made_of plain (string_of_list_ascii (concat (f <$> list_ascii_of_string s))).
Proof.
  intros Ha Hh (rs & -> & H). unfold of_runes. rewrite list_ascii_of_string_of_list_ascii.
  induction H as [|r rs [Hr Hv] _ IH]; [apply made_of_empty|]. cbn [fmap list_fmap concat].
  rewrite fmap_app, concat_app, string_of_app. apply made_of_app; [|exact IH]. destruct (decide (r < 128)) as [D|D].
  - pose proof Hr as Hr'%scalar_value_iff. unfold encode_rune. rewrite Hr, decide_True by done. cbn. rewrite app_nil_r.
    apply made_of_ascii. rewrite list_ascii_of_string_of_list_ascii. specialize (Ha (byte_z r)). rewrite zbyte_byte_z in Ha by lia.
    specialize (Ha D (proj2 (visibleb_iff r) Hv)). rewrite Forall_forall. rewrite forallb_forall in Ha. intros x Hx%list_elem_of_In%Ha.
    apply andb_true_iff in Hx as [?%bool_decide_eq_true ?%check_ok]. done.
  - replace (concat (f <$> encode_rune r)) with (encode_rune r).
    + exists [r]. split; [unfold of_runes; cbn; by rewrite app_nil_r|]. repeat constructor; try done; apply Hv || lia.
    + assert (forall l, (forall c, c ∈ l -> 128 <= zbyte c) -> concat (f <$> l) = l) as K.
      { induction l as [|c l IHl]; intros Hl; [done|]. cbn. rewrite Hh by (apply Hl; left). cbn. f_equal. apply IHl.
        intros x Hx. apply Hl. by right. }
      symmetry. apply K. intros c. apply encode_high; [done|lia].
Qed.
Lemma made_of_inline value : made_of plain (markdownInline value).
Proof.
  apply made_of_replace; [| |apply made_of_safeLine]; intros c Hc; pose proof (inline_facts_hold c) as H;
    apply andb_true_iff in H as [_ H].
  - rewrite decide_True in H by done. intros Hv. rewrite Hv in H. cbn in H. by apply andb_true_iff in H as [? _].
  - rewrite decide_False in H by lia. apply andb_true_iff in H as [H _]. by apply bool_decide_eq_true in H.
Qed.
Lemma made_of_cell value : made_of plain (markdownCell value).
Proof.
  rewrite <- (string_of_list_ascii_of_string (markdownCell value)), markdownCell_bytes.
  apply made_of_replace; [| |apply made_of_safeLine]; intros c Hc; pose proof (inline_facts_hold c) as H;
    apply andb_true_iff in H as [_ H].
  - rewrite decide_True in H by done. intros Hv. rewrite Hv in H. cbn in H. by apply andb_true_iff in H as [_ ?].
  - rewrite decide_False in H by lia. apply andb_true_iff in H as [H H']. apply bool_decide_eq_true in H, H'. rewrite H. cbn. by rewrite H'.
Qed.

(** A disposition and a status of the vocabulary; the validator of cases does
    not ask for them. *)
Definition recognized (r : CaseResult) : Prop :=
  crPlanDisposition r ∈ [DispositionExecute; DispositionSkip; DispositionNotApplicable] ∧
  crExecutionStatus r ∈ [ExecutionPlanned; ExecutionRunning; ExecutionCompleted; ExecutionSkipped; ExecutionCancelled; ExecutionErrored].
Lemma bare_app c w rest : backslash ∉ w -> bare c (w ++ rest) = (bare c w + bare c rest)%nat.
Proof.
  induction w as [|x w IH]; intros H; [done|]. apply not_elem_of_cons in H as [Hx H]. cbn [app bare].
  rewrite !(decide_False (P := x = backslash)) by congruence. rewrite IH by done. lia.
Qed.
(** The words of the vocabulary: no markup but the underscore of one. *)
Definition plain_words (c : ascii) (w : string) : Prop :=
  made_of plain w ∧ backslash ∉ list_ascii_of_string w ∧
  bare c (list_ascii_of_string w) = (if decide (c = "_"%char ∧ w = DispositionNotApplicable) then 1 else 0)%nat.
Definition markup : list ascii := list_ascii_of_string "`*_[]<>|".
Lemma recognized_words c r : recognized r -> c ∈ markup ->
  plain_words c (crPlanDisposition r) ∧ plain_words c (crExecutionStatus r).
Proof.
  intros [D S] Hc. rewrite !elem_of_cons in D. rewrite !elem_of_cons in S. unfold plain_words.
  split; [destruct_or! D; [rewrite D..|by apply elem_of_nil in D]|destruct_or! S; [rewrite S..|by apply elem_of_nil in S]];
    (split; [constant|]); (split; [apply (bool_decide_unpack _); by vm_compute|]);
    cbn in Hc; rewrite !elem_of_cons in Hc; (destruct_or! Hc; [subst c; vm_compute; reflexivity..|by apply elem_of_nil in Hc]).
Qed.
Lemma row_markup c r : recognized r -> c ∈ markup -> bare c (list_ascii_of_string (markdown_row r)) =
  ((if decide (c = "|"%char) then 6 else 0) + bare c (list_ascii_of_string (crPlanDisposition r)))%nat.
Proof.
  intros Hr Hc. destruct (recognized_words c r Hr Hc) as [(_ & D1 & _) (_ & S1 & S2)].
  rewrite decide_False in S2 by (intros [_ E]; destruct Hr as [_ S]; rewrite E in S; by vm_compute in S; set_solver).
  assert (marked_cell c = true) as M.
  { cbn in Hc. rewrite !elem_of_cons in Hc. destruct_or! Hc; [subst; done..|by apply elem_of_nil in Hc]. }
  unfold markdown_row. cbv zeta.
  set (item := presentCase r). set (scenario := if cpDetailed item then _ else _). clearbody item scenario.
  assert (forall value rest, bare c (list_ascii_of_string (markdownCell value) ++ rest) = bare c rest) as C
    by (intros; apply (bare_escaped marked_cell); [apply cell_escaped|done]).
  rewrite !join_cons, !list_ascii_of_append. clear Hr.
  assert (forall rest, bare c (list_ascii_of_string (crExecutionStatus r) ++ rest) = bare c rest) as S
    by (intros rest; by rewrite bare_app, S2). pose proof (fun rest => bare_app c _ rest D1) as D. clear D1 S1 S2 M.
  set (m := if decide (c = "|"%char) then 1%nat else 0%nat).
  assert ((forall rest, bare c (list_ascii_of_string "| " ++ rest) = (m + bare c rest)%nat) ∧
          (forall rest, bare c (list_ascii_of_string " | " ++ rest) = (m + bare c rest)%nat) ∧
          bare c (list_ascii_of_string " |" ++ list_ascii_of_string (join [])) = m) as (B0 & B & B1).
  { subst m. clear - Hc. cbn in Hc. rewrite !elem_of_cons in Hc. destruct_or! Hc; [subst c; done..|by apply elem_of_nil in Hc]. }
  rewrite B0, C, B, D, B, S, B, C, B, C, B1. subst m. destruct (decide (c = "|"%char)); lia.
Qed.

Lemma row_columns r : recognized r ->
  bare "|" (list_ascii_of_string (markdown_row r)) = 6%nat ∧
  bare "_" (list_ascii_of_string (markdown_row r)) = (if decide (crPlanDisposition r = DispositionNotApplicable) then 1 else 0)%nat ∧
  forall c, c ∈ list_ascii_of_string "`*[]<>" -> bare c (list_ascii_of_string (markdown_row r)) = 0%nat.
Proof.
  intros Hr. assert (forall c, c ∈ markup -> bare c (list_ascii_of_string (crPlanDisposition r)) =
    (if decide (c = "_"%char ∧ crPlanDisposition r = DispositionNotApplicable) then 1 else 0)%nat) as D
    by (intros c Hc; by destruct (recognized_words c r Hr Hc) as [(_ & _ & ->) _]; repeat case_decide).
  split_and!; [| |intros c Hc].
  - rewrite row_markup, D by (done || set_solver). done.
  - rewrite row_markup, D by (done || set_solver). cbn. repeat case_decide; naive_solver.
  - assert (c ∈ markup ∧ c ≠ "|"%char ∧ c ≠ "_"%char) as (Hm & H1 & H2).
    { unfold markup. cbn in Hc |- *. rewrite !elem_of_cons in Hc. destruct_or! Hc; [subst c..|by apply elem_of_nil in Hc];
        (split_and!; [set_solver|done|done]). }
    rewrite row_markup, D by done. by rewrite !decide_False by tauto.
Qed.
Lemma made_of_row r : recognized r -> made_of plain (markdown_row r).
Proof.
  intros H. destruct (recognized_words "|" r H) as [[D _] [S _]]; [set_solver|]. apply made_of_join. pieces; apply made_of_cell.
Qed.

Definition markdown_finding_lines (many : bool) (f : findingPresentation) : nat :=
  ((if many then 1 else 0) + (if decide (fpRemediation f ≠ "") then 1 else 0))%nat.
Definition details_lines (item : casePresentation) : nat :=
  if cpDetailed item then
    (6 + ((if decide (cpReason item ≠ "") then 1 else 0) +
     (sum_list ((fun _ => 3) <$> cpAssertions item) +
      (sum_list (markdown_finding_lines (many_findings item) <$> cpFindings item) +
       (if decide (cpNextAction item ≠ "" ∧ length (cpFindings item) = 0%nat) then 1 else 0)))))%nat
  else 0%nat.
Lemma markdown_finding_text many i f : lines plain (markdown_finding_lines many f) (markdown_finding many i f).
Proof.
  apply lines_app; [destruct many; [one_line; [apply made_of_digits|apply made_of_inline..]|apply lines_none]|].
  case_decide; [one_line; apply made_of_inline|apply lines_none].
Qed.
Lemma markdown_assertion_text a : lines plain 3 (markdown_assertion a).
Proof. apply (lines_app _ 1 2); [one_line; apply made_of_inline|]. apply (lines_app _ 1 1); one_line; apply made_of_inline. Qed.
Lemma markdown_details_text item : lines plain (details_lines item) (markdown_details item).
Proof.
  unfold details_lines, markdown_details. destruct (cpDetailed item); [|apply lines_none].
  apply (lines_app _ 1 (5 + _)); [apply lines_newline|]. apply (lines_app _ 1 (4 + _)); [one_line; apply made_of_inline|].
  apply (lines_app _ 1 (3 + _)); [apply lines_newline|]. apply (lines_app _ 1 (2 + _)); [one_line; apply made_of_inline|].
  apply (lines_app _ 1 (1 + _)); [one_line; apply made_of_inline|]. apply (lines_app _ 1); [one_line; apply made_of_inline|].
  apply lines_app; [case_decide; [one_line; apply made_of_inline|apply lines_none]|].
  apply lines_app; [apply (lines_join _ _ _ (fun _ => True)); [by apply Forall_true|]; intros a _; apply markdown_assertion_text|].
  apply lines_app; [apply (lines_imap _ _ _ (fun _ => True)); [by apply Forall_true|]; intros i f _; apply markdown_finding_text|].
  case_decide; [one_line; apply made_of_inline|apply lines_none].
Qed.
Definition markdown_lines (bundle : Bundle) : nat :=
  (7 + ((if decide (0 < length (buConditions bundle)) then length (buConditions bundle) + 3 else 0) +
   (6 + (length (sortedCases bundle) + sum_list (details_lines ∘ presentCase <$> sortedCases bundle)))))%nat.

Lemma insert_case_Permutation r l : insert_case r l ≡ₚ r :: l.
Proof. induction l as [|x l IH]; [done|]. cbn. case_decide; [|done]. rewrite IH. by constructor. Qed.
Lemma sortedCases_Permutation bundle : sortedCases bundle ≡ₚ buCases bundle.
Proof.
  unfold sortedCases. induction (buCases bundle) as [|r l IH]; [done|]. cbn. by rewrite insert_case_Permutation, IH.
Qed.

(** [C25] Markdown reports keep their layout, when the dispositions and statuses
    of the cases are those of the vocabulary: the text has as many lines as
    its report calls for, all of visible runes and without angle brackets, so
    without HTML; the row of a case has exactly five columns, no unescaped
    backquote, star or bracket, and no unescaped underscore but the one of the
    disposition [not_applicable]; and whatever is passed to the two escapers,
    in a cell or elsewhere, comes out without an unescaped backquote, star,
    underscore or bracket. *)
Theorem markdown_is_inert bundle output (Hcases : Forall recognized (buCases bundle)) :
  Markdown bundle = Ok output ->
  (exists ls, output = list_ascii_of_string (join ((fun l => l +:+ newline) <$> ls)) ∧
     length ls = markdown_lines bundle ∧ Forall (fun l => Forall plain (runes l)) ls) ∧
  Forall (fun r => bare "|" (list_ascii_of_string (markdown_row r)) = 6%nat ∧
    bare "_" (list_ascii_of_string (markdown_row r)) =
      (if decide (crPlanDisposition r = DispositionNotApplicable) then 1 else 0)%nat ∧
    forall c, c ∈ list_ascii_of_string "`*[]<>" -> bare c (list_ascii_of_string (markdown_row r)) = 0%nat) (buCases bundle) ∧
  forall value c, c ∈ list_ascii_of_string "`*_[]<>" ->
    bare c (list_ascii_of_string (markdownInline value)) = 0%nat ∧ bare c (list_ascii_of_string (markdownCell value)) = 0%nat.
Proof.
  intros ([] & V & <-%answered)%bind_Ok. apply validated_run in V. pose proof made_of_digits as D.
  split; [|split; [eapply Forall_impl; [exact Hcases|]; apply row_columns|]].
  - apply (inert_lines plain); [intros l; apply made_of_runes|]. unfold markdown_lines.
    apply (lines_app _ 1 (6 + _)); [one_line|]. apply (lines_app _ 1 (5 + _)); [apply lines_newline|].
    apply (lines_app _ 1 (4 + _)); [one_line|]. apply (lines_app _ 1 (3 + _)); [one_line; apply made_of_inline|].
    apply (lines_app _ 1 (2 + _)); [one_line; unfold humanCheckResult; repeat case_decide; constant|].
    apply (lines_app _ 1 (1 + _)); [one_line; apply D|]. apply (lines_app _ 1); [apply lines_newline|]. apply lines_app.
    + case_decide; [|apply lines_none]. rewrite Nat.add_comm. apply (lines_app _ 1 (2 + _)); [one_line|].
      apply (lines_app _ 1 (1 + _)); [apply lines_newline|]. rewrite Nat.add_comm. apply lines_app; [|apply lines_newline].
      apply (lines_each _ _ (fun _ => True)); [by apply Forall_true|]. intros condition _. one_line; apply made_of_inline.
    + apply (lines_app _ 1 (5 + _)); [one_line|]. apply (lines_app _ 1 (4 + _)); [one_line|].
      apply (lines_app _ 1 (3 + _)); [one_line; apply D|]. apply (lines_app _ 1 (2 + _)); [apply lines_newline|].
      apply (lines_app _ 1 (1 + _)); [one_line|]. apply (lines_app _ 1); [one_line|]. apply lines_app.
      * apply (lines_each _ _ recognized); [by rewrite sortedCases_Permutation|]. intros r Hr. one_line. by apply made_of_row.
      * apply (lines_join _ _ _ (fun _ => True)); [by apply Forall_true|]. intros r _. apply markdown_details_text.
  - intros value c Hc. rewrite <- (app_nil_r (list_ascii_of_string (markdownInline value))), <- (app_nil_r (list_ascii_of_string (markdownCell value))).
    assert (marked c = true ∧ marked_cell c = true) as [? ?].
    { cbn in Hc. rewrite !elem_of_cons in Hc. destruct_or! Hc; [subst; done..|by apply elem_of_nil in Hc]. }
    by rewrite (bare_escaped marked), (bare_escaped marked_cell) by auto using inline_escaped, cell_escaped.
Qed.

(** ** JUnit *)
Definition plus_counts (a b : Report.Counts) : Report.Counts :=
  mkCounts (cPass a + cPass b) (cFail a + cFail b) (cWarn a + cWarn b) (cInconclusive a + cInconclusive b)
    (cSkipped a + cSkipped b) (cErrored a + cErrored b).
Lemma count_case_plus c r : count_case c r = plus_counts c (count_case (mkCounts 0 0 0 0 0 0) r).
Proof.
  destruct c as [p f w i s e]. unfold plus_counts, count_case.
  case_decide; [cbn; f_equal; lia|]. case_decide; [cbn; f_equal; lia|]. destruct (crVerdict r) as [v|]; [|cbn; f_equal; lia].
  repeat (case_decide; [cbn; f_equal; lia|]). cbn. f_equal; lia.
Qed.
Lemma count_case_comm c x y : count_case (count_case c x) y = count_case (count_case c y) x.
Proof.
  rewrite (count_case_plus (count_case c x) y), (count_case_plus c x), (count_case_plus (count_case c y) x), (count_case_plus c y).
  unfold plus_counts. cbn. f_equal; lia.
Qed.
Lemma count_Permutation l l' : l ≡ₚ l' -> forall c, foldl count_case c l = foldl count_case c l'.
Proof. induction 1; intros c; cbn; [done|done|by rewrite count_case_comm|congruence]. Qed.

(** A suite and the counts of the cases it has. *)
Record tallied (counts : Report.Counts) (cases : list CaseResult) (suite : junitSuite) : Prop := {
  tl_failures : jsFailures suite = cFail counts;
  tl_errors : jsErrors suite = cErrored counts;
  tl_skipped : jsSkipped suite = cSkipped counts + cWarn counts + cInconclusive counts;
  tl_names : jcName <$> jsCases suite = crScenarioID <$> cases;
  tl_elements : jsFailures suite = Z.of_nat (length (filter (fun c => is_Some (jcFailure c)) (jsCases suite))) ∧
                jsErrors suite = Z.of_nat (length (filter (fun c => is_Some (jcError c)) (jsCases suite))) ∧
                jsSkipped suite = Z.of_nat (length (filter (fun c => is_Some (jcSkipped c)) (jsCases suite)))
}.
Lemma filter_count_snoc {A} (P : A -> Prop) `{forall x, Decision (P x)} l x :
  Z.of_nat (length (filter P (l ++ [x]))) = Z.of_nat (length (filter P l)) + (if decide (P x) then 1 else 0).
Proof. rewrite filter_app, length_app, filter_cons. case_decide; cbn; lia. Qed.
Definition one {A} (o : option A) : Z := match o with Some _ => 1 | None => 0 end.
Lemma one_decide {A} (o : option A) : (if decide (is_Some o) then 1 else 0) = one o.
Proof. by destruct o. Qed.
Ltac pick := repeat first [rewrite decide_True by first [done|by left|by right]|rewrite decide_False by first [done|by intros [?|?]]].
Lemma junit_case_tallied profile counts cases suite r : tallied counts cases suite ->
  tallied (count_case counts r) (cases ++ [r]) (junit_case profile r suite) ∧ jsTests (junit_case profile r suite) = jsTests suite.
Proof.
  destruct counts as [p f w i s e], suite as [name tests failures errors skipped items]. intros [H1 H2 H3 H4 (H5 & H6 & H7)]. cbn in H1, H2, H3, H4, H5, H6, H7.
  assert (forall p' f' w' i' s' e' fa er sk item, crScenarioID r = jcName item ->
    f' = failures + one (jcFailure item) -> fa = f' ->
    e' = errors + one (jcError item) -> er = e' ->
    s' + w' + i' = skipped + one (jcSkipped item) -> sk = s' + w' + i' ->
    tallied (mkCounts p' f' w' i' s' e') (cases ++ [r]) (mkJunitSuite name tests fa er sk (items ++ [item]))) as K.
  { intros p' f' w' i' s' e' fa er sk item En Ef -> Ee -> Es ->. split; cbn -[filter]; [done|done|done| |].
    - rewrite !fmap_app, H4. cbn. by rewrite En.
    - rewrite !filter_count_snoc, !one_decide. lia. }
  unfold junit_case, count_case. case_decide; [split; [apply K; cbn; lia || done|done]|].
  case_decide; [split; [apply K; cbn; lia || done|done]|].
  destruct (crVerdict r) as [v|]; [|split; [apply K; cbn; lia || done|done]].
  destruct (decide (v = VerdictPass)) as [->|Np]; [pick; split; [apply K; cbn; lia || done|done]|].
  destruct (decide (v = VerdictFail)) as [->|Nf]; [pick; split; [apply K; cbn; lia || done|done]|].
  destruct (decide (v = VerdictWarn)) as [->|Nw]; [pick; split; [apply K; cbn; lia || done|done]|].
  destruct (decide (v = VerdictInconclusive)) as [->|Ni]; [pick; split; [apply K; cbn; lia || done|done]|].
  pick. split; [apply K; cbn; lia || done|done].
Qed.

Lemma junit_fold_tallied profile l : forall counts cases suite, tallied counts cases suite ->
  let suite' := foldl (fun suite r => junit_case profile r suite) suite l in
  tallied (foldl count_case counts l) (cases ++ l) suite' ∧ jsTests suite' = jsTests suite.
Proof.
  induction l as [|r l IH]; intros counts cases suite T; cbn; [by rewrite app_nil_r|].
  destruct (junit_case_tallied profile counts cases suite r T) as [T' E]. destruct (IH _ _ _ T') as [T'' E'].
  rewrite <- app_assoc in T''. split; [exact T''|]. etransitivity; [exact E'|exact E].
Qed.
Lemma sortedCases_Sorted bundle : Sorted string_le (crScenarioID <$> sortedCases bundle).
Proof.
  unfold sortedCases. induction (buCases bundle) as [|r l IH]; [constructor|]. cbn.
  induction (foldr insert_case [] l) as [|x k IHk]; cbn; [repeat constructor|].
  apply Sorted_inv in IH as [Hs Hh]. case_decide as D; cbn.
  - constructor; [by apply IHk|]. assert (string_le (crScenarioID x) (crScenarioID r)) as Hx by (apply string_le_lt; by right).
    destruct k as [|y k]; cbn; [by constructor|]. case_decide; constructor; [by inversion Hh|done].
  - constructor; [by constructor|]. constructor. by apply string_le_not_lt.
Qed.

(** [C26] The totals of a JUnit report are those of the bundle: its suite lists
    every case once, by scenario; failures and errors are the counted ones,
    skipped are the skipped, warned and inconclusive ones; and each total is
    the number of elements of its kind. *)
Theorem junit_totals_agree bundle :
  tallied (Count bundle) (sortedCases bundle) (junit_suite bundle) ∧
  jsTests (junit_suite bundle) = Z.of_nat (length (jsCases (junit_suite bundle))) ∧
  sortedCases bundle ≡ₚ buCases bundle ∧ Sorted string_le (crScenarioID <$> sortedCases bundle).
Proof.
  pose proof (sortedCases_Permutation bundle) as Hp.
  destruct (junit_fold_tallied (pinName (buProfile bundle)) (sortedCases bundle) (mkCounts 0 0 0 0 0 0) []
    (mkJunitSuite (pinName (buProfile bundle)) (Z.of_nat (length (buCases bundle))) 0 0 0 [])) as [T E]; [by split|].
  cbn [app jsTests] in T, E. split_and!; [|unfold junit_suite; rewrite E|done|apply sortedCases_Sorted].
  - unfold Count. by rewrite <- (count_Permutation _ _ Hp).
  - f_equal. pose proof (f_equal length (tl_names _ _ _ T)) as L. rewrite !length_fmap in L. by rewrite L, Hp.
Qed.

(** ** SARIF *)
Lemma exchange_spec x rest : let '(least, rest') := exchange x rest in
  least :: rest' ≡ₚ x :: rest ∧ Forall (fun y => ~ string_lt (srID y) (srID least)) rest'.
Proof.
  assert (forall a b c, ~ string_lt b a -> ~ string_lt c b -> ~ string_lt c a) as T.
  { intros a b c. rewrite <- !string_le_not_lt. intros. by transitivity b. }
  revert x. induction rest as [|y rest IH]; intros x; [done|]. cbn. case_decide as D.
  - specialize (IH y). destruct (exchange y rest) as [least rest']. destruct IH as [P F]. split.
    + by rewrite Permutation_swap, P.
    + constructor; [|done]. assert (~ string_lt (srID y) (srID least)) as Hy.
      { assert (y ∈ least :: rest') as [->|Hy]%elem_of_cons by (rewrite P; left); [apply string_lt_irrefl|].
        rewrite Forall_forall in F. by apply F. }
      apply (T _ _ _ Hy). apply string_le_not_lt, string_le_lt. by right.
  - specialize (IH x). destruct (exchange x rest) as [least rest']. destruct IH as [P F]. split.
    + rewrite Permutation_swap, P. apply Permutation_swap.
    + constructor; [|done]. assert (~ string_lt (srID x) (srID least)) as Hx.
      { assert (x ∈ least :: rest') as [->|Hx]%elem_of_cons by (rewrite P; left); [apply string_lt_irrefl|].
        rewrite Forall_forall in F. by apply F. }
      by apply (T _ _ _ Hx).
Qed.
Lemma exchange_sort_spec n : forall rules, length rules = n ->
  exchange_sort n rules ≡ₚ rules ∧ StronglySorted (fun a b => string_le (srID a) (srID b)) (exchange_sort n rules).
Proof.
  induction n as [|n IH]; intros [|x rest] L; try done; [split; [done|constructor]|]. cbn.
  pose proof (exchange_spec x rest) as E. destruct (exchange x rest) as [least rest']. destruct E as [P F].
  destruct (IH rest') as [P' S]; [apply Permutation_length in P; cbn in *; lia|]. split; [by rewrite P', P|].
  constructor; [done|]. rewrite P'. eapply Forall_impl; [exact F|]. intros y. apply string_le_not_lt.
Qed.

Definition rule_for (findings : list (CaseResult * Finding)) (id : string) (rule : sarifRule) : Prop :=
  exists finding, finding ∈ findings.*2 ∧ rule_id finding = id ∧ rule = rule_of finding.
Lemma sarif_rules_spec findings : forall rules : gmap string sarifRule,
  let rules' := foldl (fun rules '(_, finding) => <[rule_id finding := rule_of finding]> rules) rules findings in
  (forall id, is_Some (rules' !! id) <-> is_Some (rules !! id) ∨ id ∈ (rule_id <$> findings.*2)) ∧
  forall id rule, rules' !! id = Some rule -> rules !! id = Some rule ∨ rule_for findings id rule.
Proof.
  induction findings as [|[r f] findings IH]; intros rules; cbn [foldl].
  { cbv zeta. split; [intros id; cbn; rewrite elem_of_nil; tauto|by left]. }
  destruct (IH (<[rule_id f := rule_of f]> rules)) as [I1 I2]. cbv zeta. split.
  - intros id. rewrite I1, lookup_insert_is_Some. cbn. rewrite elem_of_cons.
    destruct (decide (rule_id f = id)) as [->|N]; [tauto|]. split; [intros [[?|[_ ?]]|?]|intros [?|[?|?]]]; auto; by subst.
  - intros id rule H. apply I2 in H as [H|(g & Hg & E)].
    + apply lookup_insert_Some in H as [[<- <-]|[_ H]]; [right|by left]. exists f. split_and!; [left|done|done].
    + right. exists g. split; [by right|done].
Qed.

Lemma sorted_strictly l : StronglySorted (fun a b => string_le (srID a) (srID b)) l -> NoDup (srID <$> l) ->
  StronglySorted string_lt (srID <$> l).
Proof.
  induction 1 as [|x l S IH F]; intros N; cbn; [constructor|]. apply NoDup_cons in N as [Hx N]. constructor; [by apply IH|].
  apply Forall_forall. intros id Hid. pose proof Hid as (y & -> & Hy)%list_elem_of_fmap. rewrite Forall_forall in F.
  destruct (proj1 (string_le_lt _ _) (F y Hy)) as [E|?]; [|done]. by rewrite E in Hx.
Qed.
Lemma results_rule_ids (findings : list (CaseResult * Finding)) :
  saRuleID <$> ((fun '(r, finding) => result_of r finding) <$> findings) = rule_id <$> findings.*2.
Proof. rewrite <- !list_fmap_compose. apply list_fmap_ext. by intros i [r f] _. Qed.
Lemma results_in_order (cases : list CaseResult) :
  (fun '(r, finding) => result_of r finding) <$> concat ((fun r => (fun finding => (r, finding)) <$> crFindings r) <$> cases) =
  concat ((fun r => result_of r <$> crFindings r) <$> cases).
Proof. induction cases as [|r cases IH]; [done|]. cbn. rewrite fmap_app, IH. f_equal. by rewrite <- list_fmap_compose. Qed.

(** [C27] The SARIF log is closed: its rules are sorted by identifier without
    repetition, they are exactly the rules that the results name, each rule
    describes a finding it stands for, and there is one result per finding,
    in the order of the sorted cases. *)
Theorem sarif_rules_cover_results {rro : RangeOrder string sarifRule} bundle :
  let log := sarif_log bundle in
  StronglySorted string_lt (srID <$> slRules log) ∧
  (forall id, id ∈ (srID <$> slRules log) <-> id ∈ (saRuleID <$> slResults log)) ∧
  Forall (fun rule => rule_for (sarif_findings bundle) (srID rule) rule) (slRules log) ∧
  slResults log = concat ((fun r => result_of r <$> crFindings r) <$> sortedCases bundle).
Proof.
  set (m := sarif_rules (sarif_findings bundle)). destruct (sarif_rules_spec (sarif_findings bundle) ∅) as [M1 M2].
  fold (sarif_rules (sarif_findings bundle)) in M1, M2. fold m in M1, M2.
  assert (forall id rule, m !! id = Some rule -> srID rule = id ∧ rule_for (sarif_findings bundle) id rule) as M3.
  { intros id rule H. apply M2 in H as [H|H]; [done|]. split; [|done]. destruct H as (f & _ & <- & ->). done. }
  set (rules := (range m).*2). assert (srID <$> rules = (range m).*1) as Hids.
  { unfold rules. rewrite <- list_fmap_compose. apply list_fmap_ext. intros i [id rule] H. apply list_elem_of_lookup_2 in H.
    cbn. by apply M3, elem_of_range. }
  destruct (exchange_sort_spec (length rules) rules eq_refl) as [P S]. cbv zeta. unfold sarif_log. cbn [slRules slResults]. fold m. fold rules.
  split_and!.
  - apply sorted_strictly; [done|]. rewrite P, Hids, range_perm. apply NoDup_fst_map_to_list.
  - intros id. rewrite P, Hids. split.
    + intros ([id' rule] & -> & H)%list_elem_of_fmap. apply elem_of_range in H. assert (is_Some (m !! id')) as Hs by eauto.
      apply M1 in Hs as [[? ?]|Hs]; [done|]. by rewrite results_rule_ids.
    + rewrite results_rule_ids. intros H. assert (is_Some (m !! id)) as [rule Hr] by (apply M1; by right).
      apply list_elem_of_fmap. exists (id, rule). split; [done|]. by apply elem_of_range.
  - rewrite P. unfold rules. rewrite Forall_fmap, Forall_forall. intros [id rule] H%elem_of_range. cbn. by destruct (M3 _ _ H) as [-> ?].
  - apply results_in_order.
Qed.
End Spec.

(** ** A hostile report *)
#[local] Instance sample_json : JSONLibrary := {
  NewDecoder raw := mkDecoder [Scalar SNull] io_EOF false;
  jcs_Transform raw := Ok raw;
  Sum256 data := resize 32 "0"%char data;
  Sum256_length data := length_resize data 32 "0"%char
}.
#[local] Instance sample_documents : DocumentLibrary := {
  document_json := sample_json;
  json_Valid _ := true;
  url_Parse _ := Err (ErrorNew (Text "no URL"))
}.
#[local] Instance sample_render : RenderLibrary := {
  unicode_ToUpper r := r;
  unicode_ToLower r := r;
  unicode_IsLetter _ := false;
  unicode_IsDigit _ := false;
  unicode_IsSpace _ := false;
  Marshal_value _ := Err io_EOF;
  fmt_Sprint _ := "value";
  xml_MarshalIndent _ := Ok [];
  xml_Header := [];
  sarif_MarshalIndent _ := Ok [];
  template_Execute _ := Ok [];
  har_MarshalIndent _ := Ok [];
  build_Version := "dev";
  Decode_Bundle _ := Err io_EOF
}.
#[local] Instance sample_unicode : UnicodeLaws.
Proof. by split. Qed.

Definition sample_digest : Digest := "sha256:0123456789abcdef0123456789abcdef0123456789abcdef0123456789abcdef".
Definition sample_ref : ObjectRef := mkObjectRef "IntentPlan" "" sample_digest.
Definition sample_pin : ArtifactPin := mkArtifactPin "Profile" "sample" "1" sample_digest.
Definition sample_case (disposition : PlanDisposition) (reason : string) : CaseResult :=
  mkCaseResult "scenario" disposition [] ExecutionSkipped None reason [] [] [] false false false "".
Definition sample_bundle (r : CaseResult) : Bundle :=
  mkBundle SchemaVersion "01890000-0000-7000-8000-000000000000" sample_ref sample_ref sample_pin [sample_pin] sample_digest
    (mkDenominatorSummary sample_digest 1 sample_digest 1 sample_digest 0) ProfileInconclusive ∅ [r]
    [mkCondition "note" (of_runes [27; 93; 48; 59; 120; 7; 111; 107; 10; 8238; 60])] 4.
(** A reason that would clear the screen and forge a line. *)
Definition hostile_reason : string := of_runes [27; 91; 50; 74; 10; 80; 65; 83; 83; 124; 42].
Definition hostile_bundle : Bundle := sample_bundle (sample_case DispositionSkip hostile_reason).

Example hostile_reason_is_shown_plainly :
  safeLine hostile_reason = " PASS|*" ∧ markdownCell hostile_reason = " PASS\|\*" ∧
  safeLine (cdMessage (default (mkCondition "" "") (buConditions hostile_bundle !! 0%nat))) = "ok  <".
Proof. vm_compute. done. Qed.

(** The validator accepts any disposition, and the Markdown table shows it as
    it is. *)
Example unknown_dispositions_break_the_table :
  let r := sample_case "skip | <b>" "reason" in
  Bundle_Validate (sample_bundle r) = Ok tt ∧ bare "|" (list_ascii_of_string (markdown_row r)) = 7%nat ∧
  String.index 0 "<b>" (markdown_row r) = Some 20%nat.
Proof. vm_compute. done. Qed.

Definition terminal_sample : list ascii := match Terminal hostile_bundle with Ok output => output | Err _ => [] end.
Lemma terminal_text_is_inert_witness :
  exists ls, terminal_sample = list_ascii_of_string (join ((fun l => l +:+ newline) <$> ls)) ∧ length ls = 12%nat.
Proof.
  destruct (terminal_text_is_inert hostile_bundle terminal_sample) as (ls & E & L & _); [vm_compute; reflexivity|].
  exists ls. split; [exact E|]. rewrite L. vm_compute. reflexivity.
Defined.
Definition markdown_sample : list ascii := match Markdown hostile_bundle with Ok output => output | Err _ => [] end.
Lemma markdown_is_inert_witness :
  exists ls, markdown_sample = list_ascii_of_string (join ((fun l => l +:+ newline) <$> ls)) ∧ length ls = 18%nat.
Proof.
  destruct (markdown_is_inert hostile_bundle markdown_sample) as ((ls & E & L & _) & _).
  - repeat constructor.
  - vm_compute. reflexivity.
  - exists ls. split; [exact E|]. rewrite L. vm_compute. reflexivity.
Defined.
